(* ===== verification/_CoqProject ===== *)
-Q . S2P
Prelude.v
PyContainers.v
PyFloat.v
FloatInt.v
PyText.v
Domain.v
Effects.v
Admission.v
KVCache.v
Torch.v
PagedKV.v
PagedKVSafe.v
PrefixCache.v
FairQueue.v
Redis.v
RedisAdmission.v
Lease.v
Json.v
RequestStore.v
Registry.v
Routing.v
Topology.v
TopologySafe.v
TopologyPlacement.v
Reservations.v
LocalRequest.v
LocalScheduler.v
LocalSchedulerSafe.v
TokenTypes.v
Transformers.v
InferenceWorker.v
BackendExecutor.v
TokenEngine.v
TokenEngineSafe.v
Worker.v
HuggingFaceRuntime.v
WorkerStream.v
TokenBackend.v
TokenSampling.v
TokenRows.v
TokenBackendSafe.v
WorkerSafe.v
WorkerApplication.v
WorkerFrame.v
ControlPlane.v
ControlPlaneSafe.v
Recovery.v
Wire.v
WorkerApi.v
Transport.v
TransportSafe.v
GatewayEdge.v
GatewayConfig.v
Gateway.v
GatewaySafe.v
GatewayStream.v
GatewayLifespan.v
SimulatedGpu.v
FaultInjection.v
WorkerFactory.v
Distributed.v
GatewayPlatform.v
GatewayMetrics.v
Observability.v
GatewayPages.v
