(* ===== verification/Prelude.v ===== *)
(** * Verified model of the GPU-aware LLM serving platform

    The platform serves language models in two ways. The single-process gateway ([src/apps/gateway]) checks
    requests at its edge and hands them either to a batching loop over a worker ([src/scheduler]) or to a
    continuous-batching token engine ([src/inference/token_engine.py]), whose backend runs a Hugging Face model
    ([src/runtime/huggingface]). The platform path admits requests of tenants, queues them fairly, routes them to
    workers and recovers them ([src/serving_platform], [src/apps/control_plane]); a worker is in the same process
    or in one of its own behind HTTP ([src/apps/worker]) and runs models on a real or a simulated runtime
    ([src/runtime]). The development translates this code function by function and proves what each part
    promises to the others.

    ** How the program is represented

    - A method that only computes is a Rocq function; one that may raise returns [res] (this file), whose error is
      the exception with its message. Effectful code is a computation of [Effects.Eff], a state with exceptions,
      with [hoare] triples as its program logic. Records are updated by [r <| field := v |>].
    - A [float] is an IEEE binary64 number computed by SpecFloat ([PyFloat]), an [int] an unbounded [Z], a [dict]
      whose order matters an association list ([PyContainers]), any other [dict] or [set] a [gmap] or [gset], a
      text its UTF-8 bytes ([PyText]).
    - A clock reading is an argument, or the value of a clock at the number of readings made so far; nothing is
      assumed of a clock unless a theorem says so. Sleeping is recorded, not waited for.
    - Objects that several components hold and mutate (request records, queued requests, sequences, key/value
      caches) live in a heap and are referred to by location, so aliasing is explicit; registries and stores
      copy records in and out, and hold values.
    - Code that runs under a lock is one step. Coroutines run one at a time between suspensions: a coroutine is
      either a function whose every [await] consumes the next entry of a script of what other tasks do
      ([LocalScheduler], [TokenEngine]), or a task whose stretches between suspensions are steps of an inductive
      relation that interleaves any number of tasks ([Gateway], [GatewayLifespan], [WorkerApplication]). Threads
      interleave at locked sections ([Worker], [WorkerStream], [BackendExecutor]). An asyncio lock whose holder
      never suspends is never waited for.
    - Code outside [src/] is an interface: a class with its documented laws, and an instance that meets them.
      These are Redis ([Redis]), PyTorch ([Torch], [TokenSampling]), transformers with its models, tokenizers
      and streamers ([Transformers], [WorkerStream]). SHA-256, [int] and [float] of a text, [str.isdigit],
      [urlparse], formatting, JSON text, random draws and the network are parameters. Of a Redis scan it is
      known which keys match its glob pattern; of a model call, which rows it extends in the cache and nothing
      of its logits.
    - The components are joined by interfaces of the source: [Routing.RoutingPolicy], [Worker.ModelRuntime],
      [TokenEngine.InferenceBackend], [ControlPlane.CoordinationLease]. A client is proved against the class; the
      implementations are its instances.

    ** The files

    Foundations.
    - [Prelude]: exceptions, result type, record update, sums, shared lemmas and tactics. [PyContainers],
      [PyFloat], [FloatInt], [PyText], [Json]: Python's containers, floats, whole numbers as floats, texts and
      JSON values. [Effects]: computations and their logic. [Redis], [Torch], [Transformers]: interfaces.

    Platform core, [src/serving_platform].
    - [Domain]: [domain/models.py], [lifecycle/request_machine.py]. [Admission]: [admission/controller.py].
      [RedisAdmission]: [admission/redis_controller.py] with its Lua scripts. [Lease]: [coordination/lease.py].
      [RequestStore]: [request_state/in_memory.py] and [redis_store.py]. [Registry]: [registry/in_memory.py].
      [Routing]: [routing/policies.py], [interfaces.py]. [Reservations]: [routing/reservations.py].
      [Topology], [TopologySafe], [TopologyPlacement]: [topology]. [FairQueue]: [scheduling/fair_queue.py].

    Inference, [src/inference] and [src/runtime].
    - [KVCache]: [kv_cache.py]. [PagedKV], [PagedKVSafe]: [paged_kv.py]. [PrefixCache]: [prefix_cache.py].
      [TokenTypes]: [token_types.py], [token_scheduling.py]. [TokenSampling]: [sampling.py]. [TokenEngine],
      [TokenEngineSafe]: [token_engine.py]. [BackendExecutor]: the executor of [backend.py]. [InferenceWorker]:
      [model_loader.py], [worker.py], [tokenizer_utils.py]. [WorkerStream]: [InferenceWorker.stream].
    - [HuggingFaceRuntime]: [huggingface/runtime.py] and the Hugging Face workers of [apps/worker/service.py].
      [TokenBackend], [TokenRows], [TokenBackendSafe]: [huggingface/token_backend.py]. [SimulatedGpu]:
      [simulated_gpu/runtime.py]. [FaultInjection]: [fault_injection.py]. [Distributed]: [runtime/distributed].

    Control plane and workers, [src/apps].
    - [Worker], [WorkerSafe], [WorkerFrame]: [worker/service.py] and [runtime/base/interface.py].
      [WorkerApplication]: [worker/application.py]. [WorkerFactory]: [worker/factory.py], [worker/main.py].
      [Wire]: [worker/serialization.py]. [WorkerApi]: [worker/api.py]. [Transport], [TransportSafe]:
      [worker/transport.py]. [ControlPlane], [ControlPlaneSafe], [Recovery]: [control_plane].

    Gateway, [src/apps/gateway] and [src/scheduler].
    - [LocalRequest]: [scheduler/request.py] and the counters of [gateway/metrics.py]. [LocalScheduler],
      [LocalSchedulerSafe]: [scheduler/queue.py], [no_batching.py], [dynamic_batch.py], [scheduler_loop.py].
      [GatewayEdge]: [errors.py], [schemas.py], [limits.py], [auth.py]. [GatewayConfig]: [config.py]. [Gateway],
      [GatewaySafe], [GatewayStream]: the handlers of [api.py] and [create_app]. [GatewayLifespan]: the lifespan of
      [main.py]. [GatewayPlatform]: the platform handler and its pipeline. [GatewayMetrics]: [Metrics.snapshot].
      [Observability]: [observability.py]. [GatewayPages]: health, readiness, metrics and error responses.

    ** What the theorems show

    - Generation. Whatever other tasks and the backend do, the engine's cache blocks are owned by exactly the
      active sequences, at most the configured number of them ([engine_resources_accounted]); what the readers of a
      stream took (the history field [sq_taken]) and what still waits for them is one event per generated token
      and a final one ([engine_streams_well_formed]); the work of an iteration is what the policy, the ages and
      the cache lengths demand ([engine_decision_sound]); a shutdown completes, or raises what the scheduler's
      task died of, for the task is awaited and not restarted ([engine_shutdown_completes]). Over a Hugging Face
      model, whatever the batching, chunking, prefix reuse and interleaving, a token is chosen on logits of a
      call whose row attends to exactly the sequence's own tokens ([generation_faithful]). Backend calls
      never overlap ([executor_one_lane]); the worker's own stream loses and invents nothing and ends
      ([worker_stream_faithful], [worker_stream_ends]); a sampled token is in the nucleus ([nucleus_token]).
    - Memory. The block allocator keeps its invariants and fails atomically ([kv_invariants_always_hold],
      [kv_failure_atomic]); the paged tensors refine one list of tokens per sequence ([paged_kv_refines]); the
      radix tree finds the longest cached prefix and the cache stays bounded ([longest_prefix_refines],
      [prefix_cache_bounded]).
    - Admission and state. Limits are never exceeded, a refusal has exactly its documented reasons, and the
      Redis scripts refine the in-process controller ([admission_never_oversubscribes], [admission_decide_iff],
      [redis_admission_refines]); at most one owner holds the lease ([lease_excludes]); the Redis store refines the
      one in memory ([redis_store_refines], its [list] for a key prefix without glob characters); a record's
      history follows the state machine ([lifecycle_history]).
    - Scheduling. The fair queue keeps its invariant, serves the first tenant that can pay with its request of
      greatest aged priority, makes progress, and ignores weights for small requests (the four theorems of
      [FairQueue]); routing picks an eligible and best worker ([routing_sound]); what a placement sees, what it is
      charged and when it is granted are exactly known ([placement_accounting]), and so is how the release of a
      shared charge lets a worker be overcommitted ([reservation_release_uncounts]); routes of a discovered
      topology are cheapest ([discovered_routes_cheapest]); the batching loop loses no request and stops
      ([scheduler_loses_nothing], [scheduler_shutdown_terminates]).
    - Workers. Every interleaving keeps the worker's invariant ([worker_invariant]); its application ends idle
      ([application_shuts_down_idle]); the remote handle acts as the worker does and knows what it was told,
      over a network that loses exchanges and answers ([remote_worker_faithful]); [submit] settles its request
      ([submit_settles]); what becomes of each of a lost worker's requests follows from its record and the clock
      ([recover_failed_worker_correct]); a process group is joined, used and left in order
      ([context_lifecycle]); the simulated memory is never overcommitted.
    - Gateway. Slots are counted exactly ([gateway_slots_accounted]); a streamed body sends exactly the engine's
      events and gives back its two slots once ([stream_delivers_events]); after the lifespan has closed the
      gateway nothing enters it ([shutdown_admits_nothing]); keys authenticate exactly their tenants
      ([authenticate_correct]); [create_app] fails on validated settings in two known cases only
      ([validated_settings_build]); traces are propagated ([trace_is_propagated]).

    Lemmas whose names say so show how the code falls short of its documentation, for instance
    [WorkerApplication.eviction_race_stops_worker], [WorkerStream.undecodable_stream_hangs],
    [BackendExecutor.second_cancellation_leaves_call] and [GatewayStream.closed_stream_record_stale].

    ** Bounds and fuel

    - [Topology.search] gets [search_fuel], one more than twice the links: each link is relaxed at most once from
      each end, and [TopologySafe] proves that the fuel is never used up. [PagedKV.write_tokens] gets the number
      of tokens, and each round writes at least one. [LocalScheduler.drain] gets one more than the queued items.
    - [FairQueue.pop_until] is proved to return for every fuel above an explicit bound. The loops of the gateway's
      scheduler and of the engine get a fuel that a theorem bounds where the loop must end (shutdown), and [EFuel]
      is one of the outcomes otherwise, where the loop is still running.
    - Scripts of awaits, lists of stops and step relations have no bound; the theorems hold for all of them.
    - Float comparisons need no bound; sums of whole costs are exact below 2^53 ([FloatInt]), and so are numbers
      in Lua, which is a hypothesis where it matters.

    ** Not modelled

    - The log messages themselves (what the access log holds is [Observability.structured_http_log]); the objects of
      OpenTelemetry ([Gateway.configure_opentelemetry] is whether [gateway/otel.py] makes them or raises); the
      telemetry protocol ([telemetry/interfaces.py]), which nothing implements.
    - A request that a worker already has is not handed to it again in [TransportSafe] (the code does not prevent
      it; [lost_reply_duplicates] shows what follows). A priority so large that Python cannot turn it into a float
      raises there and is infinite in [FairQueue.aging_key].
    - The benchmark and qualification scripts ([src/benchmark]): offline measurements that drive the parts above.
    - What FastAPI, pydantic, uvicorn, the CORS middleware and the event loop do themselves. Field constraints of
      bodies are stated by the types of the model; status codes of unhandled exceptions are as documented.
    - Device memory running out during a model call is an exception of the backend interface, not a resource.
    - Text outside ASCII in header values and [lower], and the iteration order of [set], which is that of
      [elements].  *)
From Stdlib Require Export ZArith Lia.
From stdpp Require Export base gmap strings option numbers list.

#[local] Set Warnings "-postfix-notation-not-level-1".

#[export] Set Default Goal Selector "!".
#[export] Set Warnings "-clear-no-such-hyp".

(** ** Python exceptions and the result type *)

(** The exception classes the modelled code raises or catches, with the message
    (or the payload) they carry. *)
Inductive PyErr : Type :=
| ValueError (msg : string)
| TypeError (msg : string)
| InvalidStateTransition (msg : string)
| KeyError (msg : string)
| IndexError (msg : string)
| ZeroDivisionError (msg : string)
| RuntimeError (msg : string)
| MemoryError (msg : string)
| OverflowError (msg : string)
| AssertionError (msg : string)
| TimeoutError (msg : string)
| KVCacheCapacityError (msg : string)
| KVCacheOwnershipError (msg : string)
| NoEligibleWorker (rejected : list (string * string))
| UnknownModel (msg : string)
| RequestDeadlineExceeded (msg : string)
| WorkerDispatchError (msg : string)
| PlatformAdmissionError (code reason : string)
| PlatformExecutionError (msg : string).

Inductive res (A : Type) : Type :=
| Ok (a : A)
| Err (e : PyErr).
Arguments Ok {A} a.
Arguments Err {A} e.

Definition is_ok {A} (r : res A) : bool := match r with Ok _ => true | Err _ => false end.

#[export] Instance res_ret : MRet res := λ A a, Ok a.
#[export] Instance res_bind : MBind res := λ A B f r,
  match r with Ok a => f a | Err e => Err e end.
#[export] Instance res_fmap : FMap res := λ A B f r,
  match r with Ok a => Ok (f a) | Err e => Err e end.

(** [raise_if b e] is the statement [if b: raise e]. *)
Definition raise_if (b : bool) (e : PyErr) : res unit := if b then Err e else Ok tt.

Lemma bind_Ok_inv {A B} (r : res A) (f : A → res B) (b : B) :
  (r ≫= f) = Ok b → ∃ a, r = Ok a ∧ f a = Ok b.
Proof. destruct r as [a|e]; simpl; [eauto|discriminate]. Qed.

Lemma raise_if_Ok b e u : raise_if b e = Ok u ↔ b = false.
Proof. destruct b, u; simpl; split; congruence. Qed.

(** ** Functional update of record fields

    [r <| f := v |>] is [r] with field [f] set to [v]; a record joins in by
    declaring how it is rebuilt from its projections ([Eta]). *)
Class Eta (R : Type) := eta : R → R.
Class FieldUpdate {R T : Type} (proj : R → T) := field_update : (T → T) → R → R.

Ltac solve_field_update proj :=
  lazymatch type of proj with
  | ?R → _ =>
    let e := constr:(@eta R _) in
    let e := eval hnf in e in
    lazymatch eval pattern proj in e with
    | ?g _ => exact (λ f r, g (λ x, f (proj x)) r)
    end
  end.
#[export] Hint Extern 1 (FieldUpdate ?proj) => solve_field_update proj : typeclass_instances.

Declare Scope py_scope.
Delimit Scope py_scope with py.
Notation "r <| proj ::= f |>" := (field_update (proj := proj) f r)
  (at level 12, left associativity, proj at next level) : py_scope.
Notation "r <| proj := v |>" := (field_update (proj := proj) (λ _, v) r)
  (at level 12, left associativity, proj at next level) : py_scope.
#[global] Open Scope py_scope.

(** ** Tactics *)

(** Case analysis on the innermost scrutinee of the goal, keeping the equation. *)
Ltac case_head :=
  match goal with
  | |- context [if ?b then _ else _] =>
    lazymatch b with context [if _ then _ else _] => fail | _ => destruct b eqn:? end
  | |- context [match ?x with _ => _ end] =>
    lazymatch x with context [match _ with _ => _ end] => fail | _ => destruct x eqn:? end
  end.
Ltac case_hyp H :=
  match type of H with
  | context [if ?b then _ else _] =>
    lazymatch b with context [if _ then _ else _] => fail | _ => destruct b eqn:? end
  | context [match ?x with _ => _ end] =>
    lazymatch x with context [match _ with _ => _ end] => fail | _ => destruct x eqn:? end
  end.
(** Turns the boolean tests of the code into the facts they decide. *)
Ltac bool_hyps :=
  repeat match goal with
  | H : _ && _ = true |- _ => apply andb_true_iff in H; destruct H
  | H : _ || _ = false |- _ => apply orb_false_iff in H; destruct H
  | H : negb _ = true |- _ => apply negb_true_iff in H
  | H : negb _ = false |- _ => apply negb_false_iff in H
  | H : bool_decide _ = true |- _ => apply bool_decide_eq_true in H
  | H : bool_decide _ = false |- _ => apply bool_decide_eq_false in H
  | H : (_ <? _)%Z = true |- _ => apply Z.ltb_lt in H
  | H : (_ <? _)%Z = false |- _ => apply Z.ltb_ge in H
  | H : (_ <=? _)%Z = true |- _ => apply Z.leb_le in H
  | H : (_ <=? _)%Z = false |- _ => apply Z.leb_gt in H
  | H : (_ =? _)%Z = true |- _ => apply Z.eqb_eq in H
  | H : (_ =? _)%Z = false |- _ => apply Z.eqb_neq in H
  | H : (_ =? _)%string = true |- _ => apply String.eqb_eq in H
  | H : (_ =? _)%string = false |- _ => apply String.eqb_neq in H
  end.

#[global] Open Scope Z_scope.

Lemma Forall_elem {A} (P : A → Prop) (l : list A) : Forall P l ↔ ∀ x, x ∈ l → P x.
Proof. apply list.Forall_forall. Qed.

(** ** Sums over lists and maps *)

Definition zsum {A} (f : A → Z) (l : list A) : Z := foldr (λ x acc, f x + acc) 0 l.

Section zsum.
Context {A : Type}.
Implicit Types (f g : A → Z) (l : list A).

Lemma zsum_cons f x l : zsum f (x :: l) = f x + zsum f l.
Proof. done. Qed.
Lemma zsum_app f l k : zsum f (l ++ k) = zsum f l + zsum f k.
Proof. induction l as [|x l IH]; simpl; [done|]. unfold zsum in *. simpl. lia. Qed.
Lemma zsum_perm f l k : l ≡ₚ k → zsum f l = zsum f k.
Proof. induction 1; unfold zsum in *; simpl; lia. Qed.
Lemma zsum_nonneg f l : (∀ x, x ∈ l → 0 <= f x) → 0 <= zsum f l.
Proof.
  induction l as [|x l IH]; intros Hf; simpl; [done|]. unfold zsum in *. simpl.
  assert (0 <= f x) by (apply Hf; left). specialize (IH (λ y Hy, Hf y (list_elem_of_further _ _ _ Hy))).
  lia.
Qed.
Lemma zsum_elem_le f l x : (∀ y, y ∈ l → 0 <= f y) → x ∈ l → f x <= zsum f l.
Proof.
  intros Hf Hx. apply list_elem_of_split in Hx as (l1 & l2 & ->).
  rewrite zsum_app. unfold zsum at 2. simpl. fold (zsum f l2).
  assert (0 <= zsum f l1) by (apply zsum_nonneg; intros; apply Hf; set_solver).
  assert (0 <= zsum f l2) by (apply zsum_nonneg; intros; apply Hf; set_solver). lia.
Qed.
Lemma zsum_ext f g l : (∀ x, x ∈ l → f x = g x) → zsum f l = zsum g l.
Proof.
  induction l as [|x l IH]; intros H; [done|]. unfold zsum in *. simpl.
  rewrite (H x) by left. f_equal. apply IH. intros y Hy. apply H. by right.
Qed.
End zsum.

Definition msum {K A} `{Countable K} (f : K → A → Z) (m : gmap K A) : Z :=
  map_fold (λ k x acc, f k x + acc) 0 m.

Section msum.
Context {K A : Type} `{Countable K}.
Implicit Types (f g : K → A → Z) (m : gmap K A).

Lemma msum_empty f : msum f ∅ = 0.
Proof. apply map_fold_empty. Qed.
Lemma msum_insert_None f m k x : m !! k = None → msum f (<[k:=x]> m) = f k x + msum f m.
Proof. intros Hk. unfold msum.
  apply (map_fold_insert_L (λ k x acc, f k x + acc)); [intros; lia|done]. Qed.
Lemma msum_delete f m k x : m !! k = Some x → msum f m = f k x + msum f (delete k m).
Proof. intros Hk. unfold msum.
  apply (map_fold_delete_L (λ k x acc, f k x + acc)); [intros; lia|done]. Qed.
Lemma msum_delete_Some f m k x : m !! k = Some x → msum f (delete k m) = msum f m - f k x.
Proof. intros Hk. rewrite (msum_delete f m k x Hk). lia. Qed.
Lemma msum_insert_Some f m k x y :
  m !! k = Some x → msum f (<[k:=y]> m) = msum f m - f k x + f k y.
Proof.
  intros Hk. rewrite <- (insert_delete_eq m), msum_insert_None by apply lookup_delete_eq.
  rewrite (msum_delete f m k x Hk). lia.
Qed.
Lemma msum_nonneg f m : (∀ k x, m !! k = Some x → 0 <= f k x) → 0 <= msum f m.
Proof.
  induction m as [|k x m Hk IH] using map_ind; intros Hf; [by rewrite msum_empty|].
  rewrite msum_insert_None by done.
  assert (0 <= f k x) by (apply Hf; apply lookup_insert_eq).
  assert (0 <= msum f m); [|lia]. apply IH. intros k' x' Hk'. apply Hf.
  rewrite lookup_insert_ne; [done|congruence].
Qed.
Lemma msum_ext f g m : (∀ k x, m !! k = Some x → f k x = g k x) → msum f m = msum g m.
Proof.
  induction m as [|k x m Hk IH] using map_ind; intros Hf; [by rewrite !msum_empty|].
  rewrite !msum_insert_None by done. rewrite (Hf k x) by apply lookup_insert_eq. f_equal.
  apply IH. intros k' x' Hk'. apply Hf. rewrite lookup_insert_ne; [done|congruence].
Qed.
Lemma msum_elem_le f m k x :
  (∀ k x, m !! k = Some x → 0 <= f k x) → m !! k = Some x → f k x <= msum f m.
Proof.
  intros Hf Hk. rewrite (msum_delete f m k x Hk).
  assert (0 <= msum f (delete k m)); [|lia]. apply msum_nonneg. intros k' x' Hk'.
  apply lookup_delete_Some in Hk' as [_ ?]. by apply Hf.
Qed.
Lemma msum_le f g m : (∀ k x, m !! k = Some x → f k x <= g k x) → msum f m <= msum g m.
Proof.
  induction m as [|k x m Hk IH] using map_ind; intros Hf; [by rewrite !msum_empty|].
  rewrite !msum_insert_None by done.
  assert (f k x <= g k x) by (apply Hf; apply lookup_insert_eq).
  assert (msum f m <= msum g m); [|lia]. apply IH. intros k' x' Hk'. apply Hf.
  rewrite lookup_insert_ne; [done|congruence].
Qed.
Lemma msum_size f m : (∀ k x, m !! k = Some x → f k x = 1) → msum f m = Z.of_nat (size m).
Proof.
  induction m as [|k x m Hk IH] using map_ind; intros Hf;
    [by rewrite msum_empty, map_size_empty|].
  rewrite msum_insert_None, map_size_insert_None by done.
  rewrite (Hf k x) by apply lookup_insert_eq. rewrite IH; [lia|].
  intros k' x' Hk'. apply Hf. rewrite lookup_insert_ne; [done|congruence].
Qed.
End msum.

(** ** [collections.Counter]: missing keys read as zero *)

Definition cget {K} `{Countable K} (c : gmap K Z) (k : K) : Z := default 0 (c !! k).
Definition cadd {K} `{Countable K} (k : K) (d : Z) (c : gmap K Z) : gmap K Z :=
  <[k := cget c k + d]> c.

Section counter.
Context {K : Type} `{Countable K}.
Implicit Types (c : gmap K Z).

Lemma cget_empty k : cget (∅ : gmap K Z) k = 0.
Proof. unfold cget. by rewrite lookup_empty. Qed.
Lemma cget_cadd c k k' d :
  cget (cadd k d c) k' = cget c k' + (if decide (k = k') then d else 0).
Proof.
  unfold cget at 1, cadd. rewrite lookup_insert. case_decide as E; subst; simpl; [done|].
  unfold cget. lia.
Qed.
Lemma msum_cadd c k d : msum (λ _ v, v) (cadd k d c) = msum (λ _ v, v) c + d.
Proof.
  unfold cadd, cget. destruct (c !! k) as [v|] eqn:E; simpl.
  - rewrite (msum_insert_Some _ _ _ v) by done. lia.
  - rewrite msum_insert_None by done. lia.
Qed.
End counter.

