(* ===== verification/PyContainers.v ===== *)
(** Python's containers as the code uses them: insertion-ordered dictionaries
    ([dict], [OrderedDict]), the stable [sorted], [min]/[max] with a key, and the
    order on [str]. *)
From S2P Require Import Prelude.
From stdpp Require Import sorting.

#[local] Open Scope Z_scope.

(** ** Insertion-ordered dictionaries *)

Section odict.
Context {K V : Type} `{EqDecision K}.
Implicit Types (d : list (K * V)) (k : K) (v : V).

(** [d.get(k)]. *)
Fixpoint od_get (k : K) d : option V :=
  match d with
  | [] => None
  | (k', v) :: d' => if decide (k = k') then Some v else od_get k d'
  end.
(** [d[k] = v]: an existing key keeps its place, a new key goes last. *)
Fixpoint od_set (k : K) (v : V) d : list (K * V) :=
  match d with
  | [] => [(k, v)]
  | (k', v') :: d' => if decide (k = k') then (k', v) :: d' else (k', v') :: od_set k v d'
  end.
(** [d.pop(k, None)], without the returned value. *)
Definition od_del (k : K) d : list (K * V) := filter (λ p, p.1 ≠ k) d.
Definition od_has (k : K) d : bool := bool_decide (is_Some (od_get k d)).
Definition od_values d : list V := d.*2.
(** [OrderedDict.move_to_end(k)]. *)
Definition od_move_to_end (k : K) d : list (K * V) :=
  match od_get k d with
  | Some v => od_del k d ++ [(k, v)]
  | None => d
  end.
(** Keys are unique, as in every Python dictionary. *)
Definition od_ok d : Prop := NoDup d.*1.

Lemma od_get_set d k k' v :
  od_get k' (od_set k v d) = if decide (k' = k) then Some v else od_get k' d.
Proof.
  induction d as [|[k0 v0] d IH]; simpl; [by destruct (decide (k' = k))|].
  destruct (decide (k = k0)); simpl; destruct (decide (k' = k0)), (decide (k' = k));
    rewrite ?IH; congruence.
Qed.
Lemma od_get_set_eq d k v : od_get k (od_set k v d) = Some v.
Proof. rewrite od_get_set. by destruct (decide (k = k)). Qed.
Lemma od_get_set_ne d k k' v : k' ≠ k → od_get k' (od_set k v d) = od_get k' d.
Proof. intros. rewrite od_get_set. by destruct (decide (k' = k)). Qed.

Lemma od_del_cons d k k0 v0 :
  od_del k ((k0, v0) :: d) = if decide (k0 = k) then od_del k d else (k0, v0) :: od_del k d.
Proof.
  unfold od_del. rewrite filter_cons. simpl.
  destruct (decide (k0 = k)) as [->|Hne]; [by rewrite decide_False by auto|by rewrite decide_True].
Qed.
Lemma od_get_del d k k' :
  od_get k' (od_del k d) = if decide (k' = k) then None else od_get k' d.
Proof.
  induction d as [|[k0 v0] d IH]; simpl; [by destruct (decide (k' = k))|].
  rewrite od_del_cons. destruct (decide (k0 = k)); simpl; rewrite ?IH;
    destruct (decide (k' = k0)), (decide (k' = k)); congruence.
Qed.

Lemma od_get_elem d k v : od_get k d = Some v → (k, v) ∈ d.
Proof.
  induction d as [|[k0 v0] d IH]; simpl; [done|].
  destruct (decide (k = k0)); intros H; simplify_eq; [left|right; auto].
Qed.
Lemma od_get_None d k : od_get k d = None ↔ k ∉ d.*1.
Proof.
  induction d as [|[k0 v0] d IH]; simpl; [split; [intros _ ?%not_elem_of_nil; done|done]|].
  rewrite not_elem_of_cons, <- IH. destruct (decide (k = k0)); intuition congruence.
Qed.
Lemma od_elem_get d k v : od_ok d → (k, v) ∈ d → od_get k d = Some v.
Proof.
  unfold od_ok. induction d as [|[k0 v0] d IH]; simpl; [intros _ ?%not_elem_of_nil; done|].
  intros [Hn Hd]%NoDup_cons [Heq|Hin]%elem_of_cons.
  - simplify_eq. by destruct (decide (k0 = k0)).
  - destruct (decide (k = k0)) as [->|]; [|auto].
    exfalso. apply Hn. apply list_elem_of_fmap. by exists (k0, v).
Qed.

Lemma od_ok_cons d k v : od_ok ((k, v) :: d) ↔ od_get k d = None ∧ od_ok d.
Proof. unfold od_ok. rewrite od_get_None, fmap_cons. simpl. by rewrite NoDup_cons. Qed.
Lemma od_set_new d k v : od_get k d = None → od_set k v d = d ++ [(k, v)].
Proof.
  induction d as [|[k0 v0] d IH]; simpl; [done|]. destruct (decide (k = k0)); [done|].
  intros. by rewrite IH.
Qed.

Lemma od_set_fst d k v : (od_set k v d).*1 = if decide (k ∈ d.*1) then d.*1 else d.*1 ++ [k].
Proof.
  induction d as [|[k0 v0] d IH]; [done|].
  cbn [od_set]. destruct (decide (k = k0)) as [->|Hne]; rewrite !fmap_cons; cbn [fst].
  - rewrite decide_True; [done|left].
  - rewrite IH. destruct (decide (k ∈ d.*1)) as [H1|H1].
    + rewrite decide_True; [done|by right].
    + rewrite decide_False; [done|]. by apply not_elem_of_cons.
Qed.
Lemma od_set_ok d k v : od_ok d → od_ok (od_set k v d).
Proof.
  unfold od_ok. intros Hd. rewrite od_set_fst. destruct (decide (k ∈ _)) as [|H]; [done|].
  apply NoDup_app. split_and!; [done| |apply NoDup_singleton].
  intros x Hx ->%list_elem_of_singleton. done.
Qed.
Lemma od_set_length d k v :
  length (od_set k v d) = (length d + match od_get k d with Some _ => 0 | None => 1 end)%nat.
Proof.
  induction d as [|[k0 v0] d IH]; simpl; [done|].
  destruct (decide (k = k0)); simpl; [lia|rewrite IH; lia].
Qed.
Lemma od_del_ok d k : od_ok d → od_ok (od_del k d).
Proof.
  unfold od_ok. induction d as [|[k0 v0] d IH]; simpl; [done|].
  intros [Hn Hd]%NoDup_cons. rewrite od_del_cons. destruct (decide (k0 = k)); [auto|].
  simpl. apply NoDup_cons. split; [|auto]. contradict Hn.
  apply list_elem_of_fmap in Hn as ([k1 v1] & -> & [_ Hin]%list_elem_of_filter).
  apply list_elem_of_fmap. by eexists.
Qed.
Lemma od_move_to_end_ok d k : od_ok d → od_ok (od_move_to_end k d).
Proof.
  intros Hd. unfold od_move_to_end. destruct (od_get k d) as [v|] eqn:E; [|done].
  unfold od_ok. rewrite fmap_app. apply NoDup_app. split_and!.
  - by apply od_del_ok.
  - intros x Hx ->%list_elem_of_singleton. revert Hx. change (k ∉ (od_del k d).*1).
    apply od_get_None. rewrite od_get_del. by destruct (decide (k = k)).
  - apply NoDup_singleton.
Qed.
Lemma od_get_app d1 d2 k :
  od_get k (d1 ++ d2) = match od_get k d1 with Some v => Some v | None => od_get k d2 end.
Proof.
  induction d1 as [|[k0 v0] d1 IH]; simpl; [done|]. by destruct (decide (k = k0)).
Qed.
Lemma od_get_move_to_end d k k' : od_get k' (od_move_to_end k d) = od_get k' d.
Proof.
  unfold od_move_to_end. destruct (od_get k d) as [v|] eqn:E; [|done].
  rewrite od_get_app, od_get_del. simpl. destruct (decide (k' = k)); [congruence|].
  by destruct (od_get k' d).
Qed.
Lemma od_del_id d k : od_get k d = None → od_del k d = d.
Proof.
  induction d as [|[k0 v0] d IH]; simpl; [done|]. rewrite od_del_cons.
  destruct (decide (k = k0)), (decide (k0 = k)); try congruence.
  intros. f_equal. auto.
Qed.
Lemma od_del_head d k v : od_ok ((k, v) :: d) → od_del k ((k, v) :: d) = d.
Proof. intros [Hn _]%od_ok_cons. rewrite od_del_cons, decide_True by done. by apply od_del_id. Qed.
Lemma od_move_to_end_perm d k : od_ok d → od_move_to_end k d ≡ₚ d.
Proof.
  intros Hd. unfold od_move_to_end. destruct (od_get k d) as [v|] eqn:E; [|done].
  induction d as [|[k0 v0] d IH]; simpl in E; [done|].
  pose proof Hd as Hd'. apply od_ok_cons in Hd' as [Hn Hok]. destruct (decide (k = k0)) as [->|].
  - simplify_eq. rewrite od_del_head by done. symmetry. apply Permutation_cons_append.
  - rewrite od_del_cons, decide_False by congruence. simpl. by rewrite IH.
Qed.

Section zsum.
Context (f : K * V → Z).
Lemma zsum_od_set_new d k v : od_get k d = None → zsum f (od_set k v d) = zsum f d + f (k, v).
Proof.
  unfold zsum. induction d as [|[k0 v0] d IH]; simpl; intros H; [lia|].
  destruct (decide (k = k0)); [done|]. simpl. rewrite IH by done. lia.
Qed.
Lemma zsum_od_set_old d k v v' :
  od_get k d = Some v' → zsum f (od_set k v d) = zsum f d - f (k, v') + f (k, v).
Proof.
  unfold zsum. induction d as [|[k0 v0] d IH]; simpl; intros H; [done|].
  destruct (decide (k = k0)) as [->|]; simpl; [simplify_eq; lia|]. rewrite IH by done. lia.
Qed.
Lemma zsum_od_del d k v :
  od_ok d → od_get k d = Some v → zsum f (od_del k d) = zsum f d - f (k, v).
Proof.
  unfold od_ok, zsum. induction d as [|[k0 v0] d IH]; simpl; intros Hd H; [done|].
  apply NoDup_cons in Hd as [Hn Hd]. rewrite od_del_cons.
  destruct (decide (k = k0)) as [->|], (decide (k0 = k0)); try congruence.
  - simplify_eq. rewrite od_del_id; [lia|]. by apply od_get_None.
  - destruct (decide (k0 = k)); [congruence|]. simpl. rewrite IH by done. lia.
Qed.
End zsum.
End odict.

(** The dictionary comprehension [{key(x): f(x) for x in xs}]. *)
Lemma od_build_ok {K V A} `{EqDecision K} (key : A → K) (f : A → V) xs (d : list (K * V)) :
  od_ok d → od_ok (foldl (λ d x, od_set (key x) (f x) d) d xs).
Proof. revert d. induction xs as [|x xs IH]; intros d Hd; simpl; [done|]. apply IH. by apply od_set_ok. Qed.
Lemma od_build_keys {K V A} `{EqDecision K} (key : A → K) (f : A → V) xs (d : list (K * V)) k :
  k ∈ (foldl (λ d x, od_set (key x) (f x) d) d xs).*1 ↔ k ∈ d.*1 ∨ k ∈ key <$> xs.
Proof.
  revert d. induction xs as [|x xs IH]; intros d; simpl.
  - split; [by left|]. intros [?|?%not_elem_of_nil]; done.
  - rewrite IH, od_set_fst, elem_of_cons. case_decide; rewrite ?elem_of_app, ?list_elem_of_singleton; naive_solver.
Qed.

Lemma od_build_get {K V A} `{EqDecision K} (key : A → K) (f : A → V) xs (d : list (K * V)) k v :
  od_get k (foldl (λ d x, od_set (key x) (f x) d) d xs) = Some v →
  od_get k d = Some v ∨ ∃ x, x ∈ xs ∧ key x = k ∧ f x = v.
Proof.
  revert d. induction xs as [|x xs IH]; intros d; simpl; [by left|].
  intros [H|(y & ? & ?)]%IH; [|right; exists y; split; [by right|done]].
  rewrite od_get_set in H. case_decide as E; [|by left]. right. exists x. split; [left|naive_solver].
Qed.
Lemma od_build_length {K V A} `{EqDecision K} (key : A → K) (f : A → V) xs :
  NoDup (key <$> xs) → length (foldl (λ d x, od_set (key x) (f x) d) [] xs) = length xs.
Proof.
  intros Hnd. set (d := foldl _ [] xs).
  assert (d.*1 ≡ₚ key <$> xs) as Hp; [|by rewrite <- (length_fmap fst d), Hp, length_fmap].
  apply NoDup_Permutation; [by apply od_build_ok; constructor|done|].
  intros k. unfold d. rewrite od_build_keys. split; [intros [?%not_elem_of_nil|?]; done|by right].
Qed.

Create HintDb odict.
Create Rewrite HintDb odict.
#[export] Hint Resolve od_set_ok od_del_ok od_move_to_end_ok : odict.
#[export] Hint Rewrite @od_get_set_eq @od_get_set @od_get_del @od_get_move_to_end : odict.

(** ** Filters *)

Lemma filter_same {A} (P Q : A → Prop) `{∀ x, Decision (P x)} `{∀ x, Decision (Q x)} (l : list A) :
  (∀ x, x ∈ l → (P x ↔ Q x)) → filter P l = filter Q l.
Proof.
  induction l as [|x l IH]; intros Heq; [done|]. rewrite !filter_cons.
  rewrite IH by (intros y Hy; apply Heq; by right).
  pose proof (Heq x (list_elem_of_here _ _)). repeat case_decide; tauto.
Qed.

(** ** [sorted(..., key=...)]: a stable sort *)

Section stable_sort.
Context {A : Type} (le : A → A → bool).

Fixpoint sort_insert (x : A) (l : list A) : list A :=
  match l with
  | [] => [x]
  | y :: l' => if le x y then x :: l else y :: sort_insert x l'
  end.
Definition sorted_by (l : list A) : list A := foldr sort_insert [] l.

Lemma sort_insert_perm x l : sort_insert x l ≡ₚ x :: l.
Proof.
  induction l as [|y l IH]; simpl; [done|]. destruct (le x y); [done|].
  rewrite IH. constructor.
Qed.
Lemma sorted_by_perm l : sorted_by l ≡ₚ l.
Proof. induction l as [|x l IH]; simpl; [done|]. by rewrite sort_insert_perm, IH. Qed.
Lemma elem_of_sorted_by x l : x ∈ sorted_by l ↔ x ∈ l.
Proof. by rewrite sorted_by_perm. Qed.
Lemma length_sorted_by l : length (sorted_by l) = length l.
Proof. by rewrite sorted_by_perm. Qed.

Hypothesis le_total : ∀ x y, le x y = false → le y x = true.

(** The order need only be transitive on the elements of the list. *)
Lemma sort_insert_sorted (P : A → Prop) x l :
  (∀ x y z, P x → P y → P z → le x y = true → le y z = true → le x z = true) →
  Forall P (x :: l) →
  StronglySorted (λ a b, le a b = true) l → StronglySorted (λ a b, le a b = true) (sort_insert x l).
Proof using le_total.
  intros Htrans [Hx Hall]%Forall_cons Hl. induction Hl as [|y l Hl IH Hy]; simpl; [repeat constructor|].
  apply Forall_cons in Hall as [Hpy Hall]. destruct (le x y) eqn:E.
  - constructor; [by constructor|]. constructor; [done|]. rewrite Forall_elem in Hy, Hall |- *.
    intros z Hz. by apply (Htrans x y z); auto.
  - constructor; [by apply IH|]. rewrite sort_insert_perm. constructor; auto.
Qed.
Lemma sorted_by_sorted_on (P : A → Prop) l :
  (∀ x y z, P x → P y → P z → le x y = true → le y z = true → le x z = true) →
  Forall P l → StronglySorted (λ a b, le a b = true) (sorted_by l).
Proof using le_total.
  intros Htrans Hl. induction Hl as [|x l Hx Hl IH]; simpl; [constructor|].
  apply (sort_insert_sorted P); [done| |done]. constructor; [done|]. by rewrite sorted_by_perm.
Qed.
Lemma sorted_by_sorted l :
  (∀ x y z, le x y = true → le y z = true → le x z = true) →
  StronglySorted (λ a b, le a b = true) (sorted_by l).
Proof using le_total.
  intros Htrans. apply (sorted_by_sorted_on (λ _, True)); [eauto|]. by apply Forall_true.
Qed.
End stable_sort.

(** ** [min(xs, key=...)] and [max(xs, key=...)]: the first extremal element *)

Section extremum.
Context {A : Type} (lt : A → A → bool).

Fixpoint min_from (best : A) (l : list A) : A :=
  match l with
  | [] => best
  | x :: l' => min_from (if lt x best then x else best) l'
  end.
Fixpoint max_from (best : A) (l : list A) : A :=
  match l with
  | [] => best
  | x :: l' => max_from (if lt best x then x else best) l'
  end.
Definition py_min (l : list A) : option A :=
  match l with [] => None | x :: l' => Some (min_from x l') end.
Definition py_max (l : list A) : option A :=
  match l with [] => None | x :: l' => Some (max_from x l') end.

Lemma min_from_elem b l : min_from b l ∈ b :: l.
Proof.
  revert b. induction l as [|x l IH]; intros b; simpl; [left|].
  specialize (IH (if lt x b then x else b)). destruct (lt x b); set_solver.
Qed.
Lemma max_from_elem b l : max_from b l ∈ b :: l.
Proof.
  revert b. induction l as [|x l IH]; intros b; simpl; [left|].
  specialize (IH (if lt b x then x else b)). destruct (lt b x); set_solver.
Qed.
Lemma py_min_elem l x : py_min l = Some x → x ∈ l.
Proof. destruct l; simpl; [done|]. intros [= <-]. apply min_from_elem. Qed.
Lemma py_max_elem l x : py_max l = Some x → x ∈ l.
Proof. destruct l; simpl; [done|]. intros [= <-]. apply max_from_elem. Qed.
Lemma py_min_None l : py_min l = None ↔ l = [].
Proof. by destruct l. Qed.
Lemma py_max_None l : py_max l = None ↔ l = [].
Proof. by destruct l. Qed.

(** On the keys that occur, [lt] is irreflexive and its complement transitive. *)
Variable P : A → Prop.
Hypothesis lt_irrefl : ∀ x, P x → lt x x = false.
Hypothesis nlt_trans : ∀ x y z,
  P x → P y → P z → lt x y = false → lt y z = false → lt x z = false.
Hypothesis lt_nlt : ∀ x y, P x → P y → lt x y = true → lt y x = false.

Lemma min_from_spec b l :
  P b → Forall P l → ∀ y, y ∈ b :: l → lt y (min_from b l) = false.
Proof using lt_irrefl nlt_trans lt_nlt.
  revert b. induction l as [|x l IH]; intros b Hb Hl y Hy; simpl.
  - apply list_elem_of_singleton in Hy as ->. auto.
  - apply Forall_cons in Hl as [Hx Hl].
    set (b' := if lt x b then x else b).
    assert (P b') as Hb' by (unfold b'; by destruct (lt x b)).
    assert (P (min_from b' l)) as Hm.
    { pose proof (min_from_elem b' l) as [->|Hin]%elem_of_cons; [done|].
      rewrite Forall_elem in Hl. auto. }
    assert (lt b' (min_from b' l) = false) as Hmin by (apply IH; [done|done|left]).
    apply elem_of_cons in Hy as [->|Hy].
    + eapply nlt_trans; [done|exact Hb'|done| |done]. subst b'. destruct (lt x b) eqn:E; auto.
    + apply elem_of_cons in Hy as [->|Hy]; [|apply IH; [done|done|by right]].
      eapply nlt_trans; [done|exact Hb'|done| |done]. unfold b'. destruct (lt x b) eqn:E; auto.
Qed.
Lemma py_min_spec l x : Forall P l → py_min l = Some x → ∀ y, y ∈ l → lt y x = false.
Proof using lt_irrefl nlt_trans lt_nlt.
  destruct l as [|b l]; simpl; [done|]. intros [Hb Hl]%Forall_cons [= <-]. by apply min_from_spec.
Qed.

Lemma max_from_spec b l :
  P b → Forall P l → ∀ y, y ∈ b :: l → lt (max_from b l) y = false.
Proof using lt_irrefl nlt_trans lt_nlt.
  revert b. induction l as [|x l IH]; intros b Hb Hl y Hy; simpl.
  - apply list_elem_of_singleton in Hy as ->. auto.
  - apply Forall_cons in Hl as [Hx Hl].
    set (b' := if lt b x then x else b).
    assert (P b') as Hb' by (unfold b'; by destruct (lt b x)).
    assert (P (max_from b' l)) as Hm.
    { pose proof (max_from_elem b' l) as [->|Hin]%elem_of_cons; [done|].
      rewrite Forall_elem in Hl. auto. }
    assert (lt (max_from b' l) b' = false) as Hmin by (apply IH; [done|done|left]).
    apply elem_of_cons in Hy as [->|Hy].
    + eapply nlt_trans; [done|exact Hb'|done|done|]. unfold b'. destruct (lt b x) eqn:E; auto.
    + apply elem_of_cons in Hy as [->|Hy]; [|apply IH; [done|done|by right]].
      eapply nlt_trans; [done|exact Hb'|done|done|]. unfold b'. destruct (lt b x) eqn:E; auto.
Qed.
Lemma py_max_spec l x : Forall P l → py_max l = Some x → ∀ y, y ∈ l → lt x y = false.
Proof using lt_irrefl nlt_trans lt_nlt.
  destruct l as [|b l]; simpl; [done|]. intros [Hb Hl]%Forall_cons [= <-]. by apply max_from_spec.
Qed.
End extremum.
