(* ===== verification/PyFloat.v ===== *)
(** Python's [float]: IEEE 754 binary64 with round-to-nearest-even, computed by the
    kernel's own specification [SpecFloat] at precision 53 and exponent bound 1024,
    and the comparison of [str] values. *)
From S2P Require Import Prelude.
From Stdlib Require Import SpecFloat String.

#[local] Open Scope Z_scope.

Definition float : Type := spec_float.

(** [float(n)] for an [int]; beyond the binary64 range CPython raises
    [OverflowError] where this gives an infinity. *)
Definition f_of_Z (n : Z) : float := binary_normalize 53 1024 n 0 false.
Definition f_add : float → float → float := SFadd 53 1024.
Definition f_sub : float → float → float := SFsub 53 1024.
Definition f_mul : float → float → float := SFmul 53 1024.
Definition f_div : float → float → float := SFdiv 53 1024.
Definition f_neg : float → float := SFopp.
Definition f_ltb : float → float → bool := SFltb.
Definition f_leb : float → float → bool := SFleb.
Definition f_eqb : float → float → bool := SFeqb.
Definition f_inf : float := S754_infinity false.
Definition f_zero : float := S754_zero false.
Definition f_is_nan (x : float) : bool := match x with S754_nan => true | _ => false end.
Definition f_isfinite (x : float) : bool :=
  match x with S754_zero _ | S754_finite _ _ _ => true | _ => false end.
(** [bool(x)]: every value but the two zeros is true. *)
Definition f_truthy (x : float) : bool := match x with S754_zero _ => false | _ => true end.
(** [x / y] in Python: a zero divisor raises. *)
Definition f_truediv (x y : float) : res float :=
  if f_truthy y then Ok (f_div x y) else Err (ZeroDivisionError "float division by zero").

(** [a / b] for two [int]s, correctly rounded from the exact quotient. *)
Definition f_ratio (a b : Z) : float :=
  match a, b with
  | Z0, _ => f_zero
  | Zpos p, Zpos q => SFdiv 53 1024 (S754_finite false p 0) (S754_finite false q 0)
  | Zneg p, Zpos q => SFdiv 53 1024 (S754_finite true p 0) (S754_finite false q 0)
  | Zpos p, Zneg q => SFdiv 53 1024 (S754_finite false p 0) (S754_finite true q 0)
  | Zneg p, Zneg q => SFdiv 53 1024 (S754_finite true p 0) (S754_finite true q 0)
  | _, Z0 => S754_nan
  end.

(** [int(x)] of a finite float rounds towards zero. *)
Definition f_trunc (x : float) : Z :=
  match x with
  | S754_finite s m e =>
    let v := if 0 <=? e then Z.pos m * 2 ^ e else Z.pos m / 2 ^ (- e) in if s then - v else v
  | _ => 0
  end.
(** [math.ceil(x)] and [round(x)] of a finite float, as exact integers. *)
Definition f_ceil (x : float) : Z :=
  match x with
  | S754_finite s m e =>
    let v := if s then Z.neg m else Z.pos m in
    if (0 <=? e) then v * 2 ^ e else - ((- v) / 2 ^ (- e))
  | _ => 0
  end.
Definition f_round (x : float) : Z :=
  match x with
  | S754_finite s m e =>
    let v := if s then Z.neg m else Z.pos m in
    if (0 <=? e) then v * 2 ^ e
    else
      let q := v / 2 ^ (- e) in
      let r := 2 * (v mod 2 ^ (- e)) in
      if r <? 2 ^ (- e) then q
      else if 2 ^ (- e) <? r then q + 1
      else if Z.even q then q else q + 1
  | _ => 0
  end.

#[export] Instance float_eq_dec : EqDecision float.
Proof. intros x y. unfold Decision. repeat decide equality. Defined.
#[export] Instance float_inhabited : Inhabited float := populate f_zero.

(** ** The comparison is a total preorder away from NaN

    [fkey] maps a float to a triple whose lexicographic order is the float order. *)
Definition fkey (x : float) : Z * Z * Z :=
  match x with
  | S754_infinity true => (-2, 0, 0)
  | S754_finite true m e => (-1, - e, Z.neg m)
  | S754_zero _ => (0, 0, 0)
  | S754_finite false m e => (1, e, Z.pos m)
  | S754_infinity false => (2, 0, 0)
  | S754_nan => (3, 0, 0)
  end.
Definition klt (a b : Z * Z * Z) : Prop :=
  let '(a1, a2, a3) := a in let '(b1, b2, b3) := b in
  a1 < b1 ∨ a1 = b1 ∧ (a2 < b2 ∨ a2 = b2 ∧ a3 < b3).

Lemma SFcompare_key x y :
  f_is_nan x = false → f_is_nan y = false →
  match SFcompare x y with
  | Some Lt => klt (fkey x) (fkey y)
  | Some Eq => fkey x = fkey y
  | Some Gt => klt (fkey y) (fkey x)
  | None => False
  end.
Proof.
  intros Hx Hy.
  destruct x as [[]|[]| |[] mx ex], y as [[]|[]| |[] my ey]; try discriminate; simpl;
    try solve [done | lia | left; lia].
  - destruct (Z.compare_spec ex ey) as [->|H|H]; [|lia|lia].
    change (Pos.compare_cont Eq mx my) with (Pos.compare mx my).
    destruct (Pos.compare_spec mx my) as [->|H|H]; simpl; [done|lia|lia].
  - destruct (Z.compare_spec ex ey) as [->|H|H]; [|lia|lia].
    change (Pos.compare_cont Eq mx my) with (Pos.compare mx my).
    destruct (Pos.compare_spec mx my) as [->|H|H]; simpl; [done|lia|lia].
Qed.

Lemma SFcompare_nan_l y : SFcompare S754_nan y = None.
Proof. by destruct y. Qed.
Lemma SFcompare_nan_r x : SFcompare x S754_nan = None.
Proof. by destruct x. Qed.

Lemma f_ltb_key x y :
  f_is_nan x = false → f_is_nan y = false → f_ltb x y = true ↔ klt (fkey x) (fkey y).
Proof.
  intros Hx Hy. pose proof (SFcompare_key x y Hx Hy) as H. unfold f_ltb, SFltb.
  destruct (SFcompare x y) as [[]|]; split; try done.
  all: destruct (fkey x) as [[]], (fkey y) as [[]]; simpl in *; simplify_eq; lia.
Qed.
Lemma f_leb_key x y :
  f_is_nan x = false → f_is_nan y = false → f_leb x y = true ↔ ¬ klt (fkey y) (fkey x).
Proof.
  intros Hx Hy. pose proof (SFcompare_key x y Hx Hy) as H. unfold f_leb, SFleb.
  destruct (SFcompare x y) as [[]|]; split; try done.
  all: destruct (fkey x) as [[]], (fkey y) as [[]]; simpl in *; simplify_eq; lia.
Qed.
Lemma f_eqb_key x y :
  f_is_nan x = false → f_is_nan y = false → f_eqb x y = true ↔ fkey x = fkey y.
Proof.
  intros Hx Hy. pose proof (SFcompare_key x y Hx Hy) as H. unfold f_eqb, SFeqb.
  destruct (SFcompare x y) as [[]|]; split; try done.
  all: destruct (fkey x) as [[]], (fkey y) as [[]]; simpl in *; intros; simplify_eq; lia.
Qed.

Lemma klt_irrefl a : ¬ klt a a.
Proof. destruct a as [[]]. simpl. lia. Qed.
Lemma klt_trans a b c : klt a b → klt b c → klt a c.
Proof. destruct a as [[]], b as [[]], c as [[]]. simpl. lia. Qed.
Lemma klt_ntrans a b c : ¬ klt a b → ¬ klt b c → ¬ klt a c.
Proof. destruct a as [[]], b as [[]], c as [[]]. simpl. lia. Qed.
Lemma klt_total a b : ¬ klt a b → ¬ klt b a → a = b.
Proof. destruct a as [[]], b as [[]]. simpl. intros. repeat f_equal; lia. Qed.

Lemma f_ltb_nan_l y : f_ltb S754_nan y = false.
Proof. done. Qed.
Lemma f_ltb_nan_r x : f_ltb x S754_nan = false.
Proof. by destruct x as [[]|[]| |[]]. Qed.
Lemma f_leb_nan_l y : f_leb S754_nan y = false.
Proof. done. Qed.
Lemma f_leb_nan_r x : f_leb x S754_nan = false.
Proof. by destruct x as [[]|[]| |[]]. Qed.

Lemma f_ltb_irrefl x : f_ltb x x = false.
Proof.
  destruct (f_is_nan x) eqn:Hx; [by destruct x|].
  apply not_true_iff_false. rewrite f_ltb_key by done. apply klt_irrefl.
Qed.
Lemma f_ltb_trans x y z : f_ltb x y = true → f_ltb y z = true → f_ltb x z = true.
Proof.
  destruct (f_is_nan x) eqn:Hx; [by destruct x|]. destruct (f_is_nan z) eqn:Hz.
  { destruct z; try discriminate. by rewrite (f_ltb_nan_r y). }
  destruct (f_is_nan y) eqn:Hy; [destruct y; try discriminate; by rewrite (f_ltb_nan_r x)|].
  rewrite !f_ltb_key by done. apply klt_trans.
Qed.
Lemma f_ltb_asym x y : f_ltb x y = true → f_ltb y x = false.
Proof.
  intros H. apply not_true_iff_false. intros H'.
  pose proof (f_ltb_trans _ _ _ H H'). by rewrite f_ltb_irrefl in *.
Qed.
Lemma f_nltb_trans x y z :
  f_is_nan x = false → f_is_nan y = false → f_is_nan z = false →
  f_ltb x y = false → f_ltb y z = false → f_ltb x z = false.
Proof.
  intros Hx Hy Hz. rewrite <- !not_true_iff_false, !f_ltb_key by done. apply klt_ntrans.
Qed.
Lemma f_leb_not_ltb x y :
  f_is_nan x = false → f_is_nan y = false → f_leb x y = negb (f_ltb y x).
Proof.
  intros Hx Hy. destruct (f_ltb y x) eqn:E; simpl.
  - apply not_true_iff_false. rewrite f_leb_key by done. apply f_ltb_key in E; [|done|done]. tauto.
  - apply f_leb_key; [done|done|]. rewrite <- f_ltb_key by done. congruence.
Qed.
Lemma f_leb_refl x : f_is_nan x = false → f_leb x x = true.
Proof. intros. rewrite f_leb_not_ltb, f_ltb_irrefl by done. done. Qed.
Lemma f_ltb_leb x y : f_ltb x y = true → f_leb x y = true.
Proof. unfold f_ltb, f_leb, SFltb, SFleb. destruct (SFcompare x y) as [[]|]; done. Qed.
Lemma f_leb_ltb_trans x y z : f_leb x y = true → f_ltb y z = true → f_ltb x z = true.
Proof.
  destruct (f_is_nan x) eqn:Hx; [by destruct x|].
  destruct (f_is_nan y) eqn:Hy; [destruct y; try discriminate; by rewrite (f_leb_nan_r x)|].
  destruct (f_is_nan z) eqn:Hz; [destruct z; try discriminate; by rewrite (f_ltb_nan_r y)|].
  rewrite f_leb_key, !f_ltb_key by done.
  destruct (fkey x) as [[]], (fkey y) as [[]], (fkey z) as [[]]. simpl. lia.
Qed.
Lemma f_leb_trans x y z : f_leb x y = true → f_leb y z = true → f_leb x z = true.
Proof.
  destruct (f_is_nan x) eqn:Hx; [by destruct x|].
  destruct (f_is_nan y) eqn:Hy; [destruct y; try discriminate; by rewrite (f_leb_nan_r x)|].
  destruct (f_is_nan z) eqn:Hz; [destruct z; try discriminate; by rewrite (f_leb_nan_r y)|].
  rewrite !f_leb_key by done.
  destruct (fkey x) as [[]], (fkey y) as [[]], (fkey z) as [[]]. simpl. lia.
Qed.
Lemma f_leb_nltb x y : f_leb x y = true → f_ltb y x = false.
Proof.
  intros H. apply not_true_iff_false. intros H'.
  pose proof (f_leb_ltb_trans _ _ _ H H'). by rewrite f_ltb_irrefl in *.
Qed.
Lemma f_eqb_sym x y : f_eqb x y = f_eqb y x.
Proof.
  destruct (f_is_nan x) eqn:Hx.
  { destruct x; try discriminate. unfold f_eqb, SFeqb. by rewrite SFcompare_nan_r. }
  destruct (f_is_nan y) eqn:Hy.
  { destruct y; try discriminate. unfold f_eqb, SFeqb. by rewrite SFcompare_nan_r. }
  apply eq_true_iff_eq. rewrite !f_eqb_key by done. naive_solver.
Qed.

(** ** The order on [str]

    Python compares strings by code points, which on UTF-8 bytes is the byte order. *)
Definition str_ltb : string → string → bool := String.ltb.
Definition str_leb : string → string → bool := String.leb.

Lemma str_compare_trans x y z c :
  String.compare x y = c → String.compare y z = c → String.compare x z = c.
Proof.
  revert y z c. induction x as [|a x IH]; intros [|b y] [|d z] c; simpl; try congruence.
  unfold Ascii.compare.
  destruct (N.compare_spec (Ascii.N_of_ascii a) (Ascii.N_of_ascii b)) as [E1|E1|E1],
    (N.compare_spec (Ascii.N_of_ascii b) (Ascii.N_of_ascii d)) as [E2|E2|E2]; intros <- H;
    destruct (N.compare_spec (Ascii.N_of_ascii a) (Ascii.N_of_ascii d)) as [E3|E3|E3];
    try (exfalso; lia); try congruence; eauto.
Qed.
Lemma str_ltb_lt x y : str_ltb x y = true ↔ String.compare x y = Lt.
Proof. unfold str_ltb, String.ltb. by destruct (String.compare x y). Qed.
Lemma str_leb_not_ltb x y : str_leb x y = negb (str_ltb y x).
Proof.
  unfold str_leb, str_ltb, String.leb, String.ltb. rewrite String.compare_antisym.
  by destruct (String.compare y x).
Qed.
Lemma str_compare_refl x : String.compare x x = Eq.
Proof.
  pose proof (String.compare_antisym x x) as H. by destruct (String.compare x x).
Qed.
Lemma str_ltb_irrefl x : str_ltb x x = false.
Proof. apply not_true_iff_false. rewrite str_ltb_lt, str_compare_refl. done. Qed.
Lemma str_ltb_trans x y z : str_ltb x y = true → str_ltb y z = true → str_ltb x z = true.
Proof. rewrite !str_ltb_lt. apply str_compare_trans. Qed.
Lemma str_ltb_total x y : str_ltb x y = false → str_ltb y x = false → x = y.
Proof.
  unfold str_ltb, String.ltb. rewrite (String.compare_antisym y x).
  destruct (String.compare x y) eqn:E; try done. intros _ _. by apply String.compare_eq_iff.
Qed.
Lemma str_leb_total x y : str_leb x y = false → str_leb y x = true.
Proof.
  rewrite !str_leb_not_ltb. intros H%negb_false_iff. apply negb_true_iff.
  apply not_true_iff_false. intros H'. pose proof (str_ltb_trans _ _ _ H H').
  by rewrite str_ltb_irrefl in *.
Qed.
Lemma str_nltb_trans x y z : str_ltb x y = false → str_ltb y z = false → str_ltb x z = false.
Proof.
  intros H1 H2. apply not_true_iff_false. intros H3.
  destruct (str_ltb y x) eqn:E1.
  - rewrite (str_ltb_trans _ _ _ E1 H3) in H2. done.
  - pose proof (str_ltb_total _ _ H1 E1) as ->. congruence.
Qed.
Lemma str_leb_trans x y z : str_leb x y = true → str_leb y z = true → str_leb x z = true.
Proof.
  rewrite !str_leb_not_ltb, !negb_true_iff. intros H1 H2. by apply (str_nltb_trans _ y).
Qed.

(** ** Tuples [(score, identifier)] as Python compares them *)
Definition key_ltb (a b : float * string) : bool :=
  if f_eqb a.1 b.1 then str_ltb a.2 b.2 else f_ltb a.1 b.1.

Lemma key_ltb_irrefl a : key_ltb a a = false.
Proof.
  unfold key_ltb. rewrite str_ltb_irrefl, f_ltb_irrefl. by destruct (f_eqb _ _).
Qed.
Lemma key_nltb_trans a b c :
  f_is_nan a.1 = false → f_is_nan b.1 = false → f_is_nan c.1 = false →
  key_ltb a b = false → key_ltb b c = false → key_ltb a c = false.
Proof.
  intros Ha Hb Hc. unfold key_ltb.
  destruct (f_eqb a.1 b.1) eqn:E1, (f_eqb b.1 c.1) eqn:E2, (f_eqb a.1 c.1) eqn:E3;
    try apply f_eqb_key in E1; try apply f_eqb_key in E2; try apply f_eqb_key in E3; try done;
    try apply not_true_iff_false in E1; try apply not_true_iff_false in E2;
    try apply not_true_iff_false in E3; rewrite ?f_eqb_key in * by done; try congruence;
    intros H1 H2; try apply not_true_iff_false in H1; try apply not_true_iff_false in H2;
    rewrite ?f_ltb_key in * by done; rewrite <- ?not_true_iff_false, ?f_ltb_key by done.
  - apply not_true_iff_false in H1, H2. apply not_true_iff_false.
    by apply (str_nltb_trans _ b.2).
  - rewrite E1. done.
  - rewrite <- E2. done.
  - intros _. apply E1. apply klt_total; [done|congruence].
  - by eapply klt_ntrans.
Qed.
Lemma key_ltb_asym a b :
  f_is_nan a.1 = false → f_is_nan b.1 = false → key_ltb a b = true → key_ltb b a = false.
Proof.
  intros Ha Hb. unfold key_ltb. rewrite (f_eqb_sym b.1 a.1).
  destruct (f_eqb a.1 b.1); [|apply f_ltb_asym].
  intros H. apply not_true_iff_false. intros H'.
  pose proof (str_ltb_trans _ _ _ H H'). by rewrite str_ltb_irrefl in *.
Qed.

(** ** [str.split()] and [str.strip()]

    [py_word_count s] is [len(s.split())]: runs of non-blank characters, where blank is
    what [str.isspace] accepts, read from the UTF-8 bytes of the string. *)
Fixpoint word_count_bytes (l : list N) (in_word : bool) : Z :=
  match l with
  | [] => 0
  | (0xC2 :: (0x85 | 0xA0) :: l')%N
  | (0xE1 :: 0x9A :: 0x80 :: l')%N
  | (0xE2 :: 0x80 :: (0x80 | 0x81 | 0x82 | 0x83 | 0x84 | 0x85 | 0x86 | 0x87 | 0x88 | 0x89
                      | 0x8A | 0xA8 | 0xA9 | 0xAF) :: l')%N
  | (0xE2 :: 0x81 :: 0x9F :: l')%N
  | (0xE3 :: 0x80 :: 0x80 :: l')%N => word_count_bytes l' false
  | b :: l' =>
    if ((9 <=? b) && (b <=? 13) || (28 <=? b) && (b <=? 32))%N
    then word_count_bytes l' false
    else (if in_word then 0 else 1) + word_count_bytes l' true
  end.
Definition str_bytes (s : string) : list N := Ascii.N_of_ascii <$> String.list_ascii_of_string s.
Definition py_word_count (s : string) : Z := word_count_bytes (str_bytes s) false.
(** [not s.strip()]. *)
Definition py_blank (s : string) : bool := py_word_count s =? 0.
Definition str_empty (s : string) : bool := bool_decide (s = ""%string).

Example py_word_count_ex : py_word_count "explain  PCIe simply "%string = 3.
Proof. reflexivity. Qed.

(** ** [math.ceil(a / b)] is exact below 2^53

    The quotient is rounded to 53 bits before [ceil], yet no quotient of integers below
    2^53 is close enough above an integer to be rounded onto it. *)
Lemma digits2_pos_bounds p :
  2 ^ (Z.pos (digits2_pos p) - 1) <= Z.pos p < 2 ^ Z.pos (digits2_pos p).
Proof.
  induction p as [p IH|p IH|]; simpl digits2_pos; [| |simpl; lia].
  all: rewrite Pos2Z.inj_succ, Z.pow_succ_r by lia.
  all: replace (Z.succ (Z.pos (digits2_pos p)) - 1) with (Z.succ (Z.pos (digits2_pos p) - 1)) by lia.
  all: rewrite Z.pow_succ_r by lia; lia.
Qed.
Lemma digits2_unique p d : 0 < d → 2 ^ (d - 1) <= Z.pos p < 2 ^ d → Z.pos (digits2_pos p) = d.
Proof.
  intros Hd [H1 H2]. destruct (digits2_pos_bounds p) as [H3 H4].
  assert (d - 1 < Z.pos (digits2_pos p)) by (apply (Z.pow_lt_mono_r_iff 2); lia).
  assert (Z.pos (digits2_pos p) - 1 < d) by (apply (Z.pow_lt_mono_r_iff 2); lia). lia.
Qed.

(** The location records how the remainder [r] of a division by [b] compares with b/2. *)
Lemma new_location_spec b r :
  0 < b → 0 <= r < b →
  match new_location b r with
  | loc_Exact => r = 0
  | loc_Inexact Lt => 0 < r ∧ 2 * r < b
  | loc_Inexact Eq => 0 < r ∧ 2 * r = b
  | loc_Inexact Gt => 0 < r ∧ b < 2 * r
  end.
Proof.
  intros Hb Hr. unfold new_location, new_location_even, new_location_odd.
  pose proof (Zeven_mod b) as Hev. pose proof (Zodd_mod b) as Hodd.
  destruct (Z.even b) eqn:E, (Z.eqb_spec r 0) as [->|Hn]; try done.
  - destruct (Z.compare_spec (2 * r) b); simpl; lia.
  - rewrite <- Z.negb_odd, negb_false_iff in E. apply Zodd_bool_iff in E.
    apply Zodd_ex in E as [k ->]. destruct (Z.compare_spec (2 * r + 1) (2 * k + 1)); simpl; lia.
Qed.

(** Nearest rounding of [A / b] = [q + r / b]: the result is the floor or one more, never
    further than half a unit below the quotient. *)
Lemma round_nearest_even_spec q b r :
  0 < b → 0 <= r < b →
  let m := round_nearest_even q (new_location b r) in
  q <= m <= q + 1 ∧ b * m < b * q + r + b ∧ 2 * (b * q + r - b * m) <= b.
Proof.
  intros Hb Hr. pose proof (new_location_spec b r Hb Hr) as H. simpl.
  destruct (new_location b r) as [|[]]; simpl; try (destruct (Z.even q)); nia.
Qed.

(** The same one bit further right, after the rounding shift. *)
Lemma round_shifted_spec q b r :
  0 < b → 0 <= r < b → 0 < q →
  let rec := shr_1 (shr_record_of_loc q (new_location b r)) in
  let m := round_nearest_even (shr_m rec) (loc_of_shr_record rec) in
  q / 2 <= m <= q / 2 + 1 ∧ 2 * (b * m) < b * q + r + 2 * b ∧ (b * q + r) - 2 * (b * m) <= b.
Proof.
  intros Hb Hr Hq. pose proof (new_location_spec b r Hb Hr) as H. simpl.
  assert (∀ p, Z.pos p~1 / 2 = Z.pos p) as Hodd
    by (intros p; rewrite Pos2Z.inj_xI; rewrite <- (Z.div_unique _ 2 (Z.pos p) 1); lia).
  assert (∀ p, Z.pos p~0 / 2 = Z.pos p) as Heven
    by (intros p; rewrite Pos2Z.inj_xO; rewrite <- (Z.div_unique _ 2 (Z.pos p) 0); lia).
  destruct q as [|[p|p|]|]; try lia; rewrite ?Hodd, ?Heven;
    [rewrite Pos2Z.inj_xI|rewrite Pos2Z.inj_xO|change (1 / 2) with 0];
    destruct (new_location b r) as [|[]]; simpl; try destruct (Z.even _); try nia;
    try (destruct p; simpl; nia).
Qed.

(** From the rounding bounds to the ceiling. *)
Lemma ceil_from_rounding a b m t :
  0 < b → 0 <= t → b < 2 ^ (t + 1) →
  b * m < a * 2 ^ t + b → 2 * (a * 2 ^ t - b * m) <= b →
  - ((- m) / 2 ^ t) = - ((- a) / b).
Proof.
  intros Hb Ht Hbt Hup Hlo. f_equal. set (n := - ((- a) / b)).
  assert (b * (n - 1) < a <= b * n) as [Hn1 Hn2].
  { unfold n. pose proof (Z.mul_div_le (- a) b Hb). pose proof (Z.mul_succ_div_gt (- a) b Hb). nia. }
  rewrite Z.pow_add_r, Z.pow_1_r in Hbt by lia. set (u := 2 ^ t) in *.
  assert (0 < u) as Hu by (apply Z.pow_pos_nonneg; lia).
  assert (m <= n * u) by nia. assert ((n - 1) * u < m) by nia.
  replace ((- a) / b) with (- n) by (unfold n; lia).
  symmetry. apply (Z.div_unique _ _ _ (n * u - m)); nia.
Qed.

Lemma shr_fexp_0 m e l :
  Z.max (Zdigits2 m + e - 53) (-1074) = e →
  shr_fexp 53 1024 m e l = (shr_record_of_loc m l, e).
Proof.
  intros H. unfold shr_fexp, fexp, emin. change (3 - 1024 - 53) with (-1074).
  rewrite H, Z.sub_diag. done.
Qed.
Lemma shr_fexp_1 m e l :
  Z.max (Zdigits2 m + e - 53) (-1074) = e + 1 →
  shr_fexp 53 1024 m e l = (shr_1 (shr_record_of_loc m l), e + 1).
Proof.
  intros H. unfold shr_fexp, fexp, emin. change (3 - 1024 - 53) with (-1074).
  rewrite H. replace (e + 1 - e) with 1 by lia. done.
Qed.
Lemma loc_of_record_of_loc m l : loc_of_shr_record (shr_record_of_loc m l) = l.
Proof. by destruct l as [|[]]. Qed.
Lemma shr_m_of_loc m l : shr_m (shr_record_of_loc m l) = m.
Proof. by destruct l as [|[]]. Qed.

(** [f_ceil] of a normalised mantissa, possibly carried out to 2^53. *)
Lemma f_ceil_normalised m t :
  2 ^ 52 <= m <= 2 ^ 53 → 0 <= t < 1000 →
  f_ceil (let '(mrs, e) := shr_fexp 53 1024 m (- t) loc_Exact in
          match shr_m mrs with
          | Z0 => S754_zero false
          | Zpos p => if e <=? 1024 - 53 then S754_finite false p e else S754_infinity false
          | _ => S754_nan
          end) = - ((- m) / 2 ^ t).
Proof.
  intros Hm Ht. destruct m as [|p|]; try lia.
  assert (- ((- Z.pos p) / 2 ^ 0) = Z.pos p) as H0 by (rewrite Z.div_1_r; lia).
  destruct (Z.eq_dec (Z.pos p) (2 ^ 53)) as [E|E].
  - rewrite E. rewrite shr_fexp_1 by (change (Zdigits2 (2 ^ 53)) with 54; lia).
    change (shr_m (shr_1 (shr_record_of_loc (2 ^ 53) loc_Exact))) with (2 ^ 52).
    change (2 ^ 52) with (Z.pos (2 ^ 52)). cbv beta iota.
    rewrite (proj2 (Z.leb_le _ _)) by lia. unfold f_ceil. change (Z.pos (2 ^ 52)) with (2 ^ 52).
    destruct (Z.leb_spec 0 (- t + 1)) as [H|H].
    + assert (t = 0 ∨ t = 1) as [->| ->] by lia; reflexivity.
    + f_equal. replace (- (2 ^ 53)) with (2 * - (2 ^ 52)) by reflexivity.
      replace (2 ^ t) with (2 * 2 ^ (- (- t + 1)))
        by (rewrite <- Z.pow_succ_r by lia; f_equal; lia).
      symmetry. apply Z.div_mul_cancel_l; [|lia]. apply Z.pow_nonzero; lia.
  - assert (Zdigits2 (Z.pos p) = 53) as Hd by (apply digits2_unique; simpl in *; lia).
    rewrite shr_fexp_0 by (rewrite Hd; lia). simpl shr_m. cbv beta iota.
    rewrite (proj2 (Z.leb_le _ _)) by lia. unfold f_ceil.
    destruct (Z.leb_spec 0 (- t)) as [H|H].
    + assert (t = 0) as -> by lia. rewrite H0. lia.
    + by rewrite Z.opp_involutive.
Qed.

Lemma f_ceil_ratio_pos p q :
  Z.pos p < 2 ^ 53 → Z.pos q < 2 ^ 53 →
  f_ceil (f_ratio (Z.pos p) (Z.pos q)) = - ((- Z.pos p) / Z.pos q).
Proof.
  intros Hp Hq. unfold f_ratio, SFdiv, SFdiv_core_binary. simpl xorb.
  destruct (digits2_pos_bounds p) as [Hp1 Hp2], (digits2_pos_bounds q) as [Hq1 Hq2].
  change (Zdigits2 (Z.pos p)) with (Z.pos (digits2_pos p)).
  change (Zdigits2 (Z.pos q)) with (Z.pos (digits2_pos q)).
  set (d1 := Z.pos (digits2_pos p)) in *. set (d2 := Z.pos (digits2_pos q)) in *.
  assert (1 <= d1 <= 53) as Hd1
    by (split; [lia|]; enough (d1 - 1 < 53) by lia; apply (Z.pow_lt_mono_r_iff 2); lia).
  assert (1 <= d2 <= 53) as Hd2
    by (split; [lia|]; enough (d2 - 1 < 53) by lia; apply (Z.pow_lt_mono_r_iff 2); lia).
  assert (Z.min (fexp 53 1024 (d1 + 0 - (d2 + 0))) (0 - 0) = d1 - d2 - 53) as ->
    by (unfold fexp, emin; lia).
  set (s := 0 - 0 - (d1 - d2 - 53)). assert (s = 53 + d2 - d1) as Hs by lia.
  assert (match s with Z.pos _ => Z.shiftl (Z.pos p) s | Z0 => Z.pos p | Z.neg _ => 0 end
    = Z.pos p * 2 ^ s) as ->.
  { rewrite Z.shiftl_mul_pow2 by lia. destruct s; lia. }
  set (b := Z.pos q) in *. set (A := Z.pos p * 2 ^ s).
  pose proof (Z_div_mod A b ltac:(lia)) as Hdm. destruct (Z.div_eucl A b) as [qq r].
  destruct Hdm as [HA Hr].
  assert (2 ^ 52 <= qq < 2 ^ 54) as Hqq.
  { assert (2 ^ d2 * 2 ^ 52 <= A) as H1.
    { unfold A. rewrite Hs, <- Z.pow_add_r by lia.
      replace (d2 + 52) with ((d1 - 1) + (53 + d2 - d1)) by lia. rewrite Z.pow_add_r by lia.
      apply Z.mul_le_mono_nonneg_r; [apply Z.pow_nonneg; lia|done]. }
    assert (A < 2 ^ (d2 - 1) * 2 ^ 54) as H2.
    { unfold A. rewrite Hs, <- Z.pow_add_r by lia.
      replace (d2 - 1 + 54) with (d1 + (53 + d2 - d1)) by lia. rewrite Z.pow_add_r by lia.
      apply Z.mul_lt_mono_pos_r; [apply Z.pow_pos_nonneg; lia|done]. }
    nia. }
  assert (0 < b) as Hb by lia.
  unfold binary_round_aux. destruct qq as [|qp|]; try lia.
  destruct (Z.lt_ge_cases (Z.pos qp) (2 ^ 53)) as [Hlt|Hge].
  - assert (Zdigits2 (Z.pos qp) = 53) as Hd by (apply digits2_unique; lia).
    rewrite shr_fexp_0 by (rewrite Hd; lia). rewrite shr_m_of_loc, loc_of_record_of_loc.
    destruct (round_nearest_even_spec (Z.pos qp) b r Hb Hr) as (H1 & H2 & H3).
    replace (d1 - d2 - 53) with (- s) by lia. rewrite f_ceil_normalised by lia.
    apply ceil_from_rounding; try (unfold A in HA; lia).
    eapply Z.lt_le_trans; [exact Hq2|]. apply Z.pow_le_mono_r; lia.
  - assert (Zdigits2 (Z.pos qp) = 54) as Hd by (apply digits2_unique; lia).
    rewrite shr_fexp_1 by (rewrite Hd; lia).
    destruct (round_shifted_spec (Z.pos qp) b r Hb Hr) as (H1 & H2 & H3); [lia|].
    replace (d1 - d2 - 53 + 1) with (- (s - 1)) by lia.
    assert (2 ^ 52 <= Z.pos qp / 2 < 2 ^ 53) as Hhalf.
    { split; [apply Z.div_le_lower_bound; lia|apply Z.div_lt_upper_bound; lia]. }
    rewrite f_ceil_normalised by lia.
    assert (A = 2 * (Z.pos p * 2 ^ (s - 1))) as HA2.
    { unfold A. replace s with (Z.succ (s - 1)) at 1 by lia. rewrite Z.pow_succ_r by lia. lia. }
    apply ceil_from_rounding; try lia.
    eapply Z.lt_le_trans; [exact Hq2|]. apply Z.pow_le_mono_r; lia.
Qed.

Lemma f_ceil_ratio a b :
  0 <= a < 2 ^ 53 → 0 < b < 2 ^ 53 → f_ceil (f_ratio a b) = - ((- a) / b).
Proof.
  intros Ha Hb. destruct b as [|q|]; try lia. destruct a as [|p|]; try lia.
  - reflexivity.
  - by apply f_ceil_ratio_pos; [apply Ha|apply Hb].
Qed.
