(* ===== verification/FloatInt.v ===== *)
(** Whole numbers as floats: below 2^53 a float sum of whole numbers is exact and comparisons agree
    with the integers, so code that adds whole costs computes with integers; and Python's [sum]. *)
From S2P Require Import Prelude PyFloat.
From Stdlib Require Import SpecFloat.

#[local] Open Scope list_scope.
#[local] Open Scope Z_scope.
#[local] Set Default Proof Using "Type".

(** ** Normal form of a whole number *)

(** [x] is the binary64 number [n], [d] being the number of binary digits of [n]. *)
Definition whole_form (n d : Z) (x : float) : Prop :=
  ∃ m, x = S754_finite false m (d - 53) ∧ Z.pos m = n * 2 ^ (53 - d) ∧ 2 ^ (d - 1) <= n < 2 ^ d ∧ 0 < d <= 53.

Lemma whole_form_unique n d d' x x' : whole_form n d x → whole_form n d' x' → x = x' ∧ d = d'.
Proof.
  intros (m & -> & Hm & Hd & ?) (m' & -> & Hm' & Hd' & ?).
  assert (d = d') as ->.
  { assert (d - 1 < d') by (apply (Z.pow_lt_mono_r_iff 2); lia).
    assert (d' - 1 < d) by (apply (Z.pow_lt_mono_r_iff 2); lia). lia. }
  assert (m = m') as -> by lia. done.
Qed.
Lemma digits_exist n : 0 < n < 2 ^ 53 → ∃ d, 2 ^ (d - 1) <= n < 2 ^ d ∧ 0 < d <= 53.
Proof.
  intros Hn. destruct n as [|p|]; try lia. exists (Z.pos (digits2_pos p)).
  pose proof (digits2_pos_bounds p) as [H1 H2]. split; [done|]. split; [lia|].
  enough (Z.pos (digits2_pos p) - 1 < 53) by lia. apply (Z.pow_lt_mono_r_iff 2); lia.
Qed.

Lemma iter_xO m d : Z.pos (Pos.iter xO m d) = Z.pos m * 2 ^ Z.pos d.
Proof.
  induction d as [|d IH] using Pos.peano_ind; [simpl; lia|].
  rewrite Pos.iter_succ, Pos2Z.inj_succ, Z.pow_succ_r by lia. rewrite Pos2Z.inj_xO, IH. lia.
Qed.
Lemma shl_align_down m e e' : e' <= e →
  Z.pos (fst (shl_align m e e')) = Z.pos m * 2 ^ (e - e') ∧ snd (shl_align m e e') = e'.
Proof.
  intros He. unfold shl_align. destruct (e' - e) as [|q|q] eqn:E; try lia.
  - replace (e - e') with 0 by lia. simpl. lia.
  - cbn [fst snd]. rewrite iter_xO. replace (e - e') with (Z.pos q) by lia. done.
Qed.
Lemma shl_align_up m e e' : e <= e' → shl_align m e e' = (m, e).
Proof. intros He. unfold shl_align. destruct (e' - e) as [|q|q] eqn:E; try lia; done. Qed.

Lemma shr_1_even m : 0 <= m → shr_1 (Build_shr_record (2 * m) false false) = Build_shr_record m false false.
Proof. by destruct m. Qed.
Lemma iter_shr_even q m : 0 <= m →
  SpecFloat.iter_pos shr_1 q (Build_shr_record (m * 2 ^ Z.pos q) false false) = Build_shr_record m false false.
Proof.
  revert m. induction q as [q IH|q IH|]; intros m Hm; cbn [SpecFloat.iter_pos].
  - replace (m * 2 ^ Z.pos q~1) with (2 * (m * 2 ^ Z.pos q * 2 ^ Z.pos q))
      by (rewrite (Pos2Z.inj_xI q), Z.pow_add_r, Z.pow_1_r by lia;
          replace (2 * Z.pos q) with (Z.pos q + Z.pos q) by lia; rewrite Z.pow_add_r by lia; lia).
    rewrite shr_1_even by nia. by rewrite !IH by nia.
  - replace (m * 2 ^ Z.pos q~0) with (m * 2 ^ Z.pos q * 2 ^ Z.pos q)
      by (rewrite (Pos2Z.inj_xO q); replace (2 * Z.pos q) with (Z.pos q + Z.pos q) by lia;
          rewrite Z.pow_add_r by lia; lia).
    by rewrite !IH by nia.
  - change (2 ^ 1) with 2. rewrite Z.mul_comm. by apply shr_1_even.
Qed.

(** Rounding a number of at most 53 digits changes nothing. *)
Lemma binary_round_whole p k n :
  0 < n < 2 ^ 53 → 0 <= k <= 1000 → Z.pos p = n * 2 ^ k →
  ∃ d, whole_form n d (binary_round 53 1024 false p (- k)).
Proof.
  intros Hn Hk Hp. destruct (digits_exist n Hn) as (d & Hd & Hd').
  assert (Z.pos (digits2_pos p) = d + k) as Hdig.
  { apply digits2_unique; [lia|]. rewrite Hp. replace (d + k - 1) with (d - 1 + k) by lia.
    rewrite !Z.pow_add_r by lia. assert (0 < 2 ^ k) by (apply Z.pow_pos_nonneg; lia). nia. }
  assert (fexp 53 1024 (Z.pos (digits2_pos p) + - k) = d - 53) as Hf
    by (rewrite Hdig; unfold fexp, emin; lia).
  exists d. unfold binary_round. rewrite Hf.
  assert (0 < n * 2 ^ (53 - d) < 2 ^ 53) as Hm.
  { assert (0 < 2 ^ (53 - d)) by (apply Z.pow_pos_nonneg; lia).
    replace (2 ^ 53) with (2 ^ d * 2 ^ (53 - d)) by (rewrite <- Z.pow_add_r by lia; f_equal; lia). nia. }
  assert (∃ m, n * 2 ^ (53 - d) = Z.pos m) as (m & Hmp)
    by (destruct (n * 2 ^ (53 - d)) as [|m|] eqn:?; [lia|by exists m|lia]).
  assert (Zdigits2 (Z.pos m) = 53) as Hm53.
  { apply digits2_unique; [lia|]. rewrite <- Hmp. split; [|lia].
    replace (2 ^ (53 - 1)) with (2 ^ (d - 1) * 2 ^ (53 - d)) by (rewrite <- Z.pow_add_r by lia; f_equal; lia).
    apply Z.mul_le_mono_nonneg_r; [apply Z.pow_nonneg; lia|lia]. }
  enough (binary_round_aux 53 1024 false (Z.pos (fst (shl_align p (- k) (d - 53))))
            (snd (shl_align p (- k) (d - 53))) loc_Exact = S754_finite false m (d - 53)) as Hr.
  { exists m. destruct (shl_align p (- k) (d - 53)) as [mz ez]. simpl in Hr. split_and!; [done|by symmetry|lia..]. }
  assert (∃ mrs, shr_fexp 53 1024 (Z.pos (fst (shl_align p (- k) (d - 53))))
      (snd (shl_align p (- k) (d - 53))) loc_Exact = (mrs, d - 53) ∧ mrs = Build_shr_record (Z.pos m) false false)
    as (mrs & Hs & ->).
  { eexists. split; [|reflexivity]. destruct (Z.le_gt_cases (d - 53) (- k)) as [Hle|Hgt].
    - destruct (shl_align_down p (- k) (d - 53) Hle) as [H1 ->]. rewrite H1, Hp.
      replace (n * 2 ^ k * 2 ^ (- k - (d - 53))) with (Z.pos m)
        by (rewrite <- Hmp, <- Z.mul_assoc, <- Z.pow_add_r by lia; do 2 f_equal; lia).
      by rewrite shr_fexp_0 by lia.
    - rewrite shl_align_up by lia. cbn [fst snd]. unfold shr_fexp.
      change (Zdigits2 (Z.pos p)) with (Z.pos (digits2_pos p)). rewrite Hf. simpl shr_record_of_loc.
      destruct (d - 53 - - k) as [|q|] eqn:Eq; try lia. unfold shr. f_equal; [|lia].
      replace (Z.pos p) with (Z.pos m * 2 ^ Z.pos q); [by apply iter_shr_even|].
      rewrite Hp, <- Hmp, <- Z.mul_assoc, <- Z.pow_add_r by lia. do 2 f_equal. lia. }
  unfold binary_round_aux. rewrite Hs. cbn [loc_of_shr_record round_nearest_even shr_m].
  rewrite shr_fexp_0 by lia. cbn [shr_m shr_record_of_loc]. by rewrite (proj2 (Z.leb_le _ _)) by lia.
Qed.

(** ** Comparison and sum *)

Lemma f_of_Z_whole n : 0 < n < 2 ^ 53 → ∃ d, whole_form n d (f_of_Z n).
Proof.
  intros Hn. destruct n as [|p|]; try lia. unfold f_of_Z, binary_normalize.
  change 0 with (- 0). apply binary_round_whole; lia.
Qed.
Lemma f_of_Z_0 : f_of_Z 0 = f_zero.
Proof. done. Qed.

Lemma f_of_Z_compare a b :
  0 <= a < 2 ^ 53 → 0 <= b < 2 ^ 53 → SFcompare (f_of_Z a) (f_of_Z b) = Some (a ?= b).
Proof.
  intros Ha Hb. destruct (decide (a = 0)) as [->|Ha0], (decide (b = 0)) as [->|Hb0]; [done|..].
  - destruct (f_of_Z_whole b) as (d & m & -> & _); [lia|].
    rewrite f_of_Z_0. unfold f_zero. cbn [SFcompare]. f_equal. symmetry. apply Z.compare_lt_iff. lia.
  - destruct (f_of_Z_whole a) as (d & m & -> & _); [lia|].
    rewrite f_of_Z_0. unfold f_zero. cbn [SFcompare]. f_equal. symmetry. apply Z.compare_gt_iff. lia.
  - destruct (f_of_Z_whole a) as (d & m & -> & Hm & Hd & ?); [lia|].
    destruct (f_of_Z_whole b) as (d' & m' & -> & Hm' & Hd' & ?); [lia|]. simpl. f_equal.
    destruct (Z.compare_spec (d - 53) (d' - 53)) as [E|E|E].
    + assert (d' = d) as -> by lia. change (Pos.compare_cont Eq m m') with (Z.pos m ?= Z.pos m').
      rewrite Hm, Hm'. symmetry. apply Zmult_compare_compat_r.
      apply Z.lt_gt, Z.pow_pos_nonneg; lia.
    + symmetry. apply Z.compare_lt_iff. assert (2 ^ d <= 2 ^ (d' - 1)) by (apply Z.pow_le_mono_r; lia). lia.
    + symmetry. apply Z.compare_gt_iff. assert (2 ^ d' <= 2 ^ (d - 1)) by (apply Z.pow_le_mono_r; lia). lia.
Qed.
Lemma f_of_Z_ltb a b : 0 <= a < 2 ^ 53 → 0 <= b < 2 ^ 53 → f_ltb (f_of_Z a) (f_of_Z b) = (a <? b).
Proof.
  intros Ha Hb. unfold f_ltb, SFltb. rewrite f_of_Z_compare by done. unfold Z.ltb. by destruct (a ?= b).
Qed.
Lemma f_of_Z_eqb a b : 0 <= a < 2 ^ 53 → 0 <= b < 2 ^ 53 → f_eqb (f_of_Z a) (f_of_Z b) = (a =? b).
Proof.
  intros Ha Hb. unfold f_eqb, SFeqb. rewrite f_of_Z_compare by done. rewrite Z.eqb_compare. by destruct (a ?= b).
Qed.
Lemma f_of_Z_leb a b : 0 <= a < 2 ^ 53 → 0 <= b < 2 ^ 53 → f_leb (f_of_Z a) (f_of_Z b) = (a <=? b).
Proof.
  intros Ha Hb. unfold f_leb, SFleb. rewrite f_of_Z_compare by done. unfold Z.leb. by destruct (a ?= b).
Qed.
Lemma f_of_Z_inj a b : 0 <= a < 2 ^ 53 → 0 <= b < 2 ^ 53 → f_of_Z a = f_of_Z b → a = b.
Proof.
  intros Ha Hb E. pose proof (f_of_Z_eqb a b Ha Hb) as H. rewrite E, f_of_Z_eqb in H by done.
  rewrite Z.eqb_refl in H. by apply Z.eqb_eq.
Qed.
Lemma f_of_Z_ltb_inf a : 0 <= a < 2 ^ 53 → f_ltb (f_of_Z a) f_inf = true.
Proof.
  intros Ha. destruct (decide (a = 0)) as [->|]; [done|].
  by destruct (f_of_Z_whole a) as (d & m & -> & _); [lia|].
Qed.
Lemma f_of_Z_eqb_inf a : 0 <= a < 2 ^ 53 → f_eqb (f_of_Z a) f_inf = false.
Proof.
  intros Ha. destruct (decide (a = 0)) as [->|]; [done|].
  by destruct (f_of_Z_whole a) as (d & m & -> & _); [lia|].
Qed.
Lemma f_of_Z_not_nan a : 0 <= a < 2 ^ 53 → f_is_nan (f_of_Z a) = false.
Proof.
  intros Ha. destruct (decide (a = 0)) as [->|]; [done|].
  by destruct (f_of_Z_whole a) as (d & m & -> & _); [lia|].
Qed.

Lemma f_add_of_Z a b : 0 <= a → 0 <= b → a + b < 2 ^ 53 → f_add (f_of_Z a) (f_of_Z b) = f_of_Z (a + b).
Proof.
  intros Ha Hb Hab. destruct (decide (a = 0)) as [->|Ha0].
  { destruct (decide (b = 0)) as [->|]; [done|]. rewrite Z.add_0_l.
    by destruct (f_of_Z_whole b) as (d & m & -> & _); [lia|]. }
  destruct (decide (b = 0)) as [->|Hb0].
  { rewrite Z.add_0_r. by destruct (f_of_Z_whole a) as (d & m & -> & _); [lia|]. }
  destruct (f_of_Z_whole a) as (d & m & -> & Hm & Hd & ?); [lia|].
  destruct (f_of_Z_whole b) as (d' & m' & -> & Hm' & Hd' & ?); [lia|].
  destruct (f_of_Z_whole (a + b)) as (ds & Hs); [lia|].
  unfold f_add, SFadd. set (ez := Z.min (d - 53) (d' - 53)).
  destruct (shl_align_down m (d - 53) ez) as [E1 _]; [lia|].
  destruct (shl_align_down m' (d' - 53) ez) as [E2 _]; [lia|].
  cbn [cond_Zopp]. rewrite E1, E2, Hm, Hm', <- !Z.mul_assoc, <- !Z.pow_add_r by lia.
  replace (53 - d + (d - 53 - ez)) with (- ez) by lia.
  replace (53 - d' + (d' - 53 - ez)) with (- ez) by lia. rewrite <- Z.mul_add_distr_r.
  assert (0 < (a + b) * 2 ^ (- ez)) as Hpos
    by (apply Z.mul_pos_pos; [lia|apply Z.pow_pos_nonneg; lia]).
  destruct ((a + b) * 2 ^ (- ez)) as [|p|] eqn:Ep; try lia. unfold binary_normalize.
  destruct (binary_round_whole p (- ez) (a + b)) as (d2 & H2); [lia..|].
  rewrite Z.opp_involutive in H2. exact (proj1 (whole_form_unique _ _ _ _ _ H2 Hs)).
Qed.

(** ** [sum] of floats

    Since Python 3.12 the sum of floats is compensated (Neumaier): [c] collects the rounding errors
    and is added at the end. The start value is the [int] 0, so an empty sum is zero. *)
Definition f_abs : float → float := SFabs.
Fixpoint py_sum_loop (result c : float) (xs : list float) : float :=
  match xs with
  | [] => if f_truthy c && f_isfinite c then f_add result c else result
  | x :: xs =>
    let t := f_add result x in
    let c := if f_leb (f_abs x) (f_abs result) then f_add c (f_add (f_sub result t) x)
             else f_add c (f_add (f_sub x t) result) in
    py_sum_loop t c xs
  end.
Definition py_sum (xs : list float) : float :=
  match xs with
  | [] => f_zero
  | x :: xs => py_sum_loop (f_add f_zero x) f_zero xs
  end.

Lemma binary_round_aux_opp m e l :
  binary_round_aux 53 1024 true m e l = SFopp (binary_round_aux 53 1024 false m e l).
Proof.
  unfold binary_round_aux. destruct (shr_fexp _ _ _ _ _) as [mrs e1].
  destruct (shr_fexp _ _ _ _ _) as [mrs' e2]. destruct (shr_m mrs'); try done. by destruct (_ <=? _).
Qed.
Lemma f_sub_of_Z a b :
  0 <= a → 0 < b → a + b < 2 ^ 53 → f_sub (f_of_Z a) (f_of_Z (a + b)) = SFopp (f_of_Z b).
Proof.
  intros Ha Hb Hab. destruct (decide (a = 0)) as [->|Ha0].
  { rewrite Z.add_0_l. by destruct (f_of_Z_whole b) as (d & m & -> & _); [lia|]. }
  destruct (f_of_Z_whole a) as (d & m & -> & Hm & Hd & ?); [lia|].
  destruct (f_of_Z_whole (a + b)) as (d' & m' & -> & Hm' & Hd' & ?); [lia|].
  destruct (f_of_Z_whole b) as (ds & Hs); [lia|].
  unfold f_sub, SFsub. set (ez := Z.min (d - 53) (d' - 53)).
  destruct (shl_align_down m (d - 53) ez) as [E1 _]; [lia|].
  destruct (shl_align_down m' (d' - 53) ez) as [E2 _]; [lia|].
  cbn [cond_Zopp]. rewrite E1, E2, Hm, Hm', <- !Z.mul_assoc, <- !Z.pow_add_r by lia.
  replace (53 - d + (d - 53 - ez)) with (- ez) by lia.
  replace (53 - d' + (d' - 53 - ez)) with (- ez) by lia. rewrite <- Z.mul_sub_distr_r.
  replace (a - (a + b)) with (- b) by lia. rewrite Z.mul_opp_l.
  assert (0 < b * 2 ^ (- ez)) as Hpos by (apply Z.mul_pos_pos; [lia|apply Z.pow_pos_nonneg; lia]).
  destruct (b * 2 ^ (- ez)) as [|p|] eqn:Ep; try lia.
  change (binary_normalize 53 1024 (- Z.pos p) ez false) with (binary_round 53 1024 true p ez).
  destruct (binary_round_whole p (- ez) b) as (d2 & H2); [lia..|].
  rewrite Z.opp_involutive in H2. rewrite <- (proj1 (whole_form_unique _ _ _ _ _ H2 Hs)).
  unfold binary_round. destruct (shl_align p _ _) as [mz e]. apply binary_round_aux_opp.
Qed.
Lemma f_sub_self a : 0 <= a < 2 ^ 53 → f_sub (f_of_Z a) (f_of_Z a) = f_zero.
Proof.
  intros Ha. destruct (decide (a = 0)) as [->|Ha0]; [done|].
  destruct (f_of_Z_whole a) as (d & m & -> & _); [lia|]. unfold f_sub, SFsub. cbn [cond_Zopp].
  by rewrite Z.sub_diag.
Qed.
Lemma f_add_opp a : 0 < a < 2 ^ 53 → f_add (SFopp (f_of_Z a)) (f_of_Z a) = f_zero.
Proof.
  intros Ha. destruct (f_of_Z_whole a) as (d & m & -> & _); [lia|]. unfold f_add, SFadd, SFopp.
  cbn [cond_Zopp negb]. by rewrite Z.add_opp_diag_l.
Qed.
Lemma rounding_error a b :
  0 <= a → 0 <= b → a + b < 2 ^ 53 → f_add (f_sub (f_of_Z a) (f_of_Z (a + b))) (f_of_Z b) = f_zero.
Proof.
  intros Ha Hb Hab. destruct (decide (b = 0)) as [->|].
  - rewrite Z.add_0_r, f_sub_self by lia. done.
  - rewrite f_sub_of_Z, f_add_opp by lia. done.
Qed.

(** The sum of whole numbers is exact. *)
Lemma py_sum_loop_whole xs a :
  0 <= a → Forall (λ x, 0 <= x) xs → a + zsum id xs < 2 ^ 53 →
  py_sum_loop (f_of_Z a) f_zero (f_of_Z <$> xs) = f_of_Z (a + zsum id xs).
Proof.
  intros Ha Hxs. revert a Ha. induction Hxs as [|x xs Hx Hxs IH]; intros a Ha Hlt.
  { simpl. by rewrite Z.add_0_r. }
  assert (0 <= zsum id xs) as Hz by (apply zsum_nonneg; intros y Hy; rewrite Forall_elem in Hxs; by apply Hxs).
  rewrite zsum_cons in Hlt |- *. unfold id in Hlt at 1 |- * at 1. rewrite fmap_cons. cbn [py_sum_loop].
  rewrite f_add_of_Z by lia. rewrite rounding_error by lia.
  replace (f_add (f_sub (f_of_Z x) (f_of_Z (a + x))) (f_of_Z a)) with f_zero
    by (rewrite (Z.add_comm a x), rounding_error by lia; done).
  replace (if f_leb _ _ then _ else _) with f_zero by (by destruct (f_leb _ _)).
  rewrite IH by lia. f_equal. lia.
Qed.
Lemma py_sum_whole xs :
  Forall (λ x, 0 <= x) xs → zsum id xs < 2 ^ 53 → py_sum (f_of_Z <$> xs) = f_of_Z (zsum id xs).
Proof.
  intros Hxs Hlt. destruct Hxs as [|x xs Hx Hxs]; [done|]. rewrite zsum_cons in Hlt |- *.
  unfold id in Hlt at 1 |- * at 1. rewrite fmap_cons. cbn [py_sum].
  assert (0 <= zsum id xs) as Hz by (apply zsum_nonneg; intros y Hy; rewrite Forall_elem in Hxs; by apply Hxs).
  change f_zero with (f_of_Z 0) at 1. rewrite f_add_of_Z by lia. by apply py_sum_loop_whole.
Qed.
(** 0.1 ten times is exactly 1.0 with compensation. *)
Example py_sum_ex : py_sum (replicate 10 (f_ratio 1 10)) = f_of_Z 1.
Proof. vm_compute. reflexivity. Qed.
