(* ===== verification/PyText.v ===== *)
(** Python's [str] methods that the gateway uses on keys, headers and settings, over UTF-8 text. *)
From S2P Require Import Prelude PyFloat.
From Stdlib Require String.
From Stdlib Require Import Ascii.

#[local] Open Scope string_scope.
#[local] Open Scope list_scope.
#[local] Open Scope Z_scope.

(** ** [s.strip()] *)

(** The characters of a text as byte groups, each with whether [str.isspace] accepts it; a byte of
    another multi-byte character is a group of its own. *)
Fixpoint space_groups (l : list N) : list (list N * bool) :=
  match l with
  | [] => []
  | (0xC2 :: (0x85 | 0xA0) as b :: l')%N => ([0xC2%N; b], true) :: space_groups l'
  | (0xE1 :: 0x9A :: 0x80 :: l')%N => ([0xE1; 0x9A; 0x80]%N, true) :: space_groups l'
  | (0xE2 :: 0x80 :: (0x80 | 0x81 | 0x82 | 0x83 | 0x84 | 0x85 | 0x86 | 0x87 | 0x88 | 0x89
                      | 0x8A | 0xA8 | 0xA9 | 0xAF) as b :: l')%N =>
    ([0xE2%N; 0x80%N; b], true) :: space_groups l'
  | (0xE2 :: 0x81 :: 0x9F :: l')%N => ([0xE2; 0x81; 0x9F]%N, true) :: space_groups l'
  | (0xE3 :: 0x80 :: 0x80 :: l')%N => ([0xE3; 0x80; 0x80]%N, true) :: space_groups l'
  | b :: l' => ([b], ((9 <=? b) && (b <=? 13) || (28 <=? b) && (b <=? 32))%N) :: space_groups l'
  end.
Fixpoint drop_spaces (l : list (list N * bool)) : list (list N * bool) :=
  match l with (_, true) :: l' => drop_spaces l' | l => l end.
Definition str_of_bytes (l : list N) : string :=
  String.string_of_list_ascii (Ascii.ascii_of_N <$> l).
Definition py_strip (s : string) : string :=
  str_of_bytes (concat (rev (drop_spaces (rev (drop_spaces (space_groups (str_bytes s)))))).*1).

(** ** [s.split(sep)] and [s.partition(sep)] for a separator of one ASCII character *)

Fixpoint str_split (sep : Ascii.ascii) (s : string) : list string :=
  match s with
  | String.EmptyString => [""]
  | String.String c s =>
    let parts := str_split sep s in
    if bool_decide (c = sep) then "" :: parts
    else match parts with [] => [String.String c ""] | p :: ps => String.String c p :: ps end
  end.
(** Before the separator, whether there is one, and after it. *)
Fixpoint str_partition (sep : Ascii.ascii) (s : string) : string * bool * string :=
  match s with
  | String.EmptyString => ("", false, "")
  | String.String c s =>
    if bool_decide (c = sep) then ("", true, s)
    else let '(before, found, after) := str_partition sep s in (String.String c before, found, after)
  end.
Fixpoint str_join (sep : Ascii.ascii) (parts : list string) : string :=
  match parts with
  | [] => ""
  | [p] => p
  | p :: ps => p +:+ String.String sep (str_join sep ps)
  end.

(** ** [s.lower()] on ASCII letters, and [s.startswith(prefix)] *)

Definition ascii_lower (c : Ascii.ascii) : Ascii.ascii :=
  let n := Ascii.N_of_ascii c in
  if ((65 <=? n) && (n <=? 90))%N then Ascii.ascii_of_N (n + 32) else c.
Fixpoint py_lower (s : string) : string :=
  match s with String.EmptyString => "" | String.String c s => String.String (ascii_lower c) (py_lower s) end.
(** [Some rest] when the text starts with [prefix]. *)
Fixpoint str_remove_prefix (prefix s : string) : option string :=
  match prefix, s with
  | String.EmptyString, s => Some s
  | String.String p prefix, String.String c s =>
    if bool_decide (p = c) then str_remove_prefix prefix s else None
  | _, _ => None
  end.

(** [len(s)]: the bytes that start a character. *)
Definition py_len (s : string) : Z :=
  Z.of_nat (length (filter (λ b, ¬ (0x80 <= b < 0xC0)%N) (str_bytes s))).

Example py_strip_ex : py_strip "  tenant-a 	" = "tenant-a".
Proof. reflexivity. Qed.
Example str_split_ex : str_split ","%char "a:k,,b" = ["a:k"; ""; "b"].
Proof. reflexivity. Qed.
Example str_partition_ex : str_partition " "%char "Bearer k 1" = ("Bearer", true, "k 1").
Proof. reflexivity. Qed.

(** ** Lemmas *)

(** [sep] does not occur in the text. *)
Fixpoint str_free (sep : Ascii.ascii) (s : string) : bool :=
  match s with
  | String.EmptyString => true
  | String.String c s => negb (bool_decide (c = sep)) && str_free sep s
  end.

Lemma str_split_free sep s : str_free sep s = true → str_split sep s = [s].
Proof.
  induction s as [|c s IH]; simpl; [done|]. intros [Hc Hs]%andb_prop.
  rewrite IH by done. by destruct (bool_decide (c = sep)).
Qed.
Lemma str_split_app sep p s :
  str_free sep p = true → str_split sep (p +:+ String.String sep s) = p :: str_split sep s.
Proof.
  induction p as [|c p IH]; simpl; [by rewrite bool_decide_true|]. intros [Hc Hp]%andb_prop.
  rewrite IH by done. by destruct (bool_decide (c = sep)).
Qed.
Lemma str_split_join sep parts :
  parts ≠ [] → Forall (λ p, str_free sep p = true) parts → str_split sep (str_join sep parts) = parts.
Proof.
  intros Hne Hp. induction Hp as [|p ps Hp Hps IH]; [done|]. destruct ps as [|q ps]; simpl.
  - by apply str_split_free.
  - rewrite str_split_app by done. f_equal. by apply IH.
Qed.
Lemma str_partition_app sep p s :
  str_free sep p = true → str_partition sep (p +:+ String.String sep s) = (p, true, s).
Proof.
  induction p as [|c p IH]; simpl; [by rewrite bool_decide_true|]. intros [Hc Hp]%andb_prop.
  rewrite IH by done. by destruct (bool_decide (c = sep)).
Qed.
Lemma str_partition_inv sep s before after :
  str_partition sep s = (before, true, after) → s = before +:+ String.String sep after.
Proof.
  revert before. induction s as [|c s IH]; intros before; simpl; [done|].
  destruct (bool_decide_reflect (c = sep)) as [->|_]; [by intros [= <- <-]|].
  destruct (str_partition sep s) as [[b f] a] eqn:E. intros [= <- -> ->].
  by rewrite (IH b eq_refl).
Qed.
Lemma str_free_app sep a b : str_free sep (a +:+ b) = str_free sep a && str_free sep b.
Proof. induction a as [|c a IH]; simpl; [done|]. by rewrite IH, andb_assoc. Qed.
