(* ===== verification/Domain.v ===== *)
(** [serving_platform/domain/models.py] and [serving_platform/lifecycle/request_machine.py]:
    the platform's data types with their validation, and the request state machine. *)
From S2P Require Import Prelude PyFloat.
From Stdlib Require String.

#[local] Open Scope string_scope.
#[local] Open Scope list_scope.
#[local] Open Scope Z_scope.

(** ** Enumerations ([StrEnum]: the string value is the wire form) *)

Inductive DeviceType := CPU | CUDA | SIMULATED_GPU.
Inductive HealthStatus :=
| REGISTERING | HEALTHY | SUSPECT | UNHEALTHY | RECOVERING | STOPPED.
Inductive RuntimeType := HUGGINGFACE | SIMULATED.
Inductive RequestState :=
| RECEIVED | VALIDATED | ADMITTED | QUEUED | ASSIGNED | PREFILL | DECODE | RUNNING
| STREAMING | COMPLETED | REJECTED | TIMED_OUT | CANCELLED | FAILED.

#[export] Instance DeviceType_eq_dec : EqDecision DeviceType.
Proof. solve_decision. Defined.
#[export] Instance HealthStatus_eq_dec : EqDecision HealthStatus.
Proof. solve_decision. Defined.
#[export] Instance RuntimeType_eq_dec : EqDecision RuntimeType.
Proof. solve_decision. Defined.
#[export] Instance RequestState_eq_dec : EqDecision RequestState.
Proof. solve_decision. Defined.

Definition DeviceType_value (d : DeviceType) : string :=
  match d with CPU => "cpu" | CUDA => "cuda" | SIMULATED_GPU => "simulated_gpu" end.
Definition HealthStatus_value (h : HealthStatus) : string :=
  match h with
  | REGISTERING => "registering" | HEALTHY => "healthy" | SUSPECT => "suspect"
  | UNHEALTHY => "unhealthy" | RECOVERING => "recovering" | STOPPED => "stopped"
  end.
Definition RuntimeType_value (t : RuntimeType) : string :=
  match t with HUGGINGFACE => "huggingface" | SIMULATED => "simulated" end.
Definition RequestState_value (s : RequestState) : string :=
  match s with
  | RECEIVED => "received" | VALIDATED => "validated" | ADMITTED => "admitted"
  | QUEUED => "queued" | ASSIGNED => "assigned" | PREFILL => "prefill" | DECODE => "decode"
  | RUNNING => "running" | STREAMING => "streaming" | COMPLETED => "completed"
  | REJECTED => "rejected" | TIMED_OUT => "timed_out" | CANCELLED => "cancelled"
  | FAILED => "failed"
  end.

Definition all_DeviceType : list DeviceType := [CPU; CUDA; SIMULATED_GPU].
Definition all_HealthStatus : list HealthStatus :=
  [REGISTERING; HEALTHY; SUSPECT; UNHEALTHY; RECOVERING; STOPPED].
Definition all_RuntimeType : list RuntimeType := [HUGGINGFACE; SIMULATED].
Definition all_RequestState : list RequestState :=
  [RECEIVED; VALIDATED; ADMITTED; QUEUED; ASSIGNED; PREFILL; DECODE; RUNNING; STREAMING;
   COMPLETED; REJECTED; TIMED_OUT; CANCELLED; FAILED].

(** [Enum(value)]: the member with that value, or [ValueError]. *)
Definition enum_of_value {E} (value : E → string) (all : list E) (v : string) : res E :=
  match List.find (λ e, (value e =? v)%string) all with
  | Some e => Ok e
  | None => Err (ValueError (v +:+ " is not a valid enumeration value"))
  end.

Lemma RequestState_of_value s :
  enum_of_value RequestState_value all_RequestState (RequestState_value s) = Ok s.
Proof. by destruct s. Qed.
Lemma HealthStatus_of_value s :
  enum_of_value HealthStatus_value all_HealthStatus (HealthStatus_value s) = Ok s.
Proof. by destruct s. Qed.
Lemma DeviceType_of_value s :
  enum_of_value DeviceType_value all_DeviceType (DeviceType_value s) = Ok s.
Proof. by destruct s. Qed.
Lemma RuntimeType_of_value s :
  enum_of_value RuntimeType_value all_RuntimeType (RuntimeType_value s) = Ok s.
Proof. by destruct s. Qed.

Definition RequestState_index (s : RequestState) : nat :=
  match s with
  | RECEIVED => 0 | VALIDATED => 1 | ADMITTED => 2 | QUEUED => 3 | ASSIGNED => 4 | PREFILL => 5
  | DECODE => 6 | RUNNING => 7 | STREAMING => 8 | COMPLETED => 9 | REJECTED => 10
  | TIMED_OUT => 11 | CANCELLED => 12 | FAILED => 13
  end%nat.
#[export] Program Instance RequestState_countable : Countable RequestState :=
  inj_countable RequestState_index (λ n, nth_error all_RequestState n) _.
Next Obligation. by intros []. Qed.

(** ** The request state machine's table *)

Definition TERMINAL_REQUEST_STATES : list RequestState :=
  [COMPLETED; REJECTED; TIMED_OUT; CANCELLED; FAILED].

Definition ALLOWED_REQUEST_TRANSITIONS (s : RequestState) : list RequestState :=
  match s with
  | RECEIVED => [VALIDATED; REJECTED; CANCELLED]
  | VALIDATED => [ADMITTED; REJECTED; TIMED_OUT; CANCELLED]
  | ADMITTED => [QUEUED; ASSIGNED; REJECTED; TIMED_OUT; CANCELLED]
  | QUEUED => [ASSIGNED; PREFILL; RUNNING; REJECTED; TIMED_OUT; CANCELLED; FAILED]
  | ASSIGNED => [QUEUED; PREFILL; RUNNING; TIMED_OUT; CANCELLED; FAILED]
  | RUNNING => [STREAMING; COMPLETED; TIMED_OUT; CANCELLED; FAILED]
  | PREFILL => [DECODE; COMPLETED; TIMED_OUT; CANCELLED; FAILED]
  | DECODE => [COMPLETED; TIMED_OUT; CANCELLED; FAILED]
  | STREAMING => [COMPLETED; TIMED_OUT; CANCELLED; FAILED]
  | COMPLETED | REJECTED | TIMED_OUT | CANCELLED | FAILED => []
  end.

(** ** Data records and their [__post_init__] *)

Record ModelDefinition := mkModel {
  m_model_id : string;
  m_revision : string;
  m_runtime_type : RuntimeType;
  m_estimated_memory_bytes : Z;
  m_supported_dtypes : list string;
  m_default_dtype : string;
  m_max_context_tokens : Z;
  m_max_batch_tokens : Z;
  m_supports_streaming : bool;
  m_supports_cancellation : bool;
  m_load_timeout_seconds : float;
  m_idle_eviction_seconds : float
}.
#[export] Instance ModelDefinition_eq_dec : EqDecision ModelDefinition.
Proof. solve_decision. Defined.

Definition ModelDefinition_post_init (m : ModelDefinition) : res ModelDefinition :=
  _ ← raise_if (str_empty (m_model_id m) || str_empty (m_revision m))
    (ValueError "model_id and revision are required");
  _ ← raise_if (negb (bool_decide (m_default_dtype m ∈ m_supported_dtypes m)))
    (ValueError "default_dtype must be supported");
  _ ← raise_if
    (Z.min (m_estimated_memory_bytes m)
       (Z.min (m_max_context_tokens m) (m_max_batch_tokens m)) <=? 0)
    (ValueError "model memory and token limits must be positive");
  Ok m.

Record WorkerState := mkWorker {
  w_worker_id : string;
  w_device_type : DeviceType;
  w_device_name : string;
  w_total_memory_bytes : option Z;
  w_available_memory_bytes : option Z;
  w_resident_models : gset string;
  w_loading_models : gset string;
  w_queue_depth : Z;
  w_active_batch_count : Z;
  w_max_concurrency : Z;
  w_recent_tokens_per_second : float;
  w_health_status : HealthStatus;
  w_draining : bool;
  w_last_heartbeat : float;
  w_allocated_memory_bytes : option Z;
  w_reserved_memory_bytes : option Z;
  w_gpu_index : option Z;
  w_compute_capability : option string;
  w_driver_version : option string;
  w_runtime_version : option string;
  w_heartbeat_sequence : Z;
  w_consecutive_failures : Z;
  w_last_error_code : option string;
  w_node_id : option string;
  w_numa_node : option Z;
  w_pcie_root_id : option string;
  w_fabric_id : option string
}.
#[export] Instance eta_WorkerState : Eta WorkerState := λ w,
  mkWorker (w_worker_id w) (w_device_type w) (w_device_name w) (w_total_memory_bytes w)
    (w_available_memory_bytes w) (w_resident_models w) (w_loading_models w) (w_queue_depth w)
    (w_active_batch_count w) (w_max_concurrency w) (w_recent_tokens_per_second w)
    (w_health_status w) (w_draining w) (w_last_heartbeat w) (w_allocated_memory_bytes w)
    (w_reserved_memory_bytes w) (w_gpu_index w) (w_compute_capability w) (w_driver_version w)
    (w_runtime_version w) (w_heartbeat_sequence w) (w_consecutive_failures w)
    (w_last_error_code w) (w_node_id w) (w_numa_node w) (w_pcie_root_id w) (w_fabric_id w).

Definition opt_known {A} (o : option A) : bool := match o with Some _ => true | None => false end.
Definition opt_negative (o : option Z) : bool := match o with Some v => v <? 0 | None => false end.
Definition opt_outside (total : Z) (o : option Z) : bool :=
  match o with Some v => negb ((0 <=? v) && (v <=? total)) | None => false end.

Definition WorkerState_post_init (w : WorkerState) : res WorkerState :=
  _ ← raise_if (str_empty (w_worker_id w)) (ValueError "worker_id is required");
  _ ← raise_if (negb (Bool.eqb (negb (opt_known (w_total_memory_bytes w)))
                          (negb (opt_known (w_available_memory_bytes w)))))
    (ValueError "worker memory values must both be known or both be unknown");
  _ ← raise_if (negb (opt_known (w_total_memory_bytes w))
                && (opt_known (w_allocated_memory_bytes w)
                    || opt_known (w_reserved_memory_bytes w)))
    (ValueError "allocated and reserved memory require a known total");
  _ ← match w_total_memory_bytes w, w_available_memory_bytes w with
      | Some total, Some available =>
        _ ← raise_if ((total <? 0) || negb ((0 <=? available) && (available <=? total)))
          (ValueError "worker memory accounting is invalid");
        raise_if (opt_outside total (w_allocated_memory_bytes w)
                  || opt_outside total (w_reserved_memory_bytes w))
          (ValueError "worker CUDA memory accounting is invalid")
      | _, _ => Ok tt
      end;
  _ ← raise_if ((Z.min (w_queue_depth w) (w_active_batch_count w) <? 0)
                || (w_max_concurrency w <=? 0))
    (ValueError "worker queue and concurrency values are invalid");
  _ ← raise_if ((w_heartbeat_sequence w <? 0) || (w_consecutive_failures w <? 0))
    (ValueError "worker health counters must be non-negative");
  _ ← raise_if (opt_negative (w_gpu_index w)) (ValueError "GPU index must be non-negative");
  _ ← raise_if (opt_negative (w_numa_node w)) (ValueError "NUMA node must be non-negative");
  Ok w.

Record RequestRecord := mkRequest {
  r_request_id : string;
  r_tenant_id : string;
  r_model_id : string;
  r_prompt : string;
  r_prompt_tokens : Z;
  r_max_new_tokens : Z;
  r_priority : Z;
  r_deadline : float;
  r_stream : bool;
  r_temperature : float;
  r_created_at : float;
  r_status : RequestState;
  r_assigned_worker_id : option string;
  r_attempt_count : Z;
  r_retry_reasons : list string;
  r_payload_available : bool;
  r_transition_timestamps : gmap RequestState float
}.
#[export] Instance eta_RequestRecord : Eta RequestRecord := λ r,
  mkRequest (r_request_id r) (r_tenant_id r) (r_model_id r) (r_prompt r) (r_prompt_tokens r)
    (r_max_new_tokens r) (r_priority r) (r_deadline r) (r_stream r) (r_temperature r)
    (r_created_at r) (r_status r) (r_assigned_worker_id r) (r_attempt_count r)
    (r_retry_reasons r) (r_payload_available r) (r_transition_timestamps r).
#[export] Instance RequestRecord_inhabited : Inhabited RequestRecord :=
  populate (mkRequest "" "" "" "" 0 0 0 f_zero false f_zero f_zero RECEIVED None 0 [] true ∅).

(** The dataclass constructor's checks; [setdefault] stamps the initial status. *)
Definition RequestRecord_post_init (r : RequestRecord) : res RequestRecord :=
  _ ← raise_if (str_empty (r_request_id r) || str_empty (r_tenant_id r)
                || str_empty (r_model_id r))
    (ValueError "request, tenant, and model identifiers are required");
  _ ← raise_if (py_blank (r_prompt r) || (r_prompt_tokens r <? 0) || (r_max_new_tokens r <=? 0)
                || f_ltb (r_temperature r) f_zero)
    (ValueError "request token and prompt values are invalid");
  Ok (r <| r_transition_timestamps ::= λ ts,
        match ts !! r_status r with
        | Some _ => ts
        | None => <[r_status r := r_created_at r]> ts
        end |>).

Definition terminal_state (s : RequestState) : bool := bool_decide (s ∈ TERMINAL_REQUEST_STATES).
Definition r_terminal (r : RequestRecord) : bool := terminal_state (r_status r).
Definition estimated_tokens (r : RequestRecord) : Z := r_prompt_tokens r + r_max_new_tokens r.

Definition transition_error (s target : RequestState) : PyErr :=
  InvalidStateTransition
    ("cannot transition " +:+ RequestState_value s +:+ " to " +:+ RequestState_value target).

(** [RequestRecord.transition(target, at)]; [at_] is the given time or the clock's. *)
Definition transition (target : RequestState) (at_ : float) (r : RequestRecord)
  : res RequestRecord :=
  if bool_decide (target ∉ ALLOWED_REQUEST_TRANSITIONS (r_status r))
  then Err (transition_error (r_status r) target)
  else Ok (r <| r_status := target |>
             <| r_transition_timestamps ::= λ ts, <[target := at_]> ts |>).

(** [RequestLifecycle.transition]: the same step as a service over a record. *)
Definition RequestLifecycle_transition (r : RequestRecord) (target : RequestState)
  (at_ : float) : res RequestRecord := transition target at_ r.

Record Assignment (E : Type) := mkAssignment {
  as_request_id : string;
  as_worker_id : string;
  as_policy : string;
  as_explanation : E;
  as_assigned_at : float
}.
Arguments mkAssignment {E}.
Arguments as_request_id {E} _.
Arguments as_worker_id {E} _.
Arguments as_policy {E} _.
Arguments as_explanation {E} _.
Arguments as_assigned_at {E} _.

Record TenantLimits := mkTenant {
  t_tenant_id : string;
  t_max_concurrent_requests : Z;
  t_max_queued_requests : Z;
  t_token_quota : Z;
  t_scheduling_weight : Z
}.
#[export] Instance TenantLimits_eq_dec : EqDecision TenantLimits.
Proof. solve_decision. Defined.

Definition TenantLimits_post_init (t : TenantLimits) : res TenantLimits :=
  _ ← raise_if (str_empty (t_tenant_id t)
       || (Z.min (Z.min (t_max_concurrent_requests t) (t_max_queued_requests t))
             (Z.min (t_token_quota t) (t_scheduling_weight t)) <=? 0))
    (ValueError "tenant limits must be positive");
  Ok t.

Lemma TenantLimits_positive t :
  is_ok (TenantLimits_post_init t) = true →
  0 < t_max_concurrent_requests t ∧ 0 < t_max_queued_requests t ∧ 0 < t_token_quota t ∧
  0 < t_scheduling_weight t.
Proof. unfold TenantLimits_post_init, raise_if. case_head; [done|]. bool_hyps. lia. Qed.

(** ** Runs of the state machine *)

(** [lifecycle r l r']: successive [transition] calls with targets [l] lead from [r] to [r']. *)
Inductive lifecycle (r : RequestRecord) : list RequestState → RequestRecord → Prop :=
| lifecycle_nil : lifecycle r [] r
| lifecycle_step l r' target at_ r'' :
    lifecycle r l r' → transition target at_ r' = Ok r'' → lifecycle r (l ++ [target]) r''.

Definition count_state (s : RequestState) (l : list RequestState) : Z :=
  zsum (λ x, if decide (x = s) then 1 else 0) l.

(** Progress order of the states: only ASSIGNED -> QUEUED goes back. *)
Definition state_rank (s : RequestState) : Z :=
  match s with
  | RECEIVED => 0 | VALIDATED => 1 | ADMITTED => 2 | QUEUED => 3 | ASSIGNED => 4
  | PREFILL | RUNNING => 5 | DECODE | STREAMING => 6
  | COMPLETED | REJECTED | TIMED_OUT | CANCELLED | FAILED => 7
  end.
Definition executing_or_done (s : RequestState) : bool :=
  match s with PREFILL | DECODE | RUNNING | STREAMING | COMPLETED => true | _ => false end.

(** ** Lemmas *)

Lemma transition_Ok target at_ r r' :
  transition target at_ r = Ok r' ↔
  target ∈ ALLOWED_REQUEST_TRANSITIONS (r_status r) ∧
  r' = r <| r_status := target |>
         <| r_transition_timestamps ::= λ ts, <[target := at_]> ts |>.
Proof.
  unfold transition. case_bool_decide as H; [|naive_solver].
  split; [discriminate|]. by intros [? _].
Qed.
Lemma transition_status target at_ r r' : transition target at_ r = Ok r' → r_status r' = target.
Proof. by intros [_ ->]%transition_Ok. Qed.
Lemma transition_timestamps target at_ r r' :
  transition target at_ r = Ok r' →
  r_transition_timestamps r' = <[target := at_]> (r_transition_timestamps r).
Proof. by intros [_ ->]%transition_Ok. Qed.
Lemma transition_keeps target at_ r r' :
  transition target at_ r = Ok r' →
  r_request_id r' = r_request_id r ∧ r_tenant_id r' = r_tenant_id r ∧
  r_model_id r' = r_model_id r ∧ r_prompt r' = r_prompt r ∧
  r_prompt_tokens r' = r_prompt_tokens r ∧ r_max_new_tokens r' = r_max_new_tokens r ∧
  r_priority r' = r_priority r ∧ r_deadline r' = r_deadline r ∧ r_stream r' = r_stream r ∧
  r_temperature r' = r_temperature r ∧ r_created_at r' = r_created_at r ∧
  r_assigned_worker_id r' = r_assigned_worker_id r ∧ r_attempt_count r' = r_attempt_count r ∧
  r_retry_reasons r' = r_retry_reasons r ∧ r_payload_available r' = r_payload_available r.
Proof. by intros [_ ->]%transition_Ok. Qed.
Lemma transition_allowed target at_ r :
  target ∈ ALLOWED_REQUEST_TRANSITIONS (r_status r) → ∃ r', transition target at_ r = Ok r'.
Proof. intros H. eexists. by apply transition_Ok. Qed.
Lemma terminal_no_targets s : terminal_state s = true ↔ ALLOWED_REQUEST_TRANSITIONS s = [].
Proof. by destruct s. Qed.
Lemma transition_terminal target at_ r :
  r_terminal r = true → transition target at_ r = Err (transition_error (r_status r) target).
Proof.
  intros H%terminal_no_targets. unfold transition. rewrite H.
  rewrite bool_decide_eq_true_2; [done|apply not_elem_of_nil].
Qed.

Create HintDb lifecycle.
#[export] Hint Resolve transition_status transition_timestamps transition_terminal : lifecycle.

Lemma transition_rank target at_ r r' :
  transition target at_ r = Ok r' →
  state_rank (r_status r) + 1 <= state_rank (r_status r') ∨
  r_status r = ASSIGNED ∧ target = QUEUED ∧ state_rank (r_status r') = 3.
Proof.
  intros [Hin ->]%transition_Ok. simpl.
  destruct (r_status r); simpl in Hin;
    repeat (apply elem_of_cons in Hin as [->|Hin]; [simpl; first [left; lia|by right]|]);
    by apply not_elem_of_nil in Hin.
Qed.

Lemma count_state_snoc s l x :
  count_state s (l ++ [x]) = count_state s l + if decide (x = s) then 1 else 0.
Proof. unfold count_state. rewrite zsum_app. simpl. lia. Qed.
Lemma count_state_nonneg s l : 0 <= count_state s l.
Proof. apply zsum_nonneg. intros x _. destruct (decide _); lia. Qed.

(** The status after a run is its last target, and the requeues it can still make up for
    are the assignments it has made. *)
Lemma lifecycle_rank r l r' :
  r_status r = RECEIVED → lifecycle r l r' →
  Z.of_nat (length l) + (if decide (r_status r' = ASSIGNED) then 2 else 0)
    <= state_rank (r_status r') + 2 * count_state ASSIGNED l.
Proof.
  intros Hr. induction 1 as [|l r' target at_ r'' Hl IH Ht].
  { rewrite Hr. simpl. lia. }
  rewrite length_app, count_state_snoc. simpl.
  pose proof (transition_status _ _ _ _ Ht) as Hs. rewrite Hs in *.
  destruct (transition_rank _ _ _ _ Ht) as [Hrank|(H1 & -> & H3)].
  - rewrite Hs in Hrank. destruct (decide (target = ASSIGNED)), (decide (r_status r' = ASSIGNED)); lia.
  - rewrite H1 in IH. simpl in *. lia.
Qed.

Lemma lifecycle_executed r l r' :
  r_status r = RECEIVED → lifecycle r l r' → executing_or_done (r_status r') = true →
  RUNNING ∈ l ∨ PREFILL ∈ l.
Proof.
  intros Hr. induction 1 as [|l r' target at_ r'' Hl IH Ht]; intros He; [by rewrite Hr in He|].
  rewrite (transition_status _ _ _ _ Ht) in He. apply transition_Ok in Ht as [Hin _].
  rewrite !elem_of_app, !list_elem_of_singleton.
  destruct target; try discriminate; try tauto;
    (destruct (r_status r'); simpl in Hin, IH; try tauto; exfalso;
     repeat (apply elem_of_cons in Hin as [Heq|Hin]; [discriminate|]);
     by apply not_elem_of_nil in Hin).
Qed.

Lemma lifecycle_dom r l r' :
  lifecycle r l r' →
  dom (r_transition_timestamps r') = dom (r_transition_timestamps r) ∪ list_to_set l.
Proof.
  induction 1 as [|l r' target at_ r'' Hl IH Ht]; [set_solver|].
  rewrite (transition_timestamps _ _ _ _ Ht), dom_insert_L, IH, list_to_set_app_L. set_solver.
Qed.

(** ** Properties *)

(** The request lifecycle terminates: a record that starts RECEIVED makes at most seven
    transitions plus two for every time it was assigned to a worker, so only retries can
    prolong it, and a terminal record accepts no transition at all. *)
Theorem lifecycle_bounded r l r' :
  r_status r = RECEIVED → lifecycle r l r' →
  Z.of_nat (length l) <= 7 + 2 * count_state ASSIGNED l ∧
  (r_terminal r' = true → ∀ target at_,
     transition target at_ r' = Err (transition_error (r_status r') target)).
Proof.
  intros Hr Hl. split; [|auto with lifecycle].
  pose proof (lifecycle_rank _ _ _ Hr Hl).
  assert (state_rank (r_status r') <= 7) by (destruct (r_status r'); simpl; lia).
  destruct (decide (r_status r' = ASSIGNED)); lia.
Qed.

(** C31: The timestamps of a record are faithful evidence of its history: they hold exactly the
    states it has visited, and a COMPLETED record has a RUNNING or a PREFILL stamp, so no
    request completes without having been executed. *)
Theorem lifecycle_history r l r' :
  r_status r = RECEIVED → dom (r_transition_timestamps r) = {[RECEIVED]} → lifecycle r l r' →
  dom (r_transition_timestamps r') = {[RECEIVED]} ∪ list_to_set l ∧
  (r_status r' = COMPLETED →
     is_Some (r_transition_timestamps r' !! RUNNING) ∨
     is_Some (r_transition_timestamps r' !! PREFILL)).
Proof.
  intros Hr Hd Hl. pose proof (lifecycle_dom _ _ _ Hl) as Hdom. rewrite Hd in Hdom.
  split; [done|]. intros Hc. rewrite <- !elem_of_dom, Hdom.
  destruct (lifecycle_executed _ _ _ Hr Hl) as [H|H]; [by rewrite Hc|left|right]; set_solver.
Qed.

(** A request validated, admitted, queued, assigned, sent back, assigned again and run. *)
Definition sample_request : RequestRecord :=
  mkRequest "req-1" "tenant-a" "model-x" "explain caches" 2 4 10 f_inf false f_zero f_zero
    RECEIVED None 0 [] true {[RECEIVED := f_zero]}.
Definition sample_path : list RequestState :=
  [VALIDATED; ADMITTED; QUEUED; ASSIGNED; QUEUED; ASSIGNED; RUNNING; COMPLETED].
Fixpoint run_path (l : list RequestState) (r : RequestRecord) : res RequestRecord :=
  match l with [] => Ok r | s :: l' => r' ← transition s f_zero r; run_path l' r' end.
Lemma run_path_lifecycle r0 l0 l r r' :
  lifecycle r0 l0 r → run_path l r = Ok r' → lifecycle r0 (l0 ++ l) r'.
Proof.
  revert l0 r. induction l as [|s l IH]; intros l0 r Hl0; simpl.
  - intros [= <-]. by rewrite app_nil_r.
  - intros (r1 & H1 & H2)%bind_Ok_inv. rewrite cons_middle, app_assoc.
    eapply IH; [by eapply lifecycle_step|done].
Qed.
Definition sample_completed : RequestRecord :=
  match run_path sample_path sample_request with Ok r => r | Err _ => sample_request end.
Lemma sample_lifecycle : lifecycle sample_request sample_path sample_completed.
Proof.
  apply (run_path_lifecycle sample_request [] sample_path sample_request);
    [apply lifecycle_nil|vm_compute; reflexivity].
Qed.

Definition sample_worker : WorkerState :=
  mkWorker "worker-1" SIMULATED_GPU "sim" (Some 1000) (Some 900) {["model-x"]} ∅ 0 0 2
    (f_of_Z 100) HEALTHY false f_zero None None None None None None 0 0 None None None None None.
Lemma lifecycle_bounded_witness :
  (8 <= 7 + 2 * 2) ∧ r_terminal sample_completed = true.
Proof.
  split; [|reflexivity].
  pose proof (lifecycle_bounded sample_request sample_path sample_completed
    eq_refl sample_lifecycle) as [H _].
  revert H. vm_compute. done.
Defined.
Lemma lifecycle_history_witness :
  r_status sample_completed = COMPLETED ∧
  (is_Some (r_transition_timestamps sample_completed !! RUNNING) ∨
   is_Some (r_transition_timestamps sample_completed !! PREFILL)).
Proof.
  split; [reflexivity|].
  refine (proj2 (lifecycle_history sample_request sample_path sample_completed
    eq_refl _ sample_lifecycle) eq_refl).
  vm_compute. reflexivity.
Defined.
