(* ===== verification/Effects.v ===== *)
(** Effectful code: computations over a state that may raise an exception, and a small program logic
    for them. *)
From S2P Require Import Prelude.

#[local] Open Scope list_scope.

(** ** Computations *)

Definition Eff (W X A : Type) : Type := W → (X + A) * W.

Section eff.
Context {W X : Type}.
#[local] Abbreviation M := (Eff W X).

#[export] Instance M_ret : MRet M := λ _ a w, (inr a, w).
#[export] Instance M_bind : MBind M := λ _ _ k m w,
  match m w with
  | (inr a, w) => k a w
  | (inl e, w) => (inl e, w)
  end.
Definition raise {A} (e : X) : M A := λ w, (inl e, w).
Definition modify (f : W → W) : M unit := λ w, (inr tt, f w).
Definition gets {A} (f : W → A) : M A := λ w, (inr (f w), w).
(** [try: body finally: last]. *)
Definition try_finally {A} (body : M A) (last : M unit) : M A := λ w,
  match body w with
  | (r, w) =>
    match last w with
    | (inr _, w) => (r, w)
    | (inl e, w) => (inl e, w)
    end
  end.
(** [try: body except ...: handler]; [handler] re-raises what it does not handle. *)
Definition try_except {A} (body : M A) (handler : X → M A) : M A := λ w,
  match body w with
  | (inr a, w) => (inr a, w)
  | (inl e, w) => handler e w
  end.
(** The outcome of [m], for an [except] clause that leaves the enclosing function. *)
Definition attempt {A} (m : M A) : M (X + A) := λ w, let '(r, w) := m w in (inr r, w).
Fixpoint for_each {A} (f : A → M unit) (l : list A) : M unit :=
  match l with
  | [] => mret tt
  | x :: l => _ ← f x; for_each f l
  end.
Fixpoint times (n : nat) (c : M unit) : M unit :=
  match n with O => mret tt | S n => _ ← c; times n c end.

(** ** Program logic *)

(** From a world satisfying [P], the computation ends in [Q] or raises an exception with [E]. *)
Definition hoare {A} (P : W → Prop) (c : M A) (Q : A → W → Prop)
  (E : X → W → Prop) : Prop :=
  ∀ w, P w → match c w with (inr a, w') => Q a w' | (inl e, w') => E e w' end.
Definition never : X → W → Prop := λ _ _, False.
Definition anyhow : X → W → Prop := λ _ _, True.

Lemma hoare_ret {A} (a : A) (P : W → Prop) Q E : (∀ w, P w → Q a w) → hoare P (mret a) Q E.
Proof. intros H w Hw. by apply H. Qed.
Lemma hoare_raise {A} e (P : W → Prop) (Q : A → W → Prop) (E : X → W → Prop) :
  (∀ w, P w → E e w) → hoare P (raise e) Q E.
Proof. intros H w Hw. by apply H. Qed.
Lemma hoare_bind {A B} (m : M A) (k : A → M B) P R Q E :
  hoare P m R E → (∀ a, hoare (R a) (k a) Q E) → hoare P (m ≫= k) Q E.
Proof.
  intros Hm Hk w Hw. specialize (Hm w Hw). unfold mbind, M_bind.
  destruct (m w) as [[e|a] w']; [done|]. by apply Hk.
Qed.
(** Two steps at once. *)
Lemma hoare_bind2 {A B C} (m : M A) (k1 : A → M B) (k2 : B → M C) P R Q E :
  hoare P (m ≫= k1) R E → (∀ b, hoare (R b) (k2 b) Q E) → hoare P (m ≫= λ a, k1 a ≫= k2) Q E.
Proof.
  intros Hm Hk w Hw. specialize (Hm w Hw). unfold mbind, M_bind in *.
  destruct (m w) as [[e|a] w1]; [done|]. destruct (k1 a w1) as [[e|b] w2]; [done|]. by apply Hk.
Qed.
Lemma hoare_conseq {A} (m : M A) (P P' : W → Prop) (Q Q' : A → W → Prop)
  (E E' : X → W → Prop) :
  hoare P' m Q' E' → (∀ w, P w → P' w) → (∀ a w, Q' a w → Q a w) → (∀ e w, E' e w → E e w) →
  hoare P m Q E.
Proof.
  intros Hm HP HQ HE w Hw. specialize (Hm w (HP w Hw)). destruct (m w) as [[e|a] w']; auto.
Qed.
Lemma hoare_post {A} (m : M A) P (Q Q' : A → W → Prop) E :
  hoare P m Q' E → (∀ a w, Q' a w → Q a w) → hoare P m Q E.
Proof. intros Hm HQ. by eapply hoare_conseq. Qed.
Lemma hoare_never {A} (m : M A) P Q E : hoare P m Q never → hoare P m Q E.
Proof. intros Hm. by eapply hoare_conseq. Qed.
Lemma hoare_pre {A} (m : M A) (φ : Prop) P Q E :
  (φ → hoare P m Q E) → hoare (λ w, φ ∧ P w) m Q E.
Proof. intros Hm w [Hφ Hw]. by apply Hm. Qed.
Lemma hoare_gets {A} (f : W → A) (P : W → Prop) E :
  hoare P (gets f) (λ a w, a = f w ∧ P w) E.
Proof. intros w Hw. by split. Qed.
Lemma hoare_modify f (P : W → Prop) (Q : unit → W → Prop) E :
  (∀ w, P w → Q tt (f w)) → hoare P (modify f) Q E.
Proof. intros H w Hw. by apply H. Qed.
Lemma hoare_finally {A} (body : M A) (last : M unit) P (R Q : A → W → Prop)
  (E E' : X → W → Prop) :
  hoare P body R E' → (∀ a, hoare (R a) last (λ _, Q a) E) →
  (∀ e, hoare (E' e) last (λ _, E e) E) → hoare P (try_finally body last) Q E.
Proof.
  intros Hb Hr He w Hw. specialize (Hb w Hw). unfold try_finally.
  destruct (body w) as [[e|a] w1].
  - specialize (He e w1 Hb). by destruct (last w1) as [[e'|[]] w2].
  - specialize (Hr a w1 Hb). by destruct (last w1) as [[e'|[]] w2].
Qed.
Lemma hoare_except {A} (body : M A) (handler : X → M A) P Q (E E' : X → W → Prop) :
  hoare P body Q E' → (∀ e, hoare (E' e) (handler e) Q E) → hoare P (try_except body handler) Q E.
Proof.
  intros Hb Hh w Hw. specialize (Hb w Hw). unfold try_except.
  destruct (body w) as [[e|a] w1]; [by apply Hh|done].
Qed.
Lemma hoare_attempt {A} (m : M A) (P : W → Prop) (Q : A → W → Prop) (E E' : X → W → Prop) :
  hoare P m Q E →
  hoare P (attempt m) (λ r w, match r with inr a => Q a w | inl e => E e w end) E'.
Proof.
  intros Hm w Hw. specialize (Hm w Hw). unfold attempt. by destruct (m w) as [[e|a] w'].
Qed.

Lemma bind_eq {A B} (m : M A) (k : A → M B) w a w' : m w = (inr a, w') → (m ≫= k) w = k a w'.
Proof. intros H. unfold mbind, M_bind. by rewrite H. Qed.
Lemma bind_raise {A B} (m : M A) (k : A → M B) w e w' : m w = (inl e, w') → (m ≫= k) w = (inl e, w').
Proof. intros H. unfold mbind, M_bind. by rewrite H. Qed.
Lemma bind_inr_inv {A B} (m : M A) (k : A → M B) w b w' :
  (m ≫= k) w = (inr b, w') → ∃ a w1, m w = (inr a, w1) ∧ k a w1 = (inr b, w').
Proof. unfold mbind, M_bind. destruct (m w) as [[e|a] w1] eqn:E; [done|]. eauto. Qed.
Lemma hoare_for_each {Y} (f : Y → M unit) xs (P : W → Prop) E :
  (∀ x, x ∈ xs → hoare P (f x) (λ _, P) E) → hoare P (for_each f xs) (λ _, P) E.
Proof.
  induction xs as [|x xs IH]; intros Hf; simpl; [by apply hoare_ret|].
  eapply hoare_bind; [apply Hf; left|]. intros []. apply IH. intros y Hy. apply Hf. by right.
Qed.
(** An invariant that holds whether or not the computation raises. *)
Definition preserves (I : W → Prop) {A} (c : M A) : Prop := hoare I c (λ _, I) (λ _, I).
Lemma preserves_bind {A B} I (m : M A) (k : A → M B) :
  preserves I m → (∀ a, preserves I (k a)) → preserves I (m ≫= k).
Proof. intros Hm Hk. by eapply hoare_bind. Qed.
Lemma preserves_ret {A} I (a : A) : preserves I (mret (M := M) a).
Proof. by apply hoare_ret. Qed.
Lemma preserves_raise {A} I e : preserves I (raise (A := A) e).
Proof. by apply hoare_raise. Qed.
Lemma preserves_gets {A} I (f : W → A) : preserves I (gets f).
Proof. intros w Hw. exact Hw. Qed.
Lemma preserves_modify (I : W → Prop) f : (∀ w, I w → I (f w)) → preserves I (modify f).
Proof. intros Hf w Hw. by apply Hf. Qed.
Lemma preserves_for_each {Y} I (f : Y → M unit) xs :
  (∀ x, preserves I (f x)) → preserves I (for_each f xs).
Proof. intros Hf. apply hoare_for_each. intros x _. apply Hf. Qed.
Lemma preserves_except {A} I (c : M A) (h : X → M A) :
  preserves I c → (∀ e, preserves I (h e)) → preserves I (try_except c h).
Proof. intros Hc Hh. eapply hoare_except; [exact Hc|exact Hh]. Qed.
Lemma preserves_finally {A} I (c : M A) (last : M unit) :
  preserves I c → preserves I last → preserves I (try_finally c last).
Proof. intros Hc Hl. eapply hoare_finally; [exact Hc|intros ?; exact Hl..]. Qed.
Lemma preserves_attempt {A} I (c : M A) : preserves I c → preserves I (attempt c).
Proof. intros Hc w Hw. specialize (Hc w Hw). unfold attempt. by destruct (c w) as [[e|a] w']. Qed.
Lemma hoare_and {A} (c : M A) (P P' : W → Prop) (Q Q' : A → W → Prop) E :
  hoare P c Q E → hoare P' c Q' anyhow → hoare (λ w, P w ∧ P' w) c (λ a w, Q a w ∧ Q' a w) E.
Proof.
  intros H1 H2 w [Hw Hw']. specialize (H1 w Hw). specialize (H2 w Hw').
  by destruct (c w) as [[e|a] w'].
Qed.
End eff.

(** Runs the first step of a computation, whose result [E] gives. *)
Ltac run_step E :=
  match type of E with
  | ?m ?w = _ =>
    match goal with
    | |- context [@mbind _ _ ?A ?B ?k ?m' w] =>
      unify m m'; rewrite (bind_eq m' k w _ _ E)
    end
  end.
