(* ===== verification/Admission.v ===== *)
(** [serving_platform/admission/controller.py] and [interfaces.py]: the in-process tenant
    admission controller, its accounting invariant, and the contract every controller meets. *)
From S2P Require Import Prelude PyFloat Domain.
From Stdlib Require String.

#[local] Open Scope string_scope.
#[local] Open Scope list_scope.
#[local] Open Scope Z_scope.

(** ** Interface *)

Record AdmissionDecision := mkDecision { d_admitted : bool; d_code : string; d_reason : string }.
#[export] Instance AdmissionDecision_eq_dec : EqDecision AdmissionDecision.
Proof. solve_decision. Defined.

Record TenantSnapshot := mkTenantSnapshot { sn_queued : Z; sn_running : Z; sn_reserved_tokens : Z }.

(** ** [TenantAdmissionController] *)

Record Reservation := mkReservation { rv_tenant : string; rv_tokens : Z; rv_running : bool }.

Record TenantAdmissionController := mkAdmission {
  ac_tenants : gmap string TenantLimits;
  ac_global_queue_capacity : Z;
  ac_queued : gmap string Z;
  ac_running : gmap string Z;
  ac_tokens : gmap string Z;
  ac_reserved : gmap string Reservation
}.
#[export] Instance eta_TenantAdmissionController : Eta TenantAdmissionController := λ c,
  mkAdmission (ac_tenants c) (ac_global_queue_capacity c) (ac_queued c) (ac_running c)
    (ac_tokens c) (ac_reserved c).

(** [{tenant.tenant_id: tenant for tenant in tenants}]: a later entry wins. *)
Definition tenants_by_id (tenants : list TenantLimits) : gmap string TenantLimits :=
  foldl (λ m t, <[t_tenant_id t := t]> m) ∅ tenants.

Definition TenantAdmissionController_init (tenants : list TenantLimits) (capacity : Z)
  : res TenantAdmissionController :=
  _ ← raise_if (capacity <=? 0) (ValueError "global queue capacity must be positive");
  let by_id := tenants_by_id tenants in
  _ ← raise_if (negb (Nat.eqb (size by_id) (length tenants)))
    (ValueError "tenant identifiers must be unique");
  Ok (mkAdmission by_id capacity ∅ ∅ ∅ ∅).

(** [worker.health_status == HEALTHY and not worker.draining]. *)
Definition admissible_worker (w : WorkerState) : bool :=
  bool_decide (w_health_status w = HEALTHY) && negb (w_draining w).

(** The checks of [decide] that read only the request, the model, the clock and the
    workers; the in-process and the Redis controller share them. *)
Definition request_checks (request : RequestRecord) (model : option ModelDefinition)
  (workers : list WorkerState) (now : float) : option AdmissionDecision :=
  match model with
  | None => Some (mkDecision false "unsupported_model" "model is not registered")
  | Some m =>
    if m_max_context_tokens m <? estimated_tokens request
    then Some (mkDecision false "context_window_exceeded" "context is too large")
    else if f_leb (r_deadline request) now
    then Some (mkDecision false "deadline_exceeded" "deadline has expired")
    else if negb (existsb admissible_worker workers)
    then Some (mkDecision false "no_healthy_capacity" "no healthy worker")
    else None
  end.

Definition admission_decide (request : RequestRecord) (model : option ModelDefinition)
  (workers : list WorkerState) (now : float) (c : TenantAdmissionController)
  : AdmissionDecision * TenantAdmissionController :=
  match ac_reserved c !! r_request_id request with
  | Some _ => (mkDecision true "already_admitted" "reservation already exists", c)
  | None =>
    match ac_tenants c !! r_tenant_id request with
    | None => (mkDecision false "unknown_tenant" "tenant is not configured", c)
    | Some tenant =>
      match request_checks request model workers now with
      | Some refusal => (refusal, c)
      | None =>
        let tid := t_tenant_id tenant in
        if ac_global_queue_capacity c <=? msum (λ _ n, n) (ac_queued c)
        then (mkDecision false "global_queue_full" "global queue is full", c)
        else if t_max_queued_requests tenant <=? cget (ac_queued c) tid
        then (mkDecision false "tenant_queue_full" "tenant queue is full", c)
        else if t_max_concurrent_requests tenant <=? cget (ac_running c) tid
        then (mkDecision false "tenant_concurrency_limit"
                "tenant concurrency limit reached", c)
        else if t_token_quota tenant <? cget (ac_tokens c) tid + estimated_tokens request
        then (mkDecision false "tenant_token_quota" "tenant token quota exceeded", c)
        else (mkDecision true "admitted" "request capacity reserved",
              c <| ac_queued ::= cadd tid 1 |>
                <| ac_tokens ::= cadd tid (estimated_tokens request) |>
                <| ac_reserved ::= <[r_request_id request :=
                     mkReservation tid (estimated_tokens request) false]> |>)
      end
    end
  end.

Definition mark_running (request_id : string) (c : TenantAdmissionController)
  : res TenantAdmissionController :=
  match ac_reserved c !! request_id with
  | None => Err (KeyError request_id)
  | Some (mkReservation tid tokens true) => Ok c
  | Some (mkReservation tid tokens false) =>
    match ac_tenants c !! tid with
    | None => Err (KeyError tid)
    | Some limits =>
      if t_max_concurrent_requests limits <=? cget (ac_running c) tid
      then Err (RuntimeError "tenant concurrency limit reached")
      else
        Ok (c <| ac_queued ::= λ q, if 0 <? cget q tid then cadd tid (-1) q else q |>
              <| ac_running ::= cadd tid 1 |>
              <| ac_reserved ::= <[request_id := mkReservation tid tokens true]> |>)
    end
  end.

Definition release (request_id : string) (c : TenantAdmissionController)
  : TenantAdmissionController :=
  match ac_reserved c !! request_id with
  | None => c
  | Some (mkReservation tid tokens running) =>
    let c := c <| ac_reserved ::= delete request_id |> in
    let c := if running then c <| ac_running ::= cadd tid (-1) |>
             else c <| ac_queued ::= cadd tid (-1) |> in
    c <| ac_tokens ::= cadd tid (- tokens) |>
  end.

Definition snapshot (tenant_id : string) (c : TenantAdmissionController) : TenantSnapshot :=
  mkTenantSnapshot (cget (ac_queued c) tenant_id) (cget (ac_running c) tenant_id)
    (cget (ac_tokens c) tenant_id).

(** ** Specification: the counters are sums over the live reservations *)

Definition of_tenant (t : string) (rv : Reservation) : bool := bool_decide (rv_tenant rv = t).
Definition b2z (b : bool) : Z := if b then 1 else 0.
Definition queued_by (m : gmap string Reservation) (t : string) : Z :=
  msum (λ _ rv, b2z (of_tenant t rv && negb (rv_running rv))) m.
Definition running_by (m : gmap string Reservation) (t : string) : Z :=
  msum (λ _ rv, b2z (of_tenant t rv && rv_running rv)) m.
Definition tokens_by (m : gmap string Reservation) (t : string) : Z :=
  msum (λ _ rv, if of_tenant t rv then rv_tokens rv else 0) m.
Definition queued_total (m : gmap string Reservation) : Z :=
  msum (λ _ rv, b2z (negb (rv_running rv))) m.

(** [tenants] maps each identifier to the limits that carry it. *)
Definition tenants_ok (m : gmap string TenantLimits) : Prop :=
  ∀ t l, m !! t = Some l → t_tenant_id l = t.

Record accounting (c : TenantAdmissionController) : Prop := {
  acc_tenants : tenants_ok (ac_tenants c);
  acc_known : ∀ i rv, ac_reserved c !! i = Some rv → is_Some (ac_tenants c !! rv_tenant rv);
  acc_nonneg : ∀ i rv, ac_reserved c !! i = Some rv → 0 <= rv_tokens rv;
  acc_queued : ∀ t, cget (ac_queued c) t = queued_by (ac_reserved c) t;
  acc_running : ∀ t, cget (ac_running c) t = running_by (ac_reserved c) t;
  acc_tokens : ∀ t, cget (ac_tokens c) t = tokens_by (ac_reserved c) t;
  acc_total : msum (λ _ n, n) (ac_queued c) = queued_total (ac_reserved c)
}.

Record within_limits (c : TenantAdmissionController) : Prop := {
  lim_total : queued_total (ac_reserved c) <= ac_global_queue_capacity c;
  lim_queued : ∀ t l, ac_tenants c !! t = Some l →
    queued_by (ac_reserved c) t <= t_max_queued_requests l;
  lim_running : ∀ t l, ac_tenants c !! t = Some l →
    running_by (ac_reserved c) t <= t_max_concurrent_requests l;
  lim_tokens : ∀ t l, ac_tenants c !! t = Some l →
    tokens_by (ac_reserved c) t <= t_token_quota l
}.

(** One controller call, and the states a controller can reach. Tokens of a request are
    never negative ([RequestRecord.__post_init__]). *)
Inductive admission_step : TenantAdmissionController → TenantAdmissionController → Prop :=
| step_decide c request model workers now :
    0 <= estimated_tokens request →
    admission_step c (admission_decide request model workers now c).2
| step_mark_running c i c' : mark_running i c = Ok c' → admission_step c c'
| step_release c i : admission_step c (release i c).

Inductive admission_reachable (tenants : list TenantLimits) (capacity : Z)
  : TenantAdmissionController → Prop :=
| reach_init c :
    TenantAdmissionController_init tenants capacity = Ok c →
    Forall (λ t, is_ok (TenantLimits_post_init t) = true) tenants →
    admission_reachable tenants capacity c
| reach_step c c' :
    admission_reachable tenants capacity c → admission_step c c' →
    admission_reachable tenants capacity c'.

(** Two controllers are equivalent when no operation can tell them apart: a counter that
    reads zero may or may not be stored. *)
#[export] Instance admission_equiv : Equiv TenantAdmissionController := λ c d,
  ac_tenants c = ac_tenants d ∧ ac_global_queue_capacity c = ac_global_queue_capacity d ∧
  ac_reserved c = ac_reserved d ∧
  (∀ t, cget (ac_queued c) t = cget (ac_queued d) t) ∧
  (∀ t, cget (ac_running c) t = cget (ac_running d) t) ∧
  (∀ t, cget (ac_tokens c) t = cget (ac_tokens d) t) ∧
  msum (λ _ n, n) (ac_queued c) = msum (λ _ n, n) (ac_queued d).
#[export] Instance admission_equivalence : Equivalence (≡@{TenantAdmissionController}).
Proof.
  split.
  - intros c. by repeat split.
  - intros c d (?&?&?&?&?&?&?). repeat split; congruence.
  - intros c d e (?&?&?&?&?&?&?) (?&?&?&?&?&?&?). repeat split; congruence.
Qed.

(** ** Lemmas *)

Create HintDb admission.

Section by_tenant.
Implicit Types (m : gmap string Reservation) (t i : string) (rv : Reservation).

Lemma b2z_nonneg b : 0 <= b2z b.
Proof. destruct b; simpl; lia. Qed.
Lemma queued_by_nonneg m t : 0 <= queued_by m t.
Proof. apply msum_nonneg. intros. apply b2z_nonneg. Qed.
Lemma running_by_nonneg m t : 0 <= running_by m t.
Proof. apply msum_nonneg. intros. apply b2z_nonneg. Qed.
Lemma queued_by_elem m i rv :
  m !! i = Some rv → rv_running rv = false → 1 <= queued_by m (rv_tenant rv).
Proof.
  intros Hi Hr. eapply Z.le_trans; [|apply (msum_elem_le _ m i rv); [intros; apply b2z_nonneg|done]].
  unfold of_tenant. rewrite bool_decide_eq_true_2, Hr by done. done.
Qed.
Lemma of_tenant_eq t rv : of_tenant t rv = bool_decide (rv_tenant rv = t).
Proof. done. Qed.
End by_tenant.

(** Rewrites the four sums through an insertion, an update or a deletion. *)
Ltac sums Hi :=
  unfold queued_by, running_by, tokens_by, queued_total in *;
  lazymatch type of Hi with
  | _ = None => rewrite ?(msum_insert_None _ _ _ _ Hi)
  | _ = Some _ => rewrite ?(msum_insert_Some _ _ _ _ _ Hi), ?(msum_delete_Some _ _ _ _ Hi)
  end;
  unfold of_tenant in *; simpl.

Ltac tenant_cases :=
  repeat case_decide; repeat case_bool_decide; simplify_eq; simpl in *; first [done|lia].

Lemma tenants_by_id_ok tenants : tenants_ok (tenants_by_id tenants).
Proof.
  unfold tenants_by_id. cut (∀ m : gmap string TenantLimits, tenants_ok m →
    tenants_ok (foldl (λ m t, <[t_tenant_id t := t]> m) m tenants)).
  { intros H. apply H. intros t l. by rewrite lookup_empty. }
  induction tenants as [|t ts IH]; intros m Hm; simpl; [done|].
  apply IH. intros t' l. rewrite lookup_insert. case_decide as E; [naive_solver|apply Hm].
Qed.
Lemma tenants_by_id_elem tenants t l : tenants_by_id tenants !! t = Some l → l ∈ tenants.
Proof.
  unfold tenants_by_id. cut (∀ m : gmap string TenantLimits, foldl (λ m t, <[t_tenant_id t := t]> m) m tenants !! t = Some l →
    l ∈ tenants ∨ m !! t = Some l).
  { intros H [?|H']%H; [done|]. by rewrite lookup_empty in H'. }
  induction tenants as [|t0 ts IH]; intros m; simpl; [by right|].
  intros [H|H]%IH; [left; by right|]. rewrite lookup_insert in H.
  case_decide; simplify_eq; [left; left|by right].
Qed.

(** The admission checks of a known tenant, on the sums of the live reservations. *)
Definition admissible (request : RequestRecord) (tenant : TenantLimits)
  (c : TenantAdmissionController) : Prop :=
  queued_total (ac_reserved c) < ac_global_queue_capacity c ∧
  queued_by (ac_reserved c) (r_tenant_id request) < t_max_queued_requests tenant ∧
  running_by (ac_reserved c) (r_tenant_id request) < t_max_concurrent_requests tenant ∧
  tokens_by (ac_reserved c) (r_tenant_id request) + estimated_tokens request
    <= t_token_quota tenant.

Definition reserve_for (request : RequestRecord) (c : TenantAdmissionController)
  : TenantAdmissionController :=
  c <| ac_queued ::= cadd (r_tenant_id request) 1 |>
    <| ac_tokens ::= cadd (r_tenant_id request) (estimated_tokens request) |>
    <| ac_reserved ::= <[r_request_id request :=
         mkReservation (r_tenant_id request) (estimated_tokens request) false]> |>.

(** Either a call leaves the controller alone, or it reserves capacity that was there. *)
Lemma admission_decide_cases request model workers now c :
  accounting c →
  (admission_decide request model workers now c).2 = c ∨
  ∃ tenant, ac_tenants c !! r_tenant_id request = Some tenant ∧
    ac_reserved c !! r_request_id request = None ∧
    request_checks request model workers now = None ∧ admissible request tenant c ∧
    admission_decide request model workers now c =
      (mkDecision true "admitted" "request capacity reserved", reserve_for request c).
Proof.
  intros Hacc. unfold admission_decide.
  destruct (ac_reserved c !! r_request_id request) eqn:Hr; [by left|].
  destruct (ac_tenants c !! r_tenant_id request) as [tenant|] eqn:Ht; [|by left].
  destruct (request_checks _ _ _ _) eqn:Hq; [by left|].
  pose proof (acc_tenants c Hacc _ _ Ht) as Hid. rewrite Hid.
  rewrite (acc_total c Hacc), (acc_queued c Hacc), (acc_running c Hacc), (acc_tokens c Hacc).
  repeat (case_head; [by left|]). bool_hyps. right. exists tenant.
  unfold admissible. split_and!; first [done|lia].
Qed.

Lemma accounting_init tenants capacity c :
  TenantAdmissionController_init tenants capacity = Ok c → accounting c.
Proof.
  unfold TenantAdmissionController_init. intros (? & _ & H)%bind_Ok_inv.
  apply bind_Ok_inv in H as (? & _ & [= <-]). split; simpl; try done.
  apply tenants_by_id_ok.
Qed.

Lemma reserve_for_accounting request tenant c :
  ac_tenants c !! r_tenant_id request = Some tenant →
  ac_reserved c !! r_request_id request = None → 0 <= estimated_tokens request →
  accounting c → accounting (reserve_for request c).
Proof.
  intros Ht Hr Htok [Hten Hk Hn Hq Hrun Htk Htot]. split; simpl; try done.
  - intros i rv. rewrite lookup_insert. case_decide; [intros [= <-]|]; simpl; eauto.
  - intros i rv. rewrite lookup_insert. case_decide; [intros [= <-]|]; simpl; eauto.
  - intros t. rewrite cget_cadd, Hq. sums Hr. tenant_cases.
  - intros t. rewrite Hrun. sums Hr. tenant_cases.
  - intros t. rewrite cget_cadd, Htk. sums Hr. tenant_cases.
  - rewrite msum_cadd, Htot. sums Hr. lia.
Qed.

Lemma mark_running_cases i c c' :
  accounting c → mark_running i c = Ok c' →
  c' = c ∨ ∃ tid tokens limits, ac_reserved c !! i = Some (mkReservation tid tokens false) ∧
    ac_tenants c !! tid = Some limits ∧
    running_by (ac_reserved c) tid < t_max_concurrent_requests limits ∧
    c' = c <| ac_queued ::= cadd tid (-1) |> <| ac_running ::= cadd tid 1 |>
           <| ac_reserved ::= <[i := mkReservation tid tokens true]> |>.
Proof.
  intros Hacc H. unfold mark_running in H.
  destruct (ac_reserved c !! i) as [[tid tokens []]|] eqn:Hi; [left; congruence| |done].
  destruct (ac_tenants c !! tid) as [limits|] eqn:Ht; [|done].
  case_hyp H; [done|]. right. bool_hyps. exists tid, tokens, limits.
  rewrite (acc_running c Hacc) in *. split_and!; [done|done|lia|].
  pose proof (queued_by_elem _ _ _ Hi eq_refl) as Hq. simpl in Hq.
  rewrite <- (acc_queued c Hacc) in Hq. simplify_eq. unfold field_update. f_equal.
  case_head; bool_hyps; [done|lia].
Qed.

Lemma accounting_mark_running i c c' :
  mark_running i c = Ok c' → accounting c → accounting c'.
Proof.
  intros H Hacc. destruct (mark_running_cases _ _ _ Hacc H) as [->|(tid & n & l & Hi & Ht & _ & ->)];
    [done|]. clear H. destruct Hacc as [Hten Hk Hn Hq Hrun Htk Htot]. split; simpl; try done.
  - intros j rv. rewrite lookup_insert. case_decide; [intros [= <-]|]; simpl; eauto.
  - intros j rv. rewrite lookup_insert. case_decide; [intros [= <-]|eauto]. apply (Hn _ _ Hi).
  - intros t. rewrite cget_cadd, Hq. sums Hi. tenant_cases.
  - intros t. rewrite cget_cadd, Hrun. sums Hi. tenant_cases.
  - intros t. rewrite Htk. sums Hi. tenant_cases.
  - rewrite msum_cadd, Htot. sums Hi. lia.
Qed.

Lemma accounting_release i c : accounting c → accounting (release i c).
Proof.
  intros [Hten Hk Hn Hq Hrun Htk Htot]. unfold release.
  destruct (ac_reserved c !! i) as [[tid n b]|] eqn:Hi; [|by split].
  destruct b; split; simpl; try done.
  all: try (intros j rv [_ ?]%lookup_delete_Some; eauto).
  all: try (intros t; rewrite ?cget_cadd, ?Hq, ?Hrun, ?Htk; sums Hi;
            tenant_cases).
  all: rewrite ?msum_cadd, Htot; sums Hi; lia.
Qed.
#[export] Hint Resolve accounting_init accounting_mark_running accounting_release : admission.

Lemma within_limits_decide request model workers now c :
  accounting c → within_limits c →
  within_limits (admission_decide request model workers now c).2.
Proof.
  intros Hacc Hl.
  destruct (admission_decide_cases request model workers now c Hacc)
    as [->|(ten & Ht & Hr & _ & (Hg & Hq & Hrun & Htk) & ->)]; [done|].
  destruct Hl as [H1 H2 H3 H4]. split; simpl.
  - sums Hr. lia.
  - intros t l Hl. specialize (H2 t l Hl). sums Hr.
    tenant_cases.
  - intros t l Hl. specialize (H3 t l Hl). sums Hr.
    tenant_cases.
  - intros t l Hl. specialize (H4 t l Hl). sums Hr.
    tenant_cases.
Qed.
Lemma within_limits_mark_running i c c' :
  mark_running i c = Ok c' → accounting c → within_limits c → within_limits c'.
Proof.
  intros H Hacc Hl.
  destruct (mark_running_cases _ _ _ Hacc H) as [->|(tid & n & lim & Hi & Ht & Hrun & ->)]; [done|].
  destruct Hl as [H1 H2 H3 H4]. split; simpl.
  - sums Hi. lia.
  - intros t l Hl. specialize (H2 t l Hl). sums Hi.
    tenant_cases.
  - intros t l Hl. specialize (H3 t l Hl). sums Hi.
    tenant_cases.
  - intros t l Hl. specialize (H4 t l Hl). sums Hi.
    tenant_cases.
Qed.
Lemma within_limits_release i c : accounting c → within_limits c → within_limits (release i c).
Proof.
  intros Hacc [H1 H2 H3 H4]. pose proof (acc_nonneg c Hacc i) as Hn. unfold release.
  destruct (ac_reserved c !! i) as [[tid n b]|] eqn:Hi; [|by split].
  specialize (Hn _ eq_refl). simpl in Hn.
  destruct b; (split; simpl; [sums Hi; lia| | |]; intros t l Hl;
    specialize (H2 t l Hl); specialize (H3 t l Hl); specialize (H4 t l Hl); sums Hi;
    tenant_cases).
Qed.

Lemma accounting_decide request model workers now c :
  0 <= estimated_tokens request → accounting c →
  accounting (admission_decide request model workers now c).2.
Proof.
  intros Htok Hacc.
  destruct (admission_decide_cases request model workers now c Hacc)
    as [->|(ten & Ht & Hr & _ & _ & ->)]; [done|]. by eapply reserve_for_accounting.
Qed.
#[export] Hint Resolve accounting_decide within_limits_decide within_limits_mark_running
  within_limits_release : admission.

Lemma within_limits_init tenants capacity c :
  TenantAdmissionController_init tenants capacity = Ok c →
  Forall (λ t, is_ok (TenantLimits_post_init t) = true) tenants → within_limits c.
Proof.
  unfold TenantAdmissionController_init. intros H Hok. apply bind_Ok_inv in H as (? & Hc & H).
  apply bind_Ok_inv in H as (? & _ & [= <-]). apply raise_if_Ok in Hc. bool_hyps.
  assert (∀ t l, tenants_by_id tenants !! t = Some l → 0 < t_max_concurrent_requests l ∧
    0 < t_max_queued_requests l ∧ 0 < t_token_quota l) as Hpos.
  { intros t l Hl%tenants_by_id_elem. rewrite Forall_elem in Hok.
    destruct (TenantLimits_positive _ (Hok _ Hl)) as (?&?&?&_). done. }
  split; simpl; [unfold queued_total; rewrite msum_empty; lia| | |]; intros t l Hl;
    specialize (Hpos t l Hl); unfold queued_by, running_by, tokens_by; rewrite msum_empty; lia.
Qed.

Lemma admission_reachable_invariant tenants capacity c :
  admission_reachable tenants capacity c → accounting c ∧ within_limits c.
Proof.
  induction 1 as [c Hi Hok|c c' _ [Hacc Hlim] Hs].
  - eauto using within_limits_init with admission.
  - destruct Hs; eauto with admission.
Qed.

(** A call only reads the equivalence class of the controller. *)
#[export] Instance release_proper : Proper ((=) ==> (≡) ==> (≡)) release.
Proof.
  intros i ? <- c d (Ht & Hg & Hr & Hq & Hrun & Htk & Htot). unfold release. rewrite <- Hr.
  destruct (ac_reserved c !! i) as [[tid n []]|]; [| |by repeat split];
    repeat split; simpl; intros; rewrite ?cget_cadd, ?msum_cadd; congruence.
Qed.
#[export] Instance snapshot_proper : Proper ((=) ==> (≡) ==> (=)) snapshot.
Proof.
  intros t ? <- c d (_ & _ & _ & Hq & Hrun & Htk & _). unfold snapshot. by rewrite Hq, Hrun, Htk.
Qed.

Lemma release_reserve_for request c :
  ac_reserved c !! r_request_id request = None →
  release (r_request_id request) (reserve_for request c) ≡ c.
Proof.
  intros Hr. unfold release, reserve_for. simpl. rewrite lookup_insert_eq.
  repeat split; simpl; intros; rewrite ?cget_cadd, ?msum_cadd; try case_decide; try lia.
  by rewrite delete_insert_id.
Qed.

(** ** Properties *)

(** C16: Admission control never oversubscribes: in every state a tenant admission controller
    reaches from its construction by any sequence of [decide], [mark_running] and [release]
    calls, each counter equals the sum over the live reservations, the queued requests stay
    within the global capacity, and every tenant stays within its queue, concurrency and
    token limits. *)
Theorem admission_never_oversubscribes tenants capacity c :
  admission_reachable tenants capacity c →
  accounting c ∧ msum (λ _ n, n) (ac_queued c) <= ac_global_queue_capacity c ∧
  ∀ t l, ac_tenants c !! t = Some l →
    0 <= cget (ac_queued c) t <= t_max_queued_requests l ∧
    0 <= cget (ac_running c) t <= t_max_concurrent_requests l ∧
    cget (ac_tokens c) t <= t_token_quota l.
Proof.
  intros [Hacc Hlim]%admission_reachable_invariant. split; [done|].
  destruct Hlim as [H1 H2 H3 H4]. rewrite (acc_total c Hacc). split; [done|].
  intros t l Hl. rewrite (acc_queued c Hacc), (acc_running c Hacc), (acc_tokens c Hacc).
  pose proof (queued_by_nonneg (ac_reserved c) t). pose proof (running_by_nonneg (ac_reserved c) t).
  specialize (H2 t l Hl). specialize (H3 t l Hl). specialize (H4 t l Hl). lia.
Qed.

(** C32: [decide] admits exactly when it should: for a request that holds no reservation, the
    answer is "admitted" if and only if the tenant is configured, the model is registered, the
    context fits, the deadline is ahead, a healthy undrained worker exists, and one more
    request fits the global queue and the tenant's queue, concurrency and token limits. *)
Theorem admission_decide_iff request model workers now c :
  accounting c → ac_reserved c !! r_request_id request = None →
  d_admitted (admission_decide request model workers now c).1 = true ↔
  ∃ tenant m, ac_tenants c !! r_tenant_id request = Some tenant ∧ model = Some m ∧
    estimated_tokens request <= m_max_context_tokens m ∧
    f_leb (r_deadline request) now = false ∧
    (∃ w, w ∈ workers ∧ w_health_status w = HEALTHY ∧ w_draining w = false) ∧
    admissible request tenant c.
Proof.
  intros Hacc Hr. unfold admission_decide. rewrite Hr.
  destruct (ac_tenants c !! r_tenant_id request) as [tenant|] eqn:Ht; [|naive_solver].
  rewrite (acc_tenants c Hacc _ _ Ht), (acc_total c Hacc), (acc_queued c Hacc),
    (acc_running c Hacc), (acc_tokens c Hacc).
  assert (existsb admissible_worker workers = true ↔
    ∃ w, w ∈ workers ∧ w_health_status w = HEALTHY ∧ w_draining w = false) as Hw.
  { rewrite existsb_exists. unfold admissible_worker. split.
    - intros (w & Hin & H). bool_hyps. exists w. by rewrite list_elem_of_In.
    - intros (w & Hin & H1 & H2). exists w. rewrite <- list_elem_of_In.
      by rewrite bool_decide_eq_true_2, H2. }
  unfold request_checks, admissible. destruct model as [m|]; [|naive_solver].
  setoid_rewrite <- Hw. clear Hw.
  repeat case_head; simplify_eq; simpl; bool_hyps; split; try done;
    try (intros (t' & m' & ? & ? & ? & ? & ? & ? & ? & ? & ?); simplify_eq; first [congruence|lia]).
  intros _. exists tenant, m. split_and!; first [done|lia].
Qed.

(** Releasing a request undoes its admission whether or not it started running: after
    admit, optional [mark_running] and [release], the controller is equivalent to what it was,
    and releasing again changes nothing. *)
Theorem admission_release_roundtrip request c c1 c2 (run : bool) :
  accounting c → ac_reserved c !! r_request_id request = None →
  c1 = reserve_for request c →
  (if run then mark_running (r_request_id request) c1 = Ok c2 else c2 = c1) →
  release (r_request_id request) c2 ≡ c ∧
  release (r_request_id request) (release (r_request_id request) c2)
    = release (r_request_id request) c2.
Proof.
  intros Hacc Hr -> Hrun.
  assert (release (r_request_id request) c2 ≡ c) as Hrel.
  { destruct run; [|subst; by apply release_reserve_for].
    unfold mark_running in Hrun. simpl in Hrun. rewrite lookup_insert_eq in Hrun.
    destruct (ac_tenants c !! _); [|done]. case_hyp Hrun; [done|]. simplify_eq.
    pose proof (queued_by_nonneg (ac_reserved c) (r_tenant_id request)) as Hq.
    rewrite <- (acc_queued c Hacc) in Hq.
    unfold release. simpl. rewrite lookup_insert_eq. simpl.
    assert ((0 <? cget (cadd (r_tenant_id request) 1 (ac_queued c)) (r_tenant_id request)) = true)
      as Hpos.
    { apply Z.ltb_lt. rewrite cget_cadd. case_decide; [lia|done]. }
    repeat split; simpl; rewrite ?Hpos; intros; rewrite ?cget_cadd, ?msum_cadd;
      try case_decide; try first [done|lia].
    rewrite insert_insert_eq. by apply delete_insert_id. }
  split; [done|]. destruct Hrel as (_ & _ & Hres & _).
  unfold release at 1. rewrite Hres, Hr. done.
Qed.

(** ** Witnesses *)

Definition sample_tenant : TenantLimits := mkTenant "tenant-a" 1 2 20 1.
Definition sample_model : ModelDefinition :=
  mkModel "model-x" "r1" SIMULATED 100 ["float16"] "float16" 64 64 true true f_zero f_zero.
Definition sample_controller : TenantAdmissionController :=
  mkAdmission (tenants_by_id [sample_tenant]) 3 ∅ ∅ ∅ ∅.
Definition sample_admitted : TenantAdmissionController :=
  (admission_decide sample_request (Some sample_model) [sample_worker] f_zero sample_controller).2.

Lemma sample_controller_reachable : admission_reachable [sample_tenant] 3 sample_controller.
Proof. apply reach_init; [reflexivity|]. repeat constructor. Qed.
Lemma sample_controller_accounting : accounting sample_controller.
Proof. apply (admission_reachable_invariant [sample_tenant] 3), sample_controller_reachable. Qed.

Lemma sample_admitted_reachable : admission_reachable [sample_tenant] 3 sample_admitted.
Proof.
  refine (reach_step _ _ sample_controller _ sample_controller_reachable
    (step_decide sample_controller sample_request (Some sample_model) [sample_worker] f_zero _)).
  vm_compute. discriminate.
Qed.
Lemma admission_never_oversubscribes_witness :
  msum (λ _ n, n) (ac_queued sample_admitted) <= ac_global_queue_capacity sample_admitted ∧
  cget (ac_queued sample_admitted) "tenant-a" = 1.
Proof.
  split; [|reflexivity].
  destruct (admission_never_oversubscribes [sample_tenant] 3 sample_admitted
    sample_admitted_reachable) as (_ & H & _). exact H.
Defined.
Lemma admission_decide_iff_witness :
  ∃ tenant m, ac_tenants sample_controller !! "tenant-a" = Some tenant ∧
    Some sample_model = Some m ∧ 6 <= m_max_context_tokens m.
Proof.
  destruct (proj1 (admission_decide_iff sample_request (Some sample_model) [sample_worker] f_zero
    sample_controller sample_controller_accounting eq_refl) eq_refl)
    as (t & m & H1 & H2 & H3 & _).
  exists t, m. done.
Defined.
Lemma admission_release_roundtrip_witness :
  ∃ c2, mark_running "req-1" sample_admitted = Ok c2 ∧ release "req-1" c2 ≡ sample_controller.
Proof.
  eexists. split; [vm_compute; reflexivity|].
  refine (proj1 (admission_release_roundtrip sample_request sample_controller sample_admitted _ true
    sample_controller_accounting eq_refl eq_refl _)).
  vm_compute. reflexivity.
Defined.
