(* ===== verification/KVCache.v ===== *)
(** [inference/kv_cache.py]: the fixed-block KV allocator with ownership tables, reference
    counts and watermark pressure. *)
From S2P Require Import Prelude PyContainers PyFloat.
From stdpp Require Import pretty.

#[local] Open Scope string_scope.
#[local] Open Scope list_scope.
#[local] Open Scope Z_scope.

(** ** State *)

(** [kv_free] is Python's [_free] read from its end: the head is what [pop] returns. *)
Record KVBlockAllocator := mkKV {
  kv_total_blocks : Z;
  kv_block_size_tokens : Z;
  kv_bytes_per_block : Z;
  kv_high_watermark : float;
  kv_low_watermark : float;
  kv_free : list Z;
  kv_owners : gmap string (list Z);
  kv_references : gmap Z Z;
  kv_allocation_failures : Z;
  kv_pressure : bool
}.
#[export] Instance eta_KVBlockAllocator : Eta KVBlockAllocator := λ a,
  mkKV (kv_total_blocks a) (kv_block_size_tokens a) (kv_bytes_per_block a) (kv_high_watermark a)
    (kv_low_watermark a) (kv_free a) (kv_owners a) (kv_references a) (kv_allocation_failures a)
    (kv_pressure a).

Record KVCacheSnapshot := mkKVSnapshot {
  ks_total_blocks : Z;
  ks_used_blocks : Z;
  ks_free_blocks : Z;
  ks_block_size_tokens : Z;
  ks_bytes_per_block : Z;
  ks_bytes_used : Z;
  ks_utilization : float;
  ks_allocation_failures : Z;
  ks_pressure : bool
}.
Record KVBlockTable := mkKVTable {
  kt_owner_id : string;
  kt_block_ids : list Z;
  kt_block_size_tokens : Z
}.
Definition token_capacity (t : KVBlockTable) : Z :=
  Z.of_nat (length (kt_block_ids t)) * kt_block_size_tokens t.

(** ** Operations *)

Definition KVBlockAllocator_init (total_blocks block_size_tokens bytes_per_block : Z)
  (high_watermark low_watermark : float) : res KVBlockAllocator :=
  _ ← raise_if (Z.min total_blocks (Z.min block_size_tokens bytes_per_block) <=? 0)
    (ValueError "KV block dimensions must be positive");
  _ ← raise_if (negb (f_ltb f_zero low_watermark && f_ltb low_watermark high_watermark
                      && f_leb high_watermark (f_of_Z 1)))
    (ValueError "KV watermarks must satisfy 0 < low < high <= 1");
  Ok (mkKV total_blocks block_size_tokens bytes_per_block high_watermark low_watermark
        (seqZ 0 total_blocks) ∅ ∅ 0 false).

Definition blocks_for_tokens (tokens : Z) (a : KVBlockAllocator) : res Z :=
  _ ← raise_if (tokens <? 0) (ValueError "token capacity must be non-negative");
  Ok (f_ceil (f_ratio tokens (kv_block_size_tokens a))).

Definition kv_utilization (a : KVBlockAllocator) : float :=
  f_ratio (Z.of_nat (size (kv_references a))) (kv_total_blocks a).
Definition update_pressure (a : KVBlockAllocator) : KVBlockAllocator :=
  if negb (kv_pressure a) && f_leb (kv_high_watermark a) (kv_utilization a)
  then a <| kv_pressure := true |>
  else if kv_pressure a && f_leb (kv_utilization a) (kv_low_watermark a)
  then a <| kv_pressure := false |>
  else a.

Definition add_references (blocks : list Z) (refs : gmap Z Z) : gmap Z Z :=
  foldl (λ m b, <[b := 1]> m) refs blocks.
Definition kv_failure (a : KVBlockAllocator) : KVBlockAllocator :=
  update_pressure (a <| kv_allocation_failures ::= λ n, n + 1 |>).

Definition allocate (owner_id : string) (capacity : Z) (a : KVBlockAllocator)
  : res (list Z) * KVBlockAllocator :=
  if str_empty owner_id then (Err (ValueError "KV owner identifier is required"), a) else
  match blocks_for_tokens capacity a with
  | Err e => (Err e, a)
  | Ok required =>
    match kv_owners a !! owner_id with
    | Some _ => (Err (KVCacheOwnershipError ("KV owner already exists: " +:+ owner_id)), a)
    | None =>
      if Z.of_nat (length (kv_free a)) <? required then
        (Err (KVCacheCapacityError ("KV cache requires " +:+ pretty required +:+
           " blocks but only " +:+ pretty (length (kv_free a)) +:+ " are free")), kv_failure a)
      else
        let blocks := take (Z.to_nat required) (kv_free a) in
        (Ok blocks,
         update_pressure
           (a <| kv_free ::= drop (Z.to_nat required) |>
              <| kv_owners ::= <[owner_id := blocks]> |>
              <| kv_references ::= add_references blocks |>))
    end
  end.

Definition retain (owner_id : string) (block_ids : list Z) (a : KVBlockAllocator)
  : res KVBlockAllocator :=
  if str_empty owner_id || bool_decide (block_ids = []) then
    Err (ValueError "owner and shared KV blocks are required")
  else if negb (bool_decide (NoDup block_ids)) then
    Err (ValueError "shared KV block identifiers must be unique")
  else
    match kv_owners a !! owner_id with
    | Some _ => Err (KVCacheOwnershipError ("KV owner already exists: " +:+ owner_id))
    | None =>
      if existsb (λ b, negb (bool_decide (is_Some (kv_references a !! b)))) block_ids then
        Err (KVCacheOwnershipError "cannot retain an unallocated KV block")
      else
        Ok (update_pressure
              (a <| kv_owners ::= <[owner_id := block_ids]> |>
                 <| kv_references ::= λ refs, foldl (λ m b, cadd b 1 m) refs block_ids |>))
    end.

(** [any(self._references[block_id] != 1 for block_id in blocks)]. *)
Fixpoint any_shared (refs : gmap Z Z) (blocks : list Z) : res bool :=
  match blocks with
  | [] => Ok false
  | b :: bs =>
    match refs !! b with
    | None => Err (KeyError (pretty b))
    | Some n => if n =? 1 then any_shared refs bs else Ok true
    end
  end.

Definition resize (owner_id : string) (capacity : Z) (a : KVBlockAllocator)
  : res (list Z) * KVBlockAllocator :=
  match blocks_for_tokens capacity a with
  | Err e => (Err e, a)
  | Ok required =>
    match kv_owners a !! owner_id with
    | None => (Err (KVCacheOwnershipError ("unknown KV owner: " +:+ owner_id)), a)
    | Some blocks =>
      match any_shared (kv_references a) blocks with
      | Err e => (Err e, a)
      | Ok true => (Err (KVCacheOwnershipError "cannot resize a shared KV block table"), a)
      | Ok false =>
        let additional := required - Z.of_nat (length blocks) in
        if Z.of_nat (length (kv_free a)) <? additional then
          (Err (KVCacheCapacityError ("KV cache requires " +:+ pretty additional +:+
             " more blocks but only " +:+ pretty (length (kv_free a)) +:+ " are free")),
           kv_failure a)
        else if 0 <? additional then
          let new_blocks := take (Z.to_nat additional) (kv_free a) in
          (Ok (blocks ++ new_blocks),
           update_pressure
             (a <| kv_free ::= drop (Z.to_nat additional) |>
                <| kv_owners ::= <[owner_id := blocks ++ new_blocks]> |>
                <| kv_references ::= add_references new_blocks |>))
        else if additional <? 0 then
          let kept := take (Z.to_nat required) blocks in
          let dropped := drop (Z.to_nat required) blocks in
          (Ok kept,
           update_pressure
             (a <| kv_free ::= λ free, rev dropped ++ free |>
                <| kv_owners ::= <[owner_id := kept]> |>
                <| kv_references ::= λ refs, foldl (λ m b, delete b m) refs dropped |>))
        else (Ok blocks, update_pressure a)
      end
    end
  end.

(** One iteration of [release]'s loop over the blocks of the table. *)
Definition release_block (b : Z) (s : gmap Z Z * list Z) : res (gmap Z Z * list Z) :=
  match s.1 !! b with
  | None => Err (KeyError (pretty b))
  | Some n => Ok (if n - 1 =? 0 then (delete b s.1, b :: s.2) else (<[b := n - 1]> s.1, s.2))
  end.
Fixpoint release_blocks (blocks : list Z) (s : gmap Z Z * list Z) : res (gmap Z Z * list Z) :=
  match blocks with
  | [] => Ok s
  | b :: bs => s' ← release_block b s; release_blocks bs s'
  end.
Definition release (owner_id : string) (a : KVBlockAllocator) : res (bool * KVBlockAllocator) :=
  match kv_owners a !! owner_id with
  | None => Ok (false, a)
  | Some blocks =>
    s ← release_blocks blocks (kv_references a, kv_free a);
    Ok (true, update_pressure
          (a <| kv_owners ::= delete owner_id |> <| kv_references := s.1 |> <| kv_free := s.2 |>))
  end.

Definition block_table (owner_id : string) (a : KVBlockAllocator) : res (list Z) :=
  match kv_owners a !! owner_id with
  | Some blocks => Ok blocks
  | None => Err (KVCacheOwnershipError ("unknown KV owner: " +:+ owner_id))
  end.
Definition table (owner_id : string) (a : KVBlockAllocator) : res KVBlockTable :=
  blocks ← block_table owner_id a; Ok (mkKVTable owner_id blocks (kv_block_size_tokens a)).

Definition expected_references (a : KVBlockAllocator) : gmap Z Z :=
  foldl (λ m p, foldl (λ m b, cadd b 1 m) m p.2) ∅ (map_to_list (kv_owners a)).
Definition assert_invariants (a : KVBlockAllocator) : res unit :=
  let free : gset Z := list_to_set (kv_free a) in
  let allocated : gset Z := dom (kv_references a) in
  _ ← raise_if (negb (Nat.eqb (size free) (length (kv_free a)))
                || negb (bool_decide (free ∩ allocated = ∅)))
    (AssertionError "KV free and allocated block sets overlap");
  _ ← raise_if (negb (bool_decide (free ∪ allocated = list_to_set (seqZ 0 (kv_total_blocks a)))))
    (AssertionError "KV allocator lost or invented a block");
  _ ← raise_if (negb (bool_decide (map_Forall (λ _ blocks, NoDup blocks) (kv_owners a))))
    (AssertionError "one KV table references a block twice");
  raise_if (negb (bool_decide (expected_references a = kv_references a)))
    (AssertionError "KV reference counts do not match block tables").

Definition snapshot (a : KVBlockAllocator) : KVCacheSnapshot :=
  let used := Z.of_nat (size (kv_references a)) in
  mkKVSnapshot (kv_total_blocks a) used (Z.of_nat (length (kv_free a))) (kv_block_size_tokens a)
    (kv_bytes_per_block a) (used * kv_bytes_per_block a) (kv_utilization a)
    (kv_allocation_failures a) (kv_pressure a).

(** ** Specification *)

(** The number of owners whose table holds block [b]. *)
Definition owner_count (m : gmap string (list Z)) (b : Z) : Z :=
  msum (λ _ blocks, if bool_decide (b ∈ blocks) then 1 else 0) m.

Record kv_inv (a : KVBlockAllocator) : Prop := {
  inv_free : NoDup (kv_free a);
  inv_disjoint : ∀ b, b ∈ kv_free a → kv_references a !! b = None;
  inv_blocks : ∀ b, (b ∈ kv_free a ∨ is_Some (kv_references a !! b)) ↔ 0 <= b < kv_total_blocks a;
  inv_tables : ∀ o blocks, kv_owners a !! o = Some blocks → NoDup blocks;
  inv_counts : ∀ b, cget (kv_references a) b = owner_count (kv_owners a) b;
  inv_positive : ∀ b n, kv_references a !! b = Some n → 0 < n
}.

Inductive kv_step : KVBlockAllocator → KVBlockAllocator → Prop :=
| kv_allocate a o n : kv_step a (allocate o n a).2
| kv_retain a a' o blocks : retain o blocks a = Ok a' → kv_step a a'
| kv_resize a o n : kv_step a (resize o n a).2
| kv_release a a' o b : release o a = Ok (b, a') → kv_step a a'.
Inductive kv_reachable (total size bytes : Z) (high low : float) : KVBlockAllocator → Prop :=
| kv_reach_init a :
    KVBlockAllocator_init total size bytes high low = Ok a → kv_reachable total size bytes high low a
| kv_reach_step a a' :
    kv_reachable total size bytes high low a → kv_step a a' →
    kv_reachable total size bytes high low a'.

(** ** Lemmas *)

Create HintDb kv.

Lemma kv_inv_ext a a' :
  kv_total_blocks a' = kv_total_blocks a → kv_free a' = kv_free a →
  kv_owners a' = kv_owners a → kv_references a' = kv_references a → kv_inv a → kv_inv a'.
Proof. intros H1 H2 H3 H4 []. split; rewrite ?H1, ?H2, ?H3, ?H4; done. Qed.
Lemma update_pressure_fields a :
  kv_total_blocks (update_pressure a) = kv_total_blocks a ∧
  kv_block_size_tokens (update_pressure a) = kv_block_size_tokens a ∧
  kv_free (update_pressure a) = kv_free a ∧ kv_owners (update_pressure a) = kv_owners a ∧
  kv_references (update_pressure a) = kv_references a ∧
  kv_allocation_failures (update_pressure a) = kv_allocation_failures a ∧
  kv_high_watermark (update_pressure a) = kv_high_watermark a ∧
  kv_low_watermark (update_pressure a) = kv_low_watermark a.
Proof. unfold update_pressure. by repeat case_head. Qed.
Lemma kv_inv_pressure a : kv_inv a → kv_inv (update_pressure a).
Proof.
  destruct (update_pressure_fields a) as (?&_&?&?&?&_). by apply kv_inv_ext.
Qed.
Lemma kv_inv_failure a : kv_inv a → kv_inv (kv_failure a).
Proof. intros H. apply kv_inv_pressure. by apply (kv_inv_ext a). Qed.
#[export] Hint Resolve kv_inv_pressure kv_inv_failure : kv.

Lemma owner_count_nonneg m b : 0 <= owner_count m b.
Proof. apply msum_nonneg. intros. case_bool_decide; lia. Qed.
Lemma owner_count_new m o blocks b :
  m !! o = None →
  owner_count (<[o:=blocks]> m) b = (if bool_decide (b ∈ blocks) then 1 else 0) + owner_count m b.
Proof. intros H. unfold owner_count. by rewrite msum_insert_None. Qed.
Lemma owner_count_update m o blocks blocks' b :
  m !! o = Some blocks →
  owner_count (<[o:=blocks']> m) b = owner_count m b - (if bool_decide (b ∈ blocks) then 1 else 0)
    + (if bool_decide (b ∈ blocks') then 1 else 0).
Proof. intros H. unfold owner_count. by rewrite (msum_insert_Some _ _ _ _ _ H). Qed.
Lemma owner_count_delete m o blocks b :
  m !! o = Some blocks →
  owner_count (delete o m) b = owner_count m b - (if bool_decide (b ∈ blocks) then 1 else 0).
Proof. intros H. unfold owner_count. by rewrite (msum_delete_Some _ _ _ _ H). Qed.
Lemma owner_count_elem m o blocks b : m !! o = Some blocks → b ∈ blocks → 1 <= owner_count m b.
Proof.
  intros Ho Hb. eapply Z.le_trans;
    [|apply (msum_elem_le _ m o blocks); [intros; case_bool_decide; lia|done]].
  cbv beta. by rewrite bool_decide_eq_true_2.
Qed.
Lemma owner_count_zero m o blocks b : owner_count m b = 0 → m !! o = Some blocks → b ∉ blocks.
Proof. intros H Ho Hb. pose proof (owner_count_elem _ _ _ _ Ho Hb). lia. Qed.

Lemma table_allocated a o blocks b :
  kv_inv a → kv_owners a !! o = Some blocks → b ∈ blocks →
  ∃ n, kv_references a !! b = Some n ∧ 0 < n.
Proof.
  intros Hinv Ho Hb. pose proof (owner_count_elem _ _ _ _ Ho Hb) as H.
  rewrite <- (inv_counts a Hinv) in H. unfold cget in H.
  destruct (kv_references a !! b) as [n|]; simpl in H; [|lia]. exists n. split; [done|lia].
Qed.
Lemma free_unowned a b : kv_inv a → b ∈ kv_free a → owner_count (kv_owners a) b = 0.
Proof.
  intros Hinv Hb. rewrite <- (inv_counts a Hinv). unfold cget. by rewrite (inv_disjoint a Hinv).
Qed.

Lemma lookup_add_references blocks refs b :
  add_references blocks refs !! b = if decide (b ∈ blocks) then Some 1 else refs !! b.
Proof.
  unfold add_references. revert refs. induction blocks as [|x bs IH]; intros refs; simpl.
  - done.
  - rewrite IH, lookup_insert.
    destruct (decide (b ∈ bs)), (decide (x = b)), (decide (b ∈ x :: bs)) as [H|H];
      rewrite ?elem_of_cons, ?not_elem_of_cons in H; naive_solver.
Qed.
Lemma lookup_delete_all blocks (refs : gmap Z Z) b :
  foldl (λ m b, delete b m) refs blocks !! b = if decide (b ∈ blocks) then None else refs !! b.
Proof.
  revert refs. induction blocks as [|x bs IH]; intros refs; simpl.
  - done.
  - rewrite IH, lookup_delete.
    destruct (decide (b ∈ bs)), (decide (x = b)), (decide (b ∈ x :: bs)) as [H|H];
      rewrite ?elem_of_cons, ?not_elem_of_cons in H; naive_solver.
Qed.
Lemma cget_retain_all blocks (refs : gmap Z Z) b :
  NoDup blocks →
  cget (foldl (λ m b, cadd b 1 m) refs blocks) b
    = cget refs b + if bool_decide (b ∈ blocks) then 1 else 0.
Proof.
  intros Hd. revert refs. induction Hd as [|x bs Hx Hd IH]; intros refs; simpl.
  - lia.
  - rewrite IH, cget_cadd. repeat case_bool_decide; case_decide; subst;
      rewrite ?elem_of_cons in *; try lia; naive_solver.
Qed.
Lemma lookup_retain_all blocks (refs : gmap Z Z) b :
  (∀ x, x ∈ blocks → is_Some (refs !! x)) →
  is_Some (foldl (λ m b, cadd b 1 m) refs blocks !! b) ↔ is_Some (refs !! b).
Proof.
  revert refs. induction blocks as [|x bs IH]; intros refs Hb; simpl; [done|].
  rewrite IH.
  - unfold cadd. rewrite lookup_insert. case_decide; subst; [|done].
    split; [intros _; apply Hb; left|eauto].
  - intros y Hy. unfold cadd. rewrite lookup_insert. case_decide; [eauto|]. apply Hb. by right.
Qed.
Lemma positive_retain_all blocks (refs : gmap Z Z) :
  (∀ b n, refs !! b = Some n → 0 < n) →
  ∀ b n, foldl (λ m b, cadd b 1 m) refs blocks !! b = Some n → 0 < n.
Proof.
  revert refs. induction blocks as [|x bs IH]; intros refs Hb; simpl; [done|].
  apply IH. intros b n. unfold cadd, cget. rewrite lookup_insert. case_decide; [|apply Hb].
  intros [= <-]. destruct (refs !! x) eqn:E; simpl; [apply Hb in E|]; lia.
Qed.

Lemma NoDup_take_drop {A} k (l : list A) : NoDup l → NoDup (take k l) ∧ NoDup (drop k l).
Proof. rewrite <- (take_drop k l) at 1. intros (? & _ & ?)%NoDup_app. done. Qed.

(** Taking blocks off the free list for a table that did not hold them. *)
Lemma split_free k (free : list Z) b :
  NoDup free → (b ∈ free ↔ b ∈ take k free ∨ b ∈ drop k free) ∧
  ¬ (b ∈ take k free ∧ b ∈ drop k free).
Proof.
  intros Hd. rewrite <- (take_drop k free) in Hd at 1. apply NoDup_app in Hd as (_ & Hd & _).
  split; [|naive_solver]. rewrite <- (take_drop k free) at 1. apply elem_of_app.
Qed.

Lemma kv_inv_take a o old k :
  kv_inv a →
  (kv_owners a !! o = None ∧ old = [] ∨ kv_owners a !! o = Some old) →
  kv_inv (a <| kv_free ::= drop k |> <| kv_owners ::= <[o := old ++ take k (kv_free a)]> |>
            <| kv_references ::= add_references (take k (kv_free a)) |>).
Proof.
  intros Hinv Ho. pose proof Hinv as [Hf Hdis Hbl Htab Hc Hp].
  assert (∀ b, b ∈ take k (kv_free a) → b ∈ kv_free a) as Htake
    by (intros b Hb; apply (split_free k _ b Hf); by left).
  assert (∀ b, b ∈ old → b ∉ kv_free a) as Hold.
  { intros b Hb Hfree. destruct Ho as [[_ ->]|Ho]; [by apply not_elem_of_nil in Hb|].
    destruct (table_allocated _ _ _ _ Hinv Ho Hb) as (n & Hn & _). rewrite Hdis in Hn; done. }
  split; simpl.
  - by apply NoDup_take_drop.
  - intros b Hb. rewrite lookup_add_references. destruct (split_free k _ b Hf) as [Hs Hn].
    rewrite decide_False by naive_solver. apply Hdis. naive_solver.
  - intros b. rewrite lookup_add_references, <- Hbl. destruct (split_free k _ b Hf) as [Hs Hn].
    case_decide; [|naive_solver]. split; [naive_solver|eauto].
  - intros o' blocks. rewrite lookup_insert. case_decide; [intros [= <-]|by apply Htab].
    apply NoDup_app. split_and!.
    + destruct Ho as [[_ ->]|Ho]; [constructor|eauto].
    + intros b Hb Hb'. by apply (Hold b), Htake.
    + by apply NoDup_take_drop.
  - intros b. unfold cget. rewrite lookup_add_references.
    assert (owner_count (<[o:=old ++ take k (kv_free a)]> (kv_owners a)) b
      = owner_count (kv_owners a) b + if bool_decide (b ∈ take k (kv_free a)) then 1 else 0) as ->.
    { destruct Ho as [[Ho ->]|Ho]; [rewrite owner_count_new by done; simpl; lia|].
      rewrite (owner_count_update _ _ _ _ _ Ho).
      repeat case_bool_decide; rewrite ?elem_of_app in *; try lia; exfalso; naive_solver. }
    case_decide as Hb.
    + rewrite free_unowned, bool_decide_eq_true_2 by auto. done.
    + rewrite bool_decide_eq_false_2 by done. specialize (Hc b). unfold cget in Hc. lia.
  - intros b n. rewrite lookup_add_references. case_decide; [intros [= <-]; lia|apply Hp].
Qed.

Lemma kv_inv_allocate a o n : kv_inv a → kv_inv (allocate o n a).2.
Proof.
  intros Hinv. unfold allocate. repeat case_head; simpl; auto with kv.
  apply kv_inv_pressure. apply (kv_inv_take a o [] _ Hinv). by left.
Qed.

Lemma any_shared_false refs blocks :
  any_shared refs blocks = Ok false → ∀ b, b ∈ blocks → refs !! b = Some 1.
Proof.
  induction blocks as [|x bs IH]; simpl; [intros _ b ?%not_elem_of_nil; done|].
  destruct (refs !! x) as [n|] eqn:E; [|done]. destruct (n =? 1) eqn:En; [|done].
  bool_hyps. subst. intros H b [->|Hb]%elem_of_cons; auto.
Qed.

Lemma kv_inv_shrink a o blocks k :
  kv_inv a → kv_owners a !! o = Some blocks → any_shared (kv_references a) blocks = Ok false →
  kv_inv (a <| kv_free ::= λ free, rev (drop k blocks) ++ free |>
            <| kv_owners ::= <[o := take k blocks]> |>
            <| kv_references ::= λ refs, foldl (λ m b, delete b m) refs (drop k blocks) |>).
Proof.
  intros Hinv Ho Hs. pose proof Hinv as [Hf Hdis Hbl Htab Hc Hp].
  pose proof (any_shared_false _ _ Hs) as H1. pose proof (Htab _ _ Ho) as Hnd.
  assert (∀ b, b ∈ drop k blocks → b ∈ blocks) as Hsub
    by (intros b Hb; apply (split_free k _ b Hnd); by right).
  assert (∀ b, b ∈ rev (drop k blocks) ↔ b ∈ drop k blocks) as Hrev.
  { intros b. rewrite !list_elem_of_In. symmetry. apply in_rev. }
  split; simpl.
  - apply NoDup_app. split_and!; [|intros b Hb Hb'|done].
    + apply NoDup_ListNoDup, NoDup_rev, NoDup_ListNoDup. by apply NoDup_take_drop.
    + apply Hrev, Hsub, H1 in Hb. rewrite (Hdis b Hb') in Hb. done.
  - intros b. rewrite lookup_delete_all, elem_of_app, Hrev. case_decide; [done|].
    intros [?|?]; [done|auto].
  - intros b. rewrite lookup_delete_all, elem_of_app, Hrev, <- Hbl. case_decide as Hd.
    + split; [|tauto]. intros _. right. rewrite H1 by auto. eauto.
    + tauto.
  - intros o' bl. rewrite lookup_insert. case_decide; [intros [= <-]|by apply Htab].
    by apply NoDup_take_drop.
  - intros b. unfold cget. rewrite lookup_delete_all, (owner_count_update _ _ _ _ _ Ho), <- Hc.
    unfold cget. destruct (split_free k _ b Hnd) as [Hs1 Hs2].
    case_decide as Hd; simpl.
    + rewrite H1 by auto. rewrite bool_decide_eq_true_2, bool_decide_eq_false_2 by tauto. done.
    + repeat case_bool_decide; try lia; tauto.
  - intros b n. rewrite lookup_delete_all. case_decide; [done|apply Hp].
Qed.

Lemma kv_inv_resize a o n : kv_inv a → kv_inv (resize o n a).2.
Proof.
  intros Hinv. unfold resize. destruct (blocks_for_tokens n a) as [req|]; [|done].
  destruct (kv_owners a !! o) as [blocks|] eqn:Ho; [|done].
  destruct (any_shared (kv_references a) blocks) as [[]|] eqn:Hs; try done.
  repeat case_head; simpl; auto with kv.
  - apply kv_inv_pressure. apply kv_inv_take; [done|by right].
  - apply kv_inv_pressure. by apply kv_inv_shrink.
Qed.

Lemma kv_inv_retain a a' o blocks : retain o blocks a = Ok a' → kv_inv a → kv_inv a'.
Proof.
  unfold retain. intros H Hinv. repeat case_hyp H; try done. simplify_eq. bool_hyps.
  destruct (bool_decide_reflect (NoDup blocks)) as [Hnd|]; [|done].
  assert (∀ b, b ∈ blocks → is_Some (kv_references a !! b)) as Hin.
  { intros b Hb. match goal with H : existsb _ _ = false |- _ => rename H into He end.
    rewrite <- not_true_iff_false, existsb_exists in He.
    destruct (kv_references a !! b) eqn:E; [eauto|]. exfalso. apply He. exists b.
    rewrite <- list_elem_of_In, E. by rewrite bool_decide_eq_false_2 by (by intros [? ?]). }
  apply kv_inv_pressure. destruct Hinv as [Hf Hdis Hbl Htab Hc Hp]. split; simpl; try done.
  - intros b Hb. apply eq_None_not_Some. rewrite lookup_retain_all by done.
    rewrite Hdis by done. by intros [? ?].
  - intros b. by rewrite lookup_retain_all, Hbl.
  - intros o' bl. rewrite lookup_insert. case_decide; [by intros [= <-]|apply Htab].
  - intros b. rewrite cget_retain_all, owner_count_new, Hc by done. lia.
  - by apply positive_retain_all.
Qed.

Lemma release_blocks_spec blocks refs free :
  NoDup blocks → (∀ b, b ∈ blocks → is_Some (refs !! b)) →
  ∃ refs', release_blocks blocks (refs, free)
      = Ok (refs', rev (filter (λ b, refs !! b = Some 1) blocks) ++ free) ∧
    ∀ b, refs' !! b = if decide (b ∈ blocks)
      then (n ← refs !! b; if n - 1 =? 0 then None else Some (n - 1)) else refs !! b.
Proof.
  intros Hd. revert refs free. induction Hd as [|x bs Hx Hd IH]; intros refs free Hin; simpl.
  { by exists refs. }
  destruct (Hin x) as [n Hn]; [left|].
  set (refs1 := if n - 1 =? 0 then delete x refs else <[x := n - 1]> refs).
  set (free1 := if n - 1 =? 0 then x :: free else free).
  assert (release_block x (refs, free) = Ok (refs1, free1)) as Hstep.
  { unfold release_block, refs1, free1. simpl. rewrite Hn. by destruct (n - 1 =? 0). }
  assert (∀ b, b ≠ x → refs1 !! b = refs !! b) as Hne.
  { intros b Hb. unfold refs1. destruct (n - 1 =? 0);
      [by apply lookup_delete_ne|by apply lookup_insert_ne]. }
  destruct (IH refs1 free1) as (refs' & Hr & Hl).
  { intros b Hb. rewrite Hne by (intros ->; done). apply Hin. by right. }
  exists refs'. rewrite Hstep. simpl. rewrite Hr. split.
  - do 2 f_equal. rewrite filter_cons.
    assert (filter (λ b, refs1 !! b = Some 1) bs = filter (λ b, refs !! b = Some 1) bs) as ->.
    { apply filter_same. intros b Hb. rewrite Hne; [done|].
      intros ->. done. }
    unfold free1. destruct (n - 1 =? 0) eqn:E; bool_hyps.
    + rewrite decide_True by (rewrite Hn; f_equal; lia). simpl. by rewrite <- app_assoc.
    + rewrite decide_False; [done|]. rewrite Hn. intros [= ->]. lia.
  - intros b. rewrite Hl. destruct (decide (b = x)) as [->|Hb].
    + rewrite decide_False, decide_True by (done || left). rewrite Hn. simpl. unfold refs1.
      destruct (n - 1 =? 0); [apply lookup_delete_eq|apply lookup_insert_eq].
    + rewrite Hne by done. destruct (decide (b ∈ bs)), (decide (b ∈ x :: bs)) as [H|H];
        rewrite ?elem_of_cons, ?not_elem_of_cons in H; naive_solver.
Qed.

(** What [release] does to an allocator that satisfies the invariant. *)
Lemma release_spec a o :
  kv_inv a →
  match kv_owners a !! o with
  | None => release o a = Ok (false, a)
  | Some blocks => ∃ refs',
      release o a = Ok (true, update_pressure
        (a <| kv_owners ::= delete o |> <| kv_references := refs' |>
           <| kv_free ::= λ free,
                rev (filter (λ b, kv_references a !! b = Some 1) blocks) ++ free |>)) ∧
      ∀ b, refs' !! b = if decide (b ∈ blocks)
        then (n ← kv_references a !! b; if n - 1 =? 0 then None else Some (n - 1))
        else kv_references a !! b
  end.
Proof.
  intros Hinv. unfold release. destruct (kv_owners a !! o) as [blocks|] eqn:Ho; [|done].
  destruct (release_blocks_spec blocks (kv_references a) (kv_free a)) as (refs' & Hr & Hl).
  - by eapply (inv_tables a Hinv).
  - intros b Hb. destruct (table_allocated _ _ _ _ Hinv Ho Hb) as (n & Hn & _). eauto.
  - exists refs'. by rewrite Hr.
Qed.

Lemma kv_inv_release a a' o b : release o a = Ok (b, a') → kv_inv a → kv_inv a'.
Proof.
  intros H Hinv. pose proof (release_spec a o Hinv) as Hs.
  destruct (kv_owners a !! o) as [blocks|] eqn:Ho; [|congruence].
  destruct Hs as (refs' & Hr & Hl). rewrite Hr in H. injection H as <- <-. apply kv_inv_pressure.
  assert (∀ b, b ∈ blocks → ∃ n, kv_references a !! b = Some n ∧ 0 < n) as Hal
    by (intros; by eapply table_allocated).
  pose proof Hinv as [Hf Hdis Hbl Htab Hc Hp].
  assert (∀ b, b ∈ rev (filter (λ b, kv_references a !! b = Some 1) blocks) ↔
    kv_references a !! b = Some 1 ∧ b ∈ blocks) as Hrev.
  { intros x. rewrite list_elem_of_In, <- in_rev, <- list_elem_of_In. by rewrite list_elem_of_filter. }
  split; simpl.
  - apply NoDup_app. split_and!; [|intros x [Hx _]%Hrev Hx'|done].
    + apply NoDup_ListNoDup, NoDup_rev, NoDup_ListNoDup, NoDup_filter. by eapply Htab.
    + rewrite Hdis in Hx; done.
  - intros x. rewrite elem_of_app, Hrev, Hl. intros [[Hx Hin]|Hx].
    + rewrite decide_True, Hx by done. done.
    + rewrite (Hdis x Hx). by case_decide.
  - intros x. rewrite elem_of_app, Hrev, Hl, <- Hbl. case_decide as Hin.
    + destruct (Hal x Hin) as (n & -> & Hn). simpl. destruct (n - 1 =? 0) eqn:E; bool_hyps.
      * split; [eauto|]. intros _. left. left. split; [f_equal; lia|done].
      * split; [eauto|]. intros _. right. eauto.
    + naive_solver.
  - intros o' bl [_ Hb]%lookup_delete_Some. by apply (Htab o').
  - intros x. rewrite (owner_count_delete _ _ _ _ Ho), <- Hc. unfold cget. rewrite Hl.
    case_decide as Hin; [|rewrite bool_decide_eq_false_2 by done; lia].
    rewrite bool_decide_eq_true_2 by done. destruct (Hal x Hin) as (n & -> & Hn). simpl.
    destruct (n - 1 =? 0) eqn:E; bool_hyps; simpl; lia.
  - intros x n. rewrite Hl. case_decide as Hin; [|apply Hp].
    destruct (Hal x Hin) as (m & -> & Hm). simpl. destruct (m - 1 =? 0) eqn:E; bool_hyps; [done|].
    intros [= <-]. lia.
Qed.

Lemma kv_inv_init total size bytes high low a :
  KVBlockAllocator_init total size bytes high low = Ok a → kv_inv a.
Proof.
  unfold KVBlockAllocator_init. intros (? & Hd & H)%bind_Ok_inv.
  apply bind_Ok_inv in H as (? & _ & [= <-]). split; simpl; try done.
  - apply NoDup_seqZ.
  - intros b. rewrite lookup_empty, elem_of_seqZ. split; [intros [?|[? ?]]; [lia|done]|left; lia].
Qed.
#[export] Hint Resolve kv_inv_allocate kv_inv_resize kv_inv_retain kv_inv_release kv_inv_init : kv.

Lemma kv_reachable_inv total size bytes high low a :
  kv_reachable total size bytes high low a → kv_inv a.
Proof.
  induction 1 as [a H|a a' _ IH Hs]; [eauto with kv|]. destruct Hs; eauto with kv.
Qed.

(** The reference counts that [assert_invariants] recomputes are the stored ones. *)
Lemma expected_references_spec (l : list (string * list Z)) m :
  (∀ p, p ∈ l → NoDup p.2) → (∀ b n, m !! b = Some n → 0 < n) →
  let m' := foldl (λ m p, foldl (λ m b, cadd b 1 m) m p.2) m l in
  (∀ b, cget m' b = cget m b + zsum (λ p, if bool_decide (b ∈ p.2) then 1 else 0) l) ∧
  (∀ b n, m' !! b = Some n → 0 < n).
Proof.
  revert m. induction l as [|[o bl] l IH]; intros m Hd Hp; simpl; [split; [intros; lia|done]|].
  destruct (IH (foldl (λ m b, cadd b 1 m) m bl)) as [H1 H2].
  - intros p Hin. apply Hd. by right.
  - by apply positive_retain_all.
  - split; [|done]. intros b. rewrite H1, cget_retain_all.
    + unfold zsum. simpl. lia.
    + apply (Hd (o, bl)). left.
Qed.
Lemma owner_count_list m b :
  owner_count m b = zsum (λ p : string * list Z, if bool_decide (b ∈ p.2) then 1 else 0) (map_to_list m).
Proof.
  unfold owner_count, msum. rewrite map_fold_foldr. unfold zsum.
  induction (map_to_list m) as [|[o bl] l IH]; simpl; [done|]. by rewrite IH.
Qed.
Lemma expected_references_inv a : kv_inv a → expected_references a = kv_references a.
Proof.
  intros Hinv. unfold expected_references.
  destruct (expected_references_spec (map_to_list (kv_owners a)) ∅) as [H1 H2].
  - intros [o bl] Hin%elem_of_map_to_list. by eapply (inv_tables a Hinv).
  - intros b n. by rewrite lookup_empty.
  - apply map_eq. intros b. specialize (H1 b). specialize (H2 b).
    rewrite <- owner_count_list, <- (inv_counts a Hinv), cget_empty in H1.
    pose proof (inv_positive a Hinv b) as H3. unfold cget in H1.
    destruct (foldl _ _ _ !! b) as [n|], (kv_references a !! b) as [k|]; simpl in H1; try done.
    + f_equal. lia.
    + specialize (H2 n eq_refl). lia.
    + specialize (H3 k eq_refl). lia.
Qed.

Lemma kv_inv_assert a : kv_inv a → assert_invariants a = Ok tt.
Proof.
  intros Hinv. pose proof Hinv as [Hf Hdis Hbl Htab Hc Hp]. unfold assert_invariants.
  assert (size (list_to_set (kv_free a) : gset Z) = length (kv_free a)) as ->
    by (by rewrite size_list_to_set).
  assert ((list_to_set (kv_free a) : gset Z) ∩ dom (kv_references a) = ∅) as H1.
  { apply set_eq. intros b. rewrite elem_of_intersection, elem_of_list_to_set, elem_of_dom.
    split; [intros [Hb [n H2]]; rewrite (Hdis b Hb) in H2; done|set_solver]. }
  assert ((list_to_set (kv_free a) : gset Z) ∪ dom (kv_references a)
    = list_to_set (seqZ 0 (kv_total_blocks a))) as H2.
  { apply set_eq. intros b.
    rewrite elem_of_union, !elem_of_list_to_set, elem_of_dom, elem_of_seqZ, Hbl. lia. }
  assert (map_Forall (λ _ blocks, NoDup blocks) (kv_owners a)) as H3
    by (intros o bl Ho; by eapply Htab).
  pose proof (expected_references_inv a Hinv) as H4.
  rewrite Nat.eqb_refl, !bool_decide_eq_true_2 by assumption. done.
Qed.

(** ** Watermarks *)

(** The pressure flag agrees with the utilisation. *)
Definition pressure_ok (a : KVBlockAllocator) : Prop :=
  if kv_pressure a then f_leb (kv_utilization a) (kv_low_watermark a) = false
  else f_leb (kv_high_watermark a) (kv_utilization a) = false.

Lemma f_low_high low high x :
  f_ltb low high = true → f_leb x low = true → f_leb high x = false.
Proof.
  intros H1 H2. apply not_true_iff_false. intros H3.
  pose proof (f_leb_trans _ _ _ H3 H2) as H4. apply f_leb_nltb in H4. congruence.
Qed.
Lemma update_pressure_ok a :
  f_ltb (kv_low_watermark a) (kv_high_watermark a) = true → pressure_ok (update_pressure a).
Proof.
  intros Hlh. unfold update_pressure, pressure_ok. case_head; bool_hyps; simpl.
  { apply not_true_iff_false. intros H'. apply (f_low_high _ _ _ Hlh) in H'.
    unfold kv_utilization in *. simpl in *. congruence. }
  case_head; bool_hyps; simpl; [by apply (f_low_high _ _ _ Hlh)|].
  destruct (kv_pressure a); simpl in *; done.
Qed.

(** Every call either leaves the allocator alone or ends with [update_pressure]. *)
Lemma kv_step_shape a a' :
  kv_step a a' →
  a' = a ∨ ∃ b, a' = update_pressure b ∧ kv_pressure b = kv_pressure a ∧
    kv_total_blocks b = kv_total_blocks a ∧ kv_block_size_tokens b = kv_block_size_tokens a ∧
    kv_high_watermark b = kv_high_watermark a ∧ kv_low_watermark b = kv_low_watermark a.
Proof.
  destruct 1 as [a o n|a a' o bl H|a o n|a a' o b H].
  - unfold allocate, kv_failure. repeat case_head; simpl; try (by left); right; by eexists.
  - unfold retain in H. repeat case_hyp H; simplify_eq; right; by eexists.
  - unfold resize, kv_failure. repeat case_head; simpl; try (by left); right; by eexists.
  - unfold release in H. destruct (kv_owners a !! o); [|left; congruence].
    apply bind_Ok_inv in H as (s & _ & [= _ <-]). right. by eexists.
Qed.
Lemma kv_step_sizes a a' :
  kv_step a a' →
  kv_total_blocks a' = kv_total_blocks a ∧ kv_block_size_tokens a' = kv_block_size_tokens a.
Proof.
  intros [->|(b & -> & _ & Ht & Hs & _)]%kv_step_shape; [done|].
  destruct (update_pressure_fields b) as (-> & -> & _). done.
Qed.
Lemma kv_init_pressure total size bytes high low a :
  KVBlockAllocator_init total size bytes high low = Ok a →
  pressure_ok a ∧ f_ltb (kv_low_watermark a) (kv_high_watermark a) = true.
Proof.
  unfold KVBlockAllocator_init. intros (? & Hd & H)%bind_Ok_inv.
  apply bind_Ok_inv in H as (? & Hw & [= <-]). apply raise_if_Ok in Hw. bool_hyps. split; [|done].
  unfold pressure_ok, kv_utilization. simpl. rewrite map_size_empty. simpl.
  apply not_true_iff_false. intros H'. apply f_leb_nltb in H'.
  by rewrite (f_ltb_trans f_zero low high) in H'.
Qed.
Lemma kv_step_pressure a a' :
  kv_step a a' → f_ltb (kv_low_watermark a) (kv_high_watermark a) = true → pressure_ok a →
  pressure_ok a' ∧ f_ltb (kv_low_watermark a') (kv_high_watermark a') = true.
Proof.
  intros [->|(b & -> & _ & _ & _ & Hh & Hl)]%kv_step_shape Hlh Hok; [done|].
  destruct (update_pressure_fields b) as (_ & _ & _ & _ & _ & _ & -> & ->).
  rewrite Hh, Hl. split; [|done]. apply update_pressure_ok. by rewrite Hh, Hl.
Qed.
Lemma kv_reachable_pressure total size bytes high low a :
  kv_reachable total size bytes high low a →
  pressure_ok a ∧ f_ltb (kv_low_watermark a) (kv_high_watermark a) = true.
Proof.
  induction 1 as [a H|a a' _ [IH1 IH2] Hs]; [by eapply kv_init_pressure|].
  by eapply kv_step_pressure.
Qed.

(** ** Successful allocation *)

Lemma elem_of_take_in {A} k (l : list A) x : x ∈ take k l → x ∈ l.
Proof. intros H. rewrite <- (take_drop k l). apply elem_of_app. by left. Qed.

Lemma blocks_for_tokens_exact n a required :
  n < 2 ^ 53 → 0 < kv_block_size_tokens a < 2 ^ 53 → blocks_for_tokens n a = Ok required →
  required = - ((- n) / kv_block_size_tokens a) ∧ 0 <= required.
Proof.
  intros Hn Hb. unfold blocks_for_tokens. intros (? & Hr & [= <-])%bind_Ok_inv.
  apply raise_if_Ok in Hr. bool_hyps. rewrite f_ceil_ratio by lia. split; [done|].
  enough ((- n) / kv_block_size_tokens a <= 0) by lia. apply Z.div_le_upper_bound; lia.
Qed.
Lemma allocate_Ok o n a blocks a' :
  allocate o n a = (Ok blocks, a') →
  ∃ required, blocks_for_tokens n a = Ok required ∧ kv_owners a !! o = None ∧
    required <= Z.of_nat (length (kv_free a)) ∧
    blocks = take (Z.to_nat required) (kv_free a) ∧
    a' = update_pressure (a <| kv_free ::= drop (Z.to_nat required) |>
              <| kv_owners ::= <[o := blocks]> |>
              <| kv_references ::= add_references blocks |>).
Proof.
  unfold allocate. intros H. repeat case_hyp H; simplify_eq. bool_hyps. eexists. split_and!; done.
Qed.

(** Which owners have a table after each operation. *)
Lemma allocate_owners o n a r a' :
  allocate o n a = (r, a') →
  match r with
  | Ok blocks => kv_owners a !! o = None ∧ kv_owners a' = <[o := blocks]> (kv_owners a)
  | Err _ => kv_owners a' = kv_owners a
  end.
Proof.
  destruct r as [blocks|e].
  - intros (required & _ & Ho & _ & -> & ->)%allocate_Ok. split; [done|].
    match goal with |- kv_owners (update_pressure ?x) = _ =>
      destruct (update_pressure_fields x) as (_ & _ & _ & -> & _) end. done.
  - unfold allocate, kv_failure. intros H. repeat case_hyp H; simplify_eq; try done.
    destruct (update_pressure_fields (a <| kv_allocation_failures ::= λ n, n + 1 |>))
      as (_ & _ & _ & -> & _). done.
Qed.
Lemma resize_owners o n a o' :
  is_Some (kv_owners (resize o n a).2 !! o') ↔ is_Some (kv_owners a !! o').
Proof.
  assert (∀ x bl bl', kv_owners a !! o = Some bl → kv_owners x = <[o := bl']> (kv_owners a) →
    is_Some (kv_owners (update_pressure x) !! o') ↔ is_Some (kv_owners a !! o')) as Hi.
  { intros x bl bl' Ho Hx. destruct (update_pressure_fields x) as (_ & _ & _ & -> & _).
    rewrite Hx, lookup_insert. destruct (decide (o = o')) as [<-|]; [|done].
    rewrite Ho. split; intros _; by eexists. }
  unfold resize, kv_failure.
  destruct (blocks_for_tokens n a); [|done]. destruct (kv_owners a !! o) eqn:Ho; [|done].
  destruct (any_shared _ _) as [[]|]; [done| |done].
  repeat case_head; simpl; try (by eapply Hi);
    match goal with |- context [kv_owners (update_pressure ?x)] =>
      destruct (update_pressure_fields x) as (_ & _ & _ & -> & _) end; done.
Qed.
Lemma release_owners o a :
  kv_inv a → ∃ b a', release o a = Ok (b, a') ∧ kv_owners a' = delete o (kv_owners a) ∧ kv_inv a'.
Proof.
  intros Hinv. pose proof (release_spec a o Hinv) as Hs.
  destruct (kv_owners a !! o) as [blocks|] eqn:Ho.
  - destruct Hs as (refs' & Hr & _). do 2 eexists. split_and!; [exact Hr| |by eapply kv_inv_release].
    match goal with |- kv_owners (update_pressure ?x) = _ =>
      destruct (update_pressure_fields x) as (_ & _ & _ & -> & _) end. done.
  - exists false, a. rewrite delete_id by done. done.
Qed.

(** ** Properties *)

(** C18: The allocator's own consistency check can never fail: in every state reachable by
    [allocate], [retain], [resize] and [release] calls, whatever their arguments and outcome,
    [assert_invariants] returns normally (no block lost, invented, doubly owned by one table or
    both free and allocated, and every reference count equals the number of owning tables). *)
Theorem kv_invariants_always_hold total size bytes high low a :
  kv_reachable total size bytes high low a → assert_invariants a = Ok tt.
Proof. intros H%kv_reachable_inv. by apply kv_inv_assert. Qed.

(** A successful allocation hands out exactly [ceil(tokens / block_size)] distinct blocks,
    despite the float division in the code, and no other owner's table changes or holds any of
    them. *)
Theorem kv_allocate_exclusive o n a blocks a' :
  kv_inv a → n < 2 ^ 53 → 0 < kv_block_size_tokens a < 2 ^ 53 →
  allocate o n a = (Ok blocks, a') →
  Z.of_nat (length blocks) = - ((- n) / kv_block_size_tokens a) ∧ NoDup blocks ∧
  block_table o a' = Ok blocks ∧
  ∀ o' bl, o' ≠ o → kv_owners a' !! o' = Some bl →
    kv_owners a !! o' = Some bl ∧ ∀ b, b ∈ bl → b ∉ blocks.
Proof.
  intros Hinv Hn Hb (required & Hr & Ho & Hle & -> & ->)%allocate_Ok.
  destruct (blocks_for_tokens_exact _ _ _ Hn Hb Hr) as [-> H0].
  destruct (update_pressure_fields (a <| kv_free ::= drop (Z.to_nat (- (- n / kv_block_size_tokens a))) |>
      <| kv_owners ::= <[o := take (Z.to_nat (- (- n / kv_block_size_tokens a))) (kv_free a)]> |>
      <| kv_references ::= add_references (take (Z.to_nat (- (- n / kv_block_size_tokens a)))
                             (kv_free a)) |>)) as (_ & _ & _ & Hown & _).
  unfold block_table. rewrite Hown. simpl. rewrite lookup_insert_eq. split_and!.
  - rewrite length_take. lia.
  - apply NoDup_take_drop, Hinv.
  - done.
  - intros o' bl Hne. rewrite lookup_insert_ne by done. intros Hbl. split; [done|].
    intros b Hin Hin'. destruct (table_allocated _ _ _ _ Hinv Hbl Hin) as (k & Hk & _).
    rewrite (inv_disjoint a Hinv b) in Hk; [done|]. by eapply elem_of_take_in.
Qed.

(** C33: A failed [allocate] or [resize] changes no ownership: free list, tables and reference
    counts stay as they were, and the failure counter moves only on a capacity error. *)
Theorem kv_failure_atomic o n a a' e :
  allocate o n a = (Err e, a') ∨ resize o n a = (Err e, a') →
  kv_free a' = kv_free a ∧ kv_owners a' = kv_owners a ∧ kv_references a' = kv_references a ∧
  kv_allocation_failures a' = kv_allocation_failures a +
    match e with KVCacheCapacityError _ => 1 | _ => 0 end.
Proof.
  assert (∀ r, blocks_for_tokens n a = Err r → r = ValueError "token capacity must be non-negative")
    as Hb by (unfold blocks_for_tokens, raise_if; intros r; case_head; simpl; congruence).
  assert (∀ bl r, any_shared (kv_references a) bl = Err r → ∃ s, r = KeyError s) as Hs.
  { induction bl as [|b bl IH]; simpl; intros r H; [done|].
    destruct (_ !! b); [case_hyp H; [auto|done]|]. simplify_eq. eauto. }
  destruct (update_pressure_fields (a <| kv_allocation_failures ::= λ n, n + 1 |>))
    as (_ & _ & H1 & H2 & H3 & H4 & _).
  intros [H|H]; unfold allocate, resize, kv_failure in H; repeat case_hyp H; simplify_eq;
    rewrite ?H1, ?H2, ?H3, ?H4; split_and!; simpl; try done; try lia;
    first [rewrite (Hb _ eq_refl)|rewrite (Hb e) by done|
      match goal with H : any_shared _ _ = _ |- _ => destruct (Hs _ _ H) as [? ->] end]; lia.
Qed.

(** Releasing an allocation returns everything: after a successful [allocate], [release]
    succeeds, restores the tables and reference counts and gives back the same free blocks up to
    order; a second [release] is a no-op that reports [False]. *)
Theorem kv_release_roundtrip o n a blocks a' :
  kv_inv a → allocate o n a = (Ok blocks, a') →
  ∃ a'', release o a' = Ok (true, a'') ∧ kv_owners a'' = kv_owners a ∧
    kv_references a'' = kv_references a ∧ kv_free a'' ≡ₚ kv_free a ∧
    release o a'' = Ok (false, a'').
Proof.
  intros Hinv H. pose proof (kv_inv_allocate a o n Hinv) as Hinv'.
  rewrite H in Hinv'. simpl in Hinv'.
  apply allocate_Ok in H as (required & _ & Ho & _ & Hbl & Ha').
  match type of Ha' with _ = update_pressure ?x =>
    destruct (update_pressure_fields x) as (_ & _ & Hf & Hown & Href & _) end.
  rewrite <- Ha' in Hf, Hown, Href. simpl in Hf, Hown, Href.
  pose proof (release_spec a' o Hinv') as Hrel.
  rewrite Hown, lookup_insert_eq in Hrel. destruct Hrel as (refs' & Hrel & Hl).
  assert (∀ b, b ∈ blocks → kv_references a' !! b = Some 1) as H1
    by (intros b Hb; by rewrite Href, lookup_add_references, decide_True).
  eexists. split; [exact Hrel|].
  match goal with |- context [update_pressure ?x] =>
    destruct (update_pressure_fields x) as (_ & _ & Hf2 & Hown2 & Href2 & _) end.
  unfold release at 1. rewrite Hf2, Hown2, Href2. simpl.
  rewrite Hown, Hf, lookup_delete_eq. split_and!; [by rewrite delete_insert_id| | |done].
  - apply map_eq. intros b. rewrite Hl. case_decide as Hb.
    + rewrite H1 by done. simpl. symmetry. apply (inv_disjoint a Hinv).
      rewrite Hbl in Hb. by eapply elem_of_take_in.
    + by rewrite Href, lookup_add_references, decide_False.
  - rewrite (filter_same _ (λ _, True)) by (intros b Hb; rewrite H1 by done; done).
    assert (filter (λ _ : Z, True) blocks = blocks) as ->
      by (clear; induction blocks as [|b bl IH]; [done|]; rewrite filter_cons_True, IH by done; done).
    rewrite <- (take_drop (Z.to_nat required) (kv_free a)) at 2. rewrite <- Hbl.
    apply Permutation_app_tail. symmetry. apply Permutation_rev.
Qed.

(** The pressure signal does not flap: in every reachable state it is on only above the low
    watermark and off only below the high one, and a call changes it only by crossing the high
    watermark upwards or the low watermark downwards. *)
Theorem kv_pressure_hysteresis total size bytes high low a a' :
  kv_reachable total size bytes high low a → kv_step a a' →
  pressure_ok a ∧ f_ltb (kv_low_watermark a) (kv_high_watermark a) = true ∧
  (kv_pressure a = false → kv_pressure a' = true →
     f_leb (kv_high_watermark a') (kv_utilization a') = true) ∧
  (kv_pressure a = true → kv_pressure a' = false →
     f_leb (kv_utilization a') (kv_low_watermark a') = true).
Proof.
  intros [Hok Hlh]%kv_reachable_pressure Hs. split; [done|]. split; [done|].
  apply kv_step_shape in Hs as [->|(b & -> & Hp & _)]; [split; congruence|].
  rewrite <- Hp. unfold update_pressure.
  destruct (negb (kv_pressure b) && f_leb (kv_high_watermark b) (kv_utilization b)) eqn:E1;
    [bool_hyps; simpl; split; [done|congruence]|].
  destruct (kv_pressure b && f_leb (kv_utilization b) (kv_low_watermark b)) eqn:E2;
    [bool_hyps; simpl; split; [congruence|done]|]. split; congruence.
Qed.

(** ** Witnesses *)

(** Four blocks of two tokens; watermarks 3/4 and 1/2. *)
Definition sample_kv : KVBlockAllocator :=
  mkKV 4 2 8 (f_ratio 3 4) (f_ratio 1 2) [0; 1; 2; 3] ∅ ∅ 0 false.
Definition sample_kv_a : KVBlockAllocator := (allocate "a" 3 sample_kv).2.
Definition sample_kv_ab : KVBlockAllocator := (allocate "b" 1 sample_kv_a).2.

Lemma sample_kv_reachable : kv_reachable 4 2 8 (f_ratio 3 4) (f_ratio 1 2) sample_kv_ab.
Proof.
  eapply kv_reach_step; [|apply (kv_allocate sample_kv_a)].
  eapply kv_reach_step; [|apply (kv_allocate sample_kv)]. by apply kv_reach_init.
Qed.
Lemma sample_kv_a_reachable : kv_reachable 4 2 8 (f_ratio 3 4) (f_ratio 1 2) sample_kv_a.
Proof. eapply kv_reach_step; [|apply (kv_allocate sample_kv)]. by apply kv_reach_init. Qed.
Lemma sample_kv_a_inv : kv_inv sample_kv_a.
Proof. eapply kv_reachable_inv, sample_kv_a_reachable. Qed.

Lemma kv_invariants_always_hold_witness :
  assert_invariants sample_kv_ab = Ok tt ∧ kv_pressure sample_kv_ab = true.
Proof.
  split; [|vm_compute; reflexivity].
  exact (kv_invariants_always_hold _ _ _ _ _ _ sample_kv_reachable).
Defined.
Lemma kv_allocate_exclusive_witness :
  (allocate "b" 1 sample_kv_a).1 = Ok [2] ∧ block_table "b" sample_kv_ab = Ok [2].
Proof.
  assert (allocate "b" 1 sample_kv_a = (Ok [2], sample_kv_ab)) as H by (vm_compute; reflexivity).
  split; [vm_compute; reflexivity|].
  exact (proj1 (proj2 (proj2 (kv_allocate_exclusive "b" 1 sample_kv_a [2] sample_kv_ab
    sample_kv_a_inv ltac:(lia) ltac:(vm_compute; split; reflexivity) H)))).
Defined.
Lemma kv_failure_atomic_witness :
  let r := allocate "c" 9 sample_kv_ab in
  is_ok r.1 = false ∧ kv_owners r.2 = kv_owners sample_kv_ab ∧ kv_allocation_failures r.2 = 1.
Proof.
  assert (∃ e, allocate "c" 9 sample_kv_ab = (Err e, (allocate "c" 9 sample_kv_ab).2)) as [e H]
    by (eexists; vm_compute; reflexivity).
  split; [vm_compute; reflexivity|]. split; [|vm_compute; reflexivity].
  exact (proj1 (proj2 (kv_failure_atomic "c" 9 sample_kv_ab _ e (or_introl H)))).
Defined.
Lemma kv_release_roundtrip_witness :
  ∃ a, release "b" sample_kv_ab = Ok (true, a) ∧ kv_owners a = kv_owners sample_kv_a.
Proof.
  assert (allocate "b" 1 sample_kv_a = (Ok [2], sample_kv_ab)) as H by (vm_compute; reflexivity).
  destruct (kv_release_roundtrip "b" 1 sample_kv_a [2] sample_kv_ab sample_kv_a_inv H)
    as (a & H1 & H2 & _).
  exists a. exact (conj H1 H2).
Defined.
Lemma kv_pressure_hysteresis_witness :
  kv_pressure sample_kv_a = false ∧ kv_pressure sample_kv_ab = true ∧
  f_leb (kv_high_watermark sample_kv_ab) (kv_utilization sample_kv_ab) = true.
Proof.
  assert (kv_pressure sample_kv_a = false) as H1 by (vm_compute; reflexivity).
  assert (kv_pressure sample_kv_ab = true) as H2 by (vm_compute; reflexivity).
  split; [exact H1|]. split; [exact H2|].
  refine (proj1 (proj2 (proj2 (kv_pressure_hysteresis _ _ _ _ _ sample_kv_a sample_kv_ab
    sample_kv_a_reachable (kv_allocate sample_kv_a "b" 1)))) H1 H2).
Defined.
