(* ===== verification/Torch.v ===== *)
(** The part of PyTorch that the paged KV cache relies on, as an interface with its documented laws:
    tensors with a shape, a dtype and a device, basic indexing with integers and ranges, and [copy_]
    between two views. PyTorch is not part of the repository; the instance at the end shows that the
    laws can be met. *)
From S2P Require Import Prelude PyFloat.
From Stdlib Require String.

#[local] Open Scope string_scope.
#[local] Open Scope list_scope.
#[local] Open Scope Z_scope.

(** ** Basic indexing *)

(** One component of [t[...]]: an integer, a range [lo:hi], or [:]. *)
Inductive index := At (i : Z) | Range (lo hi : Z) | All.

(** The index is inside the shape, so that no range is clipped. *)
Fixpoint index_ok (s : list Z) (ix : list index) : Prop :=
  match s, ix with
  | [], [] => True
  | n :: s, At i :: ix => 0 <= i < n ∧ index_ok s ix
  | n :: s, Range lo hi :: ix => (0 <= lo <= hi ∧ hi <= n) ∧ index_ok s ix
  | _ :: s, All :: ix => index_ok s ix
  | _, _ => False
  end.
(** The shape of the view [t[...]]. *)
Fixpoint view_shape (s : list Z) (ix : list index) : list Z :=
  match s, ix with
  | _ :: s, At _ :: ix => view_shape s ix
  | _ :: s, Range lo hi :: ix => hi - lo :: view_shape s ix
  | n :: s, All :: ix => n :: view_shape s ix
  | _, _ => []
  end.
(** The position in the view of a position of the tensor, when it is in the view. *)
Fixpoint locate (ix : list index) (p : list Z) : option (list Z) :=
  match ix, p with
  | [], [] => Some []
  | At i :: ix, x :: p => if x =? i then locate ix p else None
  | Range lo hi :: ix, x :: p =>
    if (lo <=? x) && (x <? hi) then cons (x - lo) <$> locate ix p else None
  | All :: ix, x :: p => cons x <$> locate ix p
  | _, _ => None
  end.
(** The position in the tensor of a position of the view. *)
Fixpoint place (ix : list index) (q : list Z) : list Z :=
  match ix, q with
  | At i :: ix, q => i :: place ix q
  | Range lo _ :: ix, x :: q => lo + x :: place ix q
  | All :: ix, x :: q => x :: place ix q
  | _, _ => []
  end.
(** The positions of a tensor of shape [s]. *)
Definition in_shape (s p : list Z) : Prop := Forall2 (λ n x, 0 <= x < n) s p.
Definition num_elements (s : list Z) : Z := foldr Z.mul 1 s.

(** ** The interface *)

Class Torch := {
  tensor : Type;
  scalar : Type;
  zero : scalar;
  one : scalar;
  cuda_available : bool;
  has_dtype : string → bool;                    (* [getattr(torch, name)] succeeds *)
  empty : list Z → string → string → tensor;    (* shape, dtype, device *)
  zeros : list Z → string → string → tensor;
  shape : tensor → list Z;
  dtype : tensor → string;
  device : tensor → string;                     (* [str(t.device)] *)
  element_size : tensor → Z;
  get : tensor → list Z → scalar;
  copy_ : tensor → list index → tensor → list index → res tensor;
  fill : tensor → list index → scalar → res tensor;
  scaled_dot_product_attention : tensor → tensor → tensor → tensor → option float → res tensor
}.

Class TorchLaws `{Torch} : Prop := {
  empty_meta : ∀ s d dev, shape (empty s d dev) = s ∧ dtype (empty s d dev) = d;
  zeros_meta : ∀ s d dev, shape (zeros s d dev) = s ∧ dtype (zeros s d dev) = d;
  zeros_get : ∀ s d dev p, in_shape s p → get (zeros s d dev) p = zero;
  (** [t[ix].copy_(u[jx])] writes the view and nothing else. *)
  copy_spec : ∀ t ix u jx,
    index_ok (shape t) ix → index_ok (shape u) jx →
    view_shape (shape t) ix = view_shape (shape u) jx → dtype t = dtype u →
    ∃ t', copy_ t ix u jx = Ok t' ∧ shape t' = shape t ∧ dtype t' = dtype t ∧
      device t' = device t ∧ element_size t' = element_size t ∧
      ∀ p, in_shape (shape t) p →
        get t' p = match locate ix p with Some q => get u (place jx q) | None => get t p end;
  (** [t[ix] = v]. *)
  fill_spec : ∀ t ix v,
    index_ok (shape t) ix →
    ∃ t', fill t ix v = Ok t' ∧ shape t' = shape t ∧ dtype t' = dtype t ∧
      device t' = device t ∧ element_size t' = element_size t ∧
      ∀ p, in_shape (shape t) p →
        get t' p = match locate ix p with Some _ => v | None => get t p end
}.

(** ** An instance: tensors of integers as functions of the position *)

Record FunTensor := mkFunTensor {
  ft_shape : list Z; ft_dtype : string; ft_device : string; ft_data : list Z → Z
}.
#[local] Instance FunTorch : Torch := {|
  tensor := FunTensor; scalar := Z; zero := 0; one := 1;
  cuda_available := false; has_dtype := λ _, true;
  empty := λ s d dev, mkFunTensor s d dev (λ _, 77);
  zeros := λ s d dev, mkFunTensor s d dev (λ _, 0);
  shape := ft_shape; dtype := ft_dtype; device := ft_device; element_size := λ _, 4;
  get := ft_data;
  copy_ := λ t ix u jx, Ok (mkFunTensor (ft_shape t) (ft_dtype t) (ft_device t)
    (λ p, match locate ix p with Some q => ft_data u (place jx q) | None => ft_data t p end));
  fill := λ t ix v, Ok (mkFunTensor (ft_shape t) (ft_dtype t) (ft_device t)
    (λ p, match locate ix p with Some _ => v | None => ft_data t p end));
  scaled_dot_product_attention := λ q _ _ _ _, Ok q
|}.
Lemma FunTorch_laws : TorchLaws (H := FunTorch).
Proof. split; simpl; try done; intros; eexists; split_and!; done. Qed.
