(* ===== verification/PagedKV.v ===== *)
(** [inference/paged_kv.py]: K/V tensor pages over the block allocator [KVCache], with paged writes
    and the gather that pads sequences of different lengths into one attention batch. *)
From S2P Require Import Prelude PyContainers PyFloat KVCache Effects Torch.
From Stdlib Require String.

#[local] Open Scope string_scope.
#[local] Open Scope list_scope.
#[local] Open Scope Z_scope.

(** ** Data *)

Record PagedKVConfig := mkPagedKVConfig {
  pk_total_blocks : Z;
  pk_block_size_tokens : Z;
  pk_num_layers : Z;
  pk_num_kv_heads : Z;
  pk_head_dim : Z;
  pk_device : string;
  pk_dtype : string
}.
Definition is_cuda (device : string) : bool := String.prefix "cuda" device.
(** The dataclass constructor with [__post_init__]. *)
Definition PagedKVConfig_init (total_blocks block_size_tokens num_layers num_kv_heads head_dim : Z)
  (device dtype : string) : res PagedKVConfig :=
  _ ← raise_if (Z.min total_blocks (Z.min block_size_tokens (Z.min num_layers
        (Z.min num_kv_heads head_dim))) <=? 0) (ValueError "paged KV dimensions must be positive");
  _ ← raise_if (negb (bool_decide (device = "cpu")) && negb (is_cuda device))
        (ValueError "paged KV device must be cpu, cuda, or cuda:<index>");
  _ ← raise_if (negb (bool_decide (dtype ∈ ["float16"; "bfloat16"; "float32"])))
        (ValueError "paged KV dtype must be float16, bfloat16, or float32");
  Ok (mkPagedKVConfig total_blocks block_size_tokens num_layers num_kv_heads head_dim device dtype).

Record PagedSequence := mkPagedSequence {
  ps_sequence_id : string;
  ps_block_table : KVBlockTable;
  ps_tokens : Z
}.
Record PhysicalPagedKVSnapshot := mkPagedSnapshot {
  pp_total_blocks : Z;
  pp_used_blocks : Z;
  pp_free_blocks : Z;
  pp_active_sequences : Z;
  pp_stored_tokens : Z;
  pp_allocated_bytes : Z;
  pp_device : string;
  pp_dtype : string
}.

(** [xs[i]] on a tuple, for an index that is not negative. *)
Definition item {A} (xs : list A) (i : Z) : res A :=
  match xs !! Z.to_nat i with
  | Some x => Ok x
  | None => Err (IndexError "tuple index out of range")
  end.
Fixpoint map_res {A B} (f : A → res B) (xs : list A) : res (list B) :=
  match xs with
  | [] => Ok []
  | x :: xs => y ← f x; ys ← map_res f xs; Ok (y :: ys)
  end.

Section paged.
Context `{Torch}.

Record TorchPagedKVCache := mkPaged {
  pc_config : PagedKVConfig;
  pc_key_pages : tensor;
  pc_value_pages : tensor;
  pc_device : string;
  pc_allocator : KVBlockAllocator;
  pc_lengths : list (string * Z)
}.
#[export] Instance eta_TorchPagedKVCache : Eta TorchPagedKVCache := λ c,
  mkPaged (pc_config c) (pc_key_pages c) (pc_value_pages c) (pc_device c) (pc_allocator c)
    (pc_lengths c).

#[local] Abbreviation M := (Eff TorchPagedKVCache PyErr).

(** ** Operations *)

(** The allocator is built with its default watermarks. *)
Definition TorchPagedKVCache_init (config : PagedKVConfig) : res TorchPagedKVCache :=
  _ ← raise_if (is_cuda (pk_device config) && negb cuda_available)
        (RuntimeError "CUDA paged KV was requested but CUDA is unavailable");
  _ ← raise_if (negb (has_dtype (pk_dtype config)))
        (RuntimeError ("PyTorch does not expose dtype " +:+ pk_dtype config));
  let shape := [pk_num_layers config; pk_total_blocks config; pk_num_kv_heads config;
                pk_block_size_tokens config; pk_head_dim config] in
  let key_pages := empty shape (pk_dtype config) (pk_device config) in
  let value_pages := empty shape (pk_dtype config) (pk_device config) in
  let bytes_per_block := 2 * pk_num_layers config * pk_num_kv_heads config
    * pk_block_size_tokens config * pk_head_dim config * element_size key_pages in
  allocator ← KVBlockAllocator_init (pk_total_blocks config) (pk_block_size_tokens config)
    bytes_per_block (f_ratio 9 10) (f_ratio 7 10);
  Ok (mkPaged config key_pages value_pages (device key_pages) allocator []).

Definition lift {A} (r : res A) : M A := λ c,
  match r with Ok a => (inr a, c) | Err e => (inl e, c) end.

(** [self.allocator.allocate], whose failures may be counted in the allocator. *)
Definition allocator_allocate (sequence_id : string) (capacity : Z) : M (list Z) := λ c,
  match KVCache.allocate sequence_id capacity (pc_allocator c) with
  | (Ok blocks, a) => (inr blocks, c <| pc_allocator := a |>)
  | (Err e, a) => (inl e, c <| pc_allocator := a |>)
  end.
Definition allocate (sequence_id : string) (capacity : Z) : M PagedSequence :=
  _ ← lift (raise_if (capacity <=? 0) (ValueError "paged KV token capacity must be positive"));
  _ ← allocator_allocate sequence_id capacity;
  _ ← modify (λ c, c <| pc_lengths ::= od_set sequence_id 0 |>);
  allocator ← gets pc_allocator;
  t ← lift (table sequence_id allocator);
  mret (mkPagedSequence sequence_id t 0).

Definition length_of (sequence_id : string) (c : TorchPagedKVCache) : res Z :=
  match od_get sequence_id (pc_lengths c) with
  | Some n => Ok n
  | None => Err (KeyError ("unknown paged KV sequence: " +:+ sequence_id))
  end.

(** The checks of [append] on one tensor. *)
Definition check_tensor (c : TorchPagedKVCache) (t : tensor) : res unit :=
  heads ← item (shape t) 0;
  wrong ← (if negb (heads =? pk_num_kv_heads (pc_config c)) then Ok true
           else dim ← item (shape t) 2; Ok (negb (dim =? pk_head_dim (pc_config c))));
  _ ← raise_if wrong (ValueError "paged KV tensor shape must be [KV heads, tokens, head dim]");
  _ ← raise_if (negb (bool_decide (device t = pc_device c)))
        (ValueError "paged KV tensors must be on the configured device");
  raise_if (negb (bool_decide (dtype t = dtype (pc_key_pages c))))
        (ValueError "paged KV tensors must use the configured dtype").
(** Everything [append] checks before it writes: the position to write at, the number of tokens,
    and the block table. *)
Definition check_append (sequence_id : string) (keys values : list tensor) (c : TorchPagedKVCache)
  : res (Z * Z * KVBlockTable) :=
  _ ← raise_if (negb (Z.of_nat (length keys) =? pk_num_layers (pc_config c))
                || negb (Z.of_nat (length values) =? pk_num_layers (pc_config c)))
        (ValueError "one key and value tensor are required per model layer");
  start ← length_of sequence_id c;
  counts ← map_res (λ t, item (shape t) 1) (keys ++ values);
  token_count ← match remove_dups counts with
                | [n] => Ok n
                | _ => Err (ValueError "all paged KV tensors must contain the same token count")
                end;
  _ ← raise_if (token_count <=? 0) (ValueError "paged KV append requires at least one token");
  _ ← map_res (check_tensor c) (keys ++ values);
  t ← table sequence_id (pc_allocator c);
  _ ← raise_if (token_capacity t <? start + token_count)
        (ValueError "paged KV append exceeds the reserved sequence capacity");
  Ok (start, token_count, t).

(** The key pages ([false]) or the value pages ([true]). *)
Definition pages (v : bool) (c : TorchPagedKVCache) : tensor :=
  if v then pc_value_pages c else pc_key_pages c.
Definition set_pages (v : bool) (t : tensor) (c : TorchPagedKVCache) : TorchPagedKVCache :=
  if v then c <| pc_value_pages := t |> else c <| pc_key_pages := t |>.

(** [self.key_pages[layer, page_id, :, page_offset : page_offset + count, :].copy_(
    keys[layer][:, source_offset : source_offset + count, :])], and the same for the values. *)
Definition copy_page (v : bool) (sources : list tensor)
  (page_id page_offset source_offset count layer : Z) : M unit :=
  source ← lift (item sources layer);
  target ← gets (pages v);
  target' ← lift (copy_ target [At layer; At page_id; All; Range page_offset (page_offset + count); All]
                    source [All; Range source_offset (source_offset + count); All]);
  modify (set_pages v target').
(** The loop over the layers. *)
Definition write_page (keys values : list tensor) (num_layers page_id page_offset source_offset count : Z)
  : M unit :=
  for_each (λ layer, _ ← copy_page false keys page_id page_offset source_offset count layer;
                     copy_page true values page_id page_offset source_offset count layer)
    (seqZ 0 num_layers).
(** The loop over the pages; [fuel] bounds the iterations, and the token count is enough. *)
Fixpoint write_tokens (fuel : nat) (keys values : list tensor) (block_ids : list Z)
  (num_layers block_size start token_count source_offset : Z) : M unit :=
  match fuel with
  | O => mret tt
  | S fuel =>
    if source_offset <? token_count then
      let logical_position := start + source_offset in
      let table_offset := logical_position / block_size in
      let page_offset := logical_position mod block_size in
      page_id ← lift (item block_ids table_offset);
      let count := Z.min (token_count - source_offset) (block_size - page_offset) in
      _ ← write_page keys values num_layers page_id page_offset source_offset count;
      write_tokens fuel keys values block_ids num_layers block_size start token_count
        (source_offset + count)
    else mret tt
  end.
Definition append (sequence_id : string) (keys values : list tensor) : M PagedSequence :=
  checked ← gets (check_append sequence_id keys values);
  '(start, token_count, t) ← lift checked;
  config ← gets pc_config;
  _ ← write_tokens (Z.to_nat token_count) keys values (kt_block_ids t) (pk_num_layers config)
        (pk_block_size_tokens config) start token_count 0;
  _ ← modify (λ c, c <| pc_lengths ::= od_set sequence_id (start + token_count) |>);
  mret (mkPagedSequence sequence_id t (start + token_count)).

(** The loop of [materialize] over the block table of one row, filling [(keys, values)]. *)
Fixpoint gather_blocks (c : TorchPagedKVCache) (layer row length destination : Z) (block_ids : list Z)
  (out : tensor * tensor) : res (tensor * tensor) :=
  match block_ids with
  | [] => Ok out
  | page_id :: block_ids =>
    let count := Z.min (pk_block_size_tokens (pc_config c)) (length - destination) in
    if count <=? 0 then Ok out
    else
      let target := [At row; All; Range destination (destination + count); All] in
      let source := [At layer; At page_id; All; Range 0 count; All] in
      keys ← copy_ out.1 target (pc_key_pages c) source;
      values ← copy_ out.2 target (pc_value_pages c) source;
      gather_blocks c layer row length (destination + count) block_ids (keys, values)
  end.
(** The loop over the rows, filling [(keys, values, mask)]. *)
Fixpoint gather_rows (c : TorchPagedKVCache) (layer row : Z) (rows : list (string * Z))
  (out : tensor * tensor * tensor) : res (tensor * tensor * tensor) :=
  match rows with
  | [] => Ok out
  | (sequence_id, length) :: rows =>
    t ← table sequence_id (pc_allocator c);
    kv ← gather_blocks c layer row length 0 (kt_block_ids t) out.1;
    mask ← fill out.2 [At row; All; All; Range 0 length] one;
    gather_rows c layer (row + 1) rows (kv, mask)
  end.
Definition materialize (layer : Z) (sequence_ids : list string) (c : TorchPagedKVCache)
  : res (tensor * tensor * tensor) :=
  let config := pc_config c in
  _ ← raise_if (negb ((0 <=? layer) && (layer <? pk_num_layers config)))
        (ValueError "paged KV layer is out of range");
  _ ← raise_if (bool_decide (sequence_ids = [])) (ValueError "at least one sequence is required");
  _ ← raise_if (negb (bool_decide (NoDup sequence_ids)))
        (ValueError "paged KV batch contains duplicate sequences");
  lengths ← map_res (λ s, length_of s c) sequence_ids;
  let max_tokens := default 0 (py_max Z.ltb lengths) in
  _ ← raise_if (max_tokens <=? 0) (ValueError "paged attention requires stored KV tokens");
  let batch := Z.of_nat (length sequence_ids) in
  let out_shape := [batch; pk_num_kv_heads config; max_tokens; pk_head_dim config] in
  let keys := zeros out_shape (dtype (pc_key_pages c)) (pk_device config) in
  let values := zeros out_shape (dtype keys) (device keys) in
  let mask := zeros [batch; 1; 1; max_tokens] "bool" (pk_device config) in
  gather_rows c layer 0 (zip sequence_ids lengths) (keys, values, mask).

Definition attention (layer : Z) (sequence_ids : list string) (query : tensor) (scale : option float)
  (c : TorchPagedKVCache) : res tensor :=
  let config := pc_config c in
  '(keys, values, mask) ← materialize layer sequence_ids c;
  batch ← item (shape query) 0;
  _ ← raise_if (negb (batch =? Z.of_nat (length sequence_ids)))
        (ValueError "query batch size must match the paged sequence batch");
  heads ← item (shape query) 1;
  _ ← raise_if (negb (heads =? pk_num_kv_heads config))
        (ValueError "reference attention requires equal query and KV head counts");
  dim ← item (shape query) 3;
  _ ← raise_if (negb (dim =? pk_head_dim config))
        (ValueError "query head dimension does not match paged KV storage");
  _ ← raise_if (negb (bool_decide (device query = pc_device c))
                || negb (bool_decide (dtype query = dtype (pc_key_pages c))))
        (ValueError "query must use the paged KV device and dtype");
  scaled_dot_product_attention query keys values mask scale.

Definition release (sequence_id : string) : M bool := λ c,
  let c := c <| pc_lengths ::= od_del sequence_id |> in
  match KVCache.release sequence_id (pc_allocator c) with
  | Ok (b, a) => (inr b, c <| pc_allocator := a |>)
  | Err e => (inl e, c)
  end.

Definition sequence (sequence_id : string) (c : TorchPagedKVCache) : res PagedSequence :=
  tokens ← length_of sequence_id c;
  t ← table sequence_id (pc_allocator c);
  Ok (mkPagedSequence sequence_id t tokens).

Definition assert_invariants (c : TorchPagedKVCache) : res unit :=
  _ ← KVCache.assert_invariants (pc_allocator c);
  _ ← map_res (λ p, t ← table p.1 (pc_allocator c);
                    raise_if (token_capacity t <? p.2)
                      (AssertionError "paged KV sequence exceeds its block table")) (pc_lengths c);
  Ok tt.

Definition snapshot (c : TorchPagedKVCache) : PhysicalPagedKVSnapshot :=
  let allocation := KVCache.snapshot (pc_allocator c) in
  mkPagedSnapshot (ks_total_blocks allocation) (ks_used_blocks allocation) (ks_free_blocks allocation)
    (Z.of_nat (length (pc_lengths c))) (zsum snd (pc_lengths c))
    (num_elements (shape (pc_key_pages c)) * element_size (pc_key_pages c)
     + num_elements (shape (pc_value_pages c)) * element_size (pc_value_pages c))
    (pc_device c) (pk_dtype (pc_config c)).
End paged.
