(* ===== verification/PagedKVSafe.v ===== *)
(** The paged KV cache stores what was appended: page writes and gathers stay in bounds, pages of
    different sequences never overlap, and [materialize] returns the appended tokens in order. *)
From S2P Require Import Prelude PyContainers PyFloat KVCache Effects Torch PagedKV.
From Stdlib Require String.

#[local] Open Scope string_scope.
#[local] Open Scope list_scope.
#[local] Open Scope Z_scope.
#[local] Set Default Proof Using "Type".
#[local] Set Proof Using Clear Unused.

(** ** Arithmetic of pages *)

Lemma page_position bs p : 0 < bs → 0 <= p → 0 <= p / bs ∧ 0 <= p mod bs < bs ∧ p = bs * (p / bs) + p mod bs.
Proof.
  intros Hb Hp. pose proof (Z.mod_pos_bound p bs Hb). pose proof (Z.div_mod p bs ltac:(lia)).
  split; [by apply Z.div_pos|]. split; lia.
Qed.
Lemma same_page bs p i : 0 < bs → bs * i <= p < bs * i + bs → p / bs = i ∧ p mod bs = p - bs * i.
Proof.
  intros Hb Hp. assert (p / bs = i) as <- by (symmetry; apply (Z.div_unique p bs i (p - bs * i)); lia).
  split; [done|]. rewrite Z.mod_eq; lia.
Qed.

Section paged.
Context `{HT : Torch} {HL : TorchLaws}.

Definition cell (v : bool) (c : TorchPagedKVCache) (l b h s d : Z) : scalar :=
  get (pages v c) [l; b; h; s; d].
Definition page_shape (g : PagedKVConfig) : list Z :=
  [pk_num_layers g; pk_total_blocks g; pk_num_kv_heads g; pk_block_size_tokens g; pk_head_dim g].
Definition in_page (g : PagedKVConfig) (h s d : Z) : Prop :=
  0 <= h < pk_num_kv_heads g ∧ 0 <= s < pk_block_size_tokens g ∧ 0 <= d < pk_head_dim g.
Definition in_pages (g : PagedKVConfig) (l b h s d : Z) : Prop :=
  0 <= l < pk_num_layers g ∧ 0 <= b < pk_total_blocks g ∧ in_page g h s d.

(** The two page tensors have the shape of the configuration and one dtype. *)
Record pages_ok (c : TorchPagedKVCache) : Prop := {
  po_shape : ∀ v, shape (pages v c) = page_shape (pc_config c);
  po_dtype : ∀ v, dtype (pages v c) = dtype (pc_key_pages c)
}.
(** Only the contents of the pages differ. *)
Record same_meta (c c' : TorchPagedKVCache) : Prop := {
  sm_config : pc_config c' = pc_config c;
  sm_device : pc_device c' = pc_device c;
  sm_allocator : pc_allocator c' = pc_allocator c;
  sm_lengths : pc_lengths c' = pc_lengths c;
  sm_shape : ∀ v, shape (pages v c') = shape (pages v c);
  sm_dtype : ∀ v, dtype (pages v c') = dtype (pages v c)
}.
#[local] Instance same_meta_refl : Reflexive same_meta.
Proof. by split. Qed.
#[local] Instance same_meta_trans : Transitive same_meta.
Proof. intros c1 c2 c3 [] []. split; intros; congruence. Qed.
Lemma same_meta_pages_ok c c' : same_meta c c' → pages_ok c → pages_ok c'.
Proof.
  intros [] []. split; intros v; [congruence|].
  change (dtype (pages v c') = dtype (pages false c')). rewrite !sm_dtype0. apply po_dtype0.
Qed.

(** Tensors that [append] accepts: one per layer, [[heads, tokens, dim]]. *)
Definition sources_ok (c : TorchPagedKVCache) (n : Z) (ts : list tensor) : Prop :=
  Z.of_nat (length ts) = pk_num_layers (pc_config c) ∧
  ∀ t, t ∈ ts → shape t = [pk_num_kv_heads (pc_config c); n; pk_head_dim (pc_config c)] ∧
    dtype t = dtype (pc_key_pages c).
Lemma sources_ok_meta c c' n ts : same_meta c c' → sources_ok c n ts → sources_ok c' n ts.
Proof.
  intros Hm. unfold sources_ok. rewrite (sm_config _ _ Hm).
  change (pc_key_pages c') with (pages false c'). by rewrite (sm_dtype _ _ Hm).
Qed.
Definition source (ts : list tensor) (l h i d : Z) : option scalar :=
  (λ t, get t [h; i; d]) <$> ts !! Z.to_nat l.

(** ** Writing *)

Lemma bool_neqb_true v v' : v ≠ v' → v' = negb v.
Proof. by destruct v, v'. Qed.
Lemma pages_set_pages v v' t c : pages v' (set_pages v t c) = if decide (v' = v) then t else pages v' c.
Proof. by destruct v, v'. Qed.

Lemma copy_page_spec v ts c n b po so k l :
  pages_ok c → sources_ok c n ts → 0 <= l < pk_num_layers (pc_config c) →
  0 <= b < pk_total_blocks (pc_config c) → 0 <= k → 0 <= po → po + k <= pk_block_size_tokens (pc_config c) →
  0 <= so → so + k <= n →
  ∃ c', copy_page v ts b po so k l c = (inr tt, c') ∧ same_meta c c' ∧
    ∀ v' l' b' h s d, in_pages (pc_config c) l' b' h s d →
      Some (cell v' c' l' b' h s d) =
        if decide (v' = v ∧ l' = l ∧ b' = b ∧ po <= s < po + k) then source ts l h (so + (s - po)) d
        else Some (cell v' c l' b' h s d).
Proof using HL.
  intros [Hsh Hdt] [Hlen Hts] Hl Hb Hk Hpo Hpo' Hso Hso'.
  destruct (lookup_lt_is_Some_2 ts (Z.to_nat l) ltac:(lia)) as [t Ht].
  destruct (Hts t (list_elem_of_lookup_2 _ _ _ Ht)) as [Hshape Hdtype].
  destruct (copy_spec (pages v c) [At l; At b; All; Range po (po + k); All] t
    [All; Range so (so + k); All]) as (p' & Hcopy & Hs' & Hd' & _ & _ & Hget).
  { rewrite Hsh. simpl. lia. } { rewrite Hshape. simpl. lia. }
  { rewrite Hsh, Hshape. simpl. repeat (f_equal; try lia). } { rewrite Hdt. congruence. }
  exists (set_pages v p' c). split; [|split].
  - unfold copy_page, item, lift. rewrite Ht. unfold gets, modify, mbind, M_bind. by rewrite Hcopy.
  - split; try (by destruct v); intros v'; rewrite pages_set_pages; case_decide; by subst.
  - intros v' l' b' h s d Hin. unfold cell, source. rewrite pages_set_pages, Ht. simpl.
    destruct (decide (v' = v)) as [->|Hne]; [|by rewrite decide_False by tauto].
    rewrite Hget; [|rewrite Hsh; destruct Hin as (?&?&?&?&?); unfold in_shape, page_shape; repeat (apply Forall2_cons; split; [done|]); done].
    simpl. destruct (decide _) as [(_ & -> & -> & Hs)|Hn]; f_equal.
    + rewrite !Z.eqb_refl. destruct Hs as [Hs1%Z.leb_le Hs2%Z.ltb_lt]. by rewrite Hs1, Hs2.
    + destruct (l' =? l) eqn:E1; [|done]. destruct (b' =? b) eqn:E2; [|done].
      destruct ((po <=? s) && (s <? po + k)) eqn:E3; [|done]. bool_hyps. exfalso. by apply Hn.
Qed.

Definition sources (keys values : list tensor) (v : bool) : list tensor := if v then values else keys.

Lemma write_layers_spec keys values ls c n b po so k :
  pages_ok c → sources_ok c n keys → sources_ok c n values →
  (∀ l, l ∈ ls → 0 <= l < pk_num_layers (pc_config c)) → NoDup ls →
  0 <= b < pk_total_blocks (pc_config c) → 0 <= k → 0 <= po → po + k <= pk_block_size_tokens (pc_config c) →
  0 <= so → so + k <= n →
  ∃ c', for_each (λ l, _ ← copy_page false keys b po so k l; copy_page true values b po so k l) ls c
      = (inr tt, c') ∧ same_meta c c' ∧
    ∀ v l b' h s d, in_pages (pc_config c) l b' h s d →
      Some (cell v c' l b' h s d) =
        if decide (l ∈ ls ∧ b' = b ∧ po <= s < po + k)
        then source (sources keys values v) l h (so + (s - po)) d
        else Some (cell v c l b' h s d).
Proof using HL.
  intros Hok Hks Hvs Hls Hnd Hb Hk Hpo Hpo' Hso Hso'. revert c Hok Hks Hvs Hls Hb Hpo'.
  induction Hnd as [|l ls Hl _ IH]; intros c Hok Hks Hvs Hls Hb Hpo'.
  { exists c. split_and!; [done..|]. intros. rewrite decide_False; [done|].
    by intros [?%not_elem_of_nil _]. }
  destruct (copy_page_spec false keys c n b po so k l) as (c1 & E1 & M1 & G1); try done.
  { apply Hls. left. }
  destruct (copy_page_spec true values c1 n b po so k l) as (c2 & E2 & M2 & G2);
    rewrite ?(sm_config _ _ M1); try done.
  { by eapply same_meta_pages_ok. } { by eapply sources_ok_meta. } { apply Hls. left. }
  assert (same_meta c c2) as M12 by (by etransitivity).
  destruct (IH c2) as (c' & E' & M' & G'); rewrite ?(sm_config _ _ M12); try done.
  { by eapply same_meta_pages_ok. } { by eapply sources_ok_meta. } { by eapply sources_ok_meta. }
  { intros l' ?. apply Hls. by right. }
  exists c'. split_and!; [|by etransitivity|].
  - cbn [for_each]. erewrite bind_eq; [exact E'|]. erewrite bind_eq; [exact E2|exact E1].
  - intros v l' b' h s d Hin. rewrite G' by (by rewrite (sm_config _ _ M12)).
    rewrite G2 by (by rewrite (sm_config _ _ M1)). rewrite G1 by done.
    destruct (decide (b' = b ∧ po <= s < po + k)) as [Hbs|Hbs];
      [|rewrite !decide_False by tauto; done].
    destruct (decide (l' ∈ ls)) as [Hin'|Hin'].
    + rewrite !decide_True by set_solver. done.
    + rewrite (decide_False (P := l' ∈ ls ∧ _)) by tauto.
      destruct (decide (l' = l)) as [->|Hne].
      * rewrite (decide_True (P := l ∈ l :: ls ∧ _)) by set_solver.
        destruct v; [rewrite decide_True by tauto; done|].
        rewrite decide_False by (by intros []). by rewrite decide_True by tauto.
      * rewrite !decide_False by set_solver. done.
Qed.
Lemma write_page_spec keys values c n b po so k :
  pages_ok c → sources_ok c n keys → sources_ok c n values →
  0 <= b < pk_total_blocks (pc_config c) → 0 <= k → 0 <= po → po + k <= pk_block_size_tokens (pc_config c) →
  0 <= so → so + k <= n →
  ∃ c', write_page keys values (pk_num_layers (pc_config c)) b po so k c = (inr tt, c') ∧
    same_meta c c' ∧
    ∀ v l b' h s d, in_pages (pc_config c) l b' h s d →
      Some (cell v c' l b' h s d) =
        if decide (b' = b ∧ po <= s < po + k)
        then source (sources keys values v) l h (so + (s - po)) d
        else Some (cell v c l b' h s d).
Proof using HL.
  intros Hok Hk Hv Hb ?????.
  destruct (write_layers_spec keys values (seqZ 0 (pk_num_layers (pc_config c))) c n b po so k)
    as (c' & E & Hm & G); try done.
  { intros l Hl%elem_of_seqZ. lia. } { apply NoDup_seqZ. }
  exists c'. split_and!; [done..|]. intros v l b' h s d Hin. rewrite G by done.
  pose proof Hin as [Hl _]. destruct (decide (b' = b ∧ _)) as [?|?].
  - rewrite decide_True; [done|]. split; [|done]. apply elem_of_seqZ. lia.
  - by rewrite decide_False by tauto.
Qed.

Lemma write_tokens_spec fuel keys values blocks start n o c :
  let bs := pk_block_size_tokens (pc_config c) in
  pages_ok c → sources_ok c n keys → sources_ok c n values → 0 < bs → 0 <= start → 0 <= o →
  n - o <= Z.of_nat fuel → NoDup blocks → (∀ b, b ∈ blocks → 0 <= b < pk_total_blocks (pc_config c)) →
  start + n <= Z.of_nat (length blocks) * bs →
  ∃ c', write_tokens fuel keys values blocks (pk_num_layers (pc_config c)) bs start n o c = (inr tt, c') ∧
    same_meta c c' ∧
    (∀ v l b h t d, start + o <= t < start + n → blocks !! Z.to_nat (t / bs) = Some b →
       in_pages (pc_config c) l b h (t mod bs) d →
       Some (cell v c' l b h (t mod bs) d) = source (sources keys values v) l h (t - start) d) ∧
    (∀ v l b h s d, in_pages (pc_config c) l b h s d →
       (∀ t, start + o <= t < start + n → blocks !! Z.to_nat (t / bs) = Some b → t mod bs ≠ s) →
       cell v c' l b h s d = cell v c l b h s d).
Proof using HL.
  intros bs Hok Hks Hvs Hbs Hst Ho Hf Hnd Hbl Hcap. revert o c bs Hok Hks Hvs Hbs Ho Hf Hbl Hcap.
  induction fuel as [|fuel IH]; intros o c bs Hok Hks Hvs Hbs Ho Hf Hbl Hcap; cbn [write_tokens].
  { exists c. split_and!; [done..| |done]. intros. lia. }
  destruct (o <? n) eqn:E; bool_hyps; [|exists c; split_and!; [done..| |done]; intros; lia].
  cbv zeta. destruct (page_position bs (start + o)) as (Hi & Hpo & Hp); [lia..|].
  set (i := (start + o) / bs) in *. set (po := (start + o) mod bs) in *.
  set (k := Z.min (n - o) (bs - po)).
  destruct (lookup_lt_is_Some_2 blocks (Z.to_nat i)) as [b Hb]; [nia|].
  assert (b ∈ blocks) as Hbin by (by eapply list_elem_of_lookup_2).
  destruct (write_page_spec keys values c n b po o k) as (c1 & E1 & M1 & G1); auto; try (subst k; lia).
  pose proof (sm_config _ _ M1) as Hcfg.
  destruct (IH (o + k) c1) as (c' & E' & M' & A' & B'); rewrite ?Hcfg; auto; try (subst k; lia).
  { by eapply same_meta_pages_ok. } { by eapply sources_ok_meta. } { by eapply sources_ok_meta. }
  rewrite Hcfg in E', A', B'. fold bs in E', A', B'.
  assert (∀ t, start + o <= t < start + o + k → t / bs = i ∧ t mod bs = t - bs * i) as Hpage
    by (intros t Ht; apply same_page; subst k; lia).
  exists c'. split_and!.
  - unfold item. rewrite Hb. erewrite bind_eq; [|reflexivity]. by erewrite bind_eq.
  - by etransitivity.
  - intros v l b' h t d Ht Hb' Hin. destruct (decide (start + (o + k) <= t)) as [Hlt|Hlt];
      [apply A'; [lia|done|done]|].
    destruct (Hpage t) as [Hti Htm]; [lia|]. rewrite Hti in Hb'. assert (b' = b) as -> by congruence.
    rewrite B'; [|done|].
    + rewrite G1 by done. rewrite decide_True by lia. f_equal. lia.
    + intros t' Ht' Hb2 Heq. destruct (page_position bs t') as (Hi' & _ & Hp'); [lia..|].
      assert (Z.to_nat (t' / bs) = Z.to_nat i) by (by eapply NoDup_lookup). nia.
  - intros v l b' h s d Hin Hno. rewrite B'; [|done|].
    + apply (inj Some). rewrite G1 by done. rewrite decide_False; [done|]. intros [-> Hs].
      set (t := s + bs * i). destruct (Hpage t) as [Hti Htm]; [subst t; lia|].
      apply (Hno t); [subst t k; lia|by rewrite Hti|subst t; lia].
    + intros t Ht. apply Hno. subst k. lia.
Qed.

(** ** Gathering *)

(** The output tensors of [materialize]: [[rows, heads, tokens, dim]] in the dtype of the pages. *)
Definition out_ok (c : TorchPagedKVCache) (rows mx : Z) (t : tensor) : Prop :=
  shape t = [rows; pk_num_kv_heads (pc_config c); mx; pk_head_dim (pc_config c)] ∧
  dtype t = dtype (pc_key_pages c).
Definition out_page (v : bool) (out : tensor * tensor) : tensor := if v then out.2 else out.1.
Definition in_out (g : PagedKVConfig) (rows mx r h t d : Z) : Prop :=
  0 <= r < rows ∧ 0 <= h < pk_num_kv_heads g ∧ 0 <= t < mx ∧ 0 <= d < pk_head_dim g.

Lemma gather_copy_spec v c out rows mx layer row b dest k :
  pages_ok c → out_ok c rows mx out → 0 <= layer < pk_num_layers (pc_config c) →
  0 <= row < rows → 0 <= b < pk_total_blocks (pc_config c) → 0 <= dest → 0 <= k →
  k <= pk_block_size_tokens (pc_config c) → dest + k <= mx →
  ∃ out', copy_ out [At row; All; Range dest (dest + k); All] (pages v c)
            [At layer; At b; All; Range 0 k; All] = Ok out' ∧ out_ok c rows mx out' ∧
    ∀ r h t d, in_out (pc_config c) rows mx r h t d →
      get out' [r; h; t; d] =
        if decide (r = row ∧ dest <= t < dest + k) then cell v c layer b h (t - dest) d
        else get out [r; h; t; d].
Proof using HL.
  intros [Hsh Hdt] [Ho1 Ho2] Hl Hr Hb Hd Hk Hk' Hmx.
  destruct (copy_spec out [At row; All; Range dest (dest + k); All] (pages v c)
    [At layer; At b; All; Range 0 k; All]) as (p' & Hcopy & Hs' & Hd' & _ & _ & Hget).
  { rewrite Ho1. simpl. lia. } { rewrite Hsh. simpl. lia. }
  { rewrite Hsh, Ho1. simpl. repeat (f_equal; try lia). } { rewrite Hdt. congruence. }
  exists p'. split; [done|]. split; [split; congruence|]. intros r h t d (?&?&?&?).
  rewrite Hget; [|rewrite Ho1; repeat (apply Forall2_cons; split; [done|]); done].
  simpl. destruct (r =? row) eqn:E1; bool_hyps; [|rewrite decide_False by tauto; done].
  destruct ((dest <=? t) && (t <? dest + k)) eqn:E2.
  - bool_hyps. rewrite decide_True by done. unfold cell. by repeat f_equal.
  - rewrite decide_False; [done|]. intros [_ [?%Z.leb_le ?%Z.ltb_lt]].
    apply andb_false_iff in E2 as []; congruence.
Qed.

Lemma gather_blocks_spec c rows mx layer row n dest bl out :
  let bs := pk_block_size_tokens (pc_config c) in
  pages_ok c → (∀ v, out_ok c rows mx (out_page v out)) → 0 <= layer < pk_num_layers (pc_config c) →
  0 <= row < rows → (∀ b, b ∈ bl → 0 <= b < pk_total_blocks (pc_config c)) → 0 < bs → 0 <= dest →
  n <= mx → n - dest <= Z.of_nat (length bl) * bs →
  ∃ out', gather_blocks c layer row n dest bl out = Ok out' ∧
    (∀ v, out_ok c rows mx (out_page v out')) ∧
    ∀ v r h t d, in_out (pc_config c) rows mx r h t d →
      (r = row → dest <= t < n → Some (get (out_page v out') [r; h; t; d]) =
         (λ b, cell v c layer b h ((t - dest) mod bs) d) <$> bl !! Z.to_nat ((t - dest) / bs)) ∧
      (r ≠ row ∨ ¬ dest <= t < n → get (out_page v out') [r; h; t; d] = get (out_page v out) [r; h; t; d]).
Proof using HL.
  intros bs Hok Hout Hl Hr Hbl Hbs Hdest Hmx Hn. revert dest out Hout Hdest Hn.
  induction bl as [|b bl IH]; intros dest out Hout Hdest Hn; cbn [gather_blocks].
  { exists out. split_and!; [done..|]. intros v r h t d _. split; [|done]. simpl in Hn. lia. }
  cbv zeta. fold bs. set (k := Z.min bs (n - dest)).
  destruct (k <=? 0) eqn:Ek; bool_hyps.
  { exists out. split_and!; [done..|]. intros v r h t d _. split; [|done]. subst k. lia. }
  assert (0 <= b < pk_total_blocks (pc_config c)) as Hb by (apply Hbl; left).
  destruct (gather_copy_spec false c out.1 rows mx layer row b dest k) as (k' & E1 & O1 & G1);
    try done; try (subst k; lia); [exact (Hout false)|].
  destruct (gather_copy_spec true c out.2 rows mx layer row b dest k) as (v' & E2 & O2 & G2);
    try done; try (subst k; lia); [exact (Hout true)|].
  destruct (IH ltac:(intros b' ?; apply Hbl; by right) (dest + k) (k', v')) as (out' & E' & O' & G').
  { by intros []. } { subst k. lia. } { rewrite length_cons in Hn. subst k. lia. }
  change (pages false c) with (pc_key_pages c) in E1. change (pages true c) with (pc_value_pages c) in E2.
  exists out'. rewrite E1. cbn [mbind res_bind]. rewrite E2. cbn [mbind res_bind].
  split_and!; [done..|]. intros v r h t d Hin.
  assert (get (out_page v (k', v')) [r; h; t; d] =
    if decide (r = row ∧ dest <= t < dest + k) then cell v c layer b h (t - dest) d
    else get (out_page v out) [r; h; t; d]) as Hstep by (destruct v; [by apply G2|by apply G1]).
  destruct (G' v r h t d Hin) as [Ga Gb]. split.
  - intros -> Ht. destruct (decide (dest + k <= t)) as [Hlt|Hlt].
    + assert (k = bs) as Hk by (subst k; lia). rewrite Ga by lia. rewrite Hk.
      assert ((t - dest) / bs = (t - (dest + bs)) / bs + 1) as Hdiv
        by (replace (t - dest) with (t - (dest + bs) + 1 * bs) by lia; by rewrite Z.div_add by lia).
      assert ((t - dest) mod bs = (t - (dest + bs)) mod bs) as ->
        by (replace (t - dest) with (t - (dest + bs) + 1 * bs) by lia; by rewrite Z.mod_add by lia).
      pose proof (page_position bs (t - (dest + bs)) Hbs ltac:(lia)) as [? _].
      rewrite Hdiv, Z2Nat.inj_add by lia. by rewrite Nat.add_comm.
    + rewrite Gb by lia. rewrite Hstep, decide_True by lia.
      destruct (same_page bs (t - dest) 0 Hbs) as [-> ->]; [subst k; lia|].
      by rewrite Z.mul_0_r, Z.sub_0_r.
  - intros Hno. rewrite Gb by lia. rewrite Hstep. rewrite decide_False; [done|]. subst k. lia.
Qed.

(** ** The invariant *)

Definition config_ok (g : PagedKVConfig) : Prop :=
  0 < pk_total_blocks g ∧ 0 < pk_block_size_tokens g ∧ 0 < pk_num_layers g ∧
  0 < pk_num_kv_heads g ∧ 0 < pk_head_dim g.

Record paged_inv (c : TorchPagedKVCache) : Prop := {
  pi_config : config_ok (pc_config c);
  pi_pages : pages_ok c;
  pi_allocator : kv_inv (pc_allocator c);
  pi_total : kv_total_blocks (pc_allocator c) = pk_total_blocks (pc_config c);
  pi_size : kv_block_size_tokens (pc_allocator c) = pk_block_size_tokens (pc_config c);
  pi_keys : od_ok (pc_lengths c);
  (** A sequence has a length exactly when it owns a block table, and the length fits in it. *)
  pi_lengths : ∀ s n, od_get s (pc_lengths c) = Some n → ∃ blocks,
    kv_owners (pc_allocator c) !! s = Some blocks ∧
    0 <= n <= Z.of_nat (length blocks) * pk_block_size_tokens (pc_config c);
  pi_owners : ∀ s, is_Some (kv_owners (pc_allocator c) !! s) → is_Some (od_get s (pc_lengths c));
  (** No page belongs to two sequences. *)
  pi_exclusive : ∀ s s' bl bl' b, kv_owners (pc_allocator c) !! s = Some bl →
    kv_owners (pc_allocator c) !! s' = Some bl' → b ∈ bl → b ∈ bl' → s = s'
}.

(** The K or V number stored for token [t] of a sequence. *)
Definition stored (v : bool) (c : TorchPagedKVCache) (s : string) (l h t d : Z) : option scalar :=
  blocks ← kv_owners (pc_allocator c) !! s;
  b ← blocks !! Z.to_nat (t / pk_block_size_tokens (pc_config c));
  Some (cell v c l b h (t mod pk_block_size_tokens (pc_config c)) d).

Lemma owned_in_range c s bl b :
  paged_inv c → kv_owners (pc_allocator c) !! s = Some bl → b ∈ bl →
  0 <= b < pk_total_blocks (pc_config c).
Proof.
  intros Hinv Hs Hb. rewrite <- (pi_total c Hinv).
  destruct (table_allocated _ _ _ _ (pi_allocator c Hinv) Hs Hb) as (n & Hn & _).
  apply (inv_blocks _ (pi_allocator c Hinv)). right. by eexists.
Qed.
Lemma length_of_Ok s c n : length_of s c = Ok n ↔ od_get s (pc_lengths c) = Some n.
Proof. unfold length_of. destruct (od_get _ _); split; congruence. Qed.
Lemma table_Ok s a t :
  table s a = Ok t ↔ ∃ bl, kv_owners a !! s = Some bl ∧ t = mkKVTable s bl (kv_block_size_tokens a).
Proof.
  unfold table, block_table. destruct (kv_owners a !! s) as [bl|]; simpl.
  - split; [intros [= <-]; by eexists|intros (? & [= <-] & ->); done].
  - split; [done|intros (? & ? & ?); done].
Qed.

(** ** Gathering the rows of a batch *)

Lemma gather_rows_spec c rows mx layer row ids out :
  paged_inv c → 0 <= layer < pk_num_layers (pc_config c) → 0 <= row →
  row + Z.of_nat (length ids) <= rows → (∀ v, out_ok c rows mx (out_page v out.1)) →
  shape out.2 = [rows; 1; 1; mx] →
  (∀ s n, (s, n) ∈ ids → od_get s (pc_lengths c) = Some n ∧ n <= mx) →
  ∃ kv mask, gather_rows c layer row ids out = Ok (kv, mask) ∧
    (∀ v, out_ok c rows mx (out_page v kv)) ∧ shape mask = [rows; 1; 1; mx] ∧
    (∀ v r h t d, in_out (pc_config c) rows mx r h t d →
       (∀ s n, row <= r → ids !! Z.to_nat (r - row) = Some (s, n) → t < n →
          Some (get (out_page v kv) [r; h; t; d]) = stored v c s layer h t d) ∧
       ((∀ s n, row <= r → ids !! Z.to_nat (r - row) = Some (s, n) → ¬ t < n) →
          get (out_page v kv) [r; h; t; d] = get (out_page v out.1) [r; h; t; d])) ∧
    (∀ r t, 0 <= r < rows → 0 <= t < mx →
       (∀ s n, row <= r → ids !! Z.to_nat (r - row) = Some (s, n) → t < n →
          get mask [r; 0; 0; t] = one) ∧
       ((∀ s n, row <= r → ids !! Z.to_nat (r - row) = Some (s, n) → ¬ t < n) →
          get mask [r; 0; 0; t] = get out.2 [r; 0; 0; t])).
Proof using HL.
  intros Hinv Hl. revert row out. induction ids as [|[s n] ids IH]; intros row out Hrow Hlen Hout Hmask Hids.
  { destruct out as [kv mask]. exists kv, mask.
    split_and!; [done..|intros; split; [intros ???; by rewrite lookup_nil|done]|
      intros; split; [intros ???; by rewrite lookup_nil|done]]. }
  cbn [gather_rows]. rewrite length_cons in Hlen.
  destruct (Hids s n) as [Hsn Hnmx]; [left|].
  destruct (pi_lengths c Hinv s n Hsn) as (bl & Hbl & Hn).
  pose proof (pi_config c Hinv) as (_ & Hbs & _).
  assert (table s (pc_allocator c) = Ok (mkKVTable s bl (kv_block_size_tokens (pc_allocator c)))) as ->
    by (apply table_Ok; by eexists).
  cbn [mbind res_bind kt_block_ids].
  destruct (gather_blocks_spec c rows mx layer row n 0 bl out.1) as (kv1 & -> & O1 & G1); auto; try lia.
  { apply Hinv. } { intros b. by eapply owned_in_range. }
  cbn [mbind res_bind].
  destruct (fill_spec out.2 [At row; All; All; Range 0 n] one) as (m1 & -> & Hs1 & _ & _ & _ & Hg1).
  { rewrite Hmask. simpl. lia. }
  cbn [mbind res_bind].
  destruct (IH (row + 1) (kv1, m1)) as (kv & mask & -> & O2 & S2 & G2 & M2); auto; try lia.
  { simpl. congruence. } { intros s' n' ?. apply Hids. by right. }
  assert (∀ r, row + 1 <= r → ((s, n) :: ids) !! Z.to_nat (r - row) = ids !! Z.to_nat (r - (row + 1))) as Hidx.
  { intros r Hr. replace (Z.to_nat (r - row)) with (S (Z.to_nat (r - (row + 1)))) by lia. done. }
  assert (∀ r, row <= r → (r = row ∧ ((s, n) :: ids) !! Z.to_nat (r - row) = Some (s, n)) ∨ row + 1 <= r)
    as Hcase.
  { intros r Hr. destruct (decide (r = row)) as [->|]; [left; by rewrite Z.sub_diag|right; lia]. }
  exists kv, mask. split_and!; [done..| |].
  - intros v r h t d Hin. destruct (G1 v r h t d Hin) as [G1a G1b]. destruct (G2 v r h t d Hin) as [G2a G2b].
    split.
    + intros s' n' Hr Hs' Ht. destruct (Hcase r Hr) as [[-> He]|Hr'].
      * assert (s' = s ∧ n' = n) as [-> ->] by (split; congruence).
        rewrite G2b by lia. cbn [fst]. rewrite G1a by (destruct Hin as (?&?&?&?); done || lia).
        unfold stored. rewrite Hbl, Z.sub_0_r. cbn [mbind option_bind].
        by destruct (bl !! _).
      * eapply G2a; [done| |done]. by rewrite <- Hidx.
    + intros Hno. rewrite G2b; [apply G1b|].
      * destruct (decide (r = row)) as [->|]; [|by left]. right. intros [_ Ht].
        eapply (Hno s n); [lia|by rewrite Z.sub_diag|done].
      * intros s' n' Hr Hs'. apply (Hno s' n'); [lia|]. by rewrite Hidx.
  - intros r t Hr Ht. destruct (M2 r t Hr Ht) as [M2a M2b].
    assert (get m1 [r; 0; 0; t] = if decide (r = row ∧ t < n) then one else get out.2 [r; 0; 0; t]) as Hm1.
    { rewrite Hg1; [|rewrite Hmask; repeat (apply Forall2_cons; split; [done|]); done].
      simpl. destruct (r =? row) eqn:E1; bool_hyps; [|by rewrite decide_False by tauto].
      destruct ((0 <=? t) && (t <? n)) eqn:E2; bool_hyps; [by rewrite decide_True|].
      rewrite decide_False; [done|]. intros [_ Hlt]. apply andb_false_iff in E2 as [?%Z.leb_gt|?%Z.ltb_ge]; lia. }
    split.
    + intros s' n' Hrr Hs' Htn. destruct (Hcase r Hrr) as [[-> He]|Hr'].
      * assert (s' = s ∧ n' = n) as [-> ->] by (split; congruence).
        rewrite M2b by lia. cbn [snd]. rewrite Hm1. by rewrite decide_True.
      * eapply M2a; [done| |done]. by rewrite <- Hidx.
    + intros Hno. rewrite M2b; cbn [snd].
      * rewrite Hm1. rewrite decide_False; [done|]. intros [-> Hlt].
        eapply (Hno s n); [lia|by rewrite Z.sub_diag|done].
      * intros s' n' Hrr Hs'. apply (Hno s' n'); [lia|]. by rewrite Hidx.
Qed.

(** ** The operations *)

Lemma map_res_Ok {A B} (f : A → res B) xs ys :
  map_res f xs = Ok ys → Forall2 (λ x y, f x = Ok y) xs ys.
Proof.
  revert ys. induction xs as [|x xs IH]; simpl; intros ys; [by intros [= <-]|].
  intros (y & Hy & (ys' & Hys & [= <-])%bind_Ok_inv)%bind_Ok_inv. by constructor; [|apply IH].
Qed.
Lemma map_res_elem {A B} (f : A → res B) xs ys x :
  map_res f xs = Ok ys → x ∈ xs → ∃ y, f x = Ok y ∧ y ∈ ys.
Proof.
  intros Hf%map_res_Ok (i & Hi)%list_elem_of_lookup_1.
  destruct (Forall2_lookup_l _ _ _ _ _ Hf Hi) as (y & Hy & Hxy).
  exists y. split; [done|]. by eapply list_elem_of_lookup_2.
Qed.
Lemma item_Ok {A} (xs : list A) i x : item xs i = Ok x ↔ xs !! Z.to_nat i = Some x.
Proof. unfold item. destruct (xs !! _); split; congruence. Qed.

(** The tensors given to [append] have three dimensions. *)
Definition three_dims (ts : list tensor) : Prop := ∀ t, t ∈ ts → length (shape t) = 3%nat.

Lemma check_append_Ok s keys values c start n t :
  three_dims (keys ++ values) → check_append s keys values c = Ok (start, n, t) →
  sources_ok c n keys ∧ sources_ok c n values ∧ od_get s (pc_lengths c) = Some start ∧ 0 < n ∧
  table s (pc_allocator c) = Ok t ∧ start + n <= token_capacity t.
Proof.
  intros H3. unfold check_append.
  intros ([] & Hlen & H)%bind_Ok_inv. apply raise_if_Ok in Hlen. bool_hyps.
  apply bind_Ok_inv in H as (start' & Hst & H). apply length_of_Ok in Hst.
  apply bind_Ok_inv in H as (counts & Hc & H).
  apply bind_Ok_inv in H as (n' & Hn & H).
  apply bind_Ok_inv in H as ([] & Hpos & H). apply raise_if_Ok in Hpos. bool_hyps.
  apply bind_Ok_inv in H as (us & Hck & H).
  apply bind_Ok_inv in H as (t' & Ht & H).
  apply bind_Ok_inv in H as ([] & Hcap & [= <- <- <-]). apply raise_if_Ok in Hcap. bool_hyps.
  assert (∀ x, x ∈ counts → x = n') as Hall.
  { intros x Hx%elem_of_remove_dups. destruct (remove_dups counts) as [|m [|]]; simplify_eq.
    by apply list_elem_of_singleton in Hx. }
  assert (∀ u, u ∈ keys ++ values → shape u = [pk_num_kv_heads (pc_config c); n'; pk_head_dim (pc_config c)]
    ∧ dtype u = dtype (pc_key_pages c)) as Hu.
  { intros u Hu. destruct (map_res_elem _ _ _ _ Hc Hu) as (m & Hm%item_Ok & ->%Hall).
    destruct (map_res_elem _ _ _ _ Hck Hu) as ([] & Hcu & _).
    unfold check_tensor in Hcu. apply bind_Ok_inv in Hcu as (h & Hh%item_Ok & Hcu).
    apply bind_Ok_inv in Hcu as (w & Hw & Hcu).
    apply bind_Ok_inv in Hcu as ([] & Hwf & Hcu). apply raise_if_Ok in Hwf as ->.
    apply bind_Ok_inv in Hcu as ([] & _ & Hdt). apply raise_if_Ok in Hdt. bool_hyps. split; [|done].
    destruct (negb (h =? _)) eqn:Eh; [done|]. apply bind_Ok_inv in Hw as (d & Hd%item_Ok & [= Hw]).
    bool_hyps. specialize (H3 u Hu). destruct (shape u) as [|a [|b [|e [|]]]]; simpl in *; simplify_eq. done. }
  split_and!; [| |done..]; (split; [done|]); intros u Hu'; apply Hu; set_solver.
Qed.

(** [stored] depends on the tables and the pages alone. *)
Lemma stored_meta v c c' s l h t d :
  same_meta c c' → stored v c' s l h t d =
  (blocks ← kv_owners (pc_allocator c) !! s;
   b ← blocks !! Z.to_nat (t / pk_block_size_tokens (pc_config c));
   Some (cell v c' l b h (t mod pk_block_size_tokens (pc_config c)) d)).
Proof. intros Hm. unfold stored. by rewrite (sm_config _ _ Hm), (sm_allocator _ _ Hm). Qed.
Lemma paged_inv_meta c c' : same_meta c c' → paged_inv c → paged_inv c'.
Proof.
  intros Hm []. pose proof (sm_config _ _ Hm). pose proof (sm_allocator _ _ Hm).
  pose proof (sm_lengths _ _ Hm).
  split; rewrite ?H, ?H0, ?H1; try done. by eapply same_meta_pages_ok.
Qed.
Lemma paged_inv_length c s n bl :
  paged_inv c → kv_owners (pc_allocator c) !! s = Some bl →
  0 <= n <= Z.of_nat (length bl) * pk_block_size_tokens (pc_config c) →
  paged_inv (c <| pc_lengths ::= od_set s n |>).
Proof.
  intros [] Hs Hn. split; simpl; try done.
  - by destruct pi_pages0; split.
  - by apply od_set_ok.
  - intros s' n'. rewrite od_get_set. case_decide as Hd; [|auto]. intros [= ->]. rewrite Hd. by exists bl.
  - intros s' ?. rewrite od_get_set. case_decide; [by eexists|auto].
Qed.

Lemma append_spec s keys values c :
  paged_inv c → three_dims (keys ++ values) →
  match append s keys values c with
  | (inl e, c') => c' = c
  | (inr ps, c') => ∃ start n,
      od_get s (pc_lengths c) = Some start ∧ 0 < n ∧ sources_ok c n keys ∧ sources_ok c n values ∧
      ps_tokens ps = start + n ∧ paged_inv c' ∧ pc_config c' = pc_config c ∧
      pc_allocator c' = pc_allocator c ∧ pc_lengths c' = od_set s (start + n) (pc_lengths c) ∧
      ∀ v s' l h t d m, 0 <= l < pk_num_layers (pc_config c) → 0 <= h < pk_num_kv_heads (pc_config c) →
        0 <= d < pk_head_dim (pc_config c) →
        (start <= t < start + n →
           stored v c' s l h t d = source (sources keys values v) l h (t - start) d) ∧
        (od_get s' (pc_lengths c) = Some m → 0 <= t < m → stored v c' s' l h t d = stored v c s' l h t d)
  end.
Proof using HL.
  intros Hinv H3. unfold append. rewrite (bind_eq _ _ c _ c) by reflexivity.
  destruct (check_append s keys values c) as [[[start n] t]|e] eqn:Ec; [|done].
  rewrite (bind_eq _ _ c (start, n, t) c) by reflexivity.
  apply check_append_Ok in Ec as (Hks & Hvs & Hst & Hn & Ht & Hcap); [|done].
  apply table_Ok in Ht as (bl & Hbl & ->). unfold token_capacity in Hcap. simpl in Hcap |- *.
  rewrite (pi_size c Hinv) in Hcap.
  destruct (pi_lengths c Hinv s start Hst) as (? & [= <-]%(transitivity (symmetry Hbl)) & Hstart).
  pose proof (pi_config c Hinv) as (_ & Hbs & _).
  assert (NoDup bl) as Hnd by (by eapply (inv_tables _ (pi_allocator c Hinv))).
  destruct (write_tokens_spec (Z.to_nat n) keys values bl start n 0 c) as (c' & E & Hm & Ha & Hb); auto;
    try lia; [apply Hinv|intros b; by eapply owned_in_range|].
  rewrite (bind_eq _ _ c (pc_config c) c) by reflexivity. rewrite (bind_eq _ _ c tt c') by exact E.
  set (c'' := c' <| pc_lengths ::= od_set s (start + n) |>).
  rewrite (bind_eq _ _ c' tt c'') by reflexivity.
  assert (paged_inv c') as Hinv' by (by eapply paged_inv_meta).
  exists start, n. split_and!; try done.
  - eapply (paged_inv_length _ _ _ bl); rewrite ?(sm_allocator _ _ Hm), ?(sm_config _ _ Hm); [done..|lia].
  - apply Hm.
  - apply Hm.
  - simpl. by rewrite (sm_lengths _ _ Hm).
  - intros v s' l h t d m Hl Hh Hd. change (stored v c'') with (stored v c').
    rewrite !(stored_meta _ _ _ _ _ _ _ _ Hm). rewrite Hbl. cbn [mbind option_bind].
    split.
    + intros Ht. destruct (page_position (pk_block_size_tokens (pc_config c)) t) as (Hi & Hp & Hpos); [lia..|].
      destruct (lookup_lt_is_Some_2 bl (Z.to_nat (t / pk_block_size_tokens (pc_config c)))) as [b Hbt]; [nia|].
      rewrite Hbt. cbn [mbind option_bind]. apply Ha; [lia|done|].
      split; [done|]. split; [|by split]. eapply owned_in_range; [done..|]. by eapply list_elem_of_lookup_2.
    + intros Hm' Ht. unfold stored.
      destruct (kv_owners (pc_allocator c) !! s') as [bl'|] eqn:Hbl'; [|done]. cbn [mbind option_bind].
      destruct (bl' !! _) as [b|] eqn:Hb'; [|done]. cbn [mbind option_bind]. f_equal.
      destruct (page_position (pk_block_size_tokens (pc_config c)) t) as (Hi & Hp & Hpos); [lia..|].
      assert (b ∈ bl') as Hin by (by eapply list_elem_of_lookup_2).
      apply Hb; [split; [done|]; split; [by eapply owned_in_range|by split]|].
      intros t' Ht' Hbt' Heq. destruct (decide (s' = s)) as [->|Hne].
      * assert (bl' = bl) as -> by congruence. assert (m = start) as -> by congruence.
        destruct (page_position (pk_block_size_tokens (pc_config c)) t') as (Hi' & _ & Hpos'); [lia..|].
        pose proof (NoDup_lookup _ _ _ _ Hnd Hb' Hbt'). nia.
      * apply Hne. eapply (pi_exclusive c Hinv); [done..|]. by eapply list_elem_of_lookup_2.
Qed.

(** Ownership after a step of the allocator that keeps the block count and size. *)
Lemma paged_inv_allocator c a :
  paged_inv c → kv_inv a → kv_step (pc_allocator c) a →
  (∀ s n, od_get s (pc_lengths c) = Some n → ∃ blocks, kv_owners a !! s = Some blocks ∧
    0 <= n <= Z.of_nat (length blocks) * pk_block_size_tokens (pc_config c)) →
  (∀ s, is_Some (kv_owners a !! s) → is_Some (od_get s (pc_lengths c))) →
  (∀ s s' bl bl' b, kv_owners a !! s = Some bl → kv_owners a !! s' = Some bl' →
     b ∈ bl → b ∈ bl' → s = s') →
  paged_inv (c <| pc_allocator := a |>).
Proof.
  intros [] Ha [Ht Hs]%kv_step_sizes Hl Ho He. split; simpl; try done; [|congruence..].
  by destruct pi_pages0; split.
Qed.

Lemma allocate_spec s n c :
  paged_inv c →
  match allocate s n c with
  | (r, c') => paged_inv c' ∧ pc_config c' = pc_config c ∧
      match r with
      | inl _ => pc_lengths c' = pc_lengths c
      | inr ps => od_get s (pc_lengths c) = None ∧ pc_lengths c' = od_set s 0 (pc_lengths c) ∧
          ps_tokens ps = 0
      end ∧
      ∀ v s' l h t d, is_Some (od_get s' (pc_lengths c)) → stored v c' s' l h t d = stored v c s' l h t d
  end.
Proof.
  intros Hinv. unfold allocate, lift. destruct (n <=? 0) eqn:En; [by cbn; split_and!|].
  cbn [raise_if]. rewrite (bind_eq _ _ c tt c) by reflexivity.
  pose proof (allocate_owners s n (pc_allocator c)) as Ho.
  pose proof (kv_inv_allocate (pc_allocator c) s n (pi_allocator c Hinv)) as Hi.
  pose proof (kv_allocate (pc_allocator c) s n) as Hstep.
  destruct (KVCache.allocate s n (pc_allocator c)) as [[blocks|e] a] eqn:Ea; simpl in Hi, Hstep;
    specialize (Ho _ _ eq_refl); simpl in Ho.
  - destruct Ho as [Hs Ho].
    set (c1 := c <| pc_allocator := a |>). set (c2 := c1 <| pc_lengths ::= od_set s 0 |>).
    rewrite (bind_eq _ _ c blocks c1) by (unfold allocator_allocate; by rewrite Ea).
    rewrite (bind_eq _ _ c1 tt c2) by reflexivity. rewrite (bind_eq _ _ c2 a c2) by reflexivity.
    assert (table s a = Ok (mkKVTable s blocks (kv_block_size_tokens a))) as Et
      by (apply table_Ok; exists blocks; by rewrite Ho, lookup_insert_eq).
    rewrite Et. rewrite (bind_eq _ _ c2 (mkKVTable s blocks (kv_block_size_tokens a)) c2) by reflexivity.
    assert (od_get s (pc_lengths c) = None) as Hnone.
    { destruct (od_get s (pc_lengths c)) as [m|] eqn:Em; [|done].
      destruct (pi_lengths c Hinv s m Em) as (? & ? & _). congruence. }
    assert (∀ s', is_Some (od_get s' (pc_lengths c)) → kv_owners a !! s' = kv_owners (pc_allocator c) !! s')
      as Hold by (intros s' [? ?]; rewrite Ho, lookup_insert_ne; [done|congruence]).
    apply allocate_Ok in Ea as (required & _ & _ & _ & Hbl & _).
    assert (∀ s' bl b, kv_owners (pc_allocator c) !! s' = Some bl → b ∈ bl → b ∈ blocks → False) as Hfree.
    { intros s' bl b Hs' Hb Hb'. rewrite Hbl in Hb'. apply elem_of_take_in in Hb'.
      pose proof (free_unowned _ _ (pi_allocator c Hinv) Hb') as Hz.
      by apply (owner_count_zero _ _ _ _ Hz Hs'). }
    destruct (kv_step_sizes _ _ Hstep) as [Ht Hz]. destruct Hinv.
    assert (paged_inv c2) as Hinv2.
    { split; simpl; try done; try congruence.
      - by destruct pi_pages0; split.
      - by apply od_set_ok.
      - intros s' m. rewrite od_get_set. case_decide as Hd.
        + intros [= <-]. rewrite Hd. exists blocks. rewrite Ho, lookup_insert_eq. destruct pi_config0 as (_&?&_).
          split; [done|nia].
        + intros Hm. rewrite Hold by (by eexists). auto.
      - intros s'. rewrite Ho, od_get_set, lookup_insert. repeat case_decide; subst; try done; auto.
      - intros s1 s2 bl1 bl2 b. rewrite Ho, !lookup_insert.
        repeat case_decide; intros; simplify_eq; try done; [exfalso; eauto..|eauto]. }
    split_and!; [done..|]. intros v s' l h t d Hs'. unfold stored. cbn [pc_allocator c2]. simpl.
    by rewrite Hold.
  - rewrite (bind_raise _ _ c e (c <| pc_allocator := a |>)) by (unfold allocator_allocate; by rewrite Ea).
    split_and!; try done; [|intros; unfold stored; simpl; by rewrite Ho].
    destruct Hinv. by eapply paged_inv_allocator; rewrite ?Ho.
Qed.

Lemma release_run s c :
  paged_inv c → ∃ b c', release s c = (inr b, c') ∧ paged_inv c' ∧ pc_config c' = pc_config c ∧
    pc_lengths c' = od_del s (pc_lengths c) ∧
    ∀ v s' l h t d, s' ≠ s → stored v c' s' l h t d = stored v c s' l h t d.
Proof.
  intros Hinv. destruct (release_owners s _ (pi_allocator c Hinv)) as (b & a & Hr & Ho & Ha).
  exists b, (c <| pc_lengths ::= od_del s |> <| pc_allocator := a |>). unfold release. simpl. rewrite Hr.
  destruct (kv_step_sizes _ _ (kv_release _ _ _ _ Hr)) as [Ht Hz]. destruct Hinv.
  split_and!; [done| |done..|].
  - split; simpl; try done; try congruence.
    + by destruct pi_pages0; split.
    + by apply od_del_ok.
    + intros s' m. rewrite od_get_del, Ho. case_decide; [done|]. rewrite lookup_delete_ne by done. auto.
    + intros s'. rewrite od_get_del, Ho. case_decide; [subst; by rewrite lookup_delete_eq|].
      rewrite lookup_delete_ne by done. auto.
    + intros s1 s2 bl1 bl2 b'. rewrite Ho. intros [_ ?]%lookup_delete_Some [_ ?]%lookup_delete_Some. eauto.
  - intros v s' l h t d Hne. unfold stored. simpl. by rewrite Ho, lookup_delete_ne.
Qed.

(** ** The abstract cache *)

(** What a token stores: its number for key ([false]) or value ([true]), layer, head, dimension. *)
Abbreviation Token := (bool → Z → Z → Z → scalar).
(** The tokens of the tensors given to [append], in order. *)
Definition tokens_of (keys values : list tensor) : list Token :=
  let count := default 0 (head keys ≫= λ t, shape t !! 1%nat) in
  (λ i v l h d, default zero (source (sources keys values v) l h i d)) <$> seqZ 0 count.

(** The calls of clients. *)
Inductive call :=
| Allocate (s : string) (capacity : Z)
| Append (s : string) (keys values : list tensor)
| Release (s : string).
Definition succeeds {A} (m : Eff TorchPagedKVCache PyErr A) (c : TorchPagedKVCache) : bool :=
  match (m c).1 with inr _ => true | inl _ => false end.
Definition run_call (o : call) (c : TorchPagedKVCache) : TorchPagedKVCache :=
  match o with
  | Allocate s n => (allocate s n c).2
  | Append s keys values => (append s keys values c).2
  | Release s => (release s c).2
  end.
(** The specification: each sequence is the list of its tokens, and a call that fails does nothing. *)
Definition spec_call (o : call) (c : TorchPagedKVCache) (m : gmap string (list Token))
  : gmap string (list Token) :=
  match o with
  | Allocate s n => if succeeds (allocate s n) c then <[s := []]> m else m
  | Append s keys values =>
    if succeeds (append s keys values) c
    then <[s := default [] (m !! s) ++ tokens_of keys values]> m else m
  | Release s => delete s m
  end.
Definition call_ok (o : call) : Prop :=
  match o with Append _ keys values => three_dims (keys ++ values) | _ => True end.
Inductive paged_run (g : PagedKVConfig) : TorchPagedKVCache → gmap string (list Token) → Prop :=
| paged_run_init c : TorchPagedKVCache_init g = Ok c → paged_run g c ∅
| paged_run_call c m o :
    paged_run g c m → call_ok o → paged_run g (run_call o c) (spec_call o c m).

(** The pages hold the tokens. *)
Record represents (c : TorchPagedKVCache) (m : gmap string (list Token)) : Prop := {
  rep_lengths : ∀ s, od_get s (pc_lengths c) = (λ toks, Z.of_nat (length toks)) <$> m !! s;
  rep_tokens : ∀ s toks i tok v l h d, m !! s = Some toks → toks !! i = Some tok →
    0 <= l < pk_num_layers (pc_config c) → 0 <= h < pk_num_kv_heads (pc_config c) →
    0 <= d < pk_head_dim (pc_config c) → stored v c s l h (Z.of_nat i) d = Some (tok v l h d)
}.

Lemma tokens_of_lookup c n keys values :
  0 < n → config_ok (pc_config c) → sources_ok c n keys → sources_ok c n values →
  Z.of_nat (length (tokens_of keys values)) = n ∧
  ∀ i tok v l h d, tokens_of keys values !! i = Some tok → 0 <= l < pk_num_layers (pc_config c) →
    source (sources keys values v) l h (Z.of_nat i) d = Some (tok v l h d).
Proof.
  intros Hn (_ & _ & Hl & _) [Hk1 Hk2] [Hv1 Hv2].
  assert (default 0 (head keys ≫= λ t, shape t !! 1%nat) = n) as Hcount.
  { destruct keys as [|t keys]; simpl in Hk1; [lia|]. simpl.
    by destruct (Hk2 t (list_elem_of_here _ _)) as [-> _]. }
  unfold tokens_of. rewrite Hcount. split; [rewrite length_fmap, length_seqZ; lia|].
  intros i tok v l h d Hi Hlr. apply list_lookup_fmap_Some in Hi as (j & -> & Hj).
  apply lookup_seqZ in Hj as [-> Hi]. rewrite Z.add_0_l.
  assert (Z.of_nat (length (sources keys values v)) = pk_num_layers (pc_config c)) as Hlen by (by destruct v).
  destruct (lookup_lt_is_Some_2 (sources keys values v) (Z.to_nat l)) as [t Ht]; [lia|].
  unfold source. rewrite Ht. done.
Qed.

Lemma paged_init g c :
  config_ok g → TorchPagedKVCache_init g = Ok c → paged_inv c ∧ pc_config c = g ∧ represents c ∅.
Proof using HL.
  intros Hg. unfold TorchPagedKVCache_init.
  intros (? & _ & (? & _ & (a & Ha & [= <-])%bind_Ok_inv)%bind_Ok_inv)%bind_Ok_inv.
  assert (kv_inv a) as Hinv by (eapply kv_reachable_inv, kv_reach_init, Ha).
  unfold KVBlockAllocator_init in Ha. apply bind_Ok_inv in Ha as (? & _ & Ha).
  apply bind_Ok_inv in Ha as (? & _ & [= <-]).
  split_and!; [|done|by split; simpl; intros; [rewrite lookup_empty|]].
  split; try done; simpl.
  - split; intros []; simpl; by destruct (empty_meta (page_shape g) (pk_dtype g) (pk_device g)).
  - constructor.
  - intros s [? ?%lookup_empty_Some]. done.
Qed.

Lemma append_represents s keys values c m :
  paged_inv c → three_dims (keys ++ values) → represents c m →
  paged_inv (append s keys values c).2 ∧
  pc_config (append s keys values c).2 = pc_config c ∧
  represents (append s keys values c).2 (spec_call (Append s keys values) c m).
Proof using HL.
  intros Hinv H3 [Hrl Hrt]. pose proof (append_spec s keys values c Hinv H3) as Ha.
  simpl. unfold succeeds. destruct (append s keys values c) as [[e|ps] c']; simpl in *; [by subst|].
  destruct Ha as (start & n & Hst & Hn & Hks & Hvs & _ & Hinv' & Hcfg & _ & Hlen & Hsto).
  destruct (tokens_of_lookup c n keys values Hn (pi_config c Hinv) Hks Hvs) as [Htl Htok].
  split_and!; [done..|]. pose proof (Hrl s) as Hs. rewrite Hst in Hs.
  destruct (m !! s) as [toks|] eqn:Em; [|done]. simpl in Hs. injection Hs as ->. simpl.
  split; rewrite ?Hcfg.
  - intros s'. rewrite Hlen, od_get_set, lookup_insert.
    destruct (decide (s' = s)) as [->|]; [|by rewrite decide_False by done].
    rewrite decide_True by done. simpl. f_equal. rewrite length_app. lia.
  - intros s' toks' i tok v l h d Hs' Hi Hl Hh Hd.
    destruct (decide (s = s')) as [<-|Hne].
    + rewrite lookup_insert_eq in Hs'. injection Hs' as <-.
      apply lookup_app_Some in Hi as [Hi|[Hge Hi]].
      * pose proof (lookup_lt_Some _ _ _ Hi).
        rewrite (proj2 (Hsto v s l h (Z.of_nat i) d (Z.of_nat (length toks)) Hl Hh Hd)); [by eapply Hrt|done|lia].
      * pose proof (lookup_lt_Some _ _ _ Hi).
        rewrite (proj1 (Hsto v s l h (Z.of_nat i) d 0 Hl Hh Hd)) by lia.
        rewrite <- (Htok _ _ v l h d Hi Hl). f_equal. lia.
    + rewrite lookup_insert_ne in Hs' by done. pose proof (lookup_lt_Some _ _ _ Hi).
      rewrite (proj2 (Hsto v s' l h (Z.of_nat i) d (Z.of_nat (length toks')) Hl Hh Hd));
        [by eapply Hrt|by rewrite Hrl, Hs'|lia].
Qed.
Lemma allocate_represents s n c m :
  paged_inv c → represents c m →
  paged_inv (allocate s n c).2 ∧ pc_config (allocate s n c).2 = pc_config c ∧
  represents (allocate s n c).2 (spec_call (Allocate s n) c m).
Proof.
  intros Hinv [Hrl Hrt]. pose proof (allocate_spec s n c Hinv) as Ha.
  simpl. unfold succeeds. destruct (allocate s n c) as [r c']; simpl.
  destruct Ha as (Hinv' & Hcfg & Hr & Hsto). split_and!; [done..|].
  assert (∀ s' toks, m !! s' = Some toks → is_Some (od_get s' (pc_lengths c))) as Hold
    by (intros s' toks Hs'; rewrite Hrl, Hs'; by eexists).
  destruct r as [e|ps]; split; rewrite ?Hcfg.
  - intros s'. by rewrite Hr.
  - intros. rewrite Hsto by (by eapply Hold). by eapply Hrt.
  - intros s'. destruct Hr as (_ & -> & _). rewrite od_get_set, lookup_insert.
    destruct (decide (s' = s)) as [->|]; [by rewrite decide_True|by rewrite decide_False].
  - intros s' toks i tok v l h d Hs' Hi Hl Hh Hd. destruct (decide (s = s')) as [<-|Hne].
    + rewrite lookup_insert_eq in Hs'. injection Hs' as <-. done.
    + rewrite lookup_insert_ne in Hs' by done. rewrite Hsto by (by eapply Hold). by eapply Hrt.
Qed.
Lemma release_represents s c m :
  paged_inv c → represents c m →
  paged_inv (release s c).2 ∧ pc_config (release s c).2 = pc_config c ∧
  represents (release s c).2 (delete s m).
Proof.
  intros Hinv [Hrl Hrt]. destruct (release_run s c Hinv) as (b & c' & -> & Hinv' & Hcfg & Hlen & Hsto).
  simpl. split_and!; [done..|]. split; rewrite ?Hcfg.
  - intros s'. rewrite Hlen, od_get_del, lookup_delete.
    destruct (decide (s' = s)) as [->|]; [by rewrite decide_True|by rewrite decide_False].
  - intros s' toks i tok v l h d [Hne Hs']%lookup_delete_Some Hi Hl Hh Hd.
    rewrite Hsto by congruence. by eapply Hrt.
Qed.
Lemma paged_run_represents g c m :
  config_ok g → paged_run g c m → paged_inv c ∧ pc_config c = g ∧ represents c m.
Proof using HL.
  intros Hg. induction 1 as [c Hc|c m o _ (Hinv & Hcfg & Hrep) Ho]; [by apply paged_init|].
  rewrite <- Hcfg.
  destruct o as [s n|s keys values|s]; [by apply allocate_represents|by apply append_represents|].
  by apply release_represents.
Qed.

Lemma map_res_total {A B} (f : A → res B) (g : A → B) xs :
  (∀ x, x ∈ xs → f x = Ok (g x)) → map_res f xs = Ok (g <$> xs).
Proof.
  induction xs as [|x xs IH]; intros Hf; [done|]. simpl. rewrite Hf by left. simpl.
  rewrite IH; [done|]. intros y Hy. apply Hf. by right.
Qed.
Lemma zip_fmap_r {A B} (g : A → B) xs : zip xs (g <$> xs) = (λ x, (x, g x)) <$> xs.
Proof. induction xs as [|x xs IH]; [done|]. rewrite !fmap_cons. simpl. f_equal. exact IH. Qed.
Lemma py_max_Z xs n : py_max Z.ltb xs = Some n → n ∈ xs ∧ ∀ x, x ∈ xs → x <= n.
Proof.
  intros H. split; [by apply (py_max_elem _ _ _ H)|]. intros x Hx.
  apply Z.ltb_ge. revert x Hx. apply (py_max_spec Z.ltb (λ _, True)); try done.
  - intros ? _. apply Z.ltb_irrefl.
  - intros ??? _ _ _ ?%Z.ltb_ge ?%Z.ltb_ge. apply Z.ltb_ge. lia.
  - intros ?? _ _ ?%Z.ltb_lt. apply Z.ltb_ge. lia.
  - by apply Forall_true.
Qed.

(** What the batch holds for token [t] of a sequence: the token, or padding. *)
Definition padded (toks : list Token) (v : bool) (layer h t d : Z) : scalar :=
  match toks !! Z.to_nat t with Some tok => tok v layer h d | None => zero end.

Lemma materialize_spec c m layer ids :
  paged_inv c → represents c m → 0 <= layer < pk_num_layers (pc_config c) → NoDup ids →
  (∀ s, s ∈ ids → is_Some (m !! s)) → (∃ s toks, s ∈ ids ∧ m !! s = Some toks ∧ toks ≠ []) →
  ∃ out mask n, materialize layer ids c = Ok (out, mask) ∧
    (∀ v, out_ok c (Z.of_nat (length ids)) n (out_page v out)) ∧
    shape mask = [Z.of_nat (length ids); 1; 1; n] ∧
    ∀ row s toks, ids !! row = Some s → m !! s = Some toks →
      Z.of_nat (length toks) <= n ∧
      (∀ v h t d, 0 <= h < pk_num_kv_heads (pc_config c) → 0 <= t < n → 0 <= d < pk_head_dim (pc_config c) →
         get (out_page v out) [Z.of_nat row; h; t; d] = padded toks v layer h t d) ∧
      (∀ t, 0 <= t < n →
         get mask [Z.of_nat row; 0; 0; t] = if t <? Z.of_nat (length toks) then one else zero).
Proof using HL.
  intros Hinv [Hrl Hrt] Hl Hnd Hids (s0 & toks0 & Hs0 & Hm0 & Hne).
  set (len := λ s, default 0 (od_get s (pc_lengths c))).
  assert (∀ s toks, m !! s = Some toks → len s = Z.of_nat (length toks)) as Hlen
    by (intros s toks Hs; unfold len; by rewrite Hrl, Hs).
  destruct (py_max Z.ltb (len <$> ids)) as [n|] eqn:En;
    [|apply py_max_None, fmap_nil_inv in En; subst; by apply not_elem_of_nil in Hs0].
  pose proof (py_max_Z _ _ En) as [_ Hmax].
  assert (∀ s, s ∈ ids → len s <= n) as Hle by (intros s Hs; apply Hmax, list_elem_of_fmap; eauto).
  assert (0 < n) as Hn.
  { specialize (Hle s0 Hs0). rewrite (Hlen _ _ Hm0) in Hle. destruct toks0; [done|]. simpl in Hle. lia. }
  set (rows := Z.of_nat (length ids)).
  set (oshape := [rows; pk_num_kv_heads (pc_config c); n; pk_head_dim (pc_config c)]).
  set (k0 := zeros oshape (dtype (pc_key_pages c)) (pk_device (pc_config c))).
  set (v0 := zeros oshape (dtype k0) (device k0)).
  set (m0 := zeros [rows; 1; 1; n] "bool" (pk_device (pc_config c))).
  destruct (gather_rows_spec c rows n layer 0 ((λ s, (s, len s)) <$> ids) (k0, v0, m0))
    as (out & mask & E & Ho & Hs & Hg & Hk); try done.
  { rewrite length_fmap. lia. }
  { intros []; unfold out_ok; simpl; [|apply zeros_meta].
    pose proof (zeros_meta oshape (dtype (pc_key_pages c)) (pk_device (pc_config c))) as [_ Hd].
    fold k0 in Hd. rewrite <- Hd. apply zeros_meta. }
  { apply zeros_meta. }
  { intros s n' (s' & [= -> ->] & Hs')%list_elem_of_fmap. split; [|by apply Hle].
    destruct (Hids s' Hs') as [toks Htoks]. by rewrite (Hlen _ _ Htoks), Hrl, Htoks. }
  exists out, mask, n. split_and!; [|done..|].
  - unfold materialize. rewrite (proj2 (Z.leb_le _ _)), (proj2 (Z.ltb_lt _ _)) by lia.
    cbn [raise_if negb andb mbind res_bind].
    assert (bool_decide (ids = []) = false) as Hnil.
    { apply bool_decide_eq_false_2. intros E0. rewrite E0 in Hs0. by apply not_elem_of_nil in Hs0. }
    rewrite Hnil.
    cbn [raise_if mbind res_bind]. rewrite bool_decide_eq_true_2 by done. cbn [raise_if negb mbind res_bind].
    rewrite (map_res_total _ len) by (intros s Hs'; apply length_of_Ok;
      destruct (Hids s Hs') as [toks Htoks]; by rewrite (Hlen _ _ Htoks), Hrl, Htoks).
    cbn [mbind res_bind]. rewrite En. cbn [default from_option id]. rewrite (proj2 (Z.leb_gt _ _)) by lia.
    cbn [raise_if mbind res_bind]. rewrite zip_fmap_r. exact E.
  - intros row s toks Hrow Hs'. pose proof (lookup_lt_Some _ _ _ Hrow) as Hlt.
    assert (s ∈ ids) as Hin by (by eapply list_elem_of_lookup_2).
    specialize (Hlen _ _ Hs'). pose proof (Hle s Hin) as Hsn. rewrite Hlen in Hsn.
    assert (((λ s, (s, len s)) <$> ids) !! Z.to_nat (Z.of_nat row - 0) = Some (s, Z.of_nat (length toks))) as Hi
      by (rewrite Z.sub_0_r, Nat2Z.id, list_lookup_fmap, Hrow; simpl; by rewrite Hlen).
    split_and!; [done| |].
    + intros v h t d Hh Ht Hd. destruct (Hg v (Z.of_nat row) h t d) as [Ga Gb]; [repeat split; lia|].
      unfold padded. destruct (toks !! Z.to_nat t) as [tok|] eqn:Et.
      * pose proof (lookup_lt_Some _ _ _ Et). apply (inj Some). rewrite (Ga _ _ ltac:(lia) Hi) by lia.
        replace t with (Z.of_nat (Z.to_nat t)) by lia. by eapply Hrt.
      * apply lookup_ge_None in Et. rewrite Gb; [|intros s' n' _ Hi'; rewrite Hi in Hi'; simplify_eq; lia].
        destruct v; apply zeros_get; repeat (apply Forall2_cons; split; [lia|]); done.
    + intros t Ht. destruct (Hk (Z.of_nat row) t) as [Ka Kb]; [lia..|].
      destruct (t <? Z.of_nat (length toks)) eqn:Et; bool_hyps; [by eapply Ka; [lia|done|lia]|].
      rewrite Kb; [|intros s' n' _ Hi'; rewrite Hi in Hi'; simplify_eq; lia].
      apply zeros_get. repeat (apply Forall2_cons; split; [lia|]). done.
Qed.

(** ** Properties *)

(** C19: The paged cache is a faithful store of token lists: after any sequence of [allocate],
    [append] and [release] calls, successful or not, [materialize] succeeds on every non-empty batch
    of distinct live sequences with stored tokens, and returns for every row exactly the tokens
    appended to that sequence, in order, in the key and value tensors, padded with zeros, and a mask
    that is true exactly on the stored tokens. *)
Theorem paged_kv_refines g c m layer ids :
  config_ok g → paged_run g c m → 0 <= layer < pk_num_layers g → NoDup ids →
  (∀ s, s ∈ ids → is_Some (m !! s)) → (∃ s toks, s ∈ ids ∧ m !! s = Some toks ∧ toks ≠ []) →
  ∃ keys values mask n, materialize layer ids c = Ok (keys, values, mask) ∧
    shape keys = [Z.of_nat (length ids); pk_num_kv_heads g; n; pk_head_dim g] ∧
    shape values = shape keys ∧ shape mask = [Z.of_nat (length ids); 1; 1; n] ∧
    ∀ row s toks, ids !! row = Some s → m !! s = Some toks →
      Z.of_nat (length toks) <= n ∧
      (∀ h t d, 0 <= h < pk_num_kv_heads g → 0 <= t < n → 0 <= d < pk_head_dim g →
         get keys [Z.of_nat row; h; t; d] = padded toks false layer h t d ∧
         get values [Z.of_nat row; h; t; d] = padded toks true layer h t d) ∧
      (∀ t, 0 <= t < n →
         get mask [Z.of_nat row; 0; 0; t] = if t <? Z.of_nat (length toks) then one else zero).
Proof using HL.
  intros Hg (Hinv & <- & Hrep)%paged_run_represents Hl Hnd Hids Hex; [|done].
  destruct (materialize_spec c m layer ids Hinv Hrep Hl Hnd Hids Hex)
    as ([keys values] & mask & n & E & Ho & Hs & H).
  exists keys, values, mask, n. destruct (Ho false) as [Hk _]. destruct (Ho true) as [Hv _].
  simpl in Hk, Hv. split_and!; [done|done|by rewrite Hk|done|].
  intros row s toks Hrow Hm. destruct (H row s toks Hrow Hm) as (? & Hget & ?).
  split_and!; [done| |done]. intros h t d Hh Ht Hd.
  split; [by apply (Hget false)|by apply (Hget true)].
Qed.
End paged.

(** ** Witness *)

(** Four pages of two tokens, one layer, one head of dimension two, over [FunTorch]. *)
#[local] Existing Instance FunTorch.
#[local] Existing Instance FunTorch_laws.
Definition sample_paged_config : PagedKVConfig := mkPagedKVConfig 4 2 1 1 2 "cpu" "float32".
Definition sample_tensor (n base : Z) : tensor :=
  mkFunTensor [1; n; 2] "float32" "cpu" (λ p, match p with [_; t; d] => base + 10 * t + d | _ => 0 end).
Definition sample_calls : list call :=
  [Allocate "a" 3; Allocate "b" 2; Append "a" [sample_tensor 1 100] [sample_tensor 1 500];
   Append "b" [sample_tensor 1 200] [sample_tensor 1 600]; Append "a" [sample_tensor 2 300] [sample_tensor 2 700];
   Append "b" [sample_tensor 2 0] [sample_tensor 2 0]].
Definition sample_run : TorchPagedKVCache * gmap string (list (bool → Z → Z → Z → scalar)) :=
  foldl (λ p o, (run_call o p.1, spec_call o p.1 p.2))
    (match TorchPagedKVCache_init sample_paged_config with
     | Ok c => c | Err _ => mkPaged sample_paged_config (sample_tensor 0 0) (sample_tensor 0 0) "" sample_kv []
     end, ∅) sample_calls.

Lemma sample_paged_run : paged_run sample_paged_config sample_run.1 sample_run.2.
Proof.
  unfold sample_run, sample_calls. cbn [foldl fst snd].
  repeat (apply paged_run_call; [|try done;
    by intros t [->|[->|?%not_elem_of_nil]%elem_of_cons]%elem_of_cons]).
  apply paged_run_init. vm_compute. reflexivity.
Qed.

(** The last append does not fit and changes nothing; the batch of both sequences holds three tokens
    of [a] and one of [b]. *)
Lemma paged_kv_refines_witness :
  length <$> sample_run.2 !! "a" = Some 3%nat ∧ length <$> sample_run.2 !! "b" = Some 1%nat ∧
  ∃ keys values mask n, materialize 0 ["a"; "b"] sample_run.1 = Ok (keys, values, mask) ∧
    shape mask = [2; 1; 1; n].
Proof.
  assert (length <$> sample_run.2 !! "a" = Some 3%nat) as Ha by (vm_compute; reflexivity).
  assert (length <$> sample_run.2 !! "b" = Some 1%nat) as Hb by (vm_compute; reflexivity).
  pose proof sample_paged_run as Hr. revert Ha Hb Hr.
  generalize sample_run.1, sample_run.2. intros c m Ha Hb Hr.
  split; [done|]. split; [done|].
  destruct (fmap_Some_1 _ _ _ Ha) as (ta & Ea & Hta). destruct (fmap_Some_1 _ _ _ Hb) as (tb & Eb & _).
  destruct (paged_kv_refines (HL := FunTorch_laws) sample_paged_config c m 0 ["a"; "b"])
    as (keys & values & mask & n & E & _ & _ & Hs & _); [by repeat split|done|done| | | |by eauto 6].
  - by apply (bool_decide_unpack _).
  - intros s [->|[->|?%not_elem_of_nil]%elem_of_cons]%elem_of_cons;
      [by exists ta|by exists tb|done].
  - exists "a", ta. split_and!; [left|done|]. intros ->. discriminate.
Defined.
Example sample_paged_rows :
  match materialize 0 ["a"; "b"] sample_run.1 with
  | Ok (k, v, mask) =>
    ((λ t, get k [0; 0; t; 1]) <$> [0; 1; 2], (λ t, get v [1; 0; t; 0]) <$> [0; 1; 2],
     (λ t, get mask [1; 0; 0; t]) <$> [0; 1; 2]) = ([101; 301; 311], [600; 0; 0], [1; 0; 0])
  | Err _ => False
  end.
Proof. vm_compute. reflexivity. Qed.
