(* ===== verification/PrefixCache.v ===== *)
(** [inference/prefix_cache.py]: the bounded LRU cache of prompt prefixes, an ordered
    dictionary of entries indexed by a radix tree over token identifiers. *)
From S2P Require Import Prelude PyContainers PyFloat.

#[local] Open Scope string_scope.
#[local] Open Scope list_scope.
#[local] Open Scope Z_scope.
#[local] Set Warnings "-register-all".

Section prefix_cache.
(** The backend's snapshot of a prefix, opaque to the cache. *)
Context {B : Type}.

(** ** State *)

Record PrefixCacheEntry := mkEntry { pe_token_ids : list Z; pe_backend_state : B }.
Definition token_count (e : PrefixCacheEntry) : Z := Z.of_nat (length (pe_token_ids e)).
Record PrefixMatch := mkMatch { pm_token_ids : list Z; pm_backend_state : B; pm_exact : bool }.
Definition matched_tokens (m : PrefixMatch) : Z := Z.of_nat (length (pm_token_ids m)).

Inductive RadixNode := Node (children : gmap Z RadixNode) (entry : option PrefixCacheEntry).
Definition rn_children (n : RadixNode) : gmap Z RadixNode := let 'Node c _ := n in c.
Definition rn_entry (n : RadixNode) : option PrefixCacheEntry := let 'Node _ e := n in e.
Definition empty_node : RadixNode := Node ∅ None.

Record PrefixCache := mkPrefixCache {
  pc_max_entries : Z;
  pc_max_tokens : Z;
  pc_entries : list (list Z * PrefixCacheEntry);
  pc_root : RadixNode;
  pc_cached_tokens : Z;
  pc_hits : Z;
  pc_misses : Z;
  pc_insertions : Z;
  pc_evictions : Z;
  pc_bypasses : Z;
  pc_exact_hits : Z;
  pc_partial_hits : Z;
  pc_matched_tokens : Z
}.
#[export] Instance eta_PrefixCache : Eta PrefixCache := λ c,
  mkPrefixCache (pc_max_entries c) (pc_max_tokens c) (pc_entries c) (pc_root c)
    (pc_cached_tokens c) (pc_hits c) (pc_misses c) (pc_insertions c) (pc_evictions c)
    (pc_bypasses c) (pc_exact_hits c) (pc_partial_hits c) (pc_matched_tokens c).

Record PrefixCacheSnapshot := mkPrefixSnapshot {
  ps_entries : Z; ps_cached_tokens : Z; ps_max_entries : Z; ps_max_tokens : Z;
  ps_hits : Z; ps_misses : Z; ps_insertions : Z; ps_evictions : Z; ps_bypasses : Z;
  ps_exact_hits : Z; ps_partial_hits : Z; ps_matched_tokens : Z
}.
Definition hit_rate (s : PrefixCacheSnapshot) : float :=
  let lookups := ps_hits s + ps_misses s in
  if lookups =? 0 then f_zero else f_ratio (ps_hits s) lookups.

(** ** Operations *)

Definition PrefixCache_init (max_entries max_tokens : Z) : res PrefixCache :=
  _ ← raise_if ((max_entries <? 0) || (max_tokens <? 0))
    (ValueError "prefix cache limits must be non-negative");
  _ ← raise_if (negb (Bool.eqb (negb (max_entries =? 0)) (negb (max_tokens =? 0))))
    (ValueError "prefix cache entry and token limits must both be zero or positive");
  Ok (mkPrefixCache max_entries max_tokens [] empty_node 0 0 0 0 0 0 0 0 0).

Definition enabled (c : PrefixCache) : bool := 0 <? pc_max_entries c.

(** The descent of [longest_prefix]: the last entry met on the path of [token_ids]. *)
Fixpoint descend (token_ids : list Z) (node : RadixNode) (entry : option PrefixCacheEntry)
  : option PrefixCacheEntry :=
  match token_ids with
  | [] => entry
  | t :: ts =>
    match rn_children node !! t with
    | None => entry
    | Some child =>
      descend ts child (match rn_entry child with Some e => Some e | None => entry end)
    end
  end.

Definition longest_prefix (token_ids : list Z) (exact_only : bool) (c : PrefixCache)
  : res (option PrefixMatch) * PrefixCache :=
  if negb (enabled c) then (Ok None, c <| pc_bypasses ::= λ n, n + 1 |>) else
  let entry := descend token_ids (pc_root c) None in
  let entry :=
    match entry with
    | Some e =>
      if exact_only && negb (bool_decide (pe_token_ids e = token_ids)) then None else Some e
    | None => None
    end in
  match entry with
  | None => (Ok None, c <| pc_misses ::= λ n, n + 1 |>)
  | Some e =>
    if negb (od_has (pe_token_ids e) (pc_entries c)) then (Err (KeyError "move_to_end"), c) else
    let exact := bool_decide (pe_token_ids e = token_ids) in
    (Ok (Some (mkMatch (pe_token_ids e) (pe_backend_state e) exact)),
     c <| pc_entries ::= od_move_to_end (pe_token_ids e) |>
       <| pc_hits ::= λ n, n + 1 |>
       <| pc_exact_hits ::= λ n, n + if exact then 1 else 0 |>
       <| pc_partial_hits ::= λ n, n + if exact then 0 else 1 |>
       <| pc_matched_tokens ::= λ n, n + token_count e |>)
  end.

Definition get (token_ids : list Z) (c : PrefixCache) : res (option B) * PrefixCache :=
  let '(r, c) := longest_prefix token_ids true c in
  (match r with Ok m => Ok (pm_backend_state <$> m) | Err e => Err e end, c).

(** [put]'s walk down the tree, creating the missing nodes with [setdefault]. *)
Fixpoint insert_entry (token_ids : list Z) (e : PrefixCacheEntry) (node : RadixNode) : RadixNode :=
  match token_ids with
  | [] => Node (rn_children node) (Some e)
  | t :: ts =>
    let child := default empty_node (rn_children node !! t) in
    Node (<[t := insert_entry ts e child]> (rn_children node)) (rn_entry node)
  end.

(** A node with neither entry nor children, which [_remove_radix_entry] unlinks. *)
Definition is_bare (n : RadixNode) : bool :=
  bool_decide (rn_entry n = None) && Nat.eqb (size (rn_children n)) 0.
(** [None] when the path is missing. The loop over [reversed(path)] is the way back up: it
    unlinks bare nodes and stops at the first one that is not, whose ancestors have a child. *)
Fixpoint unlink (token_ids : list Z) (node : RadixNode) : option RadixNode :=
  match token_ids with
  | [] => Some (Node (rn_children node) None)
  | t :: ts =>
    child ← rn_children node !! t;
    child' ← unlink ts child;
    Some (Node (if is_bare child' then delete t (rn_children node)
                else <[t := child']> (rn_children node)) (rn_entry node))
  end.
Definition remove_radix_entry (token_ids : list Z) (root : RadixNode) : RadixNode :=
  default root (unlink token_ids root).

(** The eviction loop, on the entries from the least recently used. *)
Fixpoint evict (entries : list (list Z * PrefixCacheEntry)) (c : PrefixCache) : res PrefixCache :=
  if (pc_max_entries c <? Z.of_nat (length entries)) || (pc_max_tokens c <? pc_cached_tokens c) then
    match entries with
    | [] => Err (KeyError "dictionary is empty")
    | (evicted_key, evicted) :: entries' =>
      evict entries'
        (c <| pc_cached_tokens ::= λ n, n - token_count evicted |>
           <| pc_evictions ::= λ n, n + 1 |>
           <| pc_root ::= remove_radix_entry evicted_key |>)
    end
  else Ok (c <| pc_entries := entries |>).

(** [put] before its eviction loop. *)
Definition put_entry (token_ids : list Z) (backend_state : B) (c : PrefixCache) : PrefixCache :=
  let c := match od_get token_ids (pc_entries c) with
           | Some replaced =>
             c <| pc_entries ::= od_del token_ids |>
               <| pc_cached_tokens ::= λ n, n - token_count replaced |>
           | None => c
           end in
  let entry := mkEntry token_ids backend_state in
  c <| pc_entries ::= od_set token_ids entry |>
    <| pc_root ::= insert_entry token_ids entry |>
    <| pc_cached_tokens ::= λ n, n + token_count entry |>
    <| pc_insertions ::= λ n, n + 1 |>.

Definition put (token_ids : list Z) (backend_state : B) (c : PrefixCache)
  : res (bool * PrefixCache) :=
  _ ← raise_if (bool_decide (token_ids = []))
    (ValueError "a cached prefix must contain at least one token");
  if negb (enabled c) || (pc_max_tokens c <? Z.of_nat (length token_ids))
  then Ok (false, c <| pc_bypasses ::= λ n, n + 1 |>)
  else
    let c := put_entry token_ids backend_state c in
    c ← evict (pc_entries c) c;
    Ok (od_has token_ids (pc_entries c), c).

Definition clear (c : PrefixCache) : PrefixCache :=
  c <| pc_entries := [] |> <| pc_root := empty_node |> <| pc_cached_tokens := 0 |>.

Definition snapshot (c : PrefixCache) : PrefixCacheSnapshot :=
  mkPrefixSnapshot (Z.of_nat (length (pc_entries c))) (pc_cached_tokens c) (pc_max_entries c)
    (pc_max_tokens c) (pc_hits c) (pc_misses c) (pc_insertions c) (pc_evictions c)
    (pc_bypasses c) (pc_exact_hits c) (pc_partial_hits c) (pc_matched_tokens c).

(** ** Specification *)

Fixpoint find_node (token_ids : list Z) (node : RadixNode) : option RadixNode :=
  match token_ids with
  | [] => Some node
  | t :: ts => child ← rn_children node !! t; find_node ts child
  end.
Definition radix_lookup (token_ids : list Z) (node : RadixNode) : option PrefixCacheEntry :=
  node' ← find_node token_ids node; rn_entry node'.
(** Every node below the root carries an entry or leads to one. *)
Definition pruned (node : RadixNode) : Prop :=
  ∀ t ts node', find_node (t :: ts) node = Some node' → is_bare node' = false.

Definition entry_tokens (entries : list (list Z * PrefixCacheEntry)) : Z :=
  zsum (λ p, token_count p.2) entries.
(** The tree and the dictionary hold the same entries, and the token count is exact. *)
Record consistent (entries : list (list Z * PrefixCacheEntry)) (c : PrefixCache) : Prop := {
  con_ok : od_ok entries;
  con_keys : ∀ k e, (k, e) ∈ entries → pe_token_ids e = k ∧ k ≠ [];
  con_tree : ∀ k, radix_lookup k (pc_root c) = od_get k entries;
  con_pruned : pruned (pc_root c);
  con_tokens : pc_cached_tokens c = entry_tokens entries
}.
Definition over_limit (c : PrefixCache) (entries : list (list Z * PrefixCacheEntry)) : Prop :=
  pc_max_entries c < Z.of_nat (length entries) ∨ pc_max_tokens c < entry_tokens entries.
Record prefix_inv (c : PrefixCache) : Prop := {
  pinv_consistent : consistent (pc_entries c) c;
  pinv_limits : ¬ over_limit c (pc_entries c);
  pinv_max : 0 <= pc_max_entries c ∧ 0 <= pc_max_tokens c
}.

Inductive prefix_step : PrefixCache → PrefixCache → Prop :=
| prefix_lookup c ts exact_only : prefix_step c (longest_prefix ts exact_only c).2
| prefix_get c ts : prefix_step c (get ts c).2
| prefix_put c ts b r c' : put ts b c = Ok (r, c') → prefix_step c c'
| prefix_clear c : prefix_step c (clear c).
Inductive prefix_reachable (max_entries max_tokens : Z) : PrefixCache → Prop :=
| prefix_init c : PrefixCache_init max_entries max_tokens = Ok c →
    prefix_reachable max_entries max_tokens c
| prefix_next c c' : prefix_reachable max_entries max_tokens c → prefix_step c c' →
    prefix_reachable max_entries max_tokens c'.

(** ** The radix tree *)

Lemma find_node_empty t ts : find_node (t :: ts) empty_node = None.
Proof. simpl. by rewrite lookup_empty. Qed.
Lemma radix_lookup_cons t ts n :
  radix_lookup (t :: ts) n = (child ← rn_children n !! t; radix_lookup ts child).
Proof. unfold radix_lookup. simpl. by destruct (rn_children n !! t). Qed.
Lemma is_bare_true n : is_bare n = true ↔ rn_entry n = None ∧ rn_children n = ∅.
Proof.
  unfold is_bare. rewrite andb_true_iff, bool_decide_eq_true, Nat.eqb_eq.
  by rewrite map_size_empty_iff.
Qed.
Lemma radix_lookup_bare n k : is_bare n = true → radix_lookup k n = None.
Proof.
  intros [He Hc]%is_bare_true. destruct k; [done|]. by rewrite radix_lookup_cons, Hc, lookup_empty.
Qed.
Lemma is_bare_entry c e : is_bare (Node c (Some e)) = false.
Proof. done. Qed.
Lemma is_bare_child n t child : rn_children n !! t = Some child → is_bare n = false.
Proof.
  intros H. apply not_true_iff_false. intros [_ Hc]%is_bare_true.
  rewrite Hc in H. by rewrite lookup_empty in H.
Qed.
Lemma insert_entry_not_bare ts e n : is_bare (insert_entry ts e n) = false.
Proof.
  destruct ts as [|t ts]; [done|]. apply (is_bare_child _ t (insert_entry ts e
    (default empty_node (rn_children n !! t)))). simpl. by rewrite lookup_insert_eq.
Qed.

Lemma radix_lookup_insert ts e n k :
  radix_lookup k (insert_entry ts e n) = if decide (k = ts) then Some e else radix_lookup k n.
Proof.
  revert n k. induction ts as [|t ts IH]; intros n [|t' k].
  - done.
  - rewrite decide_False, !radix_lookup_cons by done. done.
  - rewrite decide_False by done. done.
  - rewrite !radix_lookup_cons. simpl. rewrite lookup_insert. case_decide as Ht; subst; simpl.
    + rewrite IH. destruct (decide (k = ts)) as [->|Hk].
      * by rewrite decide_True.
      * rewrite decide_False by congruence. destruct (rn_children n !! t'); [done|].
        simpl. by apply radix_lookup_bare.
    + rewrite decide_False by congruence. done.
Qed.
Lemma pruned_child n t child : pruned n → rn_children n !! t = Some child → pruned child.
Proof.
  intros Hp Hc t' ts node' Hf. apply (Hp t (t' :: ts)). simpl. by rewrite Hc.
Qed.
Lemma pruned_children n :
  pruned n ↔ ∀ t child, rn_children n !! t = Some child → is_bare child = false ∧ pruned child.
Proof.
  split.
  - intros Hp t child Hc. split; [|by eapply pruned_child].
    apply (Hp t []). simpl. by rewrite Hc.
  - intros H t ts node' Hf. cbn [find_node] in Hf.
    destruct (rn_children n !! t) as [child|] eqn:Hc; [|done]. simpl in Hf.
    destruct (H _ _ Hc) as [Hb Hp]. destruct ts as [|t' ts]; [simpl in Hf; congruence|eauto].
Qed.
Lemma pruned_empty : pruned empty_node.
Proof. apply pruned_children. simpl. intros t child. by rewrite lookup_empty. Qed.
Lemma pruned_insert ts e n : pruned n → pruned (insert_entry ts e n).
Proof.
  revert n. induction ts as [|t ts IH]; intros n Hp; apply pruned_children; simpl.
  - by apply pruned_children.
  - intros t' child. rewrite lookup_insert. case_decide.
    + intros [= <-]. split; [apply insert_entry_not_bare|]. apply IH. subst.
      destruct (rn_children n !! t') eqn:E; simpl; [by eapply pruned_child|apply pruned_empty].
    + by apply pruned_children.
Qed.

Lemma unlink_spec ts n :
  match unlink ts n with
  | None => radix_lookup ts n = None
  | Some n' =>
    (∀ k, radix_lookup k n' = if decide (k = ts) then None else radix_lookup k n) ∧
    (pruned n → pruned n')
  end.
Proof.
  revert n. induction ts as [|t ts IH]; intros n; cbn [unlink].
  - split.
    + intros [|t k]; [done|]. rewrite decide_False by done. by rewrite !radix_lookup_cons.
    + intros Hp. apply pruned_children. simpl. by apply pruned_children.
  - rewrite radix_lookup_cons. destruct (rn_children n !! t) as [child|] eqn:Hc; simpl; [|done].
    specialize (IH child). destruct (unlink ts child) as [child'|]; simpl; [|done].
    destruct IH as [IHl IHp]. split.
    + intros [|t' k]; [by rewrite decide_False|]. rewrite !radix_lookup_cons. simpl.
      destruct (decide (t' = t)) as [->|Ht].
      * rewrite Hc. simpl. destruct (is_bare child') eqn:Hb.
        { rewrite lookup_delete_eq. simpl. specialize (IHl k).
          rewrite radix_lookup_bare in IHl by done.
          destruct (decide (k = ts)), (decide (t :: k = t :: ts)); congruence. }
        rewrite lookup_insert_eq. simpl. rewrite IHl.
        destruct (decide (k = ts)), (decide (t :: k = t :: ts)); congruence.
      * rewrite decide_False by congruence.
        destruct (is_bare child'); [by rewrite lookup_delete_ne|by rewrite lookup_insert_ne].
    + intros Hp. apply pruned_children. simpl. intros t' c'.
      pose proof (proj1 (pruned_children n) Hp) as Hch. destruct (is_bare child') eqn:Hb.
      * rewrite lookup_delete. case_decide; [done|]. apply Hch.
      * rewrite lookup_insert. case_decide; [|apply Hch]. intros [= <-].
        split; [done|]. apply IHp. by eapply pruned_child.
Qed.
Lemma radix_lookup_remove ts n k :
  radix_lookup k (remove_radix_entry ts n) = if decide (k = ts) then None else radix_lookup k n.
Proof.
  unfold remove_radix_entry. pose proof (unlink_spec ts n) as H.
  destruct (unlink ts n); simpl; [apply H|]. case_decide; congruence.
Qed.
Lemma pruned_remove ts n : pruned n → pruned (remove_radix_entry ts n).
Proof.
  unfold remove_radix_entry. pose proof (unlink_spec ts n) as H.
  destruct (unlink ts n); simpl; [apply H|done].
Qed.

(** [descend] returns the entry of the longest prefix that has one. *)
Lemma descend_spec ts n best :
  (∃ k r e, ts = k ++ r ∧ radix_lookup k n = Some e ∧ descend ts n best = Some e ∧ k ≠ [] ∧
     ∀ k' r', ts = k' ++ r' → radix_lookup k' n ≠ None → (length k' <= length k)%nat) ∨
  (descend ts n best = best ∧ ∀ k r, ts = k ++ r → k ≠ [] → radix_lookup k n = None).
Proof.
  revert n best. induction ts as [|t ts IH]; intros n best; cbn [descend].
  - right. split; [done|]. intros [|] r Hk ?; done.
  - destruct (rn_children n !! t) as [child|] eqn:Hc.
    + destruct (IH child (match rn_entry child with Some e => Some e | None => best end))
        as [(k & r & e & -> & Hk & Hd & Hne & Hmax)|[Hd Hnone]].
      * left. exists (t :: k), r, e. rewrite radix_lookup_cons, Hc. split_and!; try done.
        intros [|t' k'] r' Heq; simpl; [lia|]. injection Heq as <- Heq.
        rewrite radix_lookup_cons, Hc. simpl. intros H. apply le_n_S. by eapply Hmax.
      * rewrite Hd. destruct (rn_entry child) as [e|] eqn:He.
        { left. exists [t], ts, e. rewrite radix_lookup_cons, Hc. simpl. split_and!; try done.
          intros [|t' [|t'' k']] r' Heq; simpl; try lia. injection Heq as <- Heq.
          rewrite radix_lookup_cons, Hc. simpl. rewrite (Hnone (t'' :: k') r') by done. done. }
        right. split; [done|]. intros [|t' k'] r' Heq ?; [done|]. injection Heq as <- Heq.
        rewrite radix_lookup_cons, Hc. simpl. destruct k' as [|t'' k']; [done|].
        by apply (Hnone _ r').
    + right. split; [done|]. intros [|t' k] r Heq ?; [done|]. injection Heq as <- _.
      by rewrite radix_lookup_cons, Hc.
Qed.

(** ** The dictionary and the eviction loop *)

Lemma entry_tokens_app es es' : entry_tokens (es ++ es') = entry_tokens es + entry_tokens es'.
Proof. apply zsum_app. Qed.
Lemma entry_tokens_cons p es : entry_tokens (p :: es) = token_count p.2 + entry_tokens es.
Proof. done. Qed.
Lemma consistent_tail k e es c c' :
  consistent ((k, e) :: es) c →
  pc_root c' = remove_radix_entry k (pc_root c) →
  pc_cached_tokens c' = pc_cached_tokens c - token_count e → consistent es c'.
Proof.
  intros [Hok Hkeys Htree Hp Htok] Hr Ht. split.
  - by apply od_ok_cons in Hok as [_ ?].
  - intros k' e' Hin. apply Hkeys. by right.
  - intros k'. rewrite Hr, radix_lookup_remove, Htree.
    pose proof (od_get_del ((k, e) :: es) k k') as H. by rewrite od_del_head in H.
  - rewrite Hr. by apply pruned_remove.
  - rewrite Ht, Htok, entry_tokens_cons. simpl. lia.
Qed.
Lemma consistent_ext es c c' :
  pc_root c' = pc_root c → pc_cached_tokens c' = pc_cached_tokens c →
  consistent es c → consistent es c'.
Proof. intros H1 H2 []. split; rewrite ?H1, ?H2; done. Qed.

Lemma over_limitb es c :
  consistent es c →
  (pc_max_entries c <? Z.of_nat (length es)) || (pc_max_tokens c <? pc_cached_tokens c) = true
    ↔ over_limit c es.
Proof.
  intros [_ _ _ _ ->]. unfold over_limit. by rewrite orb_true_iff, !Z.ltb_lt.
Qed.

Lemma evict_spec es c k e :
  consistent (es ++ [(k, e)]) c → token_count e <= pc_max_tokens c → 1 <= pc_max_entries c →
  ∃ c' evicted kept, evict (es ++ [(k, e)]) c = Ok c' ∧ es = evicted ++ kept ∧
    pc_entries c' = kept ++ [(k, e)] ∧ consistent (pc_entries c') c' ∧
    ¬ over_limit c' (pc_entries c') ∧ pc_max_entries c' = pc_max_entries c ∧
    pc_max_tokens c' = pc_max_tokens c ∧
    ∀ x ev, evicted = ev ++ [x] → over_limit c (x :: kept ++ [(k, e)]).
Proof.
  revert c. induction es as [|[k0 e0] es IH]; intros c Hcon Htok Hent; cbn [evict app].
  - pose proof (over_limitb _ _ Hcon) as Hb. case_head.
    { exfalso. destruct (proj1 Hb Heqb) as [H|H]; simpl in H; [lia|].
      unfold entry_tokens, zsum in H. simpl in H. lia. }
    eexists _, [], []. split_and!; try done.
    + by apply (consistent_ext _ c).
    + simpl. intros H. apply Hb in H. cbn [app] in H. congruence.
    + intros x [] ?; done.
  - pose proof (over_limitb _ _ Hcon) as Hb. case_head.
    + match goal with |- context [evict _ ?c1] => set (c1' := c1) end.
      assert (consistent (es ++ [(k, e)]) c1') as Hcon1
        by (eapply consistent_tail; [exact Hcon|done|done]).
      destruct (IH c1' Hcon1 Htok Hent) as (c' & ev & kept & He & -> & Hk & Hc & Hl & H1 & H2 & H3).
      exists c', ((k0, e0) :: ev), kept. split_and!; try done.
      intros x ev' Heq. destruct ev' as [|y ev']; simpl in Heq.
      * simplify_eq. by apply Hb.
      * simplify_eq. by eapply (H3 x ev').
    + eexists _, [], ((k0, e0) :: es). split_and!; try done.
      * by apply (consistent_ext _ c).
      * simpl. intros H. apply Hb in H. cbn [app] in H. congruence.
      * intros x [] ?; done.
Qed.

(** ** The invariant *)

Definition cache_entry (token_ids : list Z) (b : B) := mkEntry token_ids b.

Lemma consistent_set es c k b :
  consistent es c → k ≠ [] → od_get k es = None →
  consistent (es ++ [(k, cache_entry k b)])
    (c <| pc_root ::= insert_entry k (cache_entry k b) |>
       <| pc_cached_tokens ::= λ n, n + token_count (cache_entry k b) |>).
Proof.
  intros [Hok Hkeys Htree Hp Htok] Hne Hk. rewrite <- od_set_new by done. split; simpl.
  - auto with odict.
  - intros k' e'. rewrite od_set_new by done. intros [Hin|Hin]%elem_of_app; [auto|].
    apply list_elem_of_singleton in Hin as [= -> ->]. done.
  - intros k'. by rewrite radix_lookup_insert, od_get_set, Htree.
  - by apply pruned_insert.
  - rewrite od_set_new, entry_tokens_app, Htok by done. unfold entry_tokens at 3, zsum. simpl. lia.
Qed.
(** A replaced entry leaves the dictionary before its tree node is overwritten. *)
Lemma consistent_replace es c k b e :
  consistent es c → k ≠ [] → od_get k es = Some e →
  consistent (od_del k es ++ [(k, cache_entry k b)])
    (c <| pc_root ::= insert_entry k (cache_entry k b) |>
       <| pc_cached_tokens ::= λ n, n - token_count e + token_count (cache_entry k b) |>).
Proof.
  intros [Hok Hkeys Htree Hp Htok] Hne Hk.
  assert (od_get k (od_del k es) = None) as Hn by (by rewrite od_get_del, decide_True).
  rewrite <- od_set_new by done. split; simpl.
  - auto with odict.
  - intros k' e'. rewrite od_set_new by done. intros [Hin|Hin]%elem_of_app.
    + apply Hkeys. by apply list_elem_of_filter in Hin as [_ ?].
    + apply list_elem_of_singleton in Hin as [= -> ->]. done.
  - intros k'. rewrite radix_lookup_insert, od_get_set, od_get_del, Htree.
    by case_decide.
  - by apply pruned_insert.
  - rewrite od_set_new, entry_tokens_app, Htok by done. unfold entry_tokens at 2.
    rewrite (zsum_od_del _ _ k e) by done. unfold entry_tokens, zsum. simpl. lia.
Qed.

Lemma put_entry_spec ts b c :
  consistent (pc_entries c) c → ts ≠ [] →
  pc_entries (put_entry ts b c) = od_del ts (pc_entries c) ++ [(ts, cache_entry ts b)] ∧
  consistent (pc_entries (put_entry ts b c)) (put_entry ts b c) ∧
  pc_max_entries (put_entry ts b c) = pc_max_entries c ∧
  pc_max_tokens (put_entry ts b c) = pc_max_tokens c.
Proof.
  intros Hcon Hne. unfold put_entry. destruct (od_get ts (pc_entries c)) as [e|] eqn:Hg; simpl.
  - rewrite od_set_new by (by rewrite od_get_del, decide_True). split_and!; try done.
    eapply consistent_ext; [| |by apply (consistent_replace _ _ _ b e Hcon Hne Hg)]; done.
  - rewrite od_set_new, od_del_id by done. split_and!; try done.
    eapply consistent_ext; [| |by apply (consistent_set _ _ _ b Hcon Hne Hg)]; done.
Qed.

Lemma put_spec ts b c :
  prefix_inv c → enabled c = true → ts ≠ [] → Z.of_nat (length ts) <= pc_max_tokens c →
  ∃ c' evicted kept, put ts b c = Ok (true, c') ∧ prefix_inv c' ∧
    od_del ts (pc_entries c) = evicted ++ kept ∧
    pc_entries c' = kept ++ [(ts, cache_entry ts b)] ∧
    ∀ x ev, evicted = ev ++ [x] → over_limit c (x :: kept ++ [(ts, cache_entry ts b)]).
Proof.
  intros [Hcon Hlim Hmax] Hen Hne Hlen. unfold put. rewrite bool_decide_eq_false_2 by done.
  cbn [raise_if mbind res_bind]. rewrite Hen. cbn [negb orb]. rewrite (proj2 (Z.ltb_ge _ _) Hlen). unfold enabled in Hen. bool_hyps.
  destruct (put_entry_spec ts b c Hcon Hne) as (Hes & Hcon0 & Hm1 & Hm2).
  rewrite Hes in Hcon0. cbv zeta. rewrite Hes.
  destruct (evict_spec _ (put_entry ts b c) _ _ Hcon0) as (c' & ev & kept & -> & Hd & Hk & Hc & Hl & H1 & H2 & H3);
    [rewrite Hm2; done|lia|].
  exists c', ev, kept. simpl. split_and!; try done.
  - do 2 f_equal. unfold od_has. apply bool_decide_eq_true_2.
    rewrite (od_elem_get _ ts (cache_entry ts b)); [eauto|apply Hc|].
    rewrite Hk. apply elem_of_app. right. apply list_elem_of_singleton. done.
  - split; [done|done|lia].
  - intros x ev' Hev. specialize (H3 x ev' Hev). unfold over_limit in *. by rewrite <- Hm1, <- Hm2.
Qed.
Lemma prefix_inv_move k c :
  prefix_inv c → prefix_inv (c <| pc_entries ::= od_move_to_end k |>).
Proof.
  intros [[Hok Hkeys Htree Hp Htok] Hlim Hmax]. pose proof (od_move_to_end_perm _ k Hok) as Hperm.
  split; [|unfold over_limit in *|done]; simpl.
  - split; simpl; try done.
    + auto with odict.
    + intros k' e'. rewrite Hperm. apply Hkeys.
    + intros k'. by rewrite od_get_move_to_end.
    + rewrite Htok. unfold entry_tokens. by rewrite (zsum_perm _ _ _ Hperm).
  - unfold entry_tokens in *. by rewrite (zsum_perm _ _ _ Hperm), Hperm.
Qed.
(** The counters are not part of the invariant. *)
Lemma prefix_inv_ext c c' :
  pc_entries c' = pc_entries c → pc_root c' = pc_root c →
  pc_cached_tokens c' = pc_cached_tokens c → pc_max_entries c' = pc_max_entries c →
  pc_max_tokens c' = pc_max_tokens c → prefix_inv c → prefix_inv c'.
Proof.
  intros H1 H2 H3 H4 H5 [[] Hlim Hmax]. unfold over_limit in *.
  split; [split|unfold over_limit|]; rewrite ?H1, ?H2, ?H3, ?H4, ?H5; done.
Qed.

Definition is_prefix (k ts : list Z) : Prop := ∃ r, ts = k ++ r.
(** What [descend] finds, in terms of the dictionary. *)
Lemma descend_entries ts c :
  prefix_inv c →
  match descend ts (pc_root c) None with
  | Some e => od_get (pe_token_ids e) (pc_entries c) = Some e ∧ is_prefix (pe_token_ids e) ts ∧
      ∀ k, is_prefix k ts → od_get k (pc_entries c) ≠ None → (length k <= length (pe_token_ids e))%nat
  | None => ∀ k, is_prefix k ts → od_get k (pc_entries c) = None
  end.
Proof.
  intros [[Hok Hkeys Htree Hp Htok] _ _].
  destruct (descend_spec ts (pc_root c) None) as [(k & r & e & -> & Hk & -> & Hne & Hmax)|[-> Hn]].
  - rewrite Htree in Hk. destruct (Hkeys k e) as [<- _]; [by apply od_get_elem|].
    split_and!; [done|by exists r|]. intros k' [r' Heq] Hk'. apply (Hmax k' r' Heq). by rewrite Htree.
  - intros k [r ->]. destruct k as [|t k].
    + apply eq_None_not_Some. intros [e He%od_get_elem]. by apply Hkeys in He as [_ ?].
    + rewrite <- Htree. by apply (Hn _ r).
Qed.

Lemma longest_prefix_inv ts exact_only c : prefix_inv c → prefix_inv (longest_prefix ts exact_only c).2.
Proof.
  intros Hinv. unfold longest_prefix.
  repeat case_head; simpl; try done; try (by apply (prefix_inv_ext c));
    (eapply prefix_inv_ext; [..|apply (prefix_inv_move (pe_token_ids p) c Hinv)]; simpl; done).
Qed.
Lemma get_inv ts c : prefix_inv c → prefix_inv (get ts c).2.
Proof.
  intros Hinv. unfold get. pose proof (longest_prefix_inv ts true c Hinv) as H.
  by destruct (longest_prefix ts true c).
Qed.
Lemma put_inv ts b c r c' : put ts b c = Ok (r, c') → prefix_inv c → prefix_inv c'.
Proof.
  intros H Hinv. assert (ts ≠ []) as Hne.
  { intros ->. unfold put in H. by rewrite bool_decide_eq_true_2 in H. }
  destruct (enabled c && (Z.of_nat (length ts) <=? pc_max_tokens c)) eqn:E.
  - bool_hyps. destruct (put_spec ts b c) as (c1 & ? & ? & Hp & ? & _); try done. congruence.
  - unfold put in H. rewrite bool_decide_eq_false_2 in H by done.
    assert (negb (enabled c) || (pc_max_tokens c <? Z.of_nat (length ts)) = true) as Hb.
    { destruct (enabled c); simpl in *; bool_hyps; [lia|done]. }
    cbn [raise_if mbind res_bind] in H. rewrite Hb in H. simplify_eq.
    by apply (prefix_inv_ext c).
Qed.
Lemma clear_inv c : prefix_inv c → prefix_inv (clear c).
Proof.
  intros [_ _ [H1 H2]]. split; [|unfold over_limit, entry_tokens, zsum; simpl; lia|done].
  split; simpl; [constructor| |intros []; done|apply pruned_empty|done].
  intros k e Hin. by apply not_elem_of_nil in Hin.
Qed.
Lemma init_inv max_entries max_tokens c : PrefixCache_init max_entries max_tokens = Ok c → prefix_inv c.
Proof.
  unfold PrefixCache_init. intros (? & H1%raise_if_Ok & H)%bind_Ok_inv.
  apply bind_Ok_inv in H as (? & _ & [= <-]). bool_hyps.
  split; [|unfold over_limit, entry_tokens, zsum; simpl; lia|done].
  split; simpl; [constructor| |intros []; done|apply pruned_empty|done].
  intros k e Hin. by apply not_elem_of_nil in Hin.
Qed.
Lemma prefix_reachable_inv max_entries max_tokens c :
  prefix_reachable max_entries max_tokens c → prefix_inv c.
Proof.
  induction 1 as [c H|c c' _ IH Hs]; [by eapply init_inv|].
  destruct Hs; eauto using longest_prefix_inv, get_inv, put_inv, clear_inv.
Qed.

(** ** Properties *)

(** C21: The radix tree implements longest-prefix matching over the dictionary: a lookup never
    raises; a hit is a cached prefix of the query with its stored state, at least as long as
    every other cached prefix, flagged exact iff it is the whole query, and becomes the most
    recently used entry; a miss means that no cached key is a prefix of the query. *)
Theorem longest_prefix_refines ts c r c' :
  prefix_inv c → enabled c = true → longest_prefix ts false c = (r, c') →
  match r with
  | Ok (Some m) => ∃ e, od_get (pm_token_ids m) (pc_entries c) = Some e ∧
      pe_backend_state e = pm_backend_state m ∧ is_prefix (pm_token_ids m) ts ∧
      (∀ k, is_prefix k ts → od_get k (pc_entries c) ≠ None →
         (length k <= length (pm_token_ids m))%nat) ∧
      (pm_exact m = true ↔ pm_token_ids m = ts) ∧
      pc_entries c' = od_del (pm_token_ids m) (pc_entries c) ++ [(pm_token_ids m, e)]
  | Ok None => pc_entries c' = pc_entries c ∧ ∀ k, is_prefix k ts → od_get k (pc_entries c) = None
  | Err _ => False
  end.
Proof.
  intros Hinv Hen H. pose proof (descend_entries ts c Hinv) as Hd.
  unfold longest_prefix in H. rewrite Hen in H. simpl in H.
  destruct (descend ts (pc_root c) None) as [e|]; [|by simplify_eq].
  destruct Hd as (Hg & Hpre & Hmax). unfold od_has in H.
  rewrite bool_decide_eq_true_2 in H by (rewrite Hg; eauto). simpl in H. simplify_eq. simpl.
  exists e. rewrite bool_decide_eq_true. split_and!; try done.
  unfold od_move_to_end. by rewrite Hg.
Qed.

(** C34: A cache stays within both of its limits whatever is stored in it, its token count is the
    sum over its entries, its tree holds exactly the entries of the dictionary, and eviction
    leaves no dead branch in the tree. *)
Theorem prefix_cache_bounded max_entries max_tokens c :
  prefix_reachable max_entries max_tokens c →
  Z.of_nat (length (pc_entries c)) <= pc_max_entries c ∧ pc_cached_tokens c <= pc_max_tokens c ∧
  pc_cached_tokens c = zsum (λ p, Z.of_nat (length p.1)) (pc_entries c) ∧
  (∀ k, radix_lookup k (pc_root c) = od_get k (pc_entries c)) ∧ pruned (pc_root c).
Proof.
  intros [[Hok Hkeys Htree Hp Htok] Hlim _]%prefix_reachable_inv. unfold over_limit in Hlim.
  split_and!; [lia|lia| |done|done]. rewrite Htok. apply zsum_ext. intros [k e] Hin. simpl.
  unfold token_count. by destruct (Hkeys k e Hin) as [-> _].
Qed.

(** Storing a prefix that fits always succeeds and evicts by recency, no more than needed:
    the remaining entries are the most recently used ones followed by the new entry, and putting
    back the last entry evicted would exceed a limit. *)
Theorem prefix_cache_put_lru ts b c :
  prefix_inv c → enabled c = true → ts ≠ [] → Z.of_nat (length ts) <= pc_max_tokens c →
  ∃ c' evicted kept, put ts b c = Ok (true, c') ∧
    od_del ts (pc_entries c) = evicted ++ kept ∧ pc_entries c' = kept ++ [(ts, mkEntry ts b)] ∧
    ∀ x ev, evicted = ev ++ [x] → over_limit c (x :: kept ++ [(ts, mkEntry ts b)]).
Proof.
  intros Hinv Hen Hne Hlen.
  destruct (put_spec ts b c Hinv Hen Hne Hlen) as (c' & ev & kept & H1 & _ & H2 & H3 & H4).
  by exists c', ev, kept.
Qed.
End prefix_cache.

(** ** Witnesses *)

(** Room for two entries and five tokens, holding [1;2] and [1;2;3]. *)
Definition empty_cache : PrefixCache (B := string) :=
  mkPrefixCache 2 5 [] empty_node 0 0 0 0 0 0 0 0 0.
Definition put_or_keep (ts : list Z) (b : string) (c : PrefixCache) : PrefixCache :=
  match put ts b c with Ok (_, c') => c' | Err _ => c end.
Definition sample_cache1 : PrefixCache := put_or_keep [1; 2] "a" empty_cache.
Definition sample_cache : PrefixCache := put_or_keep [1; 2; 3] "b" sample_cache1.
Lemma sample_cache_reachable : prefix_reachable 2 5 sample_cache.
Proof.
  eapply prefix_next; [eapply prefix_next; [by apply prefix_init|]|].
  - apply (prefix_put _ [1; 2] "a" true sample_cache1). vm_compute. reflexivity.
  - apply (prefix_put _ [1; 2; 3] "b" true sample_cache). vm_compute. reflexivity.
Qed.
Lemma sample_cache_inv : prefix_inv sample_cache.
Proof. eapply prefix_reachable_inv, sample_cache_reachable. Qed.

Lemma longest_prefix_refines_witness :
  (longest_prefix [1; 2; 7] false sample_cache).1 = Ok (Some (mkMatch [1; 2] "a" false)) ∧
  is_prefix [1; 2] [1; 2; 7].
Proof.
  assert (longest_prefix [1; 2; 7] false sample_cache
    = (Ok (Some (mkMatch [1; 2] "a" false)), (longest_prefix [1; 2; 7] false sample_cache).2)) as H
    by (vm_compute; reflexivity).
  split; [vm_compute; reflexivity|].
  destruct (longest_prefix_refines [1; 2; 7] sample_cache _ _ sample_cache_inv eq_refl H)
    as (e & _ & _ & Hp & _).
  exact Hp.
Defined.
Lemma prefix_cache_bounded_witness :
  pc_cached_tokens sample_cache = 5 ∧ pc_cached_tokens sample_cache <= pc_max_tokens sample_cache.
Proof.
  split; [vm_compute; reflexivity|].
  exact (proj1 (proj2 (prefix_cache_bounded 2 5 sample_cache sample_cache_reachable))).
Defined.
Lemma prefix_cache_put_lru_witness :
  ∃ c' evicted kept, put [9] "c" sample_cache = Ok (true, c') ∧
    od_del [9] (pc_entries sample_cache) = evicted ++ kept.
Proof.
  assert (Z.of_nat (length [9]) <= pc_max_tokens sample_cache) as H by (vm_compute; discriminate).
  destruct (prefix_cache_put_lru [9] "c" sample_cache sample_cache_inv eq_refl ltac:(discriminate) H)
    as (c' & ev & kept & H1 & H2 & _).
  exists c', ev, kept. exact (conj H1 H2).
Defined.
