(* ===== verification/FairQueue.v ===== *)
(** [serving_platform/scheduling/fair_queue.py]: the weighted fair request queue, a deficit
    round robin over tenants with priority aging inside a tenant.

    The queue holds references to request records that other components mutate, so requests
    live in a store indexed by location and the queue keeps locations. *)
From S2P Require Import Prelude PyContainers PyFloat Domain.
From Stdlib Require String.

#[local] Open Scope string_scope.
#[local] Open Scope list_scope.
#[local] Open Scope Z_scope.

(** ** The shared store of request objects *)

Abbreviation loc := positive.
Abbreviation heap := (gmap positive RequestRecord).

(** [RequestRecord.__eq__], the dataclass comparison field by field. *)
Definition timestamps_eqb (a b : gmap RequestState float) : bool :=
  Nat.eqb (size a) (size b) &&
  forallb (λ p, match b !! p.1 with Some v => f_eqb p.2 v | None => false end) (map_to_list a).
Definition RequestRecord_eqb (a b : RequestRecord) : bool :=
  bool_decide (r_request_id a = r_request_id b) && bool_decide (r_tenant_id a = r_tenant_id b) &&
  bool_decide (r_model_id a = r_model_id b) && bool_decide (r_prompt a = r_prompt b) &&
  bool_decide (r_prompt_tokens a = r_prompt_tokens b) &&
  bool_decide (r_max_new_tokens a = r_max_new_tokens b) &&
  bool_decide (r_priority a = r_priority b) && f_eqb (r_deadline a) (r_deadline b) &&
  bool_decide (r_stream a = r_stream b) && f_eqb (r_temperature a) (r_temperature b) &&
  f_eqb (r_created_at a) (r_created_at b) && bool_decide (r_status a = r_status b) &&
  bool_decide (r_assigned_worker_id a = r_assigned_worker_id b) &&
  bool_decide (r_attempt_count a = r_attempt_count b) &&
  bool_decide (r_retry_reasons a = r_retry_reasons b) &&
  bool_decide (r_payload_available a = r_payload_available b) &&
  timestamps_eqb (r_transition_timestamps a) (r_transition_timestamps b).

(** [queue.remove(request)]: drops the first element that is the object or equals it. *)
Fixpoint queue_remove (h : heap) (l : loc) (queue : list loc) : list loc :=
  match queue with
  | [] => []
  | l' :: queue' =>
    if bool_decide (l' = l) || RequestRecord_eqb (h !!! l') (h !!! l)
    then queue' else l' :: queue_remove h l queue'
  end.

(** ** State *)

Record FairQueue := mkFairQueue {
  fq_tenants : list (string * TenantLimits);
  fq_base_quantum_tokens : Z;
  fq_priority_aging_seconds : float;
  fq_queues : list (string * list loc);
  fq_deficits : gmap string Z;
  fq_active : list string
}.
#[export] Instance eta_FairQueue : Eta FairQueue := λ q,
  mkFairQueue (fq_tenants q) (fq_base_quantum_tokens q) (fq_priority_aging_seconds q)
    (fq_queues q) (fq_deficits q) (fq_active q).

Definition FairQueue_init (tenants : list TenantLimits) (base_quantum_tokens : Z)
  (priority_aging_seconds : float) : res FairQueue :=
  _ ← raise_if ((base_quantum_tokens <=? 0) || f_leb priority_aging_seconds f_zero)
    (ValueError "fair queue parameters must be positive");
  let by_id := foldl (λ d t, od_set (t_tenant_id t) t d) [] tenants in
  Ok (mkFairQueue by_id base_quantum_tokens priority_aging_seconds
        ((λ p, (p.1, [])) <$> by_id) (foldl (λ m p, <[p.1 := 0]> m) ∅ by_id) []).

(** ** Operations *)

Definition activate (tid : string) (active : list string) : list string :=
  if bool_decide (tid ∈ active) then active else active ++ [tid].
Definition enqueue (l : loc) (now : float) (h : heap) (q : FairQueue)
  : res (heap * FairQueue) :=
  let request := h !!! l in
  match od_get (r_tenant_id request) (fq_queues q) with
  | None => Err (ValueError ("tenant is not configured: " +:+ r_tenant_id request))
  | Some queue =>
    _ ← raise_if (negb (bool_decide (r_status request = ADMITTED ∨ r_status request = QUEUED)))
      (ValueError "only admitted or retry-queued requests enter the global fair queue");
    _ ← raise_if (existsb (λ l', bool_decide (r_request_id (h !!! l') = r_request_id request)) queue)
      (ValueError ("request is already queued: " +:+ r_request_id request));
    request' ← (if decide (r_status request = ADMITTED) then transition QUEUED now request
                else Ok request);
    Ok (<[l := request']> h,
        q <| fq_queues ::= od_set (r_tenant_id request) (queue ++ [l]) |>
          <| fq_active ::= activate (r_tenant_id request) |>)
  end.

(** The sort key of [_next_for_tenant]: aged priority, then the older request. *)
Definition aging_key (aging now : float) (r : RequestRecord) : res (float * float) :=
  match r_transition_timestamps r !! QUEUED with
  | None => Err (KeyError "queued")
  | Some queued_at =>
    Ok (f_add (f_of_Z (r_priority r)) (f_div (f_sub now queued_at) aging), f_neg (r_created_at r))
  end.
Definition aging_ltb (a b : float * float) : bool :=
  if f_eqb a.1 b.1 then f_ltb a.2 b.2 else f_ltb a.1 b.1.
Fixpoint keyed (aging now : float) (h : heap) (queue : list loc) : res (list ((float * float) * loc)) :=
  match queue with
  | [] => Ok []
  | l :: queue' => k ← aging_key aging now (h !!! l); ks ← keyed aging now h queue'; Ok ((k, l) :: ks)
  end.
Definition next_for_tenant (aging now : float) (h : heap) (queue : list loc) : res loc :=
  ks ← keyed aging now h queue;
  match py_max (λ a b, aging_ltb a.1 b.1) ks with
  | None => Err (ValueError "max() iterable argument is empty")
  | Some (_, l) => Ok l
  end.

(** One iteration of [pop]'s loop: it either goes on or returns (or raises). *)
Inductive visit_result := Continue (q : FairQueue) | Return (r : res (option loc)) (q : FairQueue).

Definition live (h : heap) (queue : list loc) : list loc :=
  filter (λ l, r_terminal (h !!! l) = false) queue.
Definition serve (tid : string) (cost deficit : Z) (queue : list loc) (q : FairQueue) : FairQueue :=
  q <| fq_queues ::= od_set tid queue |> <| fq_deficits ::= <[tid := deficit - cost]> |>
    <| fq_active ::= λ a, if bool_decide (queue = []) then a else a ++ [tid] |>.
Definition visit (tid : string) (now : float) (h : heap) (q : FairQueue) : visit_result :=
  match od_get tid (fq_queues q) with
  | None => Return (Err (KeyError tid)) q
  | Some queue =>
    let queue := live h queue in
    let q := q <| fq_queues ::= od_set tid queue |> in
    if bool_decide (queue = []) then Continue (q <| fq_deficits ::= <[tid := 0]> |>)
    else
      match fq_deficits q !! tid, od_get tid (fq_tenants q) with
      | Some deficit, Some tenant =>
        let deficit := deficit + fq_base_quantum_tokens q * t_scheduling_weight tenant in
        let q := q <| fq_deficits ::= <[tid := deficit]> |> in
        match next_for_tenant (fq_priority_aging_seconds q) now h queue with
        | Err e => Return (Err e) q
        | Ok l =>
          let cost := estimated_tokens (h !!! l) in
          if cost <=? deficit
          then Return (Ok (Some l)) (serve tid cost deficit (queue_remove h l queue) q)
          else Continue (q <| fq_active ::= λ a, a ++ [tid] |>)
        end
      | _, _ => Return (Err (KeyError tid)) q
      end
  end.

(** [clock visits] is what the clock reads when that many visits remain. *)
Fixpoint pop_loop (visits_remaining : nat) (clock : nat → float) (h : heap) (q : FairQueue)
  : res (option loc) * FairQueue :=
  match visits_remaining, fq_active q with
  | S visits, tid :: rest =>
    match visit tid (clock visits) h (q <| fq_active := rest |>) with
    | Continue q' => pop_loop visits clock h q'
    | Return r q' => (r, q')
    end
  | _, _ => (Ok None, q)
  end.
Definition pop (clock : nat → float) (h : heap) (q : FairQueue) : res (option loc) * FairQueue :=
  pop_loop (length (fq_active q)) clock h q.

(** The first queued request with that identifier, in the order of the dictionary. *)
Fixpoint find_queued (request_id : string) (h : heap) (queues : list (string * list loc))
  : option (string * list loc * loc) :=
  match queues with
  | [] => None
  | (tid, queue) :: queues' =>
    match List.find (λ l, bool_decide (r_request_id (h !!! l) = request_id)) queue with
    | Some l => Some (tid, queue, l)
    | None => find_queued request_id h queues'
    end
  end.
Definition cancel (request_id : string) (now : float) (h : heap) (q : FairQueue)
  : res bool * heap * FairQueue :=
  match find_queued request_id h (fq_queues q) with
  | None => (Ok false, h, q)
  | Some (tid, queue, l) =>
    let q := q <| fq_queues ::= od_set tid (queue_remove h l queue) |> in
    match transition CANCELLED now (h !!! l) with
    | Err e => (Err e, h, q)
    | Ok request => (Ok true, <[l := request]> h, q)
    end
  end.

Definition depth (tenant_id : option string) (q : FairQueue) : res Z :=
  match tenant_id with
  | Some tid =>
    match od_get tid (fq_queues q) with
    | Some queue => Ok (Z.of_nat (length queue))
    | None => Err (KeyError tid)
    end
  | None => Ok (zsum (λ p, Z.of_nat (length p.2)) (fq_queues q))
  end.

(** ** Specification *)

(** Requests in one tenant's queue are distinct objects with distinct identifiers. *)
Definition unique (h : heap) (queue : list loc) : Prop :=
  NoDup queue ∧
  ∀ l l', l ∈ queue → l' ∈ queue → r_request_id (h !!! l) = r_request_id (h !!! l') → l = l'.
Definition stamped (h : heap) (queue : list loc) : Prop :=
  ∀ l, l ∈ queue → is_Some (r_transition_timestamps (h !!! l) !! QUEUED).

(** The invariant between visits; [visiting] holds the tenant taken off [_active] during one. *)
Record fq_ok (visiting : list string) (h : heap) (q : FairQueue) : Prop := {
  ok_queues : od_ok (fq_queues q);
  ok_keys : ∀ t, is_Some (od_get t (fq_queues q)) ↔ is_Some (od_get t (fq_tenants q));
  ok_quantum : 0 < fq_base_quantum_tokens q;
  ok_weights : ∀ t l, od_get t (fq_tenants q) = Some l → 0 < t_scheduling_weight l;
  ok_deficits : ∀ t, is_Some (od_get t (fq_tenants q)) →
    ∃ d, fq_deficits q !! t = Some d ∧ 0 <= d;
  ok_active : NoDup (visiting ++ fq_active q);
  ok_known : ∀ t, t ∈ visiting ++ fq_active q → is_Some (od_get t (fq_tenants q));
  ok_served : ∀ t queue, od_get t (fq_queues q) = Some queue → queue ≠ [] →
    t ∈ visiting ++ fq_active q;
  ok_unique : ∀ t queue, od_get t (fq_queues q) = Some queue → unique h queue;
  ok_stamped : ∀ t queue, od_get t (fq_queues q) = Some queue → stamped h queue
}.

(** What the rest of the platform may do to queued requests: transition them. *)
Inductive fq_step : heap * FairQueue → heap * FairQueue → Prop :=
| fq_enqueue l now h q h' q' : enqueue l now h q = Ok (h', q') → fq_step (h, q) (h', q')
| fq_pop clock h q : fq_step (h, q) (h, (pop clock h q).2)
| fq_cancel i now h q : fq_step (h, q) ((cancel i now h q).1.2, (cancel i now h q).2)
| fq_transition l target at_ h q r :
    transition target at_ (h !!! l) = Ok r → fq_step (h, q) (<[l := r]> h, q).
Inductive fq_reachable (tenants : list TenantLimits) (quantum : Z) (aging : float)
  : heap * FairQueue → Prop :=
| fq_reach_init h q :
    FairQueue_init tenants quantum aging = Ok q →
    Forall (λ t, is_ok (TenantLimits_post_init t) = true) tenants →
    map_Forall (λ _ r, r_status r = QUEUED → is_Some (r_transition_timestamps r !! QUEUED)) h →
    fq_reachable tenants quantum aging (h, q)
| fq_reach_step s s' :
    fq_reachable tenants quantum aging s → fq_step s s' → fq_reachable tenants quantum aging s'.

(** ** Lemmas *)

Create HintDb fq.

Lemma elem_of_live h queue l : l ∈ live h queue ↔ l ∈ queue ∧ r_terminal (h !!! l) = false.
Proof. unfold live. rewrite list_elem_of_filter. tauto. Qed.
Lemma live_idemp h queue : live h (live h queue) = live h queue.
Proof. unfold live. by rewrite list_filter_filter_l by done. Qed.
Lemma unique_sub h queue queue' :
  unique h queue → NoDup queue' → (∀ l, l ∈ queue' → l ∈ queue) → unique h queue'.
Proof. intros [_ Hu] Hd Hsub. split; [done|]. eauto. Qed.
Lemma unique_live h queue : unique h queue → unique h (live h queue).
Proof.
  intros Hu. eapply unique_sub; [done|apply NoDup_filter, Hu|]. intros l. rewrite elem_of_live. tauto.
Qed.
Lemma stamped_sub h queue queue' : stamped h queue → (∀ l, l ∈ queue' → l ∈ queue) → stamped h queue'.
Proof. intros H Hsub l Hl. auto. Qed.

Lemma RequestRecord_eqb_id a b : RequestRecord_eqb a b = true → r_request_id a = r_request_id b.
Proof. unfold RequestRecord_eqb. intros H. by bool_hyps. Qed.
Lemma queue_remove_perm h l queue :
  unique h queue → l ∈ queue → queue ≡ₚ l :: queue_remove h l queue.
Proof.
  intros [Hd Hu] Hl. induction queue as [|l' queue IH]; [by apply not_elem_of_nil in Hl|]. simpl.
  destruct (bool_decide (l' = l) || RequestRecord_eqb (h !!! l') (h !!! l)) eqn:E.
  - assert (l' = l) as ->; [|done]. apply orb_true_iff in E as [E|E]; [by bool_hyps|].
    apply Hu; [left|done|by apply RequestRecord_eqb_id].
  - bool_hyps. apply elem_of_cons in Hl as [->|Hl]; [done|].
    rewrite IH at 1; [constructor| | |done].
    + by apply NoDup_cons in Hd as [_ ?].
    + intros l1 l2 H1 H2. apply Hu; by right.
Qed.
Lemma elem_of_queue_remove h l queue l' : l' ∈ queue_remove h l queue → l' ∈ queue.
Proof.
  induction queue as [|l0 queue IH]; simpl; [done|]. destruct (_ || _); [by right|].
  intros [->|?]%elem_of_cons; [left|right; auto].
Qed.

Lemma keyed_Ok aging now h queue :
  stamped h queue → ∃ ks, keyed aging now h queue = Ok ks ∧ ks.*2 = queue ∧
    ∀ k l, (k, l) ∈ ks → aging_key aging now (h !!! l) = Ok k.
Proof.
  induction queue as [|l queue IH]; intros Hs; simpl.
  { exists []. split_and!; [done..|]. by intros k l ?%not_elem_of_nil. }
  destruct IH as (ks & -> & <- & Hk); [intros l' Hl'; apply Hs; by right|].
  destruct (Hs l) as [x Hx]; [left|]. unfold aging_key at 1. rewrite Hx. simpl.
  eexists. split_and!; [done..|]. intros k l' [Heq|Hin]%elem_of_cons; [|auto].
  simplify_eq. unfold aging_key. by rewrite Hx.
Qed.
Lemma next_for_tenant_Ok aging now h queue :
  stamped h queue → queue ≠ [] →
  ∃ l, next_for_tenant aging now h queue = Ok l ∧ l ∈ queue.
Proof.
  intros Hs Hne. destruct (keyed_Ok aging now h queue Hs) as (ks & Hk & <- & _).
  unfold next_for_tenant. rewrite Hk. simpl.
  destruct (py_max _ ks) as [[k l]|] eqn:E.
  - exists l. split; [done|]. apply py_max_elem in E. apply list_elem_of_fmap. by exists (k, l).
  - apply py_max_None in E as ->. done.
Qed.

Lemma aging_ltb_irrefl a : aging_ltb a a = false.
Proof. unfold aging_ltb. rewrite !f_ltb_irrefl. by destruct (f_eqb _ _). Qed.
Definition not_nan2 (a : float * float) : Prop := f_is_nan a.1 = false ∧ f_is_nan a.2 = false.
Lemma aging_ltb_key a b : not_nan2 a → not_nan2 b →
  aging_ltb a b = true ↔
    klt (fkey a.1) (fkey b.1) ∨ fkey a.1 = fkey b.1 ∧ klt (fkey a.2) (fkey b.2).
Proof.
  intros [Ha1 Ha2] [Hb1 Hb2]. unfold aging_ltb. pose proof (f_eqb_key a.1 b.1 Ha1 Hb1) as He.
  destruct (f_eqb a.1 b.1).
  - rewrite f_ltb_key by done. destruct He as [He _]. rewrite He by done.
    pose proof (klt_irrefl (fkey b.1)). tauto.
  - rewrite f_ltb_key by done. split; [by left|]. intros [?|[Heq _]]; [done|].
    apply He in Heq. done.
Qed.
Lemma aging_nltb_trans a b c : not_nan2 a → not_nan2 b → not_nan2 c →
  aging_ltb a b = false → aging_ltb b c = false → aging_ltb a c = false.
Proof.
  intros Ha Hb Hc. rewrite <- !not_true_iff_false, !aging_ltb_key by done. intros H1 H2 H3.
  pose proof (klt_ntrans (fkey a.1) (fkey b.1) (fkey c.1)) as T1.
  pose proof (klt_ntrans (fkey a.2) (fkey b.2) (fkey c.2)) as T2.
  assert (¬ klt (fkey a.1) (fkey b.1)) as N1 by tauto.
  assert (¬ klt (fkey b.1) (fkey c.1)) as N2 by tauto.
  destruct H3 as [H3|[He H3]]; [tauto|]. rewrite He in *.
  pose proof (klt_total _ _ N1 N2) as He'. rewrite He' in *. tauto.
Qed.
Lemma aging_ltb_asym a b : not_nan2 a → not_nan2 b → aging_ltb a b = true → aging_ltb b a = false.
Proof.
  intros Ha Hb H. apply not_true_iff_false. intros H'. rewrite aging_ltb_key in H, H' by done.
  destruct H as [H|[E H]], H' as [H'|[E' H']].
  - exact (klt_irrefl _ (klt_trans _ _ _ H H')).
  - rewrite E' in H. by apply klt_irrefl in H.
  - rewrite E in H'. by apply klt_irrefl in H'.
  - exact (klt_irrefl _ (klt_trans _ _ _ H H')).
Qed.
(** The selected request has the greatest aged priority, ties going to the oldest. *)
Lemma next_for_tenant_max aging now h queue l :
  stamped h queue → next_for_tenant aging now h queue = Ok l →
  (∀ l' k, l' ∈ queue → aging_key aging now (h !!! l') = Ok k → not_nan2 k) →
  ∃ k, aging_key aging now (h !!! l) = Ok k ∧
    ∀ l' k', l' ∈ queue → aging_key aging now (h !!! l') = Ok k' → aging_ltb k k' = false.
Proof.
  intros Hs H Hnan. destruct (keyed_Ok aging now h queue Hs) as (ks & Hk & <- & Hkey).
  unfold next_for_tenant in H. rewrite Hk in H. simpl in H.
  destruct (py_max _ ks) as [[k l1]|] eqn:E; [|done]. injection H as ->.
  pose proof (py_max_elem _ _ _ E) as Hin. exists k. split; [by apply Hkey|].
  intros l' k' Hl' Hk'. apply list_elem_of_fmap in Hl' as ([k2 l2] & -> & Hin'). simpl in *.
  pose proof (Hkey _ _ Hin') as Hk2. rewrite Hk2 in Hk'. injection Hk' as ->.
  change ((λ a b : float * float * loc, aging_ltb a.1 b.1) (k, l) (k', l2) = false).
  apply (py_max_spec _ (λ a, not_nan2 a.1)) with (l := ks) (x := (k, l)) (y := (k', l2)); try done.
  - intros x _. apply aging_ltb_irrefl.
  - intros x y z. apply aging_nltb_trans.
  - intros x y. apply aging_ltb_asym.
  - apply Forall_elem. intros [k0 l0] Hin0. apply (Hnan l0 k0); [|by apply Hkey].
    apply list_elem_of_fmap. by exists (k0, l0).
Qed.

(** ** Visits *)

Lemma fq_ok_popleft tid rest h q :
  fq_ok [] h q → fq_active q = tid :: rest → fq_ok [tid] h (q <| fq_active := rest |>).
Proof. intros [] Ha. rewrite Ha in *. by split. Qed.

(** A visit ends by storing what is left of the queue and of the deficit, and by putting the
    tenant back unless its queue is empty. *)
Lemma fq_ok_settle tid h q queue queue' d (back : bool) :
  fq_ok [tid] h q → od_get tid (fq_queues q) = Some queue →
  NoDup queue' → (∀ l, l ∈ queue' → l ∈ queue) → 0 <= d → (queue' ≠ [] → back = true) →
  fq_ok [] h (q <| fq_queues ::= od_set tid queue' |> <| fq_deficits ::= <[tid := d]> |>
                <| fq_active ::= λ a, if back then a ++ [tid] else a |>).
Proof.
  intros [Hok Hkeys Hq Hw Hd Ha Hkn Hs Hu Hst] Hg Hnd Hsub H0 Hback.
  assert (∀ t, t ∈ [tid] ++ fq_active q ↔ t = tid ∨ t ∈ fq_active q) as Hmem
    by (intros t; rewrite elem_of_app, list_elem_of_singleton; done).
  assert (∀ t, t ∈ (if back then fq_active q ++ [tid] else fq_active q) ↔
    t ∈ fq_active q ∨ back = true ∧ t = tid) as Hmem'.
  { intros t. destruct back; [rewrite elem_of_app, list_elem_of_singleton|]; naive_solver. }
  apply NoDup_cons in Ha as [Hn Ha]. change (tid ∉ fq_active q) in Hn.
  split; cbn [field_update fq_queues fq_tenants fq_base_quantum_tokens fq_deficits fq_active app];
    try done.
  - auto with odict.
  - intros t. rewrite od_get_set, <- Hkeys. case_decide as E; [subst; rewrite Hg|done].
    by split; eauto.
  - intros t Ht. simpl. rewrite lookup_insert. case_decide; [eauto|auto].
  - simpl. destruct back; [|done]. apply NoDup_app. split_and!; [done| |apply NoDup_singleton].
    by intros x Hx ->%list_elem_of_singleton.
  - intros t Ht. apply Hkn. apply Hmem. apply Hmem' in Ht. naive_solver.
  - intros t bl. rewrite od_get_set. simpl. rewrite Hmem'. case_decide as E.
    + intros [= <-] Hne. right. auto.
    + intros Hbl Hne. left. pose proof (Hs t bl Hbl Hne) as Ht. apply Hmem in Ht. naive_solver.
  - intros t bl. rewrite od_get_set. case_decide; [intros [= <-]|by apply Hu].
    eapply unique_sub; eauto.
  - intros t bl. rewrite od_get_set. case_decide; [intros [= <-]|by apply Hst].
    eapply stamped_sub; eauto.
Qed.

(** What a visit does, in the three cases of the loop body. *)
Inductive visit_case (tid : string) (now : float) (h : heap) (q : FairQueue)
  (queue : list loc) (d : Z) (tenant : TenantLimits) : visit_result → Prop :=
| visit_empty :
    live h queue = [] →
    visit_case tid now h q queue d tenant (Continue
      (q <| fq_queues ::= od_set tid [] |> <| fq_deficits ::= <[tid := 0]> |>))
| visit_wait l :
    l ∈ live h queue →
    next_for_tenant (fq_priority_aging_seconds q) now h (live h queue) = Ok l →
    d + fq_base_quantum_tokens q * t_scheduling_weight tenant < estimated_tokens (h !!! l) →
    visit_case tid now h q queue d tenant (Continue
      (q <| fq_queues ::= od_set tid (live h queue) |>
         <| fq_deficits ::=
              <[tid := d + fq_base_quantum_tokens q * t_scheduling_weight tenant]> |>
         <| fq_active ::= λ a, a ++ [tid] |>))
| visit_serve l queue' d' :
    l ∈ live h queue → live h queue ≡ₚ l :: queue' →
    next_for_tenant (fq_priority_aging_seconds q) now h (live h queue) = Ok l →
    d' = d + fq_base_quantum_tokens q * t_scheduling_weight tenant - estimated_tokens (h !!! l) →
    0 <= d' →
    visit_case tid now h q queue d tenant (Return (Ok (Some l))
      (q <| fq_queues ::= od_set tid queue' |> <| fq_deficits ::= <[tid := d']> |>
         <| fq_active ::= λ a, if bool_decide (queue' = []) then a else a ++ [tid] |>)).

Lemma od_set_set {V} k (v w : V) (d : list (string * V)) : od_set k v (od_set k w d) = od_set k v d.
Proof.
  induction d as [|[k0 v0] d IH]; simpl; [by rewrite decide_True|].
  destruct (decide (k = k0)) eqn:E; simpl; rewrite E; [done|]. by rewrite IH.
Qed.

Lemma visit_spec tid now h q :
  fq_ok [tid] h q →
  ∃ queue d tenant, od_get tid (fq_queues q) = Some queue ∧ fq_deficits q !! tid = Some d ∧
    od_get tid (fq_tenants q) = Some tenant ∧ 0 <= d ∧ 0 < t_scheduling_weight tenant ∧
    visit_case tid now h q queue d tenant (visit tid now h q).
Proof.
  intros Hok. pose proof Hok as [_ Hkeys Hq Hw Hd _ Hkn _ Hu Hst].
  destruct (Hkn tid) as [tenant Ht]; [left|].
  destruct (proj2 (Hkeys tid)) as [queue Hg]; [eauto|]. destruct (Hd tid) as (d & Hdt & H0); [eauto|].
  exists queue, d, tenant. split_and!; try done; [by eapply Hw|].
  unfold visit. rewrite Hg. case_bool_decide as Hl; cbn beta iota zeta.
  { rewrite Hl. by apply visit_empty. }
  cbn [field_update fq_deficits fq_tenants fq_priority_aging_seconds fq_base_quantum_tokens
    fq_queues fq_active]. simpl. rewrite Hdt, Ht.
  assert (stamped h (live h queue)) as Hst'
    by (eapply stamped_sub; [by eapply Hst|intros l; rewrite elem_of_live; tauto]).
  destruct (next_for_tenant_Ok (fq_priority_aging_seconds q) now h _ Hst' Hl) as (l & Hn & Hin).
  rewrite Hn. case_head; bool_hyps.
  - match goal with |- visit_case _ _ _ _ _ _ _ (Return _ ?q1) =>
      replace q1 with (q <| fq_queues ::= od_set tid (queue_remove h l (live h queue)) |>
        <| fq_deficits ::= <[tid := d + fq_base_quantum_tokens q * t_scheduling_weight tenant
                                    - estimated_tokens (h !!! l)]> |>
        <| fq_active ::= λ a, if bool_decide (queue_remove h l (live h queue) = []) then a
                              else a ++ [tid] |>) end.
    + apply visit_serve; try done; [|lia].
      apply queue_remove_perm; [|done]. by eapply unique_live, Hu.
    + unfold serve, field_update. simpl. by rewrite od_set_set, insert_insert_eq.
  - eapply visit_wait; [done|done|lia].
Qed.

Lemma live_sub h queue l : l ∈ live h queue → l ∈ queue.
Proof. rewrite elem_of_live. tauto. Qed.
#[export] Hint Resolve live_sub : fq.

Definition visit_state (r : visit_result) : FairQueue :=
  match r with Continue q => q | Return _ q => q end.
Definition same_parameters (q q' : FairQueue) : Prop :=
  fq_tenants q' = fq_tenants q ∧ fq_base_quantum_tokens q' = fq_base_quantum_tokens q ∧
  fq_priority_aging_seconds q' = fq_priority_aging_seconds q.
(** The live requests each tenant has queued. *)
Definition live_view (h : heap) (q : FairQueue) (t : string) : option (list loc) :=
  live h <$> od_get t (fq_queues q).

Lemma visit_case_parameters tid now h q queue d tenant r :
  visit_case tid now h q queue d tenant r → same_parameters q (visit_state r).
Proof. by destruct 1. Qed.
Lemma visit_case_ok tid now h q queue d tenant r :
  fq_ok [tid] h q → od_get tid (fq_queues q) = Some queue → 0 <= d →
  0 < t_scheduling_weight tenant → visit_case tid now h q queue d tenant r →
  fq_ok [] h (visit_state r).
Proof.
  intros Hok Hg Hd Hw Hc. pose proof (ok_quantum _ _ _ Hok) as Hq.
  pose proof (unique_live h queue (ok_unique _ _ _ Hok tid queue Hg)) as [Hnd _].
  destruct Hc as [He|l Hl Hnx Hlt|l queue' d' Hl Hp Hn -> H0]; simpl.
  - by apply (fq_ok_settle tid h q queue [] 0 false Hok Hg); [constructor|intros l ?%not_elem_of_nil|..].
  - apply (fq_ok_settle tid h q queue _ _ true Hok Hg); [done|eauto with fq|nia|done].
  - rewrite Hp in Hnd. apply NoDup_cons in Hnd as [_ Hnd].
    replace (λ a, if bool_decide (queue' = []) then a else a ++ [tid])
      with (λ a, if negb (bool_decide (queue' = [])) then a ++ [tid] else a).
    + apply (fq_ok_settle tid h q queue queue' _ _ Hok Hg); try done.
      * intros l' Hl'. apply (live_sub h). rewrite Hp. by right.
      * intros Hne. by rewrite bool_decide_eq_false_2.
    + by case_bool_decide.
Qed.
Lemma visit_case_live tid now h q queue d tenant q' t :
  od_get tid (fq_queues q) = Some queue →
  visit_case tid now h q queue d tenant (Continue q') → live_view h q' t = live_view h q t.
Proof.
  intros Hg Hc. inversion Hc as [He|l Hl Hnx Hlt|]; subst; unfold live_view; simpl;
    rewrite od_get_set; (case_decide; [subst; rewrite Hg; simpl|done]).
  - by rewrite He.
  - by rewrite live_idemp.
Qed.

Definition credit (q : FairQueue) (t : string) : Z := cget (fq_deficits q) t.
Definition quantum (q : FairQueue) (t : string) : Z :=
  fq_base_quantum_tokens q * default 0 (t_scheduling_weight <$> od_get t (fq_tenants q)).

Lemma visit_continue tid now h q q' :
  fq_ok [tid] h q → visit tid now h q = Continue q' →
  fq_ok [] h q' ∧ same_parameters q q' ∧
  (∀ t, live_view h q' t = live_view h q t) ∧
  (∀ t, t ≠ tid → credit q' t = credit q t) ∧
  (∀ before, live_view h q tid = Some before → before ≠ [] →
     credit q' tid = credit q tid + quantum q tid ∧
     fq_active q' = fq_active q ++ [tid] ∧
     ∃ l, l ∈ before ∧ next_for_tenant (fq_priority_aging_seconds q) now h before = Ok l ∧
       credit q' tid < estimated_tokens (h !!! l)) ∧
  (live_view h q tid = Some [] → fq_active q' = fq_active q).
Proof.
  intros Hok Hv. destruct (visit_spec tid now h q Hok)
    as (queue & d & tenant & Hg & Hd & Ht & H0 & Hw & Hc). rewrite Hv in Hc.
  split; [by apply (visit_case_ok _ _ _ _ _ _ _ _ Hok Hg H0 Hw Hc)|].
  split; [by apply (visit_case_parameters _ _ _ _ _ _ _ _ Hc)|].
  split; [intros t; by apply (visit_case_live _ _ _ _ _ _ _ _ t Hg Hc)|].
  unfold live_view, credit, quantum, cget. rewrite Hg, Hd, Ht. simpl.
  inversion Hc as [He|l Hl Hnx Hlt|]; subst; simpl; (split; [intros t Hne; by rewrite lookup_insert_ne|]).
  - rewrite He. split; [|done]. intros before [= <-]. done.
  - split.
    + intros before [= <-] _. rewrite lookup_insert_eq. simpl. split_and!; [done..|]. by exists l.
    + intros [= He]. rewrite He in Hl. by apply not_elem_of_nil in Hl.
Qed.

(** [t] cannot pay for the request that is next for it at [now]. *)
Definition passed_over (h : heap) (q : FairQueue) (now : float) (t : string) : Prop :=
  ∀ before, live_view h q t = Some before → before ≠ [] →
    ∃ l, next_for_tenant (fq_priority_aging_seconds q) now h before = Ok l ∧
      credit q t + quantum q t < estimated_tokens (h !!! l).
(** The first [n] tenants of [todo] are passed over, each at its own reading of the clock. *)
Definition passes (n : nat) (clock : nat → float) (todo : list string) (h : heap) (q : FairQueue) : Prop :=
  ∀ pre t post, todo = pre ++ t :: post → (length pre < n)%nat → passed_over h q (clock (length post)) t.
Definition has_live (h : heap) (q : FairQueue) (t : string) : Prop := live_view h q t ≠ Some [].
#[export] Instance has_live_dec h q t : Decision (has_live h q t).
Proof. unfold has_live. apply _. Defined.

(** The outcome of the loop with the tenants [todo] left to visit and [done_] behind them in the
    rotation, in terms of the live requests before and after. *)
Definition pop_outcome (clock : nat → float) (todo done_ : list string) (h : heap) (q : FairQueue)
  (r : res (option loc)) (q' : FairQueue) : Prop :=
  match r with
  | Err _ => False
  | Ok None => passes (length todo) clock todo h q ∧ (∀ t, live_view h q' t = live_view h q t) ∧
      fq_active q' = done_ ++ filter (has_live h q) todo
  | Ok (Some l) => ∃ skipped t rest before after,
      todo = skipped ++ t :: rest ∧ passes (length skipped) clock todo h q ∧
      live_view h q t = Some before ∧ od_get t (fq_queues q') = Some after ∧ l ∈ before ∧
      before ≡ₚ l :: after ∧
      next_for_tenant (fq_priority_aging_seconds q) (clock (length rest)) h before = Ok l ∧
      credit q' t = credit q t + quantum q t - estimated_tokens (h !!! l) ∧ 0 <= credit q' t ∧
      fq_active q' = rest ++ done_ ++ filter (has_live h q) skipped ++
                       (if bool_decide (after = []) then [] else [t]) ∧
      ∀ t', t' ≠ t → live_view h q' t' = live_view h q t'
  end.
Lemma passed_over_same h q q' now t :
  same_parameters q q' → live_view h q' t = live_view h q t → credit q' t = credit q t →
  passed_over h q' now t → passed_over h q now t.
Proof.
  intros (H1 & H2 & H3) Hl Hc. unfold passed_over, quantum. by rewrite H1, H2, H3, Hl, Hc.
Qed.
(** One more tenant in front. *)
Lemma passes_cons n clock tid todo h q q' :
  same_parameters q q' → (∀ t, live_view h q' t = live_view h q t) → tid ∉ todo →
  (∀ t, t ≠ tid → credit q' t = credit q t) →
  passed_over h q (clock (length todo)) tid → passes n clock todo h q' →
  passes (S n) clock (tid :: todo) h q.
Proof.
  intros Hpar Hlive Hn Hcr Htid Hp pre t post Heq Hlen. destruct pre as [|t0 pre]; simplify_eq/=; [done|].
  apply (passed_over_same h q q'); [done|done| |apply (Hp pre); [done|lia]].
  apply Hcr. intros ->. apply Hn, elem_of_app. right. left.
Qed.
Lemma visit_passed_over tid now h q q' :
  fq_ok [tid] h q → visit tid now h q = Continue q' → passed_over h q now tid.
Proof.
  intros Hok Hv before Hl Hne. destruct (visit_continue _ _ _ _ _ Hok Hv) as (_ & _ & _ & _ & Hb & _).
  destruct (Hb before Hl Hne) as (Hc & _ & l & _ & Hn & Hlt). exists l. split; [done|]. by rewrite <- Hc.
Qed.

Lemma pop_loop_spec todo done_ clock h q :
  fq_ok [] h q → fq_active q = todo ++ done_ →
  let '(r, q') := pop_loop (length todo) clock h q in
  fq_ok [] h q' ∧ same_parameters q q' ∧ pop_outcome clock todo done_ h q r q'.
Proof.
  revert done_ q. induction todo as [|tid todo IH]; intros done_ q Hok Ha; simpl.
  { split; [done|]. split; [done|]. split; [intros pre t post _ Hlen; lia|]. by rewrite app_nil_r. }
  simpl in Ha. rewrite Ha. pose proof (fq_ok_popleft _ _ _ _ Hok Ha) as Hok1.
  set (q1 := q <| fq_active := todo ++ done_ |>) in *.
  assert (tid ∉ todo) as Hn.
  { pose proof (ok_active _ _ _ Hok1) as Hd. apply NoDup_cons in Hd as [Hd _]. contradict Hd.
    apply elem_of_app. by left. }
  destruct (visit tid (clock (length todo)) h q1) as [q2|r q2] eqn:Hv.
  - pose proof (visit_passed_over _ _ _ _ _ Hok1 Hv) as Hover.
    destruct (visit_continue _ _ _ _ _ Hok1 Hv) as (Hok2 & Hpar & Hlive & Hcr & Hback & Hdrop).
    set (back := filter (has_live h q) [tid]).
    assert (fq_active q2 = todo ++ (done_ ++ back)) as Ha2.
    { rewrite app_assoc. unfold back. rewrite filter_cons, filter_nil.
      change (has_live h q tid) with (live_view h q1 tid ≠ Some []). case_decide as Hl.
      - destruct (live_view h q1 tid) as [before|] eqn:Hb.
        + destruct (Hback before) as (_ & -> & _); [done|congruence|done].
        + destruct (proj2 (ok_keys _ _ _ Hok1 tid)) as [bl Hbl]; [apply (ok_known _ _ _ Hok1); left|].
          unfold live_view in Hb. rewrite Hbl in Hb. done.
      - rewrite app_nil_r. apply Hdrop. by destruct (decide (live_view h q1 tid = Some [])). }
    specialize (IH _ q2 Hok2 Ha2). destruct (pop_loop (length todo) clock h q2) as [r q'].
    destruct IH as (Hok' & Hpar' & Hout). split; [done|].
    change (same_parameters q q2) in Hpar. split.
    { destruct Hpar as (?&?&?), Hpar' as (?&?&?). by repeat split; etrans. }
    assert (∀ ts : list string, filter (has_live h q2) ts = filter (has_live h q) ts) as Hfilter.
    { intros ts. apply list_filter_iff. intros t. unfold has_live. by rewrite Hlive. }
    assert (∀ ts : list string, back ++ filter (has_live h q) ts = filter (has_live h q) (tid :: ts)) as Hcons.
    { intros ts. unfold back. by rewrite <- filter_app. }
    destruct r as [[l|]|e]; [|destruct Hout as (Hp & Hl & Hact)|done].
    + destruct Hout as (skipped & t & rest & before & after & -> & Hp & H1 & H2 & H3 & H4 & H5 & H6 & H7 & H8 & H9).
      pose proof Hpar as (E1 & E2 & E3). assert (t ≠ tid) as Hne.
      { intros ->. apply Hn, elem_of_app. right. left. }
      exists (tid :: skipped), t, rest, before, after. split; [done|].
      split; [by apply (passes_cons _ _ _ _ _ _ q2)|]. rewrite Hlive in H1. rewrite E3 in H5.
      rewrite Hcr in H6 by done. split_and!; try done.
      * rewrite H6. unfold quantum. by rewrite E1, E2.
      * by rewrite H8, Hfilter, <- Hcons, <- !app_assoc.
      * intros t' Ht'. by rewrite H9.
    + split; [by apply (passes_cons _ _ _ _ _ _ q2)|]. split; [intros t; by rewrite Hl|].
      by rewrite Hact, Hfilter, <- Hcons, <- app_assoc.
  - destruct (visit_spec tid (clock (length todo)) h q1 Hok1)
      as (queue & d & tenant & Hg & Hd & Ht & H0 & Hw & Hc). rewrite Hv in Hc.
    pose proof (visit_case_ok _ _ _ _ _ _ _ _ Hok1 Hg H0 Hw Hc) as Hok2.
    pose proof (visit_case_parameters _ _ _ _ _ _ _ _ Hc) as Hpar. split; [done|]. split; [done|].
    inversion Hc as [| |l queue' d' Hl Hp Hnx Hd' H0']; subst. simpl in Hg, Hd, Ht |- *.
    exists [], tid, todo, (live h queue), queue'. unfold live_view, credit, quantum, cget. simpl.
    rewrite Hg, Hd, Ht, lookup_insert_eq. simpl.
    split_and!; try done.
    + intros pre t post _ Hlen. lia.
    + by rewrite od_get_set, decide_True.
    + by case_bool_decide; rewrite ?app_nil_r, <- ?app_assoc.
    + intros t' Hne. by rewrite od_get_set, decide_False.
Qed.
Lemma fair_pop_spec clock h q :
  fq_ok [] h q →
  let '(r, q') := pop clock h q in
  fq_ok [] h q' ∧ same_parameters q q' ∧ pop_outcome clock (fq_active q) [] h q r q'.
Proof. intros Hok. apply pop_loop_spec; [done|]. by rewrite app_nil_r. Qed.

(** ** Reachable states *)

Lemma elem_of_foldl_od_set (ts : list TenantLimits) d t l :
  od_get t (foldl (λ d t, od_set (t_tenant_id t) t d) d ts) = Some l →
  od_get t d = Some l ∨ l ∈ ts.
Proof.
  revert d. induction ts as [|t0 ts IH]; intros d; simpl; [by left|].
  intros [H|H]%IH; [|by right; right]. rewrite od_get_set in H.
  case_decide; [simplify_eq; right; left|by left].
Qed.
Lemma lookup_zeroes {V} (d : list (string * V)) (m : gmap string Z) t :
  foldl (λ m p, <[p.1 := 0]> m) m d !! t = if decide (t ∈ d.*1) then Some 0 else m !! t.
Proof.
  revert m. induction d as [|[k v] d IH]; intros m; [done|].
  rewrite fmap_cons. cbn [foldl fst]. rewrite IH, lookup_insert.
  destruct (decide (t ∈ d.*1)), (decide (k = t)), (decide (t ∈ k :: d.*1)) as [H|H];
    rewrite ?elem_of_cons, ?not_elem_of_cons in H; naive_solver.
Qed.
Lemma od_get_empties {V} (d : list (string * V)) t :
  od_get t ((λ p, (p.1, [] : list loc)) <$> d) = (λ _, []) <$> od_get t d.
Proof. induction d as [|[k v] d IH]; simpl; [done|]. by case_decide. Qed.

Lemma fq_init_ok tenants quantum aging h q :
  FairQueue_init tenants quantum aging = Ok q →
  Forall (λ t, is_ok (TenantLimits_post_init t) = true) tenants → fq_ok [] h q.
Proof.
  unfold FairQueue_init. intros (? & Hq%raise_if_Ok & [= <-])%bind_Ok_inv Hpos. bool_hyps.
  set (d := foldl _ _ tenants). assert (od_ok d) as Hd by (apply (od_build_ok t_tenant_id id); constructor).
  assert (∀ t (queue : list loc), od_get t ((λ p, (p.1, [])) <$> d) = Some queue → queue = [])
    as Hempty.
  { intros t queue. rewrite od_get_empties. by destruct (od_get t d); intros [= <-]. }
  split; simpl; try done.
  - unfold od_ok. rewrite <- list_fmap_compose. done.
  - intros t. by rewrite od_get_empties, fmap_is_Some.
  - intros t l [Hno|Hl]%elem_of_foldl_od_set; [done|]. rewrite Forall_elem in Hpos.
    by apply TenantLimits_positive, Hpos.
  - intros t [l Hl]. exists 0. split; [|done]. rewrite lookup_zeroes, decide_True; [done|].
    apply od_get_elem in Hl. apply list_elem_of_fmap. by exists (t, l).
  - constructor.
  - intros t ?%not_elem_of_nil. done.
  - by intros t queue ->%Hempty.
  - intros t queue ->%Hempty. split; [constructor|]. by intros l l' ?%not_elem_of_nil.
  - intros t queue ->%Hempty l ?%not_elem_of_nil. done.
Qed.

(** Replacing a request object by one with the same identifier and at least its timestamps. *)
Lemma fq_ok_heap ex h l r q :
  fq_ok ex h q → r_request_id r = r_request_id (h !!! l) →
  dom (r_transition_timestamps (h !!! l)) ⊆ dom (r_transition_timestamps r) →
  fq_ok ex (<[l := r]> h) q.
Proof.
  intros [Hok Hkeys Hq Hw Hd Ha Hkn Hs Hu Hst] Hid Hdom.
  assert (∀ l', r_request_id (<[l := r]> h !!! l') = r_request_id (h !!! l')) as Hids.
  { intros l'. destruct (decide (l' = l)) as [->|];
      [by rewrite lookup_total_insert_eq|by rewrite lookup_total_insert_ne]. }
  split; try done.
  - intros t queue Hg. destruct (Hu t queue Hg) as [Hn Hinj]. split; [done|].
    intros l1 l2. rewrite !Hids. auto.
  - intros t queue Hg l' Hl'. specialize (Hst t queue Hg l' Hl').
    destruct (decide (l' = l)) as [->|]; [|by rewrite lookup_total_insert_ne].
    rewrite lookup_total_insert_eq, <- elem_of_dom. apply Hdom. by rewrite elem_of_dom.
Qed.
Lemma transition_heap_ok ex h l target at_ r q :
  fq_ok ex h q → transition target at_ (h !!! l) = Ok r → fq_ok ex (<[l := r]> h) q.
Proof.
  intros Hok Ht. apply (fq_ok_heap _ _ _ _ _ Hok); [by apply (transition_keeps _ _ _ _ Ht)|].
  rewrite (transition_timestamps _ _ _ _ Ht), dom_insert. set_solver.
Qed.

Lemma existsb_id_fresh (h : heap) queue i :
  existsb (λ l', bool_decide (r_request_id (h !!! l') = i)) queue = false →
  ∀ l, l ∈ queue → r_request_id (h !!! l) ≠ i.
Proof.
  intros H l Hl Hi. apply not_true_iff_false in H. apply H, existsb_exists.
  exists l. rewrite <- list_elem_of_In. by rewrite bool_decide_eq_true_2.
Qed.

(** A record that is QUEUED carries the time at which it was queued. *)
Definition queued_stamped (h : heap) : Prop :=
  ∀ l, r_status (h !!! l) = QUEUED → is_Some (r_transition_timestamps (h !!! l) !! QUEUED).
Lemma transition_queued_stamped h l target at_ r :
  queued_stamped h → transition target at_ (h !!! l) = Ok r → queued_stamped (<[l := r]> h).
Proof.
  intros Hh Ht l'. destruct (decide (l' = l)) as [->|];
    [rewrite lookup_total_insert_eq|rewrite lookup_total_insert_ne by done; apply Hh].
  rewrite (transition_status _ _ _ _ Ht), (transition_timestamps _ _ _ _ Ht). intros ->.
  rewrite lookup_insert_eq. eauto.
Qed.

Lemma elem_of_activate t tid active : t ∈ activate tid active ↔ t ∈ active ∨ t = tid.
Proof.
  unfold activate. case_bool_decide; [naive_solver|].
  by rewrite elem_of_app, list_elem_of_singleton.
Qed.
Lemma NoDup_activate tid active : NoDup active → NoDup (activate tid active).
Proof.
  intros Ha. unfold activate. case_bool_decide; [done|].
  apply NoDup_app. split_and!; [done| |apply NoDup_singleton].
  by intros x Hx ->%list_elem_of_singleton.
Qed.

Lemma enqueue_ok l now h q h' q' :
  fq_ok [] h q → queued_stamped h → enqueue l now h q = Ok (h', q') →
  fq_ok [] h' q' ∧ queued_stamped h'.
Proof.
  intros Hok Hh. unfold enqueue. set (t0 := r_tenant_id (h !!! l)).
  destruct (od_get t0 (fq_queues q)) as [queue|] eqn:Hg; [|done].
  intros (? & Hadm%raise_if_Ok & H)%bind_Ok_inv. apply bind_Ok_inv in H as (? & Hu%raise_if_Ok & H).
  apply bind_Ok_inv in H as (r & Hr & [= <- <-]). pose proof (existsb_id_fresh _ _ _ Hu) as Hfresh.
  assert (fq_ok [] (<[l := r]> h) q ∧ queued_stamped (<[l := r]> h) ∧
    r_request_id r = r_request_id (h !!! l) ∧
    is_Some (r_transition_timestamps r !! QUEUED)) as (Hok' & Hh' & Hid & Hst').
  { case_decide as Hs.
    - split_and!; [by eapply transition_heap_ok|by eapply transition_queued_stamped|
        by apply (transition_keeps _ _ _ _ Hr)|].
      rewrite (transition_timestamps _ _ _ _ Hr), lookup_insert_eq. eauto.
    - injection Hr as <-. assert (queued_stamped (<[l := h !!! l]> h)) as Hh'.
      { intros l'. destruct (decide (l' = l)) as [->|];
          [rewrite lookup_total_insert_eq|rewrite lookup_total_insert_ne by done]; apply Hh. }
      split_and!; [by apply (fq_ok_heap _ _ _ _ _ Hok)|done|done|].
      apply Hh. bool_hyps. tauto. }
  clear Hr Hadm Hu. split; [|done]. set (h' := <[l := r]> h) in *.
  assert (r_request_id (h' !!! l) = r_request_id (h !!! l) ∧
    is_Some (r_transition_timestamps (h' !!! l) !! QUEUED)) as [Hid' Hst2]
    by (unfold h'; by rewrite lookup_total_insert_eq).
  assert (∀ l', l' ∈ queue → r_request_id (h' !!! l') ≠ r_request_id (h !!! l)) as Hfresh'.
  { intros l' Hl'. unfold h'. destruct (decide (l' = l)) as [->|Hne];
      [destruct (Hfresh l Hl' eq_refl)|rewrite lookup_total_insert_ne by done; auto]. }
  destruct Hok' as [Ho Hkeys Hq Hw Hd Ha Hkn Hs Hun Hst]. simpl in *.
  split; simpl; try done.
  - auto with odict.
  - intros t. rewrite od_get_set, <- Hkeys. case_decide as E; [rewrite E, Hg|done]. by split; eauto.
  - by apply NoDup_activate.
  - intros t [Ht| ->]%elem_of_activate; [auto|]. apply Hkeys. rewrite Hg. eauto.
  - intros t bl. rewrite od_get_set, elem_of_activate. case_decide; [tauto|]. intros Hbl Hne. left. eauto.
  - intros t bl. rewrite od_get_set. case_decide; [intros [= <-]|by apply Hun].
    destruct (Hun _ _ Hg) as [Hnd Hinj]. split.
    + apply NoDup_app. split_and!; [done| |apply NoDup_singleton].
      intros y Hx ->%list_elem_of_singleton. exact (Hfresh l Hx eq_refl).
    + intros l1 l2 [H1|H1%list_elem_of_singleton]%elem_of_app [H2|H2%list_elem_of_singleton]%elem_of_app;
        subst; rewrite ?Hid'; [by apply Hinj| | |done].
      * intros Heq. destruct (Hfresh' _ H1 Heq).
      * intros Heq. destruct (Hfresh' _ H2 (eq_sym Heq)).
  - intros t bl. rewrite od_get_set. case_decide; [intros [= <-]|by apply Hst].
    intros l' [Hl'|Hl'%list_elem_of_singleton]%elem_of_app; [by eapply Hst|by subst].
Qed.

Lemma find_queued_spec i h queues t queue l :
  find_queued i h queues = Some (t, queue, l) →
  (t, queue) ∈ queues ∧ l ∈ queue ∧ r_request_id (h !!! l) = i.
Proof.
  induction queues as [|[t0 q0] queues IH]; simpl; [done|].
  destruct (List.find _ q0) as [l0|] eqn:E.
  - intros [= -> -> ->]. apply find_some in E as [Hin E]. bool_hyps.
    split_and!; [left|by apply list_elem_of_In|done].
  - intros H. destruct (IH H) as (?&?&?). split_and!; [by right|done..].
Qed.
Lemma cancel_ok i now h q :
  fq_ok [] h q → queued_stamped h →
  fq_ok [] (cancel i now h q).1.2 (cancel i now h q).2 ∧ queued_stamped (cancel i now h q).1.2.
Proof.
  intros Hok Hh. unfold cancel. destruct (find_queued i h (fq_queues q)) as [[[t queue] l]|] eqn:Hf;
    [|done]. apply find_queued_spec in Hf as (Hin & Hl & Hid).
  apply (od_elem_get _ _ _ (ok_queues _ _ _ Hok)) in Hin.
  assert (fq_ok [] h (q <| fq_queues ::= od_set t (queue_remove h l queue) |>)) as Hok'.
  { destruct Hok as [Ho Hkeys Hq Hw Hd Ha Hkn Hs Hun Hst].
    pose proof (queue_remove_perm _ _ _ (Hun _ _ Hin) Hl) as Hp. split; simpl; try done.
    - auto with odict.
    - intros t'. rewrite od_get_set, <- Hkeys. case_decide; [subst; rewrite Hin|done]. by split; eauto.
    - intros t' bl. rewrite od_get_set. case_decide; [|apply Hs]. intros _ _. subst.
      apply (Hs t queue Hin). intros ->. by apply not_elem_of_nil in Hl.
    - intros t' bl. rewrite od_get_set. case_decide; [intros [= <-]|apply Hun].
      eapply unique_sub; [by eapply Hun| |apply elem_of_queue_remove].
      destruct (Hun _ _ Hin) as [Hnd _]. rewrite Hp in Hnd. by apply NoDup_cons in Hnd as [_ ?].
    - intros t' bl. rewrite od_get_set. case_decide; [intros [= <-]|apply Hst].
      eapply stamped_sub; [by eapply Hst|apply elem_of_queue_remove]. }
  destruct (transition CANCELLED now (h !!! l)) as [r|e] eqn:Ht; simpl; [|done].
  split; [by eapply transition_heap_ok|by eapply transition_queued_stamped].
Qed.

Lemma fq_reachable_ok tenants quantum aging s :
  fq_reachable tenants quantum aging s → fq_ok [] s.1 s.2 ∧ queued_stamped s.1.
Proof.
  induction 1 as [h q Hi Hpos Hh|s s' _ [IH1 IH2] Hs].
  - split; [by eapply fq_init_ok|]. intros l Hl. simpl in *.
    revert Hl. rewrite lookup_total_alt. destruct (h !! l) as [r|] eqn:E; [by apply (Hh l r E)|done].
  - destruct Hs as [l now h q h' q' H|clock h q|i now h q|l target at_ h q r H]; simpl in *.
    + by eapply enqueue_ok.
    + split; [|done]. pose proof (fair_pop_spec clock h q IH1) as Hp.
      destruct (pop clock h q). by destruct Hp as (? & _).
    + by apply cancel_ok.
    + split; [by eapply transition_heap_ok|by eapply transition_queued_stamped].
Qed.

(** ** Progress *)

(** [while selected is None: selected = fair_queue.pop()] of the gateway pipeline; the clock
    readings of the successive pops are given. *)
Fixpoint pop_until (fuel : nat) (clocks : nat → nat → float) (h : heap) (q : FairQueue)
  : res (option loc) * FairQueue :=
  match fuel with
  | O => (Ok None, q)
  | S fuel' =>
    match pop (clocks fuel') h q with
    | (Ok None, q') => pop_until fuel' clocks h q'
    | r => r
    end
  end.

(** A pop that returns nothing credited every tenant with live requests, and left it unable to
    pay for one of them. *)
Lemma pop_loop_None todo done_ clock h q q' :
  fq_ok [] h q → fq_active q = todo ++ done_ →
  pop_loop (length todo) clock h q = (Ok None, q') →
  (∀ t, t ∉ todo → credit q' t = credit q t) ∧
  (∀ t before, t ∈ todo → live_view h q t = Some before → before ≠ [] →
     credit q' t = credit q t + quantum q t ∧
     ∃ l, l ∈ before ∧ credit q' t < estimated_tokens (h !!! l)).
Proof.
  revert done_ q. induction todo as [|tid todo IH]; intros done_ q Hok Ha H.
  { simpl in H. injection H as <-. split; [done|]. by intros t before ?%not_elem_of_nil. }
  simpl in H, Ha. rewrite Ha in H.
  pose proof (fq_ok_popleft _ _ _ _ Hok Ha) as Hok1. set (q1 := q <| fq_active := todo ++ done_ |>) in *.
  assert (tid ∉ todo) as Hn.
  { pose proof (ok_active _ _ _ Hok1) as Hd. apply NoDup_cons in Hd as [Hd _]. contradict Hd.
    apply elem_of_app. by left. }
  destruct (visit tid (clock (length todo)) h q1) as [q2|r q2] eqn:Hv.
  2:{ injection H as -> ->. destruct (visit_spec tid (clock (length todo)) h q1 Hok1)
        as (queue & d & tenant & _ & _ & _ & _ & _ & Hc). rewrite Hv in Hc. inversion Hc. }
  destruct (visit_continue _ _ _ _ _ Hok1 Hv) as (Hok2 & (Hp1 & Hp2 & _) & Hlive & Hcr & Hback & Hdrop).
  assert (∃ done', fq_active q2 = todo ++ done') as [done' Ha2].
  { destruct (live_view h q1 tid) as [[|l before]|] eqn:Hl.
    - rewrite Hdrop by done. by exists done_.
    - destruct (Hback (l :: before)) as (_ & -> & _); [done..|]. exists (done_ ++ [tid]).
      simpl. by rewrite <- app_assoc.
    - destruct (proj2 (ok_keys _ _ _ Hok1 tid)) as [bl Hbl]; [apply (ok_known _ _ _ Hok1); left|].
      unfold live_view in Hl. rewrite Hbl in Hl. done. }
  destruct (IH done' q2 Hok2 Ha2 H) as [IH1 IH2]. split.
  - intros t Ht. apply not_elem_of_cons in Ht as [Hne Ht]. rewrite IH1, Hcr by done. done.
  - intros t before Ht Hl Hne. destruct (decide (t = tid)) as [->|Htid].
    + rewrite IH1 by done. destruct (Hback before Hl Hne) as (H1 & _ & l & H2 & _ & H3).
      split; [done|]. by exists l.
    + apply elem_of_cons in Ht as [|Ht]; [done|].
      assert (quantum q t = quantum q2 t) as -> by (unfold quantum; by rewrite Hp1, Hp2).
      rewrite <- (Hcr t Htid : _ = credit q t). apply IH2; [done| |done]. rewrite Hlive. done.
Qed.

Lemma pop_None clock h q q' t before :
  fq_ok [] h q → pop clock h q = (Ok None, q') → live_view h q t = Some before → before ≠ [] →
  fq_ok [] h q' ∧ same_parameters q q' ∧ live_view h q' t = Some before ∧
  credit q' t = credit q t + quantum q t ∧
  ∃ l, l ∈ before ∧ credit q' t < estimated_tokens (h !!! l).
Proof.
  intros Hok Hp Hl Hne.
  pose proof (fair_pop_spec clock h q Hok) as Hs. rewrite Hp in Hs. unfold pop in Hp.
  destruct Hs as (Hok' & Hpar & _ & Hlive & _). split; [done|]. split; [done|].
  split; [by rewrite Hlive|].
  destruct (pop_loop_None (fq_active q) [] clock h q q' Hok) as [_ H]; [by rewrite app_nil_r|done|].
  apply H; [|done..]. unfold live_view in Hl. destruct (od_get t (fq_queues q)) as [queue|] eqn:Hg; [|done].
  apply (ok_served _ _ _ Hok t queue Hg). intros ->. by injection Hl as <-.
Qed.

Lemma quantum_pos ex h q t : fq_ok ex h q → is_Some (od_get t (fq_tenants q)) →
  fq_base_quantum_tokens q <= quantum q t.
Proof.
  intros Hok [tenant Ht]. unfold quantum. rewrite Ht. simpl.
  pose proof (ok_weights _ _ _ Hok t tenant Ht). pose proof (ok_quantum _ _ _ Hok). nia.
Qed.

Lemma pop_until_progress fuel clocks h q t before cost :
  fq_ok [] h q → live_view h q t = Some before → before ≠ [] →
  (∀ l, l ∈ before → estimated_tokens (h !!! l) <= cost) →
  (0 < fuel)%nat → cost <= credit q t + Z.of_nat fuel * fq_base_quantum_tokens q →
  ∃ l q', pop_until fuel clocks h q = (Ok (Some l), q').
Proof.
  revert q. induction fuel as [|fuel IH]; intros q Hok Hl Hne Hcost Hf Hle; [lia|]. simpl.
  destruct (pop (clocks fuel) h q) as [[[l|]|e] q'] eqn:Hp; [eauto| |].
  - destruct (pop_None _ _ _ _ t before Hok Hp Hl Hne)
      as (Hok' & (Ht' & Hq' & _) & Hl' & Hcr & l & Hin & Hlt).
    assert (fq_base_quantum_tokens q <= quantum q t) as Hqt.
    { apply (quantum_pos [] h); [done|]. apply (ok_keys _ _ _ Hok). unfold live_view in Hl.
      destruct (od_get t (fq_queues q)); [eauto|done]. }
    specialize (Hcost l Hin) as Hcl. apply (IH q'); try done; [|rewrite Hq'; nia].
    destruct fuel; [nia|lia].
  - exfalso. pose proof (fair_pop_spec (clocks fuel) h q Hok) as Hs. rewrite Hp in Hs.
    by destruct Hs as (_ & _ & ?).
Qed.

Lemma pop_loop_round_robin visits clock h q dead t rest before :
  fq_ok [] h q → fq_active q = dead ++ t :: rest → (length dead < visits)%nat →
  (∀ t', t' ∈ dead → live_view h q t' = Some []) →
  live_view h q t = Some before → before ≠ [] →
  (∀ l, l ∈ before → estimated_tokens (h !!! l) <= fq_base_quantum_tokens q) →
  ∃ l q' after, pop_loop visits clock h q = (Ok (Some l), q') ∧ l ∈ before ∧
    od_get t (fq_queues q') = Some after ∧
    fq_active q' = rest ++ (if bool_decide (after = []) then [] else [t]).
Proof.
  revert visits q. induction dead as [|t0 dead IH]; intros visits q Hok Ha Hv Hdead Hl Hne Hcost;
    (destruct visits as [|visits]; [simpl in Hv; lia|]); simpl in Ha |- *; rewrite Ha;
    pose proof (fq_ok_popleft _ _ _ _ Hok Ha) as Hok1.
  - set (q1 := q <| fq_active := rest |>) in *.
    destruct (visit_spec t (clock visits) h q1 Hok1)
      as (queue & d & tenant & Hg & Hd & Ht & H0 & Hw & Hc).
    pose proof (ok_quantum _ _ _ Hok1) as Hq.
    unfold live_view in Hl. change (fq_queues q1) with (fq_queues q) in Hg. rewrite Hg in Hl.
    injection Hl as <-.
    destruct (visit t (clock visits) h q1); inversion Hc as [He|l Hin Hnx Hlt|l queue' d' Hin Hp Hn Hd']; subst.
    + done.
    + specialize (Hcost l Hin). change (fq_base_quantum_tokens q) with (fq_base_quantum_tokens q1) in Hcost.
      nia.
    + eexists l, _, queue'. split_and!; try done; simpl.
      * by rewrite od_get_set, decide_True.
      * case_bool_decide; [by rewrite app_nil_r|done].
  - set (q1 := q <| fq_active := dead ++ t :: rest |>) in *.
    destruct (visit_spec t0 (clock visits) h q1 Hok1)
      as (queue & d & tenant & Hg & Hd & Ht & H0 & Hw & Hc).
    assert (live h queue = []) as Hlq.
    { specialize (Hdead t0 ltac:(left)). unfold live_view in Hdead.
      change (fq_queues q1) with (fq_queues q) in Hg. rewrite Hg in Hdead. by injection Hdead. }
    destruct (visit t0 (clock visits) h q1) as [q2|r q2] eqn:Hv0.
    2:{ inversion Hc as [| |l queue' d' Hin]; subst. rewrite Hlq in Hin. by apply not_elem_of_nil in Hin. }
    destruct (visit_continue _ _ _ _ _ Hok1 Hv0) as (Hok2 & (_ & Hbq & _) & Hlive & _ & _ & Hdrop).
    apply (IH visits q2); try done; [|simpl in Hv; lia| | |by rewrite Hbq].
    + rewrite Hdrop; [done|]. unfold live_view. by rewrite Hg, <- Hlq.
    + intros t' Ht'. rewrite Hlive. apply Hdead. by right.
    + by rewrite Hlive.
Qed.

(** ** Properties *)

(** C35: No tenant starves by bookkeeping: after any sequence of [enqueue], [pop] and [cancel]
    calls interleaved with state transitions of the queued requests, every tenant with queued
    requests is in the rotation exactly once, deficits are never negative, and no tenant's queue
    holds two requests with the same identifier. *)
Theorem fair_queue_invariant tenants base_quantum aging s :
  fq_reachable tenants base_quantum aging s →
  NoDup (fq_active s.2) ∧
  ∀ t queue, od_get t (fq_queues s.2) = Some queue →
    (queue ≠ [] → t ∈ fq_active s.2) ∧ unique s.1 queue ∧
    ∃ d, fq_deficits s.2 !! t = Some d ∧ 0 <= d.
Proof.
  intros [Hok _]%fq_reachable_ok. split; [by apply (ok_active _ _ _ Hok)|].
  intros t queue Hg. split; [by apply (ok_served _ _ _ Hok)|].
  split; [by apply (ok_unique _ _ _ Hok t)|]. apply (ok_deficits _ _ _ Hok), (ok_keys _ _ _ Hok). eauto.
Qed.

(** C36: [pop] is correct on every outcome and never raises. The rotation is read from the front: each
    tenant in turn gets its quantum and is passed over when it has no live request, or when the credit
    it then has cannot pay for its own next request; the first tenant that can pay is served, and when
    none can the answer is nothing. What is served is a live request of that tenant, the one with the
    greatest aged priority at the reading of the clock taken for that visit, ties going to the oldest,
    provided no key at that reading is NaN; exactly that request is removed and its cost is taken from
    the credit; every other live request of every tenant stays queued; and the new rotation is what
    was not visited, then the passed-over tenants with live requests, then the served one unless its
    queue is empty. *)
Theorem fair_queue_pop clock h q r q' :
  fq_ok [] h q → pop clock h q = (r, q') →
  fq_ok [] h q' ∧
  match r with
  | Err _ => False
  | Ok None => passes (length (fq_active q)) clock (fq_active q) h q ∧
      (∀ t, live_view h q' t = live_view h q t) ∧ fq_active q' = filter (has_live h q) (fq_active q)
  | Ok (Some l) => ∃ skipped t rest before after, fq_active q = skipped ++ t :: rest ∧
      passes (length skipped) clock (fq_active q) h q ∧
      live_view h q t = Some before ∧ od_get t (fq_queues q') = Some after ∧ before ≡ₚ l :: after ∧
      r_terminal (h !!! l) = false ∧ (∀ t', t' ≠ t → live_view h q' t' = live_view h q t') ∧
      credit q' t = credit q t + quantum q t - estimated_tokens (h !!! l) ∧ 0 <= credit q' t ∧
      fq_active q' = rest ++ filter (has_live h q) skipped ++ (if bool_decide (after = []) then [] else [t]) ∧
      let key l := aging_key (fq_priority_aging_seconds q) (clock (length rest)) (h !!! l) in
      ((∀ l' k, l' ∈ before → key l' = Ok k → not_nan2 k) →
       ∃ k, key l = Ok k ∧ ∀ l' k', l' ∈ before → key l' = Ok k' → aging_ltb k k' = false)
  end.
Proof.
  intros Hok Hp. pose proof (fair_pop_spec clock h q Hok) as Hs. rewrite Hp in Hs.
  destruct Hs as (Hok' & _ & Hout). split; [done|]. destruct r as [[l|]|e]; [|done|done].
  destruct Hout as (skipped & t & rest & before & after & H0 & H1 & H2 & H3 & H4 & H5 & H6 & H7 & H8 & H9 & H10).
  assert (∃ queue, od_get t (fq_queues q) = Some queue ∧ before = live h queue) as (queue & Hg & ->).
  { unfold live_view in H2. destruct (od_get t (fq_queues q)); [|done].
    injection H2 as <-. eauto. }
  exists skipped, t, rest, (live h queue), after. split_and!; try done; [by apply elem_of_live in H4 as [_ ?]|].
  intros key Hnan. apply next_for_tenant_max; [|done|done].
  eapply stamped_sub; [by eapply (ok_stamped _ _ _ Hok)|apply live_sub].
Qed.

(** C37: The pipeline's [while selected is None] loop around [pop] terminates: with some live
    request queued for a tenant whose live requests cost at most [cost] tokens, it returns a
    request after at most [cost / base_quantum] pops (at least one). *)
Theorem fair_queue_progress fuel clocks h q t before cost :
  fq_ok [] h q → live_view h q t = Some before → before ≠ [] →
  (∀ l, l ∈ before → estimated_tokens (h !!! l) <= cost) →
  (0 < fuel)%nat → cost <= Z.of_nat fuel * fq_base_quantum_tokens q →
  ∃ l q', pop_until fuel clocks h q = (Ok (Some l), q').
Proof.
  intros Hok Hl Hne Hcost Hf Hle. eapply pop_until_progress; try done.
  assert (∃ d, fq_deficits q !! t = Some d ∧ 0 <= d) as (d & Hd & H0).
  { apply (ok_deficits _ _ _ Hok), (ok_keys _ _ _ Hok). unfold live_view in Hl.
    destruct (od_get t (fq_queues q)); [eauto|done]. }
  unfold credit, cget. rewrite Hd. simpl. lia.
Qed.

(** C38: While requests cost no more than the base quantum, tenant weights have no effect: [pop]
    serves the first tenant of the rotation that has live requests and moves it to the back, one
    request per turn, whatever the weights and the deficits. *)
Theorem fair_queue_small_requests_round_robin clock h q dead t rest before :
  fq_ok [] h q → fq_active q = dead ++ t :: rest →
  (∀ t', t' ∈ dead → live_view h q t' = Some []) →
  live_view h q t = Some before → before ≠ [] →
  (∀ l, l ∈ before → estimated_tokens (h !!! l) <= fq_base_quantum_tokens q) →
  ∃ l q' after, pop clock h q = (Ok (Some l), q') ∧ l ∈ before ∧
    od_get t (fq_queues q') = Some after ∧
    fq_active q' = rest ++ (if bool_decide (after = []) then [] else [t]).
Proof.
  intros Hok Ha Hdead Hl Hne Hcost. apply (pop_loop_round_robin _ _ _ _ dead); try done.
  rewrite Ha, length_app. simpl. lia.
Qed.

(** ** Witnesses *)

Definition sample_queued (i tid : string) (cost prio : Z) : RequestRecord :=
  mkRequest i tid "model-x" "explain caches" cost 1 prio f_inf false f_zero f_zero
    QUEUED None 0 [] true {[RECEIVED := f_zero; QUEUED := f_zero]}.
(** Two requests of tenant a and one of tenant b, all within one quantum of eight tokens except
    the last. *)
Definition sample_heap : heap :=
  {[1%positive := sample_queued "r1" "a" 4 0; 2%positive := sample_queued "r2" "a" 4 5;
    3%positive := sample_queued "r3" "b" 20 0]}.
Definition sample_tenants : list TenantLimits := [mkTenant "a" 4 4 100 3; mkTenant "b" 4 4 100 1].
Definition fq_or {A} (d : A) (r : res A) : A := match r with Ok a => a | Err _ => d end.
Definition sample_fq0 : FairQueue :=
  fq_or (mkFairQueue [] 0 f_zero [] ∅ []) (FairQueue_init sample_tenants 8 (f_of_Z 1)).
Definition sample_fq1 : FairQueue :=
  (fq_or (sample_heap, sample_fq0) (enqueue 1%positive f_zero sample_heap sample_fq0)).2.
Definition sample_fq2 : FairQueue :=
  (fq_or (sample_heap, sample_fq1) (enqueue 2%positive f_zero sample_heap sample_fq1)).2.
Definition sample_fq3 : FairQueue :=
  (fq_or (sample_heap, sample_fq2) (enqueue 3%positive f_zero sample_heap sample_fq2)).2.

Lemma sample_fq_reachable :
  fq_reachable sample_tenants 8 (f_of_Z 1) (sample_heap, sample_fq3).
Proof.
  apply (fq_reach_step _ _ _ (sample_heap, sample_fq2)); [|apply (fq_enqueue 3 f_zero); vm_compute; reflexivity].
  apply (fq_reach_step _ _ _ (sample_heap, sample_fq1)); [|apply (fq_enqueue 2 f_zero); vm_compute; reflexivity].
  apply (fq_reach_step _ _ _ (sample_heap, sample_fq0)); [|apply (fq_enqueue 1 f_zero); vm_compute; reflexivity].
  apply fq_reach_init; [vm_compute; reflexivity|repeat constructor|].
  intros l r Hl. unfold sample_heap in Hl.
  apply lookup_insert_Some in Hl as [[<- <-]|[_ Hl]]; [intros _; vm_compute; eauto|].
  apply lookup_insert_Some in Hl as [[<- <-]|[_ Hl]]; [intros _; vm_compute; eauto|].
  apply lookup_singleton_Some in Hl as [<- <-]. intros _. vm_compute. eauto.
Qed.
Lemma sample_fq_ok : fq_ok [] sample_heap sample_fq3.
Proof. exact (proj1 (fq_reachable_ok _ _ _ _ sample_fq_reachable)). Qed.

Lemma fair_queue_invariant_witness :
  fq_active sample_fq3 = ["a"; "b"] ∧ NoDup (fq_active sample_fq3).
Proof.
  split; [vm_compute; reflexivity|].
  exact (proj1 (fair_queue_invariant _ _ _ _ sample_fq_reachable)).
Defined.
(** Tenant a is visited at the reading 10: of r1 (priority 0) and r2 (priority 5), both queued at 0, it
    is r2's turn. *)
Definition sample_now_fq (remaining : nat) : float := f_of_Z 10.
Definition sample_popped : FairQueue := (pop sample_now_fq sample_heap sample_fq3).2.
Lemma sample_view_b : live_view sample_heap sample_fq3 "b" = Some [3%positive].
Proof. vm_compute. reflexivity. Qed.
Lemma sample_view_a : live_view sample_heap sample_fq3 "a" = Some [1%positive; 2%positive].
Proof. vm_compute. reflexivity. Qed.
Lemma fair_queue_pop_witness :
  (pop sample_now_fq sample_heap sample_fq3).1 = Ok (Some 2%positive) ∧
  fq_ok [] sample_heap sample_popped ∧ fq_active sample_popped = ["b"; "a"] ∧
  ∃ k, aging_key (f_of_Z 1) (f_of_Z 10) (sample_heap !!! 2%positive) = Ok k ∧
    ∀ l' k', l' ∈ [1%positive; 2%positive] →
      aging_key (f_of_Z 1) (f_of_Z 10) (sample_heap !!! l') = Ok k' → aging_ltb k k' = false.
Proof.
  assert (pop sample_now_fq sample_heap sample_fq3 = (Ok (Some 2%positive), sample_popped)) as H
    by (vm_compute; reflexivity).
  split; [vm_compute; reflexivity|].
  destruct (fair_queue_pop _ _ _ _ _ sample_fq_ok H)
    as (Hok & skipped & t & rest & before & after & Ha & _ & Hb & _ & Hperm & _ & _ & _ & _ & _ & Hmax).
  split; [exact Hok|]. split; [vm_compute; reflexivity|].
  assert (fq_active sample_fq3 = ["a"; "b"]) as Hact by (vm_compute; reflexivity). rewrite Hact in Ha.
  assert (t = "a") as ->.
  { destruct skipped as [|s0 [|s1 skipped]]; [by injection Ha| |by destruct skipped].
    injection Ha as _ Ht _. rewrite <- Ht, sample_view_b in Hb. injection Hb as <-.
    apply Permutation_singleton_l in Hperm. discriminate Hperm. }
  rewrite sample_view_a in Hb. injection Hb as <-. apply Hmax.
  intros l' k [->| ->%list_elem_of_singleton]%elem_of_cons Hk; vm_compute in Hk; injection Hk as <-; by split.
Defined.
Lemma fair_queue_progress_witness :
  ∃ l q', pop_until 3 (λ _ _, f_zero) sample_heap sample_fq3 = (Ok (Some l), q').
Proof.
  refine (fair_queue_progress 3 (λ _ _, f_zero) sample_heap sample_fq3 "b" [3%positive] 21
    sample_fq_ok sample_view_b ltac:(discriminate) _ ltac:(lia) _).
  - intros l ->%list_elem_of_singleton. vm_compute. discriminate.
  - vm_compute. discriminate.
Defined.
Lemma fair_queue_small_requests_round_robin_witness :
  ∃ l q' after, pop (λ _, f_zero) sample_heap sample_fq3 = (Ok (Some l), q') ∧
    od_get "a" (fq_queues q') = Some after.
Proof.
  destruct (fair_queue_small_requests_round_robin (λ _, f_zero) sample_heap sample_fq3 [] "a" ["b"]
    [1%positive; 2%positive] sample_fq_ok) as (l & q' & after & H1 & _ & H2 & _).
  - vm_compute. reflexivity.
  - intros t Ht. by apply not_elem_of_nil in Ht.
  - exact sample_view_a.
  - discriminate.
  - intros l [->|Hl]%elem_of_cons; [vm_compute; discriminate|].
    apply list_elem_of_singleton in Hl as ->. vm_compute. discriminate.
  - exists l, q', after. exact (conj H1 H2).
Defined.
