(* ===== verification/Redis.v ===== *)
(** The part of Redis the platform relies on, as interfaces with their documented laws: one
    hash with integer fields (admission), and string keys with expiry (leases, request store).
    Redis, its Lua number parsing and its [cjson] are not part of the repository; the components
    are developed against these classes, and the instances at the end show that the laws can be
    met. *)
From S2P Require Import Prelude.
From Stdlib Require String DecimalString DecimalZ DecimalPos.
From Stdlib Require Import Ascii.

#[local] Open Scope string_scope.
#[local] Open Scope list_scope.
#[local] Open Scope Z_scope.

(** ** One hash *)

(** The operations the scripts call on the hash stored at their key. [R] is the type of the
    JSON documents they store. *)
Class RedisHash (R H : Type) := {
  hget : string → H → option string;
  hset : string → string → H → H;
  hdel : string → H → H;
  hincrby : string → Z → H → H;
  hempty : H;
  lua_tonumber : string → Z;
  redis_show : Z → string;
  cjson_encode : R → string;
  cjson_decode : string → R
}.
Definition integer_field {R H} `{RedisHash R H} (f : string) (h : H) : Prop :=
  hget f h = None ∨ ∃ n, hget f h = Some (redis_show n).
(** [tonumber(redis.call('HGET', state, field) or '0')]. *)
Definition hnumber {R H} `{RedisHash R H} (f : string) (h : H) : Z :=
  lua_tonumber (default "0"%string (hget f h)).
Class RedisHashLaws (R H : Type) `{RedisHash R H} : Prop := {
  hget_hempty f : hget f hempty = None;
  hget_hset f f' v h : hget f' (hset f v h) = if decide (f = f') then Some v else hget f' h;
  hget_hdel f f' h : hget f' (hdel f h) = if decide (f = f') then None else hget f' h;
  hget_hincrby f f' d h : integer_field f h →
    hget f' (hincrby f d h) = if decide (f = f') then Some (redis_show (hnumber f h + d)) else hget f' h;
  lua_tonumber_show n : lua_tonumber (redis_show n) = n;
  lua_tonumber_zero : lua_tonumber "0"%string = 0;
  cjson_decode_encode r : cjson_decode (cjson_encode r) = r
}.

Section hash.
Context {R H : Type} `{RedisHashLaws R H}.

Lemma hnumber_hincrby f f' d (h : H) :
  integer_field f h →
  hnumber f' (hincrby f d h) = hnumber f' h + if decide (f = f') then d else 0.
Proof.
  intros Hf. unfold hnumber at 1. rewrite hget_hincrby by done. case_decide as E; simpl.
  - subst. by rewrite lua_tonumber_show.
  - unfold hnumber. lia.
Qed.
Lemma integer_field_hincrby f f' d (h : H) :
  integer_field f h → integer_field f' h → integer_field f' (hincrby f d h).
Proof.
  intros Hf Hf'. unfold integer_field in *. rewrite hget_hincrby by done. case_decide; eauto.
Qed.
Lemma hget_hincrby_ne f f' d (h : H) :
  integer_field f h → f ≠ f' → hget f' (hincrby f d h) = hget f' h.
Proof. intros Hf Hne. by rewrite hget_hincrby, decide_False. Qed.
Lemma hnumber_ext f (h h' : H) : hget f h' = hget f h → hnumber f h' = hnumber f h.
Proof. unfold hnumber. by intros ->. Qed.
Lemma integer_field_ext f (h h' : H) :
  hget f h' = hget f h → integer_field f h → integer_field f h'.
Proof. unfold integer_field. by intros ->. Qed.
End hash.

(** ** String keys with expiry *)

(** A string without the characters that a glob-style pattern treats specially. *)
Fixpoint glob_plain (s : string) : bool :=
  match s with
  | EmptyString => true
  | String c s =>
    negb (existsb (Ascii.eqb c) ["*"; "?"; "["; "\"]%char) && glob_plain s
  end.

(** [redis_view d k] is the value at [k] and its remaining time to live in milliseconds;
    [redis_tick] lets server time pass; [redis_scan pattern] is what an iteration with [SCAN MATCH]
    yields, in no particular order and perhaps more than once; [redis_match pattern k] is the server's
    glob-style matching. *)
Class RedisKeys (V D : Type) := {
  redis_get : string → D → option V;
  redis_set : string → V → bool → bool → option Z → D → bool * D;
  redis_del : string → D → Z * D;
  redis_pexpire : string → Z → D → Z * D;
  redis_match : string → string → bool;
  redis_scan : string → D → list string;
  redis_tick : Z → D → D;
  redis_view : D → string → option (V * option Z)
}.
Definition view_insert {V} (k : string) (x : option (V * option Z))
  (view : string → option (V * option Z)) (k' : string) : option (V * option Z) :=
  if decide (k = k') then x else view k'.
Definition expire {V} (ms : Z) (x : V * option Z) : option (V * option Z) :=
  match x.2 with
  | None => Some x
  | Some ttl => if ttl <=? ms then None else Some (x.1, Some (ttl - ms))
  end.
Class RedisKeysLaws (V D : Type) `{RedisKeys V D} : Prop := {
  redis_get_view k d : redis_get k d = fst <$> redis_view d k;
  redis_set_result k v nx xx px d :
    (redis_set k v nx xx px d).1 =
      match redis_view d k with Some _ => negb nx | None => negb xx end;
  redis_set_view k v nx xx px d k' :
    redis_view (redis_set k v nx xx px d).2 k' =
      (if (redis_set k v nx xx px d).1 then view_insert k (Some (v, px)) (redis_view d) k'
       else redis_view d k');
  redis_del_result k d : (redis_del k d).1 = match redis_view d k with Some _ => 1 | None => 0 end;
  redis_del_view k d k' : redis_view (redis_del k d).2 k' = view_insert k None (redis_view d) k';
  redis_pexpire_result k ms d :
    (redis_pexpire k ms d).1 = match redis_view d k with Some _ => 1 | None => 0 end;
  redis_pexpire_view k ms d k' : 0 < ms →
    redis_view (redis_pexpire k ms d).2 k' =
      view_insert k ((λ x, (x.1, Some ms)) <$> redis_view d k) (redis_view d) k';
  redis_scan_view pattern d k :
    k ∈ redis_scan pattern d ↔ redis_match pattern k = true ∧ is_Some (redis_view d k);
  redis_match_prefix prefix k : glob_plain prefix = true →
    redis_match (prefix +:+ "*") k = String.prefix prefix k;
  redis_tick_view ms d k : redis_view (redis_tick ms d) k = redis_view d k ≫= expire ms
}.

(** ** Instances *)

Definition show_Z (n : Z) : string := DecimalString.NilZero.string_of_int (Z.to_int n).
Definition read_Z (s : string) : Z :=
  match DecimalString.NilZero.int_of_string s with Some i => Z.of_int i | None => 0 end.
Lemma read_show_Z n : read_Z (show_Z n) = n.
Proof.
  unfold read_Z, show_Z. rewrite DecimalString.NilZero.isi; [apply DecimalZ.of_to|..];
    destruct n as [|p|p]; cbn [Z.to_int]; try discriminate;
    intros [= Hp]; by destruct (DecimalPos.Unsigned.to_uint_nonnil p).
Qed.

Section gmap_hash.
Context {R : Type} `{Countable R}.

#[export] Instance gmap_redis_hash (r0 : Inhabited R) : RedisHash R (gmap string string) := {
  hget f h := h !! f;
  hset f v h := <[f := v]> h;
  hdel f h := delete f h;
  hincrby f d h := <[f := show_Z (read_Z (default "0" (h !! f)) + d)]> h;
  hempty := ∅;
  lua_tonumber := read_Z;
  redis_show := show_Z;
  cjson_encode r := show_Z (Z.pos (encode r));
  cjson_decode s := default inhabitant (decode (Z.to_pos (read_Z s)))
}.
#[export] Instance gmap_redis_hash_laws (r0 : Inhabited R) :
  RedisHashLaws R (gmap string string).
Proof.
  split; simpl.
  - intros f. apply lookup_empty.
  - intros f f' v h. apply lookup_insert.
  - intros f f' h. apply lookup_delete.
  - intros f f' d h _. apply lookup_insert.
  - apply read_show_Z.
  - done.
  - intros r. rewrite read_show_Z. simpl. by rewrite decode_encode.
Qed.
End gmap_hash.

(** Glob-style patterns as the documentation of [KEYS] describes them: any sequence, any character, a
    literal character, and a set of ranges that a caret negates; a backslash escapes. *)
Inductive GlobToken :=
  | GStar | GAny | GLiteral (c : ascii) | GClass (negated : bool) (ranges : list (ascii * ascii)).
Definition ascii_leb (a b : ascii) : bool := (Ascii.nat_of_ascii a <=? Ascii.nat_of_ascii b)%nat.
Definition glob_range (a b : ascii) : ascii * ascii := if ascii_leb a b then (a, b) else (b, a).
(** [inside]: the set being read. *)
Fixpoint glob_tokens (inside : option (bool * list (ascii * ascii))) (s : string) : list GlobToken :=
  match inside, s with
  | None, EmptyString => []
  | None, String "*" s => GStar :: glob_tokens None s
  | None, String "?" s => GAny :: glob_tokens None s
  | None, String "[" (String "^" s) => glob_tokens (Some (true, [])) s
  | None, String "[" s => glob_tokens (Some (false, [])) s
  | None, String "\" (String c s) => GLiteral c :: glob_tokens None s
  | None, String c s => GLiteral c :: glob_tokens None s
  | Some (negated, ranges), EmptyString => [GClass negated ranges]
  | Some (negated, ranges), String "]" s => GClass negated ranges :: glob_tokens None s
  | Some (negated, ranges), String "\" (String c s) => glob_tokens (Some (negated, (c, c) :: ranges)) s
  | Some (negated, ranges), String a (String "-" (String b s)) =>
    glob_tokens (Some (negated, glob_range a b :: ranges)) s
  | Some (negated, ranges), String c s => glob_tokens (Some (negated, (c, c) :: ranges)) s
  end.
Definition glob_token_matches (t : GlobToken) (c : ascii) : bool :=
  match t with
  | GStar | GAny => true
  | GLiteral c' => Ascii.eqb c c'
  | GClass negated ranges => xorb negated (existsb (λ r, ascii_leb r.1 c && ascii_leb c r.2) ranges)
  end.
Fixpoint glob_matches (ts : list GlobToken) (s : string) : bool :=
  match ts with
  | [] => match s with EmptyString => true | _ => false end
  | GStar :: ts =>
    (fix star (s : string) : bool :=
       glob_matches ts s || match s with EmptyString => false | String _ s => star s end) s
  | t :: ts => match s with EmptyString => false | String c s => glob_token_matches t c && glob_matches ts s end
  end.
Definition glob (pattern s : string) : bool := glob_matches (glob_tokens None pattern) s.
Lemma glob_matches_star s : glob_matches [GStar] s = true.
Proof. induction s as [|c s IH]; [done|]. cbn in *. done. Qed.
Lemma glob_tokens_plain c s :
  negb (existsb (Ascii.eqb c) ["*"; "?"; "["; "\"]%char) = true →
  glob_tokens None (String c s) = GLiteral c :: glob_tokens None s.
Proof. by destruct c as [[] [] [] [] [] [] [] []]. Qed.
Lemma glob_prefix prefix s : glob_plain prefix = true → glob (prefix +:+ "*") s = String.prefix prefix s.
Proof.
  unfold glob. revert s. induction prefix as [|c prefix IH]; intros s Hp.
  - change (glob_tokens None ("" +:+ "*")) with [GStar]. rewrite glob_matches_star. by destruct s.
  - apply andb_true_iff in Hp as [Hc Hp]. change (String c prefix +:+ "*") with (String c (prefix +:+ "*")).
    rewrite glob_tokens_plain by done. destruct s as [|c' s]; [done|].
    change (String.prefix (String c prefix) (String c' s))
      with (if Ascii.ascii_dec c c' then String.prefix prefix s else false).
    cbn [glob_matches glob_token_matches]. rewrite IH by done.
    destruct (Ascii.ascii_dec c c') as [->|Hne]; [by rewrite Ascii.eqb_refl|].
    destruct (Ascii.eqb_spec c' c); [congruence|done].
Qed.

Section gmap_keys.
Context {V : Type}.

#[export] Instance gmap_redis_keys : RedisKeys V (gmap string (V * option Z)) := {
  redis_get k d := fst <$> d !! k;
  redis_set k v nx xx px d :=
    if match d !! k with Some _ => negb nx | None => negb xx end
    then (true, <[k := (v, px)]> d) else (false, d);
  redis_del k d := (match d !! k with Some _ => 1 | None => 0 end, delete k d);
  redis_pexpire k ms d :=
    match d !! k with Some x => (1, <[k := (x.1, Some ms)]> d) | None => (0, d) end;
  redis_match := glob;
  redis_scan pattern d := filter (λ k, glob pattern k = true) (map_to_list d).*1;
  redis_tick ms d := omap (expire ms) d;
  redis_view d k := d !! k
}.
#[export] Instance gmap_redis_keys_laws : RedisKeysLaws V (gmap string (V * option Z)).
Proof.
  split; simpl; unfold view_insert.
  - done.
  - intros k v nx xx px d. by destruct (d !! k), nx, xx.
  - intros k v nx xx px d k'.
    destruct (d !! k), nx, xx; simpl; first [done|apply lookup_insert].
  - done.
  - intros k d k'. apply lookup_delete.
  - intros k ms d. by destruct (d !! k).
  - intros k ms d k' _. destruct (d !! k) eqn:E; simpl; [apply lookup_insert|].
    case_decide; congruence.
  - intros pattern d k. rewrite list_elem_of_filter. apply and_iff_compat_l. split.
    + intros ([k' x] & -> & Hin)%list_elem_of_fmap. apply elem_of_map_to_list in Hin. simpl. eauto.
    + intros [x Hx%elem_of_map_to_list]. apply list_elem_of_fmap. by exists (k, x).
  - apply glob_prefix.
  - intros ms d k. apply lookup_omap.
Qed.
End gmap_keys.
