(* ===== verification/RedisAdmission.v ===== *)
(** [serving_platform/admission/redis_controller.py]: the cross-process admission controller
    with its Lua scripts, and its refinement of the in-process controller. *)
From S2P Require Import Prelude PyFloat PyContainers Domain Admission Redis.
From Stdlib Require String Ascii.

#[local] Open Scope string_scope.
#[local] Open Scope list_scope.
#[local] Open Scope Z_scope.

(** ** Fields of the state hash *)

Definition reservation_field (i : string) : string := "reservation:" +:+ i.
Definition queued_field (t : string) : string := "tenant:" +:+ t +:+ ":queued".
Definition running_field (t : string) : string := "tenant:" +:+ t +:+ ":running".
Definition tokens_field (t : string) : string := "tenant:" +:+ t +:+ ":tokens".
Definition global_field : string := "global:queued".
Definition fingerprint_field : string := "config:fingerprint".

(** The document stored per reservation. *)
Record RedisReservation := mkRedisReservation {
  rr_tenant : string;
  rr_tokens : Z;
  rr_running : bool;
  rr_concurrency_limit : Z
}.
#[export] Instance eta_RedisReservation : Eta RedisReservation := λ r,
  mkRedisReservation (rr_tenant r) (rr_tokens r) (rr_running r) (rr_concurrency_limit r).
#[export] Instance RedisReservation_eq_dec : EqDecision RedisReservation.
Proof. solve_decision. Defined.
#[export] Program Instance RedisReservation_countable : Countable RedisReservation :=
  inj_countable' (λ r, (rr_tenant r, rr_tokens r, rr_running r, rr_concurrency_limit r))
    (λ p, let '(t, n, b, l) := p in mkRedisReservation t n b l) _.
Next Obligation. by intros []. Qed.
#[export] Instance RedisReservation_inhabited : Inhabited RedisReservation :=
  populate (mkRedisReservation "" 0 false 0).

Section redis_admission.
Context {H : Type} `{RedisHashLaws RedisReservation H}.

(** ** The Lua scripts *)

Definition CONFIGURE_SCRIPT (fingerprint : string) (h : H) : string * H :=
  match hget fingerprint_field h with
  | None => ("configured", hset fingerprint_field fingerprint h)
  | Some current => if bool_decide (current = fingerprint) then ("existing", h) else ("conflict", h)
  end.

Definition RESERVE_SCRIPT (i tenant : string)
  (tokens global_limit queue_limit concurrency_limit token_limit : Z) (h : H) : string * H :=
  let global_queued := hnumber global_field h in
  let queued := hnumber (queued_field tenant) h in
  let running := hnumber (running_field tenant) h in
  let reserved_tokens := hnumber (tokens_field tenant) h in
  match hget (reservation_field i) h with
  | Some _ => ("already_admitted", h)
  | None =>
    if global_limit <=? global_queued then ("global_queue_full", h)
    else if queue_limit <=? queued then ("tenant_queue_full", h)
    else if concurrency_limit <=? running then ("tenant_concurrency_limit", h)
    else if token_limit <? reserved_tokens + tokens then ("tenant_token_quota", h)
    else
      ("admitted",
       hset (reservation_field i)
         (cjson_encode (mkRedisReservation tenant tokens false concurrency_limit))
         (hincrby (tokens_field tenant) tokens
           (hincrby (queued_field tenant) 1 (hincrby global_field 1 h))))
  end.

Definition MARK_RUNNING_SCRIPT (i : string) (h : H) : string * H :=
  match hget (reservation_field i) h with
  | None => ("missing", h)
  | Some encoded =>
    let reservation := cjson_decode encoded in
    if rr_running reservation then ("already_running", h) else
    let tenant := rr_tenant reservation in
    if rr_concurrency_limit reservation <=? hnumber (running_field tenant) h
    then ("tenant_concurrency_limit", h)
    else
      ("running",
       hset (reservation_field i) (cjson_encode (reservation <| rr_running := true |>))
         (hincrby (running_field tenant) 1
           (hincrby (queued_field tenant) (-1) (hincrby global_field (-1) h))))
  end.

Definition RELEASE_SCRIPT (i : string) (h : H) : Z * H :=
  match hget (reservation_field i) h with
  | None => (0, h)
  | Some encoded =>
    let reservation := cjson_decode encoded in
    let tenant := rr_tenant reservation in
    let h := if rr_running reservation then hincrby (running_field tenant) (-1) h
             else hincrby (queued_field tenant) (-1) (hincrby global_field (-1) h) in
    (1, hdel (reservation_field i) (hincrby (tokens_field tenant) (- rr_tokens reservation) h))
  end.

Definition SNAPSHOT_SCRIPT (tenant : string) (h : H) : list string :=
  let read f := default "0" (hget f h) in
  [read (queued_field tenant); read (running_field tenant); read (tokens_field tenant)].

(** ** [RedisAdmissionController] *)

Record RedisAdmissionController := mkRedisAdmission {
  rc_tenants : gmap string TenantLimits;
  rc_global_queue_capacity : Z;
  rc_state_key : string
}.

(** The configuration whose JSON text is hashed: capacity and the tenants in sorted order. *)
Definition configuration (tenants : list TenantLimits) (capacity : Z)
  : Z * list (string * Z * Z * Z) :=
  (capacity,
   (λ t, (t_tenant_id t, t_max_concurrent_requests t, t_max_queued_requests t, t_token_quota t)) <$>
     sorted_by (λ a b, str_leb (t_tenant_id a) (t_tenant_id b)) tenants).

Definition brace_in (s : string) : bool :=
  existsb (λ c, (Ascii.nat_of_ascii c =? 123)%nat || (Ascii.nat_of_ascii c =? 125)%nat)
    (String.list_ascii_of_string s).

(** [fingerprint] is the SHA-256 digest of the configuration's JSON text. *)
Definition RedisAdmissionController_init (fingerprint : Z * list (string * Z * Z * Z) → string)
  (tenants : list TenantLimits) (capacity : Z) (namespace : string) (h : H)
  : res RedisAdmissionController * H :=
  if capacity <=? 0 then (Err (ValueError "global queue capacity must be positive"), h) else
  if str_empty namespace || brace_in namespace
  then (Err (ValueError "admission namespace is invalid"), h) else
  if negb (Nat.eqb (size (tenants_by_id tenants)) (length tenants))
  then (Err (ValueError "tenant identifiers must be unique"), h) else
  let '(configured, h) := CONFIGURE_SCRIPT (fingerprint (configuration tenants capacity)) h in
  if bool_decide (configured ∈ ["configured"; "existing"])
  then (Ok (mkRedisAdmission (tenants_by_id tenants) capacity
              ("llm:admission:{" +:+ namespace +:+ "}:state")), h)
  else (Err (ValueError "shared admission configuration conflicts with existing state"), h).

Definition reasons (result : string) : option string :=
  od_get result
    [("admitted", "request capacity reserved"); ("already_admitted", "reservation already exists");
     ("global_queue_full", "global queue is full"); ("tenant_queue_full", "tenant queue is full");
     ("tenant_concurrency_limit", "tenant concurrency limit reached");
     ("tenant_token_quota", "tenant token quota exceeded")].

Definition redis_decide (request : RequestRecord) (model : option ModelDefinition)
  (workers : list WorkerState) (now : float) (rc : RedisAdmissionController) (h : H)
  : res AdmissionDecision * H :=
  match rc_tenants rc !! r_tenant_id request with
  | None => (Ok (mkDecision false "unknown_tenant" "tenant is not configured"), h)
  | Some tenant =>
    match request_checks request model workers now with
    | Some refusal => (Ok refusal, h)
    | None =>
      let '(result, h) := RESERVE_SCRIPT (r_request_id request) (t_tenant_id tenant)
        (estimated_tokens request) (rc_global_queue_capacity rc) (t_max_queued_requests tenant)
        (t_max_concurrent_requests tenant) (t_token_quota tenant) h in
      match reasons result with
      | None => (Err (RuntimeError ("unexpected shared admission result: " +:+ result)), h)
      | Some reason =>
        (Ok (mkDecision (bool_decide (result ∈ ["admitted"; "already_admitted"])) result reason), h)
      end
    end
  end.

Definition redis_mark_running (request_id : string) (h : H) : res unit * H :=
  let '(result, h) := MARK_RUNNING_SCRIPT request_id h in
  (if bool_decide (result = "missing") then Err (KeyError request_id)
   else if bool_decide (result = "tenant_concurrency_limit")
   then Err (RuntimeError "tenant concurrency limit reached")
   else if negb (bool_decide (result ∈ ["running"; "already_running"]))
   then Err (RuntimeError ("unexpected shared admission result: " +:+ result))
   else Ok tt, h).

Definition redis_release (request_id : string) (h : H) : H := (RELEASE_SCRIPT request_id h).2.

Definition redis_snapshot (tenant_id : string) (rc : RedisAdmissionController) (h : H)
  : res TenantSnapshot :=
  match rc_tenants rc !! tenant_id with
  | None => Err (KeyError tenant_id)
  | Some _ =>
    match lua_tonumber <$> SNAPSHOT_SCRIPT tenant_id h with
    | [queued; running; tokens] => Ok (mkTenantSnapshot queued running tokens)
    | _ => Err (RuntimeError "unexpected shared admission snapshot")
    end
  end.
End redis_admission.
Arguments redis_decide {H _}.
Arguments redis_snapshot {H _}.

(** ** Distinct fields never share a name *)

Lemma list_ascii_app s s' :
  String.list_ascii_of_string (s +:+ s')
    = String.list_ascii_of_string s ++ String.list_ascii_of_string s'.
Proof. induction s as [|c s IH]; simpl; [done|]. f_equal. apply IH. Qed.
Lemma list_ascii_inj s s' :
  String.list_ascii_of_string s = String.list_ascii_of_string s' → s = s'.
Proof.
  intros E. by rewrite <- (String.string_of_list_ascii_of_string s), E,
    String.string_of_list_ascii_of_string.
Qed.

Inductive field :=
| Freservation (i : string) | Fqueued (t : string) | Frunning (t : string) | Ftokens (t : string)
| Fglobal.
Definition field_name (f : field) : string :=
  match f with
  | Freservation i => reservation_field i | Fqueued t => queued_field t
  | Frunning t => running_field t | Ftokens t => tokens_field t | Fglobal => global_field
  end.
#[local] Arguments field_name : simpl never.
Lemma app_tail_inj s t t' : t +:+ s = t' +:+ s → t = t'.
Proof.
  intros E. apply (f_equal String.list_ascii_of_string) in E. rewrite !list_ascii_app in E.
  apply app_inv_tail in E. by apply list_ascii_inj.
Qed.
Lemma app_last_ne t t' s s' :
  last (String.list_ascii_of_string s) ≠ last (String.list_ascii_of_string s') →
  s ≠ "" → s' ≠ "" → t +:+ s ≠ t' +:+ s'.
Proof.
  intros Hl Hs Hs' E. apply Hl. apply (f_equal String.list_ascii_of_string) in E.
  rewrite !list_ascii_app in E. apply (f_equal last) in E. rewrite !last_app in E.
  destruct (last (String.list_ascii_of_string s)) eqn:E1;
    [|apply last_None in E1; destruct s; done].
  destruct (last (String.list_ascii_of_string s')) eqn:E2;
    [|apply last_None in E2; destruct s'; done].
  done.
Qed.
Lemma tenant_inj a b : "tenant:" +:+ a = "tenant:" +:+ b → a = b.
Proof. apply (inj (String.append "tenant:")). Qed.
#[export] Instance field_name_inj : Inj (=) (=) field_name.
Proof.
  intros [i|t|t|t|] [i'|t'|t'|t'|] E; cbn [field_name] in E; try discriminate E;
    unfold reservation_field, queued_field, running_field, tokens_field in E.
  all: try reflexivity.
  1: apply (inj (String.append "reservation:")) in E; by subst.
  all: apply tenant_inj in E.
  all: try (apply app_tail_inj in E; by subst).
  all: exfalso; revert E; apply app_last_ne; by vm_compute.
Qed.
Lemma reservation_field_eq i : reservation_field i = field_name (Freservation i).
Proof. done. Qed.

#[export] Instance field_eq_dec : EqDecision field.
Proof. solve_decision. Defined.
Definition is_counter (f : field) : bool := match f with Freservation _ => false | _ => true end.

Section refinement.
Context {H : Type} `{RedisHashLaws RedisReservation H}.
Implicit Types (h : H) (c : TenantAdmissionController) (f : field).

(** ** The hash as counters and documents *)

Definition counter f h : Z := hnumber (field_name f) h.
Definition document (i : string) h : option string := hget (reservation_field i) h.
Definition ints h : Prop := ∀ f, is_counter f = true → integer_field (field_name f) h.

Lemma ints_hincrby f d h : is_counter f = true → ints h → ints (hincrby (field_name f) d h).
Proof. intros Hf Hi f' Hf'. apply integer_field_hincrby; auto. Qed.
Lemma counter_hincrby f f' d h :
  is_counter f = true → ints h →
  counter f' (hincrby (field_name f) d h) = counter f' h + if decide (f = f') then d else 0.
Proof.
  intros Hf Hi. unfold counter. rewrite hnumber_hincrby by auto. f_equal.
  destruct (decide (f = f')) as [->|Hne]; [by rewrite decide_True|].
  rewrite decide_False; [done|]. by intros ?%(inj field_name).
Qed.
Lemma document_hincrby f d i h :
  is_counter f = true → ints h → document i (hincrby (field_name f) d h) = document i h.
Proof.
  intros Hf Hi. apply hget_hincrby_ne; [auto|]. rewrite reservation_field_eq.
  intros ->%(inj field_name). done.
Qed.
Lemma counter_name_ne f i : is_counter f = true → reservation_field i ≠ field_name f.
Proof. intros Hf. rewrite reservation_field_eq. by intros <-%(inj field_name). Qed.
Lemma ints_hset i v h : ints h → ints (hset (reservation_field i) v h).
Proof.
  intros Hi f Hf. apply (integer_field_ext _ h); [|auto].
  rewrite hget_hset, decide_False; [done|by apply counter_name_ne].
Qed.
Lemma ints_hdel i h : ints h → ints (hdel (reservation_field i) h).
Proof.
  intros Hi f Hf. apply (integer_field_ext _ h); [|auto].
  rewrite hget_hdel, decide_False; [done|by apply counter_name_ne].
Qed.
Lemma counter_hset f i v h :
  is_counter f = true → counter f (hset (reservation_field i) v h) = counter f h.
Proof.
  intros Hf. apply hnumber_ext. rewrite hget_hset, decide_False; [done|by apply counter_name_ne].
Qed.
Lemma counter_hdel f i h :
  is_counter f = true → counter f (hdel (reservation_field i) h) = counter f h.
Proof.
  intros Hf. apply hnumber_ext. rewrite hget_hdel, decide_False; [done|by apply counter_name_ne].
Qed.
Lemma reservation_field_inj i i' : reservation_field i = reservation_field i' → i = i'.
Proof. rewrite !reservation_field_eq. by intros [= ->]%(inj field_name). Qed.
Lemma document_hset i i' v h :
  document i' (hset (reservation_field i) v h) = if decide (i = i') then Some v else document i' h.
Proof.
  unfold document. rewrite hget_hset.
  destruct (decide (i = i')) as [->|Hne]; [by rewrite decide_True|].
  rewrite decide_False; [done|]. by intros ?%reservation_field_inj.
Qed.
Lemma document_hdel i i' h :
  document i' (hdel (reservation_field i) h) = if decide (i = i') then None else document i' h.
Proof.
  unfold document. rewrite hget_hdel.
  destruct (decide (i = i')) as [->|Hne]; [by rewrite decide_True|].
  rewrite decide_False; [done|]. by intros ?%reservation_field_inj.
Qed.

(** ** The refinement relation *)

Definition redis_reservation c (i : string) : option RedisReservation :=
  rv ← ac_reserved c !! i;
  limits ← ac_tenants c !! rv_tenant rv;
  Some (mkRedisReservation (rv_tenant rv) (rv_tokens rv) (rv_running rv)
          (t_max_concurrent_requests limits)).
Record represents (rc : RedisAdmissionController) h c : Prop := {
  rep_tenants : rc_tenants rc = ac_tenants c;
  rep_capacity : rc_global_queue_capacity rc = ac_global_queue_capacity c;
  rep_ints : ints h;
  rep_global : counter Fglobal h = msum (λ _ n, n) (ac_queued c);
  rep_queued : ∀ t, counter (Fqueued t) h = cget (ac_queued c) t;
  rep_running : ∀ t, counter (Frunning t) h = cget (ac_running c) t;
  rep_tokens : ∀ t, counter (Ftokens t) h = cget (ac_tokens c) t;
  rep_documents : ∀ i, document i h = cjson_encode <$> redis_reservation c i
}.

Lemma redis_reservation_insert c i rv limits i' :
  ac_tenants c !! rv_tenant rv = Some limits →
  redis_reservation (c <| ac_reserved ::= <[i := rv]> |>) i' =
    if decide (i = i') then Some (mkRedisReservation (rv_tenant rv) (rv_tokens rv) (rv_running rv)
                                    (t_max_concurrent_requests limits))
    else redis_reservation c i'.
Proof.
  intros Hl. unfold redis_reservation. simpl. rewrite lookup_insert. case_decide; simpl; [|done].
  by rewrite Hl.
Qed.
Lemma redis_reservation_delete c i i' :
  redis_reservation (c <| ac_reserved ::= delete i |>) i' =
    if decide (i = i') then None else redis_reservation c i'.
Proof. unfold redis_reservation. simpl. rewrite lookup_delete. by case_decide. Qed.
Lemma document_None rc h c i :
  accounting c → represents rc h c → (document i h = None ↔ ac_reserved c !! i = None).
Proof.
  intros Hacc Hrep. rewrite (rep_documents _ _ _ Hrep). unfold redis_reservation.
  destruct (ac_reserved c !! i) as [rv|] eqn:E; simpl; [|done].
  destruct (acc_known c Hacc i rv E) as [l ->]. done.
Qed.

Ltac counters :=
  repeat first
    [ rewrite counter_hset by done | rewrite counter_hdel by done
    | rewrite counter_hincrby by auto using ints_hincrby, ints_hset
    | rewrite document_hset | rewrite document_hdel
    | rewrite document_hincrby by auto using ints_hincrby, ints_hset ].
Ltac decide_fields :=
  repeat match goal with
  | |- context [decide (?a = ?b :> field)] =>
    first [rewrite (decide_True (P := a = b)) by done
          |rewrite (decide_False (P := a = b)) by done
          |destruct (decide (a = b)) as [?E|?E]]
  end.

Lemma reserve_represents rc h c request limits :
  represents rc h c → ac_tenants c !! r_tenant_id request = Some limits →
  represents rc
    (hset (reservation_field (r_request_id request))
       (cjson_encode (mkRedisReservation (r_tenant_id request) (estimated_tokens request) false
          (t_max_concurrent_requests limits)))
       (hincrby (tokens_field (r_tenant_id request)) (estimated_tokens request)
          (hincrby (queued_field (r_tenant_id request)) 1 (hincrby global_field 1 h))))
    (reserve_for request c).
Proof.
  intros [Ht Hcap Hi Hg Hq Hr Htk Hd] Hl.
  change (tokens_field (r_tenant_id request)) with (field_name (Ftokens (r_tenant_id request))).
  change (queued_field (r_tenant_id request)) with (field_name (Fqueued (r_tenant_id request))).
  change global_field with (field_name Fglobal).
  split; simpl; try done.
  - auto using ints_hincrby, ints_hset.
  - counters. decide_fields. rewrite msum_cadd, Hg. lia.
  - intros t. counters. rewrite cget_cadd, Hq. decide_fields; case_decide; simplify_eq; lia.
  - intros t. counters. rewrite Hr. decide_fields. lia.
  - intros t. counters. rewrite cget_cadd, Htk. decide_fields; case_decide; simplify_eq; lia.
  - intros i. counters. rewrite Hd.
    unfold redis_reservation. simpl. rewrite lookup_insert. case_decide; simpl; [|done].
    by rewrite Hl.
Qed.

Lemma redis_decide_refines request model workers now rc h c :
  accounting c → represents rc h c →
  let '(r, h') := redis_decide request model workers now rc h in
  let '(d, c') := admission_decide request model workers now c in
  represents rc h' c' ∧
  r = Ok (match ac_tenants c !! r_tenant_id request with
          | None =>
            mkDecision false "unknown_tenant" "tenant is not configured"
          | Some _ =>
            match request_checks request model workers now with
            | Some refusal => refusal
            | None => d
            end
          end) ∧
  (ac_reserved c !! r_request_id request = None → r = Ok d).
Proof.
  intros Hacc Hrep. unfold redis_decide, admission_decide.
  pose proof Hrep as [Ht Hcap Hi Hg Hq Hr Htk Hd]. rewrite Ht.
  destruct (ac_tenants c !! r_tenant_id request) as [limits|] eqn:Hl.
  2:{ destruct (ac_reserved c !! r_request_id request); done. }
  destruct (request_checks request model workers now) as [refusal|].
  { destruct (ac_reserved c !! r_request_id request); done. }
  pose proof (acc_tenants c Hacc _ _ Hl) as Hid. rewrite Hid.
  unfold RESERVE_SCRIPT. fold (document (r_request_id request) h).
  change (hnumber global_field h) with (counter Fglobal h).
  change (hnumber (queued_field (r_tenant_id request)) h) with (counter (Fqueued (r_tenant_id request)) h).
  change (hnumber (running_field (r_tenant_id request)) h) with (counter (Frunning (r_tenant_id request)) h).
  change (hnumber (tokens_field (r_tenant_id request)) h) with (counter (Ftokens (r_tenant_id request)) h).
  rewrite Hg, Hq, Hr, Htk, Hcap. pose proof (document_None _ _ _ (r_request_id request) Hacc Hrep) as Hdoc.
  destruct (ac_reserved c !! r_request_id request) as [rv|] eqn:Hres.
  - destruct (document _ h) eqn:E; [done|]. discriminate (proj1 Hdoc eq_refl).
  - rewrite (proj2 Hdoc eq_refl). repeat (case_head; [done|]). split; [|done].
    by apply reserve_represents.
Qed.

Lemma redis_mark_running_refines i rc h c :
  accounting c → represents rc h c →
  match redis_mark_running i h with
  | (Ok _, h') => ∃ c', mark_running i c = Ok c' ∧ represents rc h' c'
  | (Err e, h') => mark_running i c = Err e ∧ h' = h
  end.
Proof.
  intros Hacc Hrep. pose proof Hrep as [Ht Hcap Hi Hg Hq Hr Htk Hd].
  unfold redis_mark_running, MARK_RUNNING_SCRIPT, mark_running. fold (document i h). rewrite Hd.
  unfold redis_reservation at 1.
  destruct (ac_reserved c !! i) as [[tid tokens running]|] eqn:Hres; simpl; [|done].
  destruct (acc_known c Hacc i _ Hres) as [limits Hl]. simpl in Hl. rewrite Hl. simpl.
  rewrite cjson_decode_encode. simpl. destruct running; [by exists c|].
  change (hnumber (running_field tid) h) with (counter (Frunning tid) h). rewrite Hr.
  case_head; simpl; [done|]. bool_hyps.
  pose proof (queued_by_elem _ _ _ Hres eq_refl) as Hpos. simpl in Hpos.
  rewrite <- (acc_queued c Hacc) in Hpos. eexists. split; [reflexivity|].
  change (running_field tid) with (field_name (Frunning tid)).
  change (queued_field tid) with (field_name (Fqueued tid)).
  change global_field with (field_name Fglobal).
  assert ((0 <? cget (ac_queued c) tid) = true) as Hlt by (apply Z.ltb_lt; lia).
  split; simpl; rewrite ?Hlt; try done.
  - auto using ints_hincrby, ints_hset.
  - counters. decide_fields. rewrite msum_cadd, Hg. lia.
  - intros t. rewrite ?Hlt. counters. rewrite cget_cadd, Hq. decide_fields; case_decide; simplify_eq; lia.
  - intros t. counters. rewrite cget_cadd, Hr. decide_fields; case_decide; simplify_eq; lia.
  - intros t. counters. rewrite Htk. decide_fields. lia.
  - intros i'. counters. rewrite Hd. unfold redis_reservation. simpl. rewrite lookup_insert.
    case_decide; simpl; [|done]. by rewrite Hl.
Qed.

Lemma redis_release_refines i rc h c :
  accounting c → represents rc h c → represents rc (redis_release i h) (release i c).
Proof.
  intros Hacc Hrep. pose proof Hrep as [Ht Hcap Hi Hg Hq Hr Htk Hd].
  unfold redis_release, RELEASE_SCRIPT, release. fold (document i h). rewrite Hd.
  unfold redis_reservation at 1.
  destruct (ac_reserved c !! i) as [[tid tokens running]|] eqn:Hres; simpl; [|done].
  destruct (acc_known c Hacc i _ Hres) as [limits Hl]. simpl in Hl. rewrite Hl. simpl.
  rewrite cjson_decode_encode. simpl.
  change (running_field tid) with (field_name (Frunning tid)).
  change (queued_field tid) with (field_name (Fqueued tid)).
  change (tokens_field tid) with (field_name (Ftokens tid)).
  change global_field with (field_name Fglobal).
  destruct running; split; simpl; try done;
    try (apply ints_hdel; auto using ints_hincrby);
    try (intros t; counters; rewrite ?cget_cadd, ?Hq, ?Hr, ?Htk; decide_fields;
         repeat case_decide; simplify_eq; lia);
    try (intros i'; counters; rewrite Hd; unfold redis_reservation; simpl;
         rewrite lookup_delete; by case_decide).
  - counters. decide_fields. rewrite Hg. lia.
  - counters. decide_fields. rewrite msum_cadd, Hg. lia.
Qed.

Lemma redis_snapshot_refines t rc h c :
  represents rc h c → is_Some (ac_tenants c !! t) → redis_snapshot t rc h = Ok (snapshot t c).
Proof.
  intros [Ht Hcap Hi Hg Hq Hr Htk Hd] [l Hl]. unfold redis_snapshot, snapshot. rewrite Ht, Hl. simpl.
  rewrite <- (Hq t), <- (Hr t), <- (Htk t). done.
Qed.

(** ** Runs of several processes on one hash *)

(** The processes hold the same tenants and capacity (the fingerprint enforces it), so a run is
    a sequence of scripts on the shared hash. *)
Inductive redis_step (rc : RedisAdmissionController) : H → H → Prop :=
| redis_step_decide h request model workers now :
    0 <= estimated_tokens request →
    redis_step rc h (redis_decide request model workers now rc h).2
| redis_step_mark_running h i : redis_step rc h (redis_mark_running i h).2
| redis_step_release h i : redis_step rc h (redis_release i h).
Inductive redis_reachable (fingerprint : Z * list (string * Z * Z * Z) → string)
  (tenants : list TenantLimits) (capacity : Z) (namespace : string)
  : RedisAdmissionController → H → Prop :=
| redis_reach_init rc h :
    RedisAdmissionController_init fingerprint tenants capacity namespace hempty = (Ok rc, h) →
    Forall (λ t, is_ok (TenantLimits_post_init t) = true) tenants →
    redis_reachable fingerprint tenants capacity namespace rc h
| redis_reach_step rc h h' :
    redis_reachable fingerprint tenants capacity namespace rc h → redis_step rc h h' →
    redis_reachable fingerprint tenants capacity namespace rc h'.

Lemma fingerprint_field_ne f : field_name f ≠ fingerprint_field.
Proof. destruct f; intros E; discriminate E. Qed.

Lemma redis_init_represents fingerprint tenants capacity namespace rc h :
  RedisAdmissionController_init fingerprint tenants capacity namespace hempty = (Ok rc, h) →
  ∃ c, TenantAdmissionController_init tenants capacity = Ok c ∧ represents rc h c.
Proof.
  unfold RedisAdmissionController_init, TenantAdmissionController_init, CONFIGURE_SCRIPT.
  rewrite hget_hempty. intros Hi. repeat case_hyp Hi; simplify_eq.
  simpl. eexists. split; [reflexivity|].
  assert (∀ f, hget (field_name f)
    (hset fingerprint_field (fingerprint (configuration tenants capacity)) hempty) = None) as Hget.
  { intros f. rewrite hget_hset, decide_False, hget_hempty; [done|].
    intros E. by destruct (fingerprint_field_ne f). }
  assert (∀ f, counter f
    (hset fingerprint_field (fingerprint (configuration tenants capacity)) hempty) = 0) as Hnum.
  { intros f. unfold counter, hnumber. rewrite Hget. apply lua_tonumber_zero. }
  split; simpl; try done.
  - intros f _. left. apply Hget.
  - intros i. unfold document. rewrite reservation_field_eq, Hget. done.
Qed.

Lemma redis_reachable_represents fingerprint tenants capacity namespace rc h :
  redis_reachable fingerprint tenants capacity namespace rc h →
  ∃ c, admission_reachable tenants capacity c ∧ represents rc h c.
Proof.
  induction 1 as [rc h Hi Hpos|rc h h' _ (c & Hc & Hrep) Hs].
  { destruct (redis_init_represents _ _ _ _ _ _ Hi) as (c & Hc & Hrep). exists c.
    split; [by apply reach_init|done]. }
  destruct (admission_reachable_invariant _ _ _ Hc) as [Hacc _].
  destruct Hs as [h request model workers now Hn|h i|h i].
  - exists (admission_decide request model workers now c).2.
    split; [eapply reach_step; [done|by apply step_decide]|].
    pose proof (redis_decide_refines request model workers now rc h c Hacc Hrep) as Hd.
    destruct (redis_decide _ _ _ _ _ _), (admission_decide _ _ _ _ _). apply Hd.
  - pose proof (redis_mark_running_refines i rc h c Hacc Hrep) as Hm.
    destruct (redis_mark_running i h) as [[u|e] h'].
    + destruct Hm as (c' & Hc' & Hrep'). exists c'.
      split; [eapply reach_step; [done|by eapply step_mark_running]|done].
    + destruct Hm as [_ ->]. by exists c.
  - exists (release i c). split; [eapply reach_step; [done|by apply step_release]|].
    by apply redis_release_refines.
Qed.

(** ** Properties *)

(** C17: The Redis controller refines the in-process one: on a hash that represents a controller
    state every operation gives the same answer and a hash that represents the next state. The
    one exception is a repeated [decide] for a request that already holds a reservation: the
    in-process controller always answers "already_admitted", the Redis one first repeats the
    tenant, model, context, deadline and worker checks and may refuse. *)
Theorem redis_admission_refines rc h c :
  accounting c → represents rc h c →
  (∀ request model workers now,
     let '(r, h') := redis_decide request model workers now rc h in
     let '(d, c') := admission_decide request model workers now c in
     represents rc h' c' ∧
     (ac_reserved c !! r_request_id request = None → r = Ok d) ∧
     (is_Some (ac_reserved c !! r_request_id request) →
        d_code d = "already_admitted" ∧
        ∀ limits refusal, ac_tenants c !! r_tenant_id request = Some limits →
          request_checks request model workers now = Some refusal → r = Ok refusal)) ∧
  (∀ i, match redis_mark_running i h with
        | (Ok _, h') => ∃ c', mark_running i c = Ok c' ∧ represents rc h' c'
        | (Err e, h') => mark_running i c = Err e ∧ h' = h
        end) ∧
  (∀ i, represents rc (redis_release i h) (release i c)) ∧
  (∀ t, is_Some (ac_tenants c !! t) → redis_snapshot t rc h = Ok (snapshot t c)).
Proof.
  intros Hacc Hrep. split_and!; [|by intros; apply redis_mark_running_refines
    |by intros; apply redis_release_refines|by intros; apply redis_snapshot_refines].
  intros request model workers now.
  pose proof (redis_decide_refines request model workers now rc h c Hacc Hrep) as Hd.
  destruct (redis_decide _ _ _ _ _ _) as [r h'] eqn:Hr.
  destruct (admission_decide _ _ _ _ _) as [d c'] eqn:Ha. destruct Hd as (Hd1 & Hd2 & Hd3).
  split_and!; [done|done|]. intros [rv Hrv]. unfold admission_decide in Ha. rewrite Hrv in Ha.
  injection Ha as <- <-. split; [done|]. intros limits refusal Hl Hq. by rewrite Hd2, Hl, Hq.
Qed.

(** Shared admission never oversubscribes: whatever the interleaving of admission calls of
    any number of processes on the shared hash, the reservations it holds stay within the global
    queue capacity and within every tenant's limits, and the counters are exact. *)
Theorem redis_admission_never_oversubscribes fingerprint tenants capacity namespace rc h :
  redis_reachable fingerprint tenants capacity namespace rc h →
  counter Fglobal h <= rc_global_queue_capacity rc ∧
  (∀ t l, rc_tenants rc !! t = Some l →
     0 <= counter (Fqueued t) h <= t_max_queued_requests l ∧
     0 <= counter (Frunning t) h <= t_max_concurrent_requests l ∧
     counter (Ftokens t) h <= t_token_quota l) ∧
  (∃ c, accounting c ∧ represents rc h c).
Proof.
  intros (c & Hc & Hrep)%redis_reachable_represents.
  destruct (admission_reachable_invariant _ _ _ Hc) as [Hacc [L1 L2 L3 L4]].
  pose proof Hrep as [Ht Hcap Hi Hg Hq Hr Htk Hd]. split_and!; [| |by exists c].
  - rewrite Hg, Hcap, (acc_total c Hacc). done.
  - intros t l Hl. rewrite Ht in Hl.
    rewrite Hq, Hr, Htk, (acc_queued c Hacc), (acc_running c Hacc), (acc_tokens c Hacc).
    pose proof (queued_by_nonneg (ac_reserved c) t). pose proof (running_by_nonneg (ac_reserved c) t).
    specialize (L2 t l Hl). specialize (L3 t l Hl). specialize (L4 t l Hl). lia.
Qed.
End refinement.

(** ** Witnesses *)

Definition sample_fingerprint (_ : Z * list (string * Z * Z * Z)) : string := "digest".
Definition sample_empty : gmap string string := hempty (R := RedisReservation).
Definition sample_redis_init : res RedisAdmissionController * gmap string string :=
  RedisAdmissionController_init sample_fingerprint [sample_tenant] 3 "default" sample_empty.
Definition sample_rc : RedisAdmissionController :=
  match sample_redis_init.1 with Ok rc => rc | Err _ => mkRedisAdmission ∅ 0 "" end.
Definition sample_hash0 : gmap string string := sample_redis_init.2.
Definition sample_hash : gmap string string :=
  (redis_decide sample_request (Some sample_model) [sample_worker] f_zero sample_rc sample_hash0).2.

Lemma sample_redis_init_Ok :
  RedisAdmissionController_init sample_fingerprint [sample_tenant] 3 "default" sample_empty
    = (Ok sample_rc, sample_hash0).
Proof. vm_compute. reflexivity. Qed.
Lemma sample_redis_reachable :
  redis_reachable sample_fingerprint [sample_tenant] 3 "default" sample_rc sample_hash.
Proof.
  refine (redis_reach_step _ _ _ _ _ sample_hash0 _ _
    (redis_step_decide _ sample_hash0 sample_request (Some sample_model) [sample_worker] f_zero _)).
  - apply redis_reach_init; [apply sample_redis_init_Ok|repeat constructor].
  - vm_compute. discriminate.
Qed.
Lemma sample_represents : represents sample_rc sample_hash0 sample_controller.
Proof.
  destruct (redis_init_represents _ _ _ _ _ _ sample_redis_init_Ok) as (c & Hc & Hrep).
  assert (c = sample_controller) as <-; [|done].
  assert (TenantAdmissionController_init [sample_tenant] 3 = Ok sample_controller) as H
    by (vm_compute; reflexivity).
  congruence.
Qed.
Lemma redis_admission_refines_witness :
  (redis_decide sample_request (Some sample_model) [sample_worker] f_zero sample_rc sample_hash0).1
    = Ok (mkDecision true "admitted" "request capacity reserved") ∧
  represents sample_rc (redis_release "req-1" sample_hash0) (release "req-1" sample_controller).
Proof.
  split; [vm_compute; reflexivity|].
  exact (proj1 (proj2 (proj2 (redis_admission_refines sample_rc sample_hash0 sample_controller
    sample_controller_accounting sample_represents))) "req-1").
Defined.
Lemma redis_admission_never_oversubscribes_witness :
  counter Fglobal sample_hash = 1 ∧
  counter Fglobal sample_hash <= rc_global_queue_capacity sample_rc.
Proof.
  split; [vm_compute; reflexivity|].
  exact (proj1 (redis_admission_never_oversubscribes sample_fingerprint [sample_tenant] 3 "default"
    sample_rc sample_hash sample_redis_reachable)).
Defined.
