(* ===== verification/Lease.v ===== *)
(** [serving_platform/coordination/lease.py]: the renewable leadership lease on one Redis key,
    over the [RedisKeys] interface. *)
From S2P Require Import Prelude PyFloat RedisAdmission Redis.
From Stdlib Require String.

#[local] Open Scope string_scope.
#[local] Open Scope list_scope.
#[local] Open Scope Z_scope.

Record RedisLease := mkLease { ls_key : string; ls_ttl_ms : Z; ls_owner_token : string }.

(** [fresh] is the identifier [uuid.uuid4().hex] would give. *)
Definition RedisLease_init (name : string) (ttl_seconds : float) (owner_token : option string)
  (fresh : string) : res RedisLease :=
  _ ← raise_if (str_empty name || brace_in name) (ValueError "lease name is invalid");
  _ ← raise_if (f_leb ttl_seconds f_zero) (ValueError "lease TTL must be positive");
  Ok (mkLease ("llm:coordination:{" +:+ name +:+ "}:lease")
        (Z.max 1 (f_round (f_mul ttl_seconds (f_of_Z 1000))))
        (match owner_token with
         | Some token => if str_empty token then fresh else token
         | None => fresh
         end)).

Section lease.
Context {D : Type} `{RedisKeysLaws string D}.
Implicit Types (d : D) (l : RedisLease).

Definition RENEW_SCRIPT (key token : string) (ttl_ms : Z) d : Z * D :=
  if bool_decide (redis_get key d = Some token) then redis_pexpire key ttl_ms d else (0, d).
Definition LEASE_RELEASE_SCRIPT (key token : string) d : Z * D :=
  if bool_decide (redis_get key d = Some token) then redis_del key d else (0, d).

Definition lease_acquire l d : bool * D :=
  redis_set (ls_key l) (ls_owner_token l) true false (Some (ls_ttl_ms l)) d.
Definition lease_renew l d : bool * D :=
  let '(r, d) := RENEW_SCRIPT (ls_key l) (ls_owner_token l) (ls_ttl_ms l) d in
  (negb (r =? 0), d).
Definition lease_release l d : bool * D :=
  let '(r, d) := LEASE_RELEASE_SCRIPT (ls_key l) (ls_owner_token l) d in (negb (r =? 0), d).
Definition is_owner l d : bool := bool_decide (redis_get (ls_key l) d = Some (ls_owner_token l)).

(** ** Specification: what contenders and time may do to the key *)

Inductive lease_call :=
| Acquire (l : RedisLease) | Renew (l : RedisLease) | Release (l : RedisLease) | Tick (ms : Z).
Definition run_call (c : lease_call) d : bool * D :=
  match c with
  | Acquire l => lease_acquire l d
  | Renew l => lease_renew l d
  | Release l => lease_release l d
  | Tick ms => (true, redis_tick ms d)
  end.
Definition caller (c : lease_call) : option RedisLease :=
  match c with Acquire l | Renew l | Release l => Some l | Tick _ => None end.
Definition elapsed (c : lease_call) : Z := match c with Tick ms => ms | _ => 0 end.
(** The answers of the calls, and the database after them. *)
Fixpoint run_calls (cs : list lease_call) d : list bool * D :=
  match cs with
  | [] => ([], d)
  | c :: cs' => let '(b, d1) := run_call c d in let '(bs, d2) := run_calls cs' d1 in (b :: bs, d2)
  end.

(** [l] holds its key for another [ttl] milliseconds. *)
Definition holds l (ttl : Z) d : Prop := redis_view d (ls_key l) = Some (ls_owner_token l, Some ttl).

(** ** Lemmas *)

Lemma holds_owner l ttl d : holds l ttl d → is_owner l d = true.
Proof. intros Hh. apply bool_decide_eq_true. by rewrite redis_get_view, Hh. Qed.
Lemma view_insert_eq {V} k (x : option (V * option Z)) view : view_insert k x view k = x.
Proof. unfold view_insert. by rewrite decide_True. Qed.

Lemma acquire_holds l d d' : lease_acquire l d = (true, d') → holds l (ls_ttl_ms l) d'.
Proof.
  intros Ha. unfold holds. pose proof (redis_set_view (ls_key l) (ls_owner_token l) true false
    (Some (ls_ttl_ms l)) d (ls_key l)) as Hv.
  unfold lease_acquire in Ha. rewrite Ha in Hv. simpl in Hv. by rewrite view_insert_eq in Hv.
Qed.
Lemma renew_holds l d d' :
  0 < ls_ttl_ms l → lease_renew l d = (true, d') → holds l (ls_ttl_ms l) d'.
Proof.
  intros Httl Hr. unfold lease_renew, RENEW_SCRIPT in Hr.
  destruct (bool_decide_reflect (redis_get (ls_key l) d = Some (ls_owner_token l))) as [Hg|]; [|done].
  pose proof (redis_pexpire_view (ls_key l) (ls_ttl_ms l) d (ls_key l) Httl) as Hv.
  destruct (redis_pexpire _ _ _) as [r d1]. injection Hr as _ <-. simpl in Hv.
  rewrite view_insert_eq in Hv. unfold holds. rewrite Hv.
  rewrite redis_get_view in Hg. destruct (redis_view d (ls_key l)) as [[v t]|]; simpl in *; congruence.
Qed.

(** A call of another contender for the same key, or time short of the TTL, keeps the lease. *)
Lemma other_call_holds l ttl d c :
  holds l ttl d → 0 <= elapsed c → elapsed c < ttl →
  (∀ l', caller c = Some l' → ls_key l' = ls_key l ∧ ls_owner_token l' ≠ ls_owner_token l) →
  holds l (ttl - elapsed c) (run_call c d).2 ∧ (is_Some (caller c) → (run_call c d).1 = false).
Proof.
  intros Hh Hn0 Hlt Hc. assert (redis_get (ls_key l) d = Some (ls_owner_token l)) as Hg
    by (by rewrite redis_get_view, Hh).
  destruct c as [l'|l'|l'|ms]; simpl in *;
    try (destruct (Hc l' eq_refl) as [Hk Ht]; rewrite Z.sub_0_r).
  - unfold lease_acquire. rewrite Hk.
    assert ((redis_set (ls_key l) (ls_owner_token l') true false (Some (ls_ttl_ms l')) d).1 = false)
      as Hf by (by rewrite redis_set_result, Hh).
    split; [|done]. unfold holds. rewrite redis_set_view, Hf. done.
  - unfold lease_renew, RENEW_SCRIPT. rewrite Hk, Hg, bool_decide_eq_false_2 by congruence. done.
  - unfold lease_release, LEASE_RELEASE_SCRIPT. rewrite Hk, Hg, bool_decide_eq_false_2 by congruence.
    done.
  - split; [|by intros [? ?]]. unfold holds. rewrite redis_tick_view, Hh. simpl. unfold expire. simpl.
    rewrite (proj2 (Z.leb_gt _ _)) by lia. done.
Qed.

(** ** Properties *)

(** C25: The lease excludes: once a contender has acquired or renewed it, then as long as less
    than its TTL elapses, every [acquire], [renew] and [release] of contenders with another token
    fails, in any order and number, and the contender is still the owner afterwards. *)
Theorem lease_excludes l d d' cs :
  0 < ls_ttl_ms l →
  lease_acquire l d = (true, d') ∨ lease_renew l d = (true, d') →
  (∀ c, c ∈ cs → 0 <= elapsed c) → zsum elapsed cs < ls_ttl_ms l →
  (∀ c l', c ∈ cs → caller c = Some l' →
     ls_key l' = ls_key l ∧ ls_owner_token l' ≠ ls_owner_token l) →
  is_owner l (run_calls cs d').2 = true ∧
  ∀ i c b, cs !! i = Some c → (run_calls cs d').1 !! i = Some b → is_Some (caller c) → b = false.
Proof.
  intros Httl Hacq Hpos Hsum Hoth. assert (holds l (ls_ttl_ms l) d') as Hh
    by (destruct Hacq; [by eapply acquire_holds|by eapply renew_holds]).
  clear Hacq Httl. remember (ls_ttl_ms l) as ttl eqn:Et. clear Et. revert d' ttl Hh Hsum.
  induction cs as [|c cs IH]; intros d1 ttl Hh Hsum; simpl.
  { split; [by eapply holds_owner|done]. }
  assert (0 <= zsum elapsed cs) as Hs by (apply zsum_nonneg; intros; apply Hpos; by right).
  unfold zsum in Hsum. simpl in Hsum. fold (zsum elapsed cs) in Hsum.
  assert (0 <= elapsed c) as Hc by (apply Hpos; left).
  destruct (other_call_holds l ttl d1 c Hh Hc) as [Hh' Hb];
    [lia|intros l' Hl'; by apply (Hoth c l'); [left|]|].
  destruct (run_call c d1) as [b d2]. simpl in *.
  destruct (IH (λ c Hc, Hpos c (list_elem_of_further _ _ _ Hc))
    (λ c l' Hc, Hoth c l' (list_elem_of_further _ _ _ Hc)) d2 _ Hh') as [IH1 IH2]; [lia|].
  destruct (run_calls cs d2) as [bs d3]. simpl in *. split; [done|].
  intros [|i] c' b' Hi Hi'; simpl in *; [by simplify_eq; auto|eauto].
Qed.

(** The lease is live: when its TTL has elapsed without a renewal, another contender's
    [acquire] succeeds and makes it the owner, and the delayed former owner can neither renew nor
    release what the new owner holds. *)
Theorem lease_takeover l l' ttl d ms :
  holds l ttl d → ttl <= ms → ls_key l' = ls_key l → ls_owner_token l' ≠ ls_owner_token l →
  ∃ d', lease_acquire l' (redis_tick ms d) = (true, d') ∧ is_owner l' d' = true ∧
    is_owner l d' = false ∧ lease_renew l d' = (false, d') ∧ lease_release l d' = (false, d').
Proof.
  intros Hh Hms Hk Ht. destruct (lease_acquire l' (redis_tick ms d)) as [b d'] eqn:Ha.
  assert (b = true) as ->.
  { unfold lease_acquire in Ha. rewrite <- (f_equal fst Ha : _ = b), redis_set_result.
    rewrite redis_tick_view, Hk, Hh. simpl. unfold expire. simpl. by rewrite (proj2 (Z.leb_le _ _)). }
  exists d'. pose proof (acquire_holds _ _ _ Ha) as Hh'.
  assert (redis_get (ls_key l) d' = Some (ls_owner_token l')) as Hg
    by (rewrite redis_get_view, <- Hk; by rewrite Hh').
  unfold lease_renew, lease_release, RENEW_SCRIPT, LEASE_RELEASE_SCRIPT, is_owner.
  rewrite Hk, Hg, bool_decide_eq_true_2, bool_decide_eq_false_2 by congruence. done.
Qed.
End lease.

(** ** Witnesses *)

Definition lease_a : RedisLease := mkLease "llm:coordination:{r}:lease" 1000 "a".
Definition lease_b : RedisLease := mkLease "llm:coordination:{r}:lease" 1000 "b".
Definition lease_db : gmap string (string * option Z) := (lease_acquire lease_a ∅).2.
Lemma lease_excludes_witness :
  (run_calls [Acquire lease_b; Tick 999; Renew lease_b; Release lease_b] lease_db).1
    = [false; true; false; false] ∧
  is_owner lease_a
    (run_calls [Acquire lease_b; Tick 999; Renew lease_b; Release lease_b] lease_db).2 = true.
Proof.
  split; [vm_compute; reflexivity|].
  refine (proj1 (lease_excludes lease_a ∅ lease_db
    [Acquire lease_b; Tick 999; Renew lease_b; Release lease_b] eq_refl _ _ eq_refl _)).
  - left. vm_compute. reflexivity.
  - intros c Hc. repeat (apply elem_of_cons in Hc as [->|Hc]; [simpl; lia|]).
    by apply not_elem_of_nil in Hc.
  - intros c l' Hc Hl. repeat (apply elem_of_cons in Hc as [->|Hc]; [simpl in Hl; simplify_eq; done|]).
    by apply not_elem_of_nil in Hc.
Defined.
Lemma lease_takeover_witness :
  ∃ d', lease_acquire lease_b (redis_tick 1000 lease_db) = (true, d') ∧ is_owner lease_a d' = false.
Proof.
  assert (holds lease_a 1000 lease_db) as Hh by (vm_compute; reflexivity).
  destruct (lease_takeover lease_a lease_b 1000 lease_db 1000 Hh ltac:(lia) eq_refl ltac:(discriminate))
    as (d' & H1 & _ & H2 & _).
  exists d'. exact (conj H1 H2).
Defined.
