(* ===== verification/Json.v ===== *)
(** JSON documents as Python's [json] module reads and writes them: [dict], [list], [str],
    [int], [float], [bool] and [None]. *)
From S2P Require Import Prelude PyContainers PyFloat.
From Stdlib Require String.

#[local] Open Scope string_scope.
#[local] Open Scope list_scope.
#[local] Open Scope Z_scope.
#[local] Set Warnings "-register-all".

Inductive json :=
| JNull
| JBool (b : bool)
| JInt (n : Z)
| JFloat (x : float)
| JStr (s : string)
| JList (l : list json)
| JObj (fields : list (string * json)).

(** [payload[key]], and the value read at the type the caller uses it at. *)
Definition jget (key : string) (j : json) : res json :=
  match j with
  | JObj fields => match od_get key fields with Some v => Ok v | None => Err (KeyError key) end
  | _ => Err (ValueError "not an object")
  end.
Definition jstr (j : json) : res string :=
  match j with JStr s => Ok s | _ => Err (ValueError "not a string") end.
Definition jint (j : json) : res Z :=
  match j with JInt n => Ok n | _ => Err (ValueError "not an integer") end.
Definition jfloat (j : json) : res float :=
  match j with JFloat x => Ok x | _ => Err (ValueError "not a number") end.
Definition jbool (j : json) : res bool :=
  match j with JBool b => Ok b | _ => Err (ValueError "not a boolean") end.
Definition jlist (j : json) : res (list json) :=
  match j with JList l => Ok l | _ => Err (ValueError "not a list") end.
Definition jobj (j : json) : res (list (string * json)) :=
  match j with JObj l => Ok l | _ => Err (ValueError "not an object") end.
Definition jopt {A} (f : json → res A) (j : json) : res (option A) :=
  match j with JNull => Ok None | _ => Some <$> f j end.
Definition jof_opt {A} (f : A → json) (o : option A) : json :=
  match o with Some a => f a | None => JNull end.

Fixpoint mapR {A B} (f : A → res B) (l : list A) : res (list B) :=
  match l with [] => Ok [] | x :: l' => y ← f x; ys ← mapR f l'; Ok (y :: ys) end.

Lemma mapR_fmap {A B} (f : B → res A) (g : A → B) (l : list A) :
  (∀ x, f (g x) = Ok x) → mapR f (g <$> l) = Ok l.
Proof. intros H. induction l as [|x l IH]; [done|]. rewrite fmap_cons. cbn [mapR]. by rewrite H, IH. Qed.
Lemma mapR_elem {A B} (f : A → res B) l ys y :
  mapR f l = Ok ys → (y ∈ ys ↔ ∃ x, x ∈ l ∧ f x = Ok y).
Proof.
  revert ys. induction l as [|x l IH]; intros ys; simpl.
  - intros [= <-]. split; [by intros ?%not_elem_of_nil|by intros (? & ?%not_elem_of_nil & _)].
  - intros (y0 & Hx & H)%bind_Ok_inv. apply bind_Ok_inv in H as (ys0 & Hys & [= <-]).
    rewrite elem_of_cons, (IH ys0 Hys). setoid_rewrite elem_of_cons. split.
    + intros [->|(x' & ? & ?)]; eauto.
    + intros (x' & [->|Hin] & Hf); [left; congruence|eauto].
Qed.
Lemma jopt_of_opt {A} (f : json → res A) (g : A → json) (o : option A) :
  (∀ a, f (g a) = Ok a) → (∀ a, g a ≠ JNull) → jopt f (jof_opt g o) = Ok o.
Proof.
  intros H Hn. destruct o as [a|]; simpl; [|done]. unfold jopt.
  pose proof (Hn a). destruct (g a) eqn:E; try done; rewrite <- E, H; done.
Qed.
