(* ===== verification/RequestStore.v ===== *)
(** [serving_platform/request_state/in_memory.py] and [redis_store.py]: the two request state
    stores, and the refinement of the first by the second up to redaction. *)
From S2P Require Import Prelude PyContainers PyFloat Domain Redis Json.
From Stdlib Require String.
From stdpp Require Import sorting.

#[local] Open Scope string_scope.
#[local] Open Scope list_scope.
#[local] Open Scope Z_scope.

(** ** [InMemoryRequestStateStore]: records are copied in and out, so they are values here *)

Abbreviation InMemoryRequestStateStore := (gmap string RequestRecord).
Definition store_init : InMemoryRequestStateStore := ∅.
Definition store_create (request : RequestRecord) (m : InMemoryRequestStateStore)
  : res InMemoryRequestStateStore :=
  match m !! r_request_id request with
  | Some _ => Err (ValueError ("request already exists: " +:+ r_request_id request))
  | None => Ok (<[r_request_id request := request]> m)
  end.
Definition store_get (request_id : string) (m : InMemoryRequestStateStore) : option RequestRecord :=
  m !! request_id.
Definition store_save (request : RequestRecord) (m : InMemoryRequestStateStore)
  : res InMemoryRequestStateStore :=
  match m !! r_request_id request with
  | None => Err (KeyError ("request does not exist: " +:+ r_request_id request))
  | Some _ => Ok (<[r_request_id request := request]> m)
  end.
Definition store_list (m : InMemoryRequestStateStore) : list RequestRecord :=
  omap (λ k, m !! k) (sorted_by str_leb (map_to_list m).*1).

(** ** [RedisRequestStateStore._encode] and [_decode] *)

Definition encode_timestamps (ts : gmap RequestState float) : list (string * json) :=
  sorted_by (λ a b, str_leb a.1 b.1)
    ((λ p, (RequestState_value p.1, JFloat p.2)) <$> map_to_list ts).
(** The fields in the order [sort_keys=True] gives them; the prompt is left out. *)
Definition encode_request (r : RequestRecord) : json :=
  JObj
    [("assigned_worker_id", jof_opt JStr (r_assigned_worker_id r));
     ("attempt_count", JInt (r_attempt_count r));
     ("created_at", JFloat (r_created_at r));
     ("deadline", JFloat (r_deadline r));
     ("max_new_tokens", JInt (r_max_new_tokens r));
     ("model_id", JStr (r_model_id r));
     ("priority", JInt (r_priority r));
     ("prompt_tokens", JInt (r_prompt_tokens r));
     ("request_id", JStr (r_request_id r));
     ("retry_reasons", JList (JStr <$> r_retry_reasons r));
     ("status", JStr (RequestState_value (r_status r)));
     ("stream", JBool (r_stream r));
     ("temperature", JFloat (r_temperature r));
     ("tenant_id", JStr (r_tenant_id r));
     ("transition_timestamps", JObj (encode_timestamps (r_transition_timestamps r)))].

Definition decode_state (v : string) : res RequestState :=
  enum_of_value RequestState_value all_RequestState v.
Fixpoint decode_timestamps (l : list (string * json)) (ts : gmap RequestState float)
  : res (gmap RequestState float) :=
  match l with
  | [] => Ok ts
  | (state, timestamp) :: l' =>
    s ← decode_state state; x ← jfloat timestamp; decode_timestamps l' (<[s := x]> ts)
  end.
Definition decode_request (payload : json) : res RequestRecord :=
  request_id ← (jget "request_id" payload ≫= jstr);
  tenant_id ← (jget "tenant_id" payload ≫= jstr);
  model_id ← (jget "model_id" payload ≫= jstr);
  prompt_tokens ← (jget "prompt_tokens" payload ≫= jint);
  max_new_tokens ← (jget "max_new_tokens" payload ≫= jint);
  priority ← (jget "priority" payload ≫= jint);
  deadline ← (jget "deadline" payload ≫= jfloat);
  stream ← (jget "stream" payload ≫= jbool);
  temperature ← (jget "temperature" payload ≫= jfloat);
  created_at ← (jget "created_at" payload ≫= jfloat);
  status ← (jget "status" payload ≫= jstr);
  status ← decode_state status;
  assigned_worker_id ← (jget "assigned_worker_id" payload ≫= jopt jstr);
  attempt_count ← (jget "attempt_count" payload ≫= jint);
  retry_reasons ← (jget "retry_reasons" payload ≫= jlist);
  retry_reasons ← mapR jstr retry_reasons;
  timestamps ← (jget "transition_timestamps" payload ≫= jobj);
  timestamps ← decode_timestamps timestamps ∅;
  RequestRecord_post_init
    (mkRequest request_id tenant_id model_id "[redacted]" prompt_tokens max_new_tokens priority
       deadline stream temperature created_at status assigned_worker_id attempt_count
       retry_reasons false timestamps).

(** ** [RedisRequestStateStore]

    [dumps] and [loads] are the text form of a document in the [json] module. *)
Section redis_store.
Context {T D : Type} `{RedisKeysLaws T D}.
Context (dumps : json → T) (loads : T → res json).
Hypothesis loads_dumps : ∀ j, loads (dumps j) = Ok j.
Variable key_prefix : string.
Implicit Types (d : D).

Definition store_key (request_id : string) : string := key_prefix +:+ request_id.
Definition redis_create (request : RequestRecord) d : res unit * D :=
  let '(ok, d) := redis_set (store_key (r_request_id request)) (dumps (encode_request request))
                    true false None d in
  (if ok then Ok tt else Err (ValueError ("request already exists: " +:+ r_request_id request)), d).
Definition redis_store_get (request_id : string) d : res (option RequestRecord) :=
  match redis_get (store_key request_id) d with
  | None => Ok None
  | Some value => payload ← loads value; r ← decode_request payload; Ok (Some r)
  end.
Definition redis_save (request : RequestRecord) d : res unit * D :=
  let '(ok, d) := redis_set (store_key (r_request_id request)) (dumps (encode_request request))
                    false true None d in
  (if ok then Ok tt else Err (KeyError ("request does not exist: " +:+ r_request_id request)), d).
(** The comprehension over the keys that [scan_iter] yields. *)
Fixpoint read_keys (keys : list string) d : res (list RequestRecord) :=
  match keys with
  | [] => Ok []
  | k :: ks =>
    match redis_get k d with
    | None => read_keys ks d
    | Some value =>
      payload ← loads value; r ← decode_request payload; rs ← read_keys ks d; Ok (r :: rs)
    end
  end.
Definition redis_list d : res (list RequestRecord) :=
  rs ← read_keys (redis_scan (key_prefix +:+ "*") d) d;
  Ok (sorted_by (λ a b, str_leb (r_request_id a) (r_request_id b)) rs).
End redis_store.

(** ** Round trip *)

(** What survives a trip through Redis. *)
Definition redacted (r : RequestRecord) : RequestRecord :=
  r <| r_prompt := "[redacted]" |> <| r_payload_available := false |>.
(** A record as the platform builds them: validated, with its status stamped. *)
Definition record_ok (r : RequestRecord) : Prop :=
  RequestRecord_post_init r = Ok r ∧ is_Some (r_transition_timestamps r !! r_status r).

Lemma foldl_insert_map (l : list (RequestState * float)) (ts : gmap RequestState float) :
  NoDup l.*1 → foldl (λ m p, <[p.1 := p.2]> m) ts l = list_to_map l ∪ ts.
Proof.
  revert ts. induction l as [|[s x] l IH]; intros ts; simpl; [by rewrite (left_id_L ∅ (∪))|].
  intros [Hn Hd]%NoDup_cons. rewrite IH by done.
  rewrite <- insert_union_l, insert_union_r; [done|]. by apply not_elem_of_list_to_map_1.
Qed.
Lemma decode_encode_timestamps ts : decode_timestamps (encode_timestamps ts) ∅ = Ok ts.
Proof.
  set (f := λ p : RequestState * float, (RequestState_value p.1, JFloat p.2)).
  destruct (Permutation_map_inv f (map_to_list ts) (l1 := encode_timestamps ts)) as (l & Hl & Hp).
  { apply sorted_by_perm. }
  rewrite Hl. assert (NoDup l.*1) as Hd.
  { rewrite <- Hp. apply NoDup_fst_map_to_list. }
  transitivity (Ok (A := gmap RequestState float) (foldl (λ m p, <[p.1 := p.2]> m) ∅ l)).
  - clear. generalize (∅ : gmap RequestState float). induction l as [|[s x] l IH]; intros m; [done|].
    simpl. unfold decode_state. rewrite RequestState_of_value. simpl. apply IH.
  - f_equal. rewrite foldl_insert_map by done. rewrite (right_id_L ∅ (∪)).
    rewrite (list_to_map_proper l (map_to_list ts)) by done. apply list_to_map_to_list.
Qed.

Lemma decode_encode_request r : record_ok r → decode_request (encode_request r) = Ok (redacted r).
Proof.
  intros [Hv [x Hx]]. unfold decode_request, encode_request. simpl.
  unfold decode_state. rewrite RequestState_of_value. simpl.
  rewrite jopt_of_opt by done. simpl. rewrite mapR_fmap by done. simpl.
  rewrite decode_encode_timestamps. simpl.
  unfold RequestRecord_post_init in *. apply bind_Ok_inv in Hv as (? & H1 & Hv).
  apply bind_Ok_inv in Hv as (? & H2 & _). apply raise_if_Ok in H1, H2. simpl. rewrite H1. simpl.
  apply orb_false_iff in H2 as [H2 ->]. apply orb_false_iff in H2 as [H2 ->].
  apply orb_false_iff in H2 as [_ ->]. simpl. unfold field_update. simpl. by rewrite Hx.
Qed.

(** ** Refinement *)

Section refinement.
Context {T D : Type} `{RedisKeysLaws T D}.
Context (dumps : json → T) (loads : T → res json).
Hypothesis loads_dumps : ∀ j, loads (dumps j) = Ok j.
Variable key_prefix : string.
Implicit Types (d : D) (m : InMemoryRequestStateStore).

(** The keys under the prefix hold exactly the encoded records. *)
Record store_represents d m : Prop := {
  sr_keys : ∀ i, redis_view d (store_key key_prefix i)
    = (λ r, (dumps (encode_request r), None)) <$> m !! i;
  sr_ids : ∀ i r, m !! i = Some r → r_request_id r = i ∧ record_ok r
}.
Lemma store_key_inj i i' : store_key key_prefix i = store_key key_prefix i' → i = i'.
Proof. apply (inj (String.append key_prefix)). Qed.
Lemma store_represents_insert d d' m r :
  store_represents d m → record_ok r →
  (∀ k, redis_view d' k = view_insert (store_key key_prefix (r_request_id r))
     (Some (dumps (encode_request r), None)) (redis_view d) k) →
  store_represents d' (<[r_request_id r := r]> m).
Proof.
  intros [Hk Hi] Hr Hv. split.
  - intros i. rewrite Hv. unfold view_insert. rewrite lookup_insert.
    destruct (decide (r_request_id r = i)) as [->|Hne]; [by rewrite decide_True|].
    rewrite decide_False by (by intros ?%store_key_inj). by rewrite Hk.
  - intros i r'. rewrite lookup_insert. case_decide; [intros [= <-]; done|apply Hi].
Qed.

Lemma redis_get_spec d m i :
  store_represents d m →
  redis_store_get loads key_prefix i d = Ok (redacted <$> store_get i m).
Proof.
  intros [Hk Hi]. unfold redis_store_get, store_get. rewrite redis_get_view, Hk.
  destruct (m !! i) as [r|] eqn:E; simpl; [|done]. rewrite loads_dumps. simpl.
  by rewrite decode_encode_request by (by eapply Hi).
Qed.
Lemma redis_create_spec d m r :
  store_represents d m → record_ok r →
  match redis_create dumps key_prefix r d with
  | (Ok _, d') => ∃ m', store_create r m = Ok m' ∧ store_represents d' m'
  | (Err e, d') => store_create r m = Err e ∧ store_represents d' m
  end.
Proof.
  intros Hrep Hr. unfold redis_create, store_create.
  set (k := store_key key_prefix (r_request_id r)).
  pose proof (redis_set_result k (dumps (encode_request r)) true false None d) as H1.
  pose proof (redis_set_view k (dumps (encode_request r)) true false None d) as H2.
  unfold k at 2 in H1. rewrite (sr_keys _ _ Hrep) in H1.
  destruct (redis_set _ _ _ _ _ _) as [b d']. simpl in *.
  destruct (m !! r_request_id r) as [r0|]; simpl in *; subst b; simpl.
  - split; [done|]. destruct Hrep as [Hk Hi]. split; [|done]. intros i. by rewrite H2.
  - eexists. split; [done|]. by apply (store_represents_insert d).
Qed.
Lemma redis_save_spec d m r :
  store_represents d m → record_ok r →
  match redis_save dumps key_prefix r d with
  | (Ok _, d') => ∃ m', store_save r m = Ok m' ∧ store_represents d' m'
  | (Err e, d') => store_save r m = Err e ∧ store_represents d' m
  end.
Proof.
  intros Hrep Hr. unfold redis_save, store_save.
  set (k := store_key key_prefix (r_request_id r)).
  pose proof (redis_set_result k (dumps (encode_request r)) false true None d) as H1.
  pose proof (redis_set_view k (dumps (encode_request r)) false true None d) as H2.
  unfold k at 2 in H1. rewrite (sr_keys _ _ Hrep) in H1.
  destruct (redis_set _ _ _ _ _ _) as [b d']. simpl in *.
  destruct (m !! r_request_id r) as [r0|]; simpl in *; subst b; simpl.
  - eexists. split; [done|]. by apply (store_represents_insert d).
  - split; [done|]. destruct Hrep as [Hk Hi]. split; [|done]. intros i. by rewrite H2.
Qed.

Lemma prefix_app p s : String.prefix p s = true ↔ ∃ t, s = p +:+ t.
Proof.
  revert s. induction p as [|c p IH]; intros s; [split; [by exists s|by destruct s]|].
  destruct s as [|c' s]; [split; [done|by intros [? ?]]|].
  change (String.prefix (String c p) (String c' s))
    with (if Ascii.ascii_dec c c' then String.prefix p s else false).
  destruct (Ascii.ascii_dec c c') as [->|Hne]; [rewrite IH|split; [done|intros [t [= <-]]; done]].
  split; [intros [t ->]; by exists t|intros [t [= ->]]; by exists t].
Qed.
Lemma read_keys_spec d m keys :
  store_represents d m → (∀ k, k ∈ keys → String.prefix key_prefix k = true) →
  ∃ rs, read_keys loads keys d = Ok rs ∧
    ∀ r, r ∈ rs ↔ ∃ i r0, store_key key_prefix i ∈ keys ∧ m !! i = Some r0 ∧ r = redacted r0.
Proof.
  intros Hrep. induction keys as [|k keys IH]; intros Hp; simpl.
  { exists []. split; [done|]. intros r. split; [by intros ?%not_elem_of_nil|].
    by intros (i & r0 & ?%not_elem_of_nil & _). }
  destruct IH as (rs & Hrs & Hin); [intros k' Hk'; apply Hp; by right|].
  destruct (proj1 (prefix_app key_prefix k)) as [i ->]; [apply Hp; left|].
  rewrite redis_get_view. fold (store_key key_prefix i). rewrite (sr_keys _ _ Hrep).
  destruct (m !! i) as [r0|] eqn:E; simpl.
  - rewrite loads_dumps. simpl. rewrite decode_encode_request by (by eapply (sr_ids _ _ Hrep)).
    simpl. rewrite Hrs. simpl. eexists. split; [done|]. intros r. rewrite elem_of_cons, Hin. split.
    + intros [->|(i' & r1 & ? & ? & ?)].
      * exists i, r0. split_and!; [left|done|done].
      * exists i', r1. split_and!; [by right|done|done].
    + intros (i' & r1 & [Hk|Hk]%elem_of_cons & Hm & ->).
      * apply store_key_inj in Hk as ->. left. congruence.
      * right. eauto.
  - exists rs. split; [done|]. intros r. rewrite Hin. split.
    + intros (i' & r1 & ? & ? & ?). exists i', r1. split_and!; [by right|done|done].
    + intros (i' & r1 & [Hk|Hk]%elem_of_cons & Hm & ->); [|eauto].
      apply store_key_inj in Hk as ->. congruence.
Qed.
Lemma redis_list_spec d m :
  glob_plain key_prefix = true → store_represents d m →
  ∃ rs, redis_list loads key_prefix d = Ok rs ∧ (∀ r, r ∈ rs ↔ ∃ r0, r0 ∈ store_list m ∧ r = redacted r0) ∧
    StronglySorted (λ a b, str_leb (r_request_id a) (r_request_id b) = true) rs.
Proof.
  intros Hplain Hrep. unfold redis_list.
  destruct (read_keys_spec d m (redis_scan (key_prefix +:+ "*") d) Hrep)
    as (rs & -> & Hin).
  { intros k [Hk _]%redis_scan_view. by rewrite redis_match_prefix in Hk. }
  simpl. eexists. split; [done|]. split.
  - intros r. rewrite elem_of_sorted_by, Hin. unfold store_list. split.
    + intros (i & r0 & _ & Hm & ->). exists r0. split; [|done]. apply list_elem_of_omap. exists i.
      split; [|done]. apply elem_of_sorted_by, list_elem_of_fmap. exists (i, r0).
      split; [done|]. by apply elem_of_map_to_list.
    + intros (r0 & (i & _ & Hm)%list_elem_of_omap & ->). exists i, r0. split_and!; [|done|done].
      apply redis_scan_view. rewrite redis_match_prefix by done. split; [apply prefix_app; by exists i|].
      rewrite (sr_keys _ _ Hrep), Hm. simpl. eauto.
  - apply sorted_by_sorted; [intros x y; apply str_leb_total|intros x y z; apply str_leb_trans].
Qed.
End refinement.

(** ** Properties *)

(** Decoding what the Redis store encodes gives back the record, except that the prompt is
    redacted and the payload marked unavailable: no other field, status, timestamp, retry reason
    or assignment is lost, and the constructor's validation accepts the result. *)
Theorem request_encoding_roundtrip r :
  record_ok r → decode_request (encode_request r) = Ok (redacted r).
Proof. apply decode_encode_request. Qed.

(** C39: The Redis store implements the in-memory store up to redaction: started from a database
    that represents a store, [create] and [save] succeed or raise the same errors and lead to a
    database that represents the new store, [get] returns the stored record redacted, and, provided the
    key prefix has none of the characters that are special in a glob-style pattern (the default prefix
    has none), [list] returns the stored records and nothing else, redacted, in the order of their
    identifiers (a record twice only if the scan yields its key twice). *)
Theorem redis_store_refines {T D} `{RedisKeysLaws T D} (dumps : json → T) (loads : T → res json)
  (key_prefix : string) (d : D) (m : InMemoryRequestStateStore) :
  (∀ j, loads (dumps j) = Ok j) → store_represents dumps key_prefix d m →
  (∀ i, redis_store_get loads key_prefix i d = Ok (redacted <$> store_get i m)) ∧
  (∀ r, record_ok r →
     match redis_create dumps key_prefix r d with
     | (Ok _, d') => ∃ m', store_create r m = Ok m' ∧ store_represents dumps key_prefix d' m'
     | (Err e, d') => store_create r m = Err e ∧ store_represents dumps key_prefix d' m
     end) ∧
  (∀ r, record_ok r →
     match redis_save dumps key_prefix r d with
     | (Ok _, d') => ∃ m', store_save r m = Ok m' ∧ store_represents dumps key_prefix d' m'
     | (Err e, d') => store_save r m = Err e ∧ store_represents dumps key_prefix d' m
     end) ∧
  (glob_plain key_prefix = true →
   ∃ rs, redis_list loads key_prefix d = Ok rs ∧
     (∀ r, r ∈ rs ↔ ∃ r0, r0 ∈ store_list m ∧ r = redacted r0) ∧
     StronglySorted (λ a b, str_leb (r_request_id a) (r_request_id b) = true) rs).
Proof.
  intros Hj Hrep. split_and!.
  - intros i. by eapply redis_get_spec.
  - intros r Hr. by apply redis_create_spec.
  - intros r Hr. by apply redis_save_spec.
  - intros Hp. by apply (redis_list_spec dumps).
Qed.

(** ** Witnesses *)

Lemma sample_record_ok : record_ok sample_completed.
Proof. split; [vm_compute; reflexivity|vm_compute; eauto]. Qed.
Lemma request_encoding_roundtrip_witness :
  decode_request (encode_request sample_completed) = Ok (redacted sample_completed) ∧
  r_status (redacted sample_completed) = COMPLETED.
Proof.
  split; [exact (request_encoding_roundtrip sample_completed sample_record_ok)|].
  vm_compute. reflexivity.
Defined.
Definition sample_db : gmap string (json * option Z) :=
  (redis_create id "llm:request:" sample_completed ∅).2.
Lemma sample_store_represents : store_represents id "llm:request:" sample_db {["req-1" := sample_completed]}.
Proof.
  pose proof (redis_create_spec (D := gmap string (json * option Z)) id "llm:request:" ∅ ∅
    sample_completed) as H.
  assert (store_represents id "llm:request:" (∅ : gmap string (json * option Z)) ∅) as H0.
  { split; intros i; [by rewrite lookup_empty|]. intros r. by rewrite lookup_empty. }
  specialize (H H0 sample_record_ok). unfold sample_db.
  assert ((redis_create (D := gmap string (json * option Z)) id "llm:request:" sample_completed ∅).1 = Ok tt)
    as H1 by (vm_compute; reflexivity).
  destruct (redis_create _ _ _ _) as [r d]. simpl in H1. subst r. destruct H as (m' & Hm & Hrep).
  assert (m' = {["req-1" := sample_completed]}) as <-; [|exact Hrep].
  assert (store_create sample_completed ∅ = Ok {["req-1" := sample_completed]}) as H2
    by (vm_compute; reflexivity).
  congruence.
Qed.
Lemma redis_store_refines_witness :
  redis_store_get Ok "llm:request:" "req-1" sample_db = Ok (Some (redacted sample_completed)) ∧
  ∃ rs, redis_list Ok "llm:request:" sample_db = Ok rs ∧ redacted sample_completed ∈ rs.
Proof.
  destruct (redis_store_refines id Ok "llm:request:" sample_db {["req-1" := sample_completed]}
    (λ j, eq_refl) sample_store_represents) as (Hget & _ & _ & Hlist).
  split; [exact (Hget "req-1")|]. destruct Hlist as (rs & Hrs & Hin & _); [reflexivity|].
  exists rs. split; [exact Hrs|]. apply Hin. exists sample_completed. split; [|reflexivity].
  assert (store_list {["req-1" := sample_completed]} = [sample_completed]) as -> by (vm_compute; reflexivity).
  left.
Defined.
(** The pattern of [list] is not escaped: under a prefix with a bracket a record that was created and can
    be read is missing from the list. *)
Lemma list_misses_bracketed_prefix :
  let d := (redis_create id "llm[a]:" sample_completed (∅ : gmap string (json * option Z))).2 in
  redis_store_get Ok "llm[a]:" "req-1" d = Ok (Some (redacted sample_completed)) ∧
  redis_list Ok "llm[a]:" d = Ok [].
Proof. vm_compute. split; reflexivity. Qed.
