(* ===== verification/Registry.v ===== *)
(** [serving_platform/registry/in_memory.py]: the model catalog and the worker registry with
    heartbeat expiry. Records are copied in and out, so they are values here. *)
From S2P Require Import Prelude PyContainers PyFloat Domain.
From Stdlib Require String.
From stdpp Require Import sorting.

#[local] Open Scope string_scope.
#[local] Open Scope list_scope.
#[local] Open Scope Z_scope.

(** ** [InMemoryModelRegistry] *)

Abbreviation ModelRegistry := (gmap string ModelDefinition).

(** [ModelDefinition.__eq__]. *)
Definition ModelDefinition_eqb (a b : ModelDefinition) : bool :=
  bool_decide (m_model_id a = m_model_id b) && bool_decide (m_revision a = m_revision b) &&
  bool_decide (m_runtime_type a = m_runtime_type b) &&
  bool_decide (m_estimated_memory_bytes a = m_estimated_memory_bytes b) &&
  bool_decide (m_supported_dtypes a = m_supported_dtypes b) &&
  bool_decide (m_default_dtype a = m_default_dtype b) &&
  bool_decide (m_max_context_tokens a = m_max_context_tokens b) &&
  bool_decide (m_max_batch_tokens a = m_max_batch_tokens b) &&
  bool_decide (m_supports_streaming a = m_supports_streaming b) &&
  bool_decide (m_supports_cancellation a = m_supports_cancellation b) &&
  f_eqb (m_load_timeout_seconds a) (m_load_timeout_seconds b) &&
  f_eqb (m_idle_eviction_seconds a) (m_idle_eviction_seconds b).

Definition model_register (model : ModelDefinition) (ms : ModelRegistry) : res ModelRegistry :=
  match ms !! m_model_id model with
  | Some current =>
    if negb (ModelDefinition_eqb current model)
    then Err (ValueError ("conflicting model definition: " +:+ m_model_id model))
    else Ok (<[m_model_id model := model]> ms)
  | None => Ok (<[m_model_id model := model]> ms)
  end.
Definition InMemoryModelRegistry_init (models : list ModelDefinition) : res ModelRegistry :=
  foldl (λ acc model, ms ← acc; model_register model ms) (Ok ∅) models.
Definition model_get (model_id : string) (ms : ModelRegistry) : option ModelDefinition :=
  ms !! model_id.
Definition model_list (ms : ModelRegistry) : list ModelDefinition :=
  omap (λ k, ms !! k) (sorted_by str_leb (map_to_list ms).*1).

(** ** [InMemoryWorkerRegistry] *)

Record WorkerRegistry := mkWorkerRegistry {
  wr_heartbeat_timeout_seconds : float;
  wr_suspect_after_seconds : float;
  wr_workers : gmap string WorkerState
}.
#[export] Instance eta_WorkerRegistry : Eta WorkerRegistry := λ r,
  mkWorkerRegistry (wr_heartbeat_timeout_seconds r) (wr_suspect_after_seconds r) (wr_workers r).

Definition InMemoryWorkerRegistry_init (heartbeat_timeout_seconds : float)
  (suspect_after_seconds : option float) : res WorkerRegistry :=
  _ ← raise_if (f_leb heartbeat_timeout_seconds f_zero)
    (ValueError "heartbeat timeout must be positive");
  let suspect := match suspect_after_seconds with
                 | None => f_div heartbeat_timeout_seconds (f_of_Z 2)
                 | Some s => s
                 end in
  _ ← raise_if (negb (f_ltb f_zero suspect && f_ltb suspect heartbeat_timeout_seconds))
    (ValueError "suspect threshold must be below the heartbeat timeout");
  Ok (mkWorkerRegistry heartbeat_timeout_seconds suspect ∅).

Definition worker_get (worker_id : string) (r : WorkerRegistry) : option WorkerState :=
  wr_workers r !! worker_id.
Definition worker_list (r : WorkerRegistry) : list WorkerState :=
  omap (λ k, wr_workers r !! k) (sorted_by str_leb (map_to_list (wr_workers r)).*1).

Definition fresh_snapshot (worker : WorkerState) (now : float) (sequence : Z) : WorkerState :=
  worker <| w_health_status := HEALTHY |> <| w_last_heartbeat := now |>
         <| w_heartbeat_sequence := sequence |> <| w_consecutive_failures := 0 |>
         <| w_last_error_code := None |>.
Definition worker_register (worker : WorkerState) (now : float) (r : WorkerRegistry)
  : WorkerRegistry :=
  r <| wr_workers ::= <[w_worker_id worker := fresh_snapshot worker now 0]> |>.

Definition lost (h : HealthStatus) : bool := bool_decide (h = UNHEALTHY) || bool_decide (h = STOPPED).
Definition worker_heartbeat (worker : WorkerState) (now : float) (r : WorkerRegistry)
  : res WorkerRegistry :=
  match wr_workers r !! w_worker_id worker with
  | None => Err (KeyError ("worker must register before heartbeat: " +:+ w_worker_id worker))
  | Some current =>
    if lost (w_health_status current)
    then Err (RuntimeError ("worker must re-register before recovery: " +:+ w_worker_id worker))
    else Ok (r <| wr_workers ::= <[w_worker_id worker :=
               fresh_snapshot worker now (w_heartbeat_sequence current + 1)]> |>)
  end.
Definition worker_unregister (worker_id : string) (r : WorkerRegistry) : WorkerRegistry :=
  r <| wr_workers ::= delete worker_id |>.

(** A failure observed on a worker. *)
Definition degrade (health : HealthStatus) (code : string) (w : WorkerState) : WorkerState :=
  w <| w_health_status := health |> <| w_consecutive_failures ::= λ n, n + 1 |>
    <| w_last_error_code := Some code |>.
Definition mark_suspect (worker_id error_code : string) (r : WorkerRegistry) : res WorkerRegistry :=
  _ ← raise_if (str_empty error_code) (ValueError "worker error code is required");
  match wr_workers r !! worker_id with
  | None => Err (KeyError ("unknown worker: " +:+ worker_id))
  | Some worker =>
    if lost (w_health_status worker) then Ok r
    else Ok (r <| wr_workers ::= <[worker_id := degrade SUSPECT error_code worker]> |>)
  end.

(** The body of [expire_stale]'s loop for one worker. *)
Definition stale (r : WorkerRegistry) (now : float) (w : WorkerState) : bool :=
  (bool_decide (w_health_status w = HEALTHY) || bool_decide (w_health_status w = SUSPECT)) &&
  f_ltb (wr_heartbeat_timeout_seconds r) (f_sub now (w_last_heartbeat w)).
Definition delayed (r : WorkerRegistry) (now : float) (w : WorkerState) : bool :=
  bool_decide (w_health_status w = HEALTHY) &&
  f_ltb (wr_suspect_after_seconds r) (f_sub now (w_last_heartbeat w)).
Definition age_worker (r : WorkerRegistry) (now : float) (w : WorkerState) : WorkerState :=
  if stale r now w then degrade UNHEALTHY "heartbeat_expired" w
  else if delayed r now w then degrade SUSPECT "heartbeat_delayed" w
  else w.
Definition expire_stale (now : float) (r : WorkerRegistry) : list string * WorkerRegistry :=
  let expired := filter (λ w, stale r now w = true) (map_to_list (wr_workers r)).*2 in
  (sorted_by str_leb (w_worker_id <$> expired), r <| wr_workers ::= fmap (age_worker r now) |>).

(** ** Specification *)

(** Registry calls, by name of the worker they concern. *)
Inductive registry_call :=
| RegRegister (w : WorkerState) (now : float)
| RegHeartbeat (w : WorkerState) (now : float)
| RegUnregister (i : string)
| RegSuspect (i code : string)
| RegExpire (now : float).
Definition registry_step (c : registry_call) (r : WorkerRegistry) : WorkerRegistry :=
  match c with
  | RegRegister w now => worker_register w now r
  | RegHeartbeat w now => match worker_heartbeat w now r with Ok r' => r' | Err _ => r end
  | RegUnregister i => worker_unregister i r
  | RegSuspect i code => match mark_suspect i code r with Ok r' => r' | Err _ => r end
  | RegExpire now => (expire_stale now r).2
  end.
Definition run_registry (cs : list registry_call) (r : WorkerRegistry) : WorkerRegistry :=
  foldl (λ r c, registry_step c r) r cs.
(** Every worker is stored under its own identifier. *)
Definition keyed_by_id (r : WorkerRegistry) : Prop :=
  ∀ i w, wr_workers r !! i = Some w → w_worker_id w = i.

(** ** Lemmas *)

Lemma age_worker_id r now w : w_worker_id (age_worker r now w) = w_worker_id w.
Proof. unfold age_worker. by repeat case_head. Qed.
Lemma registry_step_keyed c r : keyed_by_id r → keyed_by_id (registry_step c r).
Proof.
  intros Hk. destruct c as [w now|w now|i|i code|now]; simpl.
  - intros i w'. simpl. rewrite lookup_insert. case_decide; [by intros [= <-]|apply Hk].
  - unfold worker_heartbeat. repeat (case_head; [done|]). destruct (wr_workers r !! _); [|done].
    case_head; [done|]. intros i w'. simpl. rewrite lookup_insert.
    case_decide; [by intros [= <-]|apply Hk].
  - intros i' w'. simpl. intros [_ H]%lookup_delete_Some. by apply Hk.
  - unfold mark_suspect. destruct (raise_if _ _); [simpl|done].
    destruct (wr_workers r !! i) as [w|] eqn:E; [|done]. case_head; [done|].
    intros i' w'. simpl. rewrite lookup_insert. case_decide; [intros [= <-]|apply Hk].
    subst. by apply Hk in E.
  - intros i w'. simpl. rewrite lookup_fmap. destruct (wr_workers r !! i) as [w|] eqn:E; simpl; [|done].
    intros [= <-]. rewrite age_worker_id. by apply Hk.
Qed.

Lemma unhealthy_step c r i w :
  wr_workers r !! i = Some w → lost (w_health_status w) = true →
  (∀ w' now, c = RegRegister w' now → w_worker_id w' ≠ i) →
  match wr_workers (registry_step c r) !! i with
  | Some w' => lost (w_health_status w') = true
  | None => c = RegUnregister i
  end.
Proof.
  intros Hi Hw Hreg. destruct c as [w' now|w' now|j|j code|now]; simpl.
  - rewrite lookup_insert_ne, Hi; [done|]. by apply (Hreg w' now).
  - unfold worker_heartbeat. destruct (decide (w_worker_id w' = i)) as [->|Hne].
    + by rewrite Hi, Hw, Hi.
    + destruct (wr_workers r !! w_worker_id w'); [|by rewrite Hi]. case_head; simpl; [by rewrite Hi|].
      by rewrite lookup_insert_ne, Hi.
  - destruct (decide (j = i)) as [->|Hne]; [by rewrite lookup_delete_eq|].
    by rewrite lookup_delete_ne, Hi.
  - unfold mark_suspect. destruct (raise_if _ _); simpl; [|by rewrite Hi].
    destruct (decide (j = i)) as [->|Hne]; [by rewrite Hi, Hw, Hi|].
    destruct (wr_workers r !! j); [|by rewrite Hi]. case_head; simpl; [by rewrite Hi|].
    by rewrite lookup_insert_ne, Hi.
  - rewrite lookup_fmap, Hi. simpl. replace (age_worker r now w) with w; [done|].
    unfold age_worker, stale, delayed, lost in *. by destruct (w_health_status w).
Qed.

(** ** Properties *)

(** A worker that was declared lost cannot come back by itself: once it is UNHEALTHY, no
    sequence of heartbeats, suspicions, expiry passes and calls for other workers makes it
    usable again, and its own heartbeats are refused, until it is registered anew or removed. *)
Theorem lost_until_reregistered r i w cs :
  wr_workers r !! i = Some w → lost (w_health_status w) = true →
  (∀ w' now, RegRegister w' now ∈ cs → w_worker_id w' ≠ i) → RegUnregister i ∉ cs →
  ∃ w', wr_workers (run_registry cs r) !! i = Some w' ∧ lost (w_health_status w') = true ∧
    ∀ s now, w_worker_id s = i →
      worker_heartbeat s now (run_registry cs r)
        = Err (RuntimeError ("worker must re-register before recovery: " +:+ i)).
Proof.
  revert r w. induction cs as [|c cs IH]; intros r w Hi Hw Hreg Hun; simpl.
  - exists w. split_and!; [done|done|]. intros s now Hs. unfold worker_heartbeat.
    by rewrite Hs, Hi, Hw.
  - pose proof (unhealthy_step c r i w Hi Hw) as Hstep.
    destruct (wr_workers (registry_step c r) !! i) as [w'|] eqn:Hi'.
    + apply (IH (registry_step c r) w' Hi').
      * apply Hstep. intros w0 now ->. apply (Hreg w0 now). left.
      * intros w0 now Hin. apply (Hreg w0 now). by right.
      * contradict Hun. by right.
    + exfalso. apply Hun. rewrite Hstep; [left|]. intros w0 now ->. apply (Hreg w0 now). left.
Qed.

(** An expiry pass leaves no stale worker in service: afterwards every HEALTHY worker has been
    heard within the suspect threshold and every SUSPECT one within the heartbeat timeout, and the
    identifiers it returns are, in order, exactly the workers it has just declared UNHEALTHY. *)
Theorem expire_stale_correct r now ids r' :
  keyed_by_id r → expire_stale now r = (ids, r') →
  (∀ i w, wr_workers r' !! i = Some w →
     (w_health_status w = HEALTHY →
        f_ltb (wr_suspect_after_seconds r) (f_sub now (w_last_heartbeat w)) = false) ∧
     (w_health_status w = SUSPECT →
        f_ltb (wr_heartbeat_timeout_seconds r) (f_sub now (w_last_heartbeat w)) = false)) ∧
  (∀ i, i ∈ ids ↔ ∃ w w', wr_workers r !! i = Some w ∧ wr_workers r' !! i = Some w' ∧
     w_health_status w ≠ UNHEALTHY ∧ w_health_status w' = UNHEALTHY) ∧
  StronglySorted (λ a b, str_leb a b = true) ids.
Proof.
  intros Hk H. unfold expire_stale in H. injection H as <- <-. split_and!.
  - intros i w. simpl. rewrite lookup_fmap. destruct (wr_workers r !! i) as [w0|]; simpl; [|done].
    intros [= <-]. unfold age_worker. destruct (stale r now w0) eqn:Es; [done|].
    destruct (delayed r now w0) eqn:Ed; simpl.
    + split; [done|]. intros _. unfold stale, delayed in *. apply andb_true_iff in Ed as [Eh _].
      by rewrite Eh in Es.
    + split; intros Eh; [unfold delayed in Ed; by rewrite Eh in Ed|].
      unfold stale in Es. by rewrite Eh in Es.
  - intros i. rewrite elem_of_sorted_by, list_elem_of_fmap. simpl. setoid_rewrite lookup_fmap. split.
    + intros (w & -> & [Hs ([k w1] & -> & Hin)%list_elem_of_fmap]%list_elem_of_filter). simpl in *.
      apply elem_of_map_to_list in Hin. pose proof (Hk _ _ Hin) as ->.
      assert (age_worker r now w1 = degrade UNHEALTHY "heartbeat_expired" w1) as Ha
        by (unfold age_worker; by rewrite Hs).
      exists w1, (age_worker r now w1). rewrite Hin, Ha. split_and!; [done|simpl; by rewrite Ha| |done].
      intros E. unfold stale in Hs. by rewrite E in Hs.
    + intros (w & w' & Hi & Hi' & Hne & He). rewrite Hi in Hi'. injection Hi' as <-.
      exists w. pose proof (Hk _ _ Hi) as Hid. split; [done|]. apply list_elem_of_filter. split.
      * unfold age_worker in He. destruct (stale r now w); [done|]. by destruct (delayed r now w).
      * apply list_elem_of_fmap. exists (i, w). split; [done|]. by apply elem_of_map_to_list.
  - apply sorted_by_sorted; [intros x y; apply str_leb_total|intros x y z; apply str_leb_trans].
Qed.

(** ** Witnesses *)

Definition sample_registry : WorkerRegistry :=
  worker_register sample_worker f_zero (mkWorkerRegistry (f_of_Z 30) (f_of_Z 15) ∅).
Lemma sample_registry_keyed : keyed_by_id sample_registry.
Proof.
  apply (registry_step_keyed (RegRegister sample_worker f_zero)). intros i w. simpl.
  by rewrite lookup_empty.
Qed.
Definition sample_lost : WorkerRegistry := (expire_stale (f_of_Z 31) sample_registry).2.
Lemma expire_stale_correct_witness :
  (expire_stale (f_of_Z 31) sample_registry).1 = ["worker-1"] ∧
  ∃ w w', wr_workers sample_registry !! "worker-1" = Some w ∧
    wr_workers sample_lost !! "worker-1" = Some w' ∧ w_health_status w' = UNHEALTHY.
Proof.
  assert (expire_stale (f_of_Z 31) sample_registry = (["worker-1"], sample_lost)) as H
    by (vm_compute; reflexivity).
  split; [vm_compute; reflexivity|].
  destruct (proj1 (proj1 (proj2 (expire_stale_correct _ _ _ _ sample_registry_keyed H)) "worker-1"))
    as (w & w' & H1 & H2 & _ & H3); [left|].
  exists w, w'. exact (conj H1 (conj H2 H3)).
Defined.
Lemma lost_until_reregistered_witness :
  ∃ w', wr_workers (run_registry [RegHeartbeat sample_worker (f_of_Z 32)] sample_lost)
          !! "worker-1" = Some w' ∧ lost (w_health_status w') = true.
Proof.
  destruct (lost_until_reregistered sample_lost "worker-1"
    (age_worker sample_registry (f_of_Z 31) (fresh_snapshot sample_worker f_zero 0))
    [RegHeartbeat sample_worker (f_of_Z 32)]) as (w' & H1 & H2 & _).
  - vm_compute. reflexivity.
  - vm_compute. reflexivity.
  - intros w' now Hin. apply list_elem_of_singleton in Hin. discriminate Hin.
  - intros Hin. apply list_elem_of_singleton in Hin. discriminate Hin.
  - exists w'. exact (conj H1 H2).
Defined.
