(* ===== verification/Routing.v ===== *)
(** [serving_platform/routing/policies.py] and [interfaces.py]: worker filtering and the six
    routing policies. *)
From S2P Require Import Prelude PyContainers PyFloat Domain Registry.
From Stdlib Require String.

#[local] Open Scope string_scope.
#[local] Open Scope list_scope.
#[local] Open Scope Z_scope.

(** ** Interface *)

(** Values shown in [scoring_inputs]. *)
Inductive score_input := SInt (n : Z) | SFloat (x : float) | SBool (b : bool) | SNone.
Definition SOptInt (o : option Z) : score_input := match o with Some n => SInt n | None => SNone end.

Record RoutingDecision := mkRouting {
  rd_selected_worker_id : string;
  rd_policy : string;
  rd_candidates : list string;
  rd_rejected : list (string * string);
  rd_scores : list (string * float);
  rd_scoring_inputs : list (string * list (string * score_input))
}.

(** What a policy reads from its surroundings when it selects: the model registry, the pending
    demand per model and the successive readings of its clock. *)
Record RoutingEnv := mkEnv {
  env_models : ModelRegistry;
  env_demand : string → Z;
  env_clock : nat → float
}.

(** [RoutingPolicy]: the selection, with the policy's own state. *)
Class RoutingPolicy (P : Type) :=
  select : RoutingEnv → RequestRecord → list WorkerState → P → res RoutingDecision * P.

(** ** Filtering *)

Definition by_worker_id (a b : WorkerState) : bool := str_leb (w_worker_id a) (w_worker_id b).

(** The loop shared by the filters: the first reason to reject a worker, if any. *)
Definition filter_by (reason : WorkerState → option string) (workers : list WorkerState)
  : list WorkerState * list (string * string) :=
  foldl (λ acc worker,
      match reason worker with
      | Some why => (acc.1, od_set (w_worker_id worker) why acc.2)
      | None => (acc.1 ++ [worker], acc.2)
      end)
    ([], []) (sorted_by by_worker_id workers).

Definition health_reason (worker : WorkerState) : string :=
  "health:" +:+ HealthStatus_value (w_health_status worker).
Definition resident (model_id : string) (worker : WorkerState) : bool :=
  bool_decide (model_id ∈ w_resident_models worker).

Definition reject_reason (request : RequestRecord) (worker : WorkerState) : option string :=
  if negb (bool_decide (w_health_status worker = HEALTHY)) then Some (health_reason worker)
  else if w_draining worker then Some "worker_draining"
  else if negb (resident (r_model_id request) worker) then Some "model_not_resident"
  else if w_max_concurrency worker <=? w_active_batch_count worker
  then Some "worker_concurrency_saturated"
  else None.
Definition filter_workers (request : RequestRecord) (workers : list WorkerState)
  : list WorkerState * list (string * string) := filter_by (reject_reason request) workers.

(** ** Policies over resident models *)

Record RoundRobinPolicy := mkRoundRobin { rr_next : Z }.
Definition RoundRobinPolicy_init : RoundRobinPolicy := mkRoundRobin 0.
Definition round_robin_select (env : RoutingEnv) (request : RequestRecord)
  (workers : list WorkerState) (p : RoundRobinPolicy) : res RoutingDecision * RoundRobinPolicy :=
  let '(eligible, rejected) := filter_workers request workers in
  match eligible !! Z.to_nat (rr_next p mod Z.of_nat (length eligible)) with
  | None => (Err (NoEligibleWorker rejected), p)
  | Some selected =>
    (Ok (mkRouting (w_worker_id selected) "round_robin" (w_worker_id <$> eligible) rejected
           (foldl (λ d w, od_set (w_worker_id w) f_zero d) [] eligible)
           (foldl (λ d w, od_set (w_worker_id w) [] d) [] eligible)),
     mkRoundRobin (rr_next p + 1))
  end.
#[export] Instance RoundRobin_policy : RoutingPolicy RoundRobinPolicy := round_robin_select.

(** [scores[worker.worker_id]]. *)
Definition score_of (scores : list (string * float)) (worker : WorkerState) : float :=
  default f_zero (od_get (w_worker_id worker) scores).
(** [min(eligible, key=lambda worker: (scores[worker.worker_id], worker.worker_id))]. *)
Definition score_key (scores : list (string * float)) (worker : WorkerState) : float * string :=
  (score_of scores worker, w_worker_id worker).
Definition best_by_score (scores : list (string * float)) (eligible : list WorkerState)
  : option WorkerState :=
  py_min (λ a b, key_ltb (score_key scores a) (score_key scores b)) eligible.
Definition scores_by (f : WorkerState → float) (eligible : list WorkerState)
  : list (string * float) := foldl (λ d w, od_set (w_worker_id w) (f w) d) [] eligible.
Definition inputs_by (f : WorkerState → list (string * score_input)) (eligible : list WorkerState)
  : list (string * list (string * score_input)) :=
  foldl (λ d w, od_set (w_worker_id w) (f w) d) [] eligible.

Inductive LeastQueueDepthPolicy := mkLeastQueueDepth.
Definition least_queue_select (env : RoutingEnv) (request : RequestRecord)
  (workers : list WorkerState) (p : LeastQueueDepthPolicy)
  : res RoutingDecision * LeastQueueDepthPolicy :=
  let '(eligible, rejected) := filter_workers request workers in
  let scores := scores_by (λ w, f_of_Z (w_queue_depth w)) eligible in
  match best_by_score scores eligible with
  | None => (Err (NoEligibleWorker rejected), p)
  | Some selected =>
    (Ok (mkRouting (w_worker_id selected) "least_queue_depth" (w_worker_id <$> eligible) rejected
           scores (inputs_by (λ w, [("queue_depth", SInt (w_queue_depth w))]) eligible)), p)
  end.
#[export] Instance LeastQueueDepth_policy : RoutingPolicy LeastQueueDepthPolicy :=
  least_queue_select.

(** ** [PlacementPolicy]: policies that may load a model cold *)

Definition placement_model (env : RoutingEnv) (model_id : string) : res ModelDefinition :=
  match model_get model_id (env_models env) with
  | None => Err (UnknownModel ("model is not registered: " +:+ model_id))
  | Some model => Ok model
  end.
Definition runtime_compatible (model : ModelDefinition) (worker : WorkerState) : bool :=
  (bool_decide (m_runtime_type model = SIMULATED)
   && bool_decide (w_device_type worker = SIMULATED_GPU))
  || (bool_decide (m_runtime_type model = HUGGINGFACE)
      && (bool_decide (w_device_type worker = CPU) || bool_decide (w_device_type worker = CUDA))).
Definition placement_reason (reserve : Z) (model : ModelDefinition) (request : RequestRecord)
  (worker : WorkerState) : option string :=
  if negb (bool_decide (w_health_status worker = HEALTHY)) then Some (health_reason worker)
  else if w_draining worker then Some "worker_draining"
  else if w_max_concurrency worker <=? w_active_batch_count worker
  then Some "worker_concurrency_saturated"
  else if negb (runtime_compatible model worker) then Some "runtime_incompatible"
  else if m_max_context_tokens model <? estimated_tokens request
  then Some "context_window_exceeded"
  else if negb (resident (m_model_id model) worker) then
    match w_available_memory_bytes worker with
    | None => Some "memory_unknown_for_cold_load"
    | Some available =>
      if available - reserve <? m_estimated_memory_bytes model
      then Some "insufficient_memory_after_safety_reserve"
      else None
    end
  else None.
Definition placement_filter (env : RoutingEnv) (reserve : Z) (request : RequestRecord)
  (workers : list WorkerState)
  : res (ModelDefinition * list WorkerState * list (string * string)) :=
  model ← placement_model env (r_model_id request);
  let '(eligible, rejected) := filter_by (placement_reason reserve model request) workers in
  Ok (model, eligible, rejected).
(** [_decision]. *)
Definition decision (selected : WorkerState) (policy : string) (eligible : list WorkerState)
  (rejected : list (string * string)) (scores : list (string * float))
  (inputs : list (string * list (string * score_input))) : RoutingDecision :=
  mkRouting (w_worker_id selected) policy (w_worker_id <$> eligible) rejected scores inputs.

(** *** Model residency *)

Definition f_of_bool (b : bool) : float := if b then f_of_Z 1 else f_zero.
Definition residency_ltb (scores : list (string * float)) (a b : WorkerState) : bool :=
  if f_eqb (score_of scores a) (score_of scores b)
  then
    if w_queue_depth a =? w_queue_depth b then str_ltb (w_worker_id a) (w_worker_id b)
    else w_queue_depth a <? w_queue_depth b
  else f_ltb (score_of scores a) (score_of scores b).
Record ModelResidencyAwarePolicy := mkResidency { mr_reserve : Z }.
Definition residency_select (env : RoutingEnv) (request : RequestRecord)
  (workers : list WorkerState) (p : ModelResidencyAwarePolicy)
  : res RoutingDecision * ModelResidencyAwarePolicy :=
  (f ← placement_filter env (mr_reserve p) request workers;
   let '(model, eligible, rejected) := f in
   let scores := scores_by (λ w, f_of_bool (negb (resident (m_model_id model) w))) eligible in
   let inputs := inputs_by (λ w,
     [("model_resident", SBool (resident (m_model_id model) w));
      ("queue_depth", SInt (w_queue_depth w));
      ("available_memory_bytes", SOptInt (w_available_memory_bytes w))]) eligible in
   match py_min (residency_ltb scores) eligible with
   | None => Err (NoEligibleWorker rejected)
   | Some selected => Ok (decision selected "model_residency_aware" eligible rejected scores inputs)
   end, p).
#[export] Instance ModelResidency_policy : RoutingPolicy ModelResidencyAwarePolicy :=
  residency_select.

(** *** Memory-aware least loaded *)

Record MemoryAwareLeastLoadedPolicy := mkMemoryAware { ma_reserve : Z }.
Definition projected_model_bytes (model : ModelDefinition) (w : WorkerState) : Z :=
  if resident (m_model_id model) w then 0 else m_estimated_memory_bytes model.
Definition memory_utilization (reserve : Z) (model : ModelDefinition) (w : WorkerState) : float :=
  match w_total_memory_bytes w, w_available_memory_bytes w with
  | Some total, Some available =>
    if total =? 0 then f_ratio 1 2
    else
      let projected_used := total - available + projected_model_bytes model w + reserve in
      let used := f_ratio projected_used total in
      if f_ltb (f_of_Z 1) used then f_of_Z 1 else used
  | _, _ => f_ratio 1 2
  end.
Definition concurrency_utilization (w : WorkerState) : float :=
  f_ratio (w_active_batch_count w) (w_max_concurrency w).
Definition memory_score (reserve : Z) (model : ModelDefinition) (w : WorkerState) : float :=
  f_add (f_add (memory_utilization reserve model w) (concurrency_utilization w))
    (f_of_Z (w_queue_depth w)).
Definition memory_aware_select (env : RoutingEnv) (request : RequestRecord)
  (workers : list WorkerState) (p : MemoryAwareLeastLoadedPolicy)
  : res RoutingDecision * MemoryAwareLeastLoadedPolicy :=
  (f ← placement_filter env (ma_reserve p) request workers;
   let '(model, eligible, rejected) := f in
   let scores := scores_by (memory_score (ma_reserve p) model) eligible in
   let inputs := inputs_by (λ w,
     [("model_resident", SBool (resident (m_model_id model) w));
      ("available_memory_bytes", SOptInt (w_available_memory_bytes w));
      ("projected_model_bytes", SInt (projected_model_bytes model w));
      ("memory_safety_reserve_bytes", SInt (ma_reserve p));
      ("memory_utilization", SFloat (memory_utilization (ma_reserve p) model w));
      ("concurrency_utilization", SFloat (concurrency_utilization w));
      ("queue_depth", SInt (w_queue_depth w))]) eligible in
   match best_by_score scores eligible with
   | None => Err (NoEligibleWorker rejected)
   | Some selected =>
     Ok (decision selected "memory_aware_least_loaded" eligible rejected scores inputs)
   end, p).
#[export] Instance MemoryAware_policy : RoutingPolicy MemoryAwareLeastLoadedPolicy :=
  memory_aware_select.

(** *** Estimated completion time *)

Record EstimatedCompletionTimePolicy := mkECT {
  ect_reserve : Z;
  ect_fallback_tokens_per_second : float;
  ect_batching_penalty_ratio : float
}.
Definition PlacementPolicy_init (reserve : Z) : res unit :=
  raise_if (reserve <? 0) (ValueError "memory safety reserve cannot be negative").
Definition EstimatedCompletionTimePolicy_init (reserve : Z) (fallback penalty : float)
  : res EstimatedCompletionTimePolicy :=
  _ ← PlacementPolicy_init reserve;
  _ ← raise_if (f_leb fallback f_zero || f_ltb penalty f_zero)
    (ValueError "completion estimate parameters are invalid");
  Ok (mkECT reserve fallback penalty).

Record completion_estimate := mkEstimate {
  ce_queue_delay : float; ce_model_load : float; ce_generation : float; ce_batching : float;
  ce_total : float
}.
Definition estimate_completion (p : EstimatedCompletionTimePolicy) (model : ModelDefinition)
  (request : RequestRecord) (w : WorkerState) : res completion_estimate :=
  let throughput := if f_truthy (w_recent_tokens_per_second w)
                    then w_recent_tokens_per_second w else ect_fallback_tokens_per_second p in
  let tokens := estimated_tokens request in
  generation ← f_truediv (f_of_Z tokens) throughput;
  queue_delay ← f_truediv (f_of_Z (w_queue_depth w * tokens))
                  (f_mul throughput (f_of_Z (w_max_concurrency w)));
  let model_load := if resident (m_model_id model) w then f_zero
                    else m_load_timeout_seconds model in
  batching ← f_truediv
    (f_mul (f_mul generation (ect_batching_penalty_ratio p)) (f_of_Z (w_active_batch_count w)))
    (f_of_Z (w_max_concurrency w));
  Ok (mkEstimate queue_delay model_load generation batching
        (f_add (f_add (f_add queue_delay model_load) generation) batching)).

(** The loop over the initially eligible workers, reading the clock once per worker; each
    worker that stays is kept with its estimate. *)
Fixpoint feasible_workers (p : EstimatedCompletionTimePolicy) (model : ModelDefinition)
  (clock : nat → float) (request : RequestRecord) (i : nat) (workers : list WorkerState)
  (rejected : list (string * string))
  : res (list (WorkerState * completion_estimate) * list (string * string)) :=
  match workers with
  | [] => Ok ([], rejected)
  | w :: ws =>
    e ← estimate_completion p model request w;
    if f_ltb (r_deadline request) (f_add (clock i) (ce_total e))
    then feasible_workers p model clock request (S i) ws
           (od_set (w_worker_id w) "deadline_not_feasible" rejected)
    else
      rest ← feasible_workers p model clock request (S i) ws rejected;
      Ok ((w, e) :: rest.1, rest.2)
  end.
Definition ect_select (env : RoutingEnv) (request : RequestRecord)
  (workers : list WorkerState) (p : EstimatedCompletionTimePolicy)
  : res RoutingDecision * EstimatedCompletionTimePolicy :=
  (f ← placement_filter env (ect_reserve p) request workers;
   let '(model, initially_eligible, rejected) := f in
   kept ← feasible_workers p model (env_clock env) request 0 initially_eligible rejected;
   let '(estimates, rejected) := kept in
   let eligible := estimates.*1 in
   let scores := foldl (λ d q, od_set (w_worker_id q.1) (ce_total q.2) d) [] estimates in
   let inputs := foldl (λ d q, od_set (w_worker_id q.1)
     [("estimated_queue_delay_seconds", SFloat (ce_queue_delay q.2));
      ("model_load_penalty_seconds", SFloat (ce_model_load q.2));
      ("estimated_generation_seconds", SFloat (ce_generation q.2));
      ("batching_penalty_seconds", SFloat (ce_batching q.2));
      ("recent_tokens_per_second", SFloat (w_recent_tokens_per_second q.1));
      ("fallback_throughput_used", SBool (f_leb (w_recent_tokens_per_second q.1) f_zero))] d)
     [] estimates in
   match best_by_score scores eligible with
   | None => Err (NoEligibleWorker rejected)
   | Some selected =>
     Ok (decision selected "estimated_completion_time" eligible rejected scores inputs)
   end, p).
#[export] Instance ECT_policy : RoutingPolicy EstimatedCompletionTimePolicy := ect_select.

(** *** Demand-aware placement *)

Record DemandAwarePlacementPolicy := mkDemandAware {
  da_reserve : Z;
  da_requests_per_replica : Z;
  da_cold_load_penalty : float
}.
Definition DemandAwarePlacementPolicy_init (requests_per_replica : Z) (cold_load_penalty : float)
  (reserve : Z) : res DemandAwarePlacementPolicy :=
  _ ← PlacementPolicy_init reserve;
  _ ← raise_if ((requests_per_replica <=? 0) || f_ltb cold_load_penalty f_zero)
    (ValueError "demand placement settings are invalid");
  Ok (mkDemandAware reserve requests_per_replica cold_load_penalty).

Definition resident_count (model : ModelDefinition) (eligible : list WorkerState) : Z :=
  zsum (λ w, if resident (m_model_id model) w then 1 else 0) eligible.
Definition desired_replicas (p : DemandAwarePlacementPolicy) (pending_demand : Z)
  (eligible : list WorkerState) : Z :=
  Z.min (Z.of_nat (length eligible))
    (Z.max 1 (f_ceil (f_ratio pending_demand (da_requests_per_replica p)))).
Definition replica_term (p : DemandAwarePlacementPolicy) (model : ModelDefinition)
  (scale_out : bool) (w : WorkerState) : float :=
  if resident (m_model_id model) w then f_zero
  else if scale_out then f_of_Z (-1) else da_cold_load_penalty p.
Definition demand_score (p : DemandAwarePlacementPolicy) (model : ModelDefinition)
  (scale_out : bool) (w : WorkerState) : float :=
  f_add (f_add (f_of_Z (w_queue_depth w)) (concurrency_utilization w))
    (replica_term p model scale_out w).
Definition demand_aware_select (env : RoutingEnv) (request : RequestRecord)
  (workers : list WorkerState) (p : DemandAwarePlacementPolicy)
  : res RoutingDecision * DemandAwarePlacementPolicy :=
  (f ← placement_filter env (da_reserve p) request workers;
   let '(model, eligible, rejected) := f in
   let pending_demand := env_demand env (m_model_id model) + 1 in
   let resident_replicas := resident_count model eligible in
   let desired := desired_replicas p pending_demand eligible in
   let scale_out := resident_replicas <? desired in
   let scores := scores_by (demand_score p model scale_out) eligible in
   let inputs := inputs_by (λ w,
     [("model_resident", SBool (resident (m_model_id model) w));
      ("pending_model_demand", SInt pending_demand);
      ("resident_replicas", SInt resident_replicas);
      ("desired_replicas", SInt desired);
      ("scale_out_requested", SBool scale_out);
      ("queue_depth", SInt (w_queue_depth w));
      ("concurrency_utilization", SFloat (concurrency_utilization w));
      ("replica_score_term", SFloat (replica_term p model scale_out w))]) eligible in
   match best_by_score scores eligible with
   | None => Err (NoEligibleWorker rejected)
   | Some selected =>
     Ok (decision selected "demand_aware_placement" eligible rejected scores inputs)
   end, p).
#[export] Instance DemandAware_policy : RoutingPolicy DemandAwarePlacementPolicy :=
  demand_aware_select.

(** ** Specification *)

(** A worker that may receive work: healthy, not draining, with a free slot. *)
Definition usable (w : WorkerState) : Prop :=
  w_health_status w = HEALTHY ∧ w_draining w = false ∧
  w_active_batch_count w < w_max_concurrency w.
(** Hosting the model already, or with the memory for it beyond the safety reserve. *)
Definition can_host (reserve : Z) (model : ModelDefinition) (w : WorkerState) : Prop :=
  m_model_id model ∈ w_resident_models w ∨
  ∃ available, w_available_memory_bytes w = Some available ∧
    m_estimated_memory_bytes model + reserve <= available.

(** What a client of a policy may rely on. [reserve] is the policy's safety reserve. *)
Class RoutingPolicyLaws (P : Type) `{RoutingPolicy P} (reserve : P → Z) : Prop := {
  select_usable env request workers p d p' :
    select env request workers p = (Ok d, p') →
    ∃ w, w ∈ workers ∧ w_worker_id w = rd_selected_worker_id d ∧ usable w ∧
      (r_model_id request ∈ w_resident_models w ∨
       ∃ model, env_models env !! r_model_id request = Some model ∧ can_host (reserve p) model w);
  select_error env request workers p e p' :
    select env request workers p = (Err e, p') →
    match e with
    | NoEligibleWorker _ | UnknownModel _ | ZeroDivisionError _ => True
    | _ => False
    end;
  select_reserve env request workers p r p' :
    select env request workers p = (r, p') → reserve p' = reserve p
}.

(** ** Lemmas *)

Lemma filter_by_spec reason workers :
  (filter_by reason workers).1 = filter (λ w, reason w = None) (sorted_by by_worker_id workers) ∧
  ∀ w, w ∈ workers → reason w ≠ None →
    is_Some (od_get (w_worker_id w) (filter_by reason workers).2).
Proof.
  unfold filter_by.
  assert (∀ l acc,
    (let r := foldl (λ acc worker,
      match reason worker with
      | Some why => (acc.1, od_set (w_worker_id worker) why acc.2)
      | None => (acc.1 ++ [worker], acc.2)
      end) acc l in
    r.1 = acc.1 ++ filter (λ w, reason w = None) l ∧
    (∀ i, is_Some (od_get i acc.2) → is_Some (od_get i r.2)) ∧
    ∀ w, w ∈ l → reason w ≠ None → is_Some (od_get (w_worker_id w) r.2))) as H.
  { induction l as [|w l IH]; intros acc; simpl.
    { rewrite app_nil_r. split_and!; [done|done|by intros w ?%not_elem_of_nil]. }
    rewrite filter_cons. destruct (reason w) as [why|] eqn:E.
    - destruct (IH (acc.1, od_set (w_worker_id w) why acc.2)) as (H1 & H2 & H3).
      rewrite decide_False by done. split_and!; [exact H1| |].
      + intros i Hi. apply H2. simpl. rewrite od_get_set. case_decide; eauto.
      + intros w' [->|Hw']%elem_of_cons Hr; [|auto]. apply H2. simpl.
        rewrite od_get_set, decide_True by done. eauto.
    - destruct (IH (acc.1 ++ [w], acc.2)) as (H1 & H2 & H3).
      rewrite decide_True by done. split_and!.
      + rewrite H1. simpl. by rewrite <- app_assoc.
      + intros i Hi. by apply H2.
      + intros w' [->|Hw']%elem_of_cons Hr; [congruence|auto]. }
  destruct (H (sorted_by by_worker_id workers) ([], [])) as (H1 & _ & H3). split; [done|].
  intros w Hw. apply H3. by apply elem_of_sorted_by.
Qed.
Lemma elem_of_filter_by reason workers w :
  w ∈ (filter_by reason workers).1 ↔ w ∈ workers ∧ reason w = None.
Proof.
  rewrite (proj1 (filter_by_spec reason workers)), list_elem_of_filter, elem_of_sorted_by. tauto.
Qed.

Lemma reject_reason_None request w :
  reject_reason request w = None ↔ usable w ∧ r_model_id request ∈ w_resident_models w.
Proof.
  unfold reject_reason, usable, resident.
  repeat case_head; bool_hyps; split; try done; try (intros [(?&?&?) ?]; first [congruence|lia]);
    try (intros _; split_and!; done).
Qed.
Lemma placement_reason_None reserve model request w :
  placement_reason reserve model request w = None ↔
  usable w ∧ runtime_compatible model w = true ∧
  estimated_tokens request <= m_max_context_tokens model ∧ can_host reserve model w.
Proof.
  unfold placement_reason, usable, resident, can_host.
  repeat case_head; bool_hyps; split; try done;
    try (intros ((?&?&?) & ? & ? & [?|(?&?&?)]); simplify_eq; first [congruence|done|lia]);
    try (intros _; split_and!; first [done|by left|right; eexists; split; [done|lia]]).
Qed.

Lemma best_by_score_elem scores eligible w :
  best_by_score scores eligible = Some w → w ∈ eligible.
Proof. apply py_min_elem. Qed.

(** *** Soundness of a selection *)

Definition sound_for (resident_only : bool) (reserve : Z) (env : RoutingEnv)
  (request : RequestRecord) (w : WorkerState) : Prop :=
  usable w ∧
  if resident_only then r_model_id request ∈ w_resident_models w
  else ∃ model, env_models env !! r_model_id request = Some model ∧
    runtime_compatible model w = true ∧
    estimated_tokens request <= m_max_context_tokens model ∧ can_host reserve model w.
(** A decision names a usable worker; a refusal gives a reason for every worker. *)
Definition sound_result (resident_only : bool) (reserve : Z) (env : RoutingEnv)
  (request : RequestRecord) (workers : list WorkerState) (r : res RoutingDecision) : Prop :=
  match r with
  | Ok d => (∃ w, w ∈ workers ∧ w_worker_id w = rd_selected_worker_id d ∧
      sound_for resident_only reserve env request w) ∧ rd_selected_worker_id d ∈ rd_candidates d
  | Err (NoEligibleWorker rejected) =>
    ∀ w, w ∈ workers → is_Some (od_get (w_worker_id w) rejected)
  | Err (UnknownModel _) => resident_only = false ∧ env_models env !! r_model_id request = None
  | Err (ZeroDivisionError _) => resident_only = false
  | Err _ => False
  end.

Lemma filter_workers_sound env request workers reserve w :
  w ∈ (filter_workers request workers).1 → w ∈ workers ∧ sound_for true reserve env request w.
Proof.
  unfold filter_workers. rewrite elem_of_filter_by, reject_reason_None. unfold sound_for. tauto.
Qed.
Lemma filter_workers_empty request workers w :
  (filter_workers request workers).1 = [] → w ∈ workers →
  is_Some (od_get (w_worker_id w) (filter_workers request workers).2).
Proof.
  intros He Hw. apply (proj2 (filter_by_spec _ workers)); [done|]. intros Hr.
  assert (w ∈ (filter_workers request workers).1) as Hin by (by apply elem_of_filter_by).
  rewrite He in Hin. by apply not_elem_of_nil in Hin.
Qed.
Lemma placement_filter_spec env reserve request workers :
  match placement_filter env reserve request workers with
  | Ok (model, eligible, rejected) =>
    env_models env !! r_model_id request = Some model ∧
    (∀ w, w ∈ eligible → w ∈ workers ∧ sound_for false reserve env request w) ∧
    (∀ w, w ∈ workers → w ∈ eligible ∨ is_Some (od_get (w_worker_id w) rejected))
  | Err e => e = UnknownModel ("model is not registered: " +:+ r_model_id request) ∧
      env_models env !! r_model_id request = None
  end.
Proof.
  unfold placement_filter, placement_model, model_get.
  destruct (env_models env !! r_model_id request) as [model|] eqn:Hm; simpl; [|done].
  destruct (filter_by _ workers) as [eligible rejected] eqn:Hf. split; [done|].
  assert (∀ w, w ∈ eligible ↔ w ∈ workers ∧ placement_reason reserve model request w = None) as Hin
    by (intros w; rewrite <- elem_of_filter_by, Hf; done).
  split.
  - intros w (Hw & Hr)%Hin. apply placement_reason_None in Hr as (? & ? & ? & ?).
    split; [done|]. split; [done|]. by exists model.
  - intros w Hw. destruct (placement_reason reserve model request w) eqn:Hr; [right|left; by apply Hin].
    pose proof (proj2 (filter_by_spec (placement_reason reserve model request) workers) w Hw) as H.
    rewrite Hf in H. apply H. by rewrite Hr.
Qed.

Lemma round_robin_sound env request workers p reserve :
  sound_result true reserve env request workers (round_robin_select env request workers p).1.
Proof.
  unfold round_robin_select. pose proof (filter_workers_sound env request workers reserve) as Hs.
  pose proof (filter_workers_empty request workers) as He.
  destruct (filter_workers request workers) as [eligible rejected]. simpl in Hs, He.
  destruct (eligible !! _) as [w|] eqn:Hw; simpl.
  - apply list_elem_of_lookup_2 in Hw. split; [exists w; by destruct (Hs w Hw)|].
    apply list_elem_of_fmap. by exists w.
  - intros w' Hw'. apply He; [|done]. destruct eligible as [|w0 l]; [done|]. exfalso.
    apply lookup_ge_None in Hw. pose proof (Z.mod_pos_bound (rr_next p) (Z.of_nat (length (w0 :: l)))).
    simpl in *. lia.
Qed.
Lemma least_queue_sound env request workers p reserve :
  sound_result true reserve env request workers (least_queue_select env request workers p).1.
Proof.
  unfold least_queue_select. pose proof (filter_workers_sound env request workers reserve) as Hs.
  pose proof (filter_workers_empty request workers) as He.
  destruct (filter_workers request workers) as [eligible rejected]. simpl in Hs, He.
  destruct (best_by_score _ eligible) as [w|] eqn:Hw; simpl.
  - apply best_by_score_elem in Hw. split; [exists w; by destruct (Hs w Hw)|].
    apply list_elem_of_fmap. by exists w.
  - apply py_min_None in Hw. intros w' Hw'. by apply He.
Qed.

(** The last step of every placement policy. *)
Lemma placement_pick_sound env reserve request workers eligible rejected policy scores inputs o :
  (∀ w, w ∈ eligible → w ∈ workers ∧ sound_for false reserve env request w) →
  (∀ w, w ∈ workers → w ∈ eligible ∨ is_Some (od_get (w_worker_id w) rejected)) →
  (∀ w, o = Some w → w ∈ eligible) → (o = None → eligible = []) →
  sound_result false reserve env request workers
    (match o with
     | None => Err (NoEligibleWorker rejected)
     | Some selected => Ok (decision selected policy eligible rejected scores inputs)
     end).
Proof.
  intros Hs Hr Hin Hnone. destruct o as [w|]; simpl.
  - specialize (Hin w eq_refl). split; [exists w; by destruct (Hs w Hin)|].
    apply list_elem_of_fmap. by exists w.
  - intros w Hw. destruct (Hr w Hw) as [H|H]; [|done]. rewrite Hnone in H by done.
    by apply not_elem_of_nil in H.
Qed.
Ltac placement_sound :=
  match goal with |- context [placement_filter ?e ?rs ?q ?ws] =>
    pose proof (placement_filter_spec e rs q ws) as Hf;
    destruct (placement_filter e rs q ws) as [[[model eligible] rejected]|e'];
      [destruct Hf as (Hm & Hs & Hr)|by destruct Hf as [-> ?]]; simpl
  end.
Lemma residency_sound env request workers p :
  sound_result false (mr_reserve p) env request workers (residency_select env request workers p).1.
Proof.
  unfold residency_select. placement_sound.
  apply (placement_pick_sound _ _ _ _ eligible rejected); try done;
    [intros w; apply py_min_elem|intros H; by apply py_min_None in H].
Qed.
Lemma memory_aware_sound env request workers p :
  sound_result false (ma_reserve p) env request workers (memory_aware_select env request workers p).1.
Proof.
  unfold memory_aware_select. placement_sound.
  apply (placement_pick_sound _ _ _ _ eligible rejected); try done;
    [intros w; apply py_min_elem|intros H; by apply py_min_None in H].
Qed.
Lemma demand_aware_sound env request workers p :
  sound_result false (da_reserve p) env request workers (demand_aware_select env request workers p).1.
Proof.
  unfold demand_aware_select. placement_sound.
  apply (placement_pick_sound _ _ _ _ eligible rejected); try done;
    [intros w; apply py_min_elem|intros H; by apply py_min_None in H].
Qed.

Lemma f_truediv_error x y e : f_truediv x y = Err e → ∃ s, e = ZeroDivisionError s.
Proof. unfold f_truediv. case_head; [done|]. intros [= <-]. eauto. Qed.
Lemma estimate_completion_error p model request w e :
  estimate_completion p model request w = Err e → ∃ s, e = ZeroDivisionError s.
Proof.
  unfold estimate_completion. cbv zeta.
  destruct (f_truediv (f_of_Z (estimated_tokens request)) _) eqn:E1; simpl;
    [|intros [= <-]; by eapply f_truediv_error].
  destruct (f_truediv (f_of_Z (w_queue_depth w * _)) _) eqn:E2; simpl;
    [|intros [= <-]; by eapply f_truediv_error].
  destruct (f_truediv _ (f_of_Z (w_max_concurrency w))) eqn:E3; simpl; [done|].
  intros [= <-]. by eapply f_truediv_error.
Qed.
Lemma feasible_workers_spec p model clock request i ws rejected :
  match feasible_workers p model clock request i ws rejected with
  | Err e => ∃ s, e = ZeroDivisionError s
  | Ok (estimates, rejected') =>
    (∀ w e, (w, e) ∈ estimates → w ∈ ws ∧ estimate_completion p model request w = Ok e ∧
       ∃ j, f_ltb (r_deadline request) (f_add (clock j) (ce_total e)) = false) ∧
    (∀ k, is_Some (od_get k rejected) → is_Some (od_get k rejected')) ∧
    (∀ w, w ∈ ws → w ∈ estimates.*1 ∨ is_Some (od_get (w_worker_id w) rejected'))
  end.
Proof.
  revert i rejected. induction ws as [|w ws IH]; intros i rejected; simpl.
  { split_and!; [by intros w e ?%not_elem_of_nil|done|by intros w ?%not_elem_of_nil]. }
  destruct (estimate_completion p model request w) as [e|err] eqn:He; simpl;
    [|by eapply estimate_completion_error].
  destruct (f_ltb (r_deadline request) _) eqn:Hd.
  - specialize (IH (S i) (od_set (w_worker_id w) "deadline_not_feasible" rejected)).
    destruct (feasible_workers _ _ _ _ _ _ _) as [[estimates rejected']|]; [|done].
    destruct IH as (H1 & H2 & H3).
    assert (is_Some (od_get (w_worker_id w) rejected')) as Hw.
    { apply H2. rewrite od_get_set_eq. eauto. }
    split_and!.
    + intros w' e' Hin. destruct (H1 w' e' Hin) as (? & ? & ?). split_and!; [by right|done|done].
    + intros k Hk. apply H2. rewrite od_get_set. case_decide; eauto.
    + intros w' [->|Hw']%elem_of_cons; auto.
  - specialize (IH (S i) rejected).
    destruct (feasible_workers _ _ _ _ _ _ _) as [[estimates rejected']|]; simpl; [|done].
    destruct IH as (H1 & H2 & H3). split_and!.
    + intros w' e' [Heq|Hin]%elem_of_cons.
      * simplify_eq. split_and!; [left|done|eauto].
      * destruct (H1 w' e' Hin) as (? & ? & ?). split_and!; [by right|done|done].
    + done.
    + intros w' [->|Hw']%elem_of_cons; [left; left|].
      destruct (H3 w' Hw'); [left; by right|by right].
Qed.
Lemma ect_sound env request workers p :
  sound_result false (ect_reserve p) env request workers (ect_select env request workers p).1.
Proof.
  unfold ect_select. placement_sound.
  pose proof (feasible_workers_spec p model (env_clock env) request 0 eligible rejected) as Hfw.
  destruct (feasible_workers _ _ _ _ _ _ _) as [[estimates rejected']|e]; simpl;
    [|by destruct Hfw as [s ->]].
  destruct Hfw as (H1 & H2 & H3).
  apply (placement_pick_sound _ _ _ _ estimates.*1 rejected').
  - intros w ([w' e] & -> & Hin)%list_elem_of_fmap. simpl. destruct (H1 _ _ Hin) as [Hin' _]. by apply Hs.
  - intros w Hw. destruct (Hr w Hw) as [He|He]; [by apply H3|right; by apply H2].
  - intros w. apply py_min_elem.
  - intros H. by apply py_min_None in H.
Qed.

(** *** The law instances *)

Lemma sound_result_usable b reserve env request workers r d :
  sound_result b reserve env request workers r → r = Ok d →
  ∃ w, w ∈ workers ∧ w_worker_id w = rd_selected_worker_id d ∧ usable w ∧
    (r_model_id request ∈ w_resident_models w ∨
     ∃ model, env_models env !! r_model_id request = Some model ∧ can_host reserve model w).
Proof.
  intros Hs ->. destruct Hs as [(w & Hw & Hid & Hu & Hh) _]. exists w. split_and!; try done.
  destruct b; [by left|]. right. destruct Hh as (model & ? & _ & _ & ?). eauto.
Qed.
Lemma sound_result_error b reserve env request workers r e :
  sound_result b reserve env request workers r → r = Err e →
  match e with NoEligibleWorker _ | UnknownModel _ | ZeroDivisionError _ => True | _ => False end.
Proof. intros Hs ->. by destruct e. Qed.

Section laws.
Context {P : Type} `{RoutingPolicy P} (reserve : P → Z) (resident_only : bool).
Hypothesis sound : ∀ env request workers p,
  sound_result resident_only (reserve p) env request workers (select env request workers p).1.
Hypothesis stable : ∀ env request workers p, reserve (select env request workers p).2 = reserve p.
Lemma laws_of_soundness : RoutingPolicyLaws P reserve.
Proof using sound stable.
  split.
  - intros env request workers p d p' Hs. eapply sound_result_usable; [apply sound|].
    by rewrite Hs.
  - intros env request workers p e p' Hs. eapply sound_result_error; [apply sound|].
    by rewrite Hs.
  - intros env request workers p r p' Hs. by rewrite <- (stable env request workers p), Hs.
Qed.
End laws.
#[export] Instance RoundRobin_laws : RoutingPolicyLaws RoundRobinPolicy (λ _, 0).
Proof. apply (laws_of_soundness _ true); [intros; apply round_robin_sound|done]. Qed.
#[export] Instance LeastQueueDepth_laws : RoutingPolicyLaws LeastQueueDepthPolicy (λ _, 0).
Proof. apply (laws_of_soundness _ true); [intros; apply least_queue_sound|done]. Qed.
#[export] Instance ModelResidency_laws : RoutingPolicyLaws ModelResidencyAwarePolicy mr_reserve.
Proof. apply (laws_of_soundness _ false); [intros; apply residency_sound|done]. Qed.
#[export] Instance MemoryAware_laws : RoutingPolicyLaws MemoryAwareLeastLoadedPolicy ma_reserve.
Proof. apply (laws_of_soundness _ false); [intros; apply memory_aware_sound|done]. Qed.
#[export] Instance ECT_laws : RoutingPolicyLaws EstimatedCompletionTimePolicy ect_reserve.
Proof. apply (laws_of_soundness _ false); [intros; apply ect_sound|done]. Qed.
#[export] Instance DemandAware_laws : RoutingPolicyLaws DemandAwarePlacementPolicy da_reserve.
Proof. apply (laws_of_soundness _ false); [intros; apply demand_aware_sound|done]. Qed.

(** *** The selected score is minimal *)

Lemma foldl_od_set_keys {A V} (k : A → string) (f : A → V) (l : list A) d i :
  is_Some (od_get i (foldl (λ d a, od_set (k a) (f a) d) d l)) ↔
  is_Some (od_get i d) ∨ ∃ a, a ∈ l ∧ k a = i.
Proof.
  revert d. induction l as [|a l IH]; intros d; simpl.
  - split; [by left|]. intros [?|(a & ?%not_elem_of_nil & _)]; done.
  - rewrite IH, od_get_set. setoid_rewrite elem_of_cons. case_decide as E.
    + split; [|eauto]. intros _. right. exists a. split; [by left|done].
    + split; [intros [?|(a' & ? & ?)]; eauto|]. intros [?|(a' & [->|?] & ?)]; [by left|congruence|eauto].
Qed.
Definition minimal_in (scores : list (string * float)) (i : string) : Prop :=
  ∃ y, od_get i scores = Some y ∧ ∀ j x, od_get j scores = Some x → f_ltb x y = false.
Definition no_nan (scores : list (string * float)) : Prop :=
  ∀ i x, od_get i scores = Some x → f_is_nan x = false.

(** A total preorder refining the order of the scores picks a minimal score. *)
Lemma py_min_minimal (lt : WorkerState → WorkerState → bool) scores eligible w :
  (∀ i, is_Some (od_get i scores) ↔ ∃ a, a ∈ eligible ∧ w_worker_id a = i) → no_nan scores →
  (∀ x, lt x x = false) →
  (∀ x y z, f_is_nan (score_of scores x) = false → f_is_nan (score_of scores y) = false →
     f_is_nan (score_of scores z) = false → lt x y = false → lt y z = false → lt x z = false) →
  (∀ x y, f_is_nan (score_of scores x) = false → f_is_nan (score_of scores y) = false →
     lt x y = true → lt y x = false) →
  (∀ x y, lt x y = false → f_ltb (score_of scores x) (score_of scores y) = false) →
  py_min lt eligible = Some w → minimal_in scores (w_worker_id w).
Proof.
  intros Hk Hnan Hirr Htr Has Hsc Hmin.
  assert (∀ a, a ∈ eligible → od_get (w_worker_id a) scores = Some (score_of scores a)) as Hof.
  { intros a Ha. destruct (proj2 (Hk (w_worker_id a))) as [x Hx]; [eauto|].
    unfold score_of. by rewrite Hx. }
  exists (score_of scores w). split; [by apply Hof, (py_min_elem _ _ _ Hmin)|].
  intros j x Hj. destruct (proj1 (Hk j)) as (a & Ha & <-); [eauto|].
  rewrite (Hof a Ha) in Hj. injection Hj as <-. apply Hsc.
  apply (py_min_spec lt (λ a, f_is_nan (score_of scores a) = false)) with (l := eligible); try done.
  apply Forall_elem. intros b Hb. apply (Hnan (w_worker_id b)). auto.
Qed.
Lemma best_by_score_minimal scores eligible w :
  (∀ i, is_Some (od_get i scores) ↔ ∃ a, a ∈ eligible ∧ w_worker_id a = i) → no_nan scores →
  best_by_score scores eligible = Some w → minimal_in scores (w_worker_id w).
Proof.
  intros Hk Hnan. unfold best_by_score. apply py_min_minimal; try done.
  - intros x. apply key_ltb_irrefl.
  - intros x y z ? ? ?. by apply key_nltb_trans.
  - intros x y ? ?. by apply key_ltb_asym.
  - intros x y. unfold key_ltb. simpl. destruct (f_eqb _ _) eqn:E; [|done]. intros _.
    unfold f_eqb, SpecFloat.SFeqb, f_ltb, SpecFloat.SFltb in *.
    by destruct (SpecFloat.SFcompare _ _) as [[]|].
Qed.
Lemma residency_minimal scores eligible w :
  (∀ i, is_Some (od_get i scores) ↔ ∃ a, a ∈ eligible ∧ w_worker_id a = i) → no_nan scores →
  py_min (residency_ltb scores) eligible = Some w → minimal_in scores (w_worker_id w).
Proof.
  intros Hk Hnan. 
  assert (∀ x y, f_is_nan (score_of scores x) = false → f_is_nan (score_of scores y) = false →
    residency_ltb scores x y = true ↔
      klt (fkey (score_of scores x)) (fkey (score_of scores y)) ∨
      fkey (score_of scores x) = fkey (score_of scores y) ∧
        (w_queue_depth x < w_queue_depth y ∨
         w_queue_depth x = w_queue_depth y ∧ str_ltb (w_worker_id x) (w_worker_id y) = true)) as Hlt.
  { intros x y Hx Hy. unfold residency_ltb.
    pose proof (f_eqb_key _ _ Hx Hy) as He. pose proof (f_ltb_key _ _ Hx Hy) as Hl.
    destruct (f_eqb _ _).
    - destruct He as [He _]. rewrite He by done. pose proof (klt_irrefl (fkey (score_of scores y))).
      destruct (Z.eqb_spec (w_queue_depth x) (w_queue_depth y)) as [->|Hq].
      + split; [tauto|]. intros [?|(_ & [?|[_ ?]])]; [done|lia|done].
      + rewrite Z.ltb_lt. split; [tauto|]. intros [?|(_ & [?|[? _]])]; [done|done|lia].
    - rewrite Hl. split; [by left|]. intros [?|[Heq _]]; [done|]. by apply He in Heq. }
  apply py_min_minimal; try done.
  - intros x. unfold residency_ltb. rewrite str_ltb_irrefl, f_ltb_irrefl, Z.eqb_refl.
    by destruct (f_eqb _ _).
  - intros x y z Hx Hy Hz. rewrite <- !not_true_iff_false, !Hlt by done. intros H1 H2 H3.
    pose proof (klt_ntrans (fkey (score_of scores x)) (fkey (score_of scores y)) (fkey (score_of scores z))).
    assert (fkey (score_of scores x) = fkey (score_of scores z) →
      fkey (score_of scores x) = fkey (score_of scores y)) as Hmid.
    { intros E. rewrite E in *. symmetry. apply klt_total; tauto. }
    destruct H3 as [H3|[He H3]]; [tauto|]. specialize (Hmid He).
    assert (¬ (w_queue_depth x < w_queue_depth y ∨
      w_queue_depth x = w_queue_depth y ∧ str_ltb (w_worker_id x) (w_worker_id y) = true)) as N1
      by (intros N; apply H1; by right).
    assert (¬ (w_queue_depth y < w_queue_depth z ∨
      w_queue_depth y = w_queue_depth z ∧ str_ltb (w_worker_id y) (w_worker_id z) = true)) as N2
      by (intros N; apply H2; right; split; [congruence|done]).
    clear H1 H2. destruct H3 as [H3|[Hq H3]]; [lia|].
    assert (w_queue_depth x = w_queue_depth y ∧ w_queue_depth y = w_queue_depth z) as [Q1 Q2] by lia.
    assert (str_ltb (w_worker_id x) (w_worker_id y) = false) as S1
      by (apply not_true_iff_false; intros S; apply N1; by right).
    assert (str_ltb (w_worker_id y) (w_worker_id z) = false) as S2
      by (apply not_true_iff_false; intros S; apply N2; by right).
    by rewrite (str_nltb_trans _ _ _ S1 S2) in H3.
  - intros x y Hx Hy H1. apply not_true_iff_false. intros H2. rewrite Hlt in H1, H2 by done.
    destruct H1 as [H1|[E1 H1]], H2 as [H2|[E2 H2]].
    + exact (klt_irrefl _ (klt_trans _ _ _ H1 H2)).
    + rewrite E2 in H1. by apply klt_irrefl in H1.
    + rewrite E1 in H2. by apply klt_irrefl in H2.
    + destruct H1 as [H1|[Q1 H1]], H2 as [H2|[Q2 H2]]; try lia.
      pose proof (str_ltb_trans _ _ _ H1 H2) as H3. by rewrite str_ltb_irrefl in H3.
  - intros x y. unfold residency_ltb. destruct (f_eqb _ _) eqn:E; [|done]. intros _.
    unfold f_eqb, SpecFloat.SFeqb, f_ltb, SpecFloat.SFltb in *.
    by destruct (SpecFloat.SFcompare _ _) as [[]|].
Qed.

(** The scores of a decision belong to its candidates, and the selected one is minimal. *)
Definition best_decision (d : RoutingDecision) : Prop :=
  (∀ i, is_Some (od_get i (rd_scores d)) ↔ i ∈ rd_candidates d) ∧
  (no_nan (rd_scores d) → minimal_in (rd_scores d) (rd_selected_worker_id d)).

Lemma foldl_scores_keys {A} (k : A → string) (f : A → float) (l : list A) i :
  is_Some (od_get i (foldl (λ d a, od_set (k a) (f a) d) [] l)) ↔ ∃ a, a ∈ l ∧ k a = i.
Proof.
  rewrite foldl_od_set_keys. split; [intros [[x Hx]|?]; [by simpl in Hx|done]|by right].
Qed.
Lemma scores_best (scores : list (string * float)) (eligible : list WorkerState) :
  (∀ i, is_Some (od_get i scores) ↔ ∃ a, a ∈ eligible ∧ w_worker_id a = i) →
  ∀ i, is_Some (od_get i scores) ↔ i ∈ w_worker_id <$> eligible.
Proof. intros H i. rewrite H, list_elem_of_fmap. split; intros (a & ? & ?); exists a; by split. Qed.
Lemma decision_best w policy eligible rejected scores inputs :
  (∀ i, is_Some (od_get i scores) ↔ ∃ a, a ∈ eligible ∧ w_worker_id a = i) →
  (no_nan scores → minimal_in scores (w_worker_id w)) →
  best_decision (decision w policy eligible rejected scores inputs).
Proof. intros Hk Hm. split; [by apply scores_best|exact Hm]. Qed.

Lemma least_queue_best env request workers p d :
  (least_queue_select env request workers p).1 = Ok d → best_decision d.
Proof.
  unfold least_queue_select. destruct (filter_workers request workers) as [eligible rejected].
  destruct (best_by_score _ eligible) as [w|] eqn:Hw; [|done]. intros [= <-].
  apply decision_best; [intros i; apply foldl_scores_keys|].
  intros Hn. apply (best_by_score_minimal _ eligible); [intros i; apply foldl_scores_keys|done|done].
Qed.
Ltac placement_best :=
  match goal with |- context [placement_filter ?e ?rs ?q ?ws] =>
    destruct (placement_filter e rs q ws) as [[[model eligible] rejected]|e']; simpl; [|done]
  end.
Lemma residency_best env request workers p d :
  (residency_select env request workers p).1 = Ok d → best_decision d.
Proof.
  unfold residency_select. placement_best. destruct (py_min _ eligible) as [w|] eqn:Hw; [|done].
  intros [= <-]. apply decision_best; [intros i; apply foldl_scores_keys|]. intros Hn.
  apply (residency_minimal _ eligible); [intros i; apply foldl_scores_keys|done|done].
Qed.
Lemma memory_aware_best env request workers p d :
  (memory_aware_select env request workers p).1 = Ok d → best_decision d.
Proof.
  unfold memory_aware_select. placement_best. destruct (best_by_score _ eligible) as [w|] eqn:Hw; [|done].
  intros [= <-]. apply decision_best; [intros i; apply foldl_scores_keys|]. intros Hn.
  apply (best_by_score_minimal _ eligible); [intros i; apply foldl_scores_keys|done|done].
Qed.
Lemma demand_aware_best env request workers p d :
  (demand_aware_select env request workers p).1 = Ok d → best_decision d.
Proof.
  unfold demand_aware_select. placement_best. destruct (best_by_score _ eligible) as [w|] eqn:Hw; [|done].
  intros [= <-]. apply decision_best; [intros i; apply foldl_scores_keys|]. intros Hn.
  apply (best_by_score_minimal _ eligible); [intros i; apply foldl_scores_keys|done|done].
Qed.
Lemma ect_best env request workers p d :
  (ect_select env request workers p).1 = Ok d → best_decision d.
Proof.
  unfold ect_select. placement_best.
  destruct (feasible_workers _ _ _ _ _ _ _) as [[estimates rejected']|e]; simpl; [|done].
  destruct (best_by_score _ _) as [w|] eqn:Hw; [|done]. intros [= <-].
  assert (∀ i, is_Some (od_get i
      (foldl (λ d q, od_set (w_worker_id q.1) (ce_total q.2) d) [] estimates)) ↔
    ∃ a, a ∈ estimates.*1 ∧ w_worker_id a = i) as Hk.
  { intros i. rewrite foldl_scores_keys. setoid_rewrite list_elem_of_fmap. naive_solver. }
  apply decision_best; [exact Hk|]. intros Hn. by apply (best_by_score_minimal _ estimates.*1).
Qed.

(** *** Round robin *)

Record RoutingCall := mkCall {
  call_env : RoutingEnv; call_request : RequestRecord; call_workers : list WorkerState
}.
(** Consecutive selections of one policy object. *)
Fixpoint select_all {P} `{RoutingPolicy P} (calls : list RoutingCall) (p : P)
  : list (res RoutingDecision) :=
  match calls with
  | [] => []
  | c :: cs =>
    let '(r, p') := select (call_env c) (call_request c) (call_workers c) p in
    r :: select_all cs p'
  end.
Definition eligible_ids (c : RoutingCall) : list string :=
  w_worker_id <$> (filter_workers (call_request c) (call_workers c)).1.
Definition selected_id (r : res RoutingDecision) : option string :=
  match r with Ok d => Some (rd_selected_worker_id d) | Err _ => None end.

Lemma round_robin_step c (p : RoundRobinPolicy) ids :
  ids ≠ [] → eligible_ids c = ids →
  let '(r, p') := select (call_env c) (call_request c) (call_workers c) p in
  selected_id r = ids !! Z.to_nat (rr_next p mod Z.of_nat (length ids)) ∧
  rr_next p' = rr_next p + 1.
Proof.
  intros Hne <-. unfold eligible_ids in *. cbn [select RoundRobin_policy]. unfold select, RoundRobin_policy, round_robin_select.
  destruct (filter_workers _ _) as [eligible rejected]. cbn [fst] in *.
  rewrite length_fmap, list_lookup_fmap.
  assert (is_Some (eligible !! Z.to_nat (rr_next p mod Z.of_nat (length eligible)))) as [w ->].
  { apply lookup_lt_is_Some_2. destruct eligible as [|w l]; [done|].
    pose proof (Z.mod_pos_bound (rr_next p) (Z.of_nat (length (w :: l)))). simpl in *. lia. }
  done.
Qed.
Lemma round_robin_run calls (p : RoundRobinPolicy) ids i :
  ids ≠ [] → Forall (λ c, eligible_ids c = ids) calls → (i < length calls)%nat →
  select_all calls p !! i ≫= selected_id =
  ids !! Z.to_nat ((rr_next p + Z.of_nat i) mod Z.of_nat (length ids)).
Proof.
  intros Hne Hf. revert p i. induction Hf as [|c cs Hc Hf IH]; intros p i Hi; simpl in Hi; [lia|].
  pose proof (round_robin_step c p ids Hne Hc) as Hs. simpl.
  destruct (select _ _ _ p) as [r p']. destruct Hs as [Hr Hp]. destruct i as [|i]; simpl.
  - by rewrite Hr, Z.add_0_r.
  - rewrite IH by lia. rewrite Hp. do 3 f_equal. lia.
Qed.
Lemma rotate_perm {A} n (l : list A) : rotate n l ≡ₚ l.
Proof. unfold rotate. rewrite Permutation_app_comm. by rewrite take_drop. Qed.
Lemma round_robin_rotates calls (p : RoundRobinPolicy) ids :
  Forall (λ c, eligible_ids c = ids) calls → length calls = length ids → 0 <= rr_next p →
  selected_id <$> select_all calls p = Some <$> rotate (Z.to_nat (rr_next p)) ids.
Proof.
  intros Hf Hl Hp. assert (length (select_all calls p) = length calls) as Hlen.
  { clear. revert p. induction calls as [|c cs IH]; intros p; simpl; [done|].
    destruct (select _ _ _ p) as [r p']. simpl. by rewrite IH. }
  destruct (decide (ids = [])) as [->|Hne].
  { destruct calls; [|simpl in Hl; lia]. unfold rotate. by rewrite drop_nil, take_nil. }
  assert (length ids ≠ 0%nat) as Hn0 by (by destruct ids).
  apply list_eq. intros i. rewrite !list_lookup_fmap.
  destruct (decide (i < length ids)%nat) as [Hi|Hi].
  - pose proof (round_robin_run calls p ids i Hne Hf ltac:(lia)) as Hr.
    rewrite (lookup_rotate_r ids _ _ Hi). unfold rotate_nat_add.
    rewrite Z2Nat.id by lia. 
    assert (is_Some (select_all calls p !! i)) as [r Hri] by (apply lookup_lt_is_Some_2; lia).
    rewrite Hri in *. simpl in *. rewrite Hr.
    assert (is_Some (ids !! Z.to_nat ((rr_next p + Z.of_nat i) mod Z.of_nat (length ids)))) as [x ->]; [|done].
    apply lookup_lt_is_Some_2. pose proof (Z.mod_pos_bound (rr_next p + Z.of_nat i) (Z.of_nat (length ids))). lia.
  - rewrite (proj2 (lookup_ge_None _ _)) by lia.
    rewrite (proj2 (lookup_ge_None _ _)); [done|]. rewrite length_rotate. lia.
Qed.

(** ** Properties *)

(** C22: each of the six policies sends a request only to a worker that is healthy, not draining and
    below its concurrency limit; the two resident-only policies only to one hosting the model, the
    four placement policies only to one of a compatible device whose model takes the prompt, and
    that hosts the model or has the memory for it beyond the safety reserve. The worker chosen is
    one of the candidates listed. When a policy refuses, it says for every worker why, and an
    unknown model is the only other refusal besides a zero throughput estimate. *)
Theorem routing_sound env request workers :
  (∀ p reserve, sound_result true reserve env request workers
     (select env request workers (p : RoundRobinPolicy)).1) ∧
  (∀ p reserve, sound_result true reserve env request workers
     (select env request workers (p : LeastQueueDepthPolicy)).1) ∧
  (∀ p, sound_result false (mr_reserve p) env request workers
     (select env request workers (p : ModelResidencyAwarePolicy)).1) ∧
  (∀ p, sound_result false (ma_reserve p) env request workers
     (select env request workers (p : MemoryAwareLeastLoadedPolicy)).1) ∧
  (∀ p, sound_result false (ect_reserve p) env request workers
     (select env request workers (p : EstimatedCompletionTimePolicy)).1) ∧
  (∀ p, sound_result false (da_reserve p) env request workers
     (select env request workers (p : DemandAwarePlacementPolicy)).1).
Proof.
  split_and!; intros p; [intros reserve; apply round_robin_sound
    |intros reserve; apply least_queue_sound|apply residency_sound|apply memory_aware_sound
    |apply ect_sound|apply demand_aware_sound].
Qed.

(** each of the five scoring policies scores exactly its candidates and selects one whose score
    no other candidate undercuts, as long as no score is a NaN. *)
Theorem routing_minimal env request workers d :
  ((∃ p, (select env request workers (p : LeastQueueDepthPolicy)).1 = Ok d) ∨
   (∃ p, (select env request workers (p : ModelResidencyAwarePolicy)).1 = Ok d) ∨
   (∃ p, (select env request workers (p : MemoryAwareLeastLoadedPolicy)).1 = Ok d) ∨
   (∃ p, (select env request workers (p : EstimatedCompletionTimePolicy)).1 = Ok d) ∨
   (∃ p, (select env request workers (p : DemandAwarePlacementPolicy)).1 = Ok d)) →
  best_decision d.
Proof.
  intros [[p H]|[[p H]|[[p H]|[[p H]|[p H]]]]];
    [exact (least_queue_best _ _ _ _ _ H)|exact (residency_best _ _ _ _ _ H)|exact (memory_aware_best _ _ _ _ _ H)
    |exact (ect_best _ _ _ _ _ H)|exact (demand_aware_best _ _ _ _ _ H)].
Qed.

(** round robin is fair. Over as many consecutive selections as there are eligible workers, if
    the eligible workers stay the same, each of them is selected exactly once, whatever the
    requests were and wherever the cursor stood. *)
Theorem round_robin_fair calls (p : RoundRobinPolicy) ids :
  Forall (λ c, eligible_ids c = ids) calls → length calls = length ids → 0 <= rr_next p →
  selected_id <$> select_all calls p ≡ₚ Some <$> ids.
Proof. intros Hf Hl Hp. rewrite (round_robin_rotates calls p ids) by done. by rewrite rotate_perm. Qed.

(** ** Witnesses *)

Definition second_worker : WorkerState :=
  sample_worker <| w_worker_id := "worker-2" |> <| w_queue_depth := 3 |>.
Definition routed_model : ModelDefinition :=
  mkModel "model-x" "r1" SIMULATED 100 ["float16"] "float16" 64 64 true true f_zero f_zero.
Definition sample_env : RoutingEnv :=
  mkEnv {[ "model-x" := routed_model ]} (λ _, 0) (λ _, f_zero).
Definition sample_ect : EstimatedCompletionTimePolicy := mkECT 0 (f_of_Z 10) (f_ratio 1 10).
Definition ect_decision : res RoutingDecision :=
  (select sample_env sample_request [second_worker; sample_worker] sample_ect).1.

Lemma routing_minimal_witness : ∃ d, ect_decision = Ok d ∧ best_decision d.
Proof.
  destruct ect_decision as [d|e] eqn:E; [|vm_compute in E; discriminate].
  exists d. split; [reflexivity|].
  apply (routing_minimal sample_env sample_request [second_worker; sample_worker]).
  right; right; right; left. exists sample_ect. exact E.
Defined.

Definition sample_call : RoutingCall := mkCall sample_env sample_request [second_worker; sample_worker].
Lemma round_robin_fair_witness :
  selected_id <$> select_all [sample_call; sample_call] (mkRoundRobin 3)
  ≡ₚ Some <$> ["worker-1"; "worker-2"].
Proof.
  apply (round_robin_fair [sample_call; sample_call] (mkRoundRobin 3) ["worker-1"; "worker-2"]).
  - repeat constructor; vm_compute; reflexivity.
  - reflexivity.
  - simpl. lia.
Defined.
