(* ===== verification/Topology.v ===== *)
(** [serving_platform/topology]: the graph of links between workers with its cheapest routes
    ([models.py]), its discovery from worker inventory ([discovery.py]) and the placement of worker
    groups ([policy.py]). *)
From S2P Require Import Prelude PyContainers PyFloat FloatInt Domain Registry Routing.
From Stdlib Require String.

#[local] Open Scope string_scope.
#[local] Open Scope list_scope.
#[local] Open Scope Z_scope.

(** ** Data *)

Inductive TopologyLinkType := CUDA_PEER | PCIE_ROOT | HOST | FABRIC | NETWORK.
Definition DEFAULT_LINK_COST (t : TopologyLinkType) : float :=
  match t with
  | CUDA_PEER => f_of_Z 1
  | PCIE_ROOT => f_of_Z 4
  | HOST => f_of_Z 12
  | FABRIC => f_of_Z 25
  | NETWORK => f_of_Z 100
  end.

Record TopologyEndpoint := mkEndpoint {
  te_worker_id : string;
  te_node_id : option string;
  te_device_index : option Z;
  te_numa_node : option Z;
  te_pcie_root_id : option string;
  te_fabric_id : option string
}.
Record TopologyLink := mkLink {
  tl_source_worker_id : string;
  tl_target_worker_id : string;
  tl_link_type : TopologyLinkType;
  tl_cost : float;
  tl_measured_bandwidth_gbps : option float
}.
(** The dataclass constructor with [__post_init__]. *)
Definition TopologyLink_init (l : TopologyLink) : res TopologyLink :=
  _ ← raise_if (bool_decide (tl_source_worker_id l = tl_target_worker_id l) || f_leb (tl_cost l) f_zero)
        (ValueError "topology links require distinct endpoints and positive cost");
  _ ← raise_if (match tl_measured_bandwidth_gbps l with Some b => f_leb b f_zero | None => false end)
        (ValueError "measured topology bandwidth must be positive");
  Ok l.

Record TopologyGraph := mkGraph {
  tg_endpoints : list (string * TopologyEndpoint);
  tg_adjacency : list (string * list (string * float));
  tg_links : list TopologyLink
}.

Definition in_dict {A} (k : string) (d : list (string * A)) : bool := od_has k d.
(** [self._adjacency[source].append((target, cost))]. *)
Definition add_edge (source target : string) (cost : float) (adj : list (string * list (string * float)))
  : list (string * list (string * float)) :=
  od_set source (default [] (od_get source adj) ++ [(target, cost)]) adj.
(** One iteration of the loop over the links; [seen] holds the endpoint pairs. *)
Definition add_link (endpoints : list (string * TopologyEndpoint)) (link : TopologyLink)
  (st : list (string * list (string * float)) * list (gset string))
  : res (list (string * list (string * float)) * list (gset string)) :=
  let source := tl_source_worker_id link in
  let target := tl_target_worker_id link in
  _ ← raise_if (negb (in_dict source endpoints) || negb (in_dict target endpoints))
        (ValueError "topology link references an unknown endpoint");
  let key : gset string := {[source; target]} in
  _ ← raise_if (bool_decide (key ∈ st.2)) (ValueError "topology links must be unique per endpoint pair");
  Ok (add_edge target source (tl_cost link) (add_edge source target (tl_cost link) st.1), key :: st.2).
Fixpoint add_links (endpoints : list (string * TopologyEndpoint)) (links : list TopologyLink)
  (st : list (string * list (string * float)) * list (gset string))
  : res (list (string * list (string * float)) * list (gset string)) :=
  match links with
  | [] => Ok st
  | link :: links => st ← add_link endpoints link st; add_links endpoints links st
  end.
Definition TopologyGraph_init (endpoints : list TopologyEndpoint) (links : list TopologyLink)
  : res TopologyGraph :=
  let by_id := foldl (λ d e, od_set (te_worker_id e) e d) [] endpoints in
  _ ← raise_if (negb (Nat.eqb (length by_id) (length endpoints)))
        (ValueError "topology endpoint identifiers must be unique");
  st ← add_links by_id links ((λ p, (p.1, [])) <$> by_id, []);
  Ok (mkGraph by_id st.1 links).

(** ** Cheapest routes *)

(** [heapq.heappop]: the smallest [(cost, worker)] tuple and the rest of the heap. *)
Fixpoint remove_entry (x : float * string) (queue : list (float * string)) : list (float * string) :=
  match queue with
  | [] => []
  | y :: queue => if decide (x = y) then queue else y :: remove_entry x queue
  end.
Definition heappop (queue : list (float * string)) : option ((float * string) * list (float * string)) :=
  x ← py_min key_ltb queue; Some (x, remove_entry x queue).

(** The loop over the neighbours of the expanded worker. *)
Definition relax (cost : float) (edge : string * float)
  (st : list (string * float) * list (float * string)) : list (string * float) * list (float * string) :=
  let candidate := f_add cost edge.2 in
  if f_ltb candidate (default f_inf (od_get edge.1 st.1))
  then (od_set edge.1 candidate st.1, (candidate, edge.1) :: st.2) else st.
(** The main loop; [fuel] bounds the pops. *)
Fixpoint search (fuel : nat) (adj : list (string * list (string * float))) (target : string)
  (distances : list (string * float)) (queue : list (float * string)) : res float :=
  match fuel with
  | O => Ok f_inf
  | S fuel =>
    match heappop queue with
    | None => Ok f_inf
    | Some ((cost, current), queue) =>
      if bool_decide (current = target) then Ok cost
      else
        match od_get current distances, od_get current adj with
        | Some d, Some edges =>
          if negb (f_eqb cost d) then search fuel adj target distances queue
          else
            let st := foldl (λ st edge, relax cost edge st) (distances, queue) edges in
            search fuel adj target st.1 st.2
        | _, _ => Err (KeyError current)
        end
    end
  end.
(** One pop for the source and at most one per direction of a link. *)
Definition search_fuel (g : TopologyGraph) : nat := S (2 * length (tg_links g)).
Definition path_cost (source target : string) (g : TopologyGraph) : res float :=
  if negb (in_dict source (tg_endpoints g)) || negb (in_dict target (tg_endpoints g))
  then Err (KeyError "unknown topology endpoint")
  else if bool_decide (source = target) then Ok f_zero
  else search (search_fuel g) (tg_adjacency g) target [(source, f_zero)] [(f_zero, source)].

(** [itertools.combinations]. *)
Fixpoint combinations {A} (k : nat) (l : list A) {struct l} : list (list A) :=
  match k, l with
  | O, _ => [[]]
  | S _, [] => []
  | S k', x :: l => (cons x <$> combinations k' l) ++ combinations k l
  end.
Fixpoint pair_costs (g : TopologyGraph) (pairs : list (list string)) : res (list float) :=
  match pairs with
  | [] => Ok []
  | members :: pairs =>
    cost ← match members with
           | [first; second] => path_cost first second g
           | _ => Err (ValueError "not enough values to unpack")
           end;
    costs ← pair_costs g pairs;
    Ok (cost :: costs)
  end.
Definition group_cost (worker_ids : list string) (g : TopologyGraph) : res float :=
  _ ← raise_if (negb (bool_decide (NoDup worker_ids))) (ValueError "topology group members must be unique");
  py_sum <$> pair_costs g (combinations 2 worker_ids).

(** ** Discovery *)

Definition endpoint_of (worker : WorkerState) : TopologyEndpoint :=
  mkEndpoint (w_worker_id worker) (w_node_id worker) (w_gpu_index worker) (w_numa_node worker)
    (w_pcie_root_id worker) (w_fabric_id worker).
(** [x is not None and x == y]. *)
Definition same_known (x y : option string) : bool :=
  match x with Some _ => bool_decide (x = y) | None => false end.
Definition link_type_of (cuda_peer_access : option (Z → Z → bool)) (source target : TopologyEndpoint)
  : TopologyLinkType :=
  let same_node := same_known (te_node_id source) (te_node_id target) in
  let peer := same_node &&
    match cuda_peer_access, te_device_index source, te_device_index target with
    | Some access, Some i, Some j => access i j
    | _, _, _ => false
    end in
  if peer then CUDA_PEER
  else if same_node && same_known (te_pcie_root_id source) (te_pcie_root_id target) then PCIE_ROOT
  else if same_node then HOST
  else if same_known (te_fabric_id source) (te_fabric_id target) then FABRIC
  else NETWORK.
Definition discover_link (by_id : list (string * WorkerState)) (cuda_peer_access : option (Z → Z → bool))
  (source target : TopologyEndpoint) : res TopologyLink :=
  match od_get (te_worker_id source) by_id, od_get (te_worker_id target) by_id with
  | Some source_worker, Some target_worker =>
    let link_type := link_type_of cuda_peer_access source target in
    TopologyLink_init (mkLink (w_worker_id source_worker) (w_worker_id target_worker) link_type
      (DEFAULT_LINK_COST link_type) None)
  | _, _ => Err (KeyError (te_worker_id source))
  end.
Fixpoint discover_from (by_id : list (string * WorkerState)) (cuda_peer_access : option (Z → Z → bool))
  (source : TopologyEndpoint) (targets : list TopologyEndpoint) : res (list TopologyLink) :=
  match targets with
  | [] => Ok []
  | target :: targets =>
    link ← discover_link by_id cuda_peer_access source target;
    links ← discover_from by_id cuda_peer_access source targets;
    Ok (link :: links)
  end.
Fixpoint discover_links (by_id : list (string * WorkerState)) (cuda_peer_access : option (Z → Z → bool))
  (endpoints : list TopologyEndpoint) : res (list TopologyLink) :=
  match endpoints with
  | [] => Ok []
  | source :: endpoints =>
    links ← discover_from by_id cuda_peer_access source endpoints;
    rest ← discover_links by_id cuda_peer_access endpoints;
    Ok (links ++ rest)
  end.
Definition discover_topology (workers : list WorkerState) (cuda_peer_access : option (Z → Z → bool))
  : res TopologyGraph :=
  let endpoints := endpoint_of <$> sorted_by by_worker_id workers in
  let by_id := foldl (λ d w, od_set (w_worker_id w) w d) [] workers in
  links ← discover_links by_id cuda_peer_access endpoints;
  TopologyGraph_init endpoints links.

(** ** Placement of worker groups *)

Record WorkerGroupDecision := mkGroupDecision {
  wg_worker_ids : list string;
  wg_policy : string;
  wg_topology_cost : float;
  wg_load_cost : float;
  wg_candidates_considered : Z;
  wg_rejected_workers : list (string * string)
}.
Record TopologyAwareWorkerGroupPolicy := mkGroupPolicy {
  gp_topology : TopologyGraph;
  gp_load_weight : float;
  gp_reserve : Z
}.
Definition TopologyAwareWorkerGroupPolicy_init (topology : TopologyGraph) (load_weight : float)
  (memory_safety_reserve_bytes : Z) : res TopologyAwareWorkerGroupPolicy :=
  _ ← raise_if (memory_safety_reserve_bytes <? 0) (ValueError "memory safety reserve cannot be negative");
  _ ← raise_if (f_ltb load_weight f_zero) (ValueError "topology load weight must be non-negative");
  Ok (mkGroupPolicy topology load_weight memory_safety_reserve_bytes).

(** The loop that sets aside the workers without topology. *)
Definition topology_filter (g : TopologyGraph) (eligible : list WorkerState) (rejected : list (string * string))
  : list WorkerState * list (string * string) :=
  foldl (λ acc worker,
      if in_dict (w_worker_id worker) (tg_endpoints g) then (acc.1 ++ [worker], acc.2)
      else (acc.1, od_set (w_worker_id worker) "topology_missing" acc.2))
    ([], rejected) eligible.
Definition group_load (group : list WorkerState) : float :=
  py_sum ((λ w, f_add (f_of_Z (w_queue_depth w)) (f_ratio (w_active_batch_count w) (w_max_concurrency w)))
          <$> group).
(** [(score, worker identifiers, topology cost, load cost)]. *)
Definition Ranked : Type := float * list string * float * float.
Definition rank_group (p : TopologyAwareWorkerGroupPolicy) (group : list WorkerState) : res (option Ranked) :=
  let worker_ids := sorted_by str_leb (w_worker_id <$> group) in
  topology_cost ← group_cost worker_ids (gp_topology p);
  if f_eqb topology_cost f_inf then Ok None
  else
    let load_cost := group_load group in
    Ok (Some (f_add topology_cost (f_mul (gp_load_weight p) load_cost), worker_ids, topology_cost, load_cost)).
Fixpoint rank_groups (p : TopologyAwareWorkerGroupPolicy) (groups : list (list WorkerState))
  : res (list Ranked) :=
  match groups with
  | [] => Ok []
  | group :: groups =>
    r ← rank_group p group;
    rs ← rank_groups p groups;
    Ok (match r with Some r => r :: rs | None => rs end)
  end.
(** Python's order on tuples of strings, and on the ranked tuples. *)
Fixpoint strs_ltb (xs ys : list string) : bool :=
  match xs, ys with
  | [], [] => false
  | [], _ :: _ => true
  | _ :: _, [] => false
  | x :: xs, y :: ys => if bool_decide (x = y) then strs_ltb xs ys else str_ltb x y
  end.
Definition ranked_ltb (a b : Ranked) : bool :=
  let '(s, ids, t, l) := a in
  let '(s', ids', t', l') := b in
  if negb (f_eqb s s') then f_ltb s s'
  else if negb (bool_decide (ids = ids')) then strs_ltb ids ids'
  else if negb (f_eqb t t') then f_ltb t t'
  else f_ltb l l'.
Definition select_group (env : RoutingEnv) (request : RequestRecord) (workers : list WorkerState)
  (group_size : Z) (p : TopologyAwareWorkerGroupPolicy) : res WorkerGroupDecision :=
  _ ← raise_if (group_size <=? 0) (ValueError "worker group size must be positive");
  f ← placement_filter env (gp_reserve p) request workers;
  let '(_, eligible, rejected) := f in
  let '(eligible, rejected) := topology_filter (gp_topology p) eligible rejected in
  _ ← raise_if (Z.of_nat (length eligible) <? group_size) (NoEligibleWorker rejected);
  ranked ← rank_groups p (combinations (Z.to_nat group_size) eligible);
  match py_min ranked_ltb ranked with
  | None => Err (NoEligibleWorker rejected)
  | Some (_, worker_ids, topology_cost, load_cost) =>
    Ok (mkGroupDecision worker_ids "topology_aware_worker_group" topology_cost load_cost
          (Z.of_nat (length ranked)) rejected)
  end.
