(* ===== verification/TopologySafe.v ===== *)
(** Cheapest routes over the topology graph: on whole-number link costs the search of [path_cost] is
    exact, never runs out of fuel and returns the least cost over all routes. *)
From S2P Require Import Prelude PyContainers PyFloat FloatInt Domain Registry Routing Topology.
From Stdlib Require String.

#[local] Open Scope string_scope.
#[local] Open Scope list_scope.
#[local] Open Scope Z_scope.
#[local] Set Default Proof Using "Type".
#[local] Set Proof Using Clear Unused.

(** ** Dictionaries of floats as dictionaries of integers *)

Definition lift_dict {A B} (f : A → B) (d : list (string * A)) : list (string * B) :=
  (λ p, (p.1, f p.2)) <$> d.
Lemma od_get_lift {A B} (f : A → B) k d : od_get k (lift_dict f d) = f <$> od_get k d.
Proof. induction d as [|[k' v] d IH]; simpl; [done|]. by destruct (decide (k = k')). Qed.
Lemma od_set_lift {A B} (f : A → B) k v d : od_set k (f v) (lift_dict f d) = lift_dict f (od_set k v d).
Proof.
  induction d as [|[k' v'] d IH]; simpl; [done|]. destruct (decide (k = k')); [done|].
  unfold lift_dict in *. simpl. by rewrite IH.
Qed.

Definition lift_entry (e : Z * string) : float * string := (f_of_Z e.1, e.2).
Definition whole (z : Z) : Prop := 0 <= z < 2 ^ 53.

Lemma lift_entry_inj e e' : whole e.1 → whole e'.1 → lift_entry e = lift_entry e' → e = e'.
Proof.
  destruct e as [c v], e' as [c' v']; simpl; intros H1 H2 [= E ->]. f_equal. by apply f_of_Z_inj.
Qed.
Fixpoint remove_z (e : Z * string) (q : list (Z * string)) : list (Z * string) :=
  match q with [] => [] | x :: q => if decide (e = x) then q else x :: remove_z e q end.
Lemma remove_entry_lift e q :
  whole e.1 → Forall (λ x, whole x.1) q → remove_entry (lift_entry e) (lift_entry <$> q) = lift_entry <$> remove_z e q.
Proof.
  intros He. induction 1 as [|x q Hx Hq IH]; [done|]. rewrite fmap_cons. cbn [remove_entry remove_z].
  destruct (decide (e = x)) as [->|Hne]; [by rewrite decide_True|].
  rewrite decide_False by (intros ?%lift_entry_inj; done). by rewrite IH.
Qed.
Lemma remove_z_perm e q : e ∈ q → q ≡ₚ e :: remove_z e q.
Proof.
  induction q as [|x q IH]; [by intros ?%not_elem_of_nil|]. intros [->|Hin]%elem_of_cons; cbn [remove_z].
  - by rewrite decide_True.
  - destruct (decide (e = x)) as [->|]; [done|]. rewrite IH at 1 by done. constructor.
Qed.

(** Popping the heap takes out a least entry. *)
Lemma heappop_lift q :
  Forall (λ x, whole x.1) q →
  match heappop (lift_entry <$> q) with
  | None => q = []
  | Some (x, rest) => ∃ c v q', x = (f_of_Z c, v) ∧ rest = lift_entry <$> q' ∧ q ≡ₚ (c, v) :: q' ∧
      ∀ c' v', (c', v') ∈ q → c <= c'
  end.
Proof.
  intros Hq. unfold heappop. destruct (py_min key_ltb (lift_entry <$> q)) as [x|] eqn:E; simpl.
  - pose proof (py_min_elem _ _ _ E) as ([c v] & -> & Hin)%list_elem_of_fmap.
    rewrite Forall_elem in Hq. pose proof (Hq _ Hin) as Hc.
    exists c, v, (remove_z (c, v) q). split_and!; [done| |by apply remove_z_perm|].
    + apply remove_entry_lift; [done|]. by rewrite Forall_elem.
    + intros c' v' Hin'. pose proof (Hq _ Hin') as Hc'.
      assert (key_ltb (lift_entry (c', v')) (lift_entry (c, v)) = false) as Hk.
      { apply (py_min_spec key_ltb (λ x, f_is_nan x.1 = false)) with (l := lift_entry <$> q); [..|done|].
        - intros. apply key_ltb_irrefl.
        - intros x y z Hx Hy Hz H1 H2. by apply (key_nltb_trans x y z).
        - intros x y Hx Hy. by apply key_ltb_asym.
        - apply Forall_elem. intros y (y' & -> & Hy')%list_elem_of_fmap. apply f_of_Z_not_nan, (Hq _ Hy').
        - apply list_elem_of_fmap. by eexists. }
      unfold key_ltb, lift_entry in Hk. simpl in Hc, Hc', Hk.
      rewrite f_of_Z_eqb, f_of_Z_ltb in Hk by done. destruct (c' =? c) eqn:E'; bool_hyps; lia.
  - apply py_min_None, fmap_nil_inv in E. done.
Qed.

(** ** The search on integer costs *)

(** The routes from [src] along the edges [E], with their costs. *)
Inductive route (E : string → string → Z → Prop) (src : string) : string → Z → Prop :=
| route_nil : route E src src 0
| route_snoc x y d w : route E src x d → E x y w → route E src y (d + w).
Lemma route_mono (E E' : string → string → Z → Prop) src x d :
  (∀ u v w, E u v w → E' u v w) → route E src x d → route E' src x d.
Proof. intros H. induction 1; [constructor|]. econstructor; eauto. Qed.

Section search.
Context (adj : list (string * list (string * Z))) (W : Z) (src target : string).

Definition edge (u v : string) (w : Z) : Prop := ∃ es, od_get u adj = Some es ∧ (v, w) ∈ es.
#[local] Abbreviation walk := (route edge src).

Context (adj_ok : od_ok adj).
Context (edge_ok : ∀ u v w, edge u v w → 0 < w <= W ∧ is_Some (od_get v adj)).
Context (src_ok : is_Some (od_get src adj)).
Context (small : (Z.of_nat (length adj) + 1) * W < 2 ^ 53) (W_nonneg : 0 <= W).

(** State of the search: the settled workers [S], the distances, the queue, and the edges that have
    been relaxed. *)
Record search_inv (S : list string) (zd : list (string * Z)) (zq : list (Z * string))
  (relaxed : string → string → Z → Prop) : Prop := {
  si_src : od_get src zd = Some 0;
  si_walk : ∀ v d, od_get v zd = Some d → walk v d;
  si_queue : ∀ c v, (c, v) ∈ zq → ∃ d, od_get v zd = Some d ∧ 0 <= d <= c;
  si_front : ∀ v d, od_get v zd = Some d → v ∈ S ∨ (d, v) ∈ zq;
  si_relaxed : ∀ u v w, relaxed u v w → u ∈ S;
  si_edges : ∀ u v w du, relaxed u v w → od_get u zd = Some du →
    ∃ dv, od_get v zd = Some dv ∧ dv <= du + w;
  si_settled : ∀ u, u ∈ S → ∃ d, od_get u zd = Some d ∧ ∀ c v, (c, v) ∈ zq → d <= c;
  si_nodup : NoDup S;
  si_keys : ∀ u, u ∈ S → is_Some (od_get u adj);
  si_dist_bound : ∀ v d, od_get v zd = Some d → d <= Z.of_nat (length S) * W;
  si_queue_bound : ∀ c v, (c, v) ∈ zq → c <= Z.of_nat (length S) * W
}.
Definition all_edges (S : list string) (u v : string) (w : Z) : Prop := u ∈ S ∧ edge u v w.

Lemma walk_nonneg x d : walk x d → 0 <= d.
Proof using edge_ok.
  induction 1 as [|x y d w _ IH He]; [done|]. destruct (edge_ok _ _ _ He). lia.
Qed.
Lemma walk_key x d : walk x d → is_Some (od_get x adj).
Proof using edge_ok src_ok. destruct 1 as [|x y d w _ He]; [done|]. apply (edge_ok _ _ _ He). Qed.
Lemma settled_few S : NoDup S → (∀ u, u ∈ S → is_Some (od_get u adj)) → (length S <= length adj)%nat.
Proof.
  intros Hn Hk. rewrite <- (length_fmap fst adj). apply submseteq_length, NoDup_submseteq; [done|].
  intros u [es Hu%od_get_elem]%Hk. apply list_elem_of_fmap. by exists (u, es).
Qed.
Lemma settled_bound S : NoDup S → (∀ u, u ∈ S → is_Some (od_get u adj)) →
  Z.of_nat (length S) * W + W < 2 ^ 53.
Proof using small W_nonneg. intros Hn Hk. pose proof (settled_few S Hn Hk). nia. Qed.

(** Every walk has reached a settled worker, or something on the queue is at most as far. *)
Lemma search_reach S zd zq x d :
  search_inv S zd zq (all_edges S) → walk x d →
  (x ∈ S ∧ ∃ dx, od_get x zd = Some dx ∧ dx <= d) ∨ ∃ c y, (c, y) ∈ zq ∧ c <= d.
Proof using edge_ok.
  intros Hinv. induction 1 as [|x y d w Hw IH He].
  - destruct (si_front _ _ _ _ Hinv src 0 (si_src _ _ _ _ Hinv)) as [Hs|Hq].
    + left. split; [done|]. exists 0. split; [apply Hinv|done].
    + right. by exists 0, src.
  - destruct (edge_ok _ _ _ He) as [Hwp _].
    destruct IH as [(Hx & dx & Hdx & Hle)|(c & z & Hz & Hle)]; [|right; exists c, z; split; [done|lia]].
    destruct (si_edges _ _ _ _ Hinv x y w dx (conj Hx He) Hdx) as (dy & Hdy & Hle').
    destruct (si_front _ _ _ _ Hinv y dy Hdy) as [Hy|Hy].
    + left. split; [done|]. exists dy. split; [done|lia].
    + right. exists dy, y. split; [done|lia].
Qed.

(** Taking a useless entry off the queue. *)
Lemma search_inv_pop S zd zq zq' c v R :
  search_inv S zd zq R → zq ≡ₚ (c, v) :: zq' → (od_get v zd = Some c → v ∈ S) →
  search_inv S zd zq' R.
Proof.
  intros [] Hp Hv. assert (∀ e, e ∈ zq' → e ∈ zq) as Hsub by (intros e ?; rewrite Hp; by right).
  split; try done; eauto.
  - intros y d Hy. destruct (si_front0 y d Hy) as [?|Hin]; [by left|].
    rewrite Hp in Hin. apply elem_of_cons in Hin as [[= -> ->]|?]; [left; auto|by right].
  - intros u Hu. destruct (si_settled0 u Hu) as (d & ? & Hle). eauto 6.
Qed.

(** One relaxation on integers. *)
Definition relax_z (c : Z) (e : string * Z) (st : list (string * Z) * list (Z * string))
  : list (string * Z) * list (Z * string) :=
  let k := c + e.2 in
  if match od_get e.1 st.1 with Some d => k <? d | None => true end
  then (od_set e.1 k st.1, (k, e.1) :: st.2) else st.
Lemma relax_lift c e zd zq :
  0 <= c → 0 <= e.2 → c + e.2 < 2 ^ 53 → (∀ v d, od_get v zd = Some d → whole d) →
  relax (f_of_Z c) (e.1, f_of_Z e.2) (lift_dict f_of_Z zd, lift_entry <$> zq) =
  (lift_dict f_of_Z (relax_z c e (zd, zq)).1, lift_entry <$> (relax_z c e (zd, zq)).2).
Proof.
  intros Hc He Hlt Hd. unfold relax, relax_z. simpl. rewrite f_add_of_Z by lia. rewrite od_get_lift.
  destruct (od_get e.1 zd) as [d|] eqn:E; simpl.
  - rewrite f_of_Z_ltb by (lia || by eapply Hd). destruct (_ <? _); [|done]. by rewrite od_set_lift.
  - rewrite f_of_Z_ltb_inf by lia. by rewrite od_set_lift.
Qed.

Lemma relax_z_inv S zd zq R v c x w :
  search_inv S zd zq R → v ∈ S → od_get v zd = Some c → (∀ u d, u ∈ S → od_get u zd = Some d → d <= c) →
  0 <= c → c + w <= Z.of_nat (length S) * W → edge v x w →
  let st := relax_z c (x, w) (zd, zq) in
  search_inv S st.1 st.2 (λ u y k, R u y k ∨ (u = v ∧ y = x ∧ k = w)) ∧
  (∀ u, u ∈ S → od_get u st.1 = od_get u zd) ∧ (length st.2 <= length zq + 1)%nat.
Proof using edge_ok.
  intros Hinv Hv Hvc Hmax Hc Hb He st. destruct (edge_ok _ _ _ He) as [Hw _].
  pose proof Hinv as []. unfold st, relax_z. clear st. cbn [fst snd].
  destruct (match od_get x zd with Some d => c + w <? d | None => true end) eqn:E; cbn [fst snd].
  - assert (x ∉ S) as Hx.
    { intros Hx. destruct (si_settled0 x Hx) as (dx & Hdx & _). rewrite Hdx in E. bool_hyps.
      specialize (Hmax x dx Hx Hdx). lia. }
    assert (∀ d, od_get x zd = Some d → c + w < d) as Hlt by (intros d Hd; rewrite Hd in E; by bool_hyps).
    split_and!; [split|intros u Hu; by rewrite od_get_set_ne by (intros ->; done)|simpl; lia].
    + rewrite od_get_set. case_decide as Hd; [|done]. subst x. specialize (Hlt 0 si_src0). lia.
    + intros y d. rewrite od_get_set. case_decide as Hd; [|auto]. intros [= <-]. subst y.
      by eapply route_snoc; [apply si_walk0|].
    + intros c' y [[= -> ->]|Hin]%elem_of_cons.
      * exists (c + w). rewrite od_get_set_eq. split; [done|lia].
      * destruct (si_queue0 c' y Hin) as (d & Hd & ?). rewrite od_get_set. case_decide as Hy; [|by eauto].
        subst y. specialize (Hlt d Hd). exists (c + w). split; [done|lia].
    + intros y d. rewrite od_get_set. case_decide as Hy; [intros [= <-]; subst; right; left|].
      intros [?|?]%si_front0; [by left|right; by right].
    + intros u y k [HR|(-> & _)]; [by eapply si_relaxed0|done].
    + intros u y k du HR. rewrite od_get_set. case_decide as Hu.
      { subst u. destruct HR as [?%si_relaxed0|(-> & _)]; done. }
      intros Hdu. destruct HR as [HR|(-> & -> & ->)].
      * destruct (si_edges0 u y k du HR Hdu) as (dy & Hdy & ?). rewrite od_get_set.
        case_decide as Hy; [subst y; specialize (Hlt dy Hdy); exists (c + w); split; [done|lia]|by exists dy].
      * rewrite od_get_set_eq. exists (c + w). split; [done|]. assert (du = c) by congruence. lia.
    + intros u Hu. destruct (si_settled0 u Hu) as (d & Hd & Hle). exists d.
      rewrite od_get_set_ne by (intros ->; done). split; [done|].
      intros c' y [[= -> ->]|Hin]%elem_of_cons; [specialize (Hmax u d Hu Hd); lia|by eapply Hle].
    + done.
    + done.
    + intros y d. rewrite od_get_set. case_decide; [intros [= <-]; lia|by apply si_dist_bound0].
    + intros c' y [[= -> ->]|Hin]%elem_of_cons; [lia|by eapply si_queue_bound0].
  - split_and!; [|done|lia]. split; try done; [by intros u y k [?%si_relaxed0|(-> & _)]|].
    intros u y k du [HR|(-> & -> & ->)] Hdu; [by apply (si_edges0 u)|].
    destruct (od_get x zd) as [dx|]; [|done]. exists dx. bool_hyps. split; [done|].
    assert (du = c) by congruence. lia.
Qed.

(** The loop over the neighbours of a worker that has just been settled. *)
Lemma relax_all_inv S v c es zd zq R :
  search_inv S zd zq R → v ∈ S → od_get v zd = Some c → (∀ u d, u ∈ S → od_get u zd = Some d → d <= c) →
  0 <= c → c + W <= Z.of_nat (length S) * W → (∀ x w, (x, w) ∈ es → edge v x w) →
  let st := foldl (λ st e, relax_z c e st) (zd, zq) es in
  foldl (λ st e, relax (f_of_Z c) e st) (lift_dict f_of_Z zd, lift_entry <$> zq)
      ((λ e, (e.1, f_of_Z e.2)) <$> es) = (lift_dict f_of_Z st.1, lift_entry <$> st.2) ∧
  search_inv S st.1 st.2 (λ u y k, R u y k ∨ (u = v ∧ (y, k) ∈ es)) ∧
  (length st.2 <= length zq + length es)%nat.
Proof using edge_ok small W_nonneg.
  revert zd zq R. induction es as [|[x w] es IH]; intros zd zq R Hinv Hv Hvc Hmax Hc Hb Hes.
  { simpl. split_and!; [done| |lia]. destruct Hinv. split; try done.
    - intros u y k [?|(_ & ?%not_elem_of_nil)]; [by eapply si_relaxed0|done].
    - intros u y k du [?|(_ & ?%not_elem_of_nil)]; [by eapply si_edges0|done]. }
  assert (edge v x w) as He by (apply Hes; left). destruct (edge_ok _ _ _ He) as [Hw _].
  pose proof (settled_bound S (si_nodup _ _ _ _ Hinv) (si_keys _ _ _ _ Hinv)) as Hsm.
  destruct (relax_z_inv S zd zq R v c x w) as (Hinv1 & Hsame & Hlen); try done; [lia|].
  rewrite fmap_cons. cbn [foldl fst snd].
  pose proof (relax_lift c (x, w) zd zq) as Hrl. cbn [fst snd] in Hrl.
  rewrite Hrl;
    [|lia..|intros y d Hy; split; [by eapply walk_nonneg, Hinv|pose proof (si_dist_bound _ _ _ _ Hinv y d Hy); lia]].
  destruct (relax_z c (x, w) (zd, zq)) as [zd1 zq1]; cbn [fst snd] in *.
  destruct (IH zd1 zq1 _ Hinv1) as (E & Hinv2 & Hlen2); try done.
  { by rewrite Hsame. } { intros u d Hu. rewrite Hsame by done. by apply Hmax. }
  { intros y k ?. apply Hes. by right. }
  split_and!; [exact E| |rewrite length_cons; lia]. destruct Hinv2. split; try done.
  - intros u y k [?|(-> & _)]; [|done]. eapply (si_relaxed0 u y k). by do 2 left.
  - intros u y k du HR. apply (si_edges0 u y k du).
    destruct HR as [?|(-> & [[= -> ->]|?]%elem_of_cons)]; [by do 2 left|left; by right|by right].
Qed.

(** The directions of links whose source is not settled yet. *)
Definition pending (S : list string) : Z :=
  zsum (λ p, if bool_decide (p.1 ∈ S) then 0 else Z.of_nat (length p.2)) adj.
Lemma pending_settle S v es :
  od_get v adj = Some es → v ∉ S → pending (v :: S) = pending S - Z.of_nat (length es).
Proof using adj_ok.
  unfold pending. intros Hv HvS. revert adj_ok Hv. clear -HvS.
  induction adj as [|[k ws] l IH]; simpl; [done|]. unfold zsum in *. simpl. intros [Hn Hok]%od_ok_cons Hv.
  destruct (decide (v = k)) as [->|Hne].
  - injection Hv as ->. rewrite bool_decide_eq_true_2 by left. rewrite bool_decide_eq_false_2 by done.
    enough (foldr (λ p acc, (if bool_decide (p.1 ∈ k :: S) then 0 else Z.of_nat (length p.2)) + acc) 0 l =
            foldr (λ p acc, (if bool_decide (p.1 ∈ S) then 0 else Z.of_nat (length p.2)) + acc) 0 l) by lia.
    apply (zsum_ext (λ p, if bool_decide (p.1 ∈ k :: S) then 0 else Z.of_nat (length p.2))
                    (λ p, if bool_decide (p.1 ∈ S) then 0 else Z.of_nat (length p.2))).
    intros [k' ws'] Hin. simpl. assert (k' ≠ k).
    { intros ->. apply od_get_None in Hn. apply Hn, list_elem_of_fmap. by exists (k, ws'). }
    replace (bool_decide (k' ∈ k :: S)) with (bool_decide (k' ∈ S)); [done|].
    apply bool_decide_ext. rewrite elem_of_cons. naive_solver.
  - replace (bool_decide (k ∈ v :: S)) with (bool_decide (k ∈ S)); [rewrite IH by done; lia|].
    apply bool_decide_ext. rewrite elem_of_cons. naive_solver.
Qed.
Lemma pending_nonneg S : 0 <= pending S.
Proof. apply zsum_nonneg. intros p _. case_bool_decide; lia. Qed.

(** What the search returns. *)
Definition cheapest (r : res float) : Prop :=
  (∃ d, r = Ok (f_of_Z d) ∧ whole d ∧ walk target d ∧ ∀ d', walk target d' → d <= d') ∨
  (r = Ok f_inf ∧ ∀ d, ¬ walk target d).

Lemma search_correct fuel S zd zq :
  search_inv S zd zq (all_edges S) → target ∉ S → Z.of_nat (length zq) + pending S <= Z.of_nat fuel →
  cheapest (search fuel (lift_dict (fmap (λ e, (e.1, f_of_Z e.2))) adj) target
              (lift_dict f_of_Z zd) (lift_entry <$> zq)).
Proof using adj_ok edge_ok src_ok small W_nonneg.
  revert S zd zq. induction fuel as [|fuel IH]; intros S zd zq Hinv Htgt Hfuel; cbn [search].
  { right. split; [done|]. intros d Hd. pose proof (pending_nonneg S).
    assert (zq = []) as -> by (destruct zq; [done|simpl in Hfuel; lia]).
    destruct (search_reach _ _ _ _ _ Hinv Hd) as [[? _]|(? & ? & ?%not_elem_of_nil & _)]; done. }
  pose proof (settled_bound S (si_nodup _ _ _ _ Hinv) (si_keys _ _ _ _ Hinv)) as Hsm.
  assert (∀ v d, od_get v zd = Some d → whole d) as Hwd.
  { intros v d Hd. split; [by eapply walk_nonneg, Hinv|]. pose proof (si_dist_bound _ _ _ _ Hinv v d Hd). lia. }
  assert (∀ c v, (c, v) ∈ zq → whole c) as Hwq.
  { intros c v Hin. destruct (si_queue _ _ _ _ Hinv c v Hin) as (d & _ & ?).
    pose proof (si_queue_bound _ _ _ _ Hinv c v Hin). split; lia. }
  pose proof (heappop_lift zq ltac:(apply Forall_elem; intros [c v]; apply Hwq)) as Hpop.
  destruct (heappop (lift_entry <$> zq)) as [[x rest]|].
  2:{ subst zq. right. split; [done|]. intros d Hd.
      destruct (search_reach _ _ _ _ _ Hinv Hd) as [[? _]|(? & ? & ?%not_elem_of_nil & _)]; done. }
  destruct Hpop as (c & v & zq' & -> & -> & Hperm & Hmin).
  assert ((c, v) ∈ zq) as Hcv by (rewrite Hperm; left).
  destruct (si_queue _ _ _ _ Hinv c v Hcv) as (d & Hd & Hdc).
  pose proof (Permutation_length Hperm) as Hlen. simpl in Hlen.
  destruct (decide (v = target)) as [->|Hne].
  { rewrite bool_decide_eq_true_2 by done. left. exists c.
    assert (d = c) as ->.
    { destruct (si_front _ _ _ _ Hinv target d Hd) as [?|Hq]; [done|]. specialize (Hmin d target Hq). lia. }
    split_and!; [done|by apply (Hwd target)|by apply Hinv|].
    intros d' Hd'. destruct (search_reach _ _ _ _ _ Hinv Hd') as [[? _]|(c' & y & Hy & ?)]; [done|].
    specialize (Hmin c' y Hy). lia. }
  rewrite bool_decide_eq_false_2 by done. rewrite !od_get_lift, Hd.
  destruct (walk_key v d (si_walk _ _ _ _ Hinv v d Hd)) as [es Hes]. rewrite Hes. cbn [fmap option_fmap option_map].
  rewrite f_of_Z_eqb by first [exact (Hwq _ _ Hcv)|exact (Hwd _ _ Hd)].
  destruct (c =? d) eqn:Ecd; bool_hyps; cbn [negb].
  2:{ apply (IH S); [|done|lia]. eapply search_inv_pop; [done..|]. intros ?. congruence. }
  subst d. destruct (decide (v ∈ S)) as [HvS|HvS].
  - assert (search_inv S zd zq' (all_edges S)) as Hinv' by (by eapply search_inv_pop).
    assert (foldl (λ st e, relax (f_of_Z c) e st) (lift_dict f_of_Z zd, lift_entry <$> zq')
              ((λ e, (e.1, f_of_Z e.2)) <$> es) = (lift_dict f_of_Z zd, lift_entry <$> zq')) as ->;
      [|apply (IH S); [done|done|lia]].
    assert (∀ x w, (x, w) ∈ es → edge v x w) as Hedge by (intros x w ?; by exists es). clear Hes.
    induction es as [|[x w] es IHe]; [done|]. rewrite fmap_cons. cbn [foldl fst snd].
    assert (edge v x w) as He by (apply Hedge; left). destruct (edge_ok _ _ _ He) as [Hw _].
    destruct (si_edges _ _ _ _ Hinv v x w c (conj HvS He) Hd) as (dx & Hdx & Hle).
    pose proof (si_queue_bound _ _ _ _ Hinv c v Hcv).
    pose proof (relax_lift c (x, w) zd zq') as Hrl. cbn [fst snd] in Hrl.
    rewrite Hrl; [|lia..|done]. unfold relax_z. cbn [fst snd]. rewrite Hdx.
    rewrite (proj2 (Z.ltb_ge _ _)) by lia. apply IHe. intros y k ?. apply Hedge. by right.
  - assert (∀ u du, u ∈ v :: S → od_get u zd = Some du → du <= c) as Hmax.
    { intros u du [->|Hu]%elem_of_cons Hdu; [assert (du = c) by congruence; lia|].
      destruct (si_settled _ _ _ _ Hinv u Hu) as (du' & Hdu' & Hle). specialize (Hle c v Hcv).
      assert (du = du') by congruence. lia. }
    pose proof (si_queue_bound _ _ _ _ Hinv c v Hcv) as Hcb.
    assert (search_inv (v :: S) zd zq' (all_edges S)) as Hinv'.
    { destruct Hinv. assert (∀ e, e ∈ zq' → e ∈ zq) as Hsub by (intros e ?; rewrite Hperm; by right).
      split; try done; eauto.
      - intros y dy Hy. destruct (si_front0 y dy Hy) as [?|Hin]; [left; by right|].
        rewrite Hperm in Hin. apply elem_of_cons in Hin as [[= -> ->]|?]; [left; left|by right].
      - intros u y w HR. right. by eapply si_relaxed0.
      - intros u [->|Hu]%elem_of_cons; [exists c; split; [done|]; eauto|].
        destruct (si_settled0 u Hu) as (du & ? & ?). exists du. split; [done|]. eauto.
      - by constructor.
      - intros u [->|Hu]%elem_of_cons; [by eexists|eauto].
      - intros y dy Hy. specialize (si_dist_bound0 y dy Hy). rewrite length_cons. lia.
      - intros c' y Hy. specialize (si_queue_bound0 c' y (Hsub _ Hy)). rewrite length_cons. lia. }
    destruct (relax_all_inv (v :: S) v c es zd zq' _ Hinv') as (E & Hinv2 & Hlen2);
      [left|done|done|lia|rewrite length_cons; lia|intros x w ?; by exists es|].
    rewrite E. cbn [fst snd]. apply (IH (v :: S)).
    + destruct Hinv2. split; try done; [by intros u y k [? _]|]. intros u y k du [Hu He].
      apply (si_edges0 u y k du). apply elem_of_cons in Hu as [->|Hu]; [right|by left].
      split; [done|]. destruct He as (es' & Hes' & ?). by simplify_eq.
    + intros [->|?]%elem_of_cons; done.
    + rewrite (pending_settle S v es) by done. lia.
Qed.
End search.

(** ** The search of a graph *)

Definition lift_adj : list (string * list (string * Z)) → list (string * list (string * float)) :=
  lift_dict (fmap (λ e, (e.1, f_of_Z e.2))).
Definition edge_count (adj : list (string * list (string * Z))) : Z := zsum (λ p, Z.of_nat (length p.2)) adj.

Definition add_edge_z (s t : string) (k : Z) (adj : list (string * list (string * Z)))
  : list (string * list (string * Z)) := od_set s (default [] (od_get s adj) ++ [(t, k)]) adj.
Lemma add_edge_lift s t k adj : add_edge s t (f_of_Z k) (lift_adj adj) = lift_adj (add_edge_z s t k adj).
Proof.
  unfold add_edge, add_edge_z, lift_adj. rewrite od_get_lift. rewrite <- od_set_lift. f_equal.
  destruct (od_get s adj); simpl; [by rewrite fmap_app|done].
Qed.
Lemma add_edge_z_spec s t k adj :
  od_ok adj → is_Some (od_get s adj) →
  od_ok (add_edge_z s t k adj) ∧ (add_edge_z s t k adj).*1 = adj.*1 ∧
  edge_count (add_edge_z s t k adj) = edge_count adj + 1 ∧
  ∀ u v w, edge (add_edge_z s t k adj) u v w ↔ edge adj u v w ∨ (u = s ∧ v = t ∧ w = k).
Proof.
  intros Hok [es Hs]. unfold add_edge_z. rewrite Hs. simpl. split_and!.
  - by apply od_set_ok.
  - rewrite od_set_fst, decide_True; [done|]. apply od_get_elem in Hs.
    apply list_elem_of_fmap. by exists (s, es).
  - unfold edge_count. rewrite (zsum_od_set_old _ _ _ _ es) by done. simpl. rewrite length_app. simpl. lia.
  - intros u v w. unfold edge. rewrite od_get_set. destruct (decide (u = s)) as [->|Hne].
    + rewrite Hs. split.
      * intros (es' & [= <-] & [Hin|[= -> ->]%list_elem_of_singleton]%elem_of_app); [left; by exists es|by right].
      * intros [(es' & [= <-] & Hin)|(_ & -> & ->)]; eexists; (split; [done|]); apply elem_of_app;
          [by left|right; left].
    + naive_solver.
Qed.

Definition edge_key (k : string) (adj : list (string * list (string * Z))) : Prop := is_Some (od_get k adj).
Lemma od_get_keys {A} k (d : list (string * A)) : is_Some (od_get k d) ↔ k ∈ d.*1.
Proof.
  destruct (od_get k d) as [v|] eqn:E.
  - split; [intros _|by eexists]. apply od_get_elem in E. apply list_elem_of_fmap. by exists (k, v).
  - apply od_get_None in E. split; [intros [? ?]; done|done].
Qed.

(** The connections of the links, in both directions, at their whole-number costs. *)
Definition link_edge (weight : TopologyLink → Z) (links : list TopologyLink) (u v : string) (k : Z) : Prop :=
  ∃ l, l ∈ links ∧ weight l = k ∧
    ((tl_source_worker_id l = u ∧ tl_target_worker_id l = v) ∨
     (tl_source_worker_id l = v ∧ tl_target_worker_id l = u)).

Lemma link_edge_snoc weight links l u v k :
  link_edge weight (links ++ [l]) u v k ↔
  link_edge weight links u v k ∨
  (u = tl_source_worker_id l ∧ v = tl_target_worker_id l ∧ k = weight l) ∨
  (u = tl_target_worker_id l ∧ v = tl_source_worker_id l ∧ k = weight l).
Proof.
  split.
  - intros (l' & [Hl| ->%list_elem_of_singleton]%elem_of_app & <- & Hends); [left; by exists l'|right].
    destruct Hends as [ [<- <-] | [<- <-] ]; [by left|by right].
  - intros [(l' & Hl & Hw)|H].
    + exists l'. split; [apply elem_of_app; by left|done].
    + exists l. split; [apply elem_of_app; right; left|]. destruct H as [(-> & -> & ->)|(-> & -> & ->)]; tauto.
Qed.

Section graph.
Context (weight : TopologyLink → Z) (by_id : list (string * TopologyEndpoint)).

Lemma add_links_spec links done_ adj seen st :
  (∀ l, l ∈ links → tl_cost l = f_of_Z (weight l)) →
  od_ok adj → adj.*1 = by_id.*1 → edge_count adj = 2 * Z.of_nat (length done_) →
  (∀ u v k, edge adj u v k ↔ link_edge weight done_ u v k) →
  add_links by_id links (lift_adj adj, seen) = Ok st →
  ∃ adj', st.1 = lift_adj adj' ∧ od_ok adj' ∧ adj'.*1 = by_id.*1 ∧
    edge_count adj' = 2 * Z.of_nat (length (done_ ++ links)) ∧
    (∀ u v k, edge adj' u v k ↔ link_edge weight (done_ ++ links) u v k) ∧
    ∀ l, l ∈ links → tl_source_worker_id l ∈ by_id.*1 ∧ tl_target_worker_id l ∈ by_id.*1.
Proof.
  revert done_ adj seen. induction links as [|l links IH]; intros done_ adj seen Hw Hok Hkeys Hcnt Hedge; cbn [add_links].
  { intros [= <-]. exists adj. rewrite app_nil_r. split_and!; [done..|by intros l ?%not_elem_of_nil]. }
  intros (st1 & H1 & H2)%bind_Ok_inv. unfold add_link in H1.
  apply bind_Ok_inv in H1 as ([] & Hin & H1). apply raise_if_Ok in Hin. bool_hyps.
  apply bind_Ok_inv in H1 as ([] & _ & [= <-]). unfold in_dict, od_has in *. bool_hyps.
  assert (tl_source_worker_id l ∈ by_id.*1) as Hsk by (by apply od_get_keys).
  assert (tl_target_worker_id l ∈ by_id.*1) as Htk by (by apply od_get_keys).
  rewrite (Hw l) in H2 by left. rewrite !add_edge_lift in H2.
  destruct (add_edge_z_spec (tl_source_worker_id l) (tl_target_worker_id l) (weight l) adj)
    as (Hok1 & Hk1 & Hc1 & He1); [done|apply od_get_keys; by rewrite Hkeys|].
  destruct (add_edge_z_spec (tl_target_worker_id l) (tl_source_worker_id l) (weight l)
    (add_edge_z (tl_source_worker_id l) (tl_target_worker_id l) (weight l) adj))
    as (Hok2 & Hk2 & Hc2 & He2); [done|apply od_get_keys; by rewrite Hk1, Hkeys|].
  apply (IH (done_ ++ [l])) in H2 as (adj' & ? & ? & ? & ? & ? & Hends); [|auto using list_elem_of_further| | | |].
  - rewrite <- app_assoc in *. exists adj'. split_and!; [done..|].
    intros l' [->|?]%elem_of_cons; [done|by apply Hends].
  - done.
  - congruence.
  - rewrite Hc2, Hc1, Hcnt, length_app. simpl. lia.
  - intros u v k. rewrite He2, He1, Hedge, link_edge_snoc. tauto.
Qed.
End graph.

(** [path_cost] returns the least cost over all routes along the links, exactly, or infinity when
    there is no route. *)
Lemma path_cost_spec endpoints links g W weight s t :
  TopologyGraph_init endpoints links = Ok g →
  (∀ l, l ∈ links → tl_cost l = f_of_Z (weight l) ∧ 0 < weight l <= W) →
  0 <= W → (Z.of_nat (length endpoints) + 1) * W < 2 ^ 53 →
  s ∈ te_worker_id <$> endpoints → t ∈ te_worker_id <$> endpoints →
  (∃ d, path_cost s t g = Ok (f_of_Z d) ∧ 0 <= d < 2 ^ 53 ∧ route (link_edge weight links) s t d ∧
     ∀ d', route (link_edge weight links) s t d' → d <= d') ∨
  (path_cost s t g = Ok f_inf ∧ ∀ d, ¬ route (link_edge weight links) s t d).
Proof.
  intros Hg Hw HW Hsmall Hs Ht. unfold TopologyGraph_init in Hg. revert Hg.
  set (by_id := foldl (λ d e, od_set (te_worker_id e) e d) [] endpoints).
  intros ([] & Hlen & (st & Hst & [= <-])%bind_Ok_inv)%bind_Ok_inv. apply raise_if_Ok in Hlen. bool_hyps.
  apply Nat.eqb_eq in Hlen.
  assert (od_ok by_id) as Hok by (by apply (od_build_ok te_worker_id id); constructor).
  assert (∀ k, k ∈ te_worker_id <$> endpoints → k ∈ by_id.*1) as Hkeys
    by (intros k Hk; apply (od_build_keys te_worker_id id); by right).
  set (adj0 := (λ p : string * TopologyEndpoint, (p.1, [])) <$> by_id : list (string * list (string * Z))).
  assert (adj0.*1 = by_id.*1) as Hk0 by (unfold adj0; rewrite <- list_fmap_compose; by apply list_fmap_ext).
  assert (lift_adj adj0 = (λ p, (p.1, [])) <$> by_id) as Hl0
    by (unfold adj0, lift_adj, lift_dict; by rewrite <- list_fmap_compose).
  assert (∀ u es, od_get u adj0 = Some es → es = []) as Hempty.
  { intros u es Hu%od_get_elem. by apply list_elem_of_fmap in Hu as (p & [= _ ->] & _). }
  rewrite <- Hl0 in Hst.
  destruct (add_links_spec weight by_id links [] adj0 [] st) as (adj & Hadj & Hok' & Hk' & Hcnt & Hedge & Hends);
    [by intros l Hl; apply Hw|unfold od_ok; by rewrite Hk0|done| | |exact Hst|].
  { unfold edge_count. assert (∀ l : list (string * TopologyEndpoint),
      zsum (λ p : string * list (string * Z), Z.of_nat (length p.2)) ((λ p, (p.1, [])) <$> l) = 0) as Hz.
    { clear. induction l as [|p l IH]; [done|]. rewrite fmap_cons, zsum_cons, IH. done. }
    apply Hz. }
  { intros u v k. split; [|by intros (l & ?%not_elem_of_nil & _)].
    intros (es & Hes & Hin). rewrite (Hempty _ _ Hes) in Hin. by apply not_elem_of_nil in Hin. }
  simpl in Hcnt, Hedge. unfold path_cost, search_fuel. cbn [tg_endpoints tg_adjacency tg_links]. rewrite Hadj. unfold in_dict, od_has.
  rewrite !bool_decide_eq_true_2 by (apply od_get_keys; auto). cbn [negb orb].
  destruct (decide (s = t)) as [->|Hne].
  { rewrite bool_decide_eq_true_2 by done. left. exists 0. split_and!; [done|lia|lia|constructor|].
    intros d'. induction 1 as [|x y d w _ IH (l & Hl & <- & _)]; [done|]. destruct (Hw l Hl). lia. }
  rewrite bool_decide_eq_false_2 by done.
  destruct (search_correct adj W s t Hok') with (fuel := S (2 * length links)) (S := @nil string)
    (zd := [(s, 0)]) (zq := [(0, s)]) as [(d & E & Hd & Hr & Hmin)|[E Hno]].
  - intros u v w (l & Hl & <- & Hend)%Hedge. split; [by apply Hw|]. apply od_get_keys. rewrite Hk'.
    destruct (Hends l Hl). by destruct Hend as [[_ <-]|[<- _]].
  - apply od_get_keys. rewrite Hk'. auto.
  - rewrite <- (length_fmap fst adj), Hk', length_fmap, Hlen. done.
  - done.
  - assert (∀ v d, od_get v [(s, 0)] = Some d → v = s ∧ d = 0) as H1.
    { intros v d. simpl. destruct (decide (v = s)); [intros [= <-]; done|done]. }
    assert (od_get s [(s, 0)] = Some 0) as H2 by (simpl; by rewrite decide_True).
    split; try done.
    + intros v d [-> ->]%H1. constructor.
    + intros c v [= -> ->]%list_elem_of_singleton. by exists 0.
    + intros v d [-> ->]%H1. right. left.
    + by intros u v w [?%not_elem_of_nil _].
    + by intros u v w du [?%not_elem_of_nil _].
    + by intros u ?%not_elem_of_nil.
    + constructor.
    + by intros u ?%not_elem_of_nil.
    + by intros v d [-> ->]%H1.
    + by intros c v [= -> ->]%list_elem_of_singleton.
  - by intros ?%not_elem_of_nil.
  - assert (pending adj [] = edge_count adj) as ->.
    { apply zsum_ext. intros p _. by rewrite bool_decide_eq_false_2 by (by intros ?%not_elem_of_nil). }
    rewrite Hcnt. cbn [length]. lia.
  - left. exists d. split_and!; [exact E|apply Hd|apply Hd| |].
    + by eapply route_mono; [|exact Hr]; intros; apply Hedge.
    + intros d' Hd'. apply Hmin. by eapply route_mono; [|exact Hd']; intros; apply Hedge.
  - right. split; [exact E|]. intros d' Hd'. apply (Hno d'). by eapply route_mono; [|exact Hd']; intros; apply Hedge.
Qed.
