(* ===== verification/TopologyPlacement.v ===== *)
(** Topology discovery and the placement of worker groups: the discovered graph connects every pair of
    workers at the documented cost, its routes are cheapest, and a group is chosen with the least
    score. *)
From S2P Require Import Prelude PyContainers PyFloat FloatInt Domain Registry Routing Topology TopologySafe.
From Stdlib Require String.
From stdpp Require Import sorting.

#[local] Open Scope string_scope.
#[local] Open Scope list_scope.
#[local] Open Scope Z_scope.
#[local] Set Default Proof Using "Type".

(** ** Discovery *)

(** [DEFAULT_LINK_COST] as whole numbers. *)
Definition type_weight (t : TopologyLinkType) : Z :=
  match t with CUDA_PEER => 1 | PCIE_ROOT => 4 | HOST => 12 | FABRIC => 25 | NETWORK => 100 end.
Definition link_weight (l : TopologyLink) : Z := type_weight (tl_link_type l).

Section discovery.
Context (access : option (Z → Z → bool)).

Definition link_of (a b : TopologyEndpoint) : TopologyLink :=
  mkLink (te_worker_id a) (te_worker_id b) (link_type_of access a b)
    (DEFAULT_LINK_COST (link_type_of access a b)) None.
Fixpoint links_of (es : list TopologyEndpoint) : list TopologyLink :=
  match es with [] => [] | a :: es => (link_of a <$> es) ++ links_of es end.

(** The dictionary [by_id] has every endpoint's worker under its own identifier. *)
Definition knows (by_id : list (string * WorkerState)) (e : TopologyEndpoint) : Prop :=
  ∃ w, od_get (te_worker_id e) by_id = Some w ∧ w_worker_id w = te_worker_id e.

Lemma discover_link_eq by_id a b :
  knows by_id a → knows by_id b → te_worker_id a ≠ te_worker_id b →
  discover_link by_id access a b = Ok (link_of a b).
Proof.
  intros (wa & Ha & Ea) (wb & Hb & Eb) Hne. unfold discover_link, link_of. rewrite Ha, Hb, Ea, Eb.
  unfold TopologyLink_init. cbn [tl_source_worker_id tl_target_worker_id tl_cost tl_measured_bandwidth_gbps].
  rewrite bool_decide_eq_false_2 by done.
  by destruct (link_type_of access a b).
Qed.
Lemma discover_from_eq by_id a es :
  knows by_id a → (∀ b, b ∈ es → knows by_id b ∧ te_worker_id a ≠ te_worker_id b) →
  discover_from by_id access a es = Ok (link_of a <$> es).
Proof.
  intros Ha. induction es as [|b es IH]; intros Hes; [done|]. cbn [discover_from].
  destruct (Hes b) as [Hb Hne]; [left|]. rewrite discover_link_eq by done. simpl.
  rewrite IH; [done|]. intros c Hc. apply Hes. by right.
Qed.
Lemma discover_links_eq by_id es :
  (∀ e, e ∈ es → knows by_id e) → NoDup (te_worker_id <$> es) →
  discover_links by_id access es = Ok (links_of es).
Proof.
  induction es as [|a es IH]; intros Hes; [done|]. rewrite fmap_cons. intros [Hn Hnd]%NoDup_cons.
  cbn [discover_links links_of]. rewrite discover_from_eq.
  - simpl. rewrite IH; [done| |done]. intros e ?. apply Hes. by right.
  - apply Hes. left.
  - intros b Hb. split; [apply Hes; by right|]. intros E. apply Hn. rewrite E.
    apply list_elem_of_fmap. by exists b.
Qed.

(** One link for every two endpoints in order of their identifiers. *)
Lemma elem_of_links_of es l :
  StronglySorted (λ a b, str_leb (te_worker_id a) (te_worker_id b) = true) es → NoDup (te_worker_id <$> es) →
  l ∈ links_of es ↔ ∃ a b, a ∈ es ∧ b ∈ es ∧ str_ltb (te_worker_id a) (te_worker_id b) = true ∧ l = link_of a b.
Proof.
  induction 1 as [|x es Hs IH Hx]; cbn [links_of].
  - intros _. split; [by intros ?%not_elem_of_nil|by intros (a & b & ?%not_elem_of_nil & _)].
  - rewrite fmap_cons. intros [Hn Hnd]%NoDup_cons. rewrite elem_of_app, IH by done. rewrite Forall_elem in Hx.
    assert (∀ y, y ∈ es → str_ltb (te_worker_id x) (te_worker_id y) = true) as Hlt.
    { intros y Hy. specialize (Hx y Hy). rewrite str_leb_not_ltb in Hx. bool_hyps.
      apply not_false_iff_true. intros Hxy. pose proof (str_ltb_total _ _ Hxy Hx) as E.
      apply Hn. rewrite E. apply list_elem_of_fmap. by exists y. }
    split.
    + intros [(y & -> & Hy)%list_elem_of_fmap|(a & b & Ha & Hb & ? & ->)].
      * exists x, y. split_and!; [left|by right|by apply Hlt|done].
      * exists a, b. split_and!; [by right|by right|done|done].
    + intros (a & b & [->|Ha]%elem_of_cons & [->|Hb]%elem_of_cons & Hab & ->).
      * by rewrite str_ltb_irrefl in Hab.
      * left. apply list_elem_of_fmap. by exists b.
      * pose proof (str_ltb_trans _ _ _ Hab (Hlt a Ha)) as H. by rewrite str_ltb_irrefl in H.
      * right. by exists a, b.
Qed.

(** The links join distinct pairs, so the graph accepts them. *)
Definition link_key (l : TopologyLink) : gset string := {[tl_source_worker_id l; tl_target_worker_id l]}.
Lemma links_of_keys es : NoDup (te_worker_id <$> es) → NoDup (link_key <$> links_of es).
Proof.
  assert (∀ es l, l ∈ links_of es → tl_source_worker_id l ∈ te_worker_id <$> es ∧
    tl_target_worker_id l ∈ te_worker_id <$> es) as Hends.
  { clear. induction es as [|a es IH]; intros l; cbn [links_of]; [by intros ?%not_elem_of_nil|].
    rewrite fmap_cons, !elem_of_cons. intros [(b & -> & Hb)%list_elem_of_fmap|Hl]%elem_of_app.
    - split; [by left|right]. apply list_elem_of_fmap. by exists b.
    - destruct (IH l Hl). split; by right. }
  induction es as [|a es IH]; [constructor|]. rewrite fmap_cons. intros [Hn Hnd]%NoDup_cons.
  cbn [links_of]. rewrite fmap_app. apply NoDup_app. split_and!; [| |by apply IH].
  - rewrite <- list_fmap_compose. clear IH. induction es as [|b es IHe]; [constructor|].
    change (te_worker_id a ∉ te_worker_id b :: (te_worker_id <$> es)) in Hn.
    rewrite fmap_cons. apply NoDup_cons in Hnd as [Hb Hnd]. apply not_elem_of_cons in Hn as [Hab Hn].
    apply NoDup_cons. split; [|by apply IHe].
    intros (c & Hc & Hin)%list_elem_of_fmap. unfold compose, link_key in Hc. simpl in Hc.
    assert (te_worker_id b ∈ ({[te_worker_id a; te_worker_id c]} : gset string)) as Hbc by (rewrite <- Hc; set_solver).
    apply elem_of_union in Hbc as [E%elem_of_singleton|E%elem_of_singleton]; [congruence|].
    apply Hb. rewrite E. apply list_elem_of_fmap. by exists c.
  - intros k (l' & -> & (b & -> & Hb)%list_elem_of_fmap)%list_elem_of_fmap (l & Hk & Hl)%list_elem_of_fmap.
    destruct (Hends es l Hl) as [H1 H2]. unfold link_key in Hk. simpl in Hk.
    assert (te_worker_id a ∈ ({[tl_source_worker_id l; tl_target_worker_id l]} : gset string)) as Ha
      by (rewrite <- Hk; set_solver).
    apply elem_of_union in Ha as [E%elem_of_singleton|E%elem_of_singleton]; congruence.
Qed.
Lemma add_links_total by_id links adj seen :
  (∀ l, l ∈ links → tl_source_worker_id l ∈ by_id.*1 ∧ tl_target_worker_id l ∈ by_id.*1) →
  NoDup ((link_key <$> links) ++ seen) → ∃ st, add_links by_id links (adj, seen) = Ok st.
Proof.
  revert adj seen. induction links as [|l links IH]; intros adj seen Hk Hnd; [by eexists|].
  cbn [add_links]. unfold add_link, in_dict, od_has. destruct (Hk l) as [H1 H2]; [left|].
  apply od_get_keys in H1, H2.
  rewrite (bool_decide_eq_true_2 _ H1), (bool_decide_eq_true_2 _ H2). cbn [negb orb raise_if mbind res_bind fst snd].
  rewrite fmap_cons in Hnd. cbn [app] in Hnd. apply NoDup_cons in Hnd as [Hn Hnd].
  rewrite bool_decide_eq_false_2 by (intros Hin; apply Hn, elem_of_app; by right).
  cbn [raise_if mbind res_bind]. apply IH; [intros l' ?; apply Hk; by right|].
  rewrite <- Permutation_middle. by constructor.
Qed.
End discovery.

Lemma type_weight_cost t : DEFAULT_LINK_COST t = f_of_Z (type_weight t) ∧ 0 < type_weight t <= 100.
Proof. by destruct t. Qed.
Lemma links_of_cost access es l :
  l ∈ links_of access es → tl_cost l = f_of_Z (link_weight l) ∧ 0 < link_weight l <= 100.
Proof.
  induction es as [|a es IH]; cbn [links_of]; [by intros ?%not_elem_of_nil|].
  intros [(b & -> & _)%list_elem_of_fmap|Hl]%elem_of_app; [|by apply IH]. apply type_weight_cost.
Qed.

Lemma endpoint_ids (ws : list WorkerState) : te_worker_id <$> (endpoint_of <$> ws) = w_worker_id <$> ws.
Proof. rewrite <- list_fmap_compose. by apply list_fmap_ext. Qed.

Lemma endpoints_sorted workers :
  StronglySorted (λ a b, str_leb (te_worker_id a) (te_worker_id b) = true)
    (endpoint_of <$> sorted_by by_worker_id workers).
Proof.
  apply (StronglySorted_fmap _ (λ a b, by_worker_id a b = true)); [done|].
  apply sorted_by_sorted; [intros x y; apply str_leb_total|intros x y z; apply str_leb_trans].
Qed.
Lemma discover_topology_eq access workers :
  NoDup (w_worker_id <$> workers) →
  ∃ g, discover_topology workers access = Ok g ∧
    TopologyGraph_init (endpoint_of <$> sorted_by by_worker_id workers)
      (links_of access (endpoint_of <$> sorted_by by_worker_id workers)) = Ok g ∧
    tg_links g = links_of access (endpoint_of <$> sorted_by by_worker_id workers).
Proof.
  intros Hnd. unfold discover_topology.
  set (es := endpoint_of <$> sorted_by by_worker_id workers).
  set (by_id := foldl _ _ workers).
  assert (NoDup (te_worker_id <$> es)) as Hes by (unfold es; rewrite endpoint_ids; by rewrite sorted_by_perm).
  rewrite discover_links_eq; [|intros e He|done].
  2:{ unfold es in He. apply list_elem_of_fmap in He as (w & -> & Hw%elem_of_sorted_by).
      assert (is_Some (od_get (w_worker_id w) by_id)) as [w' Hw'].
      { apply od_get_keys. unfold by_id. apply (od_build_keys w_worker_id id). right.
        apply list_elem_of_fmap. by exists w. }
      exists w'. split; [done|].
      apply (od_build_get w_worker_id id) in Hw' as [?|(x & _ & Hk & <-)]; [done|exact Hk]. }
  cbn [mbind res_bind]. unfold TopologyGraph_init.
  rewrite od_build_length by done. rewrite Nat.eqb_refl. cbn [negb raise_if mbind res_bind].
  set (by_id' := foldl _ _ es).
  destruct (add_links_total by_id' (links_of access es) ((λ p, (p.1, [])) <$> by_id') [])
    as [st Hst].
  - intros l Hl. unfold by_id'. rewrite !(od_build_keys te_worker_id id).
    apply elem_of_links_of in Hl as (a & b & Ha & Hb & _ & ->); [|apply endpoints_sorted|done].
    split; right; apply list_elem_of_fmap; by eexists.
  - rewrite app_nil_r. by apply links_of_keys.
  - rewrite Hst. simpl. by eexists.
Qed.

(** Sets of connections discovered from the inventory: every two workers, at the cost of their link
    type. *)
Definition discovered_edge (access : option (Z → Z → bool)) (workers : list WorkerState) (u v : string)
  (k : Z) : Prop :=
  ∃ a b, a ∈ workers ∧ b ∈ workers ∧ str_ltb (w_worker_id a) (w_worker_id b) = true ∧
    k = type_weight (link_type_of access (endpoint_of a) (endpoint_of b)) ∧
    ((w_worker_id a = u ∧ w_worker_id b = v) ∨ (w_worker_id a = v ∧ w_worker_id b = u)).
Lemma discovered_edges access workers u v k :
  NoDup (w_worker_id <$> workers) →
  link_edge link_weight (links_of access (endpoint_of <$> sorted_by by_worker_id workers)) u v k ↔
  discovered_edge access workers u v k.
Proof.
  intros Hnd.
  assert (NoDup (te_worker_id <$> (endpoint_of <$> sorted_by by_worker_id workers))) as Hes
    by (rewrite endpoint_ids; by rewrite sorted_by_perm).
  unfold link_edge. setoid_rewrite (elem_of_links_of access _ _ (endpoints_sorted workers) Hes). split.
  - intros (l & (ea & eb & (a & -> & Ha%elem_of_sorted_by)%list_elem_of_fmap &
      (b & -> & Hb%elem_of_sorted_by)%list_elem_of_fmap & Hlt & ->) & <- & Hends).
    by exists a, b.
  - intros (a & b & Ha & Hb & Hlt & -> & Hends).
    exists (link_of access (endpoint_of a) (endpoint_of b)). split; [|done].
    exists (endpoint_of a), (endpoint_of b).
    split_and!; try done; apply list_elem_of_fmap; eexists; (split; [done|]); by apply elem_of_sorted_by.
Qed.

(** ** Groups *)

Lemma elem_of_combinations {A} k (l c : list A) : c ∈ combinations k l ↔ c `sublist_of` l ∧ length c = k.
Proof.
  revert k c. induction l as [|x l IH]; intros k c.
  - destruct k; simpl; rewrite ?list_elem_of_singleton.
    + split; [intros ->; by split|]. intros [_ ?]. by destruct c.
    + split; [by intros ?%not_elem_of_nil|]. intros [->%sublist_nil_r ?]. done.
  - destruct k as [|k]; cbn [combinations].
    + rewrite list_elem_of_singleton. split; [intros ->; split; [apply sublist_nil_l|done]|].
      intros [_ ?]. by destruct c.
    + rewrite elem_of_app, list_elem_of_fmap, sublist_cons_r, IH. split.
      * intros [(c' & -> & [? <-]%IH)|[? ?]]; [|by split; [left|]].
        split; [right; by exists c'|done].
      * intros [[?|(c' & -> & ?)] Hlen]; [right; by split|left].
        exists c'. split; [done|]. apply IH. split; [done|]. by injection Hlen.
Qed.

Lemma rank_groups_spec p groups ranked :
  rank_groups p groups = Ok ranked →
  (∀ g, g ∈ groups → ∃ o, rank_group p g = Ok o) ∧
  ∀ r, r ∈ ranked ↔ ∃ g, g ∈ groups ∧ rank_group p g = Ok (Some r).
Proof.
  revert ranked. induction groups as [|g groups IH]; cbn [rank_groups]; intros ranked.
  - intros [= <-]. split; [by intros ? ?%not_elem_of_nil|].
    intros r. split; [by intros ?%not_elem_of_nil|]. by intros (? & ?%not_elem_of_nil & _).
  - intros (o & Ho & (rs & Hrs & [= <-])%bind_Ok_inv)%bind_Ok_inv. destruct (IH rs Hrs) as [H1 H2]. split.
    + intros g' [->|?]%elem_of_cons; [by exists o|by apply H1].
    + intros r. assert ((∃ g', g' ∈ g :: groups ∧ rank_group p g' = Ok (Some r)) ↔ o = Some r ∨ r ∈ rs) as ->.
      { rewrite H2. split.
        - intros (g' & [->|Hg]%elem_of_cons & Hr); [left; congruence|right; by exists g'].
        - intros [->|(g' & Hg & Hr)]; [exists g; split; [left|done]|exists g'; split; [by right|done]]. }
      destruct o as [r0|]; [|by split; [right|intros [?|?]]].
      rewrite elem_of_cons. split; (intros [H|H]; [left; congruence|by right]).
Qed.

(** A minimum with respect to an order that refines the order of the scores has the least score. *)
Lemma min_from_score {A} (lt : A → A → bool) (score : A → float) b l :
  (∀ x y, x ∈ b :: l → y ∈ b :: l → lt x y = true → f_leb (score x) (score y) = true) →
  (∀ x y, x ∈ b :: l → y ∈ b :: l → lt x y = false → f_leb (score y) (score x) = true) →
  ∀ y, y ∈ b :: l → f_leb (score (min_from lt b l)) (score y) = true.
Proof.
  revert b. induction l as [|x l IH]; intros b Ht Hf y Hy; simpl.
  - apply list_elem_of_singleton in Hy as ->. 
    destruct (lt b b) eqn:E; [apply Ht|apply Hf]; try done; left.
  - assert (∀ z, z ∈ (if lt x b then x else b) :: l → z ∈ b :: x :: l) as Hsub
      by (intros z; destruct (lt x b); rewrite !elem_of_cons; tauto).
    assert (∀ z, z ∈ (if lt x b then x else b) :: l →
      f_leb (score (min_from lt (if lt x b then x else b) l)) (score z) = true) as Hmin
      by (apply IH; auto).
    assert ((y = b ∨ y = x) ∨ y ∈ l) as [Hyb|Hin] by (rewrite !elem_of_cons in Hy; tauto);
      [|apply Hmin; by right].
    eapply f_leb_trans; [apply Hmin; left|].
    assert (∀ z, z ∈ b :: x :: l → f_leb (score z) (score z) = true) as Hrefl
      by (intros z Hz; destruct (lt z z) eqn:E; [by apply Ht|by apply Hf]).
    assert (b ∈ b :: x :: l) as Hb by left. assert (x ∈ b :: x :: l) as Hx by (right; left).
    destruct (lt x b) eqn:E, Hyb as [->| ->]; auto.
Qed.

Definition ranked_score (r : Ranked) : float := r.1.1.1.
Lemma ranked_ltb_score a b :
  f_is_nan (ranked_score a) = false → f_is_nan (ranked_score b) = false →
  (ranked_ltb a b = true → f_leb (ranked_score a) (ranked_score b) = true) ∧
  (ranked_ltb a b = false → f_leb (ranked_score b) (ranked_score a) = true).
Proof.
  destruct a as [[[s ids] t] l], b as [[[s' ids'] t'] l']. unfold ranked_score. simpl. intros Ha Hb.
  destruct (f_eqb s s') eqn:E; simpl.
  - apply f_eqb_key in E; [|done|done].
    assert (f_leb s s' = true) as H1 by (apply f_leb_key; [done|done|]; rewrite E; apply klt_irrefl).
    assert (f_leb s' s = true) as H2 by (apply f_leb_key; [done|done|]; rewrite E; apply klt_irrefl).
    done.
  - split; [apply f_ltb_leb|]. intros Hlt. by rewrite f_leb_not_ltb, Hlt.
Qed.

Lemma topology_filter_spec g eligible rejected :
  (topology_filter g eligible rejected).1 = filter (λ w, w_worker_id w ∈ (tg_endpoints g).*1) eligible.
Proof.
  unfold topology_filter.
  enough (∀ acc, (foldl (λ acc worker,
      if in_dict (w_worker_id worker) (tg_endpoints g) then (acc.1 ++ [worker], acc.2)
      else (acc.1, od_set (w_worker_id worker) "topology_missing" acc.2)) acc eligible).1 =
    acc.1 ++ filter (λ w, w_worker_id w ∈ (tg_endpoints g).*1) eligible) as H by apply H.
  induction eligible as [|w ws IH]; intros acc; [by rewrite app_nil_r|]. cbn [foldl].
  rewrite IH, filter_cons. unfold in_dict, od_has. destruct (decide (w_worker_id w ∈ _)) as [Hin|Hin].
  - rewrite bool_decide_eq_true_2 by (by apply od_get_keys). simpl. by rewrite <- app_assoc.
  - rewrite bool_decide_eq_false_2 by (by rewrite od_get_keys). done.
Qed.

Lemma sublist_of_filter {A} (P : A → Prop) `{∀ x, Decision (P x)} g l :
  g `sublist_of` filter P l ↔ g `sublist_of` l ∧ ∀ x, x ∈ g → P x.
Proof.
  split.
  - intros Hg. split; [etrans; [exact Hg|apply sublist_filter]|].
    intros x Hx. pose proof (elem_of_submseteq _ _ _ Hx (sublist_submseteq _ _ Hg)) as Hin.
    by apply list_elem_of_filter in Hin as [? _].
  - intros [Hg HP]. induction Hg as [|x g l Hg IH|x g l Hg IH]; [done|..]; rewrite filter_cons.
    + rewrite decide_True by (apply HP; left). apply sublist_skip, IH. intros y Hy. apply HP. by right.
    + case_decide; [apply sublist_cons|]; by apply IH.
Qed.
(** The workers in the order in which the filters see them. *)
Definition workers_by_id (workers : list WorkerState) : list WorkerState := sorted_by by_worker_id workers.
Lemma placement_candidates env reserve request workers model eligible rejected :
  placement_filter env reserve request workers = Ok (model, eligible, rejected) →
  eligible = filter (λ w, placement_reason reserve model request w = None) (workers_by_id workers).
Proof.
  unfold placement_filter. intros (m & _ & H)%bind_Ok_inv.
  pose proof (proj1 (filter_by_spec (placement_reason reserve m request) workers)) as Hs.
  destruct (filter_by _ _) as [e r]. by injection H as -> -> ->.
Qed.
Lemma candidate_sound env reserve request workers model eligible rejected w (P : Prop) :
  placement_filter env reserve request workers = Ok (model, eligible, rejected) →
  P ∧ placement_reason reserve model request w = None ↔ sound_for false reserve env request w ∧ P.
Proof.
  unfold placement_filter. intros (m & Hm & H)%bind_Ok_inv.
  destruct (filter_by _ _) as [e r]. injection H as -> -> ->. rewrite placement_reason_None. unfold sound_for.
  unfold placement_model, model_get in Hm. destruct (env_models env !! _) as [m|] eqn:E; [|done]. injection Hm as ->.
  split; [intros (? & ? & ? & ? & ?); split; [split; [done|]; by exists model|done]|].
  by intros ((? & m & [= ->] & ? & ? & ?) & ?).
Qed.
Lemma rank_group_distinct p group r : rank_group p group = Ok (Some r) → NoDup (w_worker_id <$> group).
Proof.
  unfold rank_group, group_cost. intros (c & ([] & Hd & _)%bind_Ok_inv & _)%bind_Ok_inv.
  apply raise_if_Ok in Hd. bool_hyps. by rewrite sorted_by_perm in Hd.
Qed.
Lemma discovered_pair access workers a b :
  a ∈ workers → b ∈ workers → w_worker_id a ≠ w_worker_id b →
  ∃ k, k <= 100 ∧ discovered_edge access workers (w_worker_id a) (w_worker_id b) k.
Proof.
  intros Ha Hb Hne. destruct (str_ltb (w_worker_id a) (w_worker_id b)) eqn:E.
  - exists (type_weight (link_type_of access (endpoint_of a) (endpoint_of b))).
    split; [apply type_weight_cost|]. exists a, b. split_and!; auto.
  - assert (str_ltb (w_worker_id b) (w_worker_id a) = true) as E'
      by (apply not_false_iff_true; intros E'; by apply Hne, str_ltb_total).
    exists (type_weight (link_type_of access (endpoint_of b) (endpoint_of a))).
    split; [apply type_weight_cost|]. exists b, a. split_and!; auto.
Qed.

(** ** Properties *)

(** C20: On the graph discovered from the inventory of any set of distinctly named workers,
    [path_cost] of two workers is exactly the least total cost over all routes, where every two
    workers are joined at the cost of their best known connection (peer access, shared PCIe root,
    same host, same fabric, network); it is never more than a network hop. The float search loses no
    precision and stops within its fuel. *)
Theorem discovered_routes_cheapest access workers s t :
  NoDup (w_worker_id <$> workers) → (Z.of_nat (length workers) + 1) * 100 < 2 ^ 53 →
  s ∈ w_worker_id <$> workers → t ∈ w_worker_id <$> workers →
  ∃ g d, discover_topology workers access = Ok g ∧ path_cost s t g = Ok (f_of_Z d) ∧ 0 <= d <= 100 ∧
    route (discovered_edge access workers) s t d ∧
    ∀ d', route (discovered_edge access workers) s t d' → d <= d'.
Proof.
  intros Hnd Hsmall Hs Ht. destruct (discover_topology_eq access workers Hnd) as (g & Hg & Hi & Hl).
  set (es := endpoint_of <$> sorted_by by_worker_id workers) in *.
  assert (∀ i, i ∈ w_worker_id <$> workers → i ∈ te_worker_id <$> es) as Hids
    by (intros i; unfold es; rewrite endpoint_ids; by rewrite sorted_by_perm).
  pose proof (λ u v k, discovered_edges access workers u v k Hnd) as He. fold es in He.
  assert (∃ k, k <= 100 ∧ route (discovered_edge access workers) s t k) as (k & Hk & Hroute).
  { destruct (decide (s = t)) as [->|Hne]; [exists 0; split; [lia|constructor]|].
    apply list_elem_of_fmap in Hs as (a & -> & Ha). apply list_elem_of_fmap in Ht as (b & -> & Hb).
    destruct (discovered_pair access workers a b Ha Hb Hne) as (k & Hk & Hedge).
    exists k. split; [done|]. apply (route_snoc _ _ (w_worker_id a) _ 0); [constructor|done]. }
  destruct (path_cost_spec es (links_of access es) g 100 link_weight s t Hi)
    as [(d & E & Hd & Hr & Hmin)|[_ Hno]]; auto; try lia.
  - intros l Hl'. by eapply links_of_cost.
  - unfold es. by rewrite length_fmap, length_sorted_by.
  - assert (∀ d', route (discovered_edge access workers) s t d' → d <= d') as Hmin'
      by (intros d' Hd'; apply Hmin; eapply route_mono; [|exact Hd']; intros; by apply He).
    exists g, d. split_and!; [done|done|lia|specialize (Hmin' k Hroute); lia| |done].
    eapply route_mono; [|exact Hr]. intros. by apply He.
  - exfalso. apply (Hno k). eapply route_mono; [|exact Hroute]. intros. by apply He.
Qed.

(** A successful group placement returns [group_size] distinct workers that are healthy,
    not draining, able to run the model and present in the topology, joined by finite routes, whose
    score (topology cost plus weighted load) is the least among all such groups. *)
Theorem select_group_best env request workers group_size p d :
  select_group env request workers group_size p = Ok d →
  (∀ g r, g `sublist_of` workers_by_id workers → rank_group p g = Ok (Some r) → f_is_nan (ranked_score r) = false) →
  ∃ group score, Z.of_nat (length group) = group_size ∧ NoDup (w_worker_id <$> group) ∧
    group `sublist_of` workers_by_id workers ∧
    (∀ w, w ∈ group → sound_for false (gp_reserve p) env request w ∧ w_worker_id w ∈ (tg_endpoints (gp_topology p)).*1) ∧
    rank_group p group = Ok (Some (score, wg_worker_ids d, wg_topology_cost d, wg_load_cost d)) ∧
    ∀ group' r, Z.of_nat (length group') = group_size → group' `sublist_of` workers_by_id workers →
      (∀ w, w ∈ group' → sound_for false (gp_reserve p) env request w ∧
         w_worker_id w ∈ (tg_endpoints (gp_topology p)).*1) →
      rank_group p group' = Ok (Some r) → f_leb score (ranked_score r) = true.
Proof.
  intros Hsel Hnan. unfold select_group in Hsel.
  apply bind_Ok_inv in Hsel as ([] & Hpos & Hsel). apply raise_if_Ok in Hpos. bool_hyps.
  apply bind_Ok_inv in Hsel as ([[model eligible] rejected] & Hf & Hsel).
  pose proof (topology_filter_spec (gp_topology p) eligible rejected) as Htf.
  destruct (topology_filter _ _ _) as [eligible' rejected']. simpl in Htf.
  apply bind_Ok_inv in Hsel as ([] & _ & Hsel).
  apply bind_Ok_inv in Hsel as (ranked & Hr & Hsel). apply rank_groups_spec in Hr as [_ Hr].
  pose proof (placement_candidates _ _ _ _ _ _ _ Hf) as Hel. rewrite Hel, list_filter_filter in Htf.
  assert (∀ g, g ∈ combinations (Z.to_nat group_size) eligible' ↔ Z.of_nat (length g) = group_size ∧
      g `sublist_of` workers_by_id workers ∧ ∀ w, w ∈ g → sound_for false (gp_reserve p) env request w ∧
        w_worker_id w ∈ (tg_endpoints (gp_topology p)).*1) as Hgroups.
  { intros g. rewrite elem_of_combinations, Htf, sublist_of_filter. split.
    - intros ((Hsub & Hall) & Hlen). split_and!; [lia|done|].
      intros w Hw. apply (candidate_sound _ _ _ _ _ _ _ _ _ Hf). by apply Hall.
    - intros (Hlen & Hsub & Hall). split; [split; [done|]|lia]. intros w Hw.
      apply (candidate_sound _ _ _ _ _ _ _ _ _ Hf). by apply Hall. }
  destruct ranked as [|r0 rs]; [done|]. simpl in Hsel.
  assert (∀ r, r ∈ r0 :: rs → f_is_nan (ranked_score r) = false) as Hnn.
  { intros r (g & Hg & Hrg)%Hr. apply Hgroups in Hg as (_ & Hsub & _). by eapply Hnan. }
  pose proof (min_from_elem ranked_ltb r0 rs) as Hin.
  pose proof (min_from_score ranked_ltb ranked_score r0 rs
    (λ x y Hx Hy, proj1 (ranked_ltb_score x y (Hnn x Hx) (Hnn y Hy)))
    (λ x y Hx Hy, proj2 (ranked_ltb_score x y (Hnn x Hx) (Hnn y Hy)))) as Hmin.
  destruct (min_from ranked_ltb r0 rs) as [[[score ids] tc] lc]. injection Hsel as <-.
  apply Hr in Hin as (group & Hg & Hrank). apply Hgroups in Hg as (Hlen & Hsub & Hall).
  exists group, score. split_and!; [done|by eapply rank_group_distinct|done..|]. intros group' r Hlen' Hsub' Hall' Hrank'.
  apply (Hmin r), Hr. exists group'. split; [by apply Hgroups|done].
Qed.

(** ** Witnesses *)

(** Two devices of one host under one PCIe root, and a worker on another host. *)
Definition gpu_worker (id node root : string) (queue : Z) : WorkerState :=
  sample_worker <| w_worker_id := id |> <| w_node_id := Some node |> <| w_gpu_index := Some 0 |>
                <| w_pcie_root_id := Some root |> <| w_queue_depth := queue |>.
Definition cluster : list WorkerState :=
  [gpu_worker "c" "node-2" "root-2" 0; gpu_worker "a" "node-1" "root-1" 0; gpu_worker "b" "node-1" "root-1" 1].
Definition cluster_graph : res TopologyGraph := discover_topology cluster None.

Lemma discovered_routes_cheapest_witness :
  ∃ g d, discover_topology cluster None = Ok g ∧ path_cost "a" "b" g = Ok (f_of_Z d) ∧ 0 <= d <= 100.
Proof.
  destruct (discovered_routes_cheapest None cluster "a" "b") as (g & d & Hg & Hd & Hb & _).
  - apply (bool_decide_unpack _). vm_compute. exact I.
  - reflexivity.
  - apply (bool_decide_unpack _). vm_compute. exact I.
  - apply (bool_decide_unpack _). vm_compute. exact I.
  - exists g, d. exact (conj Hg (conj Hd Hb)).
Defined.
Example cluster_costs :
  match cluster_graph with
  | Ok g => (path_cost "a" "b" g, path_cost "c" "b" g, path_cost "b" "b" g)
            = (Ok (f_of_Z 4), Ok (f_of_Z 100), Ok f_zero)
  | Err _ => False
  end.
Proof. vm_compute. reflexivity. Qed.

Definition cluster_policy : TopologyAwareWorkerGroupPolicy :=
  mkGroupPolicy (match cluster_graph with Ok g => g | Err _ => mkGraph [] [] [] end) (f_of_Z 1) 0.
Definition cluster_decision : res WorkerGroupDecision :=
  select_group sample_env sample_request cluster 2 cluster_policy.
Example cluster_decision_ids : wg_worker_ids <$> cluster_decision = Ok ["a"; "b"].
Proof. vm_compute. reflexivity. Qed.

(** The scores of all groups, checked by computation. *)
Definition scores_are_numbers (p : TopologyAwareWorkerGroupPolicy) (ws : list WorkerState) : bool :=
  forallb (λ k, forallb (λ g, match rank_group p g with Ok (Some r) => negb (f_is_nan (ranked_score r)) | _ => true end)
                  (combinations k ws)) (seq 0 (S (length ws))).
Lemma scores_are_numbers_spec p ws g r :
  scores_are_numbers p ws = true → g `sublist_of` ws → rank_group p g = Ok (Some r) →
  f_is_nan (ranked_score r) = false.
Proof.
  unfold scores_are_numbers. rewrite forallb_forall. intros Hall Hg Hr.
  pose proof (sublist_length _ _ Hg). specialize (Hall (length g)).
  rewrite forallb_forall in Hall. specialize (Hall ltac:(apply in_seq; lia) g).
  rewrite Hr in Hall. apply negb_true_iff, Hall, list_elem_of_In, elem_of_combinations. done.
Qed.
Lemma select_group_best_witness :
  ∃ d group, cluster_decision = Ok d ∧ length group = 2%nat ∧ NoDup (w_worker_id <$> group).
Proof.
  destruct cluster_decision as [d|e] eqn:E; [|vm_compute in E; discriminate].
  destruct (select_group_best sample_env sample_request cluster 2 cluster_policy d E)
    as (group & score & Hlen & Hnd & _).
  - intros g r. apply scores_are_numbers_spec. vm_compute. reflexivity.
  - exists d, group. split; [reflexivity|]. split; [lia|exact Hnd].
Defined.
