(* ===== verification/Reservations.v ===== *)
(** [serving_platform/routing/reservations.py]: the book of placements not yet visible in
    heartbeats. The lock makes every method one step; the worker registry is an argument, because
    heartbeats change it between the calls. *)
From S2P Require Import Prelude PyContainers PyFloat Domain Registry Routing.
From Stdlib Require String.

#[local] Open Scope string_scope.
#[local] Open Scope list_scope.
#[local] Open Scope Z_scope.

Record PlacementReservation := mkReservation {
  pr_request_id : string;
  pr_worker_id : string;
  pr_model_id : string;
  pr_memory_bytes : Z
}.
Record PlacementReservationSnapshot := mkReservationSnapshot {
  ps_active_reservations : Z;
  ps_reserved_memory_bytes : Z;
  ps_demand_by_model : list (string * Z)
}.
(** [AtomicPlacementReservations]: [self.models] and [self._reservations]. *)
Record AtomicPlacementReservations := mkReservations {
  ar_models : option ModelRegistry;
  ar_reservations : list (string * PlacementReservation)
}.
#[export] Instance eta_Reservations : Eta AtomicPlacementReservations := λ r,
  mkReservations (ar_models r) (ar_reservations r).
Definition AtomicPlacementReservations_init (models : option ModelRegistry)
  : AtomicPlacementReservations := mkReservations models [].

Definition model_key (r : PlacementReservation) : string * string := (pr_worker_id r, pr_model_id r).

(** One round of the loop of [_effective_workers]; the state is [workers] and [reserved_models]. *)
Definition apply_reservation (st : gmap string WorkerState * gset (string * string))
  (r : PlacementReservation) : gmap string WorkerState * gset (string * string) :=
  match st.1 !! pr_worker_id r with
  | None => st
  | Some worker =>
    let worker := worker <| w_queue_depth ::= λ n, n + 1 |> in
    if negb (pr_memory_bytes r =? 0) && negb (bool_decide (model_key r ∈ st.2))
    then
      (<[pr_worker_id r := worker <| w_available_memory_bytes ::=
           fmap (λ available, Z.max 0 (available - pr_memory_bytes r)) |>]> st.1,
       {[model_key r]} ∪ st.2)
    else (<[pr_worker_id r := worker]> st.1, st.2)
  end.
Definition workers_dict (workers : list WorkerState) : gmap string WorkerState :=
  foldl (λ m worker, <[w_worker_id worker := worker]> m) ∅ workers.
Definition effective_workers (registry : WorkerRegistry) (book : AtomicPlacementReservations)
  : list WorkerState :=
  let workers := (foldl apply_reservation (workers_dict (worker_list registry), ∅)
                    (od_values (ar_reservations book))).1 in
  omap (λ key, workers !! key) (sorted_by str_leb (map_to_list workers).*1).

Definition holds_pair (worker_id model_id : string) (r : PlacementReservation) : bool :=
  bool_decide (pr_worker_id r = worker_id) && bool_decide (pr_model_id r = model_id).
(** [memory_bytes] in [select_and_reserve]. *)
Definition cold_memory (request : RequestRecord) (worker : WorkerState)
  (book : AtomicPlacementReservations) : Z :=
  if resident (r_model_id request) worker then 0
  else match ar_models book with
       | None => 0
       | Some models =>
         match model_get (r_model_id request) models with
         | None => 0
         | Some model =>
           if existsb (holds_pair (w_worker_id worker) (r_model_id request))
                (od_values (ar_reservations book))
           then 0 else m_estimated_memory_bytes model
         end
       end.
Definition select_and_reserve {P} `{RoutingPolicy P} (env : RoutingEnv) (request : RequestRecord)
  (registry : WorkerRegistry) (policy : P) (book : AtomicPlacementReservations)
  : res RoutingDecision * P * AtomicPlacementReservations :=
  if od_has (r_request_id request) (ar_reservations book)
  then (Err (ValueError ("request already has a placement reservation: "
               +:+ r_request_id request)), policy, book)
  else
    match select env request (effective_workers registry book) policy with
    | (Err e, policy) => (Err e, policy, book)
    | (Ok decision, policy) =>
      match worker_get (rd_selected_worker_id decision) registry with
      | None =>
        (Err (RuntimeError "selected worker disappeared before reservation"), policy, book)
      | Some worker =>
        let reservation := mkReservation (r_request_id request) (w_worker_id worker)
                             (r_model_id request) (cold_memory request worker book) in
        (Ok decision, policy,
         book <| ar_reservations ::= od_set (r_request_id request) reservation |>)
      end
    end.
Definition reservation_release (request_id : string) (book : AtomicPlacementReservations)
  : bool * AtomicPlacementReservations :=
  (od_has request_id (ar_reservations book),
   book <| ar_reservations ::= od_del request_id |>).
Definition demand (book : AtomicPlacementReservations) (model_id : string) : Z :=
  zsum (λ r, if bool_decide (pr_model_id r = model_id) then 1 else 0)
    (od_values (ar_reservations book)).
Definition by_key (a b : string * Z) : bool := str_leb a.1 b.1.
Definition reservations_snapshot (book : AtomicPlacementReservations)
  : PlacementReservationSnapshot :=
  let demand := foldl (λ d r,
      od_set (pr_model_id r) (default 0 (od_get (pr_model_id r) d) + 1) d)
    [] (od_values (ar_reservations book)) in
  mkReservationSnapshot (Z.of_nat (length (ar_reservations book)))
    (zsum pr_memory_bytes (od_values (ar_reservations book)))
    (sorted_by by_key demand).

(** ** Specification *)

(** What the pending reservations claim on a worker. *)
Definition on_worker (worker_id : string) (r : PlacementReservation) : bool :=
  bool_decide (pr_worker_id r = worker_id).
Definition claimed_memory (worker_id : string) (rs : list PlacementReservation) : Z :=
  zsum (λ r, if on_worker worker_id r then pr_memory_bytes r else 0) rs.
Definition claimed_slots (worker_id : string) (rs : list PlacementReservation) : Z :=
  zsum (λ r, if on_worker worker_id r then 1 else 0) rs.
(** [worker.queue_depth += slots] and a change of [available_memory_bytes]. *)
Definition claim (slots : Z) (f : Z → Z) (w : WorkerState) : WorkerState :=
  w <| w_queue_depth ::= λ n, n + slots |> <| w_available_memory_bytes ::= fmap f |>.
Definition clamp (m a : Z) : Z := if m =? 0 then a else Z.max 0 (a - m).
Definition effective (rs : list PlacementReservation) (w : WorkerState) : WorkerState :=
  claim (claimed_slots (w_worker_id w) rs) (clamp (claimed_memory (w_worker_id w) rs)) w.

(** At most one reservation of a (worker, model) pair carries the model's memory. *)
Definition cold (r : PlacementReservation) : Prop := pr_memory_bytes r ≠ 0.
#[export] Instance cold_dec r : Decision (cold r).
Proof. unfold cold. apply _. Defined.
Definition claims_ok (rs : list PlacementReservation) : Prop :=
  Forall (λ r, 0 <= pr_memory_bytes r) rs ∧ NoDup (model_key <$> filter cold rs).

(** The catalog's estimate of a model's memory, and the models charged to a worker. *)
Definition estimate (models : ModelRegistry) (model_id : string) : Z :=
  default 0 (m_estimated_memory_bytes <$> models !! model_id).
Definition charged_models (worker_id : string) (rs : list PlacementReservation) : list string :=
  pr_model_id <$> filter (λ r, pr_worker_id r = worker_id ∧ cold r) rs.
(** The models that a worker has yet to load for its pending placements. *)
Definition models_to_load (w : WorkerState) (rs : list PlacementReservation) : list string :=
  filter (λ m, m ∉ w_resident_models w)
    (remove_dups (pr_model_id <$> filter (λ r, pr_worker_id r = w_worker_id w) rs)).
(** A placement of this model on this worker is pending. *)
Definition pending_on (worker_id model_id : string) (rs : list PlacementReservation) : Prop :=
  Exists (λ r, pr_worker_id r = worker_id ∧ pr_model_id r = model_id) rs.
#[export] Instance pending_on_dec i m rs : Decision (pending_on i m rs).
Proof. unfold pending_on. apply _. Defined.

(** ** Lemmas *)

Lemma claimed_memory_nonneg i rs : Forall (λ r, 0 <= pr_memory_bytes r) rs → 0 <= claimed_memory i rs.
Proof.
  intros H. apply zsum_nonneg. intros r Hr. rewrite Forall_forall in H. specialize (H r Hr).
  by case_match.
Qed.
Lemma claim_claim c1 f1 c2 f2 w c f :
  c1 + c2 = c → (∀ a, f2 (f1 a) = f a) → claim c2 f2 (claim c1 f1 w) = claim c f w.
Proof.
  intros Hc Hf. unfold claim, field_update. simpl.
  assert (f2 <$> (f1 <$> w_available_memory_bytes w) = f <$> w_available_memory_bytes w) as ->
    by (destruct (w_available_memory_bytes w); simpl; [by rewrite Hf|done]).
  by rewrite <- Z.add_assoc, Hc.
Qed.
Lemma clamp_clamp m1 m2 a : 0 <= m1 → 0 <= m2 → clamp m2 (clamp m1 a) = clamp (m1 + m2) a.
Proof.
  intros. unfold clamp. destruct (Z.eqb_spec m1 0), (Z.eqb_spec m2 0), (Z.eqb_spec (m1 + m2) 0); lia.
Qed.
Lemma effective_cons r rs w :
  0 <= pr_memory_bytes r → Forall (λ r, 0 <= pr_memory_bytes r) rs →
  effective (r :: rs) w =
  if on_worker (w_worker_id w) r then effective rs (claim 1 (clamp (pr_memory_bytes r)) w)
  else effective rs w.
Proof.
  intros Hr Hrs. pose proof (claimed_memory_nonneg (w_worker_id w) rs Hrs) as Hn.
  unfold effective, claimed_memory, claimed_slots in *. rewrite !zsum_cons.
  destruct (on_worker _ r); [|done]. symmetry. apply claim_claim; [done|].
  intros a. by apply clamp_clamp.
Qed.

Definition keyed_dict (ws : gmap string WorkerState) : Prop := ∀ i w, ws !! i = Some w → w_worker_id w = i.
Definition apply_one (i : string) (r : PlacementReservation) (w : WorkerState) : WorkerState :=
  if on_worker i r then claim 1 (clamp (pr_memory_bytes r)) w else w.
Lemma claim_zero w : claim 1 (clamp 0) w = w <| w_queue_depth ::= λ n, n + 1 |>.
Proof.
  unfold claim, field_update. simpl.
  assert (clamp 0 <$> w_available_memory_bytes w = w_available_memory_bytes w) as ->; [|done].
  by destruct (w_available_memory_bytes w).
Qed.
Lemma apply_reservation_lookup st r i :
  (cold r → model_key r ∉ st.2) →
  (apply_reservation st r).1 !! i = apply_one i r <$> st.1 !! i.
Proof.
  intros Hs. unfold apply_reservation, apply_one, on_worker, cold in *.
  destruct (decide (pr_worker_id r = i)) as [<-|Hi].
  - rewrite (bool_decide_eq_true_2 (pr_worker_id r = pr_worker_id r)) by done.
    destruct (st.1 !! pr_worker_id r) as [w|] eqn:Hw; [|by rewrite Hw].
    cbn [fmap option_fmap option_map].
    destruct (Z.eqb_spec (pr_memory_bytes r) 0) as [Hz|Hz]; cbn [negb andb fst].
    + by rewrite lookup_insert_eq, Hz, claim_zero.
    + rewrite bool_decide_eq_false_2 by auto. cbn [negb fst]. rewrite lookup_insert_eq.
      unfold claim, clamp. by destruct (Z.eqb_spec (pr_memory_bytes r) 0).
  - rewrite (bool_decide_eq_false_2 (pr_worker_id r = i)) by done. rewrite option_fmap_id.
    destruct (st.1 !! pr_worker_id r); [|done]. case_head; cbn [fst]; by rewrite lookup_insert_ne.
Qed.
Lemma apply_reservation_seen st r k :
  k ∈ (apply_reservation st r).2 → k ∈ st.2 ∨ cold r ∧ k = model_key r.
Proof.
  unfold apply_reservation, cold. destruct (st.1 !! _); [|by left]. case_head; [|by left].
  bool_hyps. cbn [snd]. rewrite elem_of_union, elem_of_singleton. naive_solver.
Qed.
Lemma apply_one_id i r w : w_worker_id (apply_one i r w) = w_worker_id w.
Proof. unfold apply_one. by case_head. Qed.

Lemma apply_all rs st :
  claims_ok rs → keyed_dict st.1 → (∀ k, k ∈ model_key <$> filter cold rs → k ∉ st.2) →
  ∀ i, (foldl apply_reservation st rs).1 !! i = effective rs <$> st.1 !! i.
Proof.
  intros [Hn Hd]. revert st Hd. induction Hn as [|r rs Hr Hn IH]; intros st Hd Hk Hs i.
  - simpl. destruct (st.1 !! i) as [w|]; [|done]. simpl. f_equal. unfold effective, claim, field_update.
    simpl. unfold claimed_slots, claimed_memory. simpl. rewrite Z.add_0_r.
    assert (clamp 0 <$> w_available_memory_bytes w = w_available_memory_bytes w) as ->
      by (by destruct (w_available_memory_bytes w)).
    by destruct w.
  - simpl. rewrite filter_cons in Hd, Hs.
    assert (cold r → model_key r ∉ st.2) as Hsr.
    { intros Hc. apply Hs. rewrite decide_True by done. left. }
    assert (keyed_dict (apply_reservation st r).1) as Hk'.
    { intros j w. rewrite apply_reservation_lookup by done. intros (w0 & H0 & ->)%fmap_Some.
      rewrite apply_one_id. by apply Hk. }
    rewrite IH; [|by destruct (decide (cold r)); [apply NoDup_cons in Hd as [_ ?]|]|done|].
    + rewrite apply_reservation_lookup by done. destruct (st.1 !! i) as [w|] eqn:Hw; [|done].
      simpl. f_equal. rewrite effective_cons by done. rewrite (Hk i w Hw). unfold apply_one.
      by destruct (on_worker i r).
    + intros k Hin Hseen. apply apply_reservation_seen in Hseen as [Hseen|[Hc ->]].
      * revert Hseen. apply Hs. destruct (decide (cold r)); [by right|done].
      * rewrite decide_True in Hd by done. by apply NoDup_cons in Hd as [? _].
Qed.

Lemma workers_dict_spec (m acc : gmap string WorkerState) l i :
  (∀ w, w ∈ l → m !! w_worker_id w = Some w) →
  foldl (λ (m : gmap string WorkerState) worker, <[w_worker_id worker := worker]> m) acc l !! i =
  if decide (i ∈ w_worker_id <$> l) then m !! i else acc !! i.
Proof.
  revert acc. induction l as [|w l IH]; intros acc Hm; cbn [foldl]; rewrite ?fmap_cons, ?fmap_nil.
  { rewrite decide_False; [done|apply not_elem_of_nil]. }
  rewrite IH by (intros; apply Hm; by right).
  destruct (decide (i ∈ w_worker_id <$> l)) as [Hi|Hi].
  { rewrite decide_True; [done|by right]. }
  rewrite lookup_insert. destruct (decide (w_worker_id w = i)) as [<-|Hne].
  - rewrite decide_True; [|left]. symmetry. apply Hm. left.
  - rewrite decide_False; [done|]. apply not_elem_of_cons. split; [congruence|done].
Qed.
Lemma workers_dict_registry registry :
  keyed_by_id registry → workers_dict (worker_list registry) = wr_workers registry.
Proof.
  intros Hk. apply map_eq. intros i. unfold workers_dict.
  assert (∀ w, w ∈ worker_list registry ↔ wr_workers registry !! w_worker_id w = Some w) as Hin.
  { intros w. unfold worker_list. rewrite list_elem_of_omap. setoid_rewrite elem_of_sorted_by.
    split; [intros (k & _ & Hw); by rewrite (Hk _ _ Hw)|]. intros Hw. exists (w_worker_id w).
    split; [|done]. apply list_elem_of_fmap. exists (w_worker_id w, w).
    split; [done|]. by apply elem_of_map_to_list. }
  rewrite (workers_dict_spec (wr_workers registry)) by (intros w; apply Hin).
  destruct (decide (i ∈ _)) as [_|Hi]; [done|]. rewrite lookup_empty. symmetry.
  apply eq_None_not_Some. intros [w Hw]. apply Hi. apply list_elem_of_fmap. exists w.
  pose proof (Hk _ _ Hw) as <-. split; [done|]. by apply Hin.
Qed.
(** What the policy is offered: every registered worker, with the pending placements charged to it. *)
Lemma elem_of_effective registry book w :
  keyed_by_id registry → claims_ok (od_values (ar_reservations book)) →
  w ∈ effective_workers registry book ↔
  ∃ w0, wr_workers registry !! w_worker_id w0 = Some w0 ∧
    w = effective (od_values (ar_reservations book)) w0.
Proof.
  intros Hk Hc. unfold effective_workers. rewrite list_elem_of_omap.
  set (workers := (foldl apply_reservation _ _).1).
  assert (∀ i, workers !! i = effective (od_values (ar_reservations book)) <$> wr_workers registry !! i) as Hw.
  { intros i. unfold workers. rewrite apply_all; [|done| |].
    - cbn [fst]. by rewrite workers_dict_registry.
    - cbn [fst]. by rewrite workers_dict_registry.
    - intros k' _. set_solver. }
  setoid_rewrite Hw. split.
  - intros (k & _ & (w0 & H0 & ->)%fmap_Some). exists w0. by rewrite (Hk _ _ H0).
  - intros (w0 & H0 & ->). exists (w_worker_id w0). rewrite H0. split; [|done].
    rewrite elem_of_sorted_by. apply list_elem_of_fmap.
    exists (w_worker_id w0, effective (od_values (ar_reservations book)) w0). split; [done|].
    apply elem_of_map_to_list. by rewrite Hw, H0.
Qed.

(** *** The book *)

(** A catalog of validated definitions. *)
Definition catalog_ok (models : ModelRegistry) : Prop :=
  ∀ k m, models !! k = Some m → m_model_id m = k ∧ 0 < m_estimated_memory_bytes m.
Lemma ModelDefinition_memory m m' :
  ModelDefinition_post_init m = Ok m' → 0 < m_estimated_memory_bytes m.
Proof.
  unfold ModelDefinition_post_init. intros H.
  apply bind_Ok_inv in H as (u1 & _ & H). apply bind_Ok_inv in H as (u2 & _ & H).
  apply bind_Ok_inv in H as (u3 & H3%raise_if_Ok & _). apply Z.leb_gt in H3. lia.
Qed.
Lemma catalog_of_init defs models :
  InMemoryModelRegistry_init defs = Ok models →
  Forall (λ m, is_ok (ModelDefinition_post_init m) = true) defs → catalog_ok models.
Proof.
  unfold InMemoryModelRegistry_init.
  assert (∀ ms, catalog_ok ms →
    foldl (λ acc model, ms ← acc; model_register model ms) (Ok ms) defs = Ok models →
    Forall (λ m, is_ok (ModelDefinition_post_init m) = true) defs → catalog_ok models) as H.
  2:{ apply H. intros k m. by rewrite lookup_empty. }
  induction defs as [|d defs IH]; intros ms Hms; simpl; [by intros [= <-]|].
  intros Hf [Hd Hdefs]%Forall_cons. destruct (model_register d ms) as [ms'|e] eqn:E.
  2:{ exfalso. clear -Hf. simpl in Hf. induction defs; simpl in Hf; [done|auto]. }
  refine (IH ms' _ Hf Hdefs).
  assert (ms' = <[m_model_id d := d]> ms) as ->.
  { unfold model_register in E. destruct (ms !! _); [case_hyp E; [done|]|]; by injection E. }
  intros k m. rewrite lookup_insert. case_decide as Hk; [|apply Hms]. intros [= <-].
  split; [done|]. destruct (ModelDefinition_post_init d) eqn:Hp; [|done].
  by eapply ModelDefinition_memory.
Qed.

Record book_ok (models : ModelRegistry) (book : AtomicPlacementReservations) : Prop := {
  book_models : ar_models book = Some models;
  book_keys : od_ok (ar_reservations book);
  book_claims : claims_ok (od_values (ar_reservations book));
  book_estimates : ∀ r, r ∈ od_values (ar_reservations book) → cold r →
    pr_memory_bytes r = estimate models (pr_model_id r)
}.
Lemma claims_ok_sublist rs rs' : rs' `sublist_of` rs → claims_ok rs → claims_ok rs'.
Proof.
  intros Hs [Hn Hd]. split.
  - apply Forall_forall. intros r Hr. rewrite Forall_forall in Hn. apply Hn.
    by apply (sublist_subseteq _ _ Hs).
  - apply (sublist_NoDup _ (model_key <$> filter cold rs) Hd). apply fmap_sublist.
    clear -Hs. induction Hs as [|x l k Hs IH|x l k Hs IH]; [done| |];
      rewrite ?(filter_cons _ x); case_decide; by try constructor.
Qed.
Lemma od_values_del {V} k (d : list (string * V)) : od_values (od_del k d) `sublist_of` od_values d.
Proof. unfold od_values, od_del. apply fmap_sublist, sublist_filter. Qed.
Lemma claims_ok_snoc rs r :
  claims_ok rs → 0 <= pr_memory_bytes r →
  (cold r → ∀ x, x ∈ rs → model_key x ≠ model_key r) → claims_ok (rs ++ [r]).
Proof.
  intros [Hn Hd] Hr Hk. split; [by apply Forall_app_2; [|apply Forall_singleton]|].
  rewrite filter_app, fmap_app. apply NoDup_app. split_and!; [done| |].
  - intros k (x & -> & [_ Hx]%list_elem_of_filter)%list_elem_of_fmap Hin.
    rewrite filter_cons, filter_nil in Hin. case_decide as Hc; [|by apply not_elem_of_nil in Hin].
    simpl in Hin. apply list_elem_of_singleton in Hin. by apply (Hk Hc x Hx).
  - rewrite filter_cons, filter_nil. case_decide; [apply NoDup_singleton|apply NoDup_nil_2].
Qed.
Lemma cold_memory_eq request worker book models :
  ar_models book = Some models →
  cold_memory request worker book =
  if bool_decide (r_model_id request ∈ w_resident_models worker)
     || bool_decide (pending_on (w_worker_id worker) (r_model_id request) (od_values (ar_reservations book)))
  then 0 else estimate models (r_model_id request).
Proof.
  intros Hm. unfold cold_memory, model_get, resident, estimate. rewrite Hm.
  destruct (bool_decide (r_model_id request ∈ _)); [done|]. cbn [orb].
  assert (existsb (holds_pair (w_worker_id worker) (r_model_id request)) (od_values (ar_reservations book))
    = bool_decide (pending_on (w_worker_id worker) (r_model_id request) (od_values (ar_reservations book)))) as ->.
  { apply eq_true_iff_eq. rewrite existsb_exists, bool_decide_eq_true. unfold pending_on. rewrite Exists_exists.
    setoid_rewrite list_elem_of_In. unfold holds_pair.
    setoid_rewrite andb_true_iff. by setoid_rewrite bool_decide_eq_true. }
  destruct (models !! _) as [model|]; [done|]. by case_bool_decide.
Qed.
Lemma cold_memory_spec request worker book models :
  catalog_ok models → ar_models book = Some models →
  let n := cold_memory request worker book in
  0 <= n ∧ (n ≠ 0 →
    (r_model_id request ∉ w_resident_models worker) ∧
    (∃ model, models !! r_model_id request = Some model ∧ n = m_estimated_memory_bytes model) ∧
    (∀ x, x ∈ od_values (ar_reservations book) →
      model_key x ≠ (w_worker_id worker, r_model_id request))).
Proof.
  intros Hc Hm n. unfold n. rewrite (cold_memory_eq _ _ _ _ Hm).
  case_bool_decide as Hr; [done|]. case_bool_decide as Hp; [done|]. cbn [orb]. unfold estimate.
  destruct (models !! _) as [model|] eqn:E; [|done]. destruct (Hc _ _ E) as [_ Hpos]. cbn.
  split; [lia|]. intros _. split_and!; [done|by exists model|]. intros x Hx [= H1 H2].
  apply Hp, Exists_exists. by exists x.
Qed.
(** The memory charged to a worker is that of its charged models, each counted once. *)
Lemma claimed_memory_models worker_id rs models :
  claims_ok rs → (∀ r, r ∈ rs → cold r → pr_memory_bytes r = estimate models (pr_model_id r)) →
  claimed_memory worker_id rs = zsum (estimate models) (charged_models worker_id rs) ∧
  NoDup (charged_models worker_id rs).
Proof.
  intros [_ Hd] He. unfold charged_models. induction rs as [|r rs IH]; [split; [done|constructor]|].
  unfold claimed_memory, on_worker in *. rewrite zsum_cons. rewrite filter_cons in Hd |- *.
  assert (∀ r, r ∈ rs → cold r → pr_memory_bytes r = estimate models (pr_model_id r)) as He'
    by (intros r' Hr'; apply He; by right).
  assert (NoDup (model_key <$> filter cold rs)) as Hd'
    by (destruct (decide (cold r)); [by apply NoDup_cons in Hd as [_ ?]|done]).
  destruct (IH Hd' He') as [IH1 IH2]. clear IH. destruct (decide (_ ∧ cold r)) as [[Hw Hc]|Hno].
  - rewrite fmap_cons, zsum_cons, bool_decide_eq_true_2 by done. rewrite He by (done || left).
    split; [by rewrite IH1|]. apply NoDup_cons. split; [|done]. rewrite decide_True in Hd by done.
    apply NoDup_cons in Hd as [Hd _]. intros (r' & Hm & [[Hw' Hc'] Hr']%list_elem_of_filter)%list_elem_of_fmap.
    apply Hd, list_elem_of_fmap. exists r'. unfold model_key. rewrite Hw, Hw', Hm. split; [done|].
    by apply list_elem_of_filter.
  - split; [|done]. rewrite IH1. case_bool_decide as Hw; [|done].
    destruct (decide (cold r)) as [Hc|Hc]; [by destruct Hno|]. unfold cold in Hc. lia.
Qed.
Lemma zsum_submseteq {A} (f : A → Z) (l k : list A) :
  (∀ x, 0 <= f x) → NoDup l → (∀ x, x ∈ l → x ∈ k) → zsum f l <= zsum f k.
Proof.
  intros Hf Hd Hin. destruct (submseteq_Permutation l k) as [k' Hk]; [by apply NoDup_submseteq|].
  rewrite (zsum_perm _ _ _ Hk), zsum_app. pose proof (zsum_nonneg f k' (λ x _, Hf x)). lia.
Qed.

Section book.
Context {P : Type} `{RoutingPolicyLaws P reserve}.
Context (models : ModelRegistry).
Implicit Types (book : AtomicPlacementReservations).

(** Any sequence of the book's two mutations; the registry may differ from call to call. *)
Inductive book_step book : AtomicPlacementReservations → Prop :=
| step_reserve env request registry (policy : P) r policy' book' :
    keyed_by_id registry → select_and_reserve env request registry policy book = (r, policy', book') →
    book_step book book'
| step_reservation_release request_id :
    book_step book (reservation_release request_id book).2.
Inductive book_reachable : AtomicPlacementReservations → Prop :=
| book_initial : book_reachable (AtomicPlacementReservations_init (Some models))
| book_next book book' : book_reachable book → book_step book book' → book_reachable book'.

Hypothesis catalog : catalog_ok models.

(** A successful call appends one reservation for the selected worker. *)
Lemma select_and_reserve_inv env request registry (policy : P) decision policy' book book' :
  select_and_reserve env request registry policy book = (Ok decision, policy', book') →
  od_get (r_request_id request) (ar_reservations book) = None ∧
  select env request (effective_workers registry book) policy = (Ok decision, policy') ∧
  ∃ worker, worker_get (rd_selected_worker_id decision) registry = Some worker ∧
    book' = book <| ar_reservations := ar_reservations book ++
      [(r_request_id request, mkReservation (r_request_id request) (w_worker_id worker)
          (r_model_id request) (cold_memory request worker book))] |>.
Proof.
  unfold select_and_reserve, od_has. case_bool_decide as Hhas; [done|].
  destruct (select _ _ _ policy) as [[d|e] p1] eqn:Hs; [|done].
  destruct (worker_get _ registry) as [w|] eqn:Hw; [|done]. intros [= <- <- <-].
  apply eq_None_not_Some in Hhas. split; [done|]. split; [done|]. exists w. split; [done|].
  unfold field_update. simpl. by rewrite od_set_new.
Qed.
Lemma book_step_ok book book' : book_ok models book → book_step book book' → book_ok models book'.
Proof using catalog.
  intros [Hm Hk Hc He] [env request registry policy [d|e] policy' book1 Hreg Hs|id].
  - destruct (select_and_reserve_inv _ _ _ _ _ _ _ _ Hs) as (Hnew & _ & w & _ & ->).
    pose proof (cold_memory_spec request w book models catalog Hm) as [Hn Hcold]. split; simpl.
    + done.
    + rewrite <- od_set_new by done. by apply od_set_ok.
    + unfold od_values. rewrite fmap_app. apply claims_ok_snoc; [done|exact Hn|].
      intros Hne. by apply Hcold.
    + unfold od_values. rewrite fmap_app. intros x [Hx| ->%list_elem_of_singleton]%elem_of_app Hc'; [by apply He|].
      destruct (Hcold Hc') as (_ & (model & Hmodel & Hbytes) & _). simpl. unfold estimate. by rewrite Hmodel.
  - assert (book1 = book) as ->; [|done]. unfold select_and_reserve in Hs.
    destruct (od_has _ _); [by injection Hs|]. destruct (select _ _ _ policy) as [[d|e'] p1];
      [destruct (worker_get _ registry)|]; by injection Hs.
  - split; simpl; [done|by apply od_del_ok| |].
    + eapply claims_ok_sublist; [apply od_values_del|done].
    + intros x Hx. apply He. eapply elem_of_sublist; [exact Hx|apply od_values_del].
Qed.
Lemma book_reachable_ok book : book_reachable book → book_ok models book.
Proof using catalog.
  induction 1 as [|book book' _ IH Hs]; [|by eapply book_step_ok].
  split; simpl; [done|by apply NoDup_nil_2| |by intros x ?%not_elem_of_nil].
  split; [by apply Forall_nil|by apply NoDup_nil_2].
Qed.
End book.

(** ** Properties *)

(** C15: What a placement sees and charges, whatever calls came before and however the registry changed
    in between. The policy is offered exactly the registered workers, each with one more queued request
    per pending placement on it and with its available memory lowered by what the pending placements on
    it are charged. A granted placement is recorded last, for the selected worker, and is charged the
    catalog's estimate of its model, or nothing when the model is resident on that worker or another
    placement of the same model on the same worker is pending. What a worker is charged in total is the
    sum of the estimates of its charged models, each counted once. A placement that is charged is
    granted only when this total, the new model included, fits in the memory the worker reports beyond
    the policy's safety reserve; hence, while every model that the worker has yet to load for its
    pending placements is charged (the release of a charged placement can break this:
    [reservation_release_uncounts]), they all fit together. It holds for every policy that obeys the
    routing laws, and for the catalog of any validated set of models. *)
Theorem placement_accounting {P} `{RoutingPolicyLaws P reserve}
  defs models env request registry (policy policy' : P) decision book book' :
  InMemoryModelRegistry_init defs = Ok models →
  Forall (λ m, is_ok (ModelDefinition_post_init m) = true) defs →
  book_reachable (P := P) models book → keyed_by_id registry →
  env_models env = models → is_ok (PlacementPolicy_init (reserve policy)) = true →
  select_and_reserve env request registry policy book = (Ok decision, policy', book') →
  let rs := od_values (ar_reservations book) in
  let rs' := od_values (ar_reservations book') in
  (∀ w, w ∈ effective_workers registry book ↔
     ∃ w0, worker_get (w_worker_id w0) registry = Some w0 ∧ w = effective rs w0) ∧
  select env request (effective_workers registry book) policy = (Ok decision, policy') ∧
  ∃ worker charge, worker_get (rd_selected_worker_id decision) registry = Some worker ∧
    rs' = rs ++ [mkReservation (r_request_id request) (w_worker_id worker) (r_model_id request) charge] ∧
    charge = (if bool_decide (r_model_id request ∈ w_resident_models worker)
                 || bool_decide (pending_on (w_worker_id worker) (r_model_id request) rs)
              then 0 else estimate models (r_model_id request)) ∧
    claimed_memory (w_worker_id worker) rs' = zsum (estimate models) (charged_models (w_worker_id worker) rs') ∧
    NoDup (charged_models (w_worker_id worker) rs') ∧
    (charge ≠ 0 → ∃ available, w_available_memory_bytes worker = Some available ∧
       claimed_memory (w_worker_id worker) rs' + reserve policy <= available ∧
       ((∀ m, m ∈ models_to_load worker rs' → m ∈ charged_models (w_worker_id worker) rs') →
        zsum (estimate models) (models_to_load worker rs') + reserve policy <= available)).
Proof.
  intros Hdefs Hvalid Hreach Hreg Henv Hres Hs rs rs'.
  pose proof (catalog_of_init _ _ Hdefs Hvalid) as Hcat.
  pose proof (book_reachable_ok models Hcat book Hreach) as [Hm Hk Hc _].
  assert (book_ok models book') as [_ _ Hc' He'].
  { apply (book_reachable_ok (P := P) models Hcat). eapply book_next; [exact Hreach|].
    by eapply step_reserve. }
  assert (∀ m, 0 <= estimate models m) as Hpos.
  { intros m. unfold estimate. destruct (models !! m) as [model|] eqn:E; [|done].
    destruct (Hcat _ _ E). simpl. lia. }
  destruct (select_and_reserve_inv _ _ _ _ _ _ _ _ Hs) as (Hnew & Hsel & worker & Hw & Hbook).
  split; [intros w; by apply elem_of_effective|]. split; [exact Hsel|].
  exists worker, (cold_memory request worker book).
  assert (rs' = rs ++ [mkReservation (r_request_id request) (w_worker_id worker) (r_model_id request)
    (cold_memory request worker book)]) as Hrs'.
  { unfold rs', rs, od_values. rewrite Hbook. cbn [ar_reservations field_update]. by rewrite fmap_app. }
  destruct (claimed_memory_models (w_worker_id worker) rs' models Hc' He') as [Hsum Hdup].
  split_and!; [done|done|by apply cold_memory_eq|done|done|]. intros Hne.
  destruct (cold_memory_spec request worker book models Hcat Hm) as [Hn Hcold].
  destruct (Hcold Hne) as (Hnot & (model & Hmodel & Hbytes) & _).
  assert (∃ a, w_available_memory_bytes worker = Some a ∧
    claimed_memory (w_worker_id worker) rs' + reserve policy <= a) as (a & Ha & Hfit).
  { destruct (select_usable _ _ _ _ _ _ Hsel) as (w' & Hin & Hw'id & _ & Hhost).
    apply elem_of_effective in Hin as (w0 & Hw0 & ->); [|done|done].
    assert (w0 = worker) as ->.
    { change (w_worker_id (effective _ w0)) with (w_worker_id w0) in Hw'id. rewrite Hw'id in Hw0.
      unfold worker_get in Hw. congruence. }
    destruct Hhost as [Hres'|(model' & Hmodel' & Hhost)]; [by destruct (Hnot Hres')|].
    rewrite Henv, Hmodel in Hmodel'. injection Hmodel' as <-. destruct (Hcat _ _ Hmodel) as [Hmid Hmpos].
    destruct Hhost as [Hres'|(a' & Ha' & Hle)]; [rewrite Hmid in Hres'; by destruct (Hnot Hres')|].
    simpl in Ha'. destruct (w_available_memory_bytes worker) as [a|] eqn:Ha; [|done].
    injection Ha' as <-. exists a. split; [done|].
    unfold PlacementPolicy_init, raise_if in Hres. case_hyp Hres; [done|]. bool_hyps.
    rewrite Hrs'. unfold claimed_memory in *. rewrite zsum_app, zsum_cons. unfold on_worker at 2.
    cbn [pr_worker_id pr_memory_bytes]. rewrite bool_decide_eq_true_2 by done. change (zsum _ []) with 0.
    unfold clamp in Hle. rewrite Hbytes. fold rs in Hle. set (m := zsum _ rs) in *.
    destruct (Z.eqb_spec m 0); lia. }
  exists a. split; [done|]. split; [done|]. intros Hcharged.
  assert (zsum (estimate models) (models_to_load worker rs') <= claimed_memory (w_worker_id worker) rs'); [|lia].
  rewrite Hsum. apply zsum_submseteq; [done| |done]. apply NoDup_filter, NoDup_remove_dups.
Qed.

(** the memory of a model two pending placements share is carried by the first of them alone.
    Releasing that one, for instance because its handoff failed, makes the whole amount available
    to other placements again, although the second one is still pending and will load the model
    on that worker. *)
Theorem reservation_release_uncounts models {P} `{RoutingPolicyLaws P reserve} book id1 id2 r1 r2 :
  catalog_ok models → book_reachable (P := P) models book →
  od_get id1 (ar_reservations book) = Some r1 → od_get id2 (ar_reservations book) = Some r2 →
  id1 ≠ id2 → model_key r1 = model_key r2 → pr_memory_bytes r1 ≠ 0 →
  let book' := (reservation_release id1 book).2 in
  od_get id2 (ar_reservations book') = Some r2 ∧ pr_memory_bytes r2 = 0 ∧
  claimed_memory (pr_worker_id r2) (od_values (ar_reservations book'))
    = claimed_memory (pr_worker_id r2) (od_values (ar_reservations book)) - pr_memory_bytes r1 ∧
  demand book' (pr_model_id r2) = demand book (pr_model_id r2) - 1.
Proof.
  intros Hcat Hreach H1 H2 Hne Hkey Hcold. destruct (book_reachable_ok models Hcat book Hreach) as [_ Hok Hc _].
  pose proof (od_move_to_end_perm _ id1 Hok) as Hp. unfold od_move_to_end in Hp. rewrite H1 in Hp.
  apply (fmap_Permutation snd) in Hp. rewrite fmap_app in Hp. cbn [fmap list_fmap snd] in Hp.
  cbn [snd reservation_release ar_reservations field_update]. unfold claimed_memory, demand, od_values in *.
  rewrite <- !(zsum_perm _ _ _ Hp), !zsum_app. unfold on_worker. rewrite !zsum_cons.
  pose proof Hkey as Hkey'. unfold model_key in Hkey'. injection Hkey' as -> ->. rewrite !bool_decide_eq_true_2 by done.
  assert (od_get id2 (od_del id1 (ar_reservations book)) = Some r2) as H2'
    by (rewrite od_get_del, decide_False; done).
  split; [done|]. split; [|split; change (zsum _ []) with 0; [lia|]].
  2:{ cbn [ar_reservations field_update]. lia. }
  destruct (decide (cold r2)) as [Hc2|Hc2]; [|unfold cold in Hc2; lia]. exfalso.
  destruct Hc as [_ Hd]. rewrite <- Hp in Hd. rewrite filter_app, fmap_app in Hd.
  apply NoDup_app in Hd as (_ & Hd & _). apply (Hd (model_key r2)).
  - apply list_elem_of_fmap. exists r2. split; [done|]. apply list_elem_of_filter. split; [done|].
    apply list_elem_of_fmap. exists (id2, r2). split; [done|]. by apply od_get_elem.
  - rewrite filter_cons, filter_nil, decide_True by done. simpl. apply list_elem_of_singleton.
    by rewrite Hkey.
Qed.

(** ** Witnesses *)

(** Two models that do not fit on the worker together. *)
Definition cold_model (id : string) (memory : Z) : ModelDefinition :=
  mkModel id "r1" SIMULATED memory ["float16"] "float16" 64 64 true true f_zero f_zero.
Definition cold_definitions : list ModelDefinition := [cold_model "model-b" 400; cold_model "model-c" 600].
Definition cold_catalog : ModelRegistry :=
  match InMemoryModelRegistry_init cold_definitions with Ok ms => ms | Err _ => ∅ end.
Definition place (request_id model_id : string) (book : AtomicPlacementReservations)
  : res RoutingDecision * ModelResidencyAwarePolicy * AtomicPlacementReservations :=
  select_and_reserve (mkEnv cold_catalog (demand book) (λ _, f_zero))
    (sample_request <| r_request_id := request_id |> <| r_model_id := model_id |>)
    sample_registry (mkResidency 0) book.
Definition book0 : AtomicPlacementReservations := AtomicPlacementReservations_init (Some cold_catalog).
Definition book1 : AtomicPlacementReservations := (place "req-1" "model-b" book0).2.
Definition book2 : AtomicPlacementReservations := (place "req-2" "model-b" book1).2.

Lemma place_reachable request_id model_id book :
  book_reachable (P := ModelResidencyAwarePolicy) cold_catalog book →
  book_reachable (P := ModelResidencyAwarePolicy) cold_catalog (place request_id model_id book).2.
Proof.
  intros Hb. eapply book_next; [exact Hb|]. destruct (place request_id model_id book) as [[r p] b] eqn:E.
  eapply step_reserve; [apply sample_registry_keyed|exact E].
Qed.
Lemma book0_reachable : book_reachable (P := ModelResidencyAwarePolicy) cold_catalog book0.
Proof. apply book_initial. Qed.
Lemma cold_catalog_ok : catalog_ok cold_catalog.
Proof.
  apply (catalog_of_init cold_definitions); [vm_compute; reflexivity|].
  repeat constructor.
Qed.

Definition cold_request : RequestRecord :=
  sample_request <| r_request_id := "req-1" |> <| r_model_id := "model-b" |>.
Lemma placement_accounting_witness :
  ∃ decision p b, place "req-1" "model-b" book0 = (Ok decision, p, b) ∧
    od_values (ar_reservations b) = [mkReservation "req-1" "worker-1" "model-b" 400] ∧
    ∃ worker charge, worker_get "worker-1" sample_registry = Some worker ∧
      charge = 400 ∧ ∃ available, w_available_memory_bytes worker = Some available ∧ 400 <= available.
Proof.
  destruct (place "req-1" "model-b" book0) as [[r p] b] eqn:E.
  destruct r as [decision|e]; [|vm_compute in E; discriminate].
  assert (od_values (ar_reservations b) = [mkReservation "req-1" "worker-1" "model-b" 400]) as Hr
    by (change b with (Ok decision, p, b).2; rewrite <- E; vm_compute; reflexivity).
  exists decision, p, b. split; [reflexivity|]. split; [exact Hr|].
  destruct (placement_accounting cold_definitions cold_catalog
    (mkEnv cold_catalog (demand book0) (λ _, f_zero)) cold_request sample_registry (mkResidency 0) p
    decision book0 b eq_refl ltac:(repeat constructor) book0_reachable
    sample_registry_keyed eq_refl eq_refl E) as (_ & _ & worker & charge & Hw & Hrs & _ & Hsum & _ & Hfit).
  rewrite Hr in Hrs, Hsum, Hfit. change (od_values (ar_reservations book0)) with (@nil PlacementReservation) in Hrs.
  injection Hrs as Hid Hcharge. rewrite <- Hid in *. subst charge.
  destruct Hfit as (available & Ha & Hle & _); [discriminate|].
  exists worker, 400. split; [|split; [reflexivity|exists available; split; [exact Ha|]]].
  - pose proof (sample_registry_keyed _ _ Hw) as Hk. by rewrite <- Hid in Hk; rewrite Hk.
  - vm_compute in Hle. exact Hle.
Defined.

(** After ["req-1"] is released, ["req-2"] still needs 400 bytes on the worker, and a placement
    of another 600 bytes is granted although the worker has 900. *)
Lemma reservation_release_uncounts_witness :
  (reservation_release "req-1" book2).1 = true ∧
  od_get "req-2" (ar_reservations (reservation_release "req-1" book2).2)
    = Some (mkReservation "req-2" "worker-1" "model-b" 0) ∧
  is_ok (place "req-3" "model-c" book2).1.1 = false ∧
  is_ok (place "req-3" "model-c" (reservation_release "req-1" book2).2).1.1 = true.
Proof.
  split; [vm_compute; reflexivity|]. split; [|split; vm_compute; reflexivity].
  exact (proj1 (reservation_release_uncounts cold_catalog book2 "req-1" "req-2"
    (mkReservation "req-1" "worker-1" "model-b" 400) (mkReservation "req-2" "worker-1" "model-b" 0)
    cold_catalog_ok (place_reachable _ _ _ (place_reachable _ _ _ book0_reachable))
    eq_refl eq_refl ltac:(discriminate) eq_refl ltac:(discriminate))).
Defined.
