(* ===== verification/LocalRequest.v ===== *)
(** [scheduler/request.py] and [apps/gateway/metrics.py]: the request objects of the single-process
    gateway and the counters kept about them. Clock readings are arguments. *)
From S2P Require Import Prelude PyContainers PyFloat.
From Stdlib Require String.

#[local] Open Scope string_scope.
#[local] Open Scope list_scope.
#[local] Open Scope Z_scope.

(** ** [RequestStatus] and [InferenceRequest] *)

Inductive RequestStatus :=
  | SReceived | SQueued | SRunning | SCompleted | SFailed | SRejected | STimeout | SCancelled.
#[export] Instance RequestStatus_eq_dec : EqDecision RequestStatus.
Proof. solve_decision. Defined.
Definition TERMINAL_STATUSES : list RequestStatus :=
  [SCompleted; SFailed; SRejected; STimeout; SCancelled].

(** [ir_future]: [None] before submission, then whether the future is done. Its result is the
    request object itself. *)
Record InferenceRequest := mkInference {
  ir_prompt : string;
  ir_max_new_tokens : Z;
  ir_temperature : float;
  ir_estimated_tokens : Z;
  ir_scheduler_policy : string;
  ir_request_id : string;
  ir_created_at : float;
  ir_queued_at : float;
  ir_started_at : float;
  ir_first_token_at : float;
  ir_completed_at : float;
  ir_input_tokens : Z;
  ir_output_tokens : Z;
  ir_status : RequestStatus;
  ir_result_text : string;
  ir_error_message : string;
  ir_batch_size : Z;
  ir_validation_tokenization_ms : float;
  ir_worker_tokenization_ms : float;
  ir_generation_ms : float;
  ir_decoding_ms : float;
  ir_batch_collection_ms : float;
  ir_future : option bool;
  ir_metrics_recorded : bool;
  ir_deadline_at : option float
}.
#[export] Instance eta_InferenceRequest : Eta InferenceRequest := λ r,
  mkInference (ir_prompt r) (ir_max_new_tokens r) (ir_temperature r) (ir_estimated_tokens r)
    (ir_scheduler_policy r) (ir_request_id r) (ir_created_at r) (ir_queued_at r) (ir_started_at r) (ir_first_token_at r)
    (ir_completed_at r) (ir_input_tokens r) (ir_output_tokens r) (ir_status r) (ir_result_text r)
    (ir_error_message r) (ir_batch_size r) (ir_validation_tokenization_ms r)
    (ir_worker_tokenization_ms r) (ir_generation_ms r) (ir_decoding_ms r)
    (ir_batch_collection_ms r) (ir_future r) (ir_metrics_recorded r) (ir_deadline_at r).
(** The dataclass defaults. *)
Definition InferenceRequest_init (prompt : string) (max_new_tokens : Z) (temperature : float)
  (estimated_tokens : Z) (scheduler_policy request_id : string) (created_at : float)
  (deadline_at : option float) : InferenceRequest :=
  mkInference prompt max_new_tokens temperature estimated_tokens scheduler_policy request_id
    created_at f_zero f_zero f_zero f_zero 0 0 SReceived "" "" 1 f_zero f_zero f_zero f_zero f_zero None false deadline_at.

Definition timed_out (timeout now : float) (r : InferenceRequest) : bool :=
  (match ir_deadline_at r with Some deadline => f_leb deadline now | None => false end)
  || (f_truthy (ir_queued_at r) && f_leb timeout (f_sub now (ir_queued_at r))).
Definition ir_terminal (r : InferenceRequest) : bool :=
  bool_decide (ir_status r ∈ TERMINAL_STATUSES).
(** [finish]; [now] is the reading taken when [completed_at] is unset. *)
Definition ir_finish (status : RequestStatus) (error_message : string) (now : float)
  (r : InferenceRequest) : InferenceRequest :=
  let r := r <| ir_status := status |> <| ir_error_message := error_message |>
             <| ir_completed_at ::= λ t, if f_truthy t then t else now |> in
  match ir_future r with
  | Some false => r <| ir_future := Some true |>
  | _ => r
  end.
Definition ir_cancel (reason : string) (now : float) (r : InferenceRequest) : InferenceRequest :=
  if ir_terminal r then r else ir_finish SCancelled reason now r.

(** ** [Metrics] *)

(** [deque(maxlen=limit).append(x)]. *)
Definition deque_append {A} (limit : nat) (x : A) (d : list A) : list A :=
  let d := d ++ [x] in drop (length d - limit) d.

Record Metrics := mkMetrics {
  mt_total_requests : Z;
  mt_completed_requests : Z;
  mt_failed_requests : Z;
  mt_rejected_requests : Z;
  mt_timeout_requests : Z;
  mt_queue_full_rejections : Z;
  mt_cancelled_requests : Z;
  mt_rejections_by_reason : gmap string Z;
  mt_active_model_executions : Z;
  mt_peak_model_executions : Z;
  mt_sample_limit : nat;
  mt_latencies : list float;
  mt_ttfts : list float;
  mt_queue_waits : list float;
  mt_batch_sizes : list Z;
  mt_validation_tokenization_times : list float;
  mt_worker_tokenization_times : list float;
  mt_generation_times : list float;
  mt_decoding_times : list float;
  mt_batch_collection_times : list float;
  mt_model_invocations : Z;
  mt_batches : Z;
  mt_output_tokens : Z;
  mt_recent_completions : list (float * Z * float)
}.
#[export] Instance eta_Metrics : Eta Metrics := λ m,
  mkMetrics (mt_total_requests m) (mt_completed_requests m) (mt_failed_requests m)
    (mt_rejected_requests m) (mt_timeout_requests m) (mt_queue_full_rejections m)
    (mt_cancelled_requests m) (mt_rejections_by_reason m) (mt_active_model_executions m)
    (mt_peak_model_executions m) (mt_sample_limit m) (mt_latencies m) (mt_ttfts m)
    (mt_queue_waits m) (mt_batch_sizes m) (mt_validation_tokenization_times m)
    (mt_worker_tokenization_times m) (mt_generation_times m) (mt_decoding_times m)
    (mt_batch_collection_times m) (mt_model_invocations m) (mt_batches m) (mt_output_tokens m)
    (mt_recent_completions m).
Definition Metrics_init (sample_limit : nat) : Metrics :=
  mkMetrics 0 0 0 0 0 0 0 ∅ 0 0 sample_limit [] [] [] [] [] [] [] [] [] 0 0 0 [].

Definition received (m : Metrics) : Metrics := m <| mt_total_requests ::= λ n, n + 1 |>.
Definition rejected (queue_full : bool) (reason : string) (m : Metrics) : Metrics :=
  m <| mt_rejected_requests ::= λ n, n + 1 |>
    <| mt_queue_full_rejections ::= λ n, n + (if queue_full then 1 else 0) |>
    <| mt_rejections_by_reason ::= cadd reason 1 |>.
Definition model_execution_started (m : Metrics) : Metrics :=
  let m := m <| mt_active_model_executions ::= λ n, n + 1 |> in
  m <| mt_peak_model_executions ::= λ n, Z.max n (mt_active_model_executions m) |>.
Definition model_execution_finished (m : Metrics) : Metrics :=
  m <| mt_active_model_executions ::= λ n, n - 1 |>.
Definition record_model_invocation (collection_ms : float) (batched_call : bool) (m : Metrics)
  : Metrics :=
  let m := m <| mt_model_invocations ::= λ n, n + 1 |> in
  if batched_call
  then m <| mt_batches ::= λ n, n + 1 |>
         <| mt_batch_collection_times ::= deque_append (mt_sample_limit m) collection_ms |>
  else m.

Definition count_if (b : bool) (n : Z) : Z := n + (if b then 1 else 0).
Definition elapsed_ms (later earlier : float) : float := f_mul (f_sub later earlier) (f_of_Z 1000).
(** [record]; [now] is the reading taken for a completed request. *)
Definition metrics_record (now : float) (r : InferenceRequest) (m : Metrics)
  : InferenceRequest * Metrics :=
  if ir_metrics_recorded r then (r, m)
  else
    let has status := bool_decide (ir_status r = status) in
    let when {A} (b : bool) (x : A) (d : list A) :=
      if b then deque_append (mt_sample_limit m) x d else d in
    let started := f_truthy (ir_started_at r) in
    let latency := if f_truthy (ir_completed_at r)
                   then elapsed_ms (ir_completed_at r) (ir_queued_at r) else f_zero in
    (r <| ir_metrics_recorded := true |>,
     m <| mt_completed_requests ::= count_if (has SCompleted) |>
       <| mt_timeout_requests ::= count_if (has STimeout) |>
       <| mt_failed_requests ::= count_if (has SFailed) |>
       <| mt_cancelled_requests ::= count_if (has SCancelled) |>
       <| mt_latencies ::= when (f_truthy (ir_completed_at r))
            (elapsed_ms (ir_completed_at r) (ir_queued_at r)) |>
       <| mt_queue_waits ::= when started (elapsed_ms (ir_started_at r) (ir_queued_at r)) |>
       <| mt_ttfts ::= when (f_truthy (ir_first_token_at r))
            (elapsed_ms (ir_first_token_at r) (ir_queued_at r)) |>
       <| mt_batch_sizes ::= when started (ir_batch_size r) |>
       <| mt_validation_tokenization_times ::= when true (ir_validation_tokenization_ms r) |>
       <| mt_worker_tokenization_times ::= when started (ir_worker_tokenization_ms r) |>
       <| mt_generation_times ::= when started (ir_generation_ms r) |>
       <| mt_decoding_times ::= when started (ir_decoding_ms r) |>
       <| mt_output_tokens ::= λ n, n + ir_output_tokens r |>
       <| mt_recent_completions ::= when (has SCompleted) (now, ir_output_tokens r, latency) |>).

(** ** Lemmas *)

Definition done_ok (r : InferenceRequest) : Prop :=
  ir_terminal r = true ∧ ir_future r = Some true ∧
  (ir_status r = SRejected ∨ ir_metrics_recorded r = true).
(** What a request keeps for ever. *)
Definition static (r : InferenceRequest) : string * Z * float * Z * string :=
  (ir_prompt r, ir_max_new_tokens r, ir_temperature r, ir_estimated_tokens r, ir_request_id r).

Lemma ir_finish_status s e now r : ir_status (ir_finish s e now r) = s.
Proof. unfold ir_finish. simpl. by destruct (ir_future r) as [[]|]. Qed.
Lemma ir_finish_future s e now r d :
  ir_future r = Some d → ir_future (ir_finish s e now r) = Some true.
Proof. intros H. unfold ir_finish. simpl. rewrite H. by destruct d. Qed.
Lemma ir_finish_recorded s e now r :
  ir_metrics_recorded (ir_finish s e now r) = ir_metrics_recorded r.
Proof. unfold ir_finish. simpl. by destruct (ir_future r) as [[]|]. Qed.
Lemma ir_finish_static s e now r : static (ir_finish s e now r) = static r.
Proof. unfold ir_finish. simpl. by destruct (ir_future r) as [[]|]. Qed.
Lemma ir_cancel_static e now r : static (ir_cancel e now r) = static r.
Proof. unfold ir_cancel. destruct (ir_terminal r); [done|apply ir_finish_static]. Qed.
Lemma metrics_record_request now r m :
  (metrics_record now r m).1 = r <| ir_metrics_recorded := true |>.
Proof. unfold metrics_record. destruct (ir_metrics_recorded r) eqn:E; [by destruct r; simpl in *; subst|done]. Qed.
Create Rewrite HintDb request.
#[export] Hint Rewrite ir_finish_status ir_finish_recorded ir_finish_static ir_cancel_static
  metrics_record_request : request.
