(* ===== verification/LocalScheduler.v ===== *)
(** [scheduler/queue.py], [no_batching.py], [dynamic_batch.py] and [scheduler_loop.py]: the
    single-process gateway's queue and batching loop. Coroutines run one at a time between
    [await]s, so a computation is a state transformer, and each [await] is a step at which other
    tasks may submit, cancel or close ([script]). *)
From S2P Require Import Prelude PyContainers PyFloat Effects LocalRequest.
From Stdlib Require String.

#[local] Open Scope string_scope.
#[local] Open Scope list_scope.
#[local] Open Scope Z_scope.

Abbreviation loc := positive.

(** ** State *)

(** [asyncio.Queue]: [None] is the shutdown sentinel. *)
Record AsyncQueue := mkQueue {
  aq_items : list (option loc);
  aq_unfinished : Z;
  aq_maxsize : Z
}.
#[export] Instance eta_AsyncQueue : Eta AsyncQueue := λ q,
  mkQueue (aq_items q) (aq_unfinished q) (aq_maxsize q).

(** The request objects, [RequestQueue]'s fields, the loop's [deferred] deque, the metrics, and how
    many clock readings and awaits have been made. *)
Record World := mkWorld {
  wd_requests : gmap loc InferenceRequest;
  wd_queue : AsyncQueue;
  wd_accepting : bool;
  wd_max_observed_size : Z;
  wd_deferred : list loc;
  wd_metrics : Metrics;
  wd_readings : nat;
  wd_awaits : nat
}.
#[export] Instance eta_World : Eta World := λ w,
  mkWorld (wd_requests w) (wd_queue w) (wd_accepting w) (wd_max_observed_size w) (wd_deferred w)
    (wd_metrics w) (wd_readings w) (wd_awaits w).
Definition RequestQueue_init (maximum : Z) (sample_limit : nat) : World :=
  mkWorld ∅ (mkQueue [] 0 maximum) true 0 [] (Metrics_init sample_limit) 0 0.

Record Settings := mkSettings {
  st_request_timeout_seconds : float;
  st_max_wait_ms : Z;
  st_max_batch_size : Z;
  st_max_total_batch_tokens : Z;
  st_dynamic_batch : bool
}.

(** [GenerationResult] of [inference/worker.py]. *)
Record GenerationResult := mkGeneration {
  gr_text : string;
  gr_input_tokens : Z;
  gr_output_tokens : Z;
  gr_tokenization_ms : float;
  gr_generation_ms : float;
  gr_decoding_ms : float
}.

(** What other tasks do while the scheduler is suspended. *)
Inductive EnvAction :=
  | EnvSubmit (r : InferenceRequest)
  | EnvCancel (l : loc) (reason : string)
  | EnvClose.
(** One suspension: the other tasks' calls, whether the scheduler's task is cancelled or a wait times
    out, and how a model call ends ([inl]: an exception with its message). *)
Record AwaitEvent := mkAwait {
  ev_actions : list EnvAction;
  ev_cancelled : bool;
  ev_timeout : bool;
  ev_generate_one : string + GenerationResult;
  ev_generate_batch : string + list GenerationResult
}.

(** Exceptions. [EBlocked]: the await never returns; [EFuel]: the given number of steps is used up. *)
Inductive Exc :=
  | EQueueClosed | EQueueFull | ETaskDone | EZip (message : string) | ECancelled | EBlocked | EFuel
  | EWorker (message : string) | EMax.

(** ** Computations *)

Abbreviation M := (Eff World Exc).

Section scheduler.
Variable clock : nat → float.
Variable script : nat → AwaitEvent.
Variable settings : Settings.

(** [time.monotonic()]. *)
Definition monotonic : M float := λ w, (inr (clock (wd_readings w)), w <| wd_readings ::= S |>).

Definition request_of (l : loc) (w : World) : InferenceRequest :=
  default (InferenceRequest_init "" 0 f_zero 0 "" "" f_zero None) (wd_requests w !! l).
Definition get_request (l : loc) : M InferenceRequest := gets (request_of l).
Definition set_request (l : loc) (r : InferenceRequest) : M unit :=
  modify (λ w, w <| wd_requests ::= <[l := r]> |>).
Definition update_request (l : loc) (f : InferenceRequest → InferenceRequest) : M unit :=
  r ← get_request l; set_request l (f r).
Definition update_metrics (f : Metrics → Metrics) : M unit :=
  modify (λ w, w <| wd_metrics ::= f |>).

(** *** Methods of the request and of the metrics *)

Definition request_timed_out (l : loc) : M bool :=
  now ← monotonic; r ← get_request l; mret (timed_out (st_request_timeout_seconds settings) now r).
(** [completed_at or time.monotonic()]. *)
Definition completion_time (l : loc) : M float :=
  r ← get_request l;
  if f_truthy (ir_completed_at r) then mret (ir_completed_at r) else monotonic.
Definition finish (l : loc) (status : RequestStatus) (error_message : string) : M unit :=
  now ← completion_time l; update_request l (ir_finish status error_message now).
Definition cancel (l : loc) (reason : string) : M unit :=
  r ← get_request l;
  if ir_terminal r then mret tt else finish l SCancelled reason.
Definition record (l : loc) : M unit :=
  r ← get_request l;
  if ir_metrics_recorded r then mret tt
  else
    now ← (if bool_decide (ir_status r = SCompleted) then monotonic else mret f_zero);
    m ← gets wd_metrics;
    let '(r', m') := metrics_record now r m in
    _ ← set_request l r'; update_metrics (λ _, m').

(** *** [asyncio.Queue] *)

Definition qsize (q : AsyncQueue) : Z := Z.of_nat (length (aq_items q)).
Definition queue_full (q : AsyncQueue) : bool := (0 <? aq_maxsize q) && (aq_maxsize q <=? qsize q).
Definition put_nowait (x : option loc) : M unit :=
  q ← gets wd_queue;
  if queue_full q then raise EQueueFull
  else modify (λ w, w <| wd_queue ::= λ q,
         q <| aq_items ::= λ items, items ++ [x] |> <| aq_unfinished ::= λ n, n + 1 |> |>).
Definition task_done : M unit :=
  q ← gets wd_queue;
  if aq_unfinished q <=? 0 then raise ETaskDone
  else modify (λ w, w <| wd_queue ::= λ q, q <| aq_unfinished ::= λ n, n - 1 |> |>).
(** [get_nowait]; [None] is [QueueEmpty]. *)
Definition get_nowait : M (option (option loc)) :=
  q ← gets wd_queue;
  match aq_items q with
  | [] => mret None
  | x :: items =>
    _ ← modify (λ w, w <| wd_queue ::= λ q, q <| aq_items := items |> |>);
    mret (Some x)
  end.

(** *** [RequestQueue] *)

Definition submit (l : loc) : M unit :=
  _ ← update_request l (λ r, r <| ir_future := Some false |>);
  accepting ← gets wd_accepting;
  if negb accepting then
    _ ← finish l SRejected "scheduler is shutting down"; raise EQueueClosed
  else
    now ← monotonic;
    _ ← update_request l (λ r, r <| ir_queued_at := now |> <| ir_status := SQueued |>);
    try_except
      (_ ← put_nowait (Some l);
       modify (λ w, w <| wd_max_observed_size ::= λ n, Z.max n (qsize (wd_queue w)) |>))
      (λ e, match e with
            | EQueueFull => _ ← finish l SRejected "scheduler queue is full"; raise EQueueFull
            | e => raise e
            end).
(** The loop of [close] over the queued items. *)
Fixpoint drain (fuel : nat) (n : Z) : M Z :=
  match fuel with
  | O => raise EFuel
  | S fuel =>
    item ← get_nowait;
    match item with
    | None => mret n
    | Some None => _ ← task_done; drain fuel n
    | Some (Some l) =>
      _ ← finish l SRejected "server is shutting down";
      _ ← update_metrics (rejected false "service_shutting_down");
      _ ← task_done; drain fuel (n + 1)
    end
  end.
Definition close : M Z :=
  accepting ← gets wd_accepting;
  if negb accepting then mret 0
  else
    _ ← modify (λ w, w <| wd_accepting := false |>);
    items ← gets (λ w, aq_items (wd_queue w));
    n ← drain (S (length items)) 0;
    _ ← put_nowait None; mret n.

(** *** Suspension points *)

(** Another task's call; an exception goes to that task. *)
Definition env_action (a : EnvAction) (w : World) : World :=
  match a with
  | EnvSubmit r =>
    let l := fresh (dom (wd_requests w)) in
    snd (submit l (w <| wd_requests ::= <[l := r]> |>))
  | EnvCancel l reason =>
    match wd_requests w !! l with None => w | Some _ => snd (cancel l reason w) end
  | EnvClose => snd (close w)
  end.
Definition suspend : M AwaitEvent := λ w,
  let ev := script (wd_awaits w) in
  let w := foldl (λ w a, env_action a w) (w <| wd_awaits ::= S |>) (ev_actions ev) in
  if ev_cancelled ev then (inl ECancelled, w) else (inr ev, w).
(** [await queue.get()]. *)
Definition queue_get : M (option loc) :=
  _ ← suspend; item ← get_nowait;
  match item with None => raise EBlocked | Some x => mret x end.
(** [await asyncio.wait_for(queue.get(), remaining)]; [None] is [TimeoutError]. *)
Definition queue_wait : M (option (option loc)) :=
  ev ← suspend; if ev_timeout ev then mret None else get_nowait.
(** [await asyncio.to_thread(worker.generate_..., ...)]. *)
Definition model_call {A} (outcome : AwaitEvent → string + A) : M A :=
  ev ← suspend;
  match outcome ev with
  | inr result => mret result
  | inl message => raise (EWorker message)
  end.

(** *** [no_batching.py] *)

Definition finish_timeout (l : loc) : M unit := _ ← finish l STimeout ""; record l.
(** The fields both executors copy from a result; [at_] is the completion reading if it is needed. *)
Definition store_result (result : GenerationResult) (at_ : float) (r : InferenceRequest)
  : InferenceRequest :=
  r <| ir_completed_at ::= λ t, if f_truthy t then t else at_ |>
    <| ir_input_tokens := gr_input_tokens result |>
    <| ir_output_tokens := gr_output_tokens result |>
    <| ir_result_text := gr_text result |>
    <| ir_worker_tokenization_ms := gr_tokenization_ms result |>
    <| ir_generation_ms := gr_generation_ms result |>
    <| ir_decoding_ms := gr_decoding_ms result |>.
(** [CANCELLED if cancelled else TIMEOUT if request.timed_out(...) else COMPLETED]. *)
Definition final_status (l : loc) (cancelled : bool) : M RequestStatus :=
  if cancelled then mret SCancelled
  else late ← request_timed_out l; mret (if (late : bool) then STimeout else SCompleted).
Definition is_cancelled (l : loc) : M bool :=
  r ← get_request l; mret (bool_decide (ir_status r = SCancelled)).
(** [request.finish(request.status, request.error_message)]. *)
Definition finish_as_is (l : loc) : M unit :=
  r ← get_request l; finish l (ir_status r) (ir_error_message r).

Definition process_one (l : loc) : M unit :=
  cancelled ← is_cancelled l;
  if (cancelled : bool) then record l
  else
    late ← request_timed_out l;
    if (late : bool) then finish_timeout l
    else
      now ← monotonic;
      _ ← update_request l (λ r, r <| ir_status := SRunning |> <| ir_started_at := now |>
                                   <| ir_batch_size := 1 |>);
      _ ← update_request l (λ r, r <| ir_batch_collection_ms := f_zero |>);
      _ ← update_metrics (record_model_invocation f_zero true);
      _ ← update_metrics model_execution_started;
      _ ← try_finally
        (try_except
          (result ← model_call ev_generate_one;
           cancelled ← is_cancelled l;
           completed ← completion_time l;
           _ ← update_request l (store_result result completed);
           status ← final_status l cancelled;
           update_request l (λ r, r <| ir_status := status |>))
          (λ e, match e with
                | EWorker message =>
                  _ ← update_request l (λ r, r <| ir_status := SFailed |>
                                               <| ir_error_message := message |>);
                  now ← monotonic;
                  update_request l (λ r, r <| ir_completed_at := now |>)
                | ECancelled =>
                  _ ← finish l SFailed "shutdown grace period expired";
                  _ ← record l; raise ECancelled
                | e => raise e
                end))
        (update_metrics model_execution_finished);
      _ ← record l; finish_as_is l.

(** *** [dynamic_batch.py] *)

Record BatchCollection := mkBatch {
  bc_requests : list loc;
  bc_queued_items : nat;
  bc_total_estimated_tokens : Z
}.
#[local] Instance eta_BatchCollection : Eta BatchCollection := λ b,
  mkBatch (bc_requests b) (bc_queued_items b) (bc_total_estimated_tokens b).
Definition compatible (candidate first : InferenceRequest) : bool :=
  (ir_max_new_tokens candidate =? ir_max_new_tokens first)
  && f_eqb (ir_temperature candidate) (ir_temperature first).
Definition cost (r : InferenceRequest) : Z := ir_estimated_tokens r + ir_max_new_tokens r.
Definition task_done_if (from_queue : bool) : M unit :=
  if from_queue then task_done else mret (M := M) tt.
(** [consider]; the boolean is ["stop"]. [deferring]: the [deferred] deque was passed. *)
Definition consider (deferring : bool) (first candidate : loc) (from_queue : bool)
  (b : BatchCollection) : M (bool * BatchCollection) :=
  late ← request_timed_out candidate;
  if (late : bool) then
    _ ← finish_timeout candidate; _ ← task_done_if from_queue; mret (false, b)
  else
    cancelled ← is_cancelled candidate;
    if (cancelled : bool) then
      _ ← record candidate; _ ← task_done_if from_queue; mret (false, b)
    else
      r ← get_request candidate; r0 ← get_request first;
      if compatible r r0
         && (bc_total_estimated_tokens b + cost r <=? st_max_total_batch_tokens settings)
      then
        mret (false, mkBatch (bc_requests b ++ [candidate])
                       (bc_queued_items b + if from_queue then 1 else 0)
                       (bc_total_estimated_tokens b + cost r))
      else if negb deferring then
        _ ← put_nowait (Some candidate); _ ← task_done_if from_queue; mret (true, b)
      else
        _ ← modify (λ w, w <| wd_deferred ::= λ d, d ++ [candidate] |>);
        _ ← task_done_if from_queue; mret (false, b).

Definition batch_has_room (b : BatchCollection) : bool :=
  Z.of_nat (length (bc_requests b)) <? st_max_batch_size settings.
(** [deferred.popleft()]; the loops call it on a non-empty deque. *)
Definition popleft : M (option loc) :=
  d ← gets wd_deferred;
  match d with
  | [] => mret None
  | l :: d => _ ← modify (λ w, w <| wd_deferred := d |>); mret (Some l)
  end.
Fixpoint scan_deferred (first : loc) (to_scan : nat) (b : BatchCollection) : M BatchCollection :=
  match to_scan with
  | O => mret b
  | S to_scan =>
    if negb (batch_has_room b) then mret b
    else
      candidate ← popleft;
      match candidate with
      | None => raise EBlocked
      | Some candidate =>
        r ← consider true first candidate false b;
        if (r.1 : bool) then mret r.2 else scan_deferred first to_scan r.2
      end
  end.
Fixpoint scan_queue (fuel : nat) (deferring : bool) (deadline : float) (first : loc)
  (b : BatchCollection) : M BatchCollection :=
  match fuel with
  | O => raise EFuel
  | S fuel =>
    if negb (batch_has_room b) then mret b
    else
      now ← monotonic;
      if f_leb (f_sub deadline now) f_zero then mret b
      else
        item ← queue_wait;
        match item with
        | None => mret b
        | Some None => _ ← task_done; _ ← put_nowait None; mret b
        | Some (Some candidate) =>
          r ← consider deferring first candidate true b;
          if (r.1 : bool) then mret r.2 else scan_queue fuel deferring deadline first r.2
        end
  end.
Definition collect_batch (fuel : nat) (deferring : bool) (first : loc) : M BatchCollection :=
  collection_started ← monotonic;
  r ← get_request first;
  let deadline := f_add collection_started (f_ratio (st_max_wait_ms settings) 1000) in
  let b := mkBatch [first] 0 (cost r) in
  deferred ← gets wd_deferred;
  b ← scan_deferred first (if deferring then length deferred else 0%nat) b;
  b ← scan_queue fuel deferring deadline first b;
  now ← monotonic;
  let collection_ms := f_mul (f_sub now collection_started) (f_of_Z 1000) in
  _ ← for_each (λ l, update_request l (λ r, r <| ir_batch_collection_ms := collection_ms |>))
        (bc_requests b);
  mret b.

(** The first loop of [process_batch]: the requests that are still to run. *)
Fixpoint activate_batch (now : float) (batch : list loc) : M (list loc) :=
  match batch with
  | [] => mret []
  | l :: batch =>
    cancelled ← is_cancelled l;
    if (cancelled : bool) then _ ← record l; activate_batch now batch
    else
      late ← request_timed_out l;
      if (late : bool) then _ ← finish_timeout l; activate_batch now batch
      else
        _ ← update_request l (λ r, r <| ir_status := SRunning |> <| ir_started_at := now |>
                                     <| ir_batch_size := 0 |>);
        active ← activate_batch now batch; mret (l :: active)
  end.
(** The loop over [zip(active, results, strict=True)]. *)
Fixpoint apply_results (completed : float) (active : list loc) (results : list GenerationResult)
  : M unit :=
  match active, results with
  | [], [] => mret tt
  | l :: active, result :: results =>
    cancelled ← is_cancelled l;
    _ ← update_request l (store_result result completed);
    status ← final_status l cancelled;
    _ ← update_request l (λ r, r <| ir_status := status |>);
    _ ← record l;
    _ ← finish_as_is l;
    apply_results completed active results
  | _ :: _, [] => raise (EZip "zip() argument 2 is shorter than argument 1")
  | [], _ :: _ => raise (EZip "zip() argument 2 is longer than argument 1")
  end.
Definition fail_active (message : string) (l : loc) : M unit :=
  _ ← update_request l (λ r, r <| ir_status := SFailed |> <| ir_error_message := message |>);
  now ← monotonic;
  _ ← update_request l (λ r, r <| ir_completed_at := now |>);
  _ ← record l;
  finish_as_is l.
(** The model call for the active requests and what follows it. *)
Definition run_active (active : list loc) : M unit :=
  try_finally
    (try_except
      (results ← model_call ev_generate_batch;
       completed ← monotonic;
       apply_results completed active results)
      (λ e, match e with
            | EWorker message | EZip message => for_each (fail_active message) active
            | ECancelled =>
              _ ← for_each (λ l, _ ← finish l SFailed "shutdown grace period expired"; record l)
                    active;
              raise ECancelled
            | e => raise e
            end))
    (update_metrics model_execution_finished).
Definition process_batch (batch : list loc) : M unit :=
  now ← monotonic;
  active ← activate_batch now batch;
  if (length active =? 0)%nat then mret tt
  else
    _ ← for_each (λ l, update_request l (λ r, r <| ir_batch_size := Z.of_nat (length active) |>))
          active;
    requests ← gets (λ w, (λ l, request_of l w) <$> active);
    match py_max (λ x y, f_ltb x y) (ir_batch_collection_ms <$> requests) with
    | None => raise EMax
    | Some collection_ms =>
      _ ← update_metrics (record_model_invocation collection_ms true);
      _ ← update_metrics model_execution_started;
      run_active active
    end.

(** *** [scheduler_loop.py] *)

(** [while deferred: ...] of the shutdown branch. *)
Definition reject_deferred : M unit :=
  deferred ← gets wd_deferred;
  for_each (λ l, _ ← popleft;
              _ ← finish l SRejected "server is shutting down";
              update_metrics (rejected false "service_shutting_down")) deferred.
(** One round of [run_scheduler]; [true] is [break]. [fuel] bounds the items one batch looks at. *)
Definition scheduler_round (fuel : nat) : M bool :=
  accepting ← gets wd_accepting;
  deferred ← gets wd_deferred;
  if negb accepting && negb (length deferred =? 0)%nat then _ ← reject_deferred; mret false
  else
    let from_queue := (length deferred =? 0)%nat in
    first ← (if from_queue then queue_get else popleft);
    match first with
    | None => _ ← task_done; mret true
    | Some first =>
      _ ← try_finally
        (if st_dynamic_batch settings then
           collection ← collect_batch fuel true first;
           try_finally (process_batch (bc_requests collection))
             (times (bc_queued_items collection) task_done)
         else process_one first)
        (task_done_if from_queue);
      mret false
    end.
Fixpoint run_scheduler (fuel : nat) : M unit :=
  match fuel with
  | O => raise EFuel
  | S fuel' =>
    stop ← scheduler_round fuel;
    if (stop : bool) then mret tt else run_scheduler fuel'
  end.
End scheduler.
