(* ===== verification/LocalSchedulerSafe.v ===== *)
(** Correctness of the gateway's batching loop ([LocalScheduler]): an invariant over all
    interleavings of the loop with submissions, cancellations and shutdown, in a small program
    logic for the computations. *)
From S2P Require Import Prelude PyContainers PyFloat Effects LocalRequest LocalScheduler.
From Stdlib Require String.

#[local] Open Scope string_scope.
#[local] Open Scope list_scope.
#[local] Open Scope Z_scope.
#[local] Set Default Proof Using "Type".
#[local] Set Proof Using Clear Unused.
#[local] Abbreviation hoare := (Effects.hoare (W := World) (X := Exc)).
#[local] Abbreviation never := (Effects.never (W := World) (X := Exc)).

(** ** Specification *)

(** The accepted requests no one has taken yet. *)
Definition waiting (w : World) : list loc := omap id (aq_items (wd_queue w)) ++ wd_deferred w.

(** [inv D H n]: the loop holds the requests [D], which are finished, and [H], which are not;
    [n] items taken from the queue are not yet accounted for with [task_done]. *)
Record inv (D H : list loc) (n : nat) (w : World) : Prop := {
  inv_nodup : NoDup (waiting w ++ D ++ H);
  inv_known : ∀ l, l ∈ waiting w ++ D ++ H → is_Some (wd_requests w !! l);
  inv_future : ∀ l r, wd_requests w !! l = Some r →
    ∃ d, ir_future r = Some d ∧ (ir_status r = SCancelled → d = true);
  inv_done : ∀ l r, wd_requests w !! l = Some r → l ∉ waiting w → l ∉ H → done_ok r;
  inv_count : aq_unfinished (wd_queue w) = Z.of_nat (length (aq_items (wd_queue w)) + n);
  inv_size : 0 < aq_maxsize (wd_queue w) →
    Z.of_nat (length (aq_items (wd_queue w))) <= aq_maxsize (wd_queue w);
  inv_accepting : wd_accepting w = true → None ∉ aq_items (wd_queue w);
  inv_closed : wd_accepting w = false →
    aq_items (wd_queue w) = [None] ∨ aq_items (wd_queue w) = []
}.

(** How the loop may end otherwise: its task is cancelled, an await never returns, or the step
    bound of the model is used up. It then holds at most one batch. *)
Definition interrupted (settings : Settings) (n : nat) (e : Exc) (w : World) : Prop :=
  match e with
  | ECancelled | EBlocked | EFuel =>
    ∃ D H n', (n <= n')%nat ∧ Z.of_nat (length H) <= Z.max 1 (st_max_batch_size settings) ∧
      inv D H n' w
  | _ => False
  end.

(** ** Lemmas *)

(** *** Steps that keep the invariant *)

(** A change of the requests alone. *)
Lemma inv_requests D H D' H' n w l r r' :
  inv D H n w → wd_requests w !! l = Some r →
  NoDup (waiting w ++ D' ++ H') → (∀ x, x ∈ D' ++ H' → x ∈ D ++ H) →
  (∀ x, x ∈ H → x ∈ H' ∨ x = l) →
  (∃ d, ir_future r' = Some d ∧ (ir_status r' = SCancelled → d = true)) →
  (l ∉ waiting w → l ∉ H' → done_ok r') →
  inv D' H' n (w <| wd_requests ::= <[l := r']> |>).
Proof.
  intros Hi Hl Hnd Hsub HH Hf Hd. split; simpl; try apply Hi; try done.
  - intros x Hx. change (waiting _) with (waiting w) in Hx. rewrite lookup_insert.
    destruct (decide (l = x)); [eauto|]. apply Hi. set_solver.
  - intros x rx. rewrite lookup_insert. destruct (decide (l = x)); [intros [= <-]; done|apply Hi].
  - intros x rx. change (waiting _) with (waiting w). rewrite lookup_insert.
    destruct (decide (l = x)) as [<-|Hne]; [intros [= <-]; auto|]. intros Hx Hw Hx'.
    apply (inv_done _ _ _ _ Hi x rx Hx Hw). intros HxH. destruct (HH x HxH); congruence.
Qed.
Lemma inv_perm D D' H H' n w : D ≡ₚ D' → H ≡ₚ H' → inv D H n w → inv D' H' n w.
Proof.
  intros HD HH Hi. split; try apply Hi.
  - rewrite <- HD, <- HH. apply Hi.
  - intros x. rewrite <- HD, <- HH. apply Hi.
  - intros x r Hx Hw. rewrite <- HH. by apply (inv_done _ _ _ _ Hi).
Qed.
(** A finished request may be treated as unfinished again, or let go. *)
Lemma inv_reopen l D H n w : inv (l :: D) H n w → inv D (l :: H) n w.
Proof.
  intros Hi. assert ((l :: D) ++ H ≡ₚ D ++ l :: H) as Hp by apply Permutation_middle.
  split; try apply Hi.
  - rewrite <- Hp. apply Hi.
  - intros x. rewrite <- Hp. apply Hi.
  - intros x r Hx Hw Hn. apply (inv_done _ _ _ _ Hi x r Hx Hw). set_solver.
Qed.
Lemma inv_release D D' H n w : inv (D ++ D') H n w → inv D' H n w.
Proof.
  intros Hi. split; try apply Hi.
  - pose proof (inv_nodup _ _ _ _ Hi) as Hn. rewrite !NoDup_app in *. set_solver.
  - intros x Hx. apply Hi. set_solver.
Qed.
Lemma inv_metrics D H n w m : inv D H n w → inv D H n (w <| wd_metrics := m |>).
Proof. intros Hi. by split; apply Hi. Qed.
Lemma inv_reading D H n w f : inv D H n w → inv D H n (w <| wd_readings ::= f |>).
Proof. intros Hi. by split; apply Hi. Qed.

(** *** Computations on a single request *)

Definition cancelledb (r : InferenceRequest) : bool := bool_decide (ir_status r = SCancelled).
Definition fut_ok (r : InferenceRequest) : Prop :=
  ∃ d, ir_future r = Some d ∧ (ir_status r = SCancelled → d = true).

(** [lh l P c Q]: [c] touches only the request at [l], the metrics and the clock, and raises
    nothing; from [P] it reaches [Q]. The static fields stay. *)
Definition lh {A} (l : loc) (P : InferenceRequest → Prop) (c : M A)
  (Q : A → InferenceRequest → Prop) : Prop :=
  ∀ w r, wd_requests w !! l = Some r → P r →
  ∃ a r' k m,
    c w = (inr a, w <| wd_requests ::= <[l := r']> |> <| wd_readings := k |> <| wd_metrics := m |>) ∧
    Q a r' ∧ static r' = static r.

Lemma world_id (w : World) l r :
  wd_requests w !! l = Some r →
  w <| wd_requests ::= <[l := r]> |> <| wd_readings := wd_readings w |>
    <| wd_metrics := wd_metrics w |> = w.
Proof. intros H. destruct w. unfold field_update. simpl in *. by rewrite insert_id. Qed.
Lemma lh_ret {A} l (a : A) (P : InferenceRequest → Prop) Q : (∀ r, P r → Q a r) → lh l P (mret a) Q.
Proof.
  intros H w r Hr HP. exists a, r, (wd_readings w), (wd_metrics w). split; [|auto].
  by rewrite world_id.
Qed.
Lemma lh_bind {A B} l (m : M A) (k : A → M B) P R Q :
  lh l P m R → (∀ a, lh l (R a) (k a) Q) → lh l P (m ≫= k) Q.
Proof.
  intros Hm Hk w r Hr HP. destruct (Hm w r Hr HP) as (a & r1 & k1 & m1 & Ec & HR & Hs).
  edestruct (Hk a) as (b & r2 & k2 & m2 & Eb & HQ & Hs2); [|exact HR|].
  2:{ exists b, r2, k2, m2. split; [|split; [done|congruence]].
      unfold mbind, M_bind. rewrite Ec. rewrite Eb. unfold field_update. simpl.
      by rewrite insert_insert_eq. }
  simpl. by rewrite lookup_insert_eq.
Qed.
Lemma lh_conseq {A} l (c : M A) (P P' : InferenceRequest → Prop) (Q Q' : A → InferenceRequest → Prop) :
  lh l P' c Q' → (∀ r, P r → P' r) → (∀ a r, Q' a r → Q a r) → lh l P c Q.
Proof.
  intros Hc HP HQ w r Hr HPr. destruct (Hc w r Hr (HP r HPr)) as (a & r' & k & m & ? & ? & ?).
  exists a, r', k, m. auto.
Qed.
Lemma lh_get l P : lh l P (get_request l) (λ a r, a = r ∧ P r).
Proof.
  intros w r Hr HP. exists r, r, (wd_readings w), (wd_metrics w). split; [|done].
  unfold get_request, gets, request_of. rewrite Hr. by rewrite world_id.
Qed.
Lemma lh_update l f P : (∀ r, static (f r) = static r) →
  lh l P (update_request l f) (λ _ r, ∃ r0, P r0 ∧ r = f r0).
Proof.
  intros Hs w r Hr HP. exists tt, (f r), (wd_readings w), (wd_metrics w).
  split; [|split; [by exists r|done]].
  unfold update_request, get_request, gets, set_request, modify, mbind, M_bind, request_of.
  rewrite Hr. by destruct w.
Qed.
Lemma lh_metrics l f P : lh l P (update_metrics f) (λ _ r, P r).
Proof.
  intros w r Hr HP. exists tt, r, (wd_readings w), (f (wd_metrics w)). split; [|done].
  unfold update_metrics, modify. destruct w. unfold field_update. simpl in *. by rewrite insert_id.
Qed.

Section logic.
Context (clock : nat → float) (script : nat → AwaitEvent) (settings : Settings).

Lemma lh_monotonic l P : lh l P (monotonic clock) (λ _ r, P r).
Proof.
  intros w r Hr HP. exists (clock (wd_readings w)), r, (S (wd_readings w)), (wd_metrics w).
  split; [|done]. unfold monotonic. destruct w. unfold field_update. simpl in *. by rewrite insert_id.
Qed.
Lemma lh_timed_out l P : lh l P (request_timed_out clock settings l) (λ _ r, P r).
Proof.
  unfold request_timed_out. eapply lh_bind; [apply lh_monotonic|]. intros now.
  eapply lh_bind; [apply lh_get|]. intros r0. apply lh_ret. by intros r [_ ?].
Qed.
Lemma lh_is_cancelled l P :
  lh l P (is_cancelled l) (λ c r, c = cancelledb r ∧ P r).
Proof.
  unfold is_cancelled. eapply lh_bind; [apply lh_get|]. intros r0. apply lh_ret.
  by intros r [-> ?].
Qed.
Lemma lh_completion_time l P : lh l P (completion_time clock l) (λ _ r, P r).
Proof.
  unfold completion_time. eapply lh_bind; [apply lh_get|]. intros r0. case_match.
  - apply lh_ret. by intros r [_ ?].
  - eapply lh_conseq; [apply lh_monotonic|intros r [_ HP]; exact HP|done].
Qed.

Definition finished_as (s : RequestStatus) (b : bool) (r : InferenceRequest) : Prop :=
  ir_status r = s ∧ ir_future r = Some true ∧ ir_metrics_recorded r = b.
Definition has_future (r : InferenceRequest) : Prop := ∃ d, ir_future r = Some d.
Lemma fut_ok_has r : fut_ok r → has_future r.
Proof. intros (d & ? & _). by exists d. Qed.
Lemma lh_finish l s e b :
  lh l (λ r, has_future r ∧ ir_metrics_recorded r = b) (finish clock l s e) (λ _, finished_as s b).
Proof.
  unfold finish. eapply lh_bind; [apply lh_completion_time|]. intros now.
  eapply lh_conseq; [apply lh_update; intros; apply ir_finish_static|intros r Hr; exact Hr|].
  intros _ r (r0 & [[d Hd] Hb] & ->). split_and!.
  - apply ir_finish_status.
  - by eapply ir_finish_future.
  - by rewrite ir_finish_recorded.
Qed.
Lemma lh_finish_any l s e :
  lh l has_future (finish clock l s e) (λ _ r, ir_status r = s ∧ ir_future r = Some true).
Proof.
  intros w r Hr Hf. destruct (lh_finish l s e (ir_metrics_recorded r) w r Hr (conj Hf eq_refl))
    as (a & r' & k & m & ? & (? & ? & _) & ?). by exists a, r', k, m.
Qed.
Lemma lh_record l P : (∀ r, P r → P (r <| ir_metrics_recorded := true |>)) →
  lh l P (record clock l) (λ _ r, P r ∧ ir_metrics_recorded r = true).
Proof.
  intros HP. unfold record. eapply lh_bind; [apply lh_get|]. intros r0.
  destruct (ir_metrics_recorded r0) eqn:E.
  { apply lh_ret. by intros r [-> ?]. }
  eapply (lh_bind _ _ _ _ (λ _ r, r0 = r ∧ P r)).
  { case_match; [apply lh_monotonic|by apply lh_ret]. }
  intros now w r Hr [-> HPr].
  exists tt, (r <| ir_metrics_recorded := true |>), (wd_readings w),
    (metrics_record now r (wd_metrics w)).2.
  split; [|by split; [split; [apply HP|]|]].
  unfold gets, mbind, M_bind. pose proof (metrics_record_request now r (wd_metrics w)) as Hm.
  destruct (metrics_record now r (wd_metrics w)) as [r' m']. simpl in Hm. subst r'. by destruct w.
Qed.
Lemma lh_finish_as_is l :
  lh l (λ r, ir_terminal r = true ∧ ir_metrics_recorded r = true ∧ fut_ok r) (finish_as_is clock l)
    (λ _, done_ok).
Proof.
  unfold finish_as_is. eapply lh_bind; [apply lh_get|]. intros r0 w r Hr (Heq & Ht & Hrec & Hf). subst r0.
  destruct (lh_finish l (ir_status r) (ir_error_message r) true w r Hr
    (conj (fut_ok_has _ Hf) Hrec))
    as (a & r' & k & m & Ec & (Hs & Hfu & Hre) & Hst).
  exists a, r', k, m. split; [done|]. split; [|done]. split_and!; [|done|by right].
  unfold ir_terminal in *. by rewrite Hs.
Qed.
Definition terminal_status (s : RequestStatus) : Prop := s ∈ TERMINAL_STATUSES.
Lemma ir_terminal_status r : ir_terminal r = true ↔ terminal_status (ir_status r).
Proof. apply bool_decide_eq_true. Qed.
(** [request.finish(status, ...)] followed by [metrics.record(request)]. *)
Lemma lh_finish_record l s e : terminal_status s →
  lh l fut_ok (finish clock l s e ≫= λ _, record clock l) (λ _, done_ok).
Proof.
  intros Hs. eapply lh_bind; [eapply lh_conseq; [apply lh_finish_any|apply fut_ok_has|intros a r H; exact H]|].
  intros a0.
  eapply lh_conseq; [apply (lh_record _ (λ r, ir_status r = s ∧ ir_future r = Some true))| |].
  - by intros r [? ?].
  - by intros r ?.
  - intros _ r [[<- ?] ?]. split_and!; [by apply ir_terminal_status|done|by right].
Qed.
Lemma lh_finish_rejected l e : lh l has_future (finish clock l SRejected e) (λ _, done_ok).
Proof.
  eapply lh_conseq; [apply lh_finish_any|done|]. intros _ r [Hs ?].
  split_and!; [|done|by left]. apply ir_terminal_status. rewrite Hs. unfold terminal_status. set_solver.
Qed.
Lemma lh_record_cancelled l :
  lh l (λ r, ir_status r = SCancelled ∧ fut_ok r) (record clock l) (λ _, done_ok).
Proof.
  eapply lh_conseq; [apply (lh_record _ (λ r, ir_status r = SCancelled ∧ ir_future r = Some true))| |].
  - by intros r [? ?].
  - intros r [Hs (d & Hd & Hc)]. split; [done|]. by rewrite Hc in Hd.
  - intros _ r [[Hs ?] ?]. split_and!; [|done|by right].
    apply ir_terminal_status. rewrite Hs. unfold terminal_status. set_solver.
Qed.
(** [metrics.record(request); request.finish(request.status, request.error_message)]. *)
Lemma lh_record_finish l :
  lh l (λ r, ir_terminal r = true ∧ fut_ok r) (record clock l ≫= λ _, finish_as_is clock l) (λ _, done_ok).
Proof.
  eapply lh_bind; [apply (lh_record _ (λ r, ir_terminal r = true ∧ fut_ok r)); by intros r [? ?]|].
  intros a0. eapply lh_conseq; [apply lh_finish_as_is| |done]. by intros r [[? ?] ?].
Qed.

(** *** From one request to the world *)

Lemma inv_held D l H n w : inv D (l :: H) n w → ∃ r, wd_requests w !! l = Some r ∧ fut_ok r.
Proof.
  intros Hi. destruct (inv_known _ _ _ _ Hi l) as [r Hr]; [set_solver|].
  exists r. split; [done|]. by apply (inv_future _ _ _ _ Hi l).
Qed.
Lemma inv_step D D' l H H' n w r' k m :
  inv D (l :: H) n w → fut_ok r' →
  (D' = D ∧ H' = l :: H ∨ D' = l :: D ∧ H' = H ∧ done_ok r') →
  inv D' H' n (w <| wd_requests ::= <[l := r']> |> <| wd_readings := k |> <| wd_metrics := m |>).
Proof.
  intros Hi Hf Hc. apply inv_metrics, (inv_reading _ _ _ _ (λ _, k)).
  destruct (inv_held _ _ _ _ _ Hi) as (r & Hr & _).
  assert (D' ++ H' ≡ₚ D ++ l :: H) as Hp
    by (destruct Hc as [[-> ->]|(-> & -> & _)]; [done|apply Permutation_middle]).
  apply (inv_requests D (l :: H) D' H' n w l r r' Hi Hr); try done.
  - rewrite Hp. apply Hi.
  - intros x. by rewrite Hp.
  - intros x. destruct Hc as [[-> ->]|(-> & -> & _)]; set_solver.
  - intros _. destruct Hc as [[-> ->]|(-> & -> & Hd)]; [set_solver|done].
Qed.
Lemma hoare_held {A} l P (c : M A) Q D H n E :
  lh l (λ r, fut_ok r ∧ P r) c (λ a r, fut_ok r ∧ Q a r) →
  hoare (λ w, inv D (l :: H) n w ∧ P (request_of l w)) c
    (λ a w, inv D (l :: H) n w ∧ Q a (request_of l w)) E.
Proof.
  intros Hc w [Hi HP]. destruct (inv_held _ _ _ _ _ Hi) as (r & Hr & Hf).
  unfold request_of in HP. rewrite Hr in HP.
  destruct (Hc w r Hr (conj Hf HP)) as (a & r' & k & m & -> & [Hf' HQ] & _).
  split; [apply (inv_step D _ l H _ n); auto|]. unfold request_of. simpl. by rewrite lookup_insert_eq.
Qed.
Lemma hoare_done {A} l P (c : M A) D H n E :
  lh l (λ r, fut_ok r ∧ P r) c (λ _, done_ok) →
  hoare (λ w, inv D (l :: H) n w ∧ P (request_of l w)) c (λ _, inv (l :: D) H n) E.
Proof.
  intros Hc w [Hi HP]. destruct (inv_held _ _ _ _ _ Hi) as (r & Hr & Hf).
  unfold request_of in HP. rewrite Hr in HP.
  destruct (Hc w r Hr (conj Hf HP)) as (a & r' & k & m & -> & Hd & _).
  apply (inv_step D _ l H _ n); [done| |by right]. destruct Hd as (_ & Hfu & _). by exists true.
Qed.
(** The same without a condition on the request. *)
Lemma hoare_held' {A} l (c : M A) D H n E :
  lh l fut_ok c (λ _, fut_ok) → hoare (inv D (l :: H) n) c (λ _, inv D (l :: H) n) E.
Proof.
  intros Hc. eapply hoare_conseq; [apply (hoare_held l (λ _, True) c (λ _ _, True) D H n E)| | |].
  - eapply lh_conseq; [exact Hc|by intros r [? _]|done].
  - done.
  - by intros a w [? _].
  - done.
Qed.
Lemma hoare_done' {A} l (c : M A) D H n E :
  lh l fut_ok c (λ _, done_ok) → hoare (inv D (l :: H) n) c (λ _, inv (l :: D) H n) E.
Proof.
  intros Hc. eapply hoare_conseq; [apply (hoare_done l (λ _, True) c D H n E)| |done|done].
  - eapply lh_conseq; [exact Hc|by intros r [? _]|done].
  - done.
Qed.
(** A change that keeps the future and the status, or sets a status that is not [SCancelled]. *)
Lemma lh_update_fut l f :
  (∀ r, static (f r) = static r ∧ ir_future (f r) = ir_future r ∧
     (ir_status (f r) = SCancelled → ir_status r = SCancelled)) →
  lh l fut_ok (update_request l f) (λ _, fut_ok).
Proof.
  intros Hf. eapply lh_conseq; [apply (lh_update l f fut_ok); intros; apply Hf|done|].
  intros _ r (r0 & (d & Hd & Hc) & ->). destruct (Hf r0) as (_ & H1 & H2). exists d.
  split; [congruence|auto].
Qed.
Lemma hoare_metrics f D H n E : hoare (inv D H n) (update_metrics f) (λ _, inv D H n) E.
Proof. apply hoare_modify. intros w Hi. by apply (inv_metrics _ _ _ _ (f (wd_metrics w))) in Hi. Qed.
Lemma hoare_gets_inv {A} (f : World → A) D H n E : hoare (inv D H n) (gets f) (λ _, inv D H n) E.
Proof. by intros w Hi. Qed.
Lemma hoare_monotonic D H n E : hoare (inv D H n) (monotonic clock) (λ _, inv D H n) E.
Proof. intros w Hi. by apply inv_reading. Qed.

(** *** The queue *)

Lemma hoare_task_done D H n E :
  hoare (inv D H (S n)) task_done (λ _, inv D H n) E.
Proof.
  intros w Hi. unfold task_done, gets, mbind, M_bind. pose proof (inv_count _ _ _ _ Hi) as Hc.
  destruct (Z.leb_spec (aq_unfinished (wd_queue w)) 0); [lia|]. unfold modify.
  split; simpl; try apply Hi. change (wd_queue (_ <| wd_queue ::= _ |>)) with (wd_queue w). lia.
Qed.
Lemma hoare_times_task_done k D H n E :
  hoare (inv D H (k + n)) (times k task_done) (λ _, inv D H n) E.
Proof.
  induction k as [|k IH]; simpl; [by apply hoare_ret|].
  eapply hoare_bind; [apply hoare_task_done|]. intros []. exact IH.
Qed.
Lemma hoare_task_done_if (b : bool) D H n E :
  hoare (inv D H ((if b then 1 else 0) + n)) (task_done_if b) (λ _, inv D H n) E.
Proof. destruct b; [apply hoare_task_done|by apply hoare_ret]. Qed.

Definition set_items (items : list (option loc)) (w : World) : World :=
  w <| wd_queue ::= λ q, q <| aq_items := items |> |>.
(** Taking the head of the queue. *)
Lemma inv_take D H n w l items :
  aq_items (wd_queue w) = Some l :: items → inv D H n w → inv D (l :: H) (S n) (set_items items w).
Proof.
  intros Hq Hi. assert (waiting w = l :: waiting (set_items items w)) as Hw
    by (unfold waiting; rewrite Hq; done).
  assert (waiting (set_items items w) ++ D ++ l :: H ≡ₚ waiting w ++ D ++ H) as Hp.
  { rewrite Hw. simpl. by rewrite <- !Permutation_middle. }
  split; simpl.
  - rewrite Hp. apply Hi.
  - intros x. rewrite Hp. apply Hi.
  - apply Hi.
  - intros x r Hx Hxw Hn. apply (inv_done _ _ _ _ Hi x r Hx); [rewrite Hw|]; set_solver.
  - pose proof (inv_count _ _ _ _ Hi) as Hc. rewrite Hq in Hc. simpl in *. lia.
  - intros Hm. pose proof (inv_size _ _ _ _ Hi Hm) as Hs. rewrite Hq in Hs. simpl in Hs. lia.
  - intros Ha. pose proof (inv_accepting _ _ _ _ Hi Ha) as Hn. rewrite Hq in Hn. set_solver.
  - intros Ha. destruct (inv_closed _ _ _ _ Hi Ha) as [Hc|Hc]; rewrite Hq in Hc; done.
Qed.
Lemma inv_take_sentinel D H n w items :
  aq_items (wd_queue w) = None :: items → inv D H n w →
  items = [] ∧ wd_accepting w = false ∧ inv D H (S n) (set_items [] w).
Proof.
  intros Hq Hi. assert (wd_accepting w = false) as Ha.
  { apply not_true_iff_false. intros Ha. apply (inv_accepting _ _ _ _ Hi Ha). rewrite Hq. left. }
  assert (items = []) as ->.
  { destruct (inv_closed _ _ _ _ Hi Ha) as [Hc|Hc]; rewrite Hq in Hc; congruence. }
  split; [done|]. split; [done|]. assert (waiting (set_items [] w) = waiting w) as Hw
    by (unfold waiting; rewrite Hq; done).
  split; rewrite ?Hw; simpl; try apply Hi.
  - pose proof (inv_count _ _ _ _ Hi) as Hc. rewrite Hq in Hc. simpl in *. lia.
  - lia.
  - intros ?. apply not_elem_of_nil.
  - by right.
Qed.

Lemma put_sentinel D H n w :
  inv D H n w → wd_accepting w = false → aq_items (wd_queue w) = [] →
  ∃ w', put_nowait None w = (inr tt, w') ∧ inv D H n w' ∧ wd_deferred w' = wd_deferred w.
Proof.
  intros Hi Ha Hq. unfold put_nowait, gets, mbind, M_bind.
  assert (queue_full (wd_queue w) = false) as ->.
  { unfold queue_full, qsize. rewrite Hq. simpl.
    destruct (Z.ltb_spec 0 (aq_maxsize (wd_queue w))); simpl; [|done]. apply Z.leb_gt. lia. }
  eexists. split; [done|]. split; [|done].
  match goal with |- inv _ _ _ ?w' => assert (waiting w' = waiting w) as Hw end.
  { unfold waiting. simpl. by rewrite omap_app, Hq. }
  pose proof (inv_count _ _ _ _ Hi) as Hc. rewrite Hq in Hc.
  split; rewrite ?Hw; simpl; rewrite ?Hq; simpl; try apply Hi; try done; try lia; try by left.
  - simpl in Hc. lia.
  - intros Ht. congruence.
Qed.

(** *** Other tasks *)

Definition reopened (w : World) : World := w <| wd_accepting := true |>.
Lemma drain_spec items fuel : (length items < fuel)%nat → ∀ k D H n w,
  aq_items (wd_queue w) = items → inv D H n (reopened w) →
  ∃ k' w', drain clock fuel k w = (inr k', w') ∧ inv D H n (reopened w') ∧
    aq_items (wd_queue w') = [] ∧ wd_accepting w' = wd_accepting w ∧ wd_deferred w' = wd_deferred w.
Proof.
  revert fuel. induction items as [|x items IH]; intros [|fuel] Hfuel k D H n w Hq Hi;
    simpl in Hfuel; try lia; cbn [drain].
  - exists k, w. split; [|done]. rewrite (bind_eq _ _ w None w); [done|].
    unfold get_nowait, gets, mbind, M_bind. by rewrite Hq.
  - destruct x as [l|].
    2:{ exfalso. apply (inv_accepting _ _ _ _ Hi eq_refl). simpl. rewrite Hq. left. }
    rewrite (bind_eq _ _ w (Some (Some l)) (set_items items w)).
    2:{ unfold get_nowait, gets, mbind, M_bind. by rewrite Hq. }
    assert (inv D (l :: H) (S n) (reopened (set_items items w))) as Hi1
      by exact (inv_take D H n (reopened w) l items Hq Hi).
    destruct (inv_held _ _ _ _ _ Hi1) as (r & Hr & Hf).
    destruct (lh_finish_rejected l "server is shutting down" (set_items items w) r Hr (fut_ok_has _ Hf))
      as (a & r' & k1 & m1 & Ec & Hd & _).
    rewrite (bind_eq _ _ _ a _ Ec).
    rewrite (bind_eq (update_metrics _) _ _ tt _ eq_refl).
    assert (fut_ok r') as Hf' by (exists true; by split; [apply Hd|]).
    pose proof (inv_step D (l :: D) l H H (S n) _ r' k1 m1 Hi1 Hf'
      ltac:(right; split_and!; done)) as Hi2.
    apply (inv_release [l] D), (inv_metrics _ _ _ _ (rejected false "service_shutting_down" m1)) in Hi2.
    match goal with |- context [(task_done ≫= _) ?w1] => set (w2 := w1) in * end.
    change (inv D H (S n) (reopened w2)) in Hi2.
    pose proof (hoare_task_done D H n never (reopened w2) Hi2) as Ht.
    assert (task_done w2 =
      (inr tt, w2 <| wd_queue ::= λ q, q <| aq_unfinished ::= λ n, n - 1 |> |>)) as Ew.
    { unfold task_done, gets, mbind, M_bind in *. change (wd_queue (reopened w2)) with (wd_queue w2) in Ht.
      destruct (aq_unfinished (wd_queue w2) <=? 0); [done|]. done. }
    rewrite (bind_eq _ _ _ _ _ Ew).
    assert (inv D H n (reopened (w2 <| wd_queue ::= λ q, q <| aq_unfinished ::= λ n, n - 1 |> |>)))
      as Hi3.
    { unfold task_done, gets, mbind, M_bind in Ht, Ew.
      change (wd_queue (reopened w2)) with (wd_queue w2) in Ht.
      destruct (aq_unfinished (wd_queue w2) <=? 0); [done|exact Ht]. }
    set (w3 := w2 <| wd_queue ::= _ |>) in *.
    destruct (IH fuel ltac:(lia) (k + 1) D H n w3 eq_refl Hi3)
      as (k' & w' & -> & ? & ? & Ha & Hdef).
    exists k', w'. split; [done|]. split; [done|]. split; [done|]. by rewrite Ha, Hdef.
Qed.
Lemma close_spec D H n w :
  inv D H n w →
  ∃ k w', close clock w = (inr k, w') ∧ inv D H n w' ∧ wd_deferred w' = wd_deferred w ∧
    wd_accepting w' = false ∧ (wd_accepting w = true → aq_items (wd_queue w') = [None]).
Proof.
  intros Hi. unfold close. rewrite (bind_eq (gets wd_accepting) _ w _ w eq_refl).
  destruct (wd_accepting w) eqn:Ha; cbn [negb]; [|by exists 0, w; rewrite Ha].
  rewrite (bind_eq (modify _) _ _ tt _ eq_refl), (bind_eq (gets _) _ _ _ _ eq_refl).
  assert (inv D H n (reopened (w <| wd_accepting := false |>))) as Hi1.
  { assert (reopened (w <| wd_accepting := false |>) = w) as ->; [|done].
    destruct w. simpl in Ha. by rewrite Ha. }
  match goal with |- context [drain clock ?f _] =>
    destruct (drain_spec _ f ltac:(apply Nat.lt_succ_diag_r) 0 D H n _ eq_refl Hi1)
      as (k & w' & E & Hi' & Hq & Hacc & Hdef) end.
  rewrite (bind_eq _ _ _ _ _ E).
  assert (inv D H n w') as Hi2.
  { split; try apply Hi'; simpl in Hacc; [congruence|by right]. }
  destruct (put_sentinel D H n w' Hi2 Hacc Hq) as (w2 & E2 & Hi3 & Hdef2).
  rewrite (bind_eq _ _ _ _ _ E2). exists k, w2. split; [done|]. split; [done|].
  split; [by rewrite Hdef2, Hdef|].
  unfold put_nowait, gets, mbind, M_bind in E2. case_match; [done|]. injection E2 as <-.
  split; [done|]. intros _. simpl. by rewrite Hq.
Qed.

(** A new request that is not queued is finished. *)
Lemma inv_new D H n w l r' k m :
  inv D H n w → wd_requests w !! l = None → done_ok r' →
  inv D H n (w <| wd_requests ::= <[l := r']> |> <| wd_readings := k |> <| wd_metrics := m |>).
Proof.
  intros Hi Hl Hd. apply inv_metrics, (inv_reading _ _ _ _ (λ _, k)). split; simpl; try apply Hi.
  - intros x Hx. change (waiting _) with (waiting w) in Hx. rewrite lookup_insert.
    destruct (decide (l = x)); [eauto|]. by apply Hi.
  - intros x r. rewrite lookup_insert. destruct (decide (l = x)); [|apply Hi].
    intros [= <-]. destruct Hd as (_ & Hf & _). by exists true.
  - intros x r. rewrite lookup_insert. change (waiting _) with (waiting w).
    destruct (decide (l = x)); [by intros [= <-]|apply Hi].
Qed.
Lemma inv_queued D H n w l r' k m size :
  inv D H n w → wd_requests w !! l = None → ir_future r' = Some false → ir_status r' = SQueued →
  wd_accepting w = true → queue_full (wd_queue w) = false →
  inv D H n (w <| wd_requests ::= <[l := r']> |> <| wd_readings := k |> <| wd_metrics := m |>
    <| wd_queue ::= λ q, q <| aq_items ::= λ items, items ++ [Some l] |>
                         <| aq_unfinished ::= λ n, n + 1 |> |>
    <| wd_max_observed_size := size |>).
Proof.
  intros Hi Hl Hf Hs Ha Hfull.
  match goal with |- inv _ _ _ ?w' => assert (waiting w' ≡ₚ l :: waiting w) as Hw end.
  { unfold waiting. simpl. rewrite omap_app. simpl. rewrite <- app_assoc. simpl.
    by rewrite Permutation_middle. }
  assert (l ∉ waiting w ++ D ++ H) as Hnew.
  { intros Hin. destruct (inv_known _ _ _ _ Hi l Hin). congruence. }
  pose proof (inv_count _ _ _ _ Hi) as Hc.
  split; simpl; rewrite ?length_app; simpl; try lia.
  - rewrite Hw. simpl. apply NoDup_cons. split; [done|apply Hi].
  - intros x. rewrite Hw. rewrite lookup_insert. destruct (decide (l = x)); [eauto|].
    intros Hx. apply Hi. set_solver.
  - intros x r. rewrite lookup_insert. destruct (decide (l = x)); [|apply Hi].
    intros [= <-]. exists false. by rewrite Hs.
  - intros x r. rewrite Hw, lookup_insert. destruct (decide (l = x)) as [<-|]; [set_solver|].
    intros Hx Hn Hh. apply (inv_done _ _ _ _ Hi x r Hx); set_solver.
  - intros Hm. unfold queue_full, qsize in Hfull. apply andb_false_iff in Hfull.
    rewrite Z.ltb_nlt, Z.leb_nle in Hfull. lia.
  - intros _. pose proof (inv_accepting _ _ _ _ Hi Ha). set_solver.
  - congruence.
Qed.
Lemma submit_spec D H n w l r :
  inv D H n w → wd_requests w !! l = None →
  let w' := snd (submit clock l (w <| wd_requests ::= <[l := r]> |>)) in
  inv D H n w' ∧ wd_deferred w' = wd_deferred w ∧ wd_accepting w' = wd_accepting w.
Proof.
  intros Hi Hl. set (w1 := w <| wd_requests ::= <[l := r]> |>). cbv zeta. unfold submit.
  assert (∀ r2 k2 m2, w1 <| wd_requests ::= <[l := r2]> |> <| wd_readings := k2 |> <| wd_metrics := m2 |>
    = w <| wd_requests ::= <[l := r2]> |> <| wd_readings := k2 |> <| wd_metrics := m2 |>) as Hw1.
  { intros r2 k2 m2. unfold w1, field_update. simpl. by rewrite insert_insert_eq. }
  assert (wd_requests w1 !! l = Some r) as Hl1 by (simpl; by rewrite lookup_insert_eq).
  assert (∀ r, static (r <| ir_future := Some false |>) = static r) as Hst by done.
  destruct (lh_update l _ (λ _, True) Hst w1 r Hl1 I)
    as (a & r1 & k1 & m1 & E1 & (r0 & _ & ->) & _).
  run_step E1. rewrite (bind_eq (gets wd_accepting) _ _ _ _ eq_refl).
  rewrite Hw1. set (r1 := r0 <| ir_future := Some false |>).
  set (w2 := w <| wd_requests ::= _ |> <| wd_readings := k1 |> <| wd_metrics := m1 |>).
  assert (wd_requests w2 !! l = Some r1) as Hl2 by (simpl; by rewrite lookup_insert_eq).
  assert (∀ r2 k2 m2, w2 <| wd_requests ::= <[l := r2]> |> <| wd_readings := k2 |> <| wd_metrics := m2 |>
    = w <| wd_requests ::= <[l := r2]> |> <| wd_readings := k2 |> <| wd_metrics := m2 |>) as Hw2.
  { intros r2 k2 m2. unfold w2, field_update. simpl. by rewrite insert_insert_eq. }
  change (wd_accepting w2) with (wd_accepting w).
  destruct (wd_accepting w) eqn:Ha; cbn [negb].
  - assert (∀ now, lh l (λ r, ir_future r = Some false)
      (update_request l (λ r, r <| ir_queued_at := now |> <| ir_status := SQueued |>))
      (λ _ r, ir_future r = Some false ∧ ir_status r = SQueued)) as Hqueue.
    { intros now. eapply lh_conseq; [by apply lh_update|intros r' Hr'; exact Hr'|].
      by intros _ r' (r'' & ? & ->). }
    destruct (lh_bind l (monotonic clock) _ _ _ _ (lh_monotonic l _) Hqueue w2 r1 Hl2 eq_refl)
      as (a2 & r2 & k2 & m2 & E2 & [Hf2 Hs2] & _).
    assert (∀ (K : M unit), (now ← monotonic clock;
      _ ← update_request l (λ r, r <| ir_queued_at := now |> <| ir_status := SQueued |>); K) w2 =
      K (w <| wd_requests ::= <[l := r2]> |> <| wd_readings := k2 |> <| wd_metrics := m2 |>)) as HK.
    { intros K. rewrite <- Hw2. revert E2. unfold mbind, M_bind.
      destruct (monotonic clock w2) as [[e|now] w3]; [done|]. by intros ->. }
    rewrite HK. unfold try_except. set (w3 := w <| wd_requests ::= <[l := r2]> |> <| wd_readings := _ |> <| wd_metrics := _ |>).
    destruct (queue_full (wd_queue w)) eqn:Hfull.
    + assert ((put_nowait (Some l) ≫= λ _, modify (λ w, w <| wd_max_observed_size ::=
        λ n, Z.max n (qsize (wd_queue w)) |>)) w3 = (inl EQueueFull, w3)) as ->.
      { unfold put_nowait, gets, mbind, M_bind. change (wd_queue w3) with (wd_queue w).
        by rewrite Hfull. }
      assert (wd_requests w3 !! l = Some r2) as Hl3 by (simpl; by rewrite lookup_insert_eq).
      destruct (lh_finish_rejected l "scheduler queue is full" w3 r2 Hl3
        (ex_intro _ false Hf2)) as (a4 & r4 & k4 & m4 & E4 & Hd4 & _).
      run_step E4. cbn [raise snd].
      split; [|by split].
      assert (w3 <| wd_requests ::= <[l:=r4]> |> <| wd_readings := k4 |> <| wd_metrics := m4 |> =
        w <| wd_requests ::= <[l:=r4]> |> <| wd_readings := k4 |> <| wd_metrics := m4 |>) as ->.
      { unfold w3, field_update. simpl. by rewrite insert_insert_eq. }
      by apply inv_new.
    + assert (∃ size, (put_nowait (Some l) ≫= λ _, modify (λ w, w <| wd_max_observed_size ::=
        λ n, Z.max n (qsize (wd_queue w)) |>)) w3 = (inr tt, w3 <| wd_queue ::= λ q,
          q <| aq_items ::= λ items, items ++ [Some l] |> <| aq_unfinished ::= λ n, n + 1 |> |>
          <| wd_max_observed_size := size |>)) as [size ->].
      { unfold put_nowait, gets, mbind, M_bind. change (wd_queue w3) with (wd_queue w).
        rewrite Hfull. by eexists. }
      split; [by apply inv_queued|by split].
  - destruct (lh_finish_rejected l "scheduler is shutting down" w2 r1 Hl2
      (ex_intro _ false eq_refl)) as (a4 & r4 & k4 & m4 & E4 & Hd4 & _).
    run_step E4. rewrite Hw2. cbn [raise snd]. split; [by apply inv_new|by split].
Qed.

Lemma cancel_spec D H n w l reason r :
  inv D H n w → wd_requests w !! l = Some r →
  let w' := snd (cancel clock l reason w) in
  inv D H n w' ∧ wd_deferred w' = wd_deferred w ∧ wd_accepting w' = wd_accepting w.
Proof.
  intros Hi Hl. cbv zeta. unfold cancel.
  rewrite (bind_eq (get_request l) _ w r w) by (unfold get_request, gets, request_of; by rewrite Hl).
  destruct (ir_terminal r) eqn:Ht; [done|].
  destruct (lh_finish_any l SCancelled reason w r Hl (fut_ok_has _ (inv_future _ _ _ _ Hi l r Hl)))
    as (a & r' & k & m & -> & [Hs Hf] & _). cbn [snd]. split; [|done].
  apply inv_metrics, (inv_reading _ _ _ _ (λ _, k)).
  apply (inv_requests D H D H n w l r r' Hi Hl); try done.
  - apply Hi.
  - by left.
  - by exists true.
  - intros Hw Hh. destruct (inv_done _ _ _ _ Hi l r Hl Hw Hh) as (Ht' & _). congruence.
Qed.
Lemma env_action_spec D H n a w :
  inv D H n w → inv D H n (env_action clock a w) ∧ wd_deferred (env_action clock a w) = wd_deferred w.
Proof.
  intros Hi. destruct a as [r|l reason|]; cbn [env_action].
  - assert (wd_requests w !! fresh (dom (wd_requests w)) = None) as Hl
      by apply not_elem_of_dom, is_fresh.
    by destruct (submit_spec D H n w _ r Hi Hl) as (? & ? & _).
  - destruct (wd_requests w !! l) as [r|] eqn:Hl; [|done].
    by destruct (cancel_spec D H n w l reason r Hi Hl) as (? & ? & _).
  - destruct (close_spec D H n w Hi) as (k & w' & -> & ? & ? & _). done.
Qed.
(** The invariant together with the deferred requests, which only the loop changes. *)
Definition invd (d : list loc) (D H : list loc) (n : nat) (w : World) : Prop :=
  inv D H n w ∧ wd_deferred w = d.
Lemma hoare_suspend d D H n :
  hoare (invd d D H n) (suspend clock script) (λ _, invd d D H n)
    (λ e w, e = ECancelled ∧ invd d D H n w).
Proof.
  intros w [Hi Hd]. unfold suspend.
  set (w0 := w <| wd_awaits ::= S |>). assert (invd d D H n w0) as H0 by (by split; [split; apply Hi|]).
  clearbody w0. clear Hi Hd. assert (∀ l w0, invd d D H n w0 →
    invd d D H n (foldl (λ w a, env_action clock a w) w0 l)) as Hall.
  { intros l. induction l as [|a l IH]; intros w1 [Hi Hd]; simpl; [done|]. apply IH.
    destruct (env_action_spec D H n a w1 Hi). split; [done|congruence]. }
  destruct (ev_cancelled (script (wd_awaits w))); [split; [done|]|]; by apply Hall.
Qed.
Lemma hoare_suspend_inv D H n :
  hoare (inv D H n) (suspend clock script) (λ _, inv D H n) (λ e w, e = ECancelled ∧ inv D H n w).
Proof.
  intros w Hi. pose proof (hoare_suspend _ D H n w (conj Hi eq_refl)) as Hs.
  destruct (suspend clock script w) as [[e|a] w']; [by destruct Hs as [? [? _]]|by destruct Hs].
Qed.
Lemma hoare_model_call {A} (outcome : AwaitEvent → string + A) D H n :
  hoare (inv D H n) (model_call clock script outcome) (λ _, inv D H n)
    (λ e w, (e = ECancelled ∨ ∃ m, e = EWorker m) ∧ inv D H n w).
Proof.
  unfold model_call. eapply hoare_bind.
  - eapply hoare_conseq; [apply hoare_suspend_inv|done|done|]. intros e w [-> ?]. auto.
  - intros ev. case_match; [apply hoare_raise; eauto|by apply hoare_ret].
Qed.

(** *** The executors *)

Lemma inv_done_perm D l H n w : inv D (l :: H) n w → inv D (H ++ [l]) n w.
Proof. apply inv_perm; [done|]. by rewrite Permutation_app_comm. Qed.
Lemma hoare_cancelled_done l D H n :
  hoare (λ w, inv D (l :: H) n w ∧ true = cancelledb (request_of l w))
    (record clock l) (λ _, inv (l :: D) H n) never.
Proof.
  apply (hoare_done l (λ r, true = cancelledb r)).
  eapply lh_conseq; [apply lh_record_cancelled| |done].
  intros r [? Hc]. split; [|done]. by apply eq_sym, bool_decide_eq_true in Hc.
Qed.
Lemma hoare_is_cancelled l D H n E :
  hoare (inv D (l :: H) n) (is_cancelled l)
    (λ c w, inv D (l :: H) n w ∧ c = cancelledb (request_of l w)) E.
Proof.
  eapply hoare_conseq;
    [apply (hoare_held l (λ _, True) _ (λ c r, c = cancelledb r))| | |].
  - eapply lh_conseq; [apply (lh_is_cancelled l fut_ok)|by intros r [? _]|]. by intros c r [? ?].
  - done.
  - done.
  - done.
Qed.
Lemma hoare_timed_out l D H n E :
  hoare (inv D (l :: H) n) (request_timed_out clock settings l) (λ _, inv D (l :: H) n) E.
Proof. apply hoare_held', lh_timed_out. Qed.
Lemma hoare_finish_timeout l D H n E :
  hoare (inv D (l :: H) n) (finish_timeout clock l) (λ _, inv (l :: D) H n) E.
Proof. apply hoare_done', lh_finish_record. unfold terminal_status. set_solver. Qed.

(** Copying a result and choosing the final status. *)
Lemma lh_final_status l (c : bool) P :
  lh l P (final_status clock settings l c)
    (λ s r, P r ∧ terminal_status s ∧ (s = SCancelled → c = true)).
Proof.
  unfold final_status. destruct c.
  - apply lh_ret. intros r ?. split; [done|]. split; [unfold terminal_status; set_solver|done].
  - eapply lh_bind; [apply lh_timed_out|]. intros late. apply lh_ret. intros r ?.
    split; [done|]. destruct late; (split; [unfold terminal_status; set_solver|done]).
Qed.
(** The rest of both executors after [cancelled] has been read. *)
Definition resolved_if (c : bool) (r : InferenceRequest) : Prop :=
  fut_ok r ∧ (c = true → ir_future r = Some true).
Lemma lh_conclude l c result at_ :
  lh l (resolved_if c)
    (_ ← update_request l (store_result result at_); status ← final_status clock settings l c;
     update_request l (λ r, r <| ir_status := status |>))
    (λ _ r, ir_terminal r = true ∧ fut_ok r).
Proof.
  eapply (lh_bind _ _ _ _ (λ _, resolved_if c)).
  { eapply lh_conseq; [by apply (lh_update l _ (resolved_if c))|done|].
    intros _ r (r0 & Hr0 & ->). exact Hr0. }
  intros a1. eapply lh_bind; [apply lh_final_status|]. intros status.
  eapply lh_conseq; [by apply lh_update|intros r Hr; exact Hr|].
  intros _ r (r0 & ([(d & Hd & _) Hres] & Ht & Hcs) & ->). split; [by apply ir_terminal_status|].
  exists d. split; [done|]. simpl. intros ->. specialize (Hres (Hcs eq_refl)). congruence.
Qed.
Lemma lh_resolved l :
  lh l fut_ok (is_cancelled l) (λ c, resolved_if c).
Proof.
  eapply lh_conseq; [apply lh_is_cancelled|done|]. intros c r [-> (d & Hd & Hs)].
  split; [by exists d|]. intros Ht%bool_decide_eq_true. by rewrite Hd, Hs.
Qed.

(** A step on a held request that ends with a terminal status. *)
Definition ended (l : loc) (D H : list loc) (n : nat) (w : World) : Prop :=
  inv D (l :: H) n w ∧ ir_terminal (request_of l w) = true.
Lemma hoare_ended {A} l (c : M A) D H n E :
  lh l fut_ok c (λ _ r, ir_terminal r = true ∧ fut_ok r) →
  hoare (inv D (l :: H) n) c (λ _, ended l D H n) E.
Proof.
  intros Hc. eapply hoare_conseq;
    [apply (hoare_held l (λ _, True) c (λ _ r, ir_terminal r = true) D H n E)| | |].
  - eapply lh_conseq; [exact Hc|by intros r [? _]|by intros a r [? ?]].
  - done.
  - done.
  - done.
Qed.
Lemma hoare_record_finish l D H n E :
  hoare (ended l D H n) (_ ← record clock l; finish_as_is clock l) (λ _, inv (l :: D) H n) E.
Proof.
  apply (hoare_done l (λ r, ir_terminal r = true)).
  eapply lh_conseq; [apply lh_record_finish|by intros r [? ?]|done].
Qed.
(** [request.status, request.error_message = FAILED, str(exc); request.completed_at = now]. *)
Lemma lh_fail l message :
  lh l fut_ok
    (_ ← update_request l (λ r, r <| ir_status := SFailed |> <| ir_error_message := message |>);
     now ← monotonic clock; update_request l (λ r, r <| ir_completed_at := now |>))
    (λ _ r, ir_terminal r = true ∧ fut_ok r).
Proof.
  eapply lh_bind; [by apply lh_update|]. intros a.
  eapply lh_bind; [apply lh_monotonic|]. intros now.
  eapply lh_conseq; [by apply lh_update|intros r Hr; exact Hr|].
  intros _ r (r0 & (r1 & (d & Hd & Hc) & ->) & ->). split; [by apply ir_terminal_status; unfold terminal_status; set_solver|].
  by exists d.
Qed.
Lemma hoare_process_one l n D :
  hoare (inv D [l] n) (process_one clock script settings l) (λ _, inv (l :: D) [] n) (interrupted settings n).
Proof.
  unfold process_one. eapply hoare_bind; [apply hoare_is_cancelled|]. intros [].
  { apply hoare_never, hoare_cancelled_done. }
  eapply hoare_bind; [eapply hoare_conseq; [apply hoare_timed_out|by intros w [? _]|done|done]|].
  intros []; [apply hoare_finish_timeout|].
  eapply hoare_bind; [apply hoare_monotonic|]. intros now.
  eapply hoare_bind; [apply hoare_held', lh_update_fut; by intros|]. intros [].
  eapply hoare_bind; [apply hoare_held', lh_update_fut; by intros|]. intros [].
  eapply hoare_bind; [apply hoare_metrics|]. intros [].
  eapply hoare_bind; [apply hoare_metrics|]. intros [].
  eapply (hoare_bind _ _ _ (λ _, ended l D [] n)); [|intros []; apply hoare_record_finish].
  apply (hoare_finally _ _ _ (λ _, ended l D [] n) _ _ (λ e w, e = ECancelled ∧ inv (l :: D) [] n w)).
  - eapply hoare_except.
    + eapply hoare_bind; [apply hoare_model_call|]. intros result.
      eapply hoare_conseq; [apply (hoare_ended l _ D [] n never)|done|done|done].
      eapply lh_bind; [apply lh_resolved|]. intros c.
      eapply lh_bind; [apply lh_completion_time|]. intros at_. apply lh_conclude.
    + intros e w [[->|[m ->]] Hi]; revert w Hi.
      * apply (hoare_bind2 _ _ _ _ (λ _, inv (l :: D) [] n)); [|intros a; by apply hoare_raise].
        apply hoare_done', lh_finish_record. unfold terminal_status. set_solver.
      * apply hoare_never, hoare_ended, lh_fail.
  - intros []. intros w [Hi Ht]. split; [by apply inv_metrics|exact Ht].
  - intros e w [-> Hi]. exists (l :: D), [], n. split; [lia|]. split; [simpl; lia|]. by apply inv_metrics.
Qed.

(** *** The batch executor *)

Lemma inv_reopen_all D1 D2 H n w : inv (D1 ++ D2) H n w → inv D2 (D1 ++ H) n w.
Proof.
  revert H. induction D1 as [|l D1 IH]; intros H Hi; [done|]. simpl in *.
  apply inv_reopen, IH in Hi. revert Hi. apply inv_perm; [done|]. by rewrite Permutation_middle.
Qed.
Lemma hoare_perm {A} D D' H H' n (c : M A) Q E :
  D ≡ₚ D' → H ≡ₚ H' → hoare (inv D' H' n) c Q E → hoare (inv D H n) c Q E.
Proof. intros HD HH Hc w Hi. apply Hc. by apply (inv_perm D D' H H'). Qed.
Lemma hoare_in {A} l (c : M A) D H n E :
  l ∈ H → lh l fut_ok c (λ _, fut_ok) → hoare (inv D H n) c (λ _, inv D H n) E.
Proof.
  intros (H1 & H2 & ->)%list_elem_of_split Hc.
  assert (H1 ++ l :: H2 ≡ₚ l :: H1 ++ H2) as Hp by (by rewrite Permutation_middle).
  eapply hoare_perm; [done|exact Hp|]. eapply hoare_post; [by apply hoare_held'|].
  intros a w. by apply inv_perm.
Qed.
Lemma hoare_for_each_done (f : loc → M unit) ls D H n E :
  (∀ l, lh l fut_ok (f l) (λ _, done_ok)) →
  hoare (inv D (ls ++ H) n) (for_each f ls) (λ _, inv (ls ++ D) H n) E.
Proof.
  intros Hf. revert D. induction ls as [|l ls IH]; intros D; simpl; [by apply hoare_ret|].
  eapply hoare_bind; [by apply hoare_done'|]. intros [].
  eapply hoare_post; [apply IH|]. intros a w. apply inv_perm; [|done]. by rewrite Permutation_middle.
Qed.

Lemma hoare_activate now batch D H n :
  hoare (inv D (batch ++ H) n) (activate_batch clock settings now batch)
    (λ active w, ∃ D', D' ++ active ≡ₚ D ++ batch ∧ inv D' (active ++ H) n w) never.
Proof.
  revert D H. induction batch as [|l batch IH]; intros D H; simpl.
  { apply hoare_ret. intros w Hi. by exists D. }
  assert (∀ D, hoare (inv (l :: D) (batch ++ H) n) (activate_batch clock settings now batch)
    (λ active w, ∃ D', D' ++ active ≡ₚ D ++ l :: batch ∧ inv D' (active ++ H) n w) never) as Hskip.
  { intros D1. eapply hoare_post; [apply IH|]. intros active w (D' & Hp & Hi). exists D'.
    split; [|done]. rewrite Hp. apply Permutation_middle. }
  eapply hoare_bind; [apply hoare_is_cancelled|]. intros [].
  { eapply hoare_bind; [apply hoare_cancelled_done|]. intros []. apply Hskip. }
  eapply hoare_bind; [eapply hoare_conseq; [apply hoare_timed_out|by intros w [? _]|done|done]|].
  intros [].
  { eapply hoare_bind; [apply hoare_finish_timeout|]. intros []. apply Hskip. }
  eapply hoare_bind; [apply hoare_held', lh_update_fut; by intros|]. intros [].
  eapply hoare_bind.
  - eapply hoare_perm; [done| |apply (IH D (l :: H))]. by rewrite Permutation_middle.
  - intros active. apply hoare_ret. intros w (D' & Hp & Hi). exists D'. split.
    + rewrite <- !Permutation_middle. by constructor.
    + revert Hi. apply inv_perm; [done|]. simpl. by rewrite Permutation_middle.
Qed.
(** The held request, with a condition on it. *)
Definition held (l : loc) (R : InferenceRequest → Prop) (D H : list loc) (n : nat) (w : World) : Prop :=
  inv D (l :: H) n w ∧ R (request_of l w).
Lemma status_set_ok c s r :
  resolved_if c r → terminal_status s → (s = SCancelled → c = true) →
  fut_ok (r <| ir_status := s |>) ∧ ir_terminal (r <| ir_status := s |>) = true.
Proof.
  intros [(d & Hd & _) Hres] Ht Hcs. split; [|by apply ir_terminal_status].
  exists d. split; [done|]. simpl. intros ->. specialize (Hres (Hcs eq_refl)). congruence.
Qed.
Lemma hoare_apply_results completed active results D H n :
  hoare (inv D (active ++ H) n) (apply_results clock settings completed active results)
    (λ _, inv (active ++ D) H n)
    (λ e w, (∃ m, e = EZip m) ∧ ∃ done rest, active ≡ₚ done ++ rest ∧ inv (done ++ D) (rest ++ H) n w).
Proof.
  revert D results. induction active as [|l active IH]; intros D [|result results]; simpl.
  - by apply hoare_ret.
  - apply hoare_raise. intros w Hi. split; [eauto|]. by exists [], [].
  - apply hoare_raise. intros w Hi. split; [eauto|]. by exists [], (l :: active).
  - eapply (hoare_bind _ _ _ (λ c, held l (resolved_if c) D (active ++ H) n)).
    { eapply hoare_conseq; [apply (hoare_held l (λ _, True) _ (λ c r, resolved_if c r))|done|intros c w Hc; exact Hc|intros e w He; exact He].
      eapply lh_conseq; [apply lh_resolved|by intros r [? _]|]. by intros c r [? ?]. }
    intros c. eapply (hoare_bind _ _ _ (λ _, held l (resolved_if c) D (active ++ H) n)).
    { apply (hoare_held l (resolved_if c) _ (λ _, resolved_if c)).
      eapply lh_conseq; [by apply (lh_update l _ (resolved_if c))|by intros r [_ ?]|].
      intros a r (r0 & Hr0 & ->). split; [apply Hr0|exact Hr0]. }
    intros a1. eapply (hoare_bind _ _ _ (λ s, held l (λ r, resolved_if c r ∧ terminal_status s ∧
      (s = SCancelled → c = true)) D (active ++ H) n)).
    { apply (hoare_held l (resolved_if c) _ (λ s r, resolved_if c r ∧ terminal_status s ∧
        (s = SCancelled → c = true))).
      eapply lh_conseq; [apply (lh_final_status l c (resolved_if c))|by intros r [_ ?]|].
      intros s r (Hr & ? & ?). split; [apply Hr|done]. }
    intros s. eapply (hoare_bind _ _ _ (λ _, ended l D (active ++ H) n)).
    { apply (hoare_held l (λ r, resolved_if c r ∧ terminal_status s ∧ (s = SCancelled → c = true))
        _ (λ _ r, ir_terminal r = true)).
      eapply lh_conseq; [by apply lh_update|intros r Hr; exact Hr|].
      intros _ r (r0 & (_ & Hres & Ht & Hcs) & ->). by apply status_set_ok with c. }
    intros a2. apply (hoare_bind2 _ _ _ _ (λ _, inv (l :: D) (active ++ H) n)).
    { apply hoare_never, hoare_record_finish. }
    intros a3. eapply hoare_conseq; [apply (IH (l :: D))|done| |].
    + intros a w. apply inv_perm; [|done]. by rewrite Permutation_middle.
    + intros e w (Hm & fin & rest & Hp & Hi). split; [done|]. exists (l :: fin), rest. split.
      * by rewrite Hp.
      * revert Hi. apply inv_perm; [|done]. by rewrite <- Permutation_middle.
Qed.

Lemma lh_fail_active message l : lh l fut_ok (fail_active clock message l) (λ _, done_ok).
Proof.
  unfold fail_active. eapply lh_bind; [by apply lh_update|]. intros a.
  eapply lh_bind; [apply lh_monotonic|]. intros now.
  eapply lh_bind; [by apply lh_update|]. intros a2.
  eapply lh_conseq; [apply lh_record_finish| |done].
  intros r (r0 & (r1 & (d & Hd & Hc) & ->) & ->).
  split; [by apply ir_terminal_status; unfold terminal_status; set_solver|]. by exists d.
Qed.
Lemma hoare_run_active active D n :
  hoare (inv D active n) (run_active clock script settings active) (λ _, inv (active ++ D) [] n)
    (interrupted settings n).
Proof.
  assert (∀ f E, (∀ l, lh l fut_ok (f l) (λ _, done_ok)) →
    hoare (inv D active n) (for_each f active) (λ _, inv (active ++ D) [] n) E) as Heach.
  { intros f E Hf. eapply hoare_perm; [done| |by apply (hoare_for_each_done f active D [] n)].
    by rewrite app_nil_r. }
  unfold run_active. apply (hoare_finally _ _ _ (λ _, inv (active ++ D) [] n) _ _
    (λ e w, e = ECancelled ∧ inv (active ++ D) [] n w)).
  - apply (hoare_except _ _ _ _ _ (λ e w,
      (e = ECancelled ∨ (∃ m, e = EWorker m) ∨ ∃ m, e = EZip m) ∧ inv D active n w)).
    + eapply hoare_bind.
      { eapply hoare_conseq; [apply hoare_model_call|done|done|]. intros e w [[?|?] ?]; auto. }
      intros results. eapply hoare_bind; [apply hoare_monotonic|]. intros completed.
      eapply hoare_conseq; [apply (hoare_apply_results completed active results D [] n)| |done|].
      { intros w. apply inv_perm; [done|]. by rewrite app_nil_r. }
      intros e w (Hm & fin & rest & Hp & Hi). split; [by right; right|].
      apply inv_reopen_all in Hi. revert Hi. apply inv_perm; [done|]. by rewrite app_nil_r, Hp.
    + intros e. apply hoare_pre. intros [->|[[m ->]|[m ->]]].
      * eapply hoare_bind; [apply Heach; intros l; apply lh_finish_record; unfold terminal_status; set_solver|].
        intros a. by apply hoare_raise.
      * apply Heach. apply lh_fail_active.
      * apply Heach. apply lh_fail_active.
  - intros a. apply hoare_metrics.
  - intros e w [-> Hi]. exists (active ++ D), [], n. split; [lia|]. split; [simpl; lia|]. by apply inv_metrics.
Qed.
Lemma hoare_process_batch batch n D :
  hoare (inv D batch n) (process_batch clock script settings batch) (λ _, inv (batch ++ D) [] n)
    (interrupted settings n).
Proof.
  unfold process_batch. eapply hoare_bind; [apply hoare_monotonic|]. intros now.
  eapply hoare_bind.
  { apply hoare_never. eapply hoare_perm; [done| |apply (hoare_activate now batch D [] n)].
    by rewrite app_nil_r. }
  intros active w (D' & Hp & Hi). rewrite app_nil_r in Hi. revert w Hi.
  match goal with |- ∀ w, _ → match ?c w with _ => _ end =>
    change (hoare (inv D' active n) c (λ _, inv (batch ++ D) [] n) (interrupted settings n)) end.
  apply (hoare_post _ _ _ (λ _, inv (active ++ D') [] n)).
  2:{ intros a w. apply inv_perm; [|done].
      by rewrite (Permutation_app_comm active D'), Hp, (Permutation_app_comm D batch). }
  destruct (Nat.eqb_spec (length active) 0) as [H0|H0].
  { apply hoare_ret. intros w Hi. apply length_zero_iff_nil in H0. by subst active. }
  eapply hoare_bind.
  { apply hoare_for_each. intros l Hl. apply (hoare_in l); [exact Hl|]. apply lh_update_fut. by intros. }
  intros []. eapply hoare_bind; [apply hoare_gets|]. intros requests.
  destruct (py_max _ _) as [ms|] eqn:Hmax.
  2:{ intros w [-> _]. exfalso. destruct active; [done|]. by simpl in Hmax. }
  intros w [_ Hi]. revert w Hi.
  match goal with |- ∀ w, _ → match ?c w with _ => _ end =>
    change (hoare (inv D' active n) c (λ _, inv (active ++ D') [] n) (interrupted settings n)) end.
  eapply hoare_bind; [apply hoare_metrics|]. intros [].
  eapply hoare_bind; [apply hoare_metrics|]. intros []. apply hoare_run_active.
Qed.

(** *** Collecting a batch *)

Lemma inv_defer l D H n w :
  inv D (l :: H) n w → inv D H n (w <| wd_deferred ::= λ d, d ++ [l] |>).
Proof.
  intros Hi. match goal with |- inv _ _ _ ?w' => set (w1 := w') end.
  assert (waiting w1 ++ D ++ H ≡ₚ waiting w ++ D ++ l :: H) as Hp.
  { unfold waiting, w1. simpl. rewrite <- !app_assoc. simpl. f_equiv. f_equiv.
    apply Permutation_middle. }
  split; try apply Hi.
  - rewrite Hp. apply Hi.
  - intros x. rewrite Hp. apply Hi.
  - intros x r Hx Hw Hh. apply (inv_done _ _ _ _ Hi x r Hx).
    + unfold waiting, w1 in *. simpl in Hw. set_solver.
    + unfold waiting, w1 in *. simpl in Hw. set_solver.
Qed.
Lemma inv_popleft l d D H n w :
  wd_deferred w = l :: d → inv D H n w → inv D (l :: H) n (w <| wd_deferred := d |>).
Proof.
  intros Hd Hi. match goal with |- inv _ _ _ ?w' => set (w1 := w') end.
  assert (waiting w ≡ₚ l :: waiting w1) as Hw.
  { unfold waiting, w1. simpl. rewrite Hd. by rewrite Permutation_middle. }
  assert (waiting w1 ++ D ++ l :: H ≡ₚ waiting w ++ D ++ H) as Hp
    by (rewrite Hw; simpl; by rewrite <- !Permutation_middle).
  split; try apply Hi.
  - rewrite Hp. apply Hi.
  - intros x. rewrite Hp. apply Hi.
  - intros x r Hx Hxw Hh. apply (inv_done _ _ _ _ Hi x r Hx); [rewrite Hw|]; set_solver.
Qed.
Lemma hoare_popleft D H n E :
  hoare (inv D H n) popleft
    (λ x w, match x with None => inv D H n w | Some l => inv D (l :: H) n w end) E.
Proof.
  intros w Hi. unfold popleft, gets, mbind, M_bind. destruct (wd_deferred w) as [|l d] eqn:Hd; [done|].
  by apply inv_popleft.
Qed.
Lemma hoare_get_nowait d D H n E :
  hoare (invd d D H n) get_nowait
    (λ x w, match x with
            | None => invd d D H n w
            | Some None => wd_accepting w = false ∧ aq_items (wd_queue w) = [] ∧ invd d D H (S n) w
            | Some (Some l) => invd d D (l :: H) (S n) w
            end) E.
Proof.
  intros w [Hi Hd]. unfold get_nowait, gets, mbind, M_bind.
  destruct (aq_items (wd_queue w)) as [|[l|] items] eqn:Hq; cbn.
  - done.
  - split; [by apply inv_take|done].
  - destruct (inv_take_sentinel _ _ _ _ _ Hq Hi) as (-> & Ha & Hi'). split; [done|]. by split.
Qed.
Lemma invd_inv d D H n w : invd d D H n w → inv D H n w.
Proof. by intros [? _]. Qed.
Lemma hoare_drop_deferred {A} (c : M A) D H n Q (Q' : A → World → Prop) E :
  (∀ d, hoare (invd d D H n) c (Q d) E) → (∀ d a w, Q d a w → Q' a w) →
  hoare (inv D H n) c Q' E.
Proof.
  intros Hc HQ w Hi. specialize (Hc _ w (conj Hi eq_refl)).
  destruct (c w) as [[e|a] w']; [done|]. by eapply HQ.
Qed.
Definition interrupted_here (D H : list loc) (n : nat) (e : Exc) (w : World) : Prop :=
  (e = ECancelled ∨ e = EBlocked) ∧ inv D H n w.
Lemma hoare_queue_wait D H n :
  hoare (inv D H n) (queue_wait clock script)
    (λ x w, match x with
            | None => inv D H n w
            | Some None => wd_accepting w = false ∧ aq_items (wd_queue w) = [] ∧ inv D H (S n) w
            | Some (Some l) => inv D (l :: H) (S n) w
            end) (interrupted_here D H n).
Proof.
  apply hoare_drop_deferred with (Q := λ d x w, match x with
            | None => invd d D H n w
            | Some None => wd_accepting w = false ∧ aq_items (wd_queue w) = [] ∧ invd d D H (S n) w
            | Some (Some l) => invd d D (l :: H) (S n) w
            end).
  - intros d. unfold queue_wait. eapply hoare_bind.
    + eapply hoare_conseq; [apply (hoare_suspend d)|done|intros a w Ha; exact Ha|].
      intros e w [-> [? _]]. by split; [left|].
    + intros ev. destruct (ev_timeout ev); [by apply hoare_ret|]. apply hoare_get_nowait.
  - intros d [[l|]|] w; [apply invd_inv|intros (? & ? & ?%invd_inv); done|apply invd_inv].
Qed.

Lemma hoare_consider first l (b : bool) D n batch E :
  hoare (inv D (l :: bc_requests batch) ((if b then 1 else 0) + (bc_queued_items batch + n)))
    (consider clock settings true first l b batch)
    (λ r w, r.1 = false ∧ inv D (bc_requests r.2) (bc_queued_items r.2 + n) w) E.
Proof.
  assert (∀ m, hoare (inv (l :: D) (bc_requests batch) ((if b then 1 else 0) + (bc_queued_items batch + n)))
      (_ ← task_done_if b; mret (false, batch))
      (λ r w, r.1 = false ∧ inv D (bc_requests r.2) (bc_queued_items r.2 + n) w) m) as Hskip.
  { intros m. eapply hoare_bind; [apply hoare_task_done_if|]. intros a. apply hoare_ret.
    intros w Hi. split; [done|]. by apply (inv_release [l] D). }
  unfold consider. eapply hoare_bind; [apply hoare_timed_out|]. intros [].
  { eapply hoare_bind; [apply hoare_finish_timeout|]. intros a. apply Hskip. }
  eapply hoare_bind; [apply hoare_is_cancelled|]. intros [].
  { eapply hoare_bind; [apply hoare_never, hoare_cancelled_done|]. intros a. apply Hskip. }
  eapply hoare_bind; [eapply hoare_conseq; [apply hoare_gets|by intros w [? _]|done|done]|]. intros r.
  eapply hoare_bind; [eapply hoare_conseq; [apply hoare_gets|by intros w [_ ?]|done|done]|]. intros r0.
  destruct (compatible r r0 && _).
  - apply hoare_ret. intros w [_ Hi]. split; [done|]. simpl.
    replace (bc_queued_items batch + (if b then 1 else 0) + n)%nat
      with ((if b then 1 else 0) + (bc_queued_items batch + n))%nat by lia.
    revert Hi. apply inv_perm; [done|]. by rewrite Permutation_app_comm.
  - cbn [negb]. eapply hoare_bind.
    + apply (hoare_modify _ _ (λ _, inv D (bc_requests batch) ((if b then 1 else 0) + (bc_queued_items batch + n)))).
      intros w [_ Hi]. by apply inv_defer.
    + intros a. eapply hoare_bind; [apply hoare_task_done_if|]. intros a2. by apply hoare_ret.
Qed.
End logic.

(** *** What a batch contains *)

(** The requests [w] knows, with their static fields. *)
Definition extends (w w' : World) : Prop :=
  ∀ l r, wd_requests w !! l = Some r → ∃ r', wd_requests w' !! l = Some r' ∧ static r' = static r.
#[export] Instance extends_preorder : PreOrder extends.
Proof.
  split; [intros w l r Hr; by exists r|]. intros w1 w2 w3 H12 H23 l r Hr.
  destruct (H12 l r Hr) as (r2 & Hr2 & Hs2). destruct (H23 l r2 Hr2) as (r3 & Hr3 & Hs3).
  exists r3. split; [done|congruence].
Qed.
Definition keeps {A} (c : M A) : Prop := ∀ w, extends w (c w).2.
Lemma keeps_bind {A B} (m : M A) (k : A → M B) : keeps m → (∀ a, keeps (k a)) → keeps (m ≫= k).
Proof.
  intros Hm Hk w. specialize (Hm w). unfold mbind, M_bind.
  destruct (m w) as [[e|a] w1]; [done|]. etrans; [exact Hm|apply Hk].
Qed.
Lemma keeps_ret {A} (a : A) : keeps (mret a).
Proof. intros w. done. Qed.
Lemma keeps_raise {A} e : keeps (raise (A := A) e).
Proof. intros w. done. Qed.
Lemma keeps_gets {A} (f : World → A) : keeps (gets f).
Proof. intros w. done. Qed.
Lemma keeps_modify f : (∀ w, wd_requests (f w) = wd_requests w) → keeps (modify f).
Proof. intros Hf w l r Hr. exists r. simpl. by rewrite Hf. Qed.
Lemma keeps_update l f : (∀ r, static (f r) = static r) → keeps (update_request l f).
Proof.
  intros Hf w x r Hx. unfold update_request, get_request, set_request, gets, modify, mbind, M_bind,
    request_of. simpl. rewrite lookup_insert. destruct (decide (l = x)) as [<-|]; [|eauto].
  rewrite Hx. simpl. eauto.
Qed.
Lemma keeps_except {A} (body : M A) handler :
  keeps body → (∀ e, keeps (handler e)) → keeps (try_except body handler).
Proof.
  intros Hb Hh w. specialize (Hb w). unfold try_except. destruct (body w) as [[e|a] w1]; [|done].
  etrans; [exact Hb|apply Hh].
Qed.
Lemma keeps_for_each {X} (f : X → M unit) xs : (∀ x, keeps (f x)) → keeps (for_each f xs).
Proof.
  intros Hf. induction xs as [|x xs IH]; simpl; [apply keeps_ret|].
  apply keeps_bind; [apply Hf|intros a; exact IH].
Qed.

Section keeping.
Context (clock : nat → float) (script : nat → AwaitEvent) (settings : Settings).

Lemma keeps_monotonic : keeps (monotonic clock).
Proof. intros w l r Hr. by exists r. Qed.
Lemma keeps_metrics f : keeps (update_metrics f).
Proof. by apply keeps_modify. Qed.
Lemma keeps_put x : keeps (put_nowait x).
Proof. apply keeps_bind; [apply keeps_gets|]. intros q. case_match; [apply keeps_raise|by apply keeps_modify]. Qed.
Lemma keeps_task_done : keeps task_done.
Proof. apply keeps_bind; [apply keeps_gets|]. intros q. case_match; [apply keeps_raise|by apply keeps_modify]. Qed.
Lemma keeps_get_nowait : keeps get_nowait.
Proof.
  apply keeps_bind; [apply keeps_gets|]. intros q. destruct (aq_items q); [apply keeps_ret|].
  apply keeps_bind; [by apply keeps_modify|]. intros a. apply keeps_ret.
Qed.
Lemma keeps_record l : keeps (record clock l).
Proof.
  intros w x r Hx. unfold record, get_request, gets, mbind, M_bind.
  destruct (ir_metrics_recorded (request_of l w)); [by exists r|].
  assert (∀ now, static (metrics_record now (request_of l w) (wd_metrics w)).1 = static (request_of l w)) as Hs
    by (intros now; by rewrite metrics_record_request).
  assert (∀ now w1, wd_requests w1 = wd_requests w → ∃ r', wd_requests ((let '(r', m') :=
      metrics_record now (request_of l w) (wd_metrics w) in
      λ w, (inr tt, w <| wd_requests ::= <[l := r']> |> <| wd_metrics := m' |>) : (Exc + unit) * World) w1).2 !! x
      = Some r' ∧ static r' = static r) as Hset.
  { intros now w1 Hw1. specialize (Hs now). destruct (metrics_record _ _ _) as [r' m']. simpl in *.
    rewrite Hw1, lookup_insert. destruct (decide (l = x)) as [<-|]; [|eauto].
    exists r'. split; [done|]. rewrite Hs. unfold request_of. by rewrite Hx. }
  case_bool_decide; cbn.
  - specialize (Hset (clock (wd_readings w)) (w <| wd_readings ::= S |>) eq_refl).
    change (wd_metrics (w <| wd_readings ::= S |>)) with (wd_metrics w).
    destruct (metrics_record _ _ _) as [r' m']. exact Hset.
  - specialize (Hset f_zero w eq_refl). destruct (metrics_record _ _ _) as [r' m']. exact Hset.
Qed.
Lemma keeps_finish l s e : keeps (finish clock l s e).
Proof.
  apply keeps_bind.
  - apply keeps_bind; [apply keeps_gets|]. intros r. case_match; [apply keeps_ret|apply keeps_monotonic].
  - intros now. apply keeps_update. intros r. apply ir_finish_static.
Qed.
Lemma keeps_finish_timeout l : keeps (finish_timeout clock l).
Proof. apply keeps_bind; [apply keeps_finish|]. intros a. apply keeps_record. Qed.
Lemma keeps_timed_out l : keeps (request_timed_out clock settings l).
Proof.
  apply keeps_bind; [apply keeps_monotonic|]. intros now. apply keeps_bind; [apply keeps_gets|].
  intros r. apply keeps_ret.
Qed.
Lemma keeps_is_cancelled l : keeps (is_cancelled l).
Proof. apply keeps_bind; [apply keeps_gets|]. intros r. apply keeps_ret. Qed.
Lemma keeps_task_done_if b : keeps (task_done_if b).
Proof. destruct b; [apply keeps_task_done|apply keeps_ret]. Qed.
Lemma keeps_submit l : keeps (submit clock l).
Proof.
  apply keeps_bind; [by apply keeps_update|]. intros a. apply keeps_bind; [apply keeps_gets|].
  intros acc. destruct (negb acc).
  - apply keeps_bind; [apply keeps_finish|]. intros b. apply keeps_raise.
  - apply keeps_bind; [apply keeps_monotonic|]. intros now. apply keeps_bind; [by apply keeps_update|].
    intros b. apply keeps_except.
    + apply keeps_bind; [apply keeps_put|]. intros c. by apply keeps_modify.
    + intros []; try apply keeps_raise. apply keeps_bind; [apply keeps_finish|]. intros c. apply keeps_raise.
Qed.
Lemma keeps_drain fuel n : keeps (drain clock fuel n).
Proof.
  revert n. induction fuel as [|fuel IH]; intros n; simpl; [apply keeps_raise|].
  apply keeps_bind; [apply keeps_get_nowait|]. intros [[l|]|]; [| |apply keeps_ret].
  - apply keeps_bind; [apply keeps_finish|]. intros a. apply keeps_bind; [apply keeps_metrics|].
    intros b. apply keeps_bind; [apply keeps_task_done|]. intros c. apply IH.
  - apply keeps_bind; [apply keeps_task_done|]. intros a. apply IH.
Qed.
Lemma keeps_close : keeps (close clock).
Proof.
  apply keeps_bind; [apply keeps_gets|]. intros acc. destruct (negb acc); [apply keeps_ret|].
  apply keeps_bind; [by apply keeps_modify|]. intros a. apply keeps_bind; [apply keeps_gets|].
  intros items. apply keeps_bind; [apply keeps_drain|]. intros n.
  apply keeps_bind; [apply keeps_put|]. intros b. apply keeps_ret.
Qed.
Lemma extends_env a w : extends w (env_action clock a w).
Proof.
  destruct a as [r|l reason|]; cbn [env_action].
  - set (l := fresh _). etrans; [|apply (keeps_submit l)]. intros x rx Hx. exists rx. split; [|done].
    simpl. rewrite lookup_insert_ne; [done|]. intros <-. apply (is_fresh (dom (wd_requests w))).
    apply elem_of_dom. by exists rx.
  - destruct (wd_requests w !! l) as [r|]; [|done].
    assert (keeps (cancel clock l reason)) as Hc; [|apply Hc].
    apply keeps_bind; [apply keeps_gets|]. intros r'. case_match; [apply keeps_ret|apply keeps_finish].
  - apply keeps_close.
Qed.
Lemma keeps_suspend : keeps (suspend clock script).
Proof.
  intros w. unfold suspend. set (w0 := w <| wd_awaits ::= S |>).
  assert (extends w w0) as H0 by (intros l r Hr; by exists r).
  assert (∀ l w1, extends w w1 → extends w (foldl (λ w a, env_action clock a w) w1 l)) as Hall.
  { intros l. induction l as [|a l IH]; intros w1 H1; simpl; [done|]. apply IH.
    etrans; [exact H1|apply extends_env]. }
  case_match; by apply Hall.
Qed.
Lemma keeps_popleft : keeps popleft.
Proof.
  apply keeps_bind; [apply keeps_gets|]. intros [|l d]; [apply keeps_ret|].
  apply keeps_bind; [by apply keeps_modify|]. intros a. apply keeps_ret.
Qed.
Lemma keeps_queue_wait : keeps (queue_wait clock script).
Proof.
  apply keeps_bind; [apply keeps_suspend|]. intros ev.
  destruct (ev_timeout ev); [apply keeps_ret|apply keeps_get_nowait].
Qed.

(** The batch collected so far. *)
Record good (first : loc) (b : BatchCollection) (w : World) : Prop := {
  good_first : ∃ rest, bc_requests b = first :: rest;
  good_known : ∀ l, l ∈ bc_requests b → is_Some (wd_requests w !! l);
  good_compatible : ∀ l, l ∈ tail (bc_requests b) →
    compatible (request_of l w) (request_of first w) = true;
  good_total : bc_total_estimated_tokens b = zsum (λ l, cost (request_of l w)) (bc_requests b);
  good_tokens : tail (bc_requests b) ≠ [] →
    bc_total_estimated_tokens b <= st_max_total_batch_tokens settings;
  good_size : Z.of_nat (length (bc_requests b)) <= Z.max 1 (st_max_batch_size settings)
}.
Lemma request_of_extends w w' l :
  extends w w' → is_Some (wd_requests w !! l) → static (request_of l w') = static (request_of l w).
Proof.
  intros He [r Hr]. destruct (He l r Hr) as (r' & Hr' & Hs). unfold request_of. by rewrite Hr, Hr'.
Qed.
Lemma static_cost r r' : static r' = static r → cost r' = cost r.
Proof. unfold static, cost. intros [= _ -> _ -> _]. done. Qed.
Lemma static_compatible r r' q q' :
  static r' = static r → static q' = static q → compatible r' q' = compatible r q.
Proof. unfold static, compatible. intros [= _ -> -> _ _] [= _ -> -> _ _]. done. Qed.
Lemma good_extends first b w w' : extends w w' → good first b w → good first b w'.
Proof.
  intros He [Hf Hk Hc Ht Htok Hs]. split; try done.
  - intros l Hl. destruct (Hk l Hl) as [r Hr]. destruct (He l r Hr) as (r' & ? & _). by exists r'.
  - intros l Hl. destruct Hf as [rest Hf]. rewrite <- (Hc l Hl).
    apply static_compatible; apply request_of_extends; try done; apply Hk; rewrite Hf in *; set_solver.
  - rewrite Ht. apply zsum_ext. intros l Hl. symmetry. by apply static_cost, request_of_extends, Hk.
Qed.
Definition considering (first l : loc) (b : BatchCollection) (w : World) : Prop :=
  good first b w ∧ is_Some (wd_requests w !! l).
Lemma considering_keeps {A} (c : M A) first l b :
  keeps c → hoare (considering first l b) c (λ _, considering first l b) anyhow.
Proof.
  intros Hc w [Hg [r Hr]]. specialize (Hc w). destruct (c w) as [[e|a] w']; [done|].
  split; [by eapply good_extends|]. destruct (Hc l r Hr) as (r' & ? & _). by exists r'.
Qed.
Lemma good_keeps {A} (c : M A) first b : keeps c → hoare (good first b) c (λ _, good first b) anyhow.
Proof.
  intros Hc w Hg. specialize (Hc w). destruct (c w) as [[e|a] w']; [done|]. by eapply good_extends.
Qed.
Lemma consider_good first l q b :
  batch_has_room settings b = true →
  hoare (considering first l b) (consider clock settings true first l q b)
    (λ r w, good first r.2 w) anyhow.
Proof.
  intros Hroom. assert (hoare (considering first l b) (_ ← task_done_if q; mret (false, b))
    (λ r w, good first r.2 w) anyhow) as Hskip.
  { eapply hoare_bind; [apply considering_keeps, keeps_task_done_if|].
    intros a. apply hoare_ret. by intros w [? _]. }
  unfold consider. eapply hoare_bind; [apply considering_keeps, keeps_timed_out|]. intros [].
  { eapply hoare_bind; [apply considering_keeps, keeps_finish_timeout|]. intros a. exact Hskip. }
  eapply hoare_bind; [apply considering_keeps, keeps_is_cancelled|]. intros [].
  { eapply hoare_bind; [apply considering_keeps, keeps_record|]. intros a. exact Hskip. }
  eapply hoare_bind; [apply hoare_gets|]. intros r.
  eapply hoare_bind; [apply hoare_gets|]. intros r0. destruct (compatible r r0 && _) eqn:Hfit.
  - apply hoare_ret. intros w (-> & -> & [Hf Hk Hc Ht Htok Hs] & Hl). apply andb_true_iff in Hfit as [Hcomp Hle%Z.leb_le].
    destruct Hf as [rest Hf]. unfold batch_has_room in Hroom. apply Z.ltb_lt in Hroom.
    split; cbn [snd bc_requests bc_total_estimated_tokens]; rewrite ?Hf; cbn [app tail].
    + by exists (rest ++ [l]).
    + intros x. rewrite Hf in Hk. set_solver.
    + intros x [Hx| ->%list_elem_of_singleton]%elem_of_app; [apply Hc; by rewrite Hf|done].
    + rewrite app_comm_cons, <- Hf, zsum_app, Ht, zsum_cons.
      change (zsum _ []) with 0. lia.
    + intros _. lia.
    + rewrite Hf in Hroom. cbn [length] in *. rewrite length_app. cbn [length]. lia.
  - cbn [negb]. eapply (hoare_bind _ _ _ (λ _, considering first l b)); [|intros a; exact Hskip].
    apply hoare_modify. intros w (_ & _ & Hg & Hl). split; [|exact Hl].
    apply (good_extends first b w); [|exact Hg]. intros x r' Hx. by exists r'.
Qed.
(** The invariant of a collection. *)
Definition collecting (first : loc) (D : list loc) (n : nat) (b : BatchCollection) (w : World) : Prop :=
  inv D (bc_requests b) (bc_queued_items b + n) w ∧ good first b w.
Lemma collecting_consider first l (q : bool) D n b E :
  batch_has_room settings b = true →
  hoare (λ w, inv D (l :: bc_requests b) ((if q then 1 else 0) + (bc_queued_items b + n)) w ∧ good first b w)
    (consider clock settings true first l q b)
    (λ r w, r.1 = false ∧ collecting first D n r.2 w) E.
Proof.
  intros Hroom. eapply hoare_conseq.
  - apply hoare_and; [apply (hoare_consider clock settings first l q D n b E)|by apply consider_good].
  - intros w [Hi Hg]. split; [done|]. split; [done|]. apply (inv_known _ _ _ _ Hi). set_solver.
  - by intros r w [[? ?] ?].
  - done.
Qed.
Lemma collecting_interrupted first D n b w e :
  collecting first D n b w → e = ECancelled ∨ e = EBlocked ∨ e = EFuel → interrupted settings n e w.
Proof.
  intros [Hi Hg] He. assert (∃ D H n', (n <= n')%nat ∧
    Z.of_nat (length H) <= Z.max 1 (st_max_batch_size settings) ∧ inv D H n' w) as Hx.
  { exists D, (bc_requests b), (bc_queued_items b + n)%nat. split; [lia|].
    split; [apply (good_size _ _ _ Hg)|exact Hi]. }
  by destruct He as [->|[->| ->]].
Qed.
Lemma collecting_scan_deferred first k D n b :
  hoare (collecting first D n b) (scan_deferred clock settings first k b)
    (collecting first D n) (interrupted settings n).
Proof.
  revert b. induction k as [|k IH]; intros b; simpl; [by apply hoare_ret|].
  destruct (batch_has_room settings b) eqn:Hroom; cbn [negb]; [|by apply hoare_ret].
  eapply hoare_bind.
  { apply hoare_and; [apply hoare_popleft|]. apply good_keeps.
    apply keeps_popleft. }
  intros [l|].
  - eapply hoare_bind; [by apply (collecting_consider first l false)|]. intros [stop b']. cbn [fst snd].
    apply hoare_pre. intros ->. apply IH.
  - apply hoare_raise. intros w Hw. apply (collecting_interrupted first D n b); auto.
Qed.
Lemma collecting_wait first D n b :
  hoare (collecting first D n b) (queue_wait clock script)
    (λ x w, match x with
            | None => inv D (bc_requests b) (bc_queued_items b + n) w
            | Some None => wd_accepting w = false ∧ aq_items (wd_queue w) = [] ∧
                inv D (bc_requests b) (S (bc_queued_items b + n)) w
            | Some (Some l) => inv D (l :: bc_requests b) (S (bc_queued_items b + n)) w
            end ∧ good first b w) (interrupted settings n).
Proof.
  intros w [Hi Hg].
  pose proof (hoare_queue_wait clock script D (bc_requests b) (bc_queued_items b + n) w Hi) as H1.
  pose proof (keeps_queue_wait w) as H2. destruct (queue_wait clock script w) as [[e|x] w'].
  - destruct H1 as [He H1]. apply (collecting_interrupted first D n b).
    + split; [done|]. by eapply good_extends.
    + destruct He; auto.
  - split; [done|]. by eapply good_extends.
Qed.
Lemma collecting_scan_queue fuel deadline first D n b :
  hoare (collecting first D n b) (scan_queue clock script settings fuel true deadline first b)
    (collecting first D n) (interrupted settings n).
Proof.
  revert b. induction fuel as [|fuel IH]; intros b; cbn [scan_queue].
  { apply hoare_raise. intros w Hw. apply (collecting_interrupted first D n b); auto. }
  destruct (batch_has_room settings b) eqn:Hroom; cbn [negb]; [|by apply hoare_ret].
  eapply hoare_bind; [apply hoare_and; [apply hoare_monotonic|apply good_keeps, keeps_monotonic]|].
  intros now. destruct (f_leb _ _); [by apply hoare_ret|].
  eapply hoare_bind; [apply collecting_wait|].
  intros [[l|]|].
  - eapply hoare_bind; [by apply (collecting_consider first l true)|]. intros [stop b']. cbn [fst snd].
    apply hoare_pre. intros ->. apply IH.
  - intros w [(Ha & Hq & Hi) Hg]. pose proof (hoare_task_done _ _ _ never w Hi) as Ht.
    pose proof (good_keeps task_done first b keeps_task_done w Hg) as Hg1.
    destruct (task_done w) as [[e|[]] w1] eqn:E1; [done|]. rewrite (bind_eq _ _ _ _ _ E1).
    assert (wd_accepting w1 = false ∧ aq_items (wd_queue w1) = []) as [Ha1 Hq1].
    { unfold task_done, gets, mbind, M_bind in E1. case_match; [done|]. by injection E1 as <-. }
    destruct (put_sentinel _ _ _ w1 Ht Ha1 Hq1) as (w2 & E2 & Hi2 & _).
    pose proof (good_keeps (put_nowait None) first b (keeps_put None) w1 Hg1) as Hg2. rewrite E2 in Hg2.
    by rewrite (bind_eq _ _ _ _ _ E2).
  - by apply hoare_ret.
Qed.
Lemma collecting_collect_batch fuel first D n :
  hoare (inv D [first] n) (collect_batch clock script settings fuel true first)
    (collecting first D n) (interrupted settings n).
Proof.
  unfold collect_batch. eapply hoare_bind; [apply hoare_monotonic|]. intros started.
  eapply hoare_bind; [apply hoare_gets|]. intros r. cbv zeta.
  eapply hoare_bind; [apply hoare_gets|]. intros deferred.
  eapply hoare_bind.
  { eapply hoare_conseq; [apply (collecting_scan_deferred first _ D n (mkBatch [first] 0 (cost r)))| | |].
    - intros w (_ & -> & Hi). split; [exact Hi|]. split; cbn.
      + by exists [].
      + intros l ->%list_elem_of_singleton. apply (inv_known _ _ _ _ Hi). set_solver.
      + by intros l ?%not_elem_of_nil.
      + unfold zsum. simpl. lia.
      + done.
      + lia.
    - done.
    - done. }
  intros b1. eapply hoare_bind; [apply collecting_scan_queue|]. intros b.
  eapply hoare_bind; [apply hoare_and; [apply hoare_monotonic|apply good_keeps, keeps_monotonic]|].
  intros now. apply (hoare_bind _ _ _ (λ _, collecting first D n b)); [|intros a; by apply hoare_ret].
  apply hoare_and.
  - apply hoare_for_each. intros l Hl. apply (hoare_in l); [done|]. apply lh_update_fut. by intros.
  - apply good_keeps, keeps_for_each. intros l. by apply keeps_update.
Qed.
End keeping.

Section loop.
Context (clock : nat → float) (script : nat → AwaitEvent) (settings : Settings).

(** *** The loop *)

Lemma interrupted_finally n k e :
  hoare (interrupted settings (k + n) e) (times k task_done) (λ _, interrupted settings n e)
    (interrupted settings n).
Proof.
  assert (∀ D H n', (k + n <= n')%nat →
    hoare (inv D H n') (times k task_done) (λ _, inv D H (n' - k)) never) as Ht.
  { intros D H n' Hle. eapply hoare_conseq; [apply (hoare_times_task_done k D H (n' - k))| |done|done].
    intros w. by replace (k + (n' - k))%nat with n' by lia. }
  intros w Hw. assert (∃ D H n', (k + n <= n')%nat ∧
    Z.of_nat (length H) <= Z.max 1 (st_max_batch_size settings) ∧ inv D H n' w)
    as (D & H & n' & Hle & Hlen & Hi) by (by destruct e).
  pose proof (Ht D H n' Hle w Hi) as Hc. destruct (times k task_done w) as [[e'|[]] w']; [done|].
  assert (∃ D H n', (n <= n')%nat ∧ Z.of_nat (length H) <= Z.max 1 (st_max_batch_size settings) ∧
    inv D H n' w') by (exists D, H, (n' - k)%nat; split; [lia|done]).
  by destruct e.
Qed.
Lemma interrupted_finally_if n (b : bool) e :
  hoare (interrupted settings ((if b then 1 else 0) + n) e) (task_done_if b) (λ _, interrupted settings n e)
    (interrupted settings n).
Proof.
  destruct b; [|by apply hoare_ret]. pose proof (interrupted_finally n 1 e) as Hf.
  intros w Hw. specialize (Hf w Hw). simpl in Hf. unfold mbind, M_bind in Hf. simpl.
  by destruct (task_done w) as [[?|[]] ?].
Qed.
Lemma hoare_reject_deferred d D n q b :
  hoare (λ w, inv D [] n w ∧ wd_deferred w = d ∧ wd_queue w = q ∧ wd_accepting w = b)
    (for_each (λ l, _ ← popleft; _ ← finish clock l SRejected "server is shutting down";
                update_metrics (rejected false "service_shutting_down")) d)
    (λ _ w, inv D [] n w ∧ wd_deferred w = [] ∧ wd_queue w = q ∧ wd_accepting w = b) never.
Proof.
  induction d as [|l d IH]; cbn [for_each]; [by apply hoare_ret|].
  apply (hoare_bind _ _ _ (λ _ w, inv D [] n w ∧ wd_deferred w = d ∧ wd_queue w = q ∧
    wd_accepting w = b)); [|intros []; exact IH].
  intros w (Hi & Hd & Hq & Hb). assert (popleft w = (inr (Some l), w <| wd_deferred := d |>)) as E
    by (unfold popleft, gets, mbind, M_bind; by rewrite Hd).
  rewrite (bind_eq _ _ _ _ _ E). pose proof (inv_popleft _ _ _ _ _ _ Hd Hi) as Hi1.
  destruct (inv_held _ _ _ _ _ Hi1) as (r & Hr & Hf).
  destruct (lh_finish_rejected clock l "server is shutting down" _ r Hr (fut_ok_has _ Hf))
    as (a & r' & k & m & E2 & Hdone & _).
  rewrite (bind_eq _ _ _ _ _ E2). cbn. split; [|by split_and!].
  assert (fut_ok r') as Hf' by (exists true; by split; [apply Hdone|]).
  pose proof (inv_step D (l :: D) l [] [] n _ r' k m Hi1 Hf' ltac:(right; split_and!; done)) as Hi2.
  apply (inv_release [l] D) in Hi2.
  by apply (inv_metrics _ _ _ _ (rejected false "service_shutting_down" m)) in Hi2.
Qed.
Lemma hoare_queue_get d D n :
  hoare (invd d D [] n) (queue_get clock script)
    (λ x w, match x with
            | None => wd_accepting w = false ∧ aq_items (wd_queue w) = [] ∧ invd d D [] (S n) w
            | Some l => invd d D [l] (S n) w
            end) (interrupted settings n).
Proof.
  unfold queue_get. eapply hoare_bind.
  - eapply hoare_conseq; [apply (hoare_suspend clock script d)|done|intros a w Ha; exact Ha|].
    intros e w [-> [Hi _]]. exists D, [], n. split; [lia|]. split; [simpl; lia|done].
  - intros ev. eapply hoare_bind; [apply hoare_get_nowait|]. intros [[l|]|].
    + by apply hoare_ret.
    + by apply hoare_ret.
    + apply hoare_raise. intros w [Hi _]. exists D, [], n. split; [lia|]. split; [simpl; lia|done].
Qed.
Lemma hoare_work fuel first D n :
  hoare (inv D [first] n)
    (if st_dynamic_batch settings then
       collection ← collect_batch clock script settings fuel true first;
       try_finally (process_batch clock script settings (bc_requests collection))
         (times (bc_queued_items collection) task_done)
     else process_one clock script settings first)
    (λ _, inv D [] n) (interrupted settings n).
Proof.
  destruct (st_dynamic_batch settings).
  - eapply hoare_bind; [apply collecting_collect_batch|]. intros b.
    eapply hoare_finally; [eapply hoare_conseq; [apply hoare_process_batch|by intros w [? _]|done|done]| |].
    + intros a. eapply hoare_post; [apply hoare_times_task_done|].
      intros a2 w. apply (inv_release (bc_requests b) D).
    + intros e. apply interrupted_finally.
  - eapply hoare_post; [apply hoare_process_one|]. intros a w. apply (inv_release [first] D).
Qed.
(** Between two rounds the loop holds nothing. *)
Lemma hoare_round fuel :
  hoare (inv [] [] 0) (scheduler_round clock script settings fuel)
    (λ stop w, inv [] [] 0 w ∧
       (stop = true → wd_accepting w = false ∧ aq_items (wd_queue w) = [] ∧ wd_deferred w = []))
    (interrupted settings 0).
Proof.
  intros w Hi. unfold scheduler_round.
  rewrite (bind_eq (gets wd_accepting) _ w _ w eq_refl), (bind_eq (gets wd_deferred) _ w _ w eq_refl).
  destruct (negb (wd_accepting w) && negb (length (wd_deferred w) =? 0)%nat) eqn:Hrej.
  { pose proof (hoare_reject_deferred (wd_deferred w) [] 0 _ _ w
      (conj Hi (conj eq_refl (conj eq_refl eq_refl)))) as Hr.
    unfold reject_deferred. unfold mbind, M_bind, gets in *.
    destruct (for_each _ _ w) as [[e|[]] w']; [done|]. by split; [apply Hr|]. }
  assert (∀ (from_queue : bool) l w,
    inv [] [l] (if from_queue then 1 else 0) w →
    match (_ ← try_finally
             (if st_dynamic_batch settings then
                collection ← collect_batch clock script settings fuel true l;
                try_finally (process_batch clock script settings (bc_requests collection))
                  (times (bc_queued_items collection) task_done)
              else process_one clock script settings l)
             (task_done_if from_queue);
           mret false) w with
    | (inr stop, w') => inv [] [] 0 w' ∧ (stop = true → wd_accepting w' = false ∧
        aq_items (wd_queue w') = [] ∧ wd_deferred w' = [])
    | (inl e, w') => interrupted settings 0 e w'
    end) as Hwork.
  { intros b l. change (hoare (inv [] [l] (if b then 1 else 0)) (_ ← try_finally
             (if st_dynamic_batch settings then
                collection ← collect_batch clock script settings fuel true l;
                try_finally (process_batch clock script settings (bc_requests collection))
                  (times (bc_queued_items collection) task_done)
              else process_one clock script settings l)
             (task_done_if b); mret false)
      (λ stop w', inv [] [] 0 w' ∧ (stop = true → wd_accepting w' = false ∧
        aq_items (wd_queue w') = [] ∧ wd_deferred w' = [])) (interrupted settings 0)).
    apply (hoare_bind _ _ _ (λ _, inv [] [] 0)); [|intros []; apply hoare_ret; by split].
    eapply hoare_finally; [apply hoare_work| |].
    - intros a. pose proof (hoare_task_done_if b [] [] 0 (interrupted settings 0)) as Ht.
      by replace ((if b then 1 else 0) + 0)%nat with (if b then 1 else 0)%nat in Ht by (by destruct b).
    - intros e. pose proof (interrupted_finally_if 0 b e) as Ht.
      by replace ((if b then 1 else 0) + 0)%nat with (if b then 1 else 0)%nat in Ht by (by destruct b). }
  destruct (Nat.eqb_spec (length (wd_deferred w)) 0) as [H0|H0].
  - assert (wd_deferred w = []) as Hd by (by apply nil_length_inv).
    pose proof (hoare_queue_get [] [] 0 w (conj Hi Hd)) as Hg.
    destruct (queue_get clock script w) as [[e|[l|]] w1] eqn:E.
    + unfold mbind at 1, M_bind at 1. by rewrite E.
    + rewrite (bind_eq _ _ _ _ _ E). destruct Hg as [Hg _]. by apply (Hwork true).
    + rewrite (bind_eq _ _ _ _ _ E). destruct Hg as (Ha & Hq & Hg & Hd1).
      pose proof (hoare_task_done [] [] 0 never w1 Hg) as Ht.
      destruct (task_done w1) as [[e|[]] w2] eqn:E2; [done|]. rewrite (bind_eq _ _ _ _ _ E2).
      cbn. split; [done|]. intros _. unfold task_done, gets, mbind, M_bind in E2.
      case_match; [done|]. by injection E2 as <-.
  - destruct (wd_deferred w) as [|l d] eqn:Hd; [done|].
    assert (popleft w = (inr (Some l), w <| wd_deferred := d |>)) as E
      by (unfold popleft, gets, mbind, M_bind; by rewrite Hd).
    rewrite (bind_eq _ _ _ _ _ E). apply (Hwork false). by apply inv_popleft.
Qed.
Lemma hoare_run fuel :
  hoare (inv [] [] 0) (run_scheduler clock script settings fuel)
    (λ _ w, inv [] [] 0 w ∧ wd_accepting w = false ∧ aq_items (wd_queue w) = [] ∧ wd_deferred w = [])
    (interrupted settings 0).
Proof.
  induction fuel as [|fuel IH]; cbn [run_scheduler].
  { apply hoare_raise. intros w Hi. exists [], [], 0%nat. split; [lia|]. split; [simpl; lia|done]. }
  eapply hoare_bind; [apply hoare_round|]. intros [].
  - apply hoare_ret. intros w [Hi Hs]. split; [done|]. by apply Hs.
  - eapply hoare_conseq; [exact IH|by intros w [? _]|done|done].
Qed.
Lemma queue_init_inv maximum sample_limit : inv [] [] 0 (RequestQueue_init maximum sample_limit).
Proof.
  split; simpl; try done.
  - apply NoDup_nil_2.
  - by intros l ?%not_elem_of_nil.
  - lia.
  - intros _. apply not_elem_of_nil.
Qed.

(** *** After [close] *)

(** The other tasks cannot change a closed queue. *)
Lemma env_action_closed D H n a w :
  inv D H n w → wd_accepting w = false →
  wd_queue (env_action clock a w) = wd_queue w ∧ wd_accepting (env_action clock a w) = false.
Proof.
  intros Hi Ha. destruct a as [r|l reason|]; cbn [env_action].
  - set (l := fresh _). unfold submit. set (w1 := w <| wd_requests ::= <[l := r]> |>).
    assert (wd_requests w1 !! l = Some r) as Hl1 by (simpl; by rewrite lookup_insert_eq).
    assert (∀ r, static (r <| ir_future := Some false |>) = static r) as Hst by done.
    destruct (lh_update l _ (λ _, True) Hst w1 r Hl1 I) as (a & r1 & k1 & m1 & E1 & (r0 & _ & ->) & _).
    run_step E1. rewrite (bind_eq (gets wd_accepting) _ _ _ _ eq_refl).
    set (w2 := w1 <| wd_requests ::= _ |> <| wd_readings := k1 |> <| wd_metrics := m1 |>).
    assert (wd_accepting w2 = false) as Ha2 by exact Ha. rewrite Ha2. cbn [negb].
    assert (wd_requests w2 !! l = Some (r0 <| ir_future := Some false |>)) as Hl2
      by (simpl; by rewrite lookup_insert_eq).
    destruct (lh_finish_rejected clock l "scheduler is shutting down" w2 _ Hl2 (ex_intro _ false eq_refl))
      as (a4 & r4 & k4 & m4 & E4 & _). run_step E4. by split.
  - destruct (wd_requests w !! l) as [r|] eqn:Hl; [|done]. unfold cancel.
    rewrite (bind_eq (get_request l) _ w r w) by (unfold get_request, gets, request_of; by rewrite Hl).
    destruct (ir_terminal r); [done|].
    destruct (lh_finish_any clock l SCancelled reason w r Hl (fut_ok_has _ (inv_future _ _ _ _ Hi l r Hl)))
      as (a & r' & k & m & -> & _). done.
  - unfold close. rewrite (bind_eq (gets wd_accepting) _ w _ w eq_refl), Ha. done.
Qed.
Lemma suspend_closed D H n w d :
  invd d D H n w → wd_accepting w = false → (∀ i, ev_cancelled (script i) = false) →
  ∃ ev w', suspend clock script w = (inr ev, w') ∧ invd d D H n w' ∧
    wd_queue w' = wd_queue w ∧ wd_accepting w' = false.
Proof.
  intros Hi Ha Hs. pose proof (hoare_suspend clock script d D H n w Hi) as Hh. revert Hh. unfold suspend.
  rewrite Hs. set (w0 := w <| wd_awaits ::= S |>). intros Hh. do 2 eexists. split; [done|].
  split; [exact Hh|]. clear Hh.
  assert (inv D H n w0) as Hi0 by (destruct Hi as [Hi _]; split; apply Hi).
  assert (wd_queue w0 = wd_queue w ∧ wd_accepting w0 = false) as H0 by done.
  clearbody w0. generalize dependent w0. generalize (ev_actions (script (wd_awaits w))) as l.
  intros l. induction l as [|x l IH]; intros w0 Hi0 [Hq0 Ha0]; simpl; [done|].
  destruct (env_action_closed D H n x w0 Hi0 Ha0). destruct (env_action_spec clock D H n x w0 Hi0).
  apply IH; [done|]. split; [congruence|done].
Qed.
Lemma round_closed fuel w :
  inv [] [] 0 w → wd_accepting w = false → aq_items (wd_queue w) = [None] → wd_deferred w = [] →
  (∀ i, ev_cancelled (script i) = false) →
  ∃ w', scheduler_round clock script settings fuel w = (inr true, w').
Proof.
  intros Hi Ha Hq Hd Hs. unfold scheduler_round.
  rewrite (bind_eq (gets wd_accepting) _ w _ w eq_refl), (bind_eq (gets wd_deferred) _ w _ w eq_refl).
  rewrite Ha, Hd. cbn [negb length Nat.eqb andb].
  destruct (suspend_closed [] [] 0 w [] (conj Hi Hd) Ha Hs) as (ev & w1 & E1 & [Hi1 Hd1] & Hq1 & Ha1).
  assert (queue_get clock script w = (inr None, set_items [] w1)) as E.
  { unfold queue_get. rewrite (bind_eq _ _ _ _ _ E1). unfold get_nowait, gets, mbind, M_bind.
    by rewrite Hq1, Hq. }
  rewrite (bind_eq _ _ _ _ _ E). rewrite <- Hq1 in Hq.
  destruct (inv_take_sentinel _ _ _ _ [] Hq Hi1) as (_ & _ & Hi2).
  pose proof (hoare_task_done [] [] 0 never _ Hi2) as Ht.
  destruct (task_done (set_items [] w1)) as [[e|[]] w2] eqn:E2; [done|].
  rewrite (bind_eq _ _ _ _ _ E2). by exists w2.
Qed.
Lemma round_rejects fuel w :
  inv [] [] 0 w → wd_accepting w = false → aq_items (wd_queue w) = [None] → wd_deferred w ≠ [] →
  ∃ w', scheduler_round clock script settings fuel w = (inr false, w') ∧ inv [] [] 0 w' ∧
    wd_accepting w' = false ∧ aq_items (wd_queue w') = [None] ∧ wd_deferred w' = [].
Proof.
  intros Hi Ha Hq Hd. unfold scheduler_round.
  rewrite (bind_eq (gets wd_accepting) _ w _ w eq_refl), (bind_eq (gets wd_deferred) _ w _ w eq_refl).
  rewrite Ha. destruct (wd_deferred w) as [|l0 d0] eqn:Hdef; [done|]. cbn [negb length Nat.eqb andb].
  rewrite <- Hdef in *. pose proof (hoare_reject_deferred (wd_deferred w) [] 0 _ _ w
    (conj Hi (conj eq_refl (conj eq_refl eq_refl)))) as Hr.
  unfold reject_deferred. unfold mbind, M_bind, gets in *.
  destruct (for_each _ _ w) as [[e|[]] w']; [done|]. destruct Hr as (? & ? & Hq' & ?).
  exists w'. split; [done|]. rewrite Hq'. split_and!; first [done|congruence].
Qed.
End loop.

(** ** Properties *)

(** C14: the batching loop loses no request. Whatever the other tasks submit, cancel or close while it
    waits, and however the model behaves: when the loop ends, the service was closed, nothing is
    queued or deferred, every task of the queue is accounted for, and every request ever
    submitted has a terminal status and a resolved future, and is in the metrics unless it was
    rejected. Otherwise the loop is still running, or its task was cancelled; then each request is
    either finished like that, or waiting in the queue or the deferred list, or among the at most
    one batch of requests the loop holds. No [task_done] fails and no other exception escapes. *)
Theorem scheduler_loses_nothing clock script settings fuel maximum sample_limit :
  match run_scheduler clock script settings fuel (RequestQueue_init maximum sample_limit) with
  | (inr tt, w) =>
    wd_accepting w = false ∧ aq_items (wd_queue w) = [] ∧ aq_unfinished (wd_queue w) = 0 ∧
    wd_deferred w = [] ∧ ∀ l r, wd_requests w !! l = Some r → done_ok r
  | (inl e, w) =>
    (e = ECancelled ∨ e = EBlocked ∨ e = EFuel) ∧
    ∃ held, NoDup (waiting w ++ held) ∧
      Z.of_nat (length held) <= Z.max 1 (st_max_batch_size settings) ∧
      ∀ l r, wd_requests w !! l = Some r → done_ok r ∨ l ∈ waiting w ∨ l ∈ held
  end.
Proof.
  pose proof (hoare_run clock script settings fuel _ (queue_init_inv maximum sample_limit)) as Hr.
  destruct (run_scheduler _ _ _ _ _) as [[e|[]] w].
  - assert ((e = ECancelled ∨ e = EBlocked ∨ e = EFuel) ∧ ∃ D H n', (0 <= n')%nat ∧
      Z.of_nat (length H) <= Z.max 1 (st_max_batch_size settings) ∧ inv D H n' w)
      as [He (D & H & n' & _ & Hlen & Hi)]
      by (destruct e; try done; (split; [auto|exact Hr])).
    split; [done|]. exists H. split; [|split; [done|]].
    + pose proof (inv_nodup _ _ _ _ Hi) as Hn. rewrite !NoDup_app in *. set_solver.
    + intros l r Hl. destruct (decide (l ∈ waiting w)), (decide (l ∈ H)); eauto.
      left. by apply (inv_done _ _ _ _ Hi l).
  - destruct Hr as (Hi & Ha & Hq & Hd). split_and!; try done.
    + rewrite (inv_count _ _ _ _ Hi), Hq. done.
    + intros l r Hl. apply (inv_done _ _ _ _ Hi l); [done| |apply not_elem_of_nil].
      unfold waiting. rewrite Hq, Hd. apply not_elem_of_nil.
Qed.

(** C23: shutdown ends the loop. Once [close] has been called between two rounds, the loop needs at most
    two more rounds, whatever other tasks still call, unless its task is cancelled. *)
Theorem scheduler_shutdown_terminates clock script settings fuel w :
  inv [] [] 0 w → wd_accepting w = true → (∀ i, ev_cancelled (script i) = false) →
  ∃ w', run_scheduler clock script settings (S (S fuel)) (env_action clock EnvClose w) = (inr tt, w').
Proof.
  intros Hi Ha Hs. destruct (close_spec clock [] [] 0 w Hi) as (k & w1 & E & Hi1 & _ & Ha1 & Hq1).
  cbn [env_action]. rewrite E. cbn [snd]. specialize (Hq1 Ha). cbn [run_scheduler].
  destruct (decide (wd_deferred w1 = [])) as [Hd|Hd].
  - destruct (round_closed clock script settings (S (S fuel)) w1 Hi1 Ha1 Hq1 Hd Hs) as [w2 E2].
    rewrite (bind_eq _ _ _ _ _ E2). by exists w2.
  - destruct (round_rejects clock script settings (S (S fuel)) w1 Hi1 Ha1 Hq1 Hd)
      as (w2 & E2 & Hi2 & Ha2 & Hq2 & Hd2). rewrite (bind_eq _ _ _ _ _ E2).
    destruct (round_closed clock script settings (S fuel) w2 Hi2 Ha2 Hq2 Hd2 Hs) as [w3 E3].
    rewrite (bind_eq _ _ _ _ _ E3). by exists w3.
Qed.

(** a collected batch is what the model may run at once. It starts with the given request, holds no
    request twice and no more than [max_batch_size] (or the one request), all with the same token
    limit and temperature as the first; its recorded total is the sum of their costs and stays
    within [max_total_batch_tokens] unless the first request is alone; and the number of requests
    it took from the queue is what is left to acknowledge. *)
Theorem collect_batch_bounded clock script settings fuel first w w' b D n :
  inv D [first] n w → collect_batch clock script settings fuel true first w = (inr b, w') →
  (∃ rest, bc_requests b = first :: rest) ∧ NoDup (bc_requests b) ∧
  Z.of_nat (length (bc_requests b)) <= Z.max 1 (st_max_batch_size settings) ∧
  (∀ l, l ∈ tail (bc_requests b) → compatible (request_of l w') (request_of first w') = true) ∧
  bc_total_estimated_tokens b = zsum (λ l, cost (request_of l w')) (bc_requests b) ∧
  (tail (bc_requests b) ≠ [] →
     bc_total_estimated_tokens b <= st_max_total_batch_tokens settings) ∧
  aq_unfinished (wd_queue w')
    = Z.of_nat (length (aq_items (wd_queue w')) + (bc_queued_items b + n)).
Proof.
  intros Hi E. pose proof (collecting_collect_batch clock script settings fuel first D n w Hi) as Hc.
  rewrite E in Hc. destruct Hc as [Hi' [Hf Hk Hco Ht Htok Hsize]].
  split; [exact Hf|]. split; [|split_and!; try done; apply Hi'].
  pose proof (inv_nodup _ _ _ _ Hi') as Hn. rewrite !NoDup_app in Hn. tauto.
Qed.

(** ** Witnesses *)

Definition sample_clock (i : nat) : float := f_of_Z 1.
Definition quiet : AwaitEvent := mkAwait [] false false (inl "") (inl "").
Definition sample_settings : Settings := mkSettings (f_of_Z 60) 25 2 64 true.
Definition sample_inference (prompt : string) (max_new_tokens : Z) : InferenceRequest :=
  InferenceRequest_init prompt max_new_tokens f_zero 4 "dynamic_batch" prompt f_zero None.
Definition submit_all (rs : list InferenceRequest) : World :=
  foldl (λ w r, env_action sample_clock (EnvSubmit r) w) (RequestQueue_init 8 16) rs.
Lemma submit_all_inv rs : inv [] [] 0 (submit_all rs).
Proof.
  unfold submit_all. generalize (queue_init_inv 8 16). generalize (RequestQueue_init 8 16).
  induction rs as [|r rs IH]; intros w Hi; simpl; [done|].
  apply IH. by apply (env_action_spec sample_clock [] [] 0 (EnvSubmit r)).
Qed.
(** Two compatible requests around one with another token limit. *)
Definition three_requests : World :=
  submit_all [sample_inference "a" 8; sample_inference "b" 16; sample_inference "c" 8].

Lemma scheduler_shutdown_terminates_witness :
  ∃ w, run_scheduler sample_clock (λ _, quiet) sample_settings 2
         (env_action sample_clock EnvClose three_requests) = (inr tt, w).
Proof.
  apply (scheduler_shutdown_terminates sample_clock (λ _, quiet) sample_settings 0 three_requests).
  - apply submit_all_inv.
  - vm_compute. reflexivity.
  - intros i. reflexivity.
Defined.

Definition after_first : World := set_items (tail (aq_items (wd_queue three_requests))) three_requests.
Lemma after_first_inv : inv [] [1%positive] 1 after_first.
Proof. apply (inv_take [] [] 0 three_requests 1%positive); [vm_compute; reflexivity|apply submit_all_inv]. Qed.
Lemma collect_batch_bounded_witness :
  ∃ b w, collect_batch sample_clock (λ _, quiet) sample_settings 5 true 1%positive after_first = (inr b, w) ∧
    bc_requests b = [1; 3]%positive ∧ wd_deferred w = [2%positive] ∧
    bc_total_estimated_tokens b <= 64.
Proof.
  destruct (collect_batch sample_clock (λ _, quiet) sample_settings 5 true 1%positive after_first)
    as [[e|b] w] eqn:E; [vm_compute in E; discriminate|].
  exists b, w. split; [reflexivity|].
  assert (bc_requests b = [1; 3]%positive ∧ wd_deferred w = [2%positive]) as [Hb Hd]
    by (vm_compute in E; injection E as <- <-; split; reflexivity).
  split; [exact Hb|]. split; [exact Hd|].
  destruct (collect_batch_bounded sample_clock (λ _, quiet) sample_settings 5 1%positive after_first w b
    [] 1 after_first_inv E) as (_ & _ & _ & _ & _ & Ht & _).
  apply Ht. rewrite Hb. discriminate.
Defined.

(** A cancelled scheduler finishes the batch it runs, but not what it has deferred: the second
    request, put aside because of its token limit, keeps an unresolved future. *)
Definition cancel_fourth (i : nat) : AwaitEvent :=
  match i with
  | 3%nat => mkAwait [EnvClose] true false (inl "") (inl "")
  | _ => quiet
  end.
Lemma cancelled_scheduler_strands_deferred :
  ∃ w, run_scheduler sample_clock cancel_fourth sample_settings 5 three_requests = (inl ECancelled, w) ∧
    wd_deferred w = [2%positive] ∧ wd_accepting w = false ∧
    ir_status <$> wd_requests w !! 1%positive = Some SFailed ∧
    ir_status <$> wd_requests w !! 2%positive = Some SQueued ∧
    ir_future <$> wd_requests w !! 2%positive = Some (Some false).
Proof.
  destruct (run_scheduler sample_clock cancel_fourth sample_settings 5 three_requests) as [r w] eqn:E.
  vm_compute in E. injection E as <- <-. eexists. split_and!; reflexivity.
Qed.
