(* ===== verification/TokenTypes.v ===== *)
(** [inference/token_types.py] and [inference/token_scheduling.py]: sequences, sampling parameters,
    the events of a token stream, and the policy that picks the workload of one iteration. *)
From S2P Require Import Prelude PyFloat.
From Stdlib Require String.

#[local] Open Scope string_scope.
#[local] Open Scope list_scope.
#[local] Open Scope Z_scope.

(** ** [token_types.py] *)

Inductive SequencePhase :=
  | PQueued | PPrefill | PDecode | PCompleted | PCancelled | PTimedOut | PFailed.
#[export] Instance SequencePhase_eq_dec : EqDecision SequencePhase.
Proof. solve_decision. Defined.
Inductive FinishReason := FEos | FStop | FLength | FCancelled | FTimeout | FFailed.
#[export] Instance FinishReason_eq_dec : EqDecision FinishReason.
Proof. solve_decision. Defined.

Record SamplingParameters := mkSampling {
  sp_max_new_tokens : Z;
  sp_temperature : float;
  sp_top_p : float;
  sp_stop_token_ids : list Z
}.
Definition SamplingParameters_post_init (p : SamplingParameters) : res SamplingParameters :=
  _ ← raise_if ((sp_max_new_tokens p <=? 0) || f_ltb (sp_temperature p) f_zero
                || negb (f_ltb f_zero (sp_top_p p) && f_leb (sp_top_p p) (f_of_Z 1)))
    (ValueError "sampling parameters are invalid");
  _ ← raise_if ((32 <? Z.of_nat (length (sp_stop_token_ids p)))
                || negb (bool_decide (NoDup (sp_stop_token_ids p))))
    (ValueError "stop token identifiers must be unique and limited to 32");
  _ ← raise_if (existsb (λ t, t <? 0) (sp_stop_token_ids p))
    (ValueError "stop token identifiers must be non-negative");
  Ok p.

Record TokenizedPrompt := mkTokenized { tp_token_ids : list Z }.
Definition TokenizedPrompt_post_init (p : TokenizedPrompt) : res TokenizedPrompt :=
  _ ← raise_if (bool_decide (tp_token_ids p = []))
    (ValueError "tokenized prompt must not be empty");
  Ok p.
(** The constructor, which runs the check. *)
Definition TokenizedPrompt_new (token_ids : list Z) : res TokenizedPrompt :=
  TokenizedPrompt_post_init (mkTokenized token_ids).

Record GeneratedToken := mkToken {
  gt_token_id : Z;
  gt_text : string;
  gt_index : Z;
  gt_cache_tokens : Z
}.
Record GenerationComplete := mkComplete {
  gc_finish_reason : FinishReason;
  gc_input_tokens : Z;
  gc_output_tokens : Z;
  gc_prefill_ms : float;
  gc_decode_ms : float
}.

Record SequenceState := mkSequence {
  ss_request_id : string;
  ss_prompt : string;
  ss_sampling : SamplingParameters;
  ss_deadline : float;
  ss_phase : SequencePhase;
  ss_prompt_token_ids : list Z;
  ss_generated_token_ids : list Z;
  ss_kv_block_ids : list Z;
  ss_prefill_ms : float;
  ss_decode_ms : float;
  ss_created_at : float;
  ss_cancellation : bool
}.
#[export] Instance eta_SequenceState : Eta SequenceState := λ s,
  mkSequence (ss_request_id s) (ss_prompt s) (ss_sampling s) (ss_deadline s) (ss_phase s)
    (ss_prompt_token_ids s) (ss_generated_token_ids s) (ss_kv_block_ids s) (ss_prefill_ms s)
    (ss_decode_ms s) (ss_created_at s) (ss_cancellation s).
(** [created_at] is the clock reading of the constructor. *)
Definition SequenceState_init (request_id prompt : string) (sampling : SamplingParameters)
  (deadline created_at : float) : SequenceState :=
  mkSequence request_id prompt sampling deadline PQueued [] [] [] f_zero f_zero created_at false.
Definition phase_terminal (p : SequencePhase) : bool :=
  match p with PCompleted | PCancelled | PTimedOut | PFailed => true | _ => false end.
Definition ss_terminal (s : SequenceState) : bool := phase_terminal (ss_phase s).

(** ** [token_scheduling.py] *)

Inductive TokenSchedulingPolicyName := PrefillFirst | DecodeFirst | Balanced.
#[export] Instance TokenSchedulingPolicyName_eq_dec : EqDecision TokenSchedulingPolicyName.
Proof. solve_decision. Defined.
Definition TokenSchedulingPolicyName_of (name : string) : res TokenSchedulingPolicyName :=
  if String.eqb name "prefill_first" then Ok PrefillFirst
  else if String.eqb name "decode_first" then Ok DecodeFirst
  else if String.eqb name "balanced" then Ok Balanced
  else Err (ValueError (name +:+ " is not a valid TokenSchedulingPolicyName")).
Definition policy_name_value (p : TokenSchedulingPolicyName) : string :=
  match p with
  | PrefillFirst => "prefill_first" | DecodeFirst => "decode_first" | Balanced => "balanced"
  end.

Record TokenResourceSnapshot := mkResources {
  tr_available_slots : Z;
  tr_free_kv_blocks : Z;
  tr_max_batch_size : Z
}.
Record TokenSchedulingDecision := mkDecision {
  td_prefill_ids : list string;
  td_decode_ids : list string;
  td_reason : string
}.
Record PrefillDecodePolicy := mkPolicy {
  pp_name : TokenSchedulingPolicyName;
  pp_balanced_decode_turn : bool
}.
Definition PrefillDecodePolicy_init (name : string) : res PrefillDecodePolicy :=
  name ← TokenSchedulingPolicyName_of name; Ok (mkPolicy name false).

(** [xs[:limit]]: a negative limit counts from the end. *)
Definition py_take {A} (limit : Z) (xs : list A) : list A :=
  take (Z.to_nat (if limit <? 0 then Z.of_nat (length xs) + limit else limit)) xs.
Definition no_ids (ids : list string) : bool := bool_decide (ids = []).

Definition select (waiting running : list SequenceState) (resources : TokenResourceSnapshot)
  (p : PrefillDecodePolicy) : TokenSchedulingDecision * PrefillDecodePolicy :=
  let limit := tr_max_batch_size resources in
  let waiting_ids := ss_request_id <$> py_take limit waiting in
  let running_ids := ss_request_id <$> py_take limit running in
  match pp_name p with
  | PrefillFirst =>
    (if negb (no_ids waiting_ids) then mkDecision waiting_ids [] "prefill_first"
     else mkDecision [] running_ids "decode_fallback", p)
  | DecodeFirst =>
    (if negb (no_ids running_ids) then mkDecision [] running_ids "decode_first"
     else mkDecision waiting_ids [] "prefill_fallback", p)
  | Balanced =>
    let turn := negb (pp_balanced_decode_turn p) in
    (if turn && negb (no_ids running_ids) then mkDecision [] running_ids "balanced_decode"
     else if negb (no_ids waiting_ids) then mkDecision waiting_ids [] "balanced_prefill"
     else mkDecision [] running_ids "balanced_decode_fallback",
     mkPolicy Balanced turn)
  end.

(** ** Lemmas *)

Lemma elem_of_py_take {A} limit (xs : list A) x : x ∈ py_take limit xs → x ∈ xs.
Proof.
  unfold py_take. generalize (Z.to_nat (if limit <? 0 then Z.of_nat (length xs) + limit else limit)).
  intros k H. rewrite <- (take_drop k xs). apply elem_of_app. by left.
Qed.
Lemma py_take_length {A} limit (xs : list A) :
  0 <= limit → Z.of_nat (length (py_take limit xs)) <= limit.
Proof.
  intros H. unfold py_take. replace (limit <? 0) with false by (symmetry; apply Z.ltb_ge; lia).
  rewrite length_take. lia.
Qed.
Lemma py_take_nil {A} limit (xs : list A) : 0 < limit → py_take limit xs = [] → xs = [].
Proof.
  intros H. unfold py_take. replace (limit <? 0) with false by (symmetry; apply Z.ltb_ge; lia).
  destruct xs; [done|]. destruct (Z.to_nat limit) eqn:E; [lia|done].
Qed.
Lemma no_ids_spec ids : no_ids ids = true ↔ ids = [].
Proof. unfold no_ids. apply bool_decide_eq_true. Qed.
Lemma no_ids_fmap {A} (f : A → string) limit (xs : list A) :
  0 < limit → f <$> py_take limit xs = [] → xs = [].
Proof. intros H E%fmap_nil_inv. by eapply py_take_nil. Qed.

(** What each policy promises, for a batch size of at least one: which of the two workloads runs, and
    what the next turn of the balanced policy is. *)
Definition decodes (waiting running : list SequenceState) (p : PrefillDecodePolicy) : bool :=
  negb (bool_decide (running = [])) &&
  match pp_name p with
  | PrefillFirst => bool_decide (waiting = [])
  | DecodeFirst => true
  | Balanced => bool_decide (waiting = []) || negb (pp_balanced_decode_turn p)
  end.
Definition next_turn (p : PrefillDecodePolicy) : PrefillDecodePolicy :=
  match pp_name p with Balanced => mkPolicy Balanced (negb (pp_balanced_decode_turn p)) | _ => p end.
Lemma select_decodes waiting running resources p :
  0 < tr_max_batch_size resources →
  let '(d, p') := select waiting running resources p in
  p' = next_turn p ∧
  (td_prefill_ids d, td_decode_ids d) =
    (let take_ids xs := ss_request_id <$> py_take (tr_max_batch_size resources) xs in
     if decodes waiting running p then ([], take_ids running) else (take_ids waiting, [])).
Proof.
  intros Hl. unfold select, decodes, next_turn.
  assert (∀ xs, no_ids (ss_request_id <$> py_take (tr_max_batch_size resources) xs) = bool_decide (xs = [])) as Hn.
  { intros xs. apply bool_decide_ext. split; [by apply no_ids_fmap|]. intros ->.
    unfold py_take. by rewrite take_nil. }
  rewrite !Hn.
  assert (∀ xs, xs = [] → ss_request_id <$> py_take (tr_max_batch_size resources) xs = []) as Hnil.
  { intros xs ->. unfold py_take. by rewrite take_nil. }
  destruct (pp_name p); repeat case_bool_decide; cbn; destruct (pp_balanced_decode_turn p); cbn;
    (split; [done|]); rewrite ?(Hnil waiting), ?(Hnil running) by done; done.
Qed.
