(* ===== verification/Transformers.v ===== *)
(** The parts of PyTorch and Hugging Face transformers that the inference worker and the token backend rely
    on, as interfaces with their documented laws: integer tensors, tokenizers, causal language models
    with a key/value cache, CUDA queries, and token samplers. Neither library is part of the repository;
    the instance at the end shows that the laws can be met. *)
From S2P Require Import Prelude PyFloat TokenTypes.
From Stdlib Require String.

#[local] Open Scope string_scope.
#[local] Open Scope list_scope.
#[local] Open Scope Z_scope.

(** ** Integer tensors *)

(** [torch.long] tensors of two dimensions and of one. *)
Class LongTensors := {
  matrix : Type;
  vector : Type;
  torch_tensor : list (list Z) → res matrix;        (* [torch.tensor(rows)] *)
  torch_ones : Z → Z → matrix;
  torch_ones_like : matrix → matrix;
  cat_columns : matrix → matrix → res matrix;       (* [torch.cat((a, b), dim=-1)] *)
  cat_rows : list matrix → res matrix;              (* [torch.cat(ms, dim=0)] *)
  row_slice : matrix → nat → matrix;                (* [t[row : row + 1]] *)
  width : matrix → Z;                               (* [t.shape[1]] *)
  tolist : matrix → list (list Z);
  row_sums : matrix → list Z;                       (* [t.sum(dim=1).tolist()] *)
  torch_arange : Z → Z → vector;
  last_plus_one : vector → vector;                  (* [t[-1:] + 1] *)
  plus_one : vector → vector;                       (* [t + 1] *)
  items : vector → list Z                           (* [t.tolist()] *)
}.
(** The rows have [w] items each. *)
Definition rectangular (w : nat) (l : list (list Z)) : Prop := Forall (λ r, length r = w) l.
Class LongTensorLaws `{LongTensors} : Prop := {
  torch_tensor_spec : ∀ l w, rectangular w l → ∃ t, torch_tensor l = Ok t ∧ tolist t = l;
  ones_spec : tolist (torch_ones 1 1) = [[1]];
  ones_like_spec : ∀ t, tolist (torch_ones_like t) = (λ r, replicate (length r) 1) <$> tolist t;
  cat_columns_spec : ∀ a b t, cat_columns a b = Ok t → tolist t = zip_with app (tolist a) (tolist b);
  cat_rows_spec : ∀ l t, cat_rows l = Ok t → tolist t = concat (tolist <$> l);
  row_slice_spec : ∀ t n, tolist (row_slice t n) = take 1 (drop n (tolist t));
  width_spec : ∀ t w, tolist t ≠ [] → rectangular w (tolist t) → width t = Z.of_nat w;
  row_sums_spec : ∀ t, row_sums t = (λ r, zsum id r) <$> tolist t;
  arange_spec : ∀ a n, items (torch_arange a (a + Z.of_nat n)) = seqZ a (Z.of_nat n);
  last_plus_one_spec : ∀ t l x, items t = l ++ [x] → items (last_plus_one t) = [x + 1];
  plus_one_spec : ∀ t, items (plus_one t) = Z.succ <$> items t
}.

(** ** Tokenizers and models *)

(** What [torch.cuda] reports of a device. *)
Record CudaDevice := mkCuda {
  cu_name : string;
  cu_total : Z;
  cu_free : Z;
  cu_allocated : Z;
  cu_reserved : Z;
  cu_properties : option (string * option string);  (* [f"{major}.{minor}"] and the PCI bus *)
  cu_driver : option string;
  cu_runtime : option string
}.

(** A call of a library that may fail takes the number of such calls made before. [cuda_device] is read at
    that number too. A model call takes the new tokens of each row, the attention mask over old and new
    positions, the cache and the positions of the new tokens; it extends the cache in place, also when it
    raises, and the cache of its output is that object. *)
Class Transformers `{LongTensors} := {
  tokenizer : Type;
  model : Type;
  cache : Type;
  logits : Type;
  outputs : Type;
  cuda_available : bool;
  cuda_device : nat → Z → CudaDevice;
  auto_tokenizer : string → string → nat → res tokenizer;        (* name, revision *)
  auto_model : string → string → option string → nat → res model; (* name, revision, dtype *)
  model_to : model → string → nat → res model;      (* [model.to(device)] *)
  model_eval : model → model;
  pad_with_eos : tokenizer → tokenizer;             (* [pad_token = eos_token] *)
  pad_left : tokenizer → tokenizer;                 (* [padding_side = "left"] *)
  pad_token_id : tokenizer → option Z;
  eos_token_id : tokenizer → option Z;
  encode : tokenizer → string → bool → list Z;      (* [add_special_tokens] *)
  decode_text : tokenizer → list Z → string;        (* [skip_special_tokens=True] *)
  decode_raw : tokenizer → list Z → string;         (* also [clean_up_tokenization_spaces=False] *)
  encode_batch : tokenizer → list string → nat → res (matrix * matrix);  (* padded ids and mask *)
  vocabulary : tokenizer → Z;                       (* [len(tokenizer)] *)
  model_max_length : tokenizer → option Z;
  max_position_embeddings : model → option Z;
  generation_eos : model → option (list (option Z)); (* [generation_config.eos_token_id], one or a list *)
  generate_ids : model → matrix → matrix → Z → option float → option Z → nat → res matrix;
  dynamic_cache : cache;
  cache_length : cache → Z;                         (* [get_seq_length()] *)
  forward : model → matrix → matrix → cache → vector → res outputs * cache;
  last_logits : outputs → logits;                   (* [logits[:, -1, :]] *)
  row_logits : outputs → nat → logits;              (* [logits[row : row + 1, -1, :]] *)
  batch_split : cache → nat → list cache;           (* [batch_split(n, 1)] *)
  from_batch_splits : list cache → cache
}.

(** A position of a row in a cache: its position number, its token, and whether it is attended to. *)
Definition slot : Type := Z * Z * bool.
Definition slot_position (s : slot) : Z := s.1.1.
Definition slot_token (s : slot) : Z := s.1.2.
Definition mask_of (h : list slot) : list Z := (λ s : slot, if s.2 then 1 else 0) <$> h.
(** What is attended to, in order. *)
Definition attended (h : list slot) : list (Z * Z) := fst <$> filter (λ s : slot, s.2 = true) h.

(** The old and the new slots of a row in a call. *)
Definition row_step : Type := list slot * list slot.
Definition row_after (hn : row_step) : list slot := hn.1 ++ hn.2.
Definition row_tokens (hn : row_step) : list Z := slot_token <$> hn.2.
Definition row_mask (hn : row_step) : list Z := mask_of (row_after hn).
(** The new slots are at the positions given, and the last one is attended to. *)
Definition row_placed (positions : list Z) (hn : row_step) : Prop :=
  slot_position <$> hn.2 = positions ∧ ∃ s, last hn.2 = Some s ∧ s.2 = true.

(** [represents c hs]: the cache holds the rows [hs]; a new cache holds any number of empty ones. A call with
    the old slots and the new slots [st] of each row appends the new ones to the cache. Nothing is assumed of
    the logits. *)
Class TransformersLaws `{Transformers} := {
  represents : cache → list (list slot) → Prop;
  pad_with_eos_spec : ∀ t, pad_token_id (pad_with_eos t) = eos_token_id t;
  pad_left_spec : ∀ t, pad_token_id (pad_left t) = pad_token_id t;
  encode_batch_spec : ∀ t l n ids mask, encode_batch t l n = Ok (ids, mask) →
    length (tolist ids) = length l ∧ length (tolist mask) = length l ∧ ∃ w, rectangular w (tolist ids);
  generate_ids_spec : ∀ md ids mask max_new temperature pad n out, 0 < max_new →
    generate_ids md ids mask max_new temperature pad n = Ok out →
    ∃ new, tolist out = zip_with app (tolist ids) new ∧ length new = length (tolist ids) ∧
           Forall (λ r, 0 < Z.of_nat (length r) <= max_new) new;
  dynamic_cache_spec : ∀ n, represents dynamic_cache (replicate n []);
  cache_length_spec : ∀ c hs n,
    represents c hs → hs ≠ [] → Forall (λ h, length h = n) hs → cache_length c = Z.of_nat n;
  forward_spec : ∀ md ids mask c pos (st : list row_step) n out c',
    st ≠ [] → represents c st.*1 → Forall (λ h, length h = n) st.*1 →
    tolist ids = map row_tokens st → tolist mask = map row_mask st →
    Forall (row_placed (items pos)) st →
    forward md ids mask c pos = (Ok out, c') →
    represents c' (map row_after st);
  batch_split_spec : ∀ c hs, represents c hs →
    Forall2 (λ c h, represents c [h]) (batch_split c (length hs)) hs;
  from_batch_splits_spec : ∀ cs hs n, Forall2 (λ c h, represents c [h]) cs hs →
    Forall (λ h, length h = n) hs → represents (from_batch_splits cs) hs
}.

(** A call of the model that is right for the rows [st]: the cache holds their old slots, all of one length; the
    tokens, the mask over old and new slots, and the positions are theirs. *)
Record asks `{TransformersLaws} (ids mask : matrix) (c : cache) (pos : vector) (st : list row_step) : Prop := {
  as_rows : st ≠ [];
  as_cache : represents c st.*1;
  as_length : ∃ n, Forall (λ h, length h = n) st.*1;
  as_tokens : tolist ids = map row_tokens st;
  as_mask : tolist mask = map row_mask st;
  as_positions : Forall (row_placed (items pos)) st
}.
(** [gives md a lg]: [lg] are logits that the model computes for a row that attends to exactly the tokens [a] at
    their positions. (The same tokens in another batch, or in other chunks, may give other logits.) *)
Definition gives `{TransformersLaws} (md : model) (a : list (Z * Z)) (lg : logits) : Prop :=
  ∃ ids mask c pos st out c' i hn,
    asks ids mask c pos st ∧ forward md ids mask c pos = (Ok out, c') ∧
    st !! i = Some hn ∧ attended (row_after hn) = a ∧
    (lg = row_logits out i ∨ length st = 1%nat ∧ lg = last_logits out).

(** [TokenSampler.select], over the state of the random generator; it may raise. *)
Class TokenSampler `{Transformers} (R : Type) := {
  select : logits → SamplingParameters → R → res Z * R
}.

(** ** An instance *)

(** Tensors are lists; a cache is the list of its rows; the logits are the attended tokens with their
    positions. The tokenizer reads each character as its code. *)
Definition toy_tensors : LongTensors := {|
  matrix := list (list Z);
  vector := list Z;
  torch_tensor l := Ok l;
  torch_ones n m := replicate (Z.to_nat n) (replicate (Z.to_nat m) 1);
  torch_ones_like t := (λ r, replicate (length r) 1) <$> t;
  cat_columns a b := Ok (zip_with app a b);
  cat_rows l := Ok (concat l);
  row_slice t n := take 1 (drop n t);
  width t := match t with r :: _ => Z.of_nat (length r) | [] => 0 end;
  tolist t := t;
  row_sums t := (λ r, zsum id r) <$> t;
  torch_arange a b := seqZ a (b - a);
  last_plus_one t := match last t with Some x => [x + 1] | None => [] end;
  plus_one t := Z.succ <$> t;
  items t := t
|}.
Lemma toy_tensors_laws : @LongTensorLaws toy_tensors.
Proof.
  split; cbn; try done.
  - intros l w _. by exists l.
  - by intros a b t [= <-].
  - intros l t [= <-]. by rewrite list_fmap_id.
  - intros t w Hne Hw. destruct t as [|r t]; [done|]. by apply Forall_cons in Hw as [-> _].
  - intros a n. f_equal. lia.
  - intros t l x ->. by rewrite last_snoc.
Qed.
(** One step of a row whose old slots are [h]. *)
Definition toy_row (h : list slot) (ids mask positions : list Z) : list slot :=
  h ++ zip (zip positions ids) ((λ m, bool_decide (m = 1)) <$> drop (length h) mask).
Fixpoint toy_rows (hs : list (list slot)) (ids masks : list (list Z)) (positions : list Z) : list (list slot) :=
  match hs, ids, masks with
  | h :: hs, r :: ids, m :: masks => toy_row h r m positions :: toy_rows hs ids masks positions
  | _, _, _ => []
  end.
Definition toy_hd (c : list (list slot)) : list slot := match c with h :: _ => h | [] => [] end.
Definition toy_codes (s : string) : list Z :=
  (λ c, Z.of_nat (Ascii.nat_of_ascii c)) <$> String.list_ascii_of_string s.
Definition toy_pad (w : nat) (l : list Z) : list Z * list Z :=
  (replicate (w - length l) 0 ++ l, replicate (w - length l) 0 ++ replicate (length l) 1).
Definition toy_batch (ls : list (list Z)) : @matrix toy_tensors * @matrix toy_tensors :=
  let w := foldr Nat.max 0%nat (length <$> ls) in ((toy_pad w <$> ls).*1, (toy_pad w <$> ls).*2).
Definition toy_generated (ids : @matrix toy_tensors) (n : Z) : @matrix toy_tensors :=
  map (λ r, r ++ replicate (Z.to_nat n) 65) ids.
Definition toy_transformers : @Transformers toy_tensors := {|
  tokenizer := unit;
  model := unit;
  cache := list (list slot);
  logits := list (Z * Z);
  outputs := list (list (Z * Z));
  cuda_available := false;
  cuda_device _ _ := mkCuda "" 0 0 0 0 None None None;
  auto_tokenizer _ _ _ := Ok tt;
  auto_model _ _ _ _ := Ok tt;
  model_to m _ _ := Ok m;
  model_eval m := m;
  pad_with_eos t := t;
  pad_left t := t;
  pad_token_id _ := Some 0;
  eos_token_id _ := Some 0;
  encode _ s _ := toy_codes s;
  decode_text _ l := String.string_of_list_ascii ((λ z, Ascii.ascii_of_nat (Z.to_nat z)) <$> l);
  decode_raw _ l := String.string_of_list_ascii ((λ z, Ascii.ascii_of_nat (Z.to_nat z)) <$> l);
  encode_batch _ l _ := Ok (toy_batch (toy_codes <$> l));
  vocabulary _ := 128;
  model_max_length _ := Some 1024;
  max_position_embeddings _ := Some 1024;
  generation_eos _ := None;
  generate_ids _ ids _ n _ _ _ := Ok (toy_generated ids n);
  dynamic_cache := [];
  cache_length c := Z.of_nat (length (toy_hd c));
  forward _ ids mask c pos :=
    let hs := match c with [] => replicate (length ids) [] | _ => c end in
    let hs := toy_rows hs ids mask pos in (Ok (attended <$> hs), hs);
  last_logits out := match out with a :: _ => a | [] => [] end;
  row_logits out i := default [] ((out : list (list (Z * Z))) !! i);
  batch_split c n := match c with [] => replicate n [] | _ => (λ h, [h]) <$> c end;
  from_batch_splits cs := toy_hd <$> cs
|}.
Lemma toy_batch_shape (l : list string) :
  let '(ids, mask) := toy_batch (toy_codes <$> l) in
  length (tolist ids) = length l ∧ length (tolist mask) = length l ∧ ∃ w, rectangular w (tolist ids).
Proof.
  unfold toy_batch. set (w := foldr Nat.max 0%nat (length <$> (toy_codes <$> l))).
  cbn -[toy_codes]. rewrite !length_fmap. split_and!; [done..|]. exists w. unfold rectangular.
  rewrite !Forall_fmap, Forall_elem. intros r Hr. cbn -[toy_codes]. rewrite length_app, length_replicate.
  assert (length (toy_codes r) ≤ w)%nat; [|lia]. unfold w. clear w.
  induction Hr as [l|x l k Hr IH]; cbn -[toy_codes]; [lia|]. cbn -[toy_codes] in IH. lia.
Qed.
Lemma toy_generated_rows (ids : @matrix toy_tensors) m : 0 < m →
  ∃ new, tolist (toy_generated ids m) = zip_with app (tolist ids) new ∧ length new = length (tolist ids) ∧
         Forall (λ r, 0 < Z.of_nat (length r) <= m) new.
Proof.
  intros Hm. exists ((λ _, replicate (Z.to_nat m) 65) <$> (ids : list (list Z))). cbn.
  rewrite length_fmap. split_and!; [|done|].
  - unfold toy_generated. induction ids as [|r ids IH]; cbn; [done|]. by f_equal.
  - rewrite Forall_fmap, Forall_forall. intros r _. cbn. rewrite length_replicate. lia.
Qed.
Definition toy_represents (c hs : list (list slot)) : Prop := c = hs ∨ c = [] ∧ ∃ n, hs = replicate n [].

Lemma new_slots_eq positions (n : list slot) :
  slot_position <$> n = positions →
  zip (zip positions (slot_token <$> n)) ((λ m, bool_decide (m = 1)) <$> mask_of n) = n.
Proof.
  intros <-. induction n as [|[[p t] b] n IH]; [done|]. cbn. unfold mask_of in IH. rewrite IH. by destruct b.
Qed.
Lemma mask_of_app h n : mask_of (h ++ n) = mask_of h ++ mask_of n.
Proof. apply fmap_app. Qed.
Lemma mask_of_length h : length (mask_of h) = length h.
Proof. apply length_fmap. Qed.
Lemma toy_row_eq positions hn :
  row_placed positions hn → toy_row hn.1 (row_tokens hn) (row_mask hn) positions = row_after hn.
Proof.
  intros [Hp _]. unfold toy_row, row_mask, row_tokens, row_after. f_equal.
  rewrite mask_of_app, drop_app_length' by by rewrite mask_of_length. by apply new_slots_eq.
Qed.
Lemma toy_rows_eq positions st :
  Forall (row_placed positions) st →
  toy_rows st.*1 (map row_tokens st) (map row_mask st) positions = map row_after st.
Proof.
  induction st as [|hn st IH]; intros Hf; [done|]. apply Forall_cons in Hf as [H1 H2].
  cbn. rewrite (IH H2). f_equal. by apply toy_row_eq.
Qed.
Definition toy_laws : @TransformersLaws toy_tensors toy_transformers.
Proof.
  refine (@Build_TransformersLaws toy_tensors toy_transformers toy_represents _ _ _ _ _ _ _ _ _); cbn.
  - done.
  - done.
  - intros _ l _ ids mask [= <- <-]. by apply toy_batch_shape.
  - intros _ ids _ m _ _ _ out Hm [= <-]. by apply toy_generated_rows.
  - intros n. right. split; [done|]. by exists n.
  - intros c hs n [->|[-> [k ->]]] Hne Hn.
    + destruct hs as [|h hs]; [done|]. apply Forall_cons in Hn as [<- _]. done.
    + destruct k; [done|]. apply Forall_cons in Hn as [<- _]. done.
  - intros _ ids mask c pos st n out c' Hne Hr Hn Hids Hmask Hp [= <- <-].
    assert (match c with [] => replicate (length ids) [] | _ => c end = st.*1) as ->.
    { rewrite Hids, length_map. destruct Hr as [->|[-> [k Hk]]].
      - by destruct st.
      - rewrite Hk. f_equal. apply (f_equal length) in Hk. by rewrite length_fmap, length_replicate in Hk. }
    rewrite Hids, Hmask, toy_rows_eq by exact Hp. by left.
  - intros c hs [->|[-> [k ->]]].
    + destruct hs as [|h hs]; [constructor|]. apply Forall2_fmap_l, Forall2_same_length_lookup. split; [done|].
      intros i h1 h2 H1 H2. left. congruence.
    + rewrite length_replicate. apply Forall2_replicate. right. split; [done|]. by exists 1%nat.
  - intros cs hs n Hf _. left. induction Hf as [|c h cs hs Hc _ IH]; [done|]. cbn. rewrite <- IH. f_equal.
    destruct Hc as [->|[-> [[|[|k]] [=]]]]; [done|]. by subst.
Defined.

(** The sampler adds the tokens, each times its position: it depends on absolute positions. *)
Definition toy_select (a : @logits toy_tensors toy_transformers) : Z :=
  1 + zsum (λ p : Z * Z, (1 + p.1) * p.2) a mod 97.
Definition toy_sampler : @TokenSampler toy_tensors toy_transformers unit :=
  @Build_TokenSampler toy_tensors toy_transformers unit (λ a _ r, (Ok (toy_select a), r)).
