(* ===== verification/InferenceWorker.v ===== *)
(** [inference/model_loader.py] and [inference/worker.py]: loading a model and its tokenizer, and the
    worker that loads them on first use and generates whole batches. Each method runs in one thread at a
    time; the two locks make calls of different threads take turns. [stream], which runs the model in a
    second thread, is in [WorkerStream]. *)
From S2P Require Import Prelude PyFloat PyText Effects TokenTypes Transformers.
From Stdlib Require String.

#[local] Open Scope string_scope.
#[local] Open Scope list_scope.
#[local] Open Scope Z_scope.

Definition is_cuda (device : string) : bool := String.prefix "cuda" device.

Section worker.
Context `{Transformers}.

(** ** [load_model] *)

(** The [n]-th load. *)
Definition load_model (model_name revision device dtype : string) (n : nat) : res (tokenizer * model) :=
  _ ← raise_if (is_cuda device && negb cuda_available)
        (RuntimeError "CUDA model requested but CUDA is unavailable");
  _ ← raise_if (negb (bool_decide (dtype ∈ ["auto"; "float32"; "float16"; "bfloat16"])))
        (ValueError "unsupported model dtype");
  let torch_dtype := if String.eqb dtype "auto" then None else Some dtype in
  tokenizer ← auto_tokenizer model_name revision n;
  let tokenizer := match pad_token_id tokenizer with None => pad_with_eos tokenizer | Some _ => tokenizer end in
  let tokenizer := pad_left tokenizer in
  model ← auto_model model_name revision torch_dtype n;
  model ← model_to model device n;
  Ok (tokenizer, model_eval model).

(** ** [InferenceWorker] *)

Record GenerationResult := mkGeneration {
  gr_text : string;
  gr_input_tokens : Z;
  gr_output_tokens : Z;
  gr_tokenization_ms : float;
  gr_generation_ms : float;
  gr_decoding_ms : float
}.
(** [iw_loads], [iw_batches] and [iw_readings] number the loads, the batches and the clock readings. *)
Record InferenceWorker := mkInference {
  iw_model_name : string;
  iw_revision : string;
  iw_device : string;
  iw_dtype : string;
  iw_tokenizer : option tokenizer;
  iw_model : option model;
  iw_load_error : option string;
  iw_loads : nat;
  iw_batches : nat;
  iw_readings : nat
}.
#[export] Instance eta_InferenceWorker : Eta InferenceWorker := λ w,
  mkInference (iw_model_name w) (iw_revision w) (iw_device w) (iw_dtype w) (iw_tokenizer w) (iw_model w)
    (iw_load_error w) (iw_loads w) (iw_batches w) (iw_readings w).
Definition InferenceWorker_init (model_name revision device dtype : string) : InferenceWorker :=
  mkInference model_name revision device dtype None None None 0 0 0.

#[local] Abbreviation M := (Eff InferenceWorker PyErr).

(** [str(exc)] of an exception of the loader. *)
Definition load_error_text (e : PyErr) : string :=
  match e with
  | ValueError m | TypeError m | KeyError m | IndexError m | RuntimeError m | MemoryError m
  | OverflowError m | AssertionError m | TimeoutError m => m
  | _ => ""
  end.
Definition ensure_loaded : M unit :=
  w ← gets id;
  match iw_model w with
  | Some _ => mret tt
  | None =>
    _ ← modify (λ w, w <| iw_loads ::= Datatypes.S |>);
    match load_model (iw_model_name w) (iw_revision w) (iw_device w) (iw_dtype w) (iw_loads w) with
    | Ok (tokenizer, model) =>
      modify (λ w, w <| iw_tokenizer := Some tokenizer |> <| iw_model := Some model |>
                     <| iw_load_error := None |>)
    | Err e =>
      _ ← modify (λ w, w <| iw_load_error := Some (load_error_text e) |>);
      raise e
    end
  end.
Definition is_ready (w : InferenceWorker) : bool := match iw_model w with Some _ => true | None => false end.
Definition warmup : M unit := ensure_loaded.
Definition unload : M unit := modify (λ w, w <| iw_model := None |> <| iw_tokenizer := None |>).

(** The attribute [name] of a component that is [None]. *)
Definition no_attribute {A} (name : string) : M A :=
  raise (TypeError ("'NoneType' object has no attribute '" +:+ name +:+ "'")).
Definition the_tokenizer (name : string) : M tokenizer :=
  t ← gets iw_tokenizer; match t with Some t => mret t | None => no_attribute name end.
Definition the_model (name : string) : M model :=
  m ← gets iw_model; match m with Some m => mret m | None => no_attribute name end.

(** The candidates that are not [None], not zero and below the sentinel. *)
Definition usable_windows (candidates : list (option Z)) : list Z :=
  filter (λ v, v ≠ 0 ∧ v < 1000000) (omap id candidates).
Definition context_window_tokens : M Z :=
  _ ← ensure_loaded;
  model ← the_model "config";
  tokenizer ← gets iw_tokenizer;
  match usable_windows [max_position_embeddings model; tokenizer ≫= model_max_length] with
  | [] => raise (RuntimeError "model does not expose a usable context window")
  | v :: vs => mret (foldl Z.min v vs)
  end.
Definition count_tokens (tokenizer : tokenizer) (text : string) : Z :=
  Z.of_nat (length (encode tokenizer text false)).
Definition count_prompt_tokens (prompt : string) : M Z :=
  _ ← ensure_loaded;
  tokenizer ← the_tokenizer "encode";
  mret (count_tokens tokenizer prompt).

(** ** [generate_batch] *)

Variable perf : nat → float.
Definition perf_counter : M float := λ w, (inr (perf (iw_readings w)), w <| iw_readings ::= Datatypes.S |>).
Definition elapsed_ms (started : float) : M float :=
  now ← perf_counter; mret (f_mul (f_sub now started) (f_of_Z 1000)).
Definition lift {A} (r : res A) : M A := match r with Ok a => mret a | Err e => raise e end.

(** The tokens up to the first end-of-sequence token, which is kept. *)
Fixpoint meaningful_ids (eos : option Z) (ids : list Z) : list Z :=
  match ids with
  | [] => []
  | t :: ids => t :: (if bool_decide (Some t = eos) then [] else meaningful_ids eos ids)
  end.
Fixpoint read_outputs (prompt_width : Z) (input_lengths : list Z) (tokenization_ms generation_ms : float)
  (outputs : list (list Z)) {struct outputs} : M (list GenerationResult) :=
  match outputs with
  | [] => mret []
  | output :: outputs =>
    started ← perf_counter;
    tokenizer ← the_tokenizer "eos_token_id";
    let new_ids := meaningful_ids (eos_token_id tokenizer) (drop (Z.to_nat prompt_width) output) in
    let text := decode_text tokenizer new_ids in
    match input_lengths with
    | [] => raise (IndexError "list index out of range")
    | input_tokens :: input_lengths =>
      decoding_ms ← elapsed_ms started;
      results ← read_outputs prompt_width input_lengths tokenization_ms generation_ms outputs;
      mret (mkGeneration text input_tokens (Z.of_nat (length new_ids)) tokenization_ms generation_ms decoding_ms
              :: results)
    end
  end.
Definition generate_batch (prompts : list string) (max_new_tokens : Z) (temperature : float)
  : M (list GenerationResult) :=
  _ ← ensure_loaded;
  started ← perf_counter;
  tokenizer ← the_tokenizer "__call__";
  n ← gets iw_batches;
  _ ← modify (λ w, w <| iw_batches ::= Datatypes.S |>);
  encoded ← lift (encode_batch tokenizer prompts n);
  let '(input_ids, attention_mask) := encoded in
  let input_lengths := row_sums attention_mask in
  tokenization_ms ← elapsed_ms started;
  let sampling := f_ltb f_zero temperature in
  started ← perf_counter;
  model ← the_model "generate";
  outputs ← lift (generate_ids model input_ids attention_mask max_new_tokens
                    (if sampling then Some temperature else None) (pad_token_id tokenizer) n);
  generation_ms ← elapsed_ms started;
  read_outputs (width input_ids) input_lengths tokenization_ms generation_ms (tolist outputs).
Definition generate_one (prompt : string) (max_new_tokens : Z) (temperature : float) : M GenerationResult :=
  results ← generate_batch [prompt] max_new_tokens temperature;
  match results with r :: _ => mret r | [] => raise (IndexError "list index out of range") end.
End worker.
Arguments InferenceWorker {_} _.

(** ** Lemmas *)

Section lemmas.
Context `{TransformersLaws} `{!LongTensorLaws}.

Lemma meaningful_length eos ids : (length (meaningful_ids eos ids) ≤ length ids)%nat.
Proof. induction ids as [|t ids IH]; cbn; [done|]. case_bool_decide; cbn; lia. Qed.
Lemma meaningful_nonempty eos ids : ids ≠ [] → (0 < length (meaningful_ids eos ids))%nat.
Proof. destruct ids; [done|]. cbn. lia. Qed.
(** An end-of-sequence token can only be the last one. *)
Lemma meaningful_eos eos ids i t :
  meaningful_ids eos ids !! i = Some t → Some t = eos → S i = length (meaningful_ids eos ids).
Proof.
  revert i. induction ids as [|x ids IH]; intros i Hi He; [done|]. cbn in *. destruct i as [|i]; cbn in *.
  - injection Hi as ->. by rewrite bool_decide_eq_true_2.
  - case_bool_decide; [done|]. by rewrite (IH i Hi He).
Qed.
(** It is where the tokens are cut, and nowhere else. *)
Lemma meaningful_prefix eos ids : ∃ rest, ids = meaningful_ids eos ids ++ rest ∧
  (rest = [] ∨ ∃ t, last (meaningful_ids eos ids) = Some t ∧ Some t = eos).
Proof.
  induction ids as [|x ids (rest & E & Hr)]; [exists []; split; [done|by left]|]. cbn. case_bool_decide as Hx.
  - exists ids. split; [done|]. right. by exists x.
  - exists rest. split; [cbn; by f_equal|]. destruct Hr as [->|(t & Ht & Hte)]; [by left|].
    right. exists t. split; [|done]. by rewrite last_cons, Ht.
Qed.

(** What a batch call reports of one prompt, given the tokens it generated. *)
Definition result_of (t : tokenizer) (input_tokens : Z) (new : list Z) (r : GenerationResult) : Prop :=
  let ids := meaningful_ids (eos_token_id t) new in
  gr_text r = decode_text t ids ∧ gr_input_tokens r = input_tokens ∧ gr_output_tokens r = Z.of_nat (length ids).
(** After [ensure_loaded] the model is what it was, or what [load_model] just gave. *)
Lemma ensure_loaded_inv (w w' : InferenceWorker _) : ensure_loaded w = (inr tt, w') →
  w' = w ∧ is_Some (iw_model w) ∨
  iw_model w = None ∧ ∃ t md,
    load_model (iw_model_name w) (iw_revision w) (iw_device w) (iw_dtype w) (iw_loads w) = Ok (t, md) ∧
    iw_tokenizer w' = Some t ∧ iw_model w' = Some md ∧
    iw_model_name w' = iw_model_name w ∧ iw_revision w' = iw_revision w ∧ iw_device w' = iw_device w ∧
    iw_dtype w' = iw_dtype w.
Proof.
  unfold ensure_loaded. intros E. apply bind_inr_inv in E as (x & w1 & [= <- <-] & E).
  destruct (iw_model w) as [md|]; [injection E as <-; left; by split|].
  apply bind_inr_inv in E as ([] & w1 & [= <-] & E). right. split; [done|].
  destruct (load_model _ _ _ _ _) as [[t md]|e]; [|done]. injection E as <-. by exists t, md.
Qed.
Lemma the_tokenizer_inv name w t w' :
  the_tokenizer name w = (inr t, w') → iw_tokenizer w = Some t ∧ w' = w.
Proof.
  unfold the_tokenizer. intros E. apply bind_inr_inv in E as (o & w1 & [= <- <-] & E).
  destruct (iw_tokenizer w); [|done]. by injection E as -> ->.
Qed.
Lemma the_model_inv name w md w' : the_model name w = (inr md, w') → iw_model w = Some md ∧ w' = w.
Proof.
  unfold the_model. intros E. apply bind_inr_inv in E as (o & w1 & [= <- <-] & E).
  destruct (iw_model w); [|done]. by injection E as -> ->.
Qed.
Lemma lift_inv {A} (r : res A) (a : A) w w' : lift r w = (inr a, w') → r = Ok a ∧ w' = w.
Proof. destruct r; [|done]. by intros [= -> ->]. Qed.
(** Reading the clock leaves the rest of the worker alone. *)
Lemma elapsed_inv perf started x (w w' : InferenceWorker _) :
  elapsed_ms perf started w = (inr x, w') → iw_tokenizer w' = iw_tokenizer w ∧ iw_model w' = iw_model w.
Proof. by intros [= _ <-]. Qed.
Lemma read_outputs_spec perf w0 lengths tok_ms gen_ms ins news t w rs w' :
  iw_tokenizer w = Some t → rectangular w0 ins → length news = length ins →
  read_outputs perf (Z.of_nat w0) lengths tok_ms gen_ms (zip_with app ins news) w = (inr rs, w') →
  iw_tokenizer w' = Some t ∧ length rs = length ins ∧
  ∀ i r, rs !! i = Some r → ∃ n new, lengths !! i = Some n ∧ news !! i = Some new ∧ result_of t n new r.
Proof.
  intros Ht Hr Hl. revert lengths news w rs w' Ht Hr Hl.
  induction ins as [|r0 ins IH]; intros lengths [|new news] w rs w' Ht Hr Hl; try done.
  { by intros [= <- <-]. }
  apply Forall_cons in Hr as [Hr0 Hr]. injection Hl as Hl. cbn [zip_with read_outputs]. intros E.
  apply bind_inr_inv in E as (x & w1 & [= _ <-] & E).
  apply bind_inr_inv in E as (t' & w1 & [Ht' ->]%the_tokenizer_inv & E). cbn in Ht'.
  assert (t' = t) as -> by congruence. rewrite Nat2Z.id, (drop_app_length' _ _ w0) in E by done.
  destruct lengths as [|n lengths]; [done|]. apply bind_inr_inv in E as (ms & w1 & [Ht1 _]%elapsed_inv & E).
  apply bind_inr_inv in E as (rs' & w2 & E' & [= <- <-]).
  destruct (IH lengths news w1 rs' w2) as (Hx & Hy & Hz); try done; [by rewrite Ht1|].
  split_and!; [done|cbn; by rewrite Hy|]. intros [|i] r Hi; [|by apply Hz]. injection Hi as <-. by exists n, new.
Qed.
(** A batch gives one result per prompt: the text of the tokens that the model generated for it, cut after
    the first end-of-sequence token, with their number, which is positive and within the limit. *)
Lemma generate_batch_correct perf prompts max_new temperature w rs w' :
  0 < max_new → generate_batch perf prompts max_new temperature w = (inr rs, w') →
  ∃ t, iw_tokenizer w' = Some t ∧ length rs = length prompts ∧
    ∀ r, r ∈ rs → 0 < gr_output_tokens r <= max_new ∧ ∃ n new, result_of t n new r.
Proof.
  intros Hm. unfold generate_batch. intros E. apply bind_inr_inv in E as ([] & w1 & _ & E).
  apply bind_inr_inv in E as (x & w2 & _ & E).
  apply bind_inr_inv in E as (t & w3 & [Ht ->]%the_tokenizer_inv & E).
  apply bind_inr_inv in E as (n & w3 & [= _ <-] & E). apply bind_inr_inv in E as ([] & w3 & [= <-] & E).
  apply bind_inr_inv in E as ([ids mask] & w3 & [Ee ->]%lift_inv & E).
  destruct (encode_batch_spec t prompts _ ids mask Ee) as (L1 & L2 & k & Hk).
  apply bind_inr_inv in E as (y & w3 & [Ht3 _]%elapsed_inv & E). apply bind_inr_inv in E as (z & w4 & [= _ <-] & E).
  apply bind_inr_inv in E as (md & w4 & [_ ->]%the_model_inv & E).
  apply bind_inr_inv in E as (out & w4 & [Eg ->]%lift_inv & E).
  destruct (generate_ids_spec _ _ _ _ _ _ _ out Hm Eg) as (new & Eo & Ln & Hn).
  apply bind_inr_inv in E as (v & w4 & [Ht4 _]%elapsed_inv & E). cbn in Ht3, Ht4. rewrite Eo in E.
  destruct prompts as [|p prompts].
  { destruct (tolist ids); [|done]. injection E as <- <-. exists t. split_and!; [congruence|done|].
    by intros r ?%not_elem_of_nil. }
  rewrite (width_spec ids k) in E by (first [done|by intros Ex; rewrite Ex in L1]).
  apply (read_outputs_spec perf k _ _ _ _ _ t) in E as (Ht' & Hl & Hrs); [|congruence|done..].
  exists t. split_and!; [done|congruence|]. intros r [i Hi]%list_elem_of_lookup.
  destruct (Hrs i r Hi) as (n0 & l & _ & Hl' & Hr). split; [|by exists n0, l].
  rewrite Forall_lookup in Hn. specialize (Hn i l Hl'). destruct Hr as (_ & _ & ->).
  pose proof (meaningful_length (eos_token_id t) l).
  assert (0 < length (meaningful_ids (eos_token_id t) l))%nat; [|lia].
  apply meaningful_nonempty. intros ->. cbn in Hn. lia.
Qed.
End lemmas.
