(* ===== verification/BackendExecutor.v ===== *)
(** [inference/backend.py], [BackendExecutor]: one command lane for the calls of a backend, a thread pool with a
    single thread. Calls are numbered in the order of their submission. *)
From S2P Require Import Prelude.

#[local] Open Scope list_scope.

(** ** State and operations *)

(** The coroutine that awaits a call in [run_async]: in the loop of the [try] statement, in the one of its
    [except] clause, or over. [Left]: over although the call was not. *)
Inductive Waiter := Awaiting | Draining | Over | Left.
Inductive ShutdownState := Open | Closing | Closed.
(** [ex_waiting] is the queue of the pool, [ex_running] what its thread runs and [ex_finished] the calls whose
    future is done. *)
Record BackendExecutor := mkExecutor {
  ex_shutdown : ShutdownState;
  ex_submitted : nat;
  ex_waiting : list nat;
  ex_running : option nat;
  ex_finished : list nat;
  ex_waiters : gmap nat Waiter
}.
#[export] Instance eta_BackendExecutor : Eta BackendExecutor := λ x,
  mkExecutor (ex_shutdown x) (ex_submitted x) (ex_waiting x) (ex_running x) (ex_finished x) (ex_waiters x).
Definition BackendExecutor_init : BackendExecutor := mkExecutor Open 0 [] None [] ∅.
Definition ex_closed (x : BackendExecutor) : bool := match ex_shutdown x with Open => false | _ => true end.

Definition submit (x : BackendExecutor) : res (nat * BackendExecutor) :=
  if ex_closed x then Err (RuntimeError "backend executor is shut down")
  else Ok (ex_submitted x,
           x <| ex_submitted ::= S |> <| ex_waiting ::= λ q, q ++ [ex_submitted x] |>).
(** [run_async] up to its first suspension. *)
Definition run_async (x : BackendExecutor) : res (nat * BackendExecutor) :=
  '(n, x) ← submit x; Ok (n, x <| ex_waiters ::= <[n := Awaiting]> |>).
(** [shutdown] up to the wait for the pool; closed already, it returns at once. *)
Definition shutdown (x : BackendExecutor) : BackendExecutor :=
  match ex_shutdown x with Open => x <| ex_shutdown := Closing |> | _ => x end.

(** What can happen next. [Cancel] is a cancellation delivered to the coroutine. *)
Inductive Event :=
  | Submit | RunAsync | PoolStarts | PoolFinishes | Resume (n : nat) | Cancel (n : nat) | Shutdown | ShutdownReturns.
Definition done_call (n : nat) (x : BackendExecutor) : bool := bool_decide (n ∈ ex_finished x).
(** [None]: it cannot happen now. *)
Definition executor_step (e : Event) (x : BackendExecutor) : option BackendExecutor :=
  match e with
  | Submit => match submit x with Ok (_, x) => Some x | Err _ => Some x end
  | RunAsync => match run_async x with Ok (_, x) => Some x | Err _ => Some x end
  | PoolStarts =>
    match ex_running x, ex_waiting x with
    | None, n :: q => Some (x <| ex_running := Some n |> <| ex_waiting := q |>)
    | _, _ => None
    end
  | PoolFinishes =>
    match ex_running x with
    | Some n => Some (x <| ex_running := None |> <| ex_finished ::= λ l, l ++ [n] |>)
    | None => None
    end
  | Resume n =>
    match ex_waiters x !! n with
    | Some Awaiting | Some Draining => if done_call n x then Some (x <| ex_waiters ::= <[n := Over]> |>) else Some x
    | _ => None
    end
  | Cancel n =>
    match ex_waiters x !! n with
    | Some Awaiting => Some (x <| ex_waiters ::= <[n := if done_call n x then Over else Draining]> |>)
    | Some Draining => Some (x <| ex_waiters ::= <[n := if done_call n x then Over else Left]> |>)
    | _ => None
    end
  | Shutdown => Some (shutdown x)
  | ShutdownReturns =>
    match ex_shutdown x, ex_waiting x, ex_running x with
    | Closing, [], None => Some (x <| ex_shutdown := Closed |>)
    | _, _, _ => None
    end
  end.
Fixpoint executor_run (es : list Event) (x : BackendExecutor) : option BackendExecutor :=
  match es with [] => Some x | e :: es => x ← executor_step e x; executor_run es x end.

(** ** One lane *)

Record executor_ok (x : BackendExecutor) : Prop := {
  eo_order : ex_finished x ++ option_list (ex_running x) ++ ex_waiting x = seq 0 (ex_submitted x);
  eo_over : ∀ n, ex_waiters x !! n = Some Over → n ∈ ex_finished x;
  eo_closed : ex_shutdown x = Closed → ex_finished x = seq 0 (ex_submitted x) ∧ ex_running x = None ∧ ex_waiting x = []
}.
Lemma executor_init_ok : executor_ok BackendExecutor_init.
Proof. by split. Qed.
Lemma submit_ok x n x' :
  executor_ok x → submit x = Ok (n, x') → executor_ok x' ∧ ex_waiters x' = ex_waiters x ∧ ex_finished x' = ex_finished x.
Proof.
  intros [Ho Hv Hc]. unfold submit, ex_closed. destruct (ex_shutdown x) eqn:E; try done. intros [= <- <-].
  split; [|done]. split; cbn -[seq]; [|done|by rewrite E].
  by rewrite seq_S, <- Ho, <- !app_assoc.
Qed.
Lemma waiter_ok x n v : executor_ok x → (v = Over → n ∈ ex_finished x) → executor_ok (x <| ex_waiters ::= <[n := v]> |>).
Proof.
  intros [Ho Hv Hc] Hn. split; cbn; [done| |done]. intros k [[<- Hk]|[? Hk]]%lookup_insert_Some; auto.
Qed.
Lemma executor_step_ok e x x' : executor_step e x = Some x' → executor_ok x → executor_ok x'.
Proof.
  intros E Hx. pose proof Hx as [Ho Hv Hc]. destruct e as [| | | |n|n| |]; cbn in E.
  - destruct (submit x) as [[n x1]|] eqn:Es; simplify_eq; [|done]. by eapply submit_ok.
  - unfold run_async in E. destruct (submit x) as [[n x1]|] eqn:Es; cbn in E; simplify_eq; [|done].
    apply waiter_ok; [|done]. by eapply submit_ok.
  - repeat case_match; simplify_eq. split; cbn in *; [|done|].
    + by rewrite <- Ho.
    + intros Hd. by destruct (Hc Hd) as (_ & _ & ?).
  - case_match; simplify_eq. split; cbn in *.
    + by rewrite <- Ho, <- app_assoc.
    + intros k Hk. apply elem_of_app. auto.
    + intros Hd. by destruct (Hc Hd) as (_ & ? & _).
  - unfold done_call in E. repeat case_match; simplify_eq; try done; apply waiter_ok; try done; intros _;
      by eapply bool_decide_eq_true_1.
  - unfold done_call in E. repeat case_match; simplify_eq; apply waiter_ok; try done; intros _;
      by eapply bool_decide_eq_true_1.
  - simplify_eq. unfold shutdown. destruct (ex_shutdown x) eqn:Es; [|done..]. split; cbn; done.
  - destruct (ex_shutdown x) eqn:Es, (ex_waiting x) eqn:Ew, (ex_running x) eqn:Er; simplify_eq.
    split; cbn; rewrite ?Ew, ?Er; [done..|]. intros _. by rewrite app_nil_r in Ho.
Qed.
Lemma executor_run_ok es x x' : executor_run es x = Some x' → executor_ok x → executor_ok x'.
Proof.
  revert x. induction es as [|e es IH]; intros x; cbn; [by intros [= <-]|].
  intros (x1 & E & H)%bind_Some Hx. by eapply IH, executor_step_ok.
Qed.

(** C26: Whatever is submitted, cancelled and shut down in whatever order: the calls are run one at a time in the order
    of their submission (those that are over, the one that runs and those that wait are all the calls, in that
    order); a coroutine whose [run_async] ended normally, or by a first cancellation, left no call behind; and
    when the first [shutdown] has returned every call that was accepted is over and no other is accepted. *)
Theorem executor_one_lane es x :
  executor_run es BackendExecutor_init = Some x →
  ex_finished x ++ option_list (ex_running x) ++ ex_waiting x = seq 0 (ex_submitted x) ∧
  (∀ n, ex_waiters x !! n = Some Over → n ∈ ex_finished x) ∧
  (ex_shutdown x = Closed → ex_finished x = seq 0 (ex_submitted x) ∧ ∃ e, submit x = Err e).
Proof.
  intros E. destruct (executor_run_ok _ _ _ E executor_init_ok) as [Ho Hv Hc]. split_and!; [done..|].
  intros Hd. destruct (Hc Hd) as (? & _). split; [done|]. unfold submit, ex_closed. rewrite Hd. by eexists.
Qed.
Definition sample_events : list Event :=
  [RunAsync; RunAsync; PoolStarts; Cancel 0%nat; Resume 0%nat; PoolFinishes; Resume 0%nat; PoolStarts; Shutdown; PoolFinishes;
   ShutdownReturns; RunAsync].
Lemma executor_one_lane_witness :
  ∃ x, executor_run sample_events BackendExecutor_init = Some x ∧ ex_waiters x !! 0%nat = Some Over ∧ ex_finished x = [0%nat; 1%nat] ∧
  ex_finished x ++ option_list (ex_running x) ++ ex_waiting x = seq 0 (ex_submitted x) ∧
  (∀ n, ex_waiters x !! n = Some Over → n ∈ ex_finished x) ∧
  (ex_shutdown x = Closed → ex_finished x = seq 0 (ex_submitted x) ∧ ∃ e, submit x = Err e).
Proof. eexists. split; [reflexivity|]. split; [reflexivity|]. split; [reflexivity|]. by apply (executor_one_lane sample_events). Defined.

(** A second cancellation ends the coroutine while its call is still running. *)
Lemma second_cancellation_leaves_call :
  ∃ x, executor_run [RunAsync; PoolStarts; Cancel 0%nat; Cancel 0%nat] BackendExecutor_init = Some x ∧
    ex_waiters x !! 0%nat = Some Left ∧ ex_running x = Some 0%nat.
Proof. eexists. by split_and!. Qed.
