(* ===== verification/TokenEngine.v ===== *)
(** [inference/token_engine.py] and [inference/backend.py]: the continuous-batching token engine.
    Coroutines run one at a time between [await]s, so a computation is a state transformer; each
    [await] is a step at which the calls of other tasks happen ([script]), and the backend is any
    implementation of the protocol [InferenceBackend]. *)
From S2P Require Import Prelude PyContainers PyFloat Effects KVCache PrefixCache TokenTypes.
From Stdlib Require String.

#[local] Open Scope string_scope.
#[local] Open Scope list_scope.
#[local] Open Scope Z_scope.

(** ** The backend *)

(** [BatchTokenResult]; a failure is an exception, given by its message. *)
Record BatchTokenResult := mkBatchResult {
  br_tokens : gmap string GeneratedToken;
  br_failures : gmap string string
}.
Definition PrefillRequest : Type := string * TokenizedPrompt * SamplingParameters.
Definition DecodeRequest : Type := string * SamplingParameters * Z.

(** The protocol [InferenceBackend], over the backend's own state [S]; [B] is the type of its prefix
    snapshots. A method the code looks up with [getattr(..., None)] is optional. *)
Class InferenceBackend (S B : Type) := {
  bk_vocabulary_size : Eff S string Z;
  bk_tokenize : string → Eff S string TokenizedPrompt;
  bk_eos_token_ids : Eff S string (list Z);
  bk_prefill : string → TokenizedPrompt → SamplingParameters → Eff S string GeneratedToken;
  bk_decode : string → SamplingParameters → Z → Eff S string GeneratedToken;
  bk_prefill_batch : option (list PrefillRequest → Eff S string BatchTokenResult);
  bk_prefill_chunk : option (string → TokenizedPrompt → SamplingParameters → bool →
    Eff S string (option GeneratedToken));
  bk_decode_batch : option (list DecodeRequest → Eff S string BatchTokenResult);
  bk_restore_prefix : option (string → B → SamplingParameters → Eff S string GeneratedToken);
  bk_resume_prefix :
    option (string → B → TokenizedPrompt → SamplingParameters → Eff S string GeneratedToken);
  bk_snapshot_prefix : option (string → Eff S string B);
  bk_release_sequence : string → Eff S string unit;
  bk_shutdown : Eff S string unit
}.

Abbreviation loc := positive.

(** ** State *)

(** What a stream delivers; [EvFailure] is [_SequenceFailure]. Exceptions: [EBackend] is raised by
    the model; [EBlocked]: the await never returns; [EFuel]: the given number of steps is used up. *)
Inductive Exc :=
  | EPy (e : PyErr) | EEngineCapacity (message : string) | EInvalidStopToken (message : string)
  | EBackend (message : string) | EBlocked | EFuel.
Inductive Event :=
  | EvToken (t : GeneratedToken) | EvComplete (c : GenerationComplete) | EvFailure (e : Exc).

(** [sq_taken] is a history variable, which nothing reads: the events that the sequence's readers have
    been given, in order. *)
Record ScheduledSequence := mkScheduled {
  sq_state : SequenceState;
  sq_taken : list Event;
  sq_events : list Event;
  sq_done : bool;
  sq_tokenized : option TokenizedPrompt;
  sq_backend_created : bool;
  sq_cache_tokens : Z;
  sq_prefill_offset : Z
}.
#[export] Instance eta_ScheduledSequence : Eta ScheduledSequence := λ s,
  mkScheduled (sq_state s) (sq_taken s) (sq_events s) (sq_done s) (sq_tokenized s) (sq_backend_created s)
    (sq_cache_tokens s) (sq_prefill_offset s).
Definition ScheduledSequence_init (s : SequenceState) : ScheduledSequence :=
  mkScheduled s [] [] false None false 0 0.

Record TokenSchedulerSnapshot := mkSchedulerSnapshot {
  sn_waiting_sequences : Z;
  sn_running_sequences : Z;
  sn_scheduler_iterations : Z;
  sn_prefill_batches : Z;
  sn_decode_batches : Z;
  sn_max_observed_batch_size : Z;
  sn_policy : string;
  sn_kv_cache : KVCacheSnapshot;
  sn_prefix_cache : PrefixCacheSnapshot
}.

(** [_scheduler_task]: [None], a task that has not ended, and a task that returned or raised. *)
Inductive SchedulerTask := TaskNone | TaskRunning | TaskDone (outcome : Exc + unit).

Section world.
Context {S B : Type}.

(** The engine, the sequence objects its dictionaries and the streams share, the backend's state,
    and how many clock readings and awaits have been made. *)
Record TokenGenerationEngine := mkEngine {
  te_max_active_sequences : Z;
  te_max_batch_size : Z;
  te_policy : PrefillDecodePolicy;
  te_prefill_chunk_size_tokens : Z;
  te_kv_allocator : KVBlockAllocator;
  te_prefix_cache : PrefixCache (B := B);
  te_heap : gmap loc ScheduledSequence;
  te_active : list (string * loc);
  te_finished : list (string * loc);
  te_scheduler_task : SchedulerTask;
  te_wake : bool;
  te_closed : bool;
  te_eos_ids : option (list Z);
  te_iterations : Z;
  te_prefill_batches : Z;
  te_decode_batches : Z;
  te_max_observed_batch_size : Z;
  te_executor_closed : bool;
  te_backend : S;
  te_readings : nat;
  te_awaits : nat
}.
#[export] Instance eta_TokenGenerationEngine : Eta TokenGenerationEngine := λ w,
  mkEngine (te_max_active_sequences w) (te_max_batch_size w) (te_policy w)
    (te_prefill_chunk_size_tokens w) (te_kv_allocator w) (te_prefix_cache w) (te_heap w)
    (te_active w) (te_finished w) (te_scheduler_task w) (te_wake w) (te_closed w) (te_eos_ids w)
    (te_iterations w) (te_prefill_batches w) (te_decode_batches w) (te_max_observed_batch_size w)
    (te_executor_closed w) (te_backend w) (te_readings w) (te_awaits w).

(** [max_batch_size or max_active_sequences]; [None] selects the default allocator and cache. *)
Definition TokenGenerationEngine_init (backend : S) (max_active_sequences : Z)
  (max_batch_size : option Z) (scheduling_policy : string) (kv_allocator : option KVBlockAllocator)
  (prefill_chunk_size_tokens : Z) (prefix_cache : option (PrefixCache (B := B)))
  : res TokenGenerationEngine :=
  _ ← raise_if (max_active_sequences <=? 0)
    (ValueError "maximum active sequences must be positive");
  _ ← raise_if (match max_batch_size with Some n => n <=? 0 | None => false end)
    (ValueError "token batch size must be positive");
  _ ← raise_if (prefill_chunk_size_tokens <? 0)
    (ValueError "prefill chunk size must be non-negative");
  policy ← PrefillDecodePolicy_init scheduling_policy;
  kv ← match kv_allocator with
       | Some a => Ok a
       | None => KVBlockAllocator_init (Z.max 1024 (max_active_sequences * 16)) 16 1
                   (f_ratio 9 10) (f_ratio 7 10)
       end;
  prefix ← match prefix_cache with Some c => Ok c | None => PrefixCache_init 0 0 end;
  Ok (mkEngine max_active_sequences (default max_active_sequences max_batch_size) policy
        prefill_chunk_size_tokens kv prefix ∅ [] [] TaskNone false false None 0 0 0 0 false backend
        0 0).
End world.
Arguments TokenGenerationEngine S B : clear implicits.

(** ** Operations *)

Section engine.
Context {S B : Type} `{InferenceBackend S B}.
#[local] Abbreviation World := (TokenGenerationEngine S B).
#[local] Abbreviation M := (Eff World Exc).

(** What other tasks do at an await. [EnvStreamReturn]: the consumer of a stream resumes it after the
    completion event; [EnvStreamClose]: it closes the generator at a [yield]; [EnvStreamCancel] and
    [EnvStreamCancelled]: its task is cancelled while it waits for an event, and resumes once the
    sequence is done. *)
Inductive EnvAction :=
  | EnvReserve (request_id prompt : string) (sampling : SamplingParameters) (deadline : float)
      (prompt_token_count : Z)
  | EnvCancel (request_id : string)
  | EnvStreamOpen (request_id : string)
  | EnvStreamNext (request_id : string) (l : loc)
  | EnvStreamReturn (request_id : string) (l : loc)
  | EnvStreamClose (request_id : string) (l : loc)
  | EnvStreamCancel (l : loc)
  | EnvStreamCancelled (request_id : string) (l : loc)
  | EnvVocabularySize
  | EnvTokenize (prompt : string)
  | EnvShutdown.

(** [time.monotonic] and [time.perf_counter] at each reading, and the calls made at each await. *)
Variable clock : nat → float.
Variable perf : nat → float.
Variable script : nat → list EnvAction.

Definition monotonic : M float := λ w, (inr (clock (te_readings w)), w <| te_readings ::= Datatypes.S |>).
Definition perf_counter : M float := λ w, (inr (perf (te_readings w)), w <| te_readings ::= Datatypes.S |>).
(** [(time.perf_counter() - started) * 1000]. *)
Definition elapsed_since (started : float) : M float :=
  now ← perf_counter; mret (f_mul (f_sub now started) (f_of_Z 1000)).
Definition lift_res {A} (r : res A) : M A := λ w,
  match r with Ok a => (inr a, w) | Err e => (inl (EPy e), w) end.

Definition no_sequence : ScheduledSequence :=
  ScheduledSequence_init
    (SequenceState_init "" "" (mkSampling 0 f_zero f_zero []) f_zero f_zero).
Definition seq_at (l : loc) (w : World) : ScheduledSequence := default no_sequence (te_heap w !! l).
Definition id_at (l : loc) (w : World) : string := ss_request_id (sq_state (seq_at l w)).
Definition get_seq (l : loc) : M ScheduledSequence := gets (seq_at l).
Definition update_seq (l : loc) (f : ScheduledSequence → ScheduledSequence) : M unit :=
  modify (λ w, w <| te_heap ::= alter f l |>).
Definition update_state (l : loc) (f : SequenceState → SequenceState) : M unit :=
  update_seq l (λ s, s <| sq_state ::= f |>).
Definition set_wake : M unit := modify (λ w, w <| te_wake := true |>).
Definition set_cancellation (l : loc) : M unit :=
  update_state l (λ s, s <| ss_cancellation := true |>).
Definition pop_finished (request_id : string) : M unit :=
  modify (λ w, w <| te_finished ::= od_del request_id |>).
Definition tokens_of (s : ScheduledSequence) : list Z :=
  match sq_tokenized s with Some t => tp_token_ids t | None => [] end.

Definition active_sequence_count (w : World) : Z := Z.of_nat (length (te_active w)).
Definition cancel (request_id : string) : M bool :=
  active ← gets te_active;
  match od_get request_id active with
  | None => mret false
  | Some l =>
    s ← get_seq l;
    if ss_terminal (sq_state s) then mret false
    else _ ← set_cancellation l; _ ← set_wake; mret true
  end.
Definition phase (request_id : string) (w : World) : option SequencePhase :=
  (λ l, ss_phase (sq_state (seq_at l w))) <$> od_get request_id (te_active w).

Definition reserve (request_id prompt : string) (sampling : SamplingParameters) (deadline : float)
  (prompt_token_count : Z) : M unit :=
  w ← gets id;
  if te_closed w then raise (EPy (RuntimeError "generation engine is shut down"))
  else if od_has request_id (te_active w) || od_has request_id (te_finished w) then
    raise (EPy (ValueError ("sequence already exists: " +:+ request_id)))
  else if te_max_active_sequences w <=? active_sequence_count w then
    raise (EEngineCapacity "token engine is at sequence capacity")
  else
    let '(r, kv) := KVCache.allocate request_id (prompt_token_count + sp_max_new_tokens sampling)
                      (te_kv_allocator w) in
    _ ← modify (λ w, w <| te_kv_allocator := kv |>);
    match r with
    | Err (KVCacheCapacityError message) => raise (EEngineCapacity message)
    | Err e => raise (EPy e)
    | Ok blocks =>
      now ← monotonic;
      let state := SequenceState_init request_id prompt sampling deadline now
                     <| ss_kv_block_ids := blocks |> in
      _ ← modify (λ w,
        let l := fresh (dom (te_heap w)) in
        w <| te_heap ::= <[l := ScheduledSequence_init state]> |>
          <| te_active ::= od_set request_id l |>);
      set_wake
    end.

Definition check_interruption (l : loc) : M (option FinishReason) :=
  s ← get_seq l;
  if ss_cancellation (sq_state s) then mret (Some FCancelled)
  else
    now ← monotonic;
    mret (if f_leb (ss_deadline (sq_state s)) now then Some FTimeout else None).
Definition phase_for (reason : FinishReason) : SequencePhase :=
  match reason with
  | FCancelled => PCancelled | FTimeout => PTimedOut | FFailed => PFailed | _ => PCompleted
  end.
Definition ensure_scheduler : M unit :=
  task ← gets te_scheduler_task;
  match task with
  | TaskNone => modify (λ w, w <| te_scheduler_task := TaskRunning |>)
  | _ => mret tt
  end.

(** *** The consumer's side: [stream] *)

Definition stream_open (request_id : string) : M loc :=
  w ← gets id;
  match od_get request_id (te_active w) with
  | Some l => _ ← ensure_scheduler; mret l
  | None =>
    match od_get request_id (te_finished w) with
    | Some l => _ ← ensure_scheduler; mret l
    | None => raise (EPy (KeyError ("sequence is not reserved: " +:+ request_id)))
    end
  end.
(** The [finally] clause. *)
Definition stream_finally (request_id : string) (l : loc) : M unit :=
  s ← get_seq l;
  if negb (sq_done s) then _ ← set_cancellation l; set_wake
  else if bool_decide (sq_events s = []) then pop_finished request_id
  else mret tt.
(** The effect of [events.get()]. *)
Definition take_event (event : Event) (events : list Event) (s : ScheduledSequence) : ScheduledSequence :=
  s <| sq_taken ::= λ taken, taken ++ [event] |> <| sq_events := events |>.
(** From [events.get()] to the [yield]; [None]: there is no event yet. *)
Definition stream_next (request_id : string) (l : loc) : M (option Event) :=
  s ← get_seq l;
  match sq_events s with
  | [] => mret None
  | event :: events =>
    _ ← update_seq l (take_event event events);
    match event with
    | EvFailure error => _ ← stream_finally request_id l; raise error
    | event => mret (Some event)
    end
  end.
(** Resumed after a completion event. *)
Definition stream_return (request_id : string) (l : loc) : M unit :=
  _ ← pop_finished request_id; stream_finally request_id l.
(** The [except asyncio.CancelledError] clause, before and after it waits for [done]. *)
Definition stream_cancel (l : loc) : M unit := _ ← set_cancellation l; set_wake.
Definition stream_cancelled (request_id : string) (l : loc) : M unit :=
  _ ← pop_finished request_id; stream_finally request_id l.

(** [shutdown] up to its first [await]. *)
Definition shutdown_begin : M bool :=
  closed ← gets te_closed;
  if (closed : bool) then mret false
  else
    _ ← modify (λ w, w <| te_closed := true |>);
    active ← gets te_active;
    _ ← for_each set_cancellation (od_values active);
    _ ← set_wake; mret true.

(** *** Suspension points *)

Definition backend_call {A} (c : Eff S string A) : M A := λ w,
  match c (te_backend w) with
  | (inr a, s) => (inr a, w <| te_backend := s |>)
  | (inl message, s) => (inl (EBackend message), w <| te_backend := s |>)
  end.
Definition on_heap (l : loc) (c : World → World) (w : World) : World :=
  match te_heap w !! l with None => w | Some _ => c w end.
(** Another task's call; an exception goes to that task. The task that reserves has constructed the
    sampling parameters. *)
Definition env_action (a : EnvAction) (w : World) : World :=
  match a with
  | EnvReserve request_id prompt sampling deadline count =>
    match SamplingParameters_post_init sampling with
    | Ok sampling => snd (reserve request_id prompt sampling deadline count w)
    | Err _ => w
    end
  | EnvCancel request_id => snd (cancel request_id w)
  | EnvStreamOpen request_id => snd (stream_open request_id w)
  | EnvStreamNext request_id l => on_heap l (λ w, snd (stream_next request_id l w)) w
  | EnvStreamReturn request_id l => on_heap l (λ w, snd (stream_return request_id l w)) w
  | EnvStreamClose request_id l => on_heap l (λ w, snd (stream_finally request_id l w)) w
  | EnvStreamCancel l => on_heap l (λ w, snd (stream_cancel l w)) w
  | EnvStreamCancelled request_id l =>
    on_heap l (λ w, if sq_done (seq_at l w) then snd (stream_cancelled request_id l w) else w) w
  | EnvVocabularySize => snd (backend_call bk_vocabulary_size w)
  | EnvTokenize prompt => snd (backend_call (bk_tokenize prompt) w)
  | EnvShutdown => snd (shutdown_begin w)
  end.
Definition suspend : M unit := λ w,
  (inr tt, foldl (λ w a, env_action a w) (w <| te_awaits ::= Datatypes.S |>) (script (te_awaits w))).
(** [BackendExecutor.run_async]: the command is submitted, and the task sleeps until it is done. *)
Definition run_async {A} (c : Eff S string A) : M A :=
  closed ← gets te_executor_closed;
  if (closed : bool) then raise (EPy (RuntimeError "backend executor is shut down"))
  else _ ← suspend; backend_call c.
(** [self._wake.wait()], which returns at once when the event is set. *)
Definition wait_wake : M unit :=
  awake ← gets te_wake;
  if (awake : bool) then mret tt
  else
    _ ← suspend;
    awake ← gets te_wake;
    if (awake : bool) then mret tt else raise EBlocked.

(** *** Requests *)

Definition validate_sampling (sampling : SamplingParameters) : M unit :=
  vocabulary_size ← run_async bk_vocabulary_size;
  if existsb (λ t, vocabulary_size <=? t) (sp_stop_token_ids sampling)
  then raise (EInvalidStopToken "stop token identifier exceeds model vocabulary")
  else mret tt.
Definition count_prompt_tokens (prompt : string) : M Z :=
  tokenized ← run_async (bk_tokenize prompt); mret (Z.of_nat (length (tp_token_ids tokenized))).

Definition phase_in (phases : list SequencePhase) (w : World) (l : loc) : bool :=
  bool_decide (ss_phase (sq_state (seq_at l w)) ∈ phases).
Definition scheduler_snapshot (w : World) : TokenSchedulerSnapshot :=
  let count phases := Z.of_nat (length (filter (phase_in phases w) (od_values (te_active w)))) in
  mkSchedulerSnapshot (count [PQueued]) (count [PPrefill; PDecode]) (te_iterations w)
    (te_prefill_batches w) (te_decode_batches w) (te_max_observed_batch_size w)
    (policy_name_value (pp_name (te_policy w))) (KVCache.snapshot (te_kv_allocator w))
    (PrefixCache.snapshot (te_prefix_cache w)).

(** *** Ending a sequence *)

(** The common text of [_complete] and [_fail]. *)
Definition retire (l : loc) (final : SequencePhase) (event : ScheduledSequence → Event) : M unit :=
  request_id ← gets (id_at l);
  active ← gets te_active;
  if negb (od_has request_id active) then mret tt
  else
    _ ← update_state l (λ s, s <| ss_phase := final |>);
    s ← get_seq l;
    _ ← (if sq_backend_created s then
           _ ← run_async (bk_release_sequence request_id);
           update_seq l (λ s, s <| sq_backend_created := false |>)
         else mret tt);
    kv ← gets te_kv_allocator;
    released ← lift_res (KVCache.release request_id kv);
    _ ← modify (λ w, w <| te_kv_allocator := snd released |>
                       <| te_active ::= od_del request_id |>
                       <| te_finished ::= od_set request_id l |>);
    _ ← update_seq l (λ s, s <| sq_events ::= λ events, events ++ [event s] |>);
    _ ← update_seq l (λ s, s <| sq_done := true |>);
    set_wake.
Definition completion (reason : FinishReason) (s : ScheduledSequence) : Event :=
  EvComplete (mkComplete reason (Z.of_nat (length (ss_prompt_token_ids (sq_state s))))
    (Z.of_nat (length (ss_generated_token_ids (sq_state s)))) (ss_prefill_ms (sq_state s))
    (ss_decode_ms (sq_state s))).
Definition complete (l : loc) (reason : FinishReason) : M unit :=
  retire l (phase_for reason) (completion reason).
Definition fail_sequence (l : loc) (error : Exc) : M unit :=
  retire l PFailed (λ _, EvFailure error).
Definition fail_all (batch : list loc) (error : Exc) : M unit :=
  for_each (λ l, fail_sequence l error) batch.

(** *** Tokens *)

Definition get_eos_ids : M (list Z) :=
  known ← gets te_eos_ids;
  match known with
  | Some ids => mret ids
  | None =>
    ids ← run_async bk_eos_token_ids;
    _ ← modify (λ w, w <| te_eos_ids := Some ids |>); mret ids
  end.
Definition accept_token (l : loc) (token : GeneratedToken) (eos_ids : list Z) : M unit :=
  interrupted ← check_interruption l;
  match interrupted with
  | Some reason => complete l reason
  | None =>
    s ← get_seq l;
    if bool_decide (gt_token_id token ∈ eos_ids) then complete l FEos
    else if bool_decide (gt_token_id token ∈ sp_stop_token_ids (ss_sampling (sq_state s))) then
      complete l FStop
    else
      _ ← update_state l (λ s, s <| ss_phase := PDecode |>
                                 <| ss_generated_token_ids ::= λ ids, ids ++ [gt_token_id token] |>);
      _ ← update_seq l (λ s, s <| sq_events ::= λ events, events ++ [EvToken token] |>);
      s ← get_seq l;
      if sp_max_new_tokens (ss_sampling (sq_state s))
           <=? Z.of_nat (length (ss_generated_token_ids (sq_state s)))
      then complete l FLength
      else mret tt
  end.

Definition store_prefix (l : loc) : M unit :=
  cache ← gets te_prefix_cache;
  s ← get_seq l;
  match enabled cache, sq_tokenized s, bk_snapshot_prefix with
  | true, Some tokenized, Some snapshot_method =>
    snapshot ← run_async (snapshot_method (ss_request_id (sq_state s)));
    cache ← gets te_prefix_cache;
    stored ← lift_res (PrefixCache.put (tp_token_ids tokenized) snapshot cache);
    modify (λ w, w <| te_prefix_cache := snd stored |>)
  | _, _, _ => mret tt
  end.

(** *** The workload of one iteration *)

Definition created_le (w : World) (l1 l2 : loc) : bool :=
  negb (f_ltb (ss_created_at (sq_state (seq_at l2 w))) (ss_created_at (sq_state (seq_at l1 w)))).
Definition sets (w : World) : list loc * list loc :=
  (sorted_by (created_le w) (filter (phase_in [PQueued; PPrefill] w) (od_values (te_active w))),
   sorted_by (created_le w) (filter (phase_in [PDecode] w) (od_values (te_active w)))).

(** [self._active[request_id].cache_tokens]. *)
Definition cache_tokens_of (w : World) (request_id : string) : res Z :=
  match od_get request_id (te_active w) with
  | Some l => Ok (sq_cache_tokens (seq_at l w))
  | None => Err (KeyError request_id)
  end.
Fixpoint all_cache_tokens (w : World) (ids : list string) : res (list Z) :=
  match ids with
  | [] => Ok []
  | i :: ids => n ← cache_tokens_of w i; ns ← all_cache_tokens w ids; Ok (n :: ns)
  end.
Definition has_cache_tokens (w : World) (target : Z) (request_id : string) : bool :=
  match cache_tokens_of w request_id with Ok n => n =? target | Err _ => false end.
Definition compatible_ids (w : World) (ids : list string) : res (list string) :=
  ns ← all_cache_tokens w ids;
  match py_min Z.ltb ns with
  | None => Err (ValueError "min() iterable argument is empty")
  | Some target => Ok (filter (has_cache_tokens w target) ids)
  end.
Definition decision : M TokenSchedulingDecision :=
  w ← gets id;
  let '(waiting, running) := sets w in
  let resources :=
    mkResources (te_max_active_sequences w - active_sequence_count w)
      (ks_free_blocks (KVCache.snapshot (te_kv_allocator w))) (te_max_batch_size w) in
  let '(d, policy) := select ((λ l, sq_state (seq_at l w)) <$> waiting)
                        ((λ l, sq_state (seq_at l w)) <$> running) resources (te_policy w) in
  _ ← modify (λ w, w <| te_policy := policy |>);
  if negb (no_ids (td_decode_ids d)) then
    ids ← lift_res (compatible_ids w (td_decode_ids d));
    mret (mkDecision [] ids (td_reason d))
  else mret d.

Definition finish_interrupted : M unit :=
  active ← gets te_active;
  for_each (λ l,
    reason ← check_interruption l;
    match reason with Some reason => complete l reason | None => mret tt end) (od_values active).

(** *** Prefill *)

(** The [if runtime.tokenized is None] statement. *)
Definition ensure_tokenized (l : loc) : M unit :=
  s ← get_seq l;
  match sq_tokenized s with
  | Some _ => mret tt
  | None =>
    tokenized ← run_async (bk_tokenize (ss_prompt (sq_state s)));
    _ ← update_seq l (λ s, s <| sq_tokenized := Some tokenized |>);
    _ ← update_state l (λ s, s <| ss_prompt_token_ids := tp_token_ids tokenized |>);
    kv ← gets te_kv_allocator;
    let '(r, kv) := KVCache.resize (ss_request_id (sq_state s))
      (Z.of_nat (length (tp_token_ids tokenized)) + sp_max_new_tokens (ss_sampling (sq_state s))) kv in
    _ ← modify (λ w, w <| te_kv_allocator := kv |>);
    blocks ← lift_res r;
    update_state l (λ s, s <| ss_kv_block_ids := blocks |>)
  end.
Definition find_prefix (l : loc) : M (option (PrefixMatch (B := B))) :=
  match bk_restore_prefix with
  | None => mret None
  | Some _ =>
    s ← get_seq l;
    cache ← gets te_prefix_cache;
    let '(r, cache) := longest_prefix (tokens_of s)
      (negb (match bk_resume_prefix with Some _ => true | None => false end)) cache in
    _ ← modify (λ w, w <| te_prefix_cache := cache |>);
    lift_res r
  end.
(** The call of [restore] or of [resume]. *)
Definition restore_call (l : loc) (m : PrefixMatch (B := B)) : M GeneratedToken :=
  s ← get_seq l;
  let request_id := ss_request_id (sq_state s) in
  let sampling := ss_sampling (sq_state s) in
  if pm_exact m then
    match bk_restore_prefix with
    | Some restore => run_async (restore request_id (pm_backend_state m) sampling)
    | None => raise (EBackend "'NoneType' object is not callable")
    end
  else
    suffix ← lift_res (TokenizedPrompt_new (drop (Z.to_nat (matched_tokens m)) (tokens_of s)));
    match bk_resume_prefix with
    | Some resume => run_async (resume request_id (pm_backend_state m) suffix sampling)
    | None => raise (EBackend "'NoneType' object is not callable")
    end.
Definition add_prefill_ms (l : loc) (ms : float) : M unit :=
  update_state l (λ s, s <| ss_prefill_ms ::= λ t, f_add t ms |>).
Definition set_cache_tokens (l : loc) (token : GeneratedToken) : M unit :=
  update_seq l (λ s, s <| sq_cache_tokens := gt_cache_tokens token |>).
(** The body of [if match is not None]. *)
Definition use_prefix (l : loc) (m : PrefixMatch (B := B)) : M unit :=
  started ← perf_counter;
  token ← restore_call l m;
  elapsed ← elapsed_since started;
  _ ← add_prefill_ms l elapsed;
  _ ← set_cache_tokens l token;
  _ ← (if pm_exact m then mret tt else store_prefix l);
  eos_ids ← get_eos_ids;
  accept_token l token eos_ids.
(** One iteration of the first loop of [_run_prefill]; the result says whether the sequence joins
    the batch. *)
Definition prepare (l : loc) : M bool :=
  try_except
    (_ ← ensure_tokenized l;
     _ ← update_state l (λ s, s <| ss_phase := PPrefill |>);
     _ ← update_seq l (λ s, s <| sq_backend_created := true |>);
     m ← find_prefix l;
     match m with
     | Some m => _ ← use_prefix l m; mret false
     | None => mret true
     end)
    (λ e, _ ← fail_sequence l e; mret false).
Fixpoint prepare_all (request_ids : list string) : M (list loc) :=
  match request_ids with
  | [] => mret []
  | request_id :: request_ids =>
    active ← gets te_active;
    match od_get request_id active with
    | None => prepare_all request_ids
    | Some l =>
      joins ← prepare l;
      batch ← prepare_all request_ids;
      mret (if (joins : bool) then l :: batch else batch)
    end
  end.

(** The loops over the batch after a model call: [_run_prefill] and [_run_decode] differ in
    [add_ms], the field the elapsed time is added to, and in [store]. *)
Definition deliver (add_ms : loc → M unit) (store : loc → M unit) (outcome : BatchTokenResult)
  (eos_ids : list Z) (l : loc) : M unit :=
  request_id ← gets (id_at l);
  match br_failures outcome !! request_id with
  | Some message => fail_sequence l (EBackend message)
  | None =>
    _ ← add_ms l;
    match br_tokens outcome !! request_id with
    | None => raise (EPy (KeyError request_id))
    | Some token =>
      _ ← set_cache_tokens l token;
      _ ← store l;
      accept_token l token eos_ids
    end
  end.
Definition count_iteration (prefill : bool) (size : Z) : M unit :=
  modify (λ w, w <| te_iterations ::= λ n, n + 1 |>
                 <| te_prefill_batches ::= λ n, if prefill then n + 1 else n |>
                 <| te_decode_batches ::= λ n, if prefill then n else n + 1 |>
                 <| te_max_observed_batch_size ::= λ n, Z.max n size |>).
(** From [started = time.perf_counter()] to the end of [_run_prefill] and of [_run_decode]. *)
Definition run_batch (prefill : bool) (call : Eff S string BatchTokenResult)
  (add_ms : float → loc → M unit) (store : loc → M unit) (batch : list loc) : M unit :=
  started ← perf_counter;
  outcome ← attempt (run_async call);
  match outcome with
  | inl e => fail_all batch e
  | inr outcome =>
    elapsed ← elapsed_since started;
    _ ← count_iteration prefill (Z.of_nat (length batch));
    eos_ids ← attempt get_eos_ids;
    match eos_ids with
    | inl e => fail_all batch e
    | inr eos_ids => for_each (deliver (add_ms elapsed) store outcome eos_ids) batch
    end
  end.

(** The dictionary comprehension of [_prefill_fallback] and [_decode_fallback]. *)
Fixpoint one_by_one {R} (request_id : R → string) (call : R → Eff S string GeneratedToken)
  (requests : list R) (tokens : gmap string GeneratedToken) : Eff S string BatchTokenResult :=
  match requests with
  | [] => mret (mkBatchResult tokens ∅)
  | r :: requests =>
    token ← call r; one_by_one request_id call requests (<[request_id r := token]> tokens)
  end.
Definition prefill_fallback (requests : list PrefillRequest) : Eff S string BatchTokenResult :=
  one_by_one (λ r, r.1.1) (λ r, bk_prefill r.1.1 r.1.2 r.2) requests ∅.
Definition prefill_call (requests : list PrefillRequest) : Eff S string BatchTokenResult :=
  match bk_prefill_batch with Some method => method requests | None => prefill_fallback requests end.

Definition prefill_request (w : World) (l : loc) : option PrefillRequest :=
  let s := seq_at l w in
  tokenized ← sq_tokenized s;
  Some (ss_request_id (sq_state s), tokenized, ss_sampling (sq_state s)).

(** [xs[start:end]] for [0 <= start]. *)
Definition py_slice {A} (start end_ : Z) (xs : list A) : list A :=
  drop (Z.to_nat start) (take (Z.to_nat end_) xs).
(** One iteration of the loop of [_run_prefill_chunks]. *)
Definition prefill_chunk (method : string → TokenizedPrompt → SamplingParameters → bool →
    Eff S string (option GeneratedToken)) (eos_ids : list Z) (l : loc) : M unit :=
  w ← gets id;
  let s := seq_at l w in
  match od_get (id_at l w) (te_active w), sq_tokenized s with
  | Some _, Some tokenized =>
    let ids := tp_token_ids tokenized in
    let length_ := Z.of_nat (length ids) in
    let start := sq_prefill_offset s in
    let end_ := Z.min (start + te_prefill_chunk_size_tokens w) length_ in
    let final := end_ =? length_ in
    chunk ← lift_res (TokenizedPrompt_new (py_slice start end_ ids));
    started ← perf_counter;
    outcome ← attempt (run_async (method (id_at l w) chunk (ss_sampling (sq_state s)) final));
    match outcome with
    | inl e => fail_sequence l e
    | inr token =>
      elapsed ← elapsed_since started;
      _ ← add_prefill_ms l elapsed;
      _ ← update_seq l (λ s, s <| sq_prefill_offset := end_ |>);
      _ ← count_iteration true 1;
      match token with
      | None => mret tt
      | Some token =>
        _ ← set_cache_tokens l token;
        _ ← store_prefix l;
        accept_token l token eos_ids
      end
    end
  | _, _ => mret tt
  end.
Definition run_prefill_chunks (batch : list loc) : M unit :=
  match bk_prefill_chunk with
  | None =>
    fail_all batch (EPy (RuntimeError "configured backend does not support chunked prefill"))
  | Some method =>
    eos_ids ← attempt get_eos_ids;
    match eos_ids with
    | inl e => fail_all batch e
    | inr eos_ids => for_each (prefill_chunk method eos_ids) batch
    end
  end.
Definition run_prefill (request_ids : list string) : M unit :=
  batch ← prepare_all request_ids;
  if bool_decide (batch = []) then mret tt
  else
    chunk_size ← gets te_prefill_chunk_size_tokens;
    if negb (chunk_size =? 0) then run_prefill_chunks batch
    else
      w ← gets id;
      run_batch true (prefill_call (omap (prefill_request w) batch))
        (λ ms l, add_prefill_ms l ms) store_prefix batch.

(** *** Decode *)

Definition decode_fallback (requests : list DecodeRequest) : Eff S string BatchTokenResult :=
  one_by_one (λ r, r.1.1) (λ r, bk_decode r.1.1 r.1.2 r.2) requests ∅.
Definition decode_call (requests : list DecodeRequest) : Eff S string BatchTokenResult :=
  match bk_decode_batch with Some method => method requests | None => decode_fallback requests end.
Definition decode_request (w : World) (l : loc) : DecodeRequest :=
  let s := sq_state (seq_at l w) in
  (ss_request_id s, ss_sampling s, Z.of_nat (length (ss_generated_token_ids s))).
Definition run_decode (request_ids : list string) : M unit :=
  w ← gets id;
  let batch := omap (λ i, od_get i (te_active w)) request_ids in
  if bool_decide (batch = []) then mret tt
  else
    run_batch false (decode_call (decode_request w <$> batch))
      (λ ms l, update_state l (λ s, s <| ss_decode_ms ::= λ t, f_add t ms |>)) (λ _, mret tt) batch.

(** *** The scheduler's task *)

(** The body of the loop; [false] is [break]. *)
Definition iteration : M bool :=
  _ ← finish_interrupted;
  d ← decision;
  if negb (no_ids (td_prefill_ids d)) then _ ← run_prefill (td_prefill_ids d); mret true
  else if negb (no_ids (td_decode_ids d)) then _ ← run_decode (td_decode_ids d); mret true
  else
    _ ← modify (λ w, w <| te_wake := false |>);
    w ← gets id;
    if te_closed w && bool_decide (te_active w = []) then mret false
    else _ ← wait_wake; mret true.
Fixpoint scheduler_loop (fuel : nat) : M unit :=
  match fuel with
  | O => raise EFuel
  | Datatypes.S fuel =>
    w ← gets id;
    if te_closed w && bool_decide (te_active w = []) then mret tt
    else
      go ← iteration;
      if (go : bool) then scheduler_loop fuel else mret tt
  end.

Definition executor_shutdown : M unit := modify (λ w, w <| te_executor_closed := true |>).
(** The task: it is still running when the fuel is used up or its await never returns. *)
Definition scheduler_task (fuel : nat) : M unit := λ w,
  match scheduler_loop fuel w with
  | (inl EFuel, w) => (inl EFuel, w)
  | (inl EBlocked, w) => (inl EBlocked, w)
  | (outcome, w) => (outcome, w <| te_scheduler_task := TaskDone outcome |>)
  end.
(** [await self._scheduler_task], when there is one: the task runs to its end, or had ended; its
    outcome is the outcome of the [await]. Without a task: the [else] branch of [shutdown]. *)
Definition await_scheduler (fuel : nat) : M unit :=
  task ← gets te_scheduler_task;
  match task with
  | TaskNone =>
    active ← gets te_active;
    for_each (λ l, complete l FCancelled) (od_values active)
  | TaskRunning => scheduler_task fuel
  | TaskDone (inl e) => raise e
  | TaskDone (inr _) => mret tt
  end.
(** [shutdown] from its first [await]. [fuel] bounds the scheduler's remaining iterations. *)
Definition shutdown_finish (fuel : nat) : M unit :=
  _ ← await_scheduler fuel;
  _ ← modify (λ w, w <| te_prefix_cache ::= PrefixCache.clear |>);
  _ ← run_async bk_shutdown;
  executor_shutdown.
Definition shutdown (fuel : nat) : M unit :=
  begun ← shutdown_begin;
  if (begun : bool) then shutdown_finish fuel else mret tt.
End engine.
