(* ===== verification/TokenEngineSafe.v ===== *)
(** Invariants of the token engine: whatever the backend answers and whatever other tasks do at the
    awaits, the KV cache is owned by exactly the active sequences, every unfinished sequence is
    active, and what readers were given and what waits for them is one event per generated token,
    in order, followed by one final event; and what each iteration chooses to run. *)
From S2P Require Import Prelude PyContainers PyFloat Effects KVCache PrefixCache TokenTypes TokenEngine.
From Stdlib Require String.
From Stdlib Require Import Sorted.

#[local] Open Scope string_scope.
#[local] Open Scope list_scope.
#[local] Open Scope Z_scope.
#[local] Set Default Proof Using "Type".
#[local] Set Proof Using Clear Unused.

(** ** Well-formed sequences *)

Definition generated (s : ScheduledSequence) : list Z := ss_generated_token_ids (sq_state s).
Definition limit (s : ScheduledSequence) : Z := sp_max_new_tokens (ss_sampling (sq_state s)).
Definition running_phase (s : ScheduledSequence) : Prop := ss_terminal (sq_state s) = false.

(** What the last event of a stream says of the finished sequence. *)
Definition final_event (s : ScheduledSequence) (e : Event) : Prop :=
  match e with
  | EvToken _ => False
  | EvComplete c =>
    ss_phase (sq_state s) = phase_for (gc_finish_reason c) ∧
    gc_input_tokens c = Z.of_nat (length (ss_prompt_token_ids (sq_state s))) ∧
    gc_output_tokens c = Z.of_nat (length (generated s))
  | EvFailure _ => ss_phase (sq_state s) = PFailed
  end.
(** What the readers were given, followed by what waits in the queue: one event per generated token,
    in order, and once the sequence is done one final event. *)
Definition stream_ok (s : ScheduledSequence) : Prop :=
  ∃ toks, gt_token_id <$> toks = generated s ∧
    if sq_done s
    then ∃ e, sq_taken s ++ sq_events s = (EvToken <$> toks) ++ [e] ∧ final_event s e
    else sq_taken s ++ sq_events s = EvToken <$> toks.
Record seq_ok (s : ScheduledSequence) : Prop := {
  so_stream : stream_ok s;
  so_limit : Z.of_nat (length (generated s)) <= limit s;
  so_running : running_phase s → Z.of_nat (length (generated s)) < limit s;
  so_stop : ∀ t, t ∈ generated s → t ∉ sp_stop_token_ids (ss_sampling (sq_state s));
  so_done : sq_done s = true → ss_terminal (sq_state s) = true
}.

(** ** The invariant *)

(** [batch_limit] is the batch size the engine was built with. *)
Record engine_inv (batch_limit max_active max_batch chunk observed : Z) (kv : KVBlockAllocator)
  {B} (cache : PrefixCache (B := B)) (heap : gmap loc ScheduledSequence)
  (active finished : list (string * loc)) (closed : bool) (task : SchedulerTask) : Prop := {
  ei_active_ok : od_ok active;
  ei_finished_ok : od_ok finished;
  ei_disjoint : ∀ i, od_get i finished ≠ None → od_get i active = None;
  ei_active : ∀ i l, od_get i active = Some l →
    ∃ s, heap !! l = Some s ∧ ss_request_id (sq_state s) = i ∧ sq_done s = false;
  ei_finished : ∀ i l, od_get i finished = Some l →
    ∃ s, heap !! l = Some s ∧ ss_request_id (sq_state s) = i ∧ sq_done s = true;
  ei_unfinished : ∀ l s, heap !! l = Some s → sq_done s = false →
    od_get (ss_request_id (sq_state s)) active = Some l;
  ei_seq : ∀ l s, heap !! l = Some s → seq_ok s;
  ei_kv : kv_inv kv;
  ei_owners : ∀ i, is_Some (kv_owners kv !! i) ↔ is_Some (od_get i active);
  ei_capacity : Z.of_nat (length active) <= max_active;
  ei_prefix : prefix_inv cache;
  ei_max_active : 0 < max_active;
  ei_max_batch : 0 < max_batch;
  ei_chunk : 0 <= chunk;
  ei_static : max_batch = batch_limit;
  ei_observed : observed <= max_batch;
  ei_task : task = TaskDone (inr tt) → closed = true
}.
Definition inv {S B} (batch_limit : Z) (w : TokenGenerationEngine S B) : Prop :=
  engine_inv batch_limit (te_max_active_sequences w) (te_max_batch_size w) (te_prefill_chunk_size_tokens w)
    (te_max_observed_batch_size w) (te_kv_allocator w) (te_prefix_cache w) (te_heap w) (te_active w)
    (te_finished w) (te_closed w) (te_scheduler_task w).

(** An active sequence, with what is known of its identifier and phase. *)
Definition claim : Type := loc * (string → SequencePhase → bool).
Definition running (i : string) (p : SequencePhase) : bool := negb (phase_terminal p).
Definition anything (i : string) (p : SequencePhase) : bool := true.
Definition is_at (j : string) (q : SequencePhase) (i : string) (p : SequencePhase) : bool :=
  bool_decide (i = j) && bool_decide (p = q).
Definition holds (P : string → SequencePhase → bool) (s : ScheduledSequence) : Prop :=
  P (ss_request_id (sq_state s)) (ss_phase (sq_state s)) = true.
Definition tracked {S B} (w : TokenGenerationEngine S B) (x : claim) : Prop :=
  ∃ s, te_heap w !! x.1 = Some s ∧ od_get (ss_request_id (sq_state s)) (te_active w) = Some x.1 ∧
    holds x.2 s.
Definition InvWith {S B} (batch_limit : Z) (ls : list claim) (w : TokenGenerationEngine S B) : Prop :=
  inv batch_limit w ∧ Forall (tracked w) ls.

Lemma alter_twice (f g : ScheduledSequence → ScheduledSequence) l (m : gmap loc ScheduledSequence) :
  alter f l (alter g l m) = alter (λ s, f (g s)) l m.
Proof.
  apply map_eq. intros l'. destruct (decide (l = l')) as [<-|].
  - rewrite !lookup_alter_eq. by destruct (m !! l).
  - by rewrite !lookup_alter_ne.
Qed.

Section safe.
Context {S B : Type} `{InferenceBackend S B}.
#[local] Abbreviation World := (TokenGenerationEngine S B).
#[local] Abbreviation M := (Eff World Exc).
#[local] Abbreviation hoare := (Effects.hoare (W := World) (X := Exc)).
#[local] Abbreviation never := (Effects.never (W := World) (X := Exc)).
Implicit Types (w : World) (ls : list claim).

Variable clock : nat → float.
Variable perf : nat → float.
Variable script : nat → list EnvAction.
Variable batch_limit : Z.
#[local] Abbreviation Inv := (InvWith batch_limit).

(** [c] keeps the invariant and the tracked sequences, whether or not it raises. *)
Definition safe {A} ls (c : M A) : Prop := hoare (Inv ls) c (λ _, Inv ls) (λ _, Inv ls).
(** The same, without an exception. *)
Definition sure {A} ls (c : M A) : Prop := hoare (Inv ls) c (λ _, Inv ls) never.

Lemma hoare_at {A} (c : M A) (P : World → Prop) Q E w :
  hoare P c Q E → P w → match c w with (inr a, w') => Q a w' | (inl e, w') => E e w' end.
Proof. intros Hc. apply Hc. Qed.
(** Reading the world: the rest of the computation runs in the world that was read. *)
Lemma hoare_read {A C} (f : World → A) (k : A → M C) (P : World → Prop) Q E :
  (∀ w, P w → match k (f w) w with (inr c, w') => Q c w' | (inl e, w') => E e w' end) →
  hoare P (gets f ≫= k) Q E.
Proof. intros Hk w Hw. exact (Hk w Hw). Qed.

Lemma sure_safe {A} ls (c : M A) : sure ls c → safe ls c.
Proof. intros Hc. by apply hoare_never. Qed.
Lemma safe_bind {A C} ls (m : M A) (k : A → M C) :
  safe ls m → (∀ a, safe ls (k a)) → safe ls (m ≫= k).
Proof. intros Hm Hk. by eapply hoare_bind. Qed.
Lemma sure_bind {A C} ls (m : M A) (k : A → M C) :
  sure ls m → (∀ a, sure ls (k a)) → sure ls (m ≫= k).
Proof. intros Hm Hk. by eapply hoare_bind. Qed.
Lemma safe_ret {A} ls (a : A) : sure ls (mret (M := M) a).
Proof. by apply hoare_ret. Qed.
Lemma safe_raise {A} ls e : safe ls (raise (A := A) e).
Proof. by apply hoare_raise. Qed.
Lemma sure_gets {A} ls (f : World → A) : sure ls (gets f).
Proof. intros w Hw. exact Hw. Qed.
Lemma sure_modify ls f : (∀ w, Inv ls w → Inv ls (f w)) → sure ls (modify f).
Proof. intros Hf. by apply hoare_modify. Qed.
Lemma safe_lift_res {A} ls (r : res A) : safe ls (lift_res r).
Proof. intros w Hw. by destruct r. Qed.
Lemma sure_attempt {A} ls (m : M A) : safe ls m → sure ls (attempt m).
Proof.
  intros Hm. eapply hoare_post; [by apply hoare_attempt|]. by intros [].
Qed.
Lemma Inv_tail x ls w : Inv (x :: ls) w → Inv ls w.
Proof. intros [Hi [_ Hl]%Forall_cons]. by split. Qed.
Lemma Inv_perm ls ls' w : ls ≡ₚ ls' → Inv ls w → Inv ls' w.
Proof. intros Hp [Hi Hl]. split; [done|]. by rewrite <- Hp. Qed.
Lemma Inv_weaken l P ls w : Inv ((l, P) :: ls) w → Inv ((l, anything) :: ls) w.
Proof.
  intros [Hi [(s & H1 & H2 & _) Hl]%Forall_cons]. split; [done|]. constructor; [|done].
  by exists s.
Qed.
Lemma tracked_at w l P : tracked w (l, P) → te_heap w !! l = Some (seq_at l w) ∧
  od_get (id_at l w) (te_active w) = Some l ∧ holds P (seq_at l w).
Proof.
  intros (s & Hl & Ha & Hp). unfold id_at, seq_at. simpl in *. rewrite Hl. done.
Qed.

(** *** Updates of the sequence objects *)

(** [f] keeps what ties a sequence to the engine's tables. *)
Definition same_identity (f : ScheduledSequence → ScheduledSequence) : Prop :=
  ∀ s, ss_request_id (sq_state (f s)) = ss_request_id (sq_state s) ∧ sq_done (f s) = sq_done s.

Lemma Inv_alter ls l f w :
  same_identity f →
  (∀ s, te_heap w !! l = Some s → seq_ok s → seq_ok (f s)) →
  (∀ P s, (l, P) ∈ ls → te_heap w !! l = Some s → holds P s → holds P (f s)) →
  Inv ls w → Inv ls (w <| te_heap ::= alter f l |>).
Proof.
  intros Hsame Hok Hrun [Hi Hls].
  assert (∀ l' s', alter f l (te_heap w) !! l' = Some s' →
    ∃ s, te_heap w !! l' = Some s ∧ s' = if decide (l = l') then f s else s) as Hback.
  { intros l' s'. destruct (decide (l = l')) as [<-|Hne].
    - rewrite lookup_alter_eq. intros (s & Hs & ->)%fmap_Some. eauto.
    - rewrite lookup_alter_ne by done. eauto. }
  assert (∀ l' s, te_heap w !! l' = Some s →
    alter f l (te_heap w) !! l' = Some (if decide (l = l') then f s else s)) as Hforth.
  { intros l' s Hs. destruct (decide (l = l')) as [<-|Hne].
    - by rewrite lookup_alter_eq, Hs.
    - by rewrite lookup_alter_ne. }
  split.
  - destruct Hi. split; try done.
    + intros i l' Hl'. destruct (ei_active0 i l' Hl') as (s & Hs & Hid & Hd).
      eexists. split; [by apply Hforth|]. destruct (Hsame s) as [H1 H2].
      destruct (decide (l = l')); rewrite ?H1, ?H2; done.
    + intros i l' Hl'. destruct (ei_finished0 i l' Hl') as (s & Hs & Hid & Hd).
      eexists. split; [by apply Hforth|]. destruct (Hsame s) as [H1 H2].
      destruct (decide (l = l')); rewrite ?H1, ?H2; done.
    + intros l' s' (s & Hs & ->)%Hback. destruct (Hsame s) as [H1 H2].
      destruct (decide (l = l')); rewrite ?H1, ?H2; by apply ei_unfinished0.
    + intros l' s' (s & Hs & ->)%Hback. destruct (decide (l = l')) as [<-|]; [|by eapply ei_seq0].
      apply Hok; [done|]. by eapply ei_seq0.
  - rewrite Forall_elem in Hls |- *. intros [l' P] Hin. destruct (Hls _ Hin) as (s & Hs & Ha & Hp).
    simpl in *. eexists. split; [by apply Hforth|]. destruct (Hsame s) as [H1 _]. simpl.
    destruct (decide (l = l')) as [<-|]; [|done]. rewrite H1. split; [done|]. by apply Hrun.
Qed.
Lemma sure_update_seq ls l f :
  same_identity f → (∀ s, seq_ok s → seq_ok (f s)) →
  (∀ s, ss_phase (sq_state (f s)) = ss_phase (sq_state s)) → sure ls (update_seq l f).
Proof.
  intros Hsame Hok Hp. apply sure_modify. intros w. apply Inv_alter; [done|auto|].
  intros P s _ _. unfold holds. destruct (Hsame s) as [-> _]. by rewrite Hp.
Qed.

(** Fields the invariant does not constrain. *)
Lemma seq_ok_ext (s s' : ScheduledSequence) :
  sq_taken s' ++ sq_events s' = sq_taken s ++ sq_events s → sq_done s' = sq_done s → generated s' = generated s →
  ss_sampling (sq_state s') = ss_sampling (sq_state s) → ss_phase (sq_state s') = ss_phase (sq_state s) →
  ss_prompt_token_ids (sq_state s') = ss_prompt_token_ids (sq_state s) → seq_ok s → seq_ok s'.
Proof.
  intros He Hd Hg Hs Hp Hi [Hst Hl Hr Hstop Hdone]. unfold stream_ok, final_event in Hst.
  unfold running_phase, ss_terminal in Hr. unfold limit in Hl, Hr. unfold ss_terminal in Hdone.
  split; unfold stream_ok, final_event, running_phase, ss_terminal, limit;
    rewrite ?He, ?Hd, ?Hg, ?Hs, ?Hp, ?Hi; done.
Qed.

Lemma seq_ok_take s e es : sq_events s = e :: es → seq_ok s → seq_ok (take_event e es s).
Proof. intros He. apply seq_ok_ext; [|done..]. cbn. by rewrite He, <- app_assoc. Qed.

(** *** The calls of other tasks *)

Lemma safe_snd {A} ls (c : M A) w : safe ls c → Inv ls w → Inv ls (snd (c w)).
Proof. intros Hc Hw. specialize (Hc w Hw). by destruct (c w) as [[]]. Qed.
Lemma sure_set_wake ls : sure ls set_wake.
Proof. by apply sure_modify. Qed.
Lemma sure_set_cancellation ls l : sure ls (set_cancellation l).
Proof. apply sure_update_seq; [done| |done]. intros s. by apply seq_ok_ext. Qed.
Lemma sure_monotonic ls : sure ls (monotonic clock).
Proof. intros w Hw. exact Hw. Qed.
Lemma sure_perf_counter ls : sure ls (perf_counter perf).
Proof. intros w Hw. exact Hw. Qed.
Lemma sure_pop_finished ls i : sure ls (pop_finished i).
Proof.
  apply sure_modify. intros w [[] Hls]. split; [|exact Hls]. split; try done; simpl.
  - by apply od_del_ok.
  - intros j. rewrite od_get_del. destruct (decide (j = i)); [done|]. apply ei_disjoint0.
  - intros j l. rewrite od_get_del. destruct (decide (j = i)); [done|]. apply ei_finished0.
Qed.
Lemma sure_stream_finally ls i l : sure ls (stream_finally i l).
Proof.
  unfold stream_finally. apply sure_bind; [apply sure_gets|]. intros s.
  repeat case_head; [|apply sure_pop_finished|apply safe_ret].
  apply sure_bind; [apply sure_set_cancellation|]. intros _. apply sure_set_wake.
Qed.
Lemma safe_cancel ls i : safe ls (cancel i).
Proof.
  apply sure_safe. unfold cancel. apply sure_bind; [apply sure_gets|]. intros active.
  destruct (od_get i active) as [l|]; [|apply safe_ret].
  apply sure_bind; [apply sure_gets|]. intros s. case_head; [apply safe_ret|].
  apply sure_bind; [apply sure_set_cancellation|]. intros _.
  apply sure_bind; [apply sure_set_wake|]. intros _. apply safe_ret.
Qed.
Lemma safe_ensure_scheduler ls : sure ls ensure_scheduler.
Proof.
  apply hoare_read. intros w Hw. destruct (te_scheduler_task w); [|exact Hw..].
  destruct Hw as [[] Hls]. split; [|exact Hls]. by split.
Qed.
Lemma safe_stream_open ls i : safe ls (stream_open i).
Proof.
  unfold stream_open. apply safe_bind; [apply sure_safe, sure_gets|]. intros w.
  repeat case_head; [| |apply safe_raise];
    (apply sure_safe, sure_bind; [apply safe_ensure_scheduler|]; intros _; apply safe_ret).
Qed.
Lemma Inv_stream_next ls i l w : Inv ls w → Inv ls (snd (stream_next i l w)).
Proof.
  intros Hw. unfold stream_next, get_seq. rewrite (bind_eq _ _ _ (seq_at l w) w) by done.
  destruct (sq_events (seq_at l w)) as [|e es] eqn:He; [done|].
  assert (Inv ls (w <| te_heap ::= alter (take_event e es) l |>)) as Hw'.
  { apply Inv_alter; [done| |done|done]. intros s Hs. apply (seq_ok_take s e es).
    unfold seq_at in He. by rewrite Hs in He. }
  rewrite (bind_eq _ _ _ tt (w <| te_heap ::= alter (take_event e es) l |>)) by done.
  destruct e; [exact Hw'|exact Hw'|]. apply (safe_snd ls); [|exact Hw'].
  apply safe_bind; [|intros _; apply safe_raise]. apply sure_safe, sure_stream_finally.
Qed.
Lemma Inv_reserved ls w i n blocks kv s :
  allocate i n (te_kv_allocator w) = (Ok blocks, kv) →
  od_get i (te_active w) = None → od_get i (te_finished w) = None →
  active_sequence_count w < te_max_active_sequences w →
  ss_request_id (sq_state s) = i → sq_done s = false → seq_ok s → Inv ls w →
  let l := fresh (dom (te_heap w)) in
  Inv ls (w <| te_kv_allocator := kv |> <| te_heap ::= <[l := s]> |> <| te_active ::= od_set i l |>).
Proof.
  intros Ha Hn Hf Hc Hid Hd Hs [[] Hls] l.
  assert (te_heap w !! l = None) as Hl by (apply not_elem_of_dom, is_fresh).
  pose proof (allocate_owners _ _ _ _ _ Ha) as [Ho Ho'].
  pose proof (kv_inv_allocate (te_kv_allocator w) i n ei_kv0) as Hkv. rewrite Ha in Hkv. simpl in Hkv.
  split.
  - split; try done; simpl.
    + by apply od_set_ok.
    + intros j Hj. rewrite od_get_set. destruct (decide (j = i)) as [->|]; [done|]. by apply ei_disjoint0.
    + intros j l'. rewrite od_get_set. destruct (decide (j = i)) as [->|].
      * intros [= <-]. exists s. by rewrite lookup_insert_eq.
      * intros Hj. destruct (ei_active0 _ _ Hj) as (s' & Hs' & ?). exists s'.
        rewrite lookup_insert_ne; [done|]. congruence.
    + intros j l' Hj. destruct (ei_finished0 _ _ Hj) as (s' & Hs' & ?). exists s'.
      rewrite lookup_insert_ne; [done|]. congruence.
    + intros l' s'. rewrite lookup_insert, od_get_set. destruct (decide (l = l')) as [<-|].
      * intros [= <-] _. by rewrite decide_True.
      * intros Hs' Hd'. pose proof (ei_unfinished0 _ _ Hs' Hd') as Hg.
        destruct (decide _) as [Heq|]; [|done]. congruence.
    + intros l' s'. rewrite lookup_insert. destruct (decide (l = l')) as [<-|].
      * by intros [= <-].
      * by apply ei_seq0.
    + intros j. rewrite Ho', lookup_insert, od_get_set.
      destruct (decide (i = j)) as [<-|]; [by rewrite decide_True|].
      rewrite decide_False by done. apply ei_owners0.
    + rewrite od_set_length, Hn. unfold active_sequence_count in Hc. lia.
  - eapply Forall_impl; [exact Hls|]. intros [l' P] (s' & Hs' & Ha' & Hp). exists s'. simpl in *.
    split_and!; [| |done].
    + rewrite lookup_insert_ne; [done|]. congruence.
    + rewrite od_get_set_ne; [done|]. congruence.
Qed.

Lemma SamplingParameters_positive p q :
  SamplingParameters_post_init p = Ok q → 0 < sp_max_new_tokens q.
Proof.
  unfold SamplingParameters_post_init. intros (? & Hr & H)%bind_Ok_inv. apply raise_if_Ok in Hr.
  apply bind_Ok_inv in H as (? & _ & (? & _ & [= <-])%bind_Ok_inv). bool_hyps. lia.
Qed.
Lemma Inv_reserve ls i prompt sampling deadline count w :
  0 < sp_max_new_tokens sampling → Inv ls w →
  Inv ls (snd (reserve clock i prompt sampling deadline count w)).
Proof.
  intros Hpos Hw. unfold reserve. rewrite (bind_eq _ _ w w w) by done.
  destruct (te_closed w); [done|]. destruct (_ || _) eqn:Hold; [done|].
  destruct (_ <=? _) eqn:Hcap; [done|]. bool_hyps. unfold od_has in *. bool_hyps.
  destruct (allocate _ _ _) as [r kv] eqn:Ha.
  pose proof (kv_inv_allocate (te_kv_allocator w) i (count + sp_max_new_tokens sampling)
    (ei_kv _ _ _ _ _ _ _ _ _ _ _ _ (proj1 Hw))) as Hkv. rewrite Ha in Hkv. simpl in Hkv.
  rewrite (bind_eq _ _ w tt (w <| te_kv_allocator := kv |>)) by done.
  destruct r as [blocks|e].
  - rewrite (bind_eq (monotonic clock) _ _ (clock (te_readings w))
      (w <| te_kv_allocator := kv |> <| te_readings ::= Datatypes.S |>)) by done.
    apply (Inv_reserved ls w i _ blocks kv (ScheduledSequence_init
      (SequenceState_init i prompt sampling deadline (clock (te_readings w))
        <| ss_kv_block_ids := blocks |>)) Ha); try done.
    + by apply eq_None_not_Some.
    + by apply eq_None_not_Some.
    + split; [|unfold generated, limit; simpl; lia|unfold generated, limit; simpl; lia|
              intros t Ht; by apply not_elem_of_nil in Ht|done].
      by exists [].
  - assert (Inv ls (w <| te_kv_allocator := kv |>)) as Hw'; [|by destruct e].
    pose proof (allocate_owners _ _ _ _ _ Ha) as Ho. simpl in Ho.
    destruct Hw as [[] Hls]. split; [|exact Hls]. split; try done; simpl.
    intros j. rewrite Ho. apply ei_owners0.
Qed.
Lemma sure_for_each {Y} ls (f : Y → M unit) xs :
  (∀ x, sure ls (f x)) → sure ls (for_each f xs).
Proof. intros Hf. apply hoare_for_each. intros x _. apply Hf. Qed.
Lemma Inv_close ls w : Inv ls w → Inv ls (w <| te_closed := true |>).
Proof. intros [[] Hls]. split; [by split|exact Hls]. Qed.
Lemma safe_shutdown_begin ls : sure ls shutdown_begin.
Proof.
  unfold shutdown_begin. apply sure_bind; [apply sure_gets|]. intros []; [apply safe_ret|].
  apply sure_bind; [apply sure_modify, Inv_close|]. intros _.
  apply sure_bind; [apply sure_gets|].
  intros active. apply sure_bind; [apply sure_for_each, sure_set_cancellation|]. intros _.
  apply sure_bind; [apply sure_set_wake|]. intros _. apply safe_ret.
Qed.
Lemma safe_backend_call {A} ls (c : Eff S string A) : safe ls (backend_call c).
Proof. intros w Hw. unfold backend_call. by destruct (c (te_backend w)) as [[]]. Qed.

Lemma Inv_env_action ls a w : Inv ls w → Inv ls (env_action clock a w).
Proof.
  intros Hw. destruct a; cbn [env_action]; unfold on_heap;
    try (destruct (te_heap w !! l); [|done]).
  - destruct (SamplingParameters_post_init sampling) eqn:E; [|done].
    apply Inv_reserve; [|done]. by eapply SamplingParameters_positive.
  - apply safe_snd; [apply safe_cancel|done].
  - apply safe_snd; [apply safe_stream_open|done].
  - by apply Inv_stream_next.
  - apply safe_snd; [|done]. apply safe_bind; [apply sure_safe, sure_pop_finished|].
    intros _. apply sure_safe, sure_stream_finally.
  - apply safe_snd; [|done]. apply sure_safe, sure_stream_finally.
  - apply safe_snd; [|done]. apply sure_safe, sure_bind; [apply sure_set_cancellation|].
    intros _. apply sure_set_wake.
  - destruct (sq_done _); [|done].
    apply safe_snd; [|done]. apply safe_bind; [apply sure_safe, sure_pop_finished|].
    intros _. apply sure_safe, sure_stream_finally.
  - apply safe_snd; [apply safe_backend_call|done].
  - apply safe_snd; [apply safe_backend_call|done].
  - apply safe_snd; [|done]. apply sure_safe, safe_shutdown_begin.
Qed.
Lemma Inv_env_actions ls acts w : Inv ls w → Inv ls (foldl (λ w a, env_action clock a w) w acts).
Proof.
  revert w. induction acts as [|a acts IH]; intros w Hw; simpl; [done|]. by apply IH, Inv_env_action.
Qed.
Lemma sure_suspend ls : sure ls (suspend clock script).
Proof. intros w Hw. by apply Inv_env_actions. Qed.
Lemma safe_run_async {A} ls (c : Eff S string A) : safe ls (run_async clock script c).
Proof.
  unfold run_async. apply safe_bind; [apply sure_safe, sure_gets|]. intros []; [apply safe_raise|].
  apply safe_bind; [apply sure_safe, sure_suspend|]. intros _. apply safe_backend_call.
Qed.
Lemma safe_wait_wake ls : safe ls (wait_wake clock script).
Proof.
  unfold wait_wake. apply safe_bind; [apply sure_safe, sure_gets|].
  intros []; [apply sure_safe, safe_ret|].
  apply safe_bind; [apply sure_safe, sure_suspend|]. intros _.
  apply safe_bind; [apply sure_safe, sure_gets|]. intros []; [apply sure_safe, safe_ret|].
  apply safe_raise.
Qed.

(** *** Ending a sequence *)

Lemma tracked_not_done ls l P w : Inv ((l, P) :: ls) w →
  sq_done (seq_at l w) = false ∧ seq_ok (seq_at l w).
Proof.
  intros [[] [(s & Hs & Ha & _) _]%Forall_cons]. unfold seq_at. simpl in *. rewrite Hs. simpl.
  destruct (ei_active0 _ _ Ha) as (s' & Hs' & _ & Hd). rewrite Hs in Hs'. injection Hs' as <-.
  split; [done|]. by eapply ei_seq0.
Qed.
(** The tail of [_complete] and [_fail]. *)
Definition closing (i : string) (l : loc) (kv : KVBlockAllocator)
  (event : ScheduledSequence → Event) (w : World) : World :=
  w <| te_kv_allocator := kv |> <| te_active ::= od_del i |> <| te_finished ::= od_set i l |>
    <| te_heap ::= alter (λ s, s <| sq_events ::= λ events, events ++ [event s] |>
                                 <| sq_done := true |>) l |>.
Lemma Inv_closing ls i l final event kv b w :
  l ∉ ls.*1 → phase_terminal final = true →
  (∀ s, ss_phase (sq_state s) = final → final_event s (event s)) →
  release i (te_kv_allocator w) = Ok (b, kv) →
  Inv ((l, is_at i final) :: ls) w → Inv ls (closing i l kv event w).
Proof.
  intros Hl Hfinal Hevent Hr Hw. pose proof (tracked_not_done _ _ _ _ Hw) as [Hd Hok].
  destruct Hw as [[] [Ht Hls]%Forall_cons]. pose proof (tracked_at _ _ _ Ht) as (Hs & Ha & Hp).
  apply andb_true_iff in Hp as [Hid0%bool_decide_eq_true Hp%bool_decide_eq_true].
  destruct (release_owners i (te_kv_allocator w) ei_kv0) as (b' & kv' & Hr' & Hown & Hkv').
  rewrite Hr in Hr'. injection Hr' as <- <-.
  unfold id_at in Ha. rewrite Hid0 in Ha. set (s0 := seq_at l w) in *.
  assert (seq_ok (s0 <| sq_events ::= λ events, events ++ [event s0] |> <| sq_done := true |>)) as Hok'.
  { destruct Hok as [(toks & Hsuf & Hst) H1 H2 H3 H4].
    split; [|done|exact H2|done|intros _; unfold ss_terminal; cbn; by rewrite Hp].
    exists toks. split; [exact Hsuf|]. exists (event s0). rewrite Hd in Hst. cbn. rewrite app_assoc, Hst.
    split; [done|]. specialize (Hevent s0 Hp). destruct (event s0); exact Hevent. }
  assert (∀ i' l', od_get i' (te_active w) = Some l' → l' = l → i' = i) as Huniq.
  { intros i' l' Hi' ->. destruct (ei_active0 _ _ Hi') as (s & Hs' & <- & _).
    rewrite Hs in Hs'. by injection Hs' as <-. }
  split.
  - split; try done; cbn -[decide od_del od_set].
    + by apply od_del_ok.
    + by apply od_set_ok.
    + intros j. rewrite od_get_set, od_get_del. destruct (decide (j = i)); [done|]. apply ei_disjoint0.
    + intros j l'. rewrite od_get_del. destruct (decide (j = i)); [done|]. intros Hj.
      rewrite lookup_alter_ne; [by apply ei_active0|]. intros <-. naive_solver.
    + intros j l'. rewrite od_get_set. destruct (decide (j = i)) as [->|].
      * intros [= <-]. rewrite lookup_alter_eq, Hs. eexists. split; [done|]. done.
      * intros Hj. destruct (ei_finished0 _ _ Hj) as (s & Hs' & Hj' & Hd').
        rewrite lookup_alter_ne; [by exists s|]. intros <-. congruence.
    + intros l' s. destruct (decide (l = l')) as [<-|Hne].
      * rewrite lookup_alter_eq, Hs. by intros [= <-].
      * rewrite lookup_alter_ne by done. intros Hs' Hd'. pose proof (ei_unfinished0 _ _ Hs' Hd') as Hg.
        rewrite od_get_del. destruct (decide _); [congruence|done].
    + intros l' s. destruct (decide (l = l')) as [<-|Hne].
      * rewrite lookup_alter_eq, Hs. by intros [= <-].
      * rewrite lookup_alter_ne by done. by apply ei_seq0.
    + intros j. rewrite Hown, lookup_delete, od_get_del.
      destruct (decide (i = j)) as [<-|]; [by rewrite decide_True|].
      rewrite decide_False by done. apply ei_owners0.
    + unfold od_del. pose proof (length_filter (λ p : string * loc, p.1 ≠ i) (te_active w)). lia.
  - rewrite Forall_elem in Hls |- *. intros [l' P] Hin. destruct (Hls _ Hin) as (s & Hs' & Ha' & Hp').
    assert (l' ≠ l) as Hne.
    { intros ->. apply Hl. apply list_elem_of_fmap. by exists (l, P). }
    exists s. cbn -[decide od_del od_set] in *. rewrite lookup_alter_ne by done. split_and!; [done| |done].
    rewrite od_get_del. destruct (decide _) as [Heq|]; [|done]. congruence.
Qed.

Lemma Inv_id ls l i p w : Inv ((l, is_at i p) :: ls) w → id_at l w = i.
Proof.
  intros [_ [Ht _]%Forall_cons]. apply tracked_at in Ht as (_ & _ & Hp).
  by apply andb_true_iff in Hp as [?%bool_decide_eq_true _].
Qed.
Lemma Inv_anything ls l P w : Inv ((l, P) :: ls) w → Inv ((l, anything) :: ls) w.
Proof. apply Inv_weaken. Qed.
Lemma hoare_set_phase ls l P p i :
  l ∉ ls.*1 → phase_terminal p = true →
  hoare (λ w, Inv ((l, P) :: ls) w ∧ id_at l w = i) (update_state l (λ s, s <| ss_phase := p |>))
    (λ _, Inv ((l, is_at i p) :: ls)) never.
Proof.
  intros Hl Hp w [Hw Hid]. pose proof (tracked_not_done _ _ _ _ Hw) as [Hd Hok].
  assert (Forall (tracked w) ((l, P) :: ls)) as [Ht _]%Forall_cons by apply Hw.
  pose proof (tracked_at _ _ _ Ht) as (Hs & Ha & _).
  set (f := λ s : ScheduledSequence, s <| sq_state ::= λ st, st <| ss_phase := p |> |>).
  change (Inv ((l, is_at i p) :: ls) (w <| te_heap ::= alter f l |>)).
  assert (Inv ls (w <| te_heap ::= alter f l |>)) as [Hi Hls].
  { apply Inv_alter; [done| | |by eapply Inv_tail].
    - intros s Hs'. rewrite Hs in Hs'. injection Hs' as <-. intros [(toks & Hsuf & Hst) H1 H2 H3 H4].
      rewrite Hd in Hst. split; [|done|unfold running_phase, ss_terminal; cbn; congruence|done|done].
      exists toks. split; [exact Hsuf|]. cbn. by rewrite Hd.
    - intros P' s Hin. destruct Hl. apply list_elem_of_fmap. by exists (l, P'). }
  split; [exact Hi|]. constructor; [|exact Hls]. exists (f (seq_at l w)).
  split_and!; [cbn; by rewrite lookup_alter_eq, Hs|exact Ha|].
  unfold holds, is_at. cbn. by rewrite !bool_decide_eq_true_2.
Qed.
(** The last statements of [_complete] and [_fail], from [kv_allocator.release]. *)
Lemma hoare_retired ls l i final event :
  l ∉ ls.*1 → phase_terminal final = true →
  (∀ s, ss_phase (sq_state s) = final → final_event s (event s)) →
  hoare (Inv ((l, is_at i final) :: ls))
    (kv ← gets te_kv_allocator;
     released ← lift_res (KVCache.release i kv);
     _ ← modify (λ w : World, w <| te_kv_allocator := snd released |>
                       <| te_active ::= od_del i |>
                       <| te_finished ::= od_set i l |>);
     _ ← update_seq l (λ s, s <| sq_events ::= λ events, events ++ [event s] |>);
     _ ← update_seq l (λ s, s <| sq_done := true |>);
     set_wake) (λ _, Inv ls) never.
Proof.
  intros Hl Hfinal Hevent w Hw. rewrite (bind_eq _ _ w (te_kv_allocator w) w) by done.
  destruct (release_owners i (te_kv_allocator w) (ei_kv _ _ _ _ _ _ _ _ _ _ _ _ (proj1 Hw)))
    as (b & kv & Hr & _).
  rewrite (bind_eq _ _ w (b, kv) w) by (by rewrite Hr).
  pose proof (Inv_closing ls i l final event kv b w Hl Hfinal Hevent Hr Hw) as Hc.
  unfold closing in Hc. set (f1 := λ s, s <| sq_events ::= λ events, events ++ [event s] |>).
  set (f2 := λ s, s <| sq_done := true |>).
  assert (alter (λ s, s <| sq_events ::= λ events, events ++ [event s] |> <| sq_done := true |>) l
            (te_heap w) = alter f2 l (alter f1 l (te_heap w))) as Heq
    by (unfold f1, f2; by rewrite alter_twice).
  destruct Hc as [Hi Hls]. unfold inv in Hi. cbn in Hi. rewrite Heq in Hi.
  split; [exact Hi|]. eapply Forall_impl; [exact Hls|]. intros x (s & Hs & Hx).
  exists s. cbn in Hs. rewrite Heq in Hs. done.
Qed.
(** [l] is active, and in order but for its phase, which [_complete] is about to set. *)
Definition ending l ls w : Prop :=
  Inv ((l, anything) :: ls)
    (w <| te_heap ::= alter (λ s, s <| sq_state ::= λ st, st <| ss_phase := PFailed |> |>) l |>).
Lemma Inv_heap_eq ls w h h' :
  h = h' → Inv ls (w <| te_heap ::= λ _, h |>) → Inv ls (w <| te_heap ::= λ _, h' |>).
Proof. by intros ->. Qed.
Lemma Inv_ending l P ls w : l ∉ ls.*1 → Inv ((l, P) :: ls) w → ending l ls w.
Proof.
  intros Hl Hw. apply (Inv_weaken _ (is_at (id_at l w) PFailed)).
  by apply (hoare_set_phase ls l P PFailed (id_at l w) Hl eq_refl w).
Qed.
Lemma ending_at l ls w : ending l ls w →
  te_heap w !! l = Some (seq_at l w) ∧ od_get (id_at l w) (te_active w) = Some l.
Proof.
  intros [_ [(s & Hs & Ha & _) _]%Forall_cons]. cbn in Hs, Ha. rewrite lookup_alter_eq in Hs.
  unfold id_at, seq_at. destruct (te_heap w !! l); [|done]. injection Hs as <-. done.
Qed.
Lemma ending_set_phase l ls p i :
  l ∉ ls.*1 → phase_terminal p = true →
  hoare (λ w, ending l ls w ∧ id_at l w = i) (update_state l (λ s, s <| ss_phase := p |>))
    (λ _, Inv ((l, is_at i p) :: ls)) never.
Proof.
  intros Hl Hp w [Hw <-]. pose proof (ending_at _ _ _ Hw) as [Hs _].
  set (w' := w <| te_heap ::= alter (λ s, s <| sq_state ::= λ st, st <| ss_phase := PFailed |> |>) l |>).
  assert (id_at l w' = id_at l w) as Hid.
  { unfold id_at. unfold seq_at at 1. change (te_heap w') with
      (alter (λ s, s <| sq_state ::= λ st, st <| ss_phase := PFailed |> |>) l (te_heap w)).
    rewrite lookup_alter_eq. by rewrite Hs. }
  pose proof (hoare_set_phase ls l anything p (id_at l w) Hl Hp w' (conj Hw Hid)) as Hr.
  set (f := λ s : ScheduledSequence, s <| sq_state ::= λ st, st <| ss_phase := PFailed |> |>).
  set (g := λ s : ScheduledSequence, s <| sq_state ::= λ st, st <| ss_phase := p |> |>).
  apply (Inv_heap_eq _ w (alter g l (alter f l (te_heap w))) (alter g l (te_heap w))); [|exact Hr].
  by rewrite alter_twice.
Qed.
Lemma hoare_retire ls l final event :
  l ∉ ls.*1 → phase_terminal final = true →
  (∀ s, ss_phase (sq_state s) = final → final_event s (event s)) →
  hoare (ending l ls) (retire clock script l final event)
    (λ _, Inv ls) (λ _, Inv ((l, anything) :: ls)).
Proof.
  intros Hl Hfinal Hevent w Hw. unfold retire.
  rewrite (bind_eq _ _ w (id_at l w) w), (bind_eq _ _ w (te_active w) w) by done.
  pose proof (ending_at _ _ _ Hw) as [_ Ha]. unfold od_has. rewrite Ha.
  rewrite bool_decide_eq_true_2 by by eexists. cbn [negb].
  remember (id_at l w) as i eqn:Hi. symmetry in Hi.
  apply (hoare_at _ (λ w, ending l ls w ∧ id_at l w = i)); [|done].
  eapply hoare_bind; [apply hoare_never, ending_set_phase; done|]. intros [].
  eapply hoare_bind; [apply hoare_never, sure_gets|]. intros s. cbv beta.
  eapply (hoare_bind _ _ _ (λ _, Inv ((l, is_at i final) :: ls)));
    [|intros _; by apply hoare_never, hoare_retired].
  destruct (sq_backend_created s); [|by apply hoare_ret].
  set (L := (l, is_at i final) :: ls).
  apply (hoare_conseq _ _ (Inv L) _ (λ _, Inv L) _ (λ _, Inv L)); [|done|done|intros _; apply Inv_anything].
  apply safe_bind; [apply safe_run_async|]. intros [].
  apply sure_safe, sure_update_seq; [done| |done]. intros s'. by apply seq_ok_ext.
Qed.
(** [ends l ls c]: [c] takes an active sequence, and has ended it unless it raises. *)
Definition ends {A} l ls (c : M A) : Prop :=
  hoare (ending l ls) c (λ _, Inv ls) (λ _, Inv ((l, anything) :: ls)).
Lemma complete_ends ls l reason : l ∉ ls.*1 → ends l ls (complete clock script l reason).
Proof. intros Hl. apply hoare_retire; [done|by destruct reason|]. intros s Hs. by split_and!. Qed.
Lemma fail_ends ls l e : l ∉ ls.*1 → ends l ls (fail_sequence clock script l e).
Proof. intros Hl. by apply hoare_retire. Qed.
Lemma sure_check_interruption ls l : sure ls (check_interruption clock l).
Proof.
  unfold check_interruption. apply sure_bind; [apply sure_gets|]. intros s.
  case_head; [apply safe_ret|]. apply sure_bind; [apply sure_monotonic|]. intros now. apply safe_ret.
Qed.
(** The events of a sequence that takes one more token. *)
Definition with_token (t : GeneratedToken) (s : ScheduledSequence) : ScheduledSequence :=
  s <| sq_state ::= λ st, st <| ss_phase := PDecode |>
                            <| ss_generated_token_ids ::= λ ids, ids ++ [gt_token_id t] |> |>
    <| sq_events ::= λ events, events ++ [EvToken t] |>.
Lemma with_token_ok t s p :
  seq_ok s → sq_done s = false → running_phase s →
  gt_token_id t ∉ sp_stop_token_ids (ss_sampling (sq_state s)) →
  (phase_terminal p = false → Z.of_nat (length (generated s)) + 1 < limit s) →
  seq_ok (with_token t s <| sq_state ::= λ st, st <| ss_phase := p |> |>).
Proof.
  intros [(toks & Hpre & Hst) H1 H2 H3 H4] Hd Hr Hstop Hp. specialize (H2 Hr).
  assert (generated (with_token t s <| sq_state ::= λ st, st <| ss_phase := p |> |>)
            = generated s ++ [gt_token_id t]) as Hg by done.
  split; rewrite ?Hg.
  - exists (toks ++ [t]). rewrite Hg. split.
    + by rewrite fmap_app, Hpre.
    + cbn. rewrite Hd in Hst |- *. rewrite app_assoc, Hst, fmap_app. done.
  - rewrite length_app. cbn. unfold limit in *. cbn. lia.
  - unfold running_phase, ss_terminal. cbn. intros Hp'. rewrite length_app. cbn.
    specialize (Hp Hp'). unfold limit in *. cbn. lia.
  - intros x [Hx| ->%list_elem_of_singleton]%elem_of_app; [by apply H3|done].
  - cbn. by rewrite Hd.
Qed.
Lemma ends_from {A} l ls P (c : M A) :
  l ∉ ls.*1 → ends l ls c →
  hoare (Inv ((l, P) :: ls)) c (λ _, Inv ls) (λ _, Inv ((l, anything) :: ls)).
Proof. intros Hl Hc. eapply hoare_conseq; [apply Hc|intros w; by apply Inv_ending|done|done]. Qed.

(** The world after [accept_token]'s two updates. *)
Definition accepted (l : loc) (t : GeneratedToken) (w : World) : World :=
  w <| te_heap ::= alter (with_token t) l |>.
Lemma accepted_updates {A} l t (k : unit → M A) w :
  (_ ← update_state l (λ s, s <| ss_phase := PDecode |>
                              <| ss_generated_token_ids ::= λ ids, ids ++ [gt_token_id t] |>);
   update_seq l (λ s, s <| sq_events ::= λ events, events ++ [EvToken t] |>) ≫= k) w
  = k tt (accepted l t w).
Proof.
  unfold mbind, M_bind, update_state, update_seq, modify. f_equal. unfold accepted, field_update. cbn.
  by rewrite alter_twice.
Qed.
Lemma accepted_phase l t p w ls :
  l ∉ ls.*1 → gt_token_id t ∉ sp_stop_token_ids (ss_sampling (sq_state (seq_at l w))) →
  (phase_terminal p = false → Z.of_nat (length (generated (seq_at l w))) + 1 < limit (seq_at l w)) →
  Inv ((l, running) :: ls) w →
  Inv ((l, anything) :: ls)
    (w <| te_heap ::= alter (λ s, with_token t s <| sq_state ::= λ st, st <| ss_phase := p |> |>) l |>).
Proof.
  intros Hl Hstop Hp Hw. pose proof (tracked_not_done _ _ _ _ Hw) as [Hd _].
  assert (Forall (tracked w) ((l, running) :: ls)) as [Ht _]%Forall_cons by apply Hw.
  pose proof (tracked_at _ _ _ Ht) as (Hs & _ & Hrun). apply negb_true_iff in Hrun.
  apply Inv_alter; [done| | |by eapply Inv_weaken].
  - intros s Hs' Hok. rewrite Hs in Hs'. injection Hs' as <-. by apply with_token_ok.
  - intros P s [[= ->]|Hin]%elem_of_cons; [done|]. destruct Hl. apply list_elem_of_fmap.
    by exists (l, P).
Qed.
Lemma accept_token_ends ls l t eos :
  l ∉ ls.*1 →
  hoare (Inv ((l, running) :: ls)) (accept_token clock script l t eos)
    (λ _, Inv ls) (λ _, Inv ((l, anything) :: ls)).
Proof.
  intros Hl. unfold accept_token.
  eapply hoare_bind; [apply hoare_never, sure_check_interruption|]. intros [reason|].
  { by apply ends_from, complete_ends. }
  apply hoare_read. intros w Hw.
  case_bool_decide as He; [by eapply hoare_at; [apply ends_from, complete_ends|exact Hw]|].
  case_bool_decide as Hstop; [by eapply hoare_at; [apply ends_from, complete_ends|exact Hw]|].
  rewrite accepted_updates.
  assert (Forall (tracked w) ((l, running) :: ls)) as [Ht _]%Forall_cons by apply Hw.
  pose proof (tracked_at _ _ _ Ht) as (Hs & _ & _).
  assert (seq_at l (accepted l t w) = with_token t (seq_at l w)) as Hat.
  { unfold seq_at at 1. unfold accepted. cbn. rewrite lookup_alter_eq. by rewrite Hs. }
  rewrite (bind_eq _ _ _ (with_token t (seq_at l w)) (accepted l t w))
    by (unfold get_seq, gets; by rewrite Hat).
  assert (Z.of_nat (length (ss_generated_token_ids (sq_state (with_token t (seq_at l w)))))
          = Z.of_nat (length (generated (seq_at l w))) + 1) as Hlen.
  { cbn. rewrite length_app. cbn. unfold generated. lia. }
  destruct (_ <=? _) eqn:E.
  - eapply (hoare_at _ (ending l ls)); [by apply complete_ends|].
    pose proof (accepted_phase l t PFailed w ls Hl Hstop ltac:(done) Hw) as Ha.
    eapply Inv_heap_eq; [|exact Ha]. cbn. by rewrite alter_twice.
  - bool_hyps. rewrite Hlen in E.
    pose proof (accepted_phase l t PDecode w ls Hl Hstop (λ _, E) Hw) as Ha.
    eapply Inv_tail. eapply Inv_heap_eq; [|exact Ha]. done.
Qed.

(** *** Batches *)

(** Nothing but the invariant is left when an exception escapes. *)
Definition claims (P : string → SequencePhase → bool) (batch : list loc) : list claim :=
  (λ l, (l, P)) <$> batch.
Lemma claims_fst P batch : (claims P batch).*1 = batch.
Proof. unfold claims. rewrite <- list_fmap_compose. apply list_fmap_id. Qed.
Lemma Inv_nil ls w : Inv ls w → Inv [] w.
Proof. intros [Hi _]. by split. Qed.
(** [c] uses up the claim on [l]. *)
Definition consumes {A} (P : string → SequencePhase → bool) l ls (c : M A) : Prop :=
  hoare (Inv ((l, P) :: ls)) c (λ _, Inv ls) (λ _, Inv []).
Lemma for_each_consumes P (f : loc → M unit) batch ls :
  NoDup batch → (∀ l, l ∈ batch → l ∉ ls.*1) →
  (∀ l ls, l ∉ ls.*1 → consumes P l ls (f l)) →
  hoare (Inv (claims P batch ++ ls)) (for_each f batch) (λ _, Inv ls) (λ _, Inv []).
Proof.
  intros Hd Hls Hf. induction batch as [|l batch IH]; simpl; [by apply hoare_ret|].
  apply NoDup_cons in Hd as [Hn Hd].
  eapply hoare_bind.
  - apply (Hf l (claims P batch ++ ls)). rewrite fmap_app, claims_fst, not_elem_of_app.
    split; [done|apply Hls; left].
  - intros []. apply IH; [done|]. intros l' Hl'. apply Hls. by right.
Qed.
Lemma ends_consumes {A} P l ls (c : M A) :
  l ∉ ls.*1 → ends l ls c → consumes P l ls c.
Proof.
  intros Hl Hc. eapply hoare_conseq; [by apply (ends_from l ls P)|done|done|]. intros ? w. apply Inv_nil.
Qed.
Lemma fail_all_consumes P batch e :
  NoDup batch → hoare (Inv (claims P batch)) (fail_all clock script batch e) (λ _, Inv []) (λ _, Inv []).
Proof.
  intros Hd. rewrite <- (app_nil_r (claims P batch)). apply for_each_consumes; [done| |].
  - intros l _. apply not_elem_of_nil.
  - intros l ls Hl. by apply ends_consumes, fail_ends.
Qed.
Lemma accept_consumes l ls t eos : l ∉ ls.*1 → consumes running l ls (accept_token clock script l t eos).
Proof.
  intros Hl. eapply hoare_conseq; [by apply accept_token_ends|done|done|]. intros ? w. apply Inv_nil.
Qed.
Lemma safe_consumes {A C} P l ls (m : M A) (k : A → M C) :
  safe ((l, P) :: ls) m → (∀ a, consumes P l ls (k a)) → consumes P l ls (m ≫= k).
Proof.
  intros Hm Hk. eapply hoare_bind; [|exact Hk].
  eapply hoare_conseq; [exact Hm|done|done|]. intros ? w. apply Inv_nil.
Qed.
Lemma sure_consumes {A C} P l ls (m : M A) (k : A → M C) :
  sure ((l, P) :: ls) m → (∀ a, consumes P l ls (k a)) → consumes P l ls (m ≫= k).
Proof. intros Hm. by apply safe_consumes, sure_safe. Qed.

(** *** The steps of an iteration *)

Lemma safe_store_prefix ls l : safe ls (store_prefix clock script l).
Proof.
  unfold store_prefix. apply safe_bind; [apply sure_safe, sure_gets|]. intros cache.
  apply safe_bind; [apply sure_safe, sure_gets|]. intros s.
  destruct (enabled cache), (sq_tokenized s) as [ts|], bk_snapshot_prefix as [method|];
    try (by apply sure_safe, safe_ret).
  apply safe_bind; [apply safe_run_async|]. intros b.
  apply hoare_read. intros w Hw. destruct (put _ _ _) as [[r c]|e] eqn:Hp; [|exact Hw].
  rewrite (bind_eq _ _ w (r, c) w) by done. destruct Hw as [[] Hls]. split; [|exact Hls].
  split; try done. simpl. by eapply put_inv.
Qed.
Lemma safe_get_eos_ids ls : safe ls (get_eos_ids clock script).
Proof.
  unfold get_eos_ids. apply safe_bind; [apply sure_safe, sure_gets|].
  intros [ids|]; [apply sure_safe, safe_ret|].
  apply safe_bind; [apply safe_run_async|]. intros ids.
  apply safe_bind; [by apply sure_safe, sure_modify|]. intros _. apply sure_safe, safe_ret.
Qed.
Lemma sure_elapsed ls t : sure ls (elapsed_since perf t).
Proof.
  unfold elapsed_since. apply sure_bind; [apply sure_perf_counter|]. intros now. apply safe_ret.
Qed.
Lemma sure_add_prefill_ms ls l ms : sure ls (add_prefill_ms l ms).
Proof. apply sure_update_seq; [done| |done]. intros s. by apply seq_ok_ext. Qed.
Lemma sure_set_cache_tokens ls l t : sure ls (set_cache_tokens l t).
Proof. apply sure_update_seq; [done| |done]. intros s. by apply seq_ok_ext. Qed.
Lemma hoare_count_iteration ls prefill n :
  n <= batch_limit → sure ls (count_iteration prefill n).
Proof.
  intros Hn. apply sure_modify. intros w [[] Hls]. split; [|exact Hls]. split; try done. simpl. lia.
Qed.
Lemma sure_find_prefix ls l : safe ls (find_prefix l).
Proof.
  unfold find_prefix. destruct bk_restore_prefix; [|by apply sure_safe, safe_ret].
  apply safe_bind; [apply sure_safe, sure_gets|]. intros s. apply hoare_read. intros w Hw.
  match goal with |- context [longest_prefix ?ts ?e ?c] =>
    pose proof (longest_prefix_inv ts e c) as Hlp; destruct (longest_prefix ts e c) as [r c'] end.
  specialize (Hlp ltac:(apply Hw)).
  rewrite (bind_eq _ _ w tt (w <| te_prefix_cache := c' |>)) by done.
  eapply hoare_at; [apply safe_lift_res|]. destruct Hw as [[] Hls]. split; [|exact Hls].
  by split.
Qed.
Lemma safe_restore_call ls l m : safe ls (restore_call clock script l m).
Proof.
  unfold restore_call. apply safe_bind; [apply sure_safe, sure_gets|]. intros s.
  destruct (pm_exact m).
  - destruct bk_restore_prefix; [apply safe_run_async|apply safe_raise].
  - apply safe_bind; [apply safe_lift_res|]. intros suffix.
    destruct bk_resume_prefix; [apply safe_run_async|apply safe_raise].
Qed.
(** A step on an active sequence, whose claim it keeps. *)
Lemma sure_update_active ls l P f :
  same_identity f → (∀ s, sq_done s = false → seq_ok s → seq_ok (f s)) →
  (∀ s, ss_phase (sq_state (f s)) = ss_phase (sq_state s)) →
  sure ((l, P) :: ls) (update_seq l f).
Proof.
  intros Hsame Hok Hp w Hw. pose proof (tracked_not_done _ _ _ _ Hw) as [Hd _].
  assert (Forall (tracked w) ((l, P) :: ls)) as [Ht _]%Forall_cons by apply Hw.
  pose proof (tracked_at _ _ _ Ht) as (Hs & _ & _).
  apply Inv_alter; [done| | |exact Hw].
  - intros s Hs'. rewrite Hs in Hs'. injection Hs' as <-. by apply Hok.
  - intros P' s _ _. unfold holds. destruct (Hsame s) as [-> _]. by rewrite Hp.
Qed.
Lemma seq_ok_prompt s ids :
  sq_done s = false → seq_ok s →
  seq_ok (s <| sq_state ::= λ st, st <| ss_prompt_token_ids := ids |> |>).
Proof.
  intros Hd [(toks & Hsuf & Hst) H1 H2 H3 H4]. rewrite Hd in Hst. split; try done.
  exists toks. split; [exact Hsuf|]. cbn. by rewrite Hd.
Qed.
Lemma safe_ensure_tokenized ls l P :
  safe ((l, P) :: ls) (ensure_tokenized clock script l).
Proof.
  unfold ensure_tokenized. apply safe_bind; [apply sure_safe, sure_gets|]. intros s0.
  destruct (sq_tokenized s0); [apply sure_safe, safe_ret|].
  apply safe_bind; [apply safe_run_async|]. intros ts.
  apply safe_bind; [apply sure_safe, sure_update_seq; [done| |done]; intros s; by apply seq_ok_ext|].
  intros _. apply safe_bind; [apply sure_safe, sure_update_active; [done| |done]|].
  { intros s. by apply seq_ok_prompt. }
  intros _. apply hoare_read. intros w Hw.
  match goal with |- context [resize ?i ?n ?kv] =>
    pose proof (kv_inv_resize kv i n) as Hkv; pose proof (resize_owners i n kv) as Ho;
    destruct (resize i n kv) as [r kv'] end.
  specialize (Hkv ltac:(apply Hw)). simpl in Hkv, Ho.
  rewrite (bind_eq _ _ w tt (w <| te_kv_allocator := kv' |>)) by done.
  assert (Inv ((l, P) :: ls) (w <| te_kv_allocator := kv' |>)) as Hw'.
  { destruct Hw as [[] Hls]. split; [|exact Hls]. split; try done. simpl. intros i. by rewrite Ho. }
  eapply hoare_at; [|exact Hw']. apply safe_bind; [apply safe_lift_res|]. intros blocks.
  apply sure_safe, sure_update_seq; [done| |done]. intros s. by apply seq_ok_ext.
Qed.
(** An exception leaves the sequence active. *)
Definition finishes {A} P l ls (c : M A) : Prop :=
  hoare (Inv ((l, P) :: ls)) c (λ _, Inv ls) (λ _, Inv ((l, anything) :: ls)).
Lemma safe_finishes {A C} P l ls (m : M A) (k : A → M C) :
  safe ((l, P) :: ls) m → (∀ a, finishes P l ls (k a)) → finishes P l ls (m ≫= k).
Proof.
  intros Hm Hk. eapply hoare_bind; [|exact Hk].
  eapply hoare_conseq; [exact Hm|done|done|]. intros ? w. apply Inv_anything.
Qed.
Lemma sure_finishes {A C} P l ls (m : M A) (k : A → M C) :
  sure ((l, P) :: ls) m → (∀ a, finishes P l ls (k a)) → finishes P l ls (m ≫= k).
Proof. intros Hm. by apply safe_finishes, sure_safe. Qed.
Lemma use_prefix_finishes l ls m : l ∉ ls.*1 → finishes running l ls (use_prefix clock perf script l m).
Proof.
  intros Hl. unfold use_prefix.
  apply sure_finishes; [apply sure_perf_counter|]. intros started.
  apply safe_finishes; [apply safe_restore_call|]. intros token.
  apply sure_finishes; [apply sure_elapsed|]. intros ms.
  apply sure_finishes; [apply sure_add_prefill_ms|]. intros _.
  apply sure_finishes; [apply sure_set_cache_tokens|]. intros _.
  apply safe_finishes; [destruct (pm_exact m); [apply sure_safe, safe_ret|apply safe_store_prefix]|].
  intros _. apply safe_finishes; [apply safe_get_eos_ids|]. intros eos. by apply accept_token_ends.
Qed.
Lemma hoare_start_prefill l ls :
  l ∉ ls.*1 →
  sure ((l, running) :: ls) (update_state l (λ s, s <| ss_phase := PPrefill |>)).
Proof.
  intros Hl w Hw. pose proof (tracked_not_done _ _ _ _ Hw) as [Hd [(toks & Hsuf & Hst) H1 H2 H3 H4]].
  assert (Forall (tracked w) ((l, running) :: ls)) as [Ht _]%Forall_cons by apply Hw.
  pose proof (tracked_at _ _ _ Ht) as (Hs & _ & Hrun). apply negb_true_iff in Hrun.
  apply Inv_alter; [done| | |exact Hw].
  - intros s Hs' _. rewrite Hs in Hs'. injection Hs' as <-. rewrite Hd in Hst.
    split; [|exact H1|intros _; by apply H2|exact H3|cbn; by rewrite Hd].
    exists toks. split; [exact Hsuf|]. cbn. by rewrite Hd.
  - intros P s [[= ->]|Hin]%elem_of_cons; [done|]. destruct Hl. apply list_elem_of_fmap.
    by exists (l, P).
Qed.
Lemma hoare_prepare l ls :
  l ∉ ls.*1 →
  hoare (Inv ((l, running) :: ls)) (prepare clock perf script l)
    (λ joins : bool, if joins then Inv ((l, running) :: ls) else Inv ls) (λ _, Inv []).
Proof.
  intros Hl. unfold prepare. eapply (hoare_except _ _ _ _ _ (λ _, Inv ((l, anything) :: ls))).
  - eapply hoare_bind;
      [eapply hoare_conseq; [apply safe_ensure_tokenized|done|done|intros ? w; apply Inv_anything]|].
    intros ?. cbv beta. eapply hoare_bind; [by apply hoare_never, hoare_start_prefill|]. intros [].
    eapply hoare_bind; [apply hoare_never, sure_update_seq; [done| |done]|].
    { intros s. by apply seq_ok_ext. }
    intros []. eapply hoare_bind;
      [eapply hoare_conseq; [apply sure_find_prefix|done|done|intros ? w; apply Inv_anything]|].
    intros [m|]; [|by apply hoare_ret].
    eapply hoare_bind; [by apply use_prefix_finishes|]. intros ?. by apply hoare_ret.
  - intros e. eapply (hoare_bind _ _ _ (λ _, Inv ls)); [|intros ?; by apply hoare_ret].
    by apply (ends_consumes anything), fail_ends.
Qed.

(** [l] runs under the identifier [i]. *)
Definition runs_as (i : string) (j : string) (p : SequencePhase) : bool :=
  bool_decide (j = i) && running j p.
Definition named_claims (ps : list (string * loc)) : list claim := (λ p, (p.2, runs_as p.1)) <$> ps.
Lemma named_claims_fst ps : (named_claims ps).*1 = ps.*2.
Proof. unfold named_claims. rewrite <- list_fmap_compose. done. Qed.
Lemma runs_as_running i l ls w : Inv ((l, runs_as i) :: ls) w →
  Inv ((l, running) :: ls) w ∧ od_get i (te_active w) = Some l.
Proof.
  intros [Hi [(s & Hs & Ha & Hp) Hls]%Forall_cons]. apply andb_true_iff in Hp as [Hid Hp].
  apply bool_decide_eq_true in Hid. simpl in *. rewrite <- Hid. split; [|done].
  split; [done|]. constructor; [|done]. by exists s.
Qed.
Lemma Inv_cons_app x ls ls' w : Inv (ls ++ x :: ls') w ↔ Inv (x :: ls ++ ls') w.
Proof. split; apply Inv_perm; [|symmetry]; symmetry; apply Permutation_middle. Qed.
Lemma hoare_prepare_all ps ls :
  NoDup (ps.*2 ++ ls.*1) →
  hoare (Inv (named_claims ps ++ ls)) (prepare_all clock perf script (ps.*1))
    (λ batch w, Inv (claims running batch ++ ls) w ∧ batch `sublist_of` ps.*2) (λ _, Inv []).
Proof.
  revert ls. induction ps as [|[i l] ps IH]; intros ls Hd; simpl.
  - apply hoare_ret. intros w Hw. split; [exact Hw|constructor].
  - apply NoDup_cons in Hd as [Hn Hd]. apply hoare_read. intros w Hw.
    pose proof (runs_as_running _ _ _ _ Hw) as [Hr Ha]. rewrite Ha.
    eapply hoare_at; [|exact Hr].
    eapply hoare_bind; [apply hoare_prepare; by rewrite fmap_app, named_claims_fst|].
    intros joins. cbv beta.
    eapply (hoare_bind _ _ _ (λ batch w, Inv (claims running (if joins then l :: batch else batch) ++ ls) w
      ∧ batch `sublist_of` ps.*2)).
    + destruct joins.
      * eapply hoare_conseq; [apply (IH ((l, running) :: ls))| | |done].
        -- simpl. apply NoDup_app. apply NoDup_app in Hd as (H1 & H2 & H3).
           apply not_elem_of_app in Hn as [Hn1 Hn2]. split_and!; [done| |].
           ++ intros x Hx. apply not_elem_of_cons. split; [|by apply H2]. by intros ->.
           ++ apply NoDup_cons. done.
        -- intros w'. apply Inv_cons_app.
        -- intros batch w' [Hw' ?]. split; [|done]. by apply Inv_cons_app in Hw'.
      * apply IH. done.
    + intros batch. apply hoare_ret. intros w' [Hw' Hsub]. split; [exact Hw'|].
      destruct joins; by constructor.
Qed.

Lemma sublist_NoDup_l {A} (l k : list A) : l `sublist_of` k → NoDup k → NoDup l.
Proof. intros Hs Hd. by eapply sublist_NoDup. Qed.
Lemma deliver_consumes add_ms store outcome eos l ls :
  (∀ ls l, safe ls (add_ms l)) → (∀ ls l, safe ls (store l)) → l ∉ ls.*1 →
  consumes running l ls (deliver clock script add_ms store outcome eos l).
Proof.
  intros Hms Hstore Hl. unfold deliver. apply sure_consumes; [apply sure_gets|]. intros i.
  destruct (br_failures outcome !! i); [by apply ends_consumes, fail_ends|].
  apply safe_consumes; [apply Hms|]. intros _.
  destruct (br_tokens outcome !! i) as [t|].
  - apply sure_consumes; [apply sure_set_cache_tokens|]. intros _.
    apply safe_consumes; [apply Hstore|]. intros _. by apply accept_consumes.
  - apply hoare_raise. intros w. apply Inv_nil.
Qed.
Lemma hoare_run_batch prefill call add_ms store batch :
  (∀ ms ls l, safe ls (add_ms ms l)) → (∀ ls l, safe ls (store l)) →
  NoDup batch → Z.of_nat (length batch) <= batch_limit →
  hoare (Inv (claims running batch))
    (run_batch clock perf script prefill call add_ms store batch) (λ _, Inv []) (λ _, Inv []).
Proof.
  intros Hms Hstore Hd Hlen. unfold run_batch.
  eapply hoare_bind; [apply hoare_never, sure_perf_counter|]. intros started. cbv beta.
  eapply hoare_bind; [apply hoare_never, sure_attempt, safe_run_async|]. intros [e|outcome]; cbv beta.
  { by apply fail_all_consumes. }
  eapply hoare_bind; [apply hoare_never, sure_elapsed|]. intros ms. cbv beta.
  eapply hoare_bind; [by apply hoare_never, hoare_count_iteration|]. intros ?. cbv beta.
  eapply hoare_bind; [apply hoare_never, sure_attempt, safe_get_eos_ids|]. intros [e|eos]; cbv beta.
  { by apply fail_all_consumes. }
  rewrite <- (app_nil_r (claims running batch)). apply for_each_consumes; [done| |].
  - intros l _. apply not_elem_of_nil.
  - intros l ls Hl. apply deliver_consumes; auto.
Qed.
Lemma prefill_chunk_consumes method eos l ls :
  1 <= batch_limit → l ∉ ls.*1 →
  consumes running l ls (prefill_chunk clock perf script method eos l).
Proof.
  intros Hone Hl. unfold prefill_chunk. apply hoare_read. intros w Hw.
  assert (∀ w', Inv ((l, running) :: ls) w' → Inv ls w') as Htail by (intros w'; apply Inv_tail).
  destruct (od_get _ _); [|by apply Htail].
  destruct (sq_tokenized _) as [ts|]; [|by apply Htail].
  eapply hoare_at; [|exact Hw]. apply safe_consumes; [apply safe_lift_res|]. intros chunk.
  apply sure_consumes; [apply sure_perf_counter|]. intros started.
  apply sure_consumes; [apply sure_attempt, safe_run_async|]. intros [e|token].
  { by apply ends_consumes, fail_ends. }
  apply sure_consumes; [apply sure_elapsed|]. intros ms.
  apply sure_consumes; [apply sure_add_prefill_ms|]. intros _.
  apply sure_consumes; [apply sure_update_seq; [done| |done]; intros s; by apply seq_ok_ext|].
  intros _. apply sure_consumes; [by apply hoare_count_iteration|]. intros _.
  destruct token as [t|]; [|by apply hoare_ret].
  apply sure_consumes; [apply sure_set_cache_tokens|]. intros _.
  apply safe_consumes; [apply safe_store_prefix|]. intros _. by apply accept_consumes.
Qed.
Lemma hoare_run_prefill_chunks batch :
  1 <= batch_limit → NoDup batch →
  hoare (Inv (claims running batch)) (run_prefill_chunks clock perf script batch)
    (λ _, Inv []) (λ _, Inv []).
Proof.
  intros Hone Hd. unfold run_prefill_chunks.
  destruct bk_prefill_chunk as [method|]; [|by apply fail_all_consumes].
  eapply hoare_bind; [apply hoare_never, sure_attempt, safe_get_eos_ids|]. intros [e|eos]; cbv beta.
  { by apply fail_all_consumes. }
  rewrite <- (app_nil_r (claims running batch)). apply for_each_consumes; [done| |].
  - intros l _. apply not_elem_of_nil.
  - intros l ls Hl. by apply prefill_chunk_consumes.
Qed.
Lemma hoare_run_prefill ps :
  NoDup ps.*2 → Z.of_nat (length ps) <= batch_limit → 1 <= batch_limit →
  hoare (Inv (named_claims ps)) (run_prefill clock perf script ps.*1) (λ _, Inv []) (λ _, Inv []).
Proof.
  intros Hd Hlen Hone. unfold run_prefill.
  eapply hoare_bind.
  { rewrite <- (app_nil_r (named_claims ps)). apply hoare_prepare_all. by rewrite app_nil_r. }
  intros batch. cbv beta. rewrite app_nil_r. intros w [Hw Hsub].
  pose proof (sublist_NoDup_l _ _ Hsub Hd) as Hd'. apply sublist_length in Hsub.
  rewrite length_fmap in Hsub.
  case_bool_decide; [by apply (Inv_nil (claims running batch))|].
  eapply hoare_at; [|exact Hw].
  eapply hoare_bind; [apply hoare_never, sure_gets|]. intros chunk. cbv beta.
  destruct (negb _); [by apply hoare_run_prefill_chunks|].
  eapply hoare_bind; [apply hoare_never, sure_gets|]. intros w'. cbv beta.
  apply hoare_run_batch; [|apply safe_store_prefix|done|lia].
  intros ms ls l. apply sure_safe, sure_add_prefill_ms.
Qed.
Lemma hoare_run_decode ps :
  NoDup ps.*2 → Z.of_nat (length ps) <= batch_limit →
  hoare (Inv (named_claims ps)) (run_decode clock perf script ps.*1) (λ _, Inv []) (λ _, Inv []).
Proof.
  intros Hd Hlen. unfold run_decode. apply hoare_read. intros w Hw. unfold id. cbv zeta.
  assert (omap (λ i, od_get i (te_active w)) ps.*1 = ps.*2) as ->.
  { destruct Hw as [_ Hw]. unfold named_claims in Hw. rewrite Forall_fmap in Hw. clear Hd Hlen.
    induction Hw as [|[i l] ps (s & Hs & Ha & Hp) Hw IH]; [done|]. apply andb_true_iff in Hp as [Hid _].
    apply bool_decide_eq_true in Hid. simpl in *. rewrite <- Hid, Ha. f_equal. apply IH. }
  case_bool_decide; [by apply (Inv_nil (named_claims ps))|].
  eapply (hoare_at _ (Inv (claims running ps.*2))).
  - apply hoare_run_batch; [|intros ? ?; apply sure_safe, safe_ret|done|by rewrite length_fmap].
    intros ms ls l. apply sure_safe, sure_update_seq; [done| |done]. intros s. by apply seq_ok_ext.
  - destruct Hw as [Hi Hw]. split; [exact Hi|]. unfold claims, named_claims in *.
    rewrite !Forall_fmap in *. eapply Forall_impl; [exact Hw|].
    intros [i l] (s & Hs & Ha & Hp). apply andb_true_iff in Hp as [_ Hp]. by exists s.
Qed.

(** *** The decision *)

Lemma sublist_of_fmap {X Y} (f : X → Y) (P : Y → Prop) `{∀ y, Decision (P y)} (xs : list X) :
  ∃ ys, filter P (f <$> xs) = f <$> ys ∧ ys `sublist_of` xs.
Proof.
  induction xs as [|x xs (ys & Hys & Hs)]; [by exists []|]. rewrite fmap_cons, filter_cons.
  rewrite Hys. destruct (decide (P (f x))).
  - exists (x :: ys). split; [done|by constructor].
  - exists ys. split; [done|by constructor].
Qed.
(** The active sequences whose phase satisfies [phases], by age. *)
Lemma elem_of_set w phases l :
  inv batch_limit w →
  l ∈ sorted_by (created_le w) (filter (phase_in phases w) (od_values (te_active w))) ↔
  ss_phase (sq_state (seq_at l w)) ∈ phases ∧ od_get (id_at l w) (te_active w) = Some l.
Proof.
  intros []. rewrite elem_of_sorted_by, list_elem_of_filter. unfold od_values.
  assert (phase_in phases w l ↔ ss_phase (sq_state (seq_at l w)) ∈ phases) as ->.
  { unfold phase_in. by rewrite Is_true_true, bool_decide_eq_true. }
  rewrite list_elem_of_fmap. split.
  - intros [Hp ([i l'] & -> & Hin)]. split; [done|]. simpl in *. apply od_elem_get in Hin; [|done].
    destruct (ei_active0 _ _ Hin) as (s & Hs & Hid & _). unfold id_at, seq_at. rewrite Hs. simpl.
    by rewrite Hid.
  - intros [Hp Ha]. split; [done|]. exists (id_at l w, l). split; [done|]. by apply od_get_elem.
Qed.
Lemma NoDup_active w : inv batch_limit w → NoDup (od_values (te_active w)).
Proof.
  intros []. unfold od_values.
  assert (∀ d : list (string * loc), od_ok d →
    (∀ i j l, (i, l) ∈ d → (j, l) ∈ d → i = j) → NoDup d.*2) as Hgen.
  { induction d as [|[i l] d IH]; intros Hok Hinj; [constructor|]. rewrite fmap_cons.
    apply od_ok_cons in Hok as [Hi Hok]. apply NoDup_cons. split.
    - intros ([j l'] & Heq & Hin)%list_elem_of_fmap. simpl in *. subst l'.
      assert (i = j) as -> by (eapply Hinj; [left|right; exact Hin]).
      apply od_elem_get in Hin; congruence.
    - apply IH; [done|]. intros j k l' Hj Hk. eapply Hinj; right; done. }
  apply Hgen; [done|]. intros i j l Hi Hj.
  apply od_elem_get in Hi, Hj; [|done..].
  destruct (ei_active0 _ _ Hi) as (s & Hs & <- & _). destruct (ei_active0 _ _ Hj) as (s' & Hs' & <- & _).
  rewrite Hs in Hs'. by injection Hs' as ->.
Qed.
Lemma NoDup_set w phases :
  inv batch_limit w →
  NoDup (sorted_by (created_le w) (filter (phase_in phases w) (od_values (te_active w)))).
Proof. intros Hi. rewrite sorted_by_perm. by apply NoDup_filter, NoDup_active. Qed.
Lemma elem_of_py_take_sub {X} k (xs : list X) : py_take k xs `sublist_of` xs.
Proof. apply sublist_take. Qed.

(** The sequences of one workload: distinct, active, in the phases of their set, few enough. *)
Record workload (phases : list SequencePhase) (w : World) (ids : list string) (ls : list loc)
  : Prop := {
  wl_ids : ids = (λ l, id_at l w) <$> ls;
  wl_NoDup : NoDup ls;
  wl_active : ∀ l, l ∈ ls → od_get (id_at l w) (te_active w) = Some l;
  wl_phase : ∀ l, l ∈ ls → ss_phase (sq_state (seq_at l w)) ∈ phases;
  wl_limit : Z.of_nat (length ls) <= te_max_batch_size w
}.
Lemma workload_nil phases w : inv batch_limit w → workload phases w [] [].
Proof.
  intros []. split; [done|constructor|..]; try (intros l Hl; by apply not_elem_of_nil in Hl). simpl. lia.
Qed.
Lemma workload_sub phases w ids (xs ys : list loc) :
  workload phases w ids xs → ys `sublist_of` xs → workload phases w ((λ l, id_at l w) <$> ys) ys.
Proof.
  intros [] Hs. pose proof (sublist_length _ _ Hs).
  assert (∀ l, l ∈ ys → l ∈ xs) as Hin by (intros l ?; by eapply elem_of_sublist).
  split; [done|by eapply sublist_NoDup|auto|auto|lia].
Qed.
Lemma workload_set phases w :
  inv batch_limit w → phases ≠ [] →
  let set := sorted_by (created_le w) (filter (phase_in phases w) (od_values (te_active w))) in
  workload phases w
    (ss_request_id <$> py_take (te_max_batch_size w) ((λ l, sq_state (seq_at l w)) <$> set))
    (py_take (te_max_batch_size w) set).
Proof.
  intros Hi _ set. pose proof Hi as []. assert (0 <= te_max_batch_size w) by lia.
  pose proof (NoDup_set w phases Hi) as Hd. fold set in Hd.
  assert (∀ l, l ∈ py_take (te_max_batch_size w) set → l ∈ set) as Hin
    by (intros l; apply elem_of_py_take).
  split.
  - unfold py_take. rewrite length_fmap, <- fmap_take, <- list_fmap_compose. done.
  - eapply sublist_NoDup; [done|apply elem_of_py_take_sub].
  - intros l Hl. by apply (elem_of_set w phases l Hi), Hin.
  - intros l Hl. by apply (elem_of_set w phases l Hi), Hin.
  - by apply py_take_length.
Qed.

(** The sequences in these phases, the oldest first. *)
Record by_age (w : World) (phases : list SequencePhase) (xs : list loc) : Prop := {
  ba_NoDup : NoDup xs;
  ba_elem : ∀ l, l ∈ xs ↔
    ss_phase (sq_state (seq_at l w)) ∈ phases ∧ od_get (id_at l w) (te_active w) = Some l;
  ba_sorted : Forall (λ l, f_is_nan (ss_created_at (sq_state (seq_at l w))) = false) xs →
    StronglySorted (λ l l', f_leb (ss_created_at (sq_state (seq_at l w)))
                              (ss_created_at (sq_state (seq_at l' w))) = true) xs
}.
(** [l] has the shortest cache of [xs]. *)
Definition shortest (w : World) (xs : list loc) (l : loc) : Prop :=
  Forall (λ l', sq_cache_tokens (seq_at l w) <= sq_cache_tokens (seq_at l' w)) xs.
#[local] Instance shortest_dec w xs l : Decision (shortest w xs l).
Proof. unfold shortest. apply _. Defined.

(** The decision [d] and the policy's next state [p], in a world where [ws] waits or prefills and [rs]
    decodes: it prefills [ps] or decodes [qs]. *)
Record decision_ok (w : World) (d : TokenSchedulingDecision) (p : PrefillDecodePolicy)
  (ws rs ps qs : list loc) : Prop := {
  do_waiting : by_age w [PQueued; PPrefill] ws;
  do_running : by_age w [PDecode] rs;
  do_prefill : workload [PQueued; PPrefill] w (td_prefill_ids d) ps;
  do_decode : workload [PDecode] w (td_decode_ids d) qs;
  do_kind : qs ≠ [] ↔ rs ≠ [] ∧
    match pp_name (te_policy w) with
    | PrefillFirst => ws = []
    | DecodeFirst => True
    | Balanced => ws = [] ∨ pp_balanced_decode_turn (te_policy w) = false
    end;
  do_oldest : ps = if bool_decide (qs = []) then take (Z.to_nat (te_max_batch_size w)) ws else [];
  do_shortest : qs ≠ [] →
    let candidates := take (Z.to_nat (te_max_batch_size w)) rs in
    qs = filter (shortest w candidates) candidates;
  do_turn : p = match pp_name (te_policy w) with
                | Balanced => mkPolicy Balanced (negb (pp_balanced_decode_turn (te_policy w)))
                | _ => te_policy w
                end
}.
Lemma StronglySorted_on {X} (P : X → Prop) (R R' : X → X → Prop) xs :
  (∀ x y, P x → P y → R x y → R' x y) → Forall P xs → StronglySorted R xs → StronglySorted R' xs.
Proof.
  intros HR HP. induction 1 as [|x xs Hs IH Hx]; [constructor|]. apply Forall_cons in HP as [Hp HP].
  constructor; [by apply IH|]. rewrite Forall_elem in Hx, HP |- *. intros y Hy. by apply HR; auto.
Qed.
Lemma by_age_sets w phases :
  inv batch_limit w →
  by_age w phases (sorted_by (created_le w) (filter (phase_in phases w) (od_values (te_active w)))).
Proof.
  intros Hi. split; [by apply NoDup_set|intros l; by apply elem_of_set|].
  set (P := λ l, f_is_nan (ss_created_at (sq_state (seq_at l w))) = false). intros Hnan.
  apply (StronglySorted_on P (λ a b, created_le w a b = true)); [|exact Hnan|].
  - intros x y Hx Hy Hle. by rewrite f_leb_not_ltb.
  - rewrite sorted_by_perm in Hnan. eapply (sorted_by_sorted_on (created_le w)) with (P := P); [| |exact Hnan]; unfold created_le.
    + intros x y ->%negb_false_iff%f_ltb_asym. done.
    + intros x y z Hx Hy Hz Hxy%negb_true_iff Hyz%negb_true_iff. apply negb_true_iff.
      by eapply f_nltb_trans; [..|exact Hyz|exact Hxy].
Qed.
Lemma filter_fmap_in {X Y} (f : X → Y) (P : Y → Prop) (Q : X → Prop)
  `{∀ y, Decision (P y)} `{∀ x, Decision (Q x)} (xs : list X) :
  (∀ x, x ∈ xs → P (f x) ↔ Q x) → filter P (f <$> xs) = f <$> filter Q xs.
Proof.
  induction xs as [|x xs IH]; intros Hx; [done|]. rewrite fmap_cons, !filter_cons.
  rewrite IH by (intros y Hy; apply Hx; by right). specialize (Hx x ltac:(left)).
  destruct (decide (P (f x))), (decide (Q x)); tauto.
Qed.
Lemma all_cache_tokens_Ok w (xs : list loc) :
  (∀ l, l ∈ xs → od_get (id_at l w) (te_active w) = Some l) →
  all_cache_tokens w ((λ l, id_at l w) <$> xs) = Ok ((λ l, sq_cache_tokens (seq_at l w)) <$> xs).
Proof.
  induction xs as [|l xs IH]; intros Ha; [done|]. rewrite !fmap_cons.
  cbn [all_cache_tokens]. unfold cache_tokens_of at 1.
  rewrite (Ha l) by left. cbn [mbind res_bind]. rewrite IH by (intros l' Hl'; apply Ha; by right). done.
Qed.
Lemma compatible_ids_Ok w (xs : list loc) :
  (∀ l, l ∈ xs → od_get (id_at l w) (te_active w) = Some l) → xs ≠ [] →
  compatible_ids w ((λ l, id_at l w) <$> xs) = Ok ((λ l, id_at l w) <$> filter (shortest w xs) xs) ∧
  filter (shortest w xs) xs ≠ [].
Proof.
  intros Ha Hne. unfold compatible_ids. rewrite all_cache_tokens_Ok by done. cbn [mbind res_bind].
  destruct (py_min Z.ltb _) as [target|] eqn:Hmin;
    [|by apply py_min_None, fmap_nil_inv in Hmin].
  assert (∀ l, l ∈ xs → target <= sq_cache_tokens (seq_at l w)) as Hleast.
  { intros l Hl. apply Z.ltb_ge. refine (py_min_spec Z.ltb (λ _, True) _ _ _ _ _ _ Hmin _ _);
      [intros; apply Z.ltb_irrefl|intros; lia|intros; lia|by apply Forall_true|].
    apply list_elem_of_fmap. eauto. }
  apply py_min_elem, list_elem_of_fmap in Hmin as (l0 & Ht & Hl0).
  assert (∀ l, l ∈ xs → has_cache_tokens w target (id_at l w) ↔ shortest w xs l) as Hhas.
  { intros l Hl. unfold has_cache_tokens, cache_tokens_of. rewrite Ha by done.
    rewrite Is_true_true, Z.eqb_eq. unfold shortest. rewrite Forall_elem. split.
    - intros Heq l' Hl'. rewrite Heq. auto.
    - intros Hs. specialize (Hs _ Hl0). specialize (Hleast _ Hl). lia. }
  rewrite (filter_fmap_in _ _ (shortest w xs)) by done. split; [done|]. intros Hnil.
  assert (l0 ∈ filter (shortest w xs) xs) as Hin; [|rewrite Hnil in Hin; by apply not_elem_of_nil in Hin].
  apply list_elem_of_filter. split; [|done]. apply Forall_elem. intros l Hl. rewrite <- Ht. auto.
Qed.
Lemma decision_spec w :
  inv batch_limit w →
  ∃ d p ws rs ps qs, decision w = (inr d, w <| te_policy := p |>) ∧ decision_ok w d p ws rs ps qs.
Proof.
  intros Hi. unfold decision. rewrite (bind_eq _ _ w w w) by done. unfold sets. cbv zeta.
  pose proof (by_age_sets w [PQueued; PPrefill] Hi) as Hbw.
  pose proof (by_age_sets w [PDecode] Hi) as Hbr.
  pose proof (workload_set [PQueued; PPrefill] w Hi ltac:(done)) as Hw.
  pose proof (workload_set [PDecode] w Hi ltac:(done)) as Hr. cbv zeta in Hw, Hr.
  set (waiting := sorted_by _ (filter (phase_in [PQueued; PPrefill] w) _)) in *.
  set (running_ := sorted_by _ (filter (phase_in [PDecode] w) _)) in *.
  assert (0 < te_max_batch_size w) as Hpos by apply Hi.
  match goal with |- context [select ?a ?b ?r ?p] =>
    pose proof (select_decodes a b r p Hpos) as Hsel; destruct (select a b r p) as [d p'] end.
  cbn [tr_max_batch_size] in Hsel. destruct Hsel as [Hp Hids].
  rewrite (bind_eq _ _ w tt (w <| te_policy := p' |>)) by done.
  assert (∀ xs : list loc, py_take (te_max_batch_size w) xs = take (Z.to_nat (te_max_batch_size w)) xs) as Htake.
  { intros xs. unfold py_take. by replace (te_max_batch_size w <? 0) with false by lia. }
  assert (∀ xs : list loc, take (Z.to_nat (te_max_batch_size w)) xs = [] → xs = []) as Htn.
  { intros xs. rewrite <- Htake. by apply py_take_nil. }
  rewrite (wl_ids _ _ _ _ Hr), (wl_ids _ _ _ _ Hw), !Htake in Hids. rewrite (Htake running_) in Hr.
  rewrite (Htake waiting) in Hw. set (candidates := take _ running_) in *.
  assert (∀ ls : list loc, bool_decide ((λ l, sq_state (seq_at l w)) <$> ls = []) = bool_decide (ls = [])) as Hnil.
  { intros ls. apply bool_decide_ext. split; [apply fmap_nil_inv|by intros ->]. }
  unfold decodes in Hids. rewrite !Hnil in Hids.
  destruct (_ && _) eqn:Hdec; injection Hids as Hpre Hde.
  - apply andb_true_iff in Hdec as [Hrn%negb_true_iff%bool_decide_eq_false Hkind].
    assert (candidates ≠ []) as Hcn by (intros Hn; apply Hrn, Htn, Hn).
    destruct (compatible_ids_Ok w candidates (wl_active _ _ _ _ Hr) Hcn) as [Hc Hne].
    assert (no_ids (td_decode_ids d) = false) as ->.
    { apply bool_decide_eq_false. rewrite Hde. by intros Hn%fmap_nil_inv. }
    rewrite Hde, Hc. eexists _, p', waiting, running_, [], (filter (shortest w candidates) candidates).
    split; [done|]. split; try done; simpl.
    + by apply workload_nil.
    + eapply workload_sub; [exact Hr|]. apply sublist_filter.
    + split; [intros _; split; [done|]|done].
      destruct (pp_name (te_policy w)); [by apply bool_decide_eq_true in Hkind|done|].
      apply orb_true_iff in Hkind as [Hk%bool_decide_eq_true|Hk%negb_true_iff]; auto.
    + by rewrite bool_decide_eq_false_2.
  - rewrite Hde. change (no_ids []) with true. cbn [negb].
    exists d, p', waiting, running_, (take (Z.to_nat (te_max_batch_size w)) waiting), [].
    split; [done|]. split; try done; simpl.
    + rewrite Hpre. destruct Hw. by split.
    + rewrite Hde. by apply workload_nil.
    + split; [done|]. intros [Hrn Hkind]. rewrite bool_decide_eq_false_2 in Hdec by done.
      destruct (pp_name (te_policy w)); cbn in Hdec.
      * by rewrite bool_decide_eq_true_2 in Hdec.
      * done.
      * destruct Hkind as [Hk|Hk]; [by rewrite bool_decide_eq_true_2 in Hdec|].
        by rewrite Hk, orb_true_r in Hdec.
Qed.

(** *** The loop *)

Lemma workload_claims phases w ids (xs : list loc) :
  (∀ p, p ∈ phases → phase_terminal p = false) → inv batch_limit w → workload phases w ids xs →
  ∃ ps, ids = ps.*1 ∧ NoDup ps.*2 ∧ Z.of_nat (length ps) <= batch_limit ∧ Inv (named_claims ps) w.
Proof.
  intros Hph Hi []. exists ((λ l, (id_at l w, l)) <$> xs). pose proof Hi as [].
  assert (((λ l, (id_at l w, l)) <$> xs).*2 = xs) as ->
    by (rewrite <- list_fmap_compose; apply list_fmap_id).
  split_and!; [by rewrite <- list_fmap_compose|done|rewrite length_fmap; lia|].
  split; [done|]. unfold named_claims. rewrite !Forall_fmap, Forall_elem. intros l Hl.
  specialize (wl_active0 _ Hl). specialize (Hph _ (wl_phase0 _ Hl)).
  destruct (ei_active0 _ _ wl_active0) as (s & Hs & Hid & _). exists s. simpl.
  assert (seq_at l w = s) as Hat by (unfold seq_at; by rewrite Hs).
  unfold id_at in *. rewrite Hat in *. split_and!; [done|done|].
  unfold holds, runs_as, running. rewrite bool_decide_eq_true_2 by done. by rewrite Hph.
Qed.
Lemma Inv_active w :
  Inv [] w →
  NoDup (od_values (te_active w)) ∧ Inv (claims anything (od_values (te_active w)) ++ []) w.
Proof.
  intros [Hi _]. split; [by apply NoDup_active|]. rewrite app_nil_r. split; [done|].
  unfold claims, od_values. rewrite !Forall_fmap, Forall_elem. intros [i l] Hin.
  destruct Hi. apply od_elem_get in Hin; [|done].
  destruct (ei_active0 _ _ Hin) as (s & Hs & <- & _). by exists s.
Qed.
Lemma for_each_active (f : loc → M unit) :
  (∀ l ls, l ∉ ls.*1 → consumes anything l ls (f l)) →
  hoare (Inv []) (active ← gets te_active; for_each f (od_values active)) (λ _, Inv []) (λ _, Inv []).
Proof.
  intros Hf. apply hoare_read. intros w Hw. destruct (Inv_active w Hw) as [Hd Hc].
  eapply hoare_at; [|exact Hc]. apply for_each_consumes; [done| |done]. intros l _. apply not_elem_of_nil.
Qed.
Lemma safe_finish_interrupted : safe [] (finish_interrupted clock script).
Proof.
  apply for_each_active. intros l ls Hl. apply sure_consumes; [apply sure_check_interruption|].
  intros [reason|]; [by apply ends_consumes, complete_ends|]. apply hoare_ret. intros w. apply Inv_tail.
Qed.
Lemma waiting_phases p : p ∈ [PQueued; PPrefill] → phase_terminal p = false.
Proof. by intros [->|[->|?%not_elem_of_nil]%elem_of_cons]%elem_of_cons. Qed.
Lemma decode_phases p : p ∈ [PDecode] → phase_terminal p = false.
Proof. by intros [->|?%not_elem_of_nil]%elem_of_cons. Qed.
(** The loop breaks only in an engine that is closed. *)
Lemma hoare_iteration :
  hoare (Inv []) (iteration clock perf script)
    (λ go w, Inv [] w ∧ (go = false → te_closed w = true)) (λ _, Inv []).
Proof.
  unfold iteration. eapply hoare_bind; [apply safe_finish_interrupted|]. intros _ w Hw.
  destruct (decision_spec w (proj1 Hw)) as (d & p & ws & rs & xs & ys & Hd & Hok).
  rewrite (bind_eq _ _ _ _ _ Hd). destruct Hok.
  destruct (workload_claims _ _ _ _ waiting_phases (proj1 Hw) do_prefill0) as (ps & Hps & H1 & H2 & H3).
  destruct (workload_claims _ _ _ _ decode_phases (proj1 Hw) do_decode0) as (qs & Hqs & H4 & H5 & H6).
  assert (1 <= batch_limit) as Hone by (destruct Hw as [[] _]; lia).
  change (Inv [] (w <| te_policy := p |>)) in Hw.
  change (Inv (named_claims ps) (w <| te_policy := p |>)) in H3.
  change (Inv (named_claims qs) (w <| te_policy := p |>)) in H6.
  rewrite Hps, Hqs. destruct (no_ids ps.*1); cbn [negb]; [destruct (no_ids qs.*1); cbn [negb]|].
  - eapply hoare_at; [|exact Hw].
    eapply (hoare_bind _ _ _ (λ _, Inv [])); [by apply hoare_never, sure_modify|]. intros _.
    apply hoare_read. intros w' Hw'. destruct (_ && _) eqn:Hend.
    { by apply andb_true_iff in Hend as [Hend _]. }
    eapply hoare_at; [|exact Hw'].
    eapply (hoare_bind _ _ _ (λ _, Inv [])); [apply safe_wait_wake|]. intros _. by apply hoare_ret.
  - eapply hoare_at; [|exact H6]. eapply hoare_bind; [by apply hoare_run_decode|]. intros ?.
    by apply hoare_ret.
  - eapply hoare_at; [|exact H3]. eapply hoare_bind; [by apply hoare_run_prefill|]. intros ?.
    by apply hoare_ret.
Qed.
Lemma hoare_scheduler_loop fuel :
  hoare (Inv []) (scheduler_loop clock perf script fuel)
    (λ _ w, Inv [] w ∧ te_closed w = true) (λ _, Inv []).
Proof.
  induction fuel as [|fuel IH]; simpl; [by apply hoare_raise|].
  apply hoare_read. intros w Hw. unfold id. destruct (_ && _) eqn:Hend.
  { by apply andb_true_iff in Hend as [Hend _]. }
  eapply hoare_at; [|exact Hw]. eapply hoare_bind; [apply hoare_iteration|]. intros []; cbv beta.
  - eapply hoare_conseq; [apply IH|by intros w' []|done|done].
  - apply hoare_ret. intros w' [Hw' Hc]. auto.
Qed.
Lemma safe_scheduler_task fuel : safe [] (scheduler_task clock perf script fuel).
Proof.
  intros w Hw. pose proof (hoare_scheduler_loop fuel w Hw) as Hl. unfold scheduler_task.
  destruct (scheduler_loop clock perf script fuel w) as [[e|[]] w'].
  - assert (Inv [] (w' <| te_scheduler_task := TaskDone (inl e) |>)); [|by destruct e].
    destruct Hl as [[] Hls]. split; [|exact Hls]. by split.
  - destruct Hl as [[[] Hls] Hc]. split; [|exact Hls]. by split.
Qed.
Lemma safe_await_scheduler fuel : safe [] (await_scheduler clock perf script fuel).
Proof.
  unfold await_scheduler. apply safe_bind; [apply sure_safe, sure_gets|]. intros [| |[e|[]]].
  - apply for_each_active. intros l ls Hl. by apply ends_consumes, complete_ends.
  - apply safe_scheduler_task.
  - apply safe_raise.
  - apply sure_safe, safe_ret.
Qed.
Lemma safe_shutdown_finish fuel : safe [] (shutdown_finish clock perf script fuel).
Proof.
  apply safe_bind; [apply safe_await_scheduler|]. intros _. apply safe_bind.
  { apply sure_safe, sure_modify. intros w [[] Hls]. split; [|exact Hls]. split; try done. simpl.
    by apply clear_inv. }
  intros _. apply safe_bind; [apply safe_run_async|]. intros _. by apply sure_safe, sure_modify.
Qed.
Lemma safe_shutdown fuel : safe [] (shutdown clock perf script fuel).
Proof.
  apply safe_bind; [apply sure_safe, safe_shutdown_begin|].
  intros []; [apply safe_shutdown_finish|apply sure_safe, safe_ret].
Qed.

(** ** Reachable states *)

(** An engine, the calls of its clients in any order, runs of the scheduler that stop anywhere between
    two iterations or with an exception, [shutdown], and the rest of a [shutdown] that began during an
    await. *)
Inductive engine_reachable (w0 : World) : World → Prop :=
| engine_start : engine_reachable w0 w0
| engine_call w a : engine_reachable w0 w → engine_reachable w0 (env_action clock a w)
| engine_validate w p : engine_reachable w0 w →
    engine_reachable w0 (snd (validate_sampling clock script p w))
| engine_count w prompt : engine_reachable w0 w →
    engine_reachable w0 (snd (count_prompt_tokens clock script prompt w))
| engine_run w fuel : engine_reachable w0 w →
    engine_reachable w0 (snd (scheduler_task clock perf script fuel w))
| engine_shutdown w fuel : engine_reachable w0 w →
    engine_reachable w0 (snd (shutdown clock perf script fuel w))
| engine_shutdown_finish w fuel : engine_reachable w0 w → te_closed w = true →
    engine_reachable w0 (snd (shutdown_finish clock perf script fuel w)).
Lemma engine_reachable_Inv w0 w : Inv [] w0 → engine_reachable w0 w → Inv [] w.
Proof.
  intros H0. induction 1 as [|w a _ IH|w p _ IH|w prompt _ IH|w fuel _ IH|w fuel _ IH|w fuel _ IH _]; [done|..].
  - by apply Inv_env_action.
  - apply (safe_snd []); [|exact IH]. unfold validate_sampling.
    apply safe_bind; [apply safe_run_async|]. intros n. case_head; [apply safe_raise|apply sure_safe, safe_ret].
  - apply (safe_snd []); [|exact IH]. unfold count_prompt_tokens.
    apply safe_bind; [apply safe_run_async|]. intros n. apply sure_safe, safe_ret.
  - apply (safe_snd []); [|exact IH]. apply safe_scheduler_task.
  - apply (safe_snd []); [|exact IH]. apply safe_shutdown.
  - apply (safe_snd []); [|exact IH]. apply safe_shutdown_finish.
Qed.
End safe.

(** ** Shutdown *)

Section shutdown.
Context {S B : Type} `{InferenceBackend S B}.
#[local] Abbreviation World := (TokenGenerationEngine S B).
#[local] Abbreviation M := (Eff World Exc).
#[local] Abbreviation hoare := (Effects.hoare (W := World) (X := Exc)).
#[local] Abbreviation never := (Effects.never (W := World) (X := Exc)).
Implicit Types (w : World).
Variable clock : nat → float.
Variable perf : nat → float.
Variable script : nat → list EnvAction.
Variable batch_limit : Z.
#[local] Abbreviation Inv := (InvWith batch_limit).

(** The calls that end a sequence do not fail. *)
Definition releases : Prop := ∀ i s, ∃ s', bk_release_sequence i s = (inr tt, s').

(** The engine is shutting down: it accepts nothing, and what is active is among [ls], cancelled. *)
Record draining (ls : list loc) (w : World) : Prop := {
  dr_closed : te_closed w = true;
  dr_executor : te_executor_closed w = false;
  dr_active : ∀ i l, od_get i (te_active w) = Some l → l ∈ ls;
  dr_cancelled : ∀ i l, od_get i (te_active w) = Some l →
    ss_cancellation (sq_state (seq_at l w)) = true
}.
Definition drains {A} ls (c : M A) : Prop := hoare (draining ls) c (λ _, draining ls) never.

Lemma drains_bind {A C} ls (m : M A) (k : A → M C) :
  drains ls m → (∀ a, drains ls (k a)) → drains ls (m ≫= k).
Proof. intros Hm Hk. by eapply hoare_bind. Qed.
Lemma drains_snd {A} ls (c : M A) w : drains ls c → draining ls w → draining ls (snd (c w)).
Proof. intros Hc Hw. specialize (Hc w Hw). by destruct (c w) as [[]]. Qed.
Lemma drains_gets {A} ls (f : World → A) : drains ls (gets f).
Proof. intros w Hw. exact Hw. Qed.
Lemma drains_ret {A} ls (a : A) : drains ls (mret (M := M) a).
Proof. intros w Hw. exact Hw. Qed.
Lemma draining_ext ls w w' :
  te_closed w' = te_closed w → te_executor_closed w' = te_executor_closed w →
  te_active w' = te_active w → te_heap w' = te_heap w → draining ls w → draining ls w'.
Proof.
  intros H1 H2 H3 H4 [Hc He Ha Hl]. split; rewrite ?H1, ?H2, ?H3; try done.
  intros i l Hi. unfold seq_at. rewrite H4. by eapply Hl.
Qed.
Lemma draining_alter ls l f w :
  (∀ s, ss_cancellation (sq_state s) = true → ss_cancellation (sq_state (f s)) = true) →
  draining ls w → draining ls (w <| te_heap ::= alter f l |>).
Proof.
  intros Hf [Hc He Ha Hl]. split; try done. intros i l' Hi. specialize (Hl i l' Hi).
  unfold seq_at in *. cbn. destruct (decide (l = l')) as [<-|Hne].
  - rewrite lookup_alter_eq. destruct (te_heap w !! l); [by apply Hf|done].
  - by rewrite lookup_alter_ne.
Qed.
Lemma drains_update_seq ls l f :
  (∀ s, ss_cancellation (sq_state s) = true → ss_cancellation (sq_state (f s)) = true) →
  drains ls (update_seq l f).
Proof. intros Hf w Hw. by apply (draining_alter ls l f w). Qed.
Lemma drains_set_wake ls : drains ls set_wake.
Proof. intros w Hw. by apply (draining_ext ls w). Qed.
Lemma drains_set_cancellation ls l : drains ls (set_cancellation l).
Proof. by apply drains_update_seq. Qed.
Lemma drains_pop_finished ls i : drains ls (pop_finished i).
Proof. intros w Hw. by apply (draining_ext ls w). Qed.
Lemma drains_stream_finally ls i l : drains ls (stream_finally i l).
Proof.
  apply drains_bind; [apply drains_gets|]. intros s. repeat case_head.
  - apply drains_bind; [apply drains_set_cancellation|]. intros _. apply drains_set_wake.
  - apply drains_pop_finished.
  - apply drains_ret.
Qed.
Lemma drains_ensure_scheduler ls : drains ls ensure_scheduler.
Proof.
  apply drains_bind; [apply drains_gets|]. intros []; [|apply drains_ret..].
  intros w Hw. by apply (draining_ext ls w).
Qed.
Lemma draining_env_action ls a w : draining ls w → draining ls (env_action clock a w).
Proof.
  intros Hw. pose proof (dr_closed _ _ Hw) as Hc.
  destruct a; cbn [env_action]; unfold on_heap; try (destruct (te_heap w !! l); [|done]).
  - destruct (SamplingParameters_post_init sampling); [|done].
    unfold reserve. rewrite (bind_eq _ _ w w w) by done. by rewrite Hc.
  - apply drains_snd; [|done]. apply drains_bind; [apply drains_gets|]. intros active.
    destruct (od_get request_id active); [|apply drains_ret].
    apply drains_bind; [apply drains_gets|]. intros s. case_head; [apply drains_ret|].
    apply drains_bind; [apply drains_set_cancellation|]. intros _.
    apply drains_bind; [apply drains_set_wake|]. intros _. apply drains_ret.
  - unfold stream_open. rewrite (bind_eq _ _ w w w) by done.
    repeat case_head; try done; (apply drains_snd; [|done]);
      (apply drains_bind; [apply drains_ensure_scheduler|]; intros _; apply drains_ret).
  - unfold stream_next, get_seq. rewrite (bind_eq _ _ w (seq_at l w) w) by done.
    destruct (sq_events (seq_at l w)) as [|e es]; [done|].
    set (w' := w <| te_heap ::= alter (take_event e es) l |>).
    assert (draining ls w') as Hw' by (by apply draining_alter).
    rewrite (bind_eq _ _ w tt w') by done. destruct e; [exact Hw'|exact Hw'|].
    pose proof (drains_stream_finally ls request_id l w' Hw') as Hf.
    unfold mbind, M_bind. by destruct (stream_finally request_id l w') as [[] ?].
  - apply drains_snd; [|done]. apply drains_bind; [apply drains_pop_finished|].
    intros _. apply drains_stream_finally.
  - apply drains_snd; [|done]. apply drains_stream_finally.
  - apply drains_snd; [|done]. apply drains_bind; [apply drains_set_cancellation|].
    intros _. apply drains_set_wake.
  - destruct (sq_done _); [|done]. apply drains_snd; [|done].
    apply drains_bind; [apply drains_pop_finished|]. intros _. apply drains_stream_finally.
  - unfold backend_call. destruct (bk_vocabulary_size _) as [[] ?]; by apply (draining_ext ls w).
  - unfold backend_call. destruct (bk_tokenize _ _) as [[] ?]; by apply (draining_ext ls w).
  - unfold shutdown_begin. rewrite (bind_eq _ _ w true w) by (unfold gets; by rewrite Hc). done.
Qed.
Lemma drains_suspend ls : drains ls (suspend clock script).
Proof.
  intros w Hw. cbn. assert (draining ls (w <| te_awaits ::= Datatypes.S |>)) as Hw'
    by (by apply (draining_ext ls w)).
  assert (∀ acts w, draining ls w → draining ls (foldl (λ w a, env_action clock a w) w acts)) as Hacts;
    [|by apply Hacts].
  clear. intros acts. induction acts as [|a acts IH]; intros w Hw; simpl; [done|].
  by apply IH, draining_env_action.
Qed.
Lemma drains_run_async {A} ls (c : Eff S string A) (a : A) :
  (∀ s, ∃ s', c s = (inr a, s')) → drains ls (run_async clock script c).
Proof.
  intros Hc w Hw. unfold run_async.
  rewrite (bind_eq _ _ w false w) by (unfold gets; by rewrite (dr_executor _ _ Hw)).
  pose proof (drains_suspend ls w Hw) as Hs. rewrite (bind_eq _ _ w tt (snd (suspend clock script w))) by done.
  unfold suspend in Hs. cbn in Hs |- *. unfold backend_call.
  match goal with |- context [c ?s] => destruct (Hc s) as [s' ->] end.
  by eapply draining_ext; [..|exact Hs].
Qed.
(** The tail of [_complete]: the sequence is no longer active. *)
Lemma drains_retired ls l i final (event : ScheduledSequence → Event) cs :
  hoare (λ w, Inv ((l, is_at i final) :: cs) w ∧ draining (l :: ls) w)
    (kv ← gets te_kv_allocator;
     released ← lift_res (KVCache.release i kv);
     _ ← modify (λ w : World, w <| te_kv_allocator := snd released |>
                       <| te_active ::= od_del i |>
                       <| te_finished ::= od_set i l |>);
     _ ← update_seq l (λ s, s <| sq_events ::= λ events, events ++ [event s] |>);
     _ ← update_seq l (λ s, s <| sq_done := true |>);
     set_wake) (λ _, draining ls) (Effects.anyhow).
Proof.
  intros w [Hw Hd]. rewrite (bind_eq _ _ w (te_kv_allocator w) w) by done.
  pose proof (proj1 Hw) as []. destruct (release_owners i (te_kv_allocator w)) as (b & kv & Hr & _); [done|].
  rewrite (bind_eq _ _ w (b, kv) w) by (by rewrite Hr).
  destruct Hw as [_ [Ht _]%Forall_cons]. apply tracked_at in Ht as (Hs & _ & Hp).
  apply andb_true_iff in Hp as [Hid%bool_decide_eq_true _].
  set (w1 := w <| te_kv_allocator := kv |> <| te_active ::= od_del i |> <| te_finished ::= od_set i l |>).
  assert (draining ls w1) as Hd1.
  { destruct Hd as [Hc He Ha Hl].
    assert (∀ j l', od_get j (te_active w1) = Some l' → j ≠ i ∧ od_get j (te_active w) = Some l') as Hact.
    { intros j l'. cbn -[od_del decide]. rewrite od_get_del. by destruct (decide (j = i)). }
    split; [done|done| |].
    - intros j l' [Hne Hj]%Hact. specialize (Ha _ _ Hj). apply elem_of_cons in Ha as [->|]; [|done].
      destruct (ei_active0 _ _ Hj) as (s & Hs' & Hj' & _). rewrite Hs in Hs'. injection Hs' as <-.
      congruence.
    - intros j l' [_ Hj]%Hact. by eapply Hl. }
  rewrite (bind_eq _ _ w tt w1) by done.
  eapply (hoare_at _ (draining ls)); [|exact Hd1]. apply hoare_never.
  apply drains_bind; [by apply drains_update_seq|]. intros _.
  apply drains_bind; [by apply drains_update_seq|]. intros _. apply drains_set_wake.
Qed.
Lemma complete_drains ls l P cs reason :
  releases → l ∉ cs.*1 →
  hoare (λ w, Inv ((l, P) :: cs) w ∧ draining (l :: ls) w) (complete clock script l reason)
    (λ _ w, Inv cs w ∧ draining ls w) never.
Proof.
  intros Hrel Hl w [Hw Hd]. unfold complete, retire.
  rewrite (bind_eq _ _ w (id_at l w) w), (bind_eq _ _ w (te_active w) w) by done.
  assert (Forall (tracked w) ((l, P) :: cs)) as [Ht _]%Forall_cons by apply Hw.
  apply tracked_at in Ht as (_ & Ha & _). unfold od_has. rewrite Ha.
  rewrite bool_decide_eq_true_2 by by eexists. cbn [negb].
  remember (id_at l w) as i eqn:Hi. symmetry in Hi.
  apply (hoare_at _ (λ w, (Inv ((l, P) :: cs) w ∧ id_at l w = i) ∧ draining (l :: ls) w)); [|done].
  set (final := phase_for reason). assert (phase_terminal final = true) as Hf by (by destruct reason).
  eapply hoare_bind.
  { apply hoare_and; [by apply hoare_set_phase|]. eapply hoare_conseq; [|done|intros ? ?; exact id|done].
    apply (drains_update_seq (l :: ls)). done. }
  intros []. cbv beta. set (L := (l, is_at i final) :: cs).
  eapply (hoare_bind _ _ _ (λ s w, Inv L w ∧ draining (l :: ls) w)); [by intros w' Hw'|]. intros s. cbv beta.
  eapply (hoare_bind _ _ _ (λ _ w, Inv L w ∧ draining (l :: ls) w)).
  - destruct (sq_backend_created s); [|by apply hoare_ret].
    eapply (hoare_bind _ _ _ (λ _ w, Inv L w ∧ draining (l :: ls) w)).
    + eapply hoare_conseq; [apply (hoare_and _ (draining (l :: ls)) (Inv L) (λ _, draining (l :: ls)) (λ _, Inv L))|
        by intros ? []|by intros ? ? []|done].
      * by apply (drains_run_async _ _ tt).
      * eapply hoare_conseq; [apply safe_run_async|done|done|done].
    + intros []. apply hoare_and; [apply sure_update_seq; [done| |done]; intros s'; by apply seq_ok_ext|].
      by eapply hoare_conseq; [apply (drains_update_seq (l :: ls))|..].
  - intros []. cbv beta.
    eapply hoare_conseq; [apply (hoare_and _ (Inv L) (λ w, Inv L w ∧ draining (l :: ls) w) (λ _, Inv cs) (λ _, draining ls))| |done|done].
    + apply hoare_retired; [done|done|]. intros s' Hs'. by split_and!.
    + apply drains_retired.
    + by intros w' [].
Qed.
Lemma complete_all_drains (f : loc → M unit) (xs : list loc) :
  releases → NoDup xs →
  (∀ l ls cs, l ∉ cs.*1 → hoare (λ w, Inv ((l, anything) :: cs) w ∧ draining (l :: ls) w) (f l)
    (λ _ w, Inv cs w ∧ draining ls w) never) →
  hoare (λ w, Inv (claims anything xs) w ∧ draining xs w) (for_each f xs)
    (λ _ w, Inv [] w ∧ draining [] w) never.
Proof.
  intros Hrel Hd Hf. induction Hd as [|l xs Hn Hd IH]; simpl; [by apply hoare_ret|].
  eapply hoare_bind; [apply Hf; by rewrite claims_fst|]. intros []. exact IH.
Qed.
Lemma draining_values ls w : Inv [] w → draining ls w → draining (od_values (te_active w)) w.
Proof.
  intros [[] _] [Hc He Ha Hl]. split; [done|done| |done]. intros i l Hi.
  apply list_elem_of_fmap. exists (i, l). split; [done|by apply od_get_elem].
Qed.
Lemma draining_nil w : draining [] w → te_active w = [].
Proof.
  intros [_ _ Ha _]. destruct (te_active w) as [|[i l] d]; [done|].
  assert (l ∈ []) as Hl; [|by apply not_elem_of_nil in Hl].
  apply (Ha i l). simpl. by destruct (decide (i = i)).
Qed.
(** Ending everything that is active, as [_finish_interrupted] and [shutdown] do. *)
Lemma end_all_drains (f : loc → M unit) :
  releases →
  (∀ l ls cs, l ∉ cs.*1 → hoare (λ w, Inv ((l, anything) :: cs) w ∧ draining (l :: ls) w) (f l)
    (λ _ w, Inv cs w ∧ draining ls w) never) →
  hoare (λ w, Inv [] w ∧ ∃ ls, draining ls w) (active ← gets te_active; for_each f (od_values active))
    (λ _ w, Inv [] w ∧ draining [] w) never.
Proof.
  intros Hrel Hf. apply hoare_read. intros w [Hw [ls Hd]].
  destruct (Inv_active batch_limit w Hw) as [Hn Hc]. rewrite app_nil_r in Hc.
  eapply hoare_at; [by apply complete_all_drains|]. split; [exact Hc|by eapply draining_values].
Qed.
Lemma finish_interrupted_drains :
  releases →
  hoare (λ w, Inv [] w ∧ ∃ ls, draining ls w) (finish_interrupted clock script)
    (λ _ w, Inv [] w ∧ draining [] w) never.
Proof.
  intros Hrel. apply end_all_drains; [done|]. intros l ls cs Hl w [Hw Hd].
  rewrite (bind_eq (check_interruption clock l) _ w (Some FCancelled) w).
  - eapply hoare_at; [by apply complete_drains|]. done.
  - assert (Forall (tracked w) ((l, anything) :: cs)) as [Ht _]%Forall_cons by apply Hw.
    apply tracked_at in Ht as (Hs & Ha & _). unfold check_interruption, get_seq.
    rewrite (bind_eq _ _ w (seq_at l w) w) by done. by rewrite (dr_cancelled _ _ Hd _ _ Ha).
Qed.
Lemma scheduler_loop_drains fuel :
  releases →
  hoare (λ w, Inv [] w ∧ ∃ ls, draining ls w) (scheduler_loop clock perf script (Datatypes.S fuel))
    (λ _ w, Inv [] w ∧ draining [] w) never.
Proof.
  intros Hrel w [Hw [ls Hd]]. cbn [scheduler_loop]. rewrite (bind_eq _ _ w w w) by done.
  rewrite (dr_closed _ _ Hd). case_bool_decide as Ha; cbn [andb].
  { split; [exact Hw|]. destruct Hd as [Hc He Hact Hl]. split; [exact Hc|exact He| |exact Hl].
    intros i l. by rewrite Ha. }
  pose proof (finish_interrupted_drains Hrel w (conj Hw (ex_intro _ ls Hd))) as Hf.
  unfold iteration. unfold mbind at 1, M_bind at 1. unfold mbind at 1, M_bind at 1.
  destruct (finish_interrupted clock script w) as [[e|[]] w1]; [done|]. clear dependent w. clear ls.
  destruct Hf as [Hw Hd]. pose proof (draining_nil _ Hd) as Hn.
  destruct (decision_spec batch_limit w1 (proj1 Hw)) as (d & p & ws & rs & ps & qs & Hdec & []).
  assert (ps = [] ∧ qs = []) as [-> ->].
  { destruct do_prefill0 as [_ _ H1 _ _], do_decode0 as [_ _ H2 _ _]. rewrite Hn in H1, H2. split.
    - destruct ps as [|l ps]; [done|]. by specialize (H1 l ltac:(left)).
    - destruct qs as [|l qs]; [done|]. by specialize (H2 l ltac:(left)). }
  rewrite (bind_eq _ _ _ _ _ Hdec).
  rewrite (wl_ids _ _ _ _ do_prefill0), (wl_ids _ _ _ _ do_decode0). cbn [fmap list_fmap no_ids].
  change (no_ids []) with true. cbn [negb].
  set (w2 := w1 <| te_policy := p |> <| te_wake := false |>).
  rewrite (bind_eq _ _ _ tt w2) by done. rewrite (bind_eq _ _ w2 w2 w2) by done.
  assert (te_closed w2 && bool_decide (te_active w2 = []) = true) as ->.
  { apply andb_true_iff. split; [apply Hd|]. apply bool_decide_eq_true. exact Hn. }
  split; [exact Hw|]. by apply (draining_ext [] w1).
Qed.
Definition cancelled w (l : loc) : Prop :=
  ∀ s, te_heap w !! l = Some s → ss_cancellation (sq_state s) = true.
(** During the loop of [shutdown]: the sequences of [ys] are cancelled. *)
Definition same_work w w' : Prop :=
  te_executor_closed w' = te_executor_closed w ∧ te_active w' = te_active w ∧
  te_scheduler_task w' = te_scheduler_task w ∧ te_kv_allocator w' = te_kv_allocator w.
Definition cancelling w0 (ys : list loc) w : Prop :=
  Inv [] w ∧ (te_closed w = true ∧ same_work w0 w) ∧ ∀ l, l ∈ ys → cancelled w l.
Lemma set_cancellation_cancels (xs ys : list loc) w0 :
  hoare (cancelling w0 ys) (for_each set_cancellation xs) (λ _, cancelling w0 (xs ++ ys)) never.
Proof.
  revert ys. induction xs as [|l xs IH]; intros ys; simpl; [by apply hoare_ret|].
  eapply (hoare_bind _ _ _ (λ _, cancelling w0 (l :: ys))).
  - intros w (Hw & Hs & Hc). pose proof (sure_set_cancellation batch_limit [] l w Hw) as Hw'.
    set (f := λ s : ScheduledSequence, s <| sq_state ::= λ st, st <| ss_cancellation := true |> |>) in *.
    change (Inv [] (w <| te_heap ::= alter f l |>)) in Hw'.
    change (cancelling w0 (l :: ys) (w <| te_heap ::= alter f l |>)).
    split; [exact Hw'|]. split; [exact Hs|]. intros l' Hl' s. cbn.
    destruct (decide (l = l')) as [<-|Hne].
    + rewrite lookup_alter_eq. by intros (s' & _ & ->)%fmap_Some.
    + rewrite lookup_alter_ne by done. apply elem_of_cons in Hl' as [->|Hl']; [done|]. by apply Hc.
  - intros []. eapply hoare_post; [apply IH|]. intros [] w (Hw & Hs & Hc).
    split; [exact Hw|]. split; [exact Hs|]. intros l' Hl'. apply Hc.
    change (l' ∈ (l :: xs) ++ ys) in Hl'. by rewrite <- Permutation_middle.
Qed.
Lemma shutdown_begin_drains w :
  Inv [] w → te_closed w = false → te_executor_closed w = false →
  ∃ w', shutdown_begin w = (inr true, w') ∧ Inv [] w' ∧ same_work w w' ∧ ∃ ls, draining ls w'.
Proof.
  intros Hw Hc He. unfold shutdown_begin. set (w1 := w <| te_closed := true |>).
  rewrite (bind_eq _ _ w false w) by (unfold gets; by rewrite Hc).
  rewrite (bind_eq _ _ w tt w1), (bind_eq _ _ w1 (te_active w1) w1) by done.
  assert (cancelling w [] w1) as H1.
  { split; [by apply Inv_close|]. split; [done|]. intros l Hl. by apply not_elem_of_nil in Hl. }
  pose proof (set_cancellation_cancels (od_values (te_active w1)) [] w w1 H1) as H2.
  unfold mbind at 1, M_bind at 1.
  destruct (for_each set_cancellation (od_values (te_active w1)) w1) as [[e|[]] w2]; [done|].
  destruct H2 as (Hw2 & (Hc2 & Hsame) & Hcan). pose proof Hsame as (He2 & Ha2 & _). rewrite He in He2.
  exists (w2 <| te_wake := true |>). split; [done|]. split; [exact Hw2|]. split; [exact Hsame|].
  exists (od_values (te_active w1)). destruct Hw2 as [[] _].
  split; [exact Hc2|exact He2| |]; cbn; rewrite Ha2; intros i l Hi.
  - apply list_elem_of_fmap. exists (i, l). split; [done|by apply od_get_elem].
  - unfold seq_at. cbn. rewrite Ha2 in ei_active0. destruct (ei_active0 _ _ Hi) as (s & Hs & _).
    rewrite Hs. simpl. eapply Hcan; [|exact Hs]. rewrite app_nil_r.
    apply list_elem_of_fmap. exists (i, l). split; [done|by apply od_get_elem].
Qed.
Lemma scheduler_task_drains fuel :
  releases →
  hoare (λ w, Inv [] w ∧ ∃ ls, draining ls w) (scheduler_task clock perf script (Datatypes.S fuel))
    (λ _ w, Inv [] w ∧ draining [] w) never.
Proof.
  intros Hrel w Hw. pose proof (scheduler_loop_drains fuel Hrel w Hw) as Hl. unfold scheduler_task.
  destruct (scheduler_loop clock perf script (Datatypes.S fuel) w) as [[e|[]] w']; [done|].
  destruct Hl as [[[] Hls] Hd]. pose proof (dr_closed _ _ Hd) as Hc.
  split; [split; [by split|exact Hls]|]. by apply (draining_ext [] w').
Qed.
(** The scheduler's task has not ended. *)
Definition task_alive w : Prop := ∀ r, te_scheduler_task w ≠ TaskDone r.
Lemma await_scheduler_drains fuel :
  releases →
  hoare (λ w, (Inv [] w ∧ ∃ ls, draining ls w) ∧ task_alive w)
    (await_scheduler clock perf script (Datatypes.S fuel)) (λ _ w, Inv [] w ∧ draining [] w) never.
Proof.
  intros Hrel. apply hoare_read. intros w [Hw Halive].
  destruct (te_scheduler_task w) as [| |r] eqn:Ht; [| |by destruct (Halive r)].
  - eapply (hoare_at _ (λ w, Inv [] w ∧ ∃ ls, draining ls w)); [|exact Hw].
    apply end_all_drains; [done|]. intros l ls' cs Hl. by apply complete_drains.
  - eapply (hoare_at _ (λ w, Inv [] w ∧ ∃ ls, draining ls w)); [|exact Hw].
    by apply scheduler_task_drains.
Qed.
(** [shutdown] up to the clearing of the prefix cache. *)
Lemma shutdown_drains fuel w :
  releases → Inv [] w → te_closed w = false → te_executor_closed w = false → task_alive w →
  (∀ s, ∃ s', bk_shutdown s = (inr tt, s')) →
  ∃ w', shutdown clock perf script (Datatypes.S fuel) w = (inr tt, w') ∧ Inv [] w' ∧
    te_active w' = [] ∧ te_executor_closed w' = true.
Proof.
  intros Hrel Hw Hc He Halive Hshut. unfold shutdown.
  destruct (shutdown_begin_drains w Hw Hc He) as (w1 & E1 & Hw1 & (_ & _ & Ht1 & _) & ls & Hd1).
  rewrite (bind_eq _ _ _ _ _ E1). cbv iota. unfold shutdown_finish.
  assert (task_alive w1) as Halive1 by (intros r; rewrite Ht1; apply Halive).
  pose proof (await_scheduler_drains fuel Hrel w1 (conj (conj Hw1 (ex_intro _ ls Hd1)) Halive1)) as Hend.
  clear dependent w. unfold mbind at 1, M_bind at 1.
  destruct (await_scheduler clock perf script (Datatypes.S fuel) w1) as [[e|[]] w2]; [done|].
  destruct Hend as [Hw2 Hd2].
  set (w3 := w2 <| te_prefix_cache ::= PrefixCache.clear |>).
  assert (Inv [] w3) as Hw3.
  { destruct Hw2 as [[] Hls]. split; [|exact Hls]. split; try done. simpl. by apply clear_inv. }
  assert (draining [] w3) as Hd3 by (by apply (draining_ext [] w2)).
  rewrite (bind_eq _ _ w2 tt w3) by done.
  assert (hoare (λ w, draining [] w ∧ Inv [] w) (run_async clock script bk_shutdown)
    (λ _ w, draining [] w ∧ Inv [] w) never) as Hrun.
  { apply hoare_and; [by apply (drains_run_async _ _ tt)|].
    eapply hoare_conseq; [apply safe_run_async|done|done|done]. }
  specialize (Hrun w3 (conj Hd3 Hw3)).
  unfold mbind at 1, M_bind at 1.
  destruct (run_async clock script bk_shutdown w3) as [[e|[]] w4]; [done|]. destruct Hrun as [Hd4 Hw4].
  eexists. split; [done|]. split; [exact Hw4|]. split; [|done]. exact (draining_nil _ Hd4).
Qed.
(** The exception of a task that has died reaches the caller of [shutdown], before any sequence is
    ended. *)
Lemma shutdown_dead fuel w e :
  Inv [] w → te_closed w = false → te_executor_closed w = false →
  te_scheduler_task w = TaskDone (inl e) →
  ∃ w', shutdown clock perf script fuel w = (inl e, w') ∧ te_closed w' = true ∧ same_work w w' ∧
    ∀ i l, od_get i (te_active w) = Some l → ss_cancellation (sq_state (seq_at l w')) = true.
Proof.
  intros Hw Hc He Ht. destruct (shutdown_begin_drains w Hw Hc He) as (w1 & E1 & _ & Hsame & ls & Hd1).
  exists w1. unfold shutdown. rewrite (bind_eq _ _ _ _ _ E1). cbv iota.
  pose proof Hsame as (_ & Ha1 & Ht1 & _). unfold shutdown_finish, await_scheduler.
  split; [|split; [apply Hd1|split; [exact Hsame|]]].
  - unfold mbind at 1, M_bind at 1. rewrite (bind_eq _ _ w1 (te_scheduler_task w1) w1) by done.
    by rewrite Ht1, Ht.
  - intros i l. rewrite <- Ha1. apply (dr_cancelled _ _ Hd1).
Qed.

End shutdown.

Lemma engine_init_Inv {S B} (backend : S) max_active max_batch policy kv chunk
  (cache : option (PrefixCache (B := B))) w :
  TokenGenerationEngine_init backend max_active max_batch policy kv chunk cache = Ok w →
  (∀ a, kv = Some a → kv_inv a ∧ kv_owners a = ∅) → (∀ c, cache = Some c → prefix_inv c) →
  InvWith (te_max_batch_size w) [] w ∧ te_max_active_sequences w = max_active ∧
  te_max_batch_size w = default max_active max_batch.
Proof.
  unfold TokenGenerationEngine_init. intros H Hkv Hcache.
  apply bind_Ok_inv in H as (? & H1%raise_if_Ok & H). apply bind_Ok_inv in H as (? & H2%raise_if_Ok & H).
  apply bind_Ok_inv in H as (? & H3%raise_if_Ok & H). apply bind_Ok_inv in H as (p & _ & H).
  apply bind_Ok_inv in H as (a & Ha & H). apply bind_Ok_inv in H as (c & Hc & [= <-]). bool_hyps.
  split; [|done]. split; [|constructor].
  assert (kv_inv a ∧ kv_owners a = ∅) as [Hi Ho].
  { destruct kv as [a'|]; [injection Ha as <-; by apply Hkv|].
    split; [by eapply kv_inv_init|]. unfold KVBlockAllocator_init in Ha.
    apply bind_Ok_inv in Ha as (? & _ & Ha). by apply bind_Ok_inv in Ha as (? & _ & [= <-]). }
  assert (prefix_inv c) as Hp by (destruct cache; [injection Hc as <-; by apply Hcache|by eapply init_inv]).
  split; simpl; try done; try (intros; by apply not_elem_of_nil); try constructor.
  all: try lia.
  all: try (rewrite Ho, lookup_empty; done).
  - by destruct max_batch; bool_hyps; simpl; lia.
  - destruct max_batch; simpl; bool_hyps; lia.
Qed.

(** ** A concrete backend, for the witnesses *)

(** It counts its model calls, tokenizes a prompt into its bytes and answers with token 100. *)
Definition sample_token (index : Z) : GeneratedToken := mkToken 100 "x" index (index + 1).
Definition counted {A} (a : A) : Eff Z string A := λ n, (inr a, n + 1).
Definition sample_backend (snapshot_fails : bool) : InferenceBackend Z (list Z) := {|
  bk_vocabulary_size := λ n, (inr 256, n);
  bk_tokenize := λ prompt n, (inr (mkTokenized (Z.of_N <$> str_bytes prompt)), n);
  bk_eos_token_ids := λ n, (inr [2], n);
  bk_prefill := λ _ _ _, counted (sample_token 0);
  bk_decode := λ _ _ index, counted (sample_token index);
  bk_prefill_batch := None;
  bk_prefill_chunk := None;
  bk_decode_batch := None;
  bk_restore_prefix := Some (λ _ _ _, counted (sample_token 0));
  bk_resume_prefix := None;
  bk_snapshot_prefix :=
    Some (λ _ n, if snapshot_fails then (inl "out of memory", n) else (inr [n], n));
  bk_release_sequence := λ _ n, (inr tt, n);
  bk_shutdown := λ n, (inr tt, n)
|}.
Definition sample_clock (n : nat) : float := f_of_Z (Z.of_nat n).
Definition sample_script (n : nat) : list EnvAction :=
  match n with 2%nat => [EnvCancel "b"; EnvReserve "c" "hi" (mkSampling 1 f_zero (f_of_Z 1) []) (f_of_Z 1000) 2]
  | _ => [] end.
Definition sample_cache : PrefixCache (B := list Z) :=
  mkPrefixCache 4 64 [] empty_node 0 0 0 0 0 0 0 0 0.
Definition sample_kv : KVBlockAllocator :=
  mkKV 1024 16 1 (f_ratio 9 10) (f_ratio 7 10) (seqZ 0 1024) ∅ ∅ 0 false.
Definition sample_engine : TokenGenerationEngine Z (list Z) :=
  mkEngine 2 2 (mkPolicy DecodeFirst false) 0 sample_kv sample_cache ∅ [] [] TaskNone false false None
    0 0 0 0 false 0 0 0.
Definition sample_reserve (i : string) (max_new_tokens : Z) : EnvAction :=
  EnvReserve i "hello" (mkSampling max_new_tokens f_zero (f_of_Z 1) [5]) (f_of_Z 1000) 5.
(** Two requests. *)
Definition sample_admitted : TokenGenerationEngine Z (list Z) :=
  env_action (H := sample_backend false) sample_clock (sample_reserve "b" 3)
    (env_action (H := sample_backend false) sample_clock (sample_reserve "a" 2) sample_engine).
(** Three iterations of the scheduler. *)
Definition sample_run : TokenGenerationEngine Z (list Z) :=
  snd (scheduler_task (H := sample_backend false) sample_clock sample_clock sample_script 3
         sample_admitted).
Lemma sample_engine_init :
  TokenGenerationEngine_init (B := list Z) 0 2 None "decode_first" None 0 (Some sample_cache)
  = Ok sample_engine.
Proof. vm_compute. reflexivity. Qed.
Lemma engine_cache_inv c : Some sample_cache = Some c → prefix_inv c.
Proof. intros [= <-]. by apply (init_inv 4 64). Qed.
Lemma sample_run_reachable :
  engine_reachable (H := sample_backend false) sample_clock sample_clock sample_script
    sample_engine sample_run.
Proof. apply engine_run, engine_call, engine_call, engine_start. Qed.
Lemma sample_run_inv : inv 2 sample_run.
Proof.
  destruct (engine_init_Inv _ _ _ _ _ _ _ _ sample_engine_init
    ltac:(intros a Ha; discriminate Ha) engine_cache_inv) as (H0 & _ & _).
  exact (proj1 (engine_reachable_Inv _ _ _ _ _ _ H0 sample_run_reachable)).
Qed.

(** ** Properties *)

Section properties.
Context {S B : Type} `{InferenceBackend S B}.
Implicit Types (w : TokenGenerationEngine S B).
Variable clock : nat → float.
Variable perf : nat → float.
Variable script : nat → list EnvAction.

(** C1: In every state an engine can reach, whatever the backend answers or raises, whatever other
    tasks call at the awaits and whether or not the scheduler's task has died of an exception: the
    active sequences and the batches stay within their limits, the KV allocator's own consistency
    check passes, and the owners of KV blocks are exactly the active sequences, so that no block
    outlives its sequence and none is missing. *)
Theorem engine_resources_accounted backend max_active max_batch policy kv chunk cache w0 w :
  TokenGenerationEngine_init backend max_active max_batch policy kv chunk cache = Ok w0 →
  (∀ a, kv = Some a → kv_inv a ∧ kv_owners a = ∅) → (∀ c, cache = Some c → prefix_inv c) →
  engine_reachable clock perf script w0 w →
  active_sequence_count w <= te_max_active_sequences w ∧
  te_max_observed_batch_size w <= default max_active max_batch ∧
  assert_invariants (te_kv_allocator w) = Ok tt ∧
  ∀ i, is_Some (kv_owners (te_kv_allocator w) !! i) ↔ is_Some (od_get i (te_active w)).
Proof.
  intros Hinit Hkv Hcache Hreach.
  destruct (engine_init_Inv _ _ _ _ _ _ _ _ Hinit Hkv Hcache) as (H0 & _ & Hb).
  destruct (engine_reachable_Inv clock perf script _ _ _ H0 Hreach) as [[] _].
  split_and!; [done|lia|by apply kv_inv_assert|done].
Qed.

(** C2: In every reachable state each sequence ever admitted is well formed: while it is not done it is
    active (no request is lost); the events its readers have been given followed by those that wait in
    its queue are exactly one token event per generated token, in order, followed once it is done by
    exactly one final event, a failure or a completion whose reason and token counts are those of the
    sequence (so no reader ever sees a token twice, out of order or after the end, and none is
    dropped); it never has more tokens than [max_new_tokens], and never a stop token. *)
Theorem engine_streams_well_formed backend max_active max_batch policy kv chunk cache w0 w l s :
  TokenGenerationEngine_init backend max_active max_batch policy kv chunk cache = Ok w0 →
  (∀ a, kv = Some a → kv_inv a ∧ kv_owners a = ∅) → (∀ c, cache = Some c → prefix_inv c) →
  engine_reachable clock perf script w0 w → te_heap w !! l = Some s →
  (sq_done s = false → od_get (ss_request_id (sq_state s)) (te_active w) = Some l) ∧
  stream_ok s ∧ Z.of_nat (length (generated s)) <= limit s ∧
  ∀ t, t ∈ generated s → t ∉ sp_stop_token_ids (ss_sampling (sq_state s)).
Proof.
  intros Hinit Hkv Hcache Hreach Hs.
  destruct (engine_init_Inv _ _ _ _ _ _ _ _ Hinit Hkv Hcache) as (H0 & _ & _).
  destruct (engine_reachable_Inv clock perf script _ _ _ H0 Hreach) as [[] _].
  destruct (ei_seq0 _ _ Hs). split_and!; auto.
Qed.

(** C40: Choosing the work of an iteration never fails in a well-formed state and changes only the
    policy's turn. [ws] and [rs] are the active sequences that wait or prefill and those that decode,
    by age. It chooses a decode batch exactly when something decodes and the policy says so:
    prefill_first only when nothing waits, decode_first always, balanced when nothing waits or at
    every second decision, whose turn it flips. Otherwise it prefills the oldest waiting sequences, up
    to the batch size; a decode batch is, of the oldest decoding sequences up to the batch size, all
    those with the shortest cache. The chosen identifiers are those of these distinct sequences. *)
Theorem engine_decision_sound batch_limit w :
  inv batch_limit w →
  ∃ d p ws rs ps qs, decision w = (inr d, w <| te_policy := p |>) ∧ decision_ok w d p ws rs ps qs.
Proof. apply decision_spec. Qed.

(** C24: [shutdown], called between two iterations of the scheduler in any well-formed state in which
    the engine is open, always ends, provided the backend's [release_sequence] and [shutdown] do not
    raise: one iteration of the scheduler is enough, whatever happens at the awaits. Unless the
    scheduler's task had died it returns, and then nothing is active, every sequence ever admitted is
    done (its stream has or had a final event), no KV block is owned and the executor is closed. If
    the task had died of an exception, [shutdown] raises that exception: the engine is closed and the
    active sequences are marked cancelled, but they stay active with their KV blocks and the executor
    stays open. *)
Theorem engine_shutdown_completes batch_limit fuel w :
  inv batch_limit w → te_closed w = false → te_executor_closed w = false → releases →
  (∀ s, ∃ s', bk_shutdown s = (inr tt, s')) →
  match te_scheduler_task w with
  | TaskDone (inl e) =>
    ∃ w', shutdown clock perf script (Datatypes.S fuel) w = (inl e, w') ∧ te_closed w' = true ∧
      te_active w' = te_active w ∧ te_kv_allocator w' = te_kv_allocator w ∧
      te_executor_closed w' = false ∧
      ∀ i l, od_get i (te_active w) = Some l → ss_cancellation (sq_state (seq_at l w')) = true
  | _ =>
    ∃ w', shutdown clock perf script (Datatypes.S fuel) w = (inr tt, w') ∧ te_active w' = [] ∧
      (∀ l s, te_heap w' !! l = Some s → sq_done s = true) ∧
      (∀ i, kv_owners (te_kv_allocator w') !! i = None) ∧ te_executor_closed w' = true
  end.
Proof.
  intros Hi Hc He Hrel Hshut. pose proof (conj Hi (Forall_nil_2 _) : InvWith batch_limit [] w) as Hw.
  assert (task_alive w → ∃ w', shutdown clock perf script (Datatypes.S fuel) w = (inr tt, w') ∧
    te_active w' = [] ∧ (∀ l s, te_heap w' !! l = Some s → sq_done s = true) ∧
    (∀ i, kv_owners (te_kv_allocator w') !! i = None) ∧ te_executor_closed w' = true) as Halive.
  { intros Ha. destruct (shutdown_drains clock perf script batch_limit fuel w Hrel Hw Hc He Ha Hshut)
      as (w' & Hw' & [[] _] & Hact & He').
    exists w'. split_and!; [exact Hw'|exact Hact| | |exact He'].
    - intros l s Hs. destruct (sq_done s) eqn:Hd; [done|]. specialize (ei_unfinished0 _ _ Hs Hd).
      by rewrite Hact in ei_unfinished0.
    - intros i. apply eq_None_not_Some. rewrite ei_owners0, Hact. by intros []. }
  unfold task_alive in Halive. destruct (te_scheduler_task w) as [| |[e|[]]] eqn:Ht.
  - by apply Halive.
  - by apply Halive.
  - destruct (shutdown_dead clock perf script batch_limit (Datatypes.S fuel) w e Hw Hc He Ht)
      as (w' & H1 & H2 & (H3 & H4 & _ & H5) & H6).
    exists w'. rewrite <- He. done.
  - destruct Hi as []. rewrite (ei_task0 Ht) in Hc. discriminate Hc.
Qed.
End properties.

(** ** Witnesses *)

Lemma engine_resources_accounted_witness :
  active_sequence_count sample_run <= 2 ∧ assert_invariants (te_kv_allocator sample_run) = Ok tt.
Proof.
  destruct (engine_resources_accounted (H := sample_backend false) sample_clock sample_clock sample_script
    0 2 None "decode_first" None 0 (Some sample_cache) sample_engine sample_run
    sample_engine_init ltac:(intros a Ha; discriminate Ha) engine_cache_inv sample_run_reachable)
    as (_ & _ & Hkv & _).
  split; [vm_compute; discriminate|exact Hkv].
Defined.
(** A reader takes the first event of request a. *)
Definition sample_read : TokenGenerationEngine Z (list Z) :=
  env_action (H := sample_backend false) sample_clock (EnvStreamNext "a" 1%positive) sample_run.
Lemma sample_read_reachable :
  engine_reachable (H := sample_backend false) sample_clock sample_clock sample_script
    sample_engine sample_read.
Proof. apply engine_call, sample_run_reachable. Qed.
Lemma engine_streams_well_formed_witness :
  let s := seq_at 1%positive sample_read in
  (generated s = [100; 100] ∧ length (sq_taken s) = 1%nat ∧ length (sq_events s) = 2%nat) ∧ stream_ok s.
Proof.
  split; [vm_compute; split_and!; reflexivity|].
  destruct (engine_streams_well_formed (H := sample_backend false) sample_clock sample_clock sample_script
    0 2 None "decode_first" None 0 (Some sample_cache) sample_engine sample_read 1%positive
    (seq_at 1%positive sample_read)
    sample_engine_init ltac:(intros a Ha; discriminate Ha) engine_cache_inv sample_read_reachable
    ltac:(vm_compute; reflexivity)) as (_ & Hs & _).
  exact Hs.
Defined.
(** One iteration has prefilled both requests, and a reader has opened a stream. *)
Definition sample_streaming : TokenGenerationEngine Z (list Z) :=
  env_action (H := sample_backend false) sample_clock (EnvStreamOpen "a")
    (snd (scheduler_task (H := sample_backend false) sample_clock sample_clock (λ _, []) 1 sample_admitted)).
Lemma sample_streaming_inv : inv 2 sample_streaming.
Proof.
  destruct (engine_init_Inv _ _ _ _ _ _ _ _ sample_engine_init
    ltac:(intros a Ha; discriminate Ha) engine_cache_inv) as (H0 & _ & _).
  refine (proj1 (engine_reachable_Inv sample_clock sample_clock (λ _, []) _ _ _ H0 _)).
  apply engine_call, engine_run, engine_call, engine_call, engine_start.
Qed.
Lemma engine_decision_sound_witness :
  fst (decision sample_streaming) = inr (mkDecision [] ["a"; "b"] "decode_first") ∧
  ∃ d p ws rs ps qs, decision sample_streaming = (inr d, sample_streaming <| te_policy := p |>) ∧
    decision_ok sample_streaming d p ws rs ps qs.
Proof.
  split; [vm_compute; reflexivity|]. exact (engine_decision_sound 2 sample_streaming sample_streaming_inv).
Defined.
Lemma sample_streaming_task : te_scheduler_task sample_streaming = TaskRunning.
Proof. vm_compute. reflexivity. Qed.
Lemma engine_shutdown_completes_witness :
  ∃ w', shutdown (H := sample_backend false) sample_clock sample_clock (λ _, []) 1 sample_streaming
    = (inr tt, w') ∧ te_active w' = [].
Proof.
  pose proof (engine_shutdown_completes (H := sample_backend false) sample_clock sample_clock (λ _, [])
    2 0 sample_streaming sample_streaming_inv ltac:(vm_compute; reflexivity) ltac:(vm_compute; reflexivity)
    ltac:(intros i s; exists s; reflexivity) ltac:(intros s; exists s; reflexivity)) as Hs.
  rewrite sample_streaming_task in Hs. destruct Hs as (w' & Hw' & Ha & _).
  exists w'. split; [exact Hw'|exact Ha].
Defined.

(** An exception of [snapshot_prefix] is raised outside the [try] of [_run_prefill]: the scheduler's
    task ends, the sequence stays active, with its KV blocks and without a final event, and [shutdown]
    raises the exception again before it has cleaned up. *)
Lemma snapshot_failure_kills_scheduler :
  let engine := env_action (H := sample_backend true) sample_clock (sample_reserve "a" 2) sample_engine in
  let '(r, w) := scheduler_task (H := sample_backend true) sample_clock sample_clock (λ _, []) 10 engine in
  let '(r', w') := shutdown (H := sample_backend true) sample_clock sample_clock (λ _, []) 10 w in
  r = inl (EBackend "out of memory") ∧ te_scheduler_task w = TaskDone r ∧
  te_active w = [("a", 1%positive)] ∧ kv_owners (te_kv_allocator w) !! "a" = Some [0] ∧
  sq_events (seq_at 1%positive w) = [] ∧ sq_done (seq_at 1%positive w) = false ∧
  r' = r ∧ te_active w' = te_active w ∧ te_executor_closed w' = false.
Proof. vm_compute. split_and!; reflexivity. Qed.
(** A stream closed by its consumer before the sequence is done leaves its entry in [_finished]: the
    identifier can never be reserved again. *)
Lemma closed_stream_blocks_identifier :
  let w := env_action (H := sample_backend false) sample_clock (EnvStreamClose "a" 1%positive)
    (env_action (H := sample_backend false) sample_clock (EnvStreamOpen "a")
      (env_action (H := sample_backend false) sample_clock (sample_reserve "a" 2) sample_engine)) in
  let '(_, w) := scheduler_loop (H := sample_backend false) sample_clock sample_clock (λ _, []) 10 w in
  te_active w = [] ∧ te_finished w = [("a", 1%positive)] ∧
  fst (reserve sample_clock "a" "hello" (mkSampling 2 f_zero (f_of_Z 1) []) (f_of_Z 1000) 5 w)
    = inl (EPy (ValueError "sequence already exists: a")).
Proof. vm_compute. split_and!; reflexivity. Qed.
