(* ===== verification/Worker.v ===== *)
(** [apps/worker/service.py] and [runtime/base/interface.py]: the managed worker over any model
    runtime. Its methods run on several threads under one lock; each locked section is a computation
    of its own, the methods are their compositions, and [worker_step] interleaves the sections of
    concurrent calls. *)
From S2P Require Import Prelude PyContainers PyFloat Domain FairQueue Registry Effects.
From Stdlib Require String.

#[local] Open Scope string_scope.
#[local] Open Scope list_scope.
#[local] Open Scope Z_scope.

(** ** The runtime *)

Record RuntimeCapacity := mkCapacity {
  cp_device_type : DeviceType;
  cp_device_name : string;
  cp_total_memory_bytes : option Z;
  cp_available_memory_bytes : option Z;
  cp_allocated_memory_bytes : option Z;
  cp_reserved_memory_bytes : option Z;
  cp_device_index : option Z;
  cp_compute_capability : option string;
  cp_driver_version : option string;
  cp_runtime_version : option string;
  cp_numa_node : option Z;
  cp_pcie_root_id : option string;
  cp_fabric_id : option string
}.
Record RuntimeResult := mkResult {
  rr_text : string;
  rr_input_tokens : Z;
  rr_output_tokens : Z;
  rr_tokenization_ms : float;
  rr_generation_ms : float;
  rr_decoding_ms : float
}.
(** The methods of the protocol [ModelRuntime] that the worker calls, over the runtime's state [S];
    an exception is any Python exception. *)
Class ModelRuntime (S : Type) := {
  rt_load_model : ModelDefinition → Eff S PyErr unit;
  rt_unload_model : string → Eff S PyErr unit;
  rt_warmup_model : string → Eff S PyErr unit;
  rt_is_model_loaded : string → S → bool;
  rt_generate : string → list string → Z → float → Eff S PyErr (list RuntimeResult);
  rt_capacity : Eff S PyErr RuntimeCapacity
}.

Record WorkerExecutionResult := mkExecution { we_request_id : string; we_result : RuntimeResult }.
Record ModelCacheMetrics := mkCacheMetrics {
  cm_cache_hits : Z;
  cm_cache_misses : Z;
  cm_cold_starts : Z;
  cm_load_failures : Z;
  cm_evictions : Z;
  cm_reserved_memory_bytes : Z;
  cm_coalesced_loads : Z;
  cm_model_load_seconds_total : float
}.

(** [EBlocked]: the call waits on the condition variable for another thread. *)
Inductive WorkerExc := EPy (e : PyErr) | EBlocked.

(** ** State *)

Record ManagedWorker := mkManaged {
  mw_worker_id : string;
  mw_max_queue_depth : Z;
  mw_max_concurrency : Z;
  mw_max_batch_size : Z;
  mw_max_batch_tokens : Z;
  mw_memory_safety_reserve_bytes : Z;
  mw_health : HealthStatus;
  mw_draining : bool;
  mw_resident_models : gset string;
  mw_loading_models : gset string;
  mw_model_definitions : gmap string ModelDefinition;
  mw_model_last_used : gmap string float;
  mw_active_requests_by_model : gmap string Z;
  mw_active_requests : gmap string loc;
  mw_load_attempts : gmap string Z;
  mw_load_failures : gmap string (Z * WorkerExc);
  mw_reserved_model_memory_bytes : Z;
  mw_cache_hits : Z;
  mw_cache_misses : Z;
  mw_cold_starts : Z;
  mw_model_load_failures : Z;
  mw_model_evictions : Z;
  mw_coalesced_loads : Z;
  mw_model_load_seconds_total : float;
  mw_queue : list loc;
  mw_active_batch_count : Z;
  mw_recent_tokens_per_second : float
}.
#[export] Instance eta_ManagedWorker : Eta ManagedWorker := λ w,
  mkManaged (mw_worker_id w) (mw_max_queue_depth w) (mw_max_concurrency w) (mw_max_batch_size w)
    (mw_max_batch_tokens w) (mw_memory_safety_reserve_bytes w) (mw_health w) (mw_draining w)
    (mw_resident_models w) (mw_loading_models w) (mw_model_definitions w) (mw_model_last_used w)
    (mw_active_requests_by_model w) (mw_active_requests w) (mw_load_attempts w)
    (mw_load_failures w) (mw_reserved_model_memory_bytes w) (mw_cache_hits w) (mw_cache_misses w)
    (mw_cold_starts w) (mw_model_load_failures w) (mw_model_evictions w) (mw_coalesced_loads w)
    (mw_model_load_seconds_total w) (mw_queue w) (mw_active_batch_count w)
    (mw_recent_tokens_per_second w).
Definition ManagedWorker_init (worker_id : string) (max_queue_depth max_concurrency max_batch_size
  max_batch_tokens memory_safety_reserve_bytes : Z) : res ManagedWorker :=
  _ ← raise_if ((memory_safety_reserve_bytes <? 0) || str_empty worker_id
       || (Z.min (Z.min max_queue_depth max_concurrency) (Z.min max_batch_size max_batch_tokens) <=? 0))
    (ValueError "worker id, queue depth, and concurrency must be positive");
  Ok (mkManaged worker_id max_queue_depth max_concurrency max_batch_size max_batch_tokens
        memory_safety_reserve_bytes REGISTERING false ∅ ∅ ∅ ∅ ∅ ∅ ∅ ∅ 0 0 0 0 0 0 0 f_zero [] 0 f_zero).

Section world.
Context {S : Type}.
(** The worker, what it shares with the rest of the process (the request objects, the registry and the
    runtime), and how many clock readings have been made. *)
Record Site := mkSite {
  si_heap : heap;
  si_registry : WorkerRegistry;
  si_runtime : S;
  si_worker : ManagedWorker;
  si_readings : nat
}.
#[export] Instance eta_Site : Eta Site := λ w,
  mkSite (si_heap w) (si_registry w) (si_runtime w) (si_worker w) (si_readings w).
End world.
Arguments Site S : clear implicits.

(** ** Operations *)

Section worker.
Context {S : Type} `{ModelRuntime S}.
#[local] Abbreviation World := (Site S).
#[local] Abbreviation M := (Eff World WorkerExc).
(** [time.monotonic] and [time.perf_counter] at each reading. *)
Variable clock : nat → float.
Variable perf : nat → float.

Definition monotonic : M float := λ w, (inr (clock (si_readings w)), w <| si_readings ::= Datatypes.S |>).
Definition perf_counter : M float := λ w, (inr (perf (si_readings w)), w <| si_readings ::= Datatypes.S |>).
Definition lift_res {A} (r : res A) : M A := λ w,
  match r with Ok a => (inr a, w) | Err e => (inl (EPy e), w) end.
Definition runtime_call {A} (c : Eff S PyErr A) : M A := λ w,
  match c (si_runtime w) with
  | (inr a, s) => (inr a, w <| si_runtime := s |>)
  | (inl e, s) => (inl (EPy e), w <| si_runtime := s |>)
  end.
Definition get_worker : M ManagedWorker := gets si_worker.
Definition update (f : ManagedWorker → ManagedWorker) : M unit :=
  modify (λ w, w <| si_worker ::= f |>).
Definition get_request (l : loc) : M RequestRecord := gets (λ w, si_heap w !!! l).
Definition transition_at (l : loc) (target : RequestState) (at_ : float) : M unit :=
  r ← get_request l;
  r ← lift_res (transition target at_ r);
  modify (λ w, w <| si_heap ::= <[l := r]> |>).
(** [request.transition(target)]. *)
Definition transition_now (l : loc) (target : RequestState) : M unit :=
  now ← monotonic; transition_at l target now.
Definition touch (model_id : string) (now : float) : M unit :=
  update (λ w, w <| mw_model_last_used ::= <[model_id := now]> |>).
Definition touch_now (model_id : string) : M unit := now ← monotonic; touch model_id now.

(** *** Registration *)

(** [_snapshot]; [hostname] is the parameter [socket.gethostname()]. *)
Variable hostname : string.
Definition snapshot : M WorkerState :=
  c ← runtime_call rt_capacity;
  w ← get_worker;
  now ← monotonic;
  lift_res (WorkerState_post_init
    (mkWorker (mw_worker_id w) (cp_device_type c) (cp_device_name c) (cp_total_memory_bytes c)
       (cp_available_memory_bytes c) (mw_resident_models w) (mw_loading_models w)
       (Z.of_nat (length (mw_queue w))) (mw_active_batch_count w) (mw_max_concurrency w)
       (mw_recent_tokens_per_second w) (mw_health w) (mw_draining w) now
       (cp_allocated_memory_bytes c) (cp_reserved_memory_bytes c) (cp_device_index c)
       (cp_compute_capability c) (cp_driver_version c) (cp_runtime_version c) 0 0 None
       (Some hostname) (cp_numa_node c) (cp_pcie_root_id c) (cp_fabric_id c))).
Definition register : M WorkerState :=
  w ← get_worker;
  _ ← (if bool_decide (mw_health w = STOPPED) then update (λ w, w <| mw_draining := false |>)
       else mret tt);
  _ ← update (λ w, w <| mw_health := HEALTHY |>);
  s ← snapshot;
  now ← monotonic;
  _ ← modify (λ w, w <| si_registry ::= worker_register s now |>);
  mret s.
Definition heartbeat : M WorkerState :=
  w ← get_worker;
  if negb (bool_decide (mw_health w = HEALTHY)) then
    raise (EPy (RuntimeError "only a healthy registered worker can heartbeat"))
  else
    s ← snapshot;
    now ← monotonic;
    registry ← gets si_registry;
    registry ← lift_res (worker_heartbeat s now registry);
    _ ← modify (λ w, w <| si_registry := registry |>);
    mret s.

(** *** Loading models *)

Definition queued_for (h : heap) (queue : list loc) (model_id : string) : bool :=
  existsb (λ l, bool_decide (r_model_id (h !!! l) = model_id)) queue.
Definition last_used_or (m : gmap string float) (default_ : float) (model_id : string) : float :=
  default default_ (m !! model_id).
(** The order of [sorted(..., key=lambda item: (last_used, item))]. *)
Definition older (m : gmap string float) (a b : string) : bool :=
  negb (key_ltb (last_used_or m f_zero b, b) (last_used_or m f_zero a, a)).
(** The loop that picks models to evict; the result is [evictions] and [usable]. *)
Fixpoint pick_evictions (h : heap) (w : ManagedWorker) (required : Z) (candidates : list string)
  (evictions : list (string * ModelDefinition)) (usable : Z)
  : res (list (string * ModelDefinition) * Z) :=
  match candidates with
  | [] => Ok (evictions, usable)
  | model_id :: candidates =>
    if negb (cget (mw_active_requests_by_model w) model_id =? 0) || queued_for h (mw_queue w) model_id
    then pick_evictions h w required candidates evictions usable
    else
      match mw_model_definitions w !! model_id with
      | None => Err (KeyError model_id)
      | Some definition =>
        let evictions := evictions ++ [(model_id, definition)] in
        let usable := usable + m_estimated_memory_bytes definition in
        if required <=? usable then Ok (evictions, usable)
        else pick_evictions h w required candidates evictions usable
      end
  end.

(** What [load_model]'s first section decides. *)
Inductive LoadPlan :=
  | LoadHit
  | LoadWait (waiting_for_attempt : Z)
  | LoadStart (evictions : list (string * ModelDefinition)) (attempt : Z).

Definition load_hit (model_id : string) : M LoadPlan :=
  _ ← update (λ w, w <| mw_cache_hits ::= λ n, n + 1 |>);
  _ ← touch_now model_id; mret LoadHit.
Definition load_attempts_of (model_id : string) (w : ManagedWorker) : Z :=
  cget (mw_load_attempts w) model_id.
(** From [capacity = self.runtime.capacity()] to the end of the section. *)
Definition load_claim (model : ModelDefinition) : M LoadPlan :=
  let required := m_estimated_memory_bytes model in
  c ← runtime_call rt_capacity;
  world ← gets id;
  let w := si_worker world in
  evictions ←
    match cp_available_memory_bytes c with
    | None => mret []
    | Some available =>
      let usable := available - mw_reserved_model_memory_bytes w - mw_memory_safety_reserve_bytes w in
      picked ←
        (if usable <? required then
           picked ← lift_res (pick_evictions (si_heap world) w required
             (sorted_by (older (mw_model_last_used w)) (elements (mw_resident_models w))) [] usable);
           if snd picked <? required
           then raise (EPy (MemoryError ("insufficient worker memory for " +:+ m_model_id model)))
           else mret picked
         else mret ([], usable));
      _ ← update (λ w, w <| mw_resident_models ::= λ s, s ∖ list_to_set (fst <$> fst picked) |>
                         <| mw_model_last_used ::= λ m, foldr delete m (fst <$> fst picked) |>);
      mret (fst picked)
    end;
  _ ← update (λ w,
    w <| mw_cache_misses ::= λ n, n + 1 |> <| mw_cold_starts ::= λ n, n + 1 |>
      <| mw_load_attempts ::= cadd (m_model_id model) 1 |>
      <| mw_loading_models ::= λ s, {[m_model_id model]} ∪ s |>
      <| mw_reserved_model_memory_bytes ::= λ n, n + required |>);
  w ← get_worker;
  mret (LoadStart evictions (load_attempts_of (m_model_id model) w)).
Definition load_begin (model : ModelDefinition) : M LoadPlan :=
  w ← get_worker;
  if negb (bool_decide (mw_health w = HEALTHY)) || mw_draining w then
    raise (EPy (RuntimeError "worker is not accepting model loads"))
  else if bool_decide (m_model_id model ∈ mw_resident_models w) then load_hit (m_model_id model)
  else if bool_decide (m_model_id model ∈ mw_loading_models w) then
    _ ← update (λ w, w <| mw_coalesced_loads ::= λ n, n + 1 |>);
    mret (LoadWait (load_attempts_of (m_model_id model) w))
  else load_claim model.
(** A waiting call after [notify_all]: from the test of the [while] loop. *)
Definition load_resume (model : ModelDefinition) (waiting_for_attempt : Z) : M LoadPlan :=
  w ← get_worker;
  if bool_decide (m_model_id model ∈ mw_loading_models w) then mret (LoadWait waiting_for_attempt)
  else if bool_decide (m_model_id model ∈ mw_resident_models w) then load_hit (m_model_id model)
  else
    match mw_load_failures w !! m_model_id model with
    | Some (attempt, _) =>
      if attempt =? waiting_for_attempt
      then raise (EPy (RuntimeError ("coalesced model load failed: " +:+ m_model_id model)))
      else load_claim model
    | None => load_claim model
    end.
(** The unlocked part. *)
Definition load_run (model : ModelDefinition) (evictions : list (string * ModelDefinition)) : M unit :=
  _ ← for_each (λ e, runtime_call (rt_unload_model (fst e))) evictions;
  _ ← runtime_call (rt_load_model model);
  runtime_call (rt_warmup_model (m_model_id model)).
Definition load_commit (model : ModelDefinition) (evictions : list (string * ModelDefinition)) : M unit :=
  _ ← update (λ w, w <| mw_model_definitions ::= <[m_model_id model := model]> |>
                     <| mw_resident_models ::= λ s, {[m_model_id model]} ∪ s |>);
  _ ← touch_now (m_model_id model);
  update (λ w, w <| mw_model_evictions ::= λ n, n + Z.of_nat (length evictions) |>
                 <| mw_load_failures ::= delete (m_model_id model) |>).
(** The [except] clause, without its [raise]. *)
Definition load_abort (model : ModelDefinition) (evictions : list (string * ModelDefinition))
  (attempt : Z) (e : WorkerExc) : M unit :=
  _ ← update (λ w, w <| mw_model_load_failures ::= λ n, n + 1 |>
                     <| mw_load_failures ::= <[m_model_id model := (attempt, e)]> |>);
  for_each (λ p,
    runtime ← gets si_runtime;
    if rt_is_model_loaded (fst p) runtime then
      _ ← update (λ w, w <| mw_resident_models ::= λ s, {[fst p]} ∪ s |>
                         <| mw_model_definitions ::= <[fst p := snd p]> |>);
      touch_now (fst p)
    else mret tt) evictions.
(** The [finally] clause. *)
Definition load_end (model : ModelDefinition) (started : float) : M unit :=
  finished ← perf_counter;
  update (λ w, w <| mw_model_load_seconds_total ::= λ t, f_add t (f_sub finished started) |>
                 <| mw_loading_models ::= λ s, s ∖ {[m_model_id model]} |>
                 <| mw_reserved_model_memory_bytes ::= λ n, n - m_estimated_memory_bytes model |>).
(** Everything after the first section. *)
Definition load_finish (model : ModelDefinition) (evictions : list (string * ModelDefinition))
  (attempt : Z) : M unit :=
  started ← perf_counter;
  try_finally
    (try_except (_ ← load_run model evictions; load_commit model evictions)
       (λ e, _ ← load_abort model evictions attempt e; raise e))
    (load_end model started).
(** The call when no other thread intervenes. *)
Definition load_model (model : ModelDefinition) : M unit :=
  plan ← load_begin model;
  match plan with
  | LoadHit => mret tt
  | LoadWait _ => raise EBlocked
  | LoadStart evictions attempt => load_finish model evictions attempt
  end.

(** *** Unloading and eviction *)

Definition unload_begin (model_id : string) : M bool :=
  world ← gets id;
  let w := si_worker world in
  if queued_for (si_heap world) (mw_queue w) model_id then
    raise (EPy (RuntimeError "cannot unload a model with queued requests"))
  else if negb (bool_decide (model_id ∈ mw_resident_models w)) then mret false
  else
    _ ← update (λ w, w <| mw_resident_models ::= λ s, s ∖ {[model_id]} |>
                       <| mw_model_last_used ::= delete model_id |>);
    mret true.
Definition unload_finish (model_id : string) : M unit :=
  try_except (runtime_call (rt_unload_model model_id))
    (λ e,
      _ ← update (λ w, w <| mw_resident_models ::= λ s, {[model_id]} ∪ s |>);
      _ ← touch_now model_id; raise e).
Definition unload_model (model_id : string) : M unit :=
  go ← unload_begin model_id; if (go : bool) then unload_finish model_id else mret tt.
Definition warmup_model (model_id : string) : M unit :=
  w ← get_worker;
  if negb (bool_decide (model_id ∈ mw_resident_models w)) then
    raise (EPy (RuntimeError "model must be loaded before warmup"))
  else runtime_call (rt_warmup_model model_id).

(** The condition of [evict_idle_models]'s comprehension; the definition is looked up last. *)
Definition idle (h : heap) (w : ManagedWorker) (now : float) (model_id : string) : res bool :=
  if negb ((cget (mw_active_requests_by_model w) model_id =? 0)
           && negb (queued_for h (mw_queue w) model_id)) then Ok false
  else match mw_model_definitions w !! model_id with
       | None => Err (KeyError model_id)
       | Some definition =>
         Ok (f_leb (m_idle_eviction_seconds definition)
               (f_sub now (last_used_or (mw_model_last_used w) now model_id)))
       end.
Fixpoint eligible_models (h : heap) (w : ManagedWorker) (now : float) (models : list string)
  : res (list string) :=
  match models with
  | [] => Ok []
  | m :: models =>
    i ← idle h w now m; ms ← eligible_models h w now models; Ok (if i : bool then m :: ms else ms)
  end.
(** [self._model_last_used[item]] of each item, for the sort. *)
Fixpoint last_used_all (w : ManagedWorker) (models : list string) : res (list (string * float)) :=
  match models with
  | [] => Ok []
  | m :: models =>
    match mw_model_last_used w !! m with
    | None => Err (KeyError m)
    | Some t => rest ← last_used_all w models; Ok ((m, t) :: rest)
    end
  end.
(** The iteration order of a Python set is arbitrary; here it is that of [elements]. The times that
    the sort reads after the section are those of the section. *)
Definition evict_begin : M (list string) :=
  now ← monotonic;
  world ← gets id;
  let w := si_worker world in
  eligible ← lift_res (eligible_models (si_heap world) w now (elements (mw_resident_models w)));
  w ← get_worker;
  keyed ← lift_res (last_used_all w eligible);
  mret (fst <$> sorted_by (λ a b, negb (f_ltb (snd b) (snd a))) keyed).
Definition evict_end (evicted : list string) : M unit :=
  update (λ w, w <| mw_model_evictions ::= λ n, n + Z.of_nat (length evicted) |>).
Definition evict_idle_models : M (list string) :=
  models ← evict_begin;
  _ ← for_each unload_model models;
  _ ← evict_end models;
  mret models.
Definition model_cache_metrics (w : ManagedWorker) : ModelCacheMetrics :=
  mkCacheMetrics (mw_cache_hits w) (mw_cache_misses w) (mw_cold_starts w)
    (mw_model_load_failures w) (mw_model_evictions w) (mw_reserved_model_memory_bytes w)
    (mw_coalesced_loads w) (mw_model_load_seconds_total w).

(** *** Requests *)

Definition enqueue_request (l : loc) : M unit :=
  w ← get_worker;
  r ← get_request l;
  if negb (bool_decide (mw_health w = HEALTHY)) || mw_draining w then
    raise (EPy (RuntimeError "worker is not accepting requests"))
  else if negb (bool_decide (r_model_id r ∈ mw_resident_models w)) then
    raise (EPy (RuntimeError "request model is not resident"))
  else if mw_max_queue_depth w <=? Z.of_nat (length (mw_queue w)) then
    raise (EPy (OverflowError "worker queue is full"))
  else if mw_max_batch_tokens w <? estimated_tokens r then
    raise (EPy (OverflowError "request exceeds the worker batch token budget"))
  else if negb (bool_decide (r_status r = ASSIGNED)) then
    raise (EPy (ValueError "only assigned requests can enter a worker queue"))
  else
    _ ← transition_now l QUEUED;
    update (λ w, w <| mw_queue ::= λ q, q ++ [l] |>).
Definition cancel_request (request_id : string) : M bool :=
  world ← gets id;
  let w := si_worker world in
  match find (λ l, bool_decide (r_request_id (si_heap world !!! l) = request_id)) (mw_queue w) with
  | Some l =>
    _ ← update (λ w, w <| mw_queue ::= queue_remove (si_heap world) l |>);
    _ ← transition_now l CANCELLED; mret true
  | None =>
    match mw_active_requests w !! request_id with
    | None => mret false
    | Some l =>
      if r_terminal (si_heap world !!! l) then mret false
      else _ ← transition_now l CANCELLED; mret true
    end
  end.

(** *** [execute_batch] *)

Definition set_queue (q : list loc) : M unit := update (λ w, w <| mw_queue := q |>).
Definition expired_at (now : float) (r : RequestRecord) : bool := f_leb (r_deadline r) now.
(** The first loop; it ends before the first request that can run. *)
Fixpoint skip_dead (now : float) (queue : list loc) : M unit :=
  match queue with
  | [] => mret tt
  | l :: queue =>
    r ← get_request l;
    if r_terminal r || expired_at now r then
      _ ← set_queue queue;
      _ ← (if r_terminal r then mret tt else transition_at l TIMED_OUT now);
      skip_dead now queue
    else mret tt
  end.
Definition compatible (candidate first : RequestRecord) : bool :=
  bool_decide (r_model_id candidate = r_model_id first)
  && (r_max_new_tokens candidate =? r_max_new_tokens first)
  && f_eqb (r_temperature candidate) (r_temperature first)
  && Bool.eqb (r_stream candidate) (r_stream first).
Record Selection := mkSelection {
  sl_selected : list loc;
  sl_deferred : list loc;
  sl_batch_tokens : Z
}.
(** The second loop, over what is left of the queue. *)
Fixpoint select_more (now : float) (first : RequestRecord) (queue : list loc) (s : Selection)
  : M Selection :=
  w ← get_worker;
  match queue with
  | [] => mret s
  | l :: queue =>
    if negb (Z.of_nat (length (sl_selected s)) <? mw_max_batch_size w) then mret s
    else
      _ ← set_queue queue;
      r ← get_request l;
      if r_terminal r then select_more now first queue s
      else if expired_at now r then
        _ ← transition_at l TIMED_OUT now; select_more now first queue s
      else if compatible r first
              && (sl_batch_tokens s + estimated_tokens r <=? mw_max_batch_tokens w) then
        select_more now first queue
          (mkSelection (sl_selected s ++ [l]) (sl_deferred s)
             (sl_batch_tokens s + estimated_tokens r))
      else
        select_more now first queue
          (mkSelection (sl_selected s) (sl_deferred s ++ [l]) (sl_batch_tokens s))
  end.
Definition activate (now : float) (l : loc) : M unit :=
  _ ← transition_at l RUNNING now;
  r ← get_request l;
  update (λ w, w <| mw_active_requests_by_model ::= cadd (r_model_id r) 1 |>
                 <| mw_active_requests ::= <[r_request_id r := l]> |>).
(** The first locked section; [None]: there is nothing to run. *)
Definition execute_begin : M (option (list loc)) :=
  now ← monotonic;
  w ← get_worker;
  _ ← skip_dead now (mw_queue w);
  w ← get_worker;
  match mw_queue w with
  | [] => mret None
  | l :: queue =>
    _ ← set_queue queue;
    first ← get_request l;
    s ← select_more now first queue (mkSelection [l] [] (estimated_tokens first));
    _ ← update (λ w, w <| mw_queue ::= λ q, sl_deferred s ++ q |>);
    _ ← for_each (activate now) (sl_selected s);
    first ← get_request l;
    _ ← touch (r_model_id first) now;
    _ ← update (λ w, w <| mw_active_batch_count ::= λ n, n + 1 |>);
    mret (Some (sl_selected s))
  end.
(** The body of the [try] statement, which runs unlocked. *)
Definition execute_run (selected : list loc) : M (list RuntimeResult) :=
  h ← gets si_heap;
  match selected with
  | [] => mret []
  | l :: _ =>
    let first := h !!! l in
    if r_stream first then
      raise (EPy (RuntimeError "streaming requests require the streaming worker path"))
    else
      results ← runtime_call (rt_generate (r_model_id first) ((λ l, r_prompt (h !!! l)) <$> selected)
                                (r_max_new_tokens first) (r_temperature first));
      if negb (Nat.eqb (length results) (length selected))
      then raise (EPy (RuntimeError "runtime returned an unexpected result count"))
      else mret results
  end.
Definition fail_selected (selected : list loc) : M unit :=
  finished ← monotonic;
  for_each (λ l,
    r ← get_request l;
    if r_terminal r then mret tt else transition_at l FAILED finished) selected.
Definition deactivate (l : loc) : M unit :=
  r ← get_request l;
  update (λ w, w <| mw_active_requests_by_model ::= cadd (r_model_id r) (-1) |>
                 <| mw_active_requests ::= delete (r_request_id r) |>).
(** The [finally] clause. *)
Definition execute_end (selected : list loc) : M unit :=
  _ ← update (λ w, w <| mw_active_batch_count ::= λ n, n - 1 |>);
  for_each deactivate selected.
Definition complete_selected (elapsed : float) (selected : list loc) (results : list RuntimeResult)
  : M unit :=
  _ ← for_each (λ l,
    r ← get_request l;
    if r_terminal r then mret tt else transition_now l COMPLETED) selected;
  update (λ w, w <| mw_recent_tokens_per_second :=
    f_div (f_of_Z (zsum rr_output_tokens results)) elapsed |>).
Definition completed_results (h : heap) (selected : list loc) (results : list RuntimeResult)
  : list WorkerExecutionResult :=
  (λ p, mkExecution (r_request_id (h !!! fst p)) (snd p)) <$>
    filter (λ p, r_status (h !!! fst p) = COMPLETED) (zip selected results).
(** [max(time.perf_counter() - started, 1e-9)]. *)
Definition elapsed_since (started : float) : M float :=
  finished ← perf_counter;
  let elapsed := f_sub finished started in
  let least := f_ratio 1 (10 ^ 9) in
  mret (if f_ltb elapsed least then least else elapsed).
(** Everything after the first section. *)
Definition execute_finish (selected : list loc) : M (list WorkerExecutionResult) :=
  started ← perf_counter;
  results ← try_finally
    (try_except (execute_run selected) (λ e, _ ← fail_selected selected; raise e))
    (execute_end selected);
  elapsed ← elapsed_since started;
  _ ← complete_selected elapsed selected results;
  h ← gets si_heap;
  mret (completed_results h selected results).
Definition execute_batch : M (list WorkerExecutionResult) :=
  selected ← execute_begin;
  match selected with None => mret [] | Some selected => execute_finish selected end.

(** *** Drain and shutdown *)

Definition drain : M unit :=
  w ← get_worker;
  if bool_decide (mw_health w = STOPPED) then raise (EPy (RuntimeError "stopped worker cannot drain"))
  else update (λ w, w <| mw_draining := true |>).
Fixpoint fail_queue (queue : list loc) : M unit :=
  match queue with
  | [] => mret tt
  | l :: queue => _ ← set_queue queue; _ ← transition_now l FAILED; fail_queue queue
  end.
Definition shutdown_begin : M (list string) :=
  _ ← update (λ w, w <| mw_draining := true |>);
  w ← get_worker;
  _ ← fail_queue (mw_queue w);
  w ← get_worker;
  _ ← update (λ w, w <| mw_resident_models := ∅ |> <| mw_health := STOPPED |>);
  mret (elements (mw_resident_models w)).
Definition shutdown_finish (resident_models : list string) : M unit :=
  try_finally (for_each (λ m, runtime_call (rt_unload_model m)) resident_models)
    (modify (λ w, w <| si_registry ::= worker_unregister (mw_worker_id (si_worker w)) |>)).
Definition shutdown : M unit := models ← shutdown_begin; shutdown_finish models.
End worker.
