(* ===== verification/HuggingFaceRuntime.v ===== *)
(** [runtime/huggingface/runtime.py]: the runtime of a worker process over an [InferenceWorker], as an
    implementation of the protocol that the managed worker uses. *)
From S2P Require Import Prelude PyContainers PyFloat PyText Domain Effects TokenTypes Transformers InferenceWorker Worker.
From Stdlib Require String.
From stdpp Require Import pretty.

#[local] Open Scope string_scope.
#[local] Open Scope list_scope.
#[local] Open Scope Z_scope.

Section runtime.
Context `{Transformers}.

(** [hr_queries] numbers the queries of the CUDA driver. *)
Record HuggingFaceRuntime := mkHuggingFace {
  hr_model : ModelDefinition;
  hr_device_type : DeviceType;
  hr_cuda_device_index : Z;
  hr_worker : InferenceWorker _;
  hr_queries : nat
}.
#[export] Instance eta_HuggingFaceRuntime : Eta HuggingFaceRuntime := λ r,
  mkHuggingFace (hr_model r) (hr_device_type r) (hr_cuda_device_index r) (hr_worker r) (hr_queries r).
Definition HuggingFaceRuntime_init (model : ModelDefinition) (worker : option (InferenceWorker _))
  (device_type : DeviceType) (cuda_device_index : Z) : res HuggingFaceRuntime :=
  _ ← raise_if (negb (bool_decide (device_type ∈ [CPU; CUDA])))
        (ValueError "Hugging Face runtime requires a CPU or CUDA device");
  let device := if bool_decide (device_type = CPU) then "cpu" else "cuda:" +:+ pretty cuda_device_index in
  Ok (mkHuggingFace model device_type cuda_device_index
        (default (InferenceWorker_init (m_model_id model) (m_revision model) device "float32") worker) 0).

Variable perf : nat → float.
#[local] Abbreviation M := (Eff HuggingFaceRuntime PyErr).

Definition on_worker {A} (c : Eff (InferenceWorker _) PyErr A) : M A := λ r,
  let '(a, w) := c (hr_worker r) in (a, r <| hr_worker := w |>).
Definition require_model (model_id : string) : M unit :=
  model ← gets hr_model;
  if negb (bool_decide (model_id = m_model_id model))
  then raise (ValueError ("model is not registered: " +:+ model_id)) else mret tt.

Definition hf_load_model (model : ModelDefinition) : M unit :=
  own ← gets hr_model;
  if negb (bool_decide (m_model_id model = m_model_id own)) || negb (bool_decide (m_revision model = m_revision own))
  then raise (ValueError "runtime only loads its registered model and revision")
  else on_worker warmup.
Definition hf_unload_model (model_id : string) : M unit := _ ← require_model model_id; on_worker unload.
Definition hf_warmup_model (model_id : string) : M unit := _ ← require_model model_id; on_worker warmup.
Definition hf_is_model_loaded (model_id : string) : M bool :=
  _ ← require_model model_id; gets (λ r, is_ready (hr_worker r)).
Definition hf_count_prompt_tokens (model_id prompt : string) : M Z :=
  _ ← require_model model_id; on_worker (count_prompt_tokens prompt).
(** [RuntimeResult( **vars(result))]. *)
Definition runtime_result (r : GenerationResult) : RuntimeResult :=
  mkResult (gr_text r) (gr_input_tokens r) (gr_output_tokens r) (gr_tokenization_ms r) (gr_generation_ms r)
    (gr_decoding_ms r).
Definition hf_generate (model_id : string) (prompts : list string) (max_new_tokens : Z) (temperature : float)
  : M (list RuntimeResult) :=
  _ ← require_model model_id;
  results ← on_worker (generate_batch perf prompts max_new_tokens temperature);
  mret (runtime_result <$> results).
Definition cpu_capacity : RuntimeCapacity :=
  mkCapacity CPU "cpu" None None None None None None None None None None None.
Definition cuda_capacity (index : Z) (d : CudaDevice) : RuntimeCapacity :=
  mkCapacity CUDA (cu_name d) (Some (cu_total d)) (Some (cu_free d)) (Some (cu_allocated d)) (Some (cu_reserved d))
    (Some index) (fst <$> cu_properties d) (cu_driver d) (cu_runtime d) None (cu_properties d ≫= snd) None.
Definition hf_capacity : M RuntimeCapacity :=
  r ← gets id;
  if bool_decide (hr_device_type r = CPU) then mret cpu_capacity
  else if negb cuda_available then raise (RuntimeError "CUDA worker requested but CUDA is unavailable")
  else
    _ ← modify (λ r, r <| hr_queries ::= Datatypes.S |>);
    mret (cuda_capacity (hr_cuda_device_index r) (cuda_device (hr_queries r) (hr_cuda_device_index r))).

(** The worker asks only about models that it loaded here, for which [is_model_loaded] does not raise. *)
Definition HfRuntime : ModelRuntime HuggingFaceRuntime := {|
  rt_load_model := hf_load_model;
  rt_unload_model := hf_unload_model;
  rt_warmup_model := hf_warmup_model;
  rt_is_model_loaded model_id r := is_ready (hr_worker r);
  rt_generate := hf_generate;
  rt_capacity := hf_capacity
|}.

(** *** The workers of [apps/worker/service.py] over this runtime *)

(** [ManagedWorker.__init__] with its defaults; the capacity query of the CUDA worker makes the constructor
    fail without CUDA. *)
Definition CpuHuggingFaceWorker (worker_id : string) (model : ModelDefinition) : res (ManagedWorker * HuggingFaceRuntime) :=
  runtime ← HuggingFaceRuntime_init model None CPU 0;
  worker ← ManagedWorker_init worker_id 128 1 8 4096 0;
  Ok (worker, runtime).
Definition CudaHuggingFaceWorker (worker_id : string) (model : ModelDefinition) (device_index : Z)
  : res (ManagedWorker * HuggingFaceRuntime) :=
  runtime ← HuggingFaceRuntime_init model None CUDA device_index;
  match hf_capacity runtime with
  | (inl e, _) => Err e
  | (inr _, runtime) => worker ← ManagedWorker_init worker_id 128 1 8 4096 0; Ok (worker, runtime)
  end.
Definition create_huggingface_worker (worker_id : string) (model : ModelDefinition)
  : res (ManagedWorker * HuggingFaceRuntime) :=
  if cuda_available then CudaHuggingFaceWorker worker_id model 0 else CpuHuggingFaceWorker worker_id model.

(** ** Lemmas *)

(** The worker that is created runs on CUDA exactly when CUDA is available, and its worker loads the model of
    that device. *)
Lemma create_huggingface_worker_device worker_id model :
  worker_id ≠ "" →
  ∃ worker runtime, create_huggingface_worker worker_id model = Ok (worker, runtime) ∧
    hr_model runtime = model ∧ hr_device_type runtime = (if cuda_available then CUDA else CPU) ∧
    iw_device (hr_worker runtime) = (if cuda_available then "cuda:0" else "cpu") ∧ is_ready (hr_worker runtime) = false.
Proof.
  intros Hw%(bool_decide_eq_false_2 _). unfold create_huggingface_worker, CudaHuggingFaceWorker, CpuHuggingFaceWorker,
    HuggingFaceRuntime_init, ManagedWorker_init, str_empty. rewrite Hw.
  destruct cuda_available eqn:Ec; cbn.
  - unfold hf_capacity, mbind, M_bind, gets, modify, mret, M_ret. cbn. rewrite Ec. cbn. eexists _, _. by split_and!.
  - eexists _, _. by split_and!.
Qed.
Lemma require_model_Ok model_id r : m_model_id (hr_model r) = model_id → require_model model_id r = (inr tt, r).
Proof. intros <-. unfold require_model. rewrite (bind_eq _ _ r (hr_model r) r) by done. by rewrite bool_decide_eq_true_2. Qed.
(** A loaded model is reported as loaded, an unloaded one is not. *)
Lemma load_then_loaded m r r' : rt_load_model (ModelRuntime := HfRuntime) m r = (inr tt, r') →
  rt_is_model_loaded (ModelRuntime := HfRuntime) (m_model_id m) r' = true.
Proof.
  cbn. unfold hf_load_model. intros E. apply bind_inr_inv in E as (own & r1 & [= <- <-] & E). case_hyp E; [done|].
  unfold on_worker, warmup in E. destruct (ensure_loaded (hr_worker r)) as [a w] eqn:Ew. injection E as -> <-. cbn.
  unfold is_ready. by apply ensure_loaded_inv in Ew as [[-> [md ->]]|(_ & t & md & _ & _ & -> & _)].
Qed.
Lemma unload_then_unloaded id r r' : rt_unload_model (ModelRuntime := HfRuntime) id r = (inr tt, r') →
  rt_is_model_loaded (ModelRuntime := HfRuntime) id r' = false.
Proof. cbn. unfold hf_unload_model. intros E. apply bind_inr_inv in E as ([] & r1 & _ & E). by injection E as <-. Qed.
End runtime.
Arguments HuggingFaceRuntime {_} _.
