(* ===== verification/WorkerStream.v ===== *)
(** [inference/worker.py], [stream]: the model generates in a thread of its own and hands its tokens to a streamer of
    transformers, whose queue the generator reads; a chunk is a text of the queue with the tokens counted so far.
    The two threads interleave. What [generate] hands to the streamer, and the error it ends with, are those of the
    run. *)
From S2P Require Import Prelude PyContainers PyFloat Domain Effects TokenTypes Transformers InferenceWorker Worker HuggingFaceRuntime.
From Stdlib Require String.

#[local] Open Scope string_scope.
#[local] Open Scope list_scope.
#[local] Open Scope Z_scope.
#[local] Set Default Proof Using "Type".
#[local] Set Proof Using Clear Unused.

(** ** What the generator does before it starts the thread *)

Section begin.
Context `{Transformers}.
(** The arguments of [generate]; [do_sample] is whether there is a temperature. *)
Record GenerateArguments := mkArguments {
  ga_input_ids : matrix;
  ga_attention_mask : matrix;
  ga_max_new_tokens : Z;
  ga_temperature : option float;
  ga_pad_token_id : option Z
}.
(** The tokenizer makes a batch of one row of a single prompt. *)
Definition stream_begin (prompt : string) (max_new_tokens : Z) (temperature : float)
  : Eff (InferenceWorker _) PyErr GenerateArguments :=
  _ ← ensure_loaded;
  tokenizer ← the_tokenizer "__call__";
  n ← gets iw_batches;
  _ ← modify (λ w, w <| iw_batches ::= Datatypes.S |>);
  encoded ← lift (encode_batch tokenizer [prompt] n);
  mret (mkArguments encoded.1 encoded.2 max_new_tokens
          (if f_ltb f_zero temperature then Some temperature else None) (pad_token_id tokenizer)).
(** [HuggingFaceRuntime.stream] up to the same point. *)
Definition hf_stream_begin (model_id prompt : string) (max_new_tokens : Z) (temperature : float)
  : Eff (HuggingFaceRuntime _) PyErr GenerateArguments :=
  _ ← require_model model_id; HuggingFaceRuntime.on_worker (stream_begin prompt max_new_tokens temperature).
End begin.

(** ** The thread and the reader *)

(** [TextStreamer] of transformers: each [put] finalises one text (maybe an empty one), [end] the last one; both
    decode tokens, and may raise. *)
Class TextStreamer := {
  streamer : Type;
  streamer_put : list Z → streamer → res (string * streamer);
  streamer_end : streamer → res string
}.

Record StreamChunk := mkStreamChunk { sk_text : string; sk_output_tokens : Z }.

(** Where the thread is: before it hands over the next value, or ends the streamer when there is none; in [put], after
    the count; in the handler of [generate]'s exception; or over. *)
Inductive Producer := PPut (values : list (list Z)) | PCounted (value : list Z) (values : list (list Z)) | PHandler | PDead.
(** The generator: in its loop, in [thread.join()] after it, or over. [closing]: it was closed at a [yield]. *)
Inductive Consumer := CReading | CJoining (closing : bool) | CFinished | CClosed | CRaised (e : PyErr).

Section stream.
Context `{TextStreamer}.
(** The values that [generate] hands over after the prompt, and the exception it then raises, if any. *)
Variable values : list (list Z).
Variable failure : option PyErr.

(** [ws_next_prompt]: [next_tokens_are_prompt]. The items of the queue are texts, and [None] is the stop signal. *)
Record WorkerStream := mkStream {
  ws_streamer : streamer;
  ws_next_prompt : bool;
  ws_generated_tokens : Z;
  ws_queue : list (option string);
  ws_producer : Producer;
  ws_failures : list PyErr;
  ws_chunks : list StreamChunk;
  ws_consumer : Consumer
}.
#[export] Instance eta_WorkerStream : Eta WorkerStream := λ s,
  mkStream (ws_streamer s) (ws_next_prompt s) (ws_generated_tokens s) (ws_queue s) (ws_producer s) (ws_failures s)
    (ws_chunks s) (ws_consumer s).
Definition WorkerStream_init (st : streamer) (prompt : list Z) : WorkerStream :=
  mkStream st true 0 [] (PPut (prompt :: values)) [] [] CReading.

(** The exception [e] leaves [model.generate]. *)
Definition generate_failed (e : PyErr) (s : WorkerStream) : WorkerStream :=
  s <| ws_failures ::= λ l, l ++ [e] |> <| ws_producer := PHandler |>.
(** [streamer.end()]: the last text and the stop signal. *)
Definition end_stream (text : string) (s : WorkerStream) : WorkerStream :=
  s <| ws_queue ::= λ q, q ++ [Some text; None] |> <| ws_producer := PDead |>.

Definition produce (s : WorkerStream) : option WorkerStream :=
  match ws_producer s with
  | PPut (v :: vs) =>
    (* the prompt is skipped, and is not counted *)
    if ws_next_prompt s then Some (s <| ws_next_prompt := false |> <| ws_producer := PPut vs |>)
    else Some (s <| ws_generated_tokens ::= λ n, n + Z.of_nat (length v) |> <| ws_producer := PCounted v vs |>)
  | PCounted v vs =>
    match streamer_put v (ws_streamer s) with
    | Ok (text, st) =>
      Some (s <| ws_streamer := st |> <| ws_queue ::= λ q, q ++ [Some text] |> <| ws_producer := PPut vs |>)
    | Err e => Some (generate_failed e s)
    end
  | PPut [] =>
    match failure with
    | Some e => Some (generate_failed e s)
    | None =>
      match streamer_end (ws_streamer s) with
      | Ok text => Some (end_stream text s)
      | Err e => Some (generate_failed e s)
      end
    end
  | PHandler =>
    match streamer_end (ws_streamer s) with
    | Ok text => Some (end_stream text s)
    | Err _ => Some (s <| ws_producer := PDead |>)
    end
  | PDead => None
  end.
Definition consume (s : WorkerStream) : option WorkerStream :=
  match ws_consumer s, ws_queue s with
  | CReading, Some text :: q =>
    Some (s <| ws_queue := q |> <| ws_chunks ::= λ l, l ++ [mkStreamChunk text (ws_generated_tokens s)] |>)
  | CReading, None :: q => Some (s <| ws_queue := q |> <| ws_consumer := CJoining false |>)
  | CReading, [] => None
  | CJoining closing, _ =>
    match ws_producer s with
    | PDead =>
      Some (s <| ws_consumer :=
        if closing then CClosed
        else match ws_failures s with [] => CFinished | _ => CRaised (RuntimeError "streaming model generation failed") end |>)
    | _ => None
    end
  | _, _ => None
  end.
(** A step of either thread, or the generator is closed at the [yield] of a chunk. *)
Inductive stream_step : WorkerStream → WorkerStream → Prop :=
  | step_produce s s' : produce s = Some s' → stream_step s s'
  | step_consume s s' : consume s = Some s' → stream_step s s'
  | step_close s : ws_consumer s = CReading → ws_chunks s ≠ [] → stream_step s (s <| ws_consumer := CJoining true |>).

(** [HuggingFaceRuntime.stream]: each chunk in the runtime's own type. *)
Definition hf_stream (s : WorkerStream) : list (string * Z) := (λ c, (sk_text c, sk_output_tokens c)) <$> ws_chunks s.

(** ** What the streamer makes of the values *)

(** The texts of the values in order, and the streamer after them; [None]: one of them raised. *)
Fixpoint put_all (vs : list (list Z)) (st : streamer) : option (list string * streamer) :=
  match vs with
  | [] => Some ([], st)
  | v :: vs =>
    match streamer_put v st with
    | Ok (text, st) => '(texts, st) ← put_all vs st; Some (text :: texts, st)
    | Err _ => None
    end
  end.
Definition tokens_in (vs : list (list Z)) : Z := zsum (λ v, Z.of_nat (length v)) vs.

(** What the generator has taken from the queue and what is still in it. *)
Definition delivered (s : WorkerStream) : list (option string) :=
  (Some ∘ sk_text <$> ws_chunks s) ++
  (match ws_consumer s with CJoining false | CFinished | CRaised _ => [None] | _ => [] end) ++ ws_queue s.
Definition counts (s : WorkerStream) : list Z := sk_output_tokens <$> ws_chunks s.
(** Each count is between its predecessor's and the current one. *)
Fixpoint rising (from : Z) (l : list Z) (to : Z) : Prop :=
  match l with [] => from <= to | n :: l => from <= n ∧ rising n l to end.

(** The count [n] includes the tokens of the [i]-th value and of those before it. *)
Definition covers (i : nat) (n : Z) : Prop := tokens_in (take (Datatypes.S i) values) <= n.

Section invariant.
Variable st0 : streamer.
(** The values handed over so far gave [texts]. *)
Definition progress_of (done : list (list Z)) (s : WorkerStream) : Prop :=
  ∃ texts, put_all done st0 = Some (texts, ws_streamer s) ∧
    match ws_producer s with
    | PPut vs => ws_failures s = [] ∧ delivered s = Some <$> texts ∧ ws_generated_tokens s = tokens_in done ∧
                 if ws_next_prompt s then done = [] ∧ ∃ prompt, vs = prompt :: values else values = done ++ vs
    | PCounted v vs => ws_next_prompt s = false ∧ ws_failures s = [] ∧ delivered s = Some <$> texts ∧
                 ws_generated_tokens s = tokens_in (done ++ [v]) ∧ values = done ++ v :: vs
    | PHandler => ws_failures s ≠ [] ∧ delivered s = Some <$> texts ∧ covers (length done) (ws_generated_tokens s)
    | PDead =>
      (∃ text, streamer_end (ws_streamer s) = Ok text ∧ delivered s = (Some <$> texts) ++ [Some text; None] ∧
         covers (length done) (ws_generated_tokens s) ∧
         (ws_failures s = [] → failure = None ∧ done = values ∧ ws_generated_tokens s = tokens_in values)) ∨
      (ws_failures s ≠ [] ∧ (∃ e, streamer_end (ws_streamer s) = Err e) ∧ delivered s = Some <$> texts ∧
       covers (length done) (ws_generated_tokens s))
    end.
Record stream_inv (s : WorkerStream) : Prop := {
  si_progress : ∃ done rest, values = done ++ rest ∧ progress_of done s;
  si_counts : rising 0 (counts s) (ws_generated_tokens s);
  si_covers : ∀ i n, counts s !! i = Some n → covers i n;
  si_over : match ws_consumer s with
            | CFinished => ws_producer s = PDead ∧ ws_failures s = []
            | CRaised _ => ws_producer s = PDead ∧ ws_failures s ≠ []
            | CClosed => ws_producer s = PDead
            | _ => True
            end
}.

Lemma rising_snoc from l to n : rising from l to → to <= n → rising from (l ++ [to]) n.
Proof.
  revert from. induction l as [|x l IH]; intros from; cbn; [lia|]. intros [? ?] ?. split; [done|auto].
Qed.
Lemma rising_weaken from l to n : rising from l to → to <= n → rising from l n.
Proof. revert from. induction l as [|x l IH]; intros from; cbn; [lia|]. intros [? ?] ?. split; [done|auto]. Qed.
Lemma put_all_snoc vs v st texts st' text st'' :
  put_all vs st = Some (texts, st') → streamer_put v st' = Ok (text, st'') →
  put_all (vs ++ [v]) st = Some (texts ++ [text], st'').
Proof.
  revert st texts. induction vs as [|x vs IH]; intros st texts; cbn.
  - intros [= <- <-] ->. done.
  - destruct (streamer_put x st) as [[tx sx]|]; [|done]. intros ([ts s1] & E & [= <- <-])%bind_Some Hp.
    by rewrite (IH _ _ E Hp).
Qed.
Lemma tokens_in_app a b : tokens_in (a ++ b) = tokens_in a + tokens_in b.
Proof. apply zsum_app. Qed.
Lemma tokens_in_take vs i j : (i <= j)%nat → tokens_in (take i vs) <= tokens_in (take j vs).
Proof.
  intros Hij. rewrite <- (take_drop i (take j vs)), tokens_in_app, take_take, Nat.min_l by done.
  assert (0 <= tokens_in (drop i (take j vs))); [|lia]. apply zsum_nonneg. intros v _. lia.
Qed.
Lemma covers_le i j n m : covers j n → (i <= j)%nat → n <= m → covers i m.
Proof. unfold covers. intros H1 Hij Hn. pose proof (tokens_in_take values (Datatypes.S i) (Datatypes.S j) ltac:(lia)). lia. Qed.
Lemma covers_done done_ rest i n :
  values = done_ ++ rest → (i < length done_)%nat → tokens_in done_ <= n → covers i n.
Proof.
  intros Hv Hi Hn. unfold covers. rewrite Hv, take_app_le by lia.
  pose proof (tokens_in_take done_ (Datatypes.S i) (length done_) ltac:(lia)) as Ht. rewrite firstn_all in Ht. lia.
Qed.
Lemma covers_all n : tokens_in values <= n → covers (length values) n.
Proof. intros Hn. unfold covers. by rewrite take_ge by lia. Qed.
Lemma covers_next done_ v rest : values = done_ ++ v :: rest → covers (length done_) (tokens_in (done_ ++ [v])).
Proof.
  unfold covers. intros Hv. rewrite Hv, take_app_ge by lia. replace (_ - _)%nat with 1%nat by lia. cbn. rewrite take_0. done.
Qed.
Lemma put_all_length vs st texts st' : put_all vs st = Some (texts, st') → length texts = length vs.
Proof.
  revert st texts. induction vs as [|v vs IH]; intros st texts; cbn; [by intros [= <- _]|].
  destruct (streamer_put v st) as [[tx sx]|]; [|done]. intros ([ts s1] & E & [= <- <-])%bind_Some. cbn. f_equal. eauto.
Qed.
Lemma stream_init_inv prompt : stream_inv (WorkerStream_init st0 prompt).
Proof.
  split; [|done|done|done]. exists [], values. split; [done|]. exists []. split; [done|]. cbn. split_and!; try done.
  by exists prompt.
Qed.
(** What a step of the producer leaves of the generator. *)
Lemma produce_frame s s' :
  produce s = Some s' →
  ws_chunks s' = ws_chunks s ∧ ws_consumer s' = ws_consumer s ∧ ws_generated_tokens s <= ws_generated_tokens s' ∧
  ws_producer s ≠ PDead.
Proof.
  unfold produce. intros E. repeat case_match; simplify_eq; cbn; repeat split; try done; lia.
Qed.
Lemma delivered_push (s s' : WorkerStream) l :
  ws_chunks s' = ws_chunks s → ws_consumer s' = ws_consumer s → ws_queue s' = ws_queue s ++ l →
  delivered s' = delivered s ++ l.
Proof. intros E1 E2 E3. unfold delivered. by rewrite E1, E2, E3, !app_assoc. Qed.
Lemma produce_progress s s' done_ rest :
  values = done_ ++ rest → progress_of done_ s → produce s = Some s' →
  ∃ done' rest', values = done' ++ rest' ∧ progress_of done' s'.
Proof.
  intros Hv (texts & Ht & Hp) E. pose proof (produce_frame _ _ E) as (Ec & Eu & _ & _).
  unfold produce in E. destruct (ws_producer s) as [[|v vs]|v vs| |] eqn:Ep; [| | | |done].
  - destruct Hp as (Hf & Hd & Hn & Hz). destruct (ws_next_prompt s); [by destruct Hz as [_ [? ?]]|].
    rewrite app_nil_r in Hz. rewrite <- Hz in Hn.
    assert (covers (length done_) (ws_generated_tokens s)) as Hcov by (rewrite <- Hz; apply covers_all; lia).
    destruct failure as [e|] eqn:Efail.
    + injection E as <-. exists done_, rest. split; [done|]. exists texts. split; [done|]. cbn -[delivered].
      by split_and!; [destruct (ws_failures s)| |].
    + destruct (streamer_end (ws_streamer s)) as [text|e] eqn:Ee; injection E as <-; exists done_, rest; (split; [done|]);
        exists texts; (split; [done|]); cbn -[delivered].
      * left. exists text. split; [done|]. rewrite (delivered_push s _ [Some text; None]) by done. by rewrite Hd.
      * by split_and!; [destruct (ws_failures s)| |].
  - destruct Hp as (Hf & Hd & Hn & Hz). destruct (ws_next_prompt s) eqn:En; injection E as <-.
    + destruct Hz as (-> & prompt & [= -> ->]). exists [], values. split; [done|]. exists texts. split; [done|]. done.
    + exists done_, rest. split; [done|]. exists texts. split; [done|]. cbn -[delivered].
      split_and!; [done|done|done| |by destruct Hz]. rewrite tokens_in_app, Hn. unfold tokens_in. cbn -[delivered]. lia.
  - destruct Hp as (Hq & Hf & Hd & Hn & Hz). destruct (streamer_put v (ws_streamer s)) as [[text st]|e] eqn:Ee; injection E as <-.
    + exists (done_ ++ [v]), vs. split; [by rewrite <- app_assoc|]. exists (texts ++ [text]).
      split; [by eapply put_all_snoc|]. cbn -[delivered]. rewrite Hq, (delivered_push s _ [Some text]), Hd, fmap_app by done.
      split_and!; try done. by rewrite <- app_assoc.
    + exists done_, rest. split; [done|]. exists texts. split; [done|]. cbn -[delivered].
      split_and!; [by destruct (ws_failures s)|done|]. rewrite Hn. by eapply covers_next.
  - destruct Hp as (Hf & Hd & Hcov). destruct (streamer_end (ws_streamer s)) as [text|e] eqn:Ee; injection E as <-;
      exists done_, rest; (split; [done|]); exists texts; (split; [done|]); cbn -[delivered].
    + left. exists text. split; [done|]. rewrite (delivered_push s _ [Some text; None]) by done. by rewrite Hd.
    + right. split_and!; [done|by exists e|done|done].
Qed.
(** A step of the generator leaves what was delivered, and the producer. *)
Lemma consume_frame s s' :
  consume s = Some s' ∨ (ws_consumer s = CReading ∧ s' = s <| ws_consumer := CJoining true |>) →
  delivered s' = delivered s ∧ ws_streamer s' = ws_streamer s ∧ ws_producer s' = ws_producer s ∧
  ws_failures s' = ws_failures s ∧ ws_generated_tokens s' = ws_generated_tokens s ∧ ws_next_prompt s' = ws_next_prompt s.
Proof.
  intros [E|[E ->]].
  - unfold consume in E. repeat case_match; simplify_eq; unfold delivered; cbn;
      repeat match goal with H : ws_consumer s = _ |- _ => rewrite H | H : ws_queue s = _ |- _ => rewrite H end;
      cbn; rewrite ?fmap_app, <- ?app_assoc; done.
  - unfold delivered. cbn. by rewrite E.
Qed.
Lemma progress_frame s s' done_ :
  delivered s' = delivered s ∧ ws_streamer s' = ws_streamer s ∧ ws_producer s' = ws_producer s ∧
  ws_failures s' = ws_failures s ∧ ws_generated_tokens s' = ws_generated_tokens s ∧ ws_next_prompt s' = ws_next_prompt s →
  progress_of done_ s → progress_of done_ s'.
Proof.
  intros (E1 & E2 & E3 & E4 & E5 & E6) (texts & Ht & Hp). exists texts. rewrite E2. split; [done|].
  rewrite E3, E1, E4, E5, E6. destruct (ws_producer s); done.
Qed.
(** The text that the generator takes next is covered by the count. *)
Lemma next_covered s text q done_ rest :
  values = done_ ++ rest → progress_of done_ s → ws_consumer s = CReading → ws_queue s = Some text :: q →
  covers (length (ws_chunks s)) (ws_generated_tokens s).
Proof.
  intros Hv (texts & Ht & Hp) Eu Eq. apply put_all_length in Ht.
  assert (∀ l, delivered s = l → (length (ws_chunks s) < length l)%nat) as Hlen.
  { intros l <-. unfold delivered. rewrite Eu, Eq. rewrite length_app, length_fmap. cbn. lia. }
  assert (delivered s = Some <$> texts → (length (ws_chunks s) < length done_)%nat) as Hlt.
  { intros Hd%Hlen. rewrite length_fmap in Hd. lia. }
  destruct (ws_producer s) as [vs|v vs| |].
  - destruct Hp as (_ & Hd%Hlt & Hn & _). eapply covers_done; [done|done|lia].
  - destruct Hp as (_ & _ & Hd%Hlt & Hn & Hz). eapply (covers_le _ (length done_)); [by eapply covers_next|lia|lia].
  - destruct Hp as (_ & Hd%Hlt & Hcov). eapply covers_le; [done|lia|lia].
  - destruct Hp as [(t & _ & Hd' & Hcov & _)|(_ & _ & Hd%Hlt & Hcov)]; [|eapply covers_le; [done|lia|lia]].
    pose proof (Hlen _ Hd') as Hd.
    rewrite length_app, length_fmap in Hd. cbn in Hd. eapply covers_le; [done| |lia].
    destruct (decide (length (ws_chunks s) = Datatypes.S (length texts))) as [Hx|]; [exfalso|lia].
    assert (delivered s !! length (ws_chunks s) = Some (Some text)) as Hl.
    { unfold delivered. rewrite Eu, Eq, lookup_app_r, length_fmap, Nat.sub_diag; [done|]. by rewrite length_fmap. }
    rewrite Hd', Hx, lookup_app_r, length_fmap in Hl by (rewrite length_fmap; lia).
    by replace (Datatypes.S (length texts) - length texts)%nat with 1%nat in Hl by lia.
Qed.
Lemma stream_step_inv s s' : stream_step s s' → stream_inv s → stream_inv s'.
Proof.
  intros Hs [(done_ & rest & Hv & Hp) Hc Hcov Ho]. destruct Hs as [s s' E|s s' E|s E Hne].
  - pose proof (produce_frame _ _ E) as (Ec & Eu & Hn & Hd). split; unfold counts in *; rewrite ?Ec, ?Eu; [| |done|].
    + by eapply produce_progress.
    + by eapply rising_weaken.
    + by destruct (ws_consumer s); destruct_and?.
  - pose proof (consume_frame s s' (or_introl E)) as Hf. pose proof Hf as (_ & _ & _ & _ & Hn & _).
    pose proof (progress_frame _ _ done_ Hf Hp) as Hp'. clear Hf. unfold consume in E. destruct (ws_consumer s) as [|closing| | |e] eqn:Eu; [| |done..].
    + destruct (ws_queue s) as [|[text|] q] eqn:Eq; [done| |].
      * pose proof (next_covered _ _ _ _ _ Hv Hp Eu Eq) as Hnext. injection E as <-.
        split; unfold counts in *; cbn; rewrite ?Eu, ?fmap_app; [|by apply rising_snoc| |done].
        { by exists done_, rest. }
        intros i n [Hi|[Hi Hs]]%lookup_app_Some; [by apply Hcov|]. rewrite length_fmap in Hi, Hs.
        apply list_lookup_singleton_Some in Hs as [Hi' <-]. by replace i with (length (ws_chunks s)) by lia.
      * injection E as <-. split; try done. by exists done_, rest.
    + destruct (ws_producer s) eqn:Ep; try done. injection E as <-. split; try done.
      * by exists done_, rest.
      * destruct closing; cbn; [done|]. by destruct (ws_failures s); cbn; rewrite Ep.
  - pose proof (consume_frame s _ (or_intror (conj E eq_refl))) as Hf. split; [|done..].
    exists done_, rest. split; [done|]. by eapply progress_frame.
Qed.
Lemma stream_steps_inv s s' : rtc stream_step s s' → stream_inv s → stream_inv s'.
Proof. induction 1 as [|s1 s2 s3 Hs _ IH]; [done|]. intros Hi. by eapply IH, stream_step_inv. Qed.

(** The texts of the generator, in a run that it read to the end. *)
Lemma texts_inj (a b : list string) q : (Some <$> a) ++ None :: q = (Some <$> b) ++ [None] → a = b ∧ q = [].
Proof.
  revert b. induction a as [|x a IH]; intros [|y b]; cbn; [by intros [= ->]|done|done|].
  intros [= -> H]. by destruct (IH b H) as [-> ->].
Qed.
Lemma texts_prefix (a b : list string) q :
  (Some <$> a) ++ q = (Some <$> b) ++ [None] ∨ (Some <$> a) ++ q = Some <$> b → a `prefix_of` b.
Proof.
  revert b. induction a as [|x a IH]; intros [|y b]; cbn; intros [Hq|Hq]; try done; try apply prefix_nil.
  - injection Hq as -> Hq. apply prefix_cons, IH. by left.
  - injection Hq as -> Hq. apply prefix_cons, IH. by right.
Qed.
End invariant.

(** ** A streamed answer *)

Lemma rising_last from l to n : rising from l to → last l = Some n → n <= to.
Proof.
  revert from. induction l as [|x l IH]; intros from; [done|]. cbn [rising]. intros [_ Hr] Hl.
  destruct l as [|y l]; [injection Hl as ->; exact Hr|]. by eapply IH.
Qed.
(** C11: Whatever the interleaving of the model's thread with the reader: the texts of the chunks are those of the
    streamer, in order, from the first; the counts never fall, and the count of a chunk includes the tokens of its
    text. A stream that ends normally gave all the texts, its last count is the number of tokens, and the model
    did not fail; a failure of the model is raised at the end, never lost. *)
Theorem worker_stream_faithful st0 prompt s :
  rtc stream_step (WorkerStream_init st0 prompt) s →
  (∃ done rest texts st tail, values = done ++ rest ∧ put_all done st0 = Some (texts, st) ∧
     (tail = [] ∨ ∃ text, streamer_end st = Ok text ∧ tail = [text]) ∧
     (sk_text <$> ws_chunks s) `prefix_of` texts ++ tail) ∧
  rising 0 (counts s) (ws_generated_tokens s) ∧
  (∀ i n, counts s !! i = Some n → tokens_in (take (Datatypes.S i) values) <= n) ∧
  (ws_consumer s = CFinished → failure = None ∧ last (counts s) = Some (tokens_in values) ∧
     ∃ texts st text, put_all values st0 = Some (texts, st) ∧ streamer_end st = Ok text ∧
       sk_text <$> ws_chunks s = texts ++ [text]) ∧
  (∀ e, ws_consumer s = CRaised e → ws_failures s ≠ []).
Proof.
  intros Hr. destruct (stream_steps_inv st0 _ _ Hr (stream_init_inv st0 prompt)) as [(done_ & rest & Hv & Hp) Hc Hcov Ho].
  destruct Hp as (texts & Ht & Hp).
  assert (∃ tail, (tail = [] ∨ ∃ text, streamer_end (ws_streamer s) = Ok text ∧ tail = [text]) ∧
    (delivered s = (Some <$> texts ++ tail) ++ [None] ∨ delivered s = Some <$> texts ++ tail)) as (tail & Htail & Hd).
  { destruct (ws_producer s).
    - exists []. rewrite app_nil_r. split; [by left|]. right. by destruct Hp as (_ & ? & _).
    - exists []. rewrite app_nil_r. split; [by left|]. right. by destruct Hp as (_ & _ & ? & _).
    - exists []. rewrite app_nil_r. split; [by left|]. right. by destruct Hp as (_ & ? & _).
    - destruct Hp as [(text & Ee & Hd & _)|(_ & _ & Hd & _)].
      + exists [text]. split; [right; by exists text|]. left. by rewrite Hd, fmap_app, <- app_assoc.
      + exists []. rewrite app_nil_r. split; [by left|]. by right. }
  split_and!; [|done|done| |].
  - exists done_, rest, texts, (ws_streamer s), tail. split_and!; try done.
    unfold delivered in Hd. rewrite list_fmap_compose in Hd. by eapply texts_prefix.
  - intros Eu. rewrite Eu in Ho. destruct Ho as [Ep Ef]. rewrite Ep in Hp.
    destruct Hp as [(text & Ee & Hd' & _ & Hend)|(Hf & _)]; [|done].
    destruct (Hend Ef) as (Hfail & -> & Hn). split; [done|].
    unfold delivered in Hd'. rewrite Eu, list_fmap_compose in Hd'. cbn in Hd'.
    change (Some <$> texts) with (Some <$> texts) in Hd'.
    replace ((Some <$> texts) ++ [Some text; None]) with ((Some <$> texts ++ [text]) ++ [None]) in Hd'
      by by rewrite fmap_app, <- app_assoc.
    apply texts_inj in Hd' as [Hx _]. split; [|by exists texts, (ws_streamer s), text].
    destruct (last (counts s)) as [n|] eqn:El.
    + f_equal. apply Z.le_antisymm; [rewrite <- Hn; by eapply rising_last|].
      rewrite last_lookup in El. specialize (Hcov _ _ El). unfold covers in Hcov.
      assert (length (counts s) = Datatypes.S (length values)) as Hlen.
      { unfold counts. rewrite length_fmap, <- (length_fmap sk_text), Hx, length_app, (put_all_length _ _ _ _ Ht). cbn. lia. }
      rewrite Hlen, take_ge in Hcov by (cbn; lia). done.
    + apply last_None in El. unfold counts in El. apply fmap_nil_inv in El. rewrite El in Hx. by destruct texts.
  - intros e Eu. rewrite Eu in Ho. by destruct Ho.
Qed.

(** ** It ends *)

(** How many steps can still come. *)
Definition producer_left (p : Producer) : nat :=
  match p with PPut vs => 3 * length vs + 5 | PCounted _ vs => 3 * length vs + 7 | PHandler => 4 | PDead => 0 end.
Definition consumer_left (c : Consumer) : nat := match c with CReading => 2 | CJoining _ => 1 | _ => 0 end.
Definition steps_left (s : WorkerStream) : nat :=
  producer_left (ws_producer s) + length (ws_queue s) + consumer_left (ws_consumer s).
Lemma step_decreases s s' : stream_step s s' → (steps_left s' < steps_left s)%nat.
Proof.
  unfold steps_left. intros [s1 s1' E|s1 s1' E|s1 E _]; [| |cbn; rewrite E; cbn; lia].
  - unfold produce in E. repeat case_match; simplify_eq; cbn; rewrite ?length_app; cbn; lia.
  - unfold consume in E. destruct (ws_consumer s1) as [|closing| | |] eqn:Eu; [| |done..].
    + destruct (ws_queue s1) as [|[]] eqn:Eq; simplify_eq; cbn; rewrite ?Eu; cbn; lia.
    + destruct (ws_producer s1) eqn:Ep; simplify_eq. cbn. rewrite Ep. destruct closing, (ws_failures s1); cbn; lia.
Qed.
Lemma run_bounded n s s' : nsteps stream_step n s s' → (n + steps_left s' <= steps_left s)%nat.
Proof. induction 1 as [|n s1 s2 s3 Hs%step_decreases _ IH]; lia. Qed.
Definition over (c : Consumer) : bool := match c with CFinished | CClosed | CRaised _ => true | _ => false end.
(** A reader waits for the stop signal only while the producer can still give it. *)
Lemma stuck_over st0 prompt s :
  (∀ st, ∃ text, streamer_end st = Ok text) →
  rtc stream_step (WorkerStream_init st0 prompt) s → (∀ s', ¬ stream_step s s') → over (ws_consumer s) = true.
Proof.
  intros Hend Hr Hstuck.
  destruct (stream_steps_inv st0 _ _ Hr (stream_init_inv st0 prompt)) as [(done_ & rest & Hv & Hp) _ _ Ho].
  destruct (produce s) as [s'|] eqn:E; [by destruct (Hstuck s'); apply step_produce|].
  destruct (consume s) as [s'|] eqn:E'; [by destruct (Hstuck s'); apply step_consume|].
  assert (ws_producer s = PDead) as Ep.
  { unfold produce in E. by repeat case_match. }
  destruct Hp as (texts & _ & Hp). rewrite Ep in Hp.
  destruct Hp as [(text & _ & Hd & _)|(_ & (e & He) & _)]; [|by destruct (Hend (ws_streamer s)) as [? Hx]; rewrite Hx in He].
  unfold consume in E'. destruct (ws_consumer s) as [|closing| | |] eqn:Eu; [| |done..].
  - destruct (ws_queue s) as [|[]] eqn:Eq; try done. exfalso. unfold delivered in Hd. rewrite Eu, Eq, !app_nil_r in Hd.
    assert (last (Some ∘ sk_text <$> ws_chunks s) = Some None) as Hl by (rewrite Hd, last_app; done).
    rewrite fmap_last in Hl. by destruct (last (ws_chunks s)).
  - by rewrite Ep in E'.
Qed.

(** C12: The stream ends: when the streamer can always decode its last tokens, every run from a state that the stream
    can be in has at most [steps_left] steps, and where none is left the generator is over: it finished, was closed,
    or raised. The reader is never left waiting, whatever the model does. *)
Theorem worker_stream_ends st0 prompt s :
  (∀ st, ∃ text, streamer_end st = Ok text) →
  rtc stream_step (WorkerStream_init st0 prompt) s →
  (∀ n s', nsteps stream_step n s s' → (n <= steps_left s)%nat) ∧
  ((∀ s', ¬ stream_step s s') → over (ws_consumer s) = true).
Proof.
  intros Hend Hr. split; [|by eapply stuck_over]. intros n s' Hn%run_bounded. lia.
Qed.
End stream.

(** ** Runs *)

(** A streamer that keeps one character per token, and raises on a negative one. *)
#[local] Instance sample_streamer : TextStreamer := {|
  streamer := unit;
  streamer_put v st := if existsb (λ t, t <? 0) v then Err (ValueError "token") else Ok ("t", st);
  streamer_end st := Ok ""
|}.
Fixpoint sample_steps (values : list (list Z)) (failure : option PyErr) (moves : list bool) (s : WorkerStream) : option WorkerStream :=
  match moves with
  | [] => Some s
  | m :: moves => s ← (if m : bool then produce failure s else consume s); sample_steps values failure moves s
  end.
Lemma sample_steps_run values failure moves s s' :
  sample_steps values failure moves s = Some s' → rtc (stream_step failure) s s'.
Proof.
  revert s. induction moves as [|m moves IH]; intros s; cbn; [by intros [= ->]|].
  intros (s1 & E & H)%bind_Some. eapply rtc_l; [|by apply IH].
  destruct m; [by apply step_produce|by apply step_consume].
Qed.
Definition sample_values : list (list Z) := [[11]; [12]].
(** The model is a token ahead of the reader: the first chunk already counts both. *)
Definition sample_interleaving : list bool :=
  [true; true; true; true; false; true; true; false; false; false; false].
Definition sample_streamed : WorkerStream :=
  default (WorkerStream_init sample_values tt [])
    (sample_steps sample_values None sample_interleaving (WorkerStream_init sample_values tt [1; 2; 3])).
Lemma worker_stream_faithful_witness :
  ∃ s, rtc (stream_step None) (WorkerStream_init sample_values tt [1; 2; 3]) s ∧
  ws_chunks s = [mkStreamChunk "t" 2; mkStreamChunk "t" 2; mkStreamChunk "" 2] ∧ ws_consumer s = CFinished ∧
  (∃ done rest texts st tail, sample_values = done ++ rest ∧ put_all done tt = Some (texts, st) ∧
     (tail = [] ∨ ∃ text, streamer_end st = Ok text ∧ tail = [text]) ∧
     (sk_text <$> ws_chunks s) `prefix_of` texts ++ tail) ∧
  rising 0 (counts s) (ws_generated_tokens s) ∧
  (∀ i n, counts s !! i = Some n → tokens_in (take (Datatypes.S i) sample_values) <= n) ∧
  (ws_consumer s = CFinished → (None : option PyErr) = None ∧ last (counts s) = Some (tokens_in sample_values) ∧
     ∃ texts st text, put_all sample_values tt = Some (texts, st) ∧ streamer_end st = Ok text ∧
       sk_text <$> ws_chunks s = texts ++ [text]) ∧
  (∀ e, ws_consumer s = CRaised e → ws_failures s ≠ []).
Proof.
  exists sample_streamed.
  assert (rtc (stream_step None) (WorkerStream_init sample_values tt [1; 2; 3]) sample_streamed) as Hr.
  { apply (sample_steps_run sample_values None sample_interleaving). by vm_compute. }
  split; [exact Hr|]. split; [by vm_compute|]. split; [by vm_compute|].
  exact (worker_stream_faithful sample_values None tt [1; 2; 3] _ Hr).
Defined.
Lemma worker_stream_ends_witness :
  let s := WorkerStream_init sample_values tt [1; 2; 3] in
  steps_left s = 16%nat ∧
  (∀ n s', nsteps (stream_step (Some (RuntimeError "CUDA error"))) n s s' → (n <= steps_left s)%nat) ∧
  ((∀ s', ¬ stream_step (Some (RuntimeError "CUDA error")) s s') → over (ws_consumer s) = true).
Proof.
  split; [reflexivity|]. apply (worker_stream_ends (H := sample_streamer) sample_values _ tt [1; 2; 3]); [|apply rtc_refl].
  intros st. by exists "".
Defined.

(** When the last tokens cannot be decoded either, the handler's [streamer.end()] raises in its turn and the stop signal
    is never given: the model's thread is over and the reader waits, holding the lock of the worker. *)
Definition broken_streamer : TextStreamer := {|
  streamer := unit;
  streamer_put _ _ := Err (ValueError "decode");
  streamer_end _ := Err (ValueError "decode")
|}.
Lemma undecodable_stream_hangs :
  ∃ s, rtc (stream_step (H := broken_streamer) None) (WorkerStream_init (H := broken_streamer) sample_values tt [1]) s ∧
    ws_producer (H := broken_streamer) s = PDead ∧ ws_consumer (H := broken_streamer) s = CReading ∧
    ∀ s', ¬ stream_step (H := broken_streamer) None s s'.
Proof.
  eexists. split.
  { do 4 (eapply rtc_l; [apply step_produce; reflexivity|]). apply rtc_refl. }
  split_and!; [done|done|]. intros s' Hs. by inversion Hs.
Qed.
