(* ===== verification/TokenBackend.v ===== *)
(** [runtime/huggingface/token_backend.py]: the token backend over an [InferenceWorker], as an
    implementation of the protocol of the generation engine. Key/value caches are objects in a heap, since
    the model extends them in place and snapshots copy them. The engine calls the backend from one thread
    at a time ([BackendExecutor]). *)
From S2P Require Import Prelude PyFloat PyText Domain Effects TokenTypes Transformers InferenceWorker TokenEngine Worker HuggingFaceRuntime.
From Stdlib Require String Ascii.

#[local] Open Scope string_scope.
#[local] Open Scope list_scope.
#[local] Open Scope Z_scope.

Section backend.
Context `{Transformers} {R : Type} `{!TokenSampler R}.
(** [int(s)]. *)
Variable int_of_str : string → res Z.

(** ** State *)

(** [sc_cache] is a reference to a cache object. Tensors are values: no code changes one in place. *)
Record SequenceCache := mkSequenceCache {
  sc_cache : loc;
  sc_attention_mask : matrix;
  sc_cache_position : vector;
  sc_last_token_id : Z;
  sc_next_token_logits : option logits
}.
#[export] Instance eta_SequenceCache : Eta SequenceCache := λ s,
  mkSequenceCache (sc_cache s) (sc_attention_mask s) (sc_cache_position s) (sc_last_token_id s)
    (sc_next_token_logits s).
Record PrefixSnapshot := mkPrefixSnapshot {
  ps_cache : loc;
  ps_attention_mask : matrix;
  ps_cache_position : vector;
  ps_next_token_logits : logits
}.
(** [tb_caches] is the heap of cache objects, [tb_random] the state of the sampler, and [tb_queries]
    numbers the queries of the CUDA driver. *)
Record HuggingFaceTokenBackend := mkTokenBackend {
  tb_worker : InferenceWorker _;
  tb_caches : gmap loc cache;
  tb_sequences : gmap string SequenceCache;
  tb_stopped : bool;
  tb_random : R;
  tb_queries : nat
}.
#[export] Instance eta_HuggingFaceTokenBackend : Eta HuggingFaceTokenBackend := λ b,
  mkTokenBackend (tb_worker b) (tb_caches b) (tb_sequences b) (tb_stopped b) (tb_random b) (tb_queries b).
Definition HuggingFaceTokenBackend_init (worker : InferenceWorker _) (random : R) : HuggingFaceTokenBackend :=
  mkTokenBackend worker ∅ ∅ false random 0.

#[local] Abbreviation M := (Eff HuggingFaceTokenBackend PyErr).

Definition raise_when (b : bool) (e : PyErr) : M unit := if b then raise e else mret tt.
Definition lift_res {A} (r : res A) : M A := match r with Ok a => mret a | Err e => raise e end.
Definition on_worker {A} (c : Eff (InferenceWorker _) PyErr A) : M A := λ b,
  let '(a, w) := c (tb_worker b) in (a, b <| tb_worker := w |>).
(** A new cache object. *)
Definition new_cache (c : cache) : M loc := λ b,
  let l := fresh (dom (tb_caches b)) in (inr l, b <| tb_caches ::= <[l := c]> |>).
Definition cache_at (l : loc) (b : HuggingFaceTokenBackend) : cache := default dynamic_cache (tb_caches b !! l).
(** [copy.deepcopy(cache)]. *)
Definition deepcopy (l : loc) : M loc := c ← gets (cache_at l); new_cache c.
(** [_cache_length]. *)
Definition cache_length_at (l : loc) : M Z := c ← gets (cache_at l); mret (cache_length c).
Definition call_model (model : model) (input_ids attention_mask : matrix) (l : loc) (cache_position : vector)
  : M outputs := λ b,
  let '(out, c) := forward model input_ids attention_mask (cache_at l b) cache_position in
  lift_res out (b <| tb_caches ::= <[l := c]> |>).
Definition set_sequence (sequence_id : string) (s : SequenceCache) : M unit :=
  modify (λ b, b <| tb_sequences ::= <[sequence_id := s]> |>).
Definition update_sequence (sequence_id : string) (f : SequenceCache → SequenceCache) : M unit :=
  modify (λ b, b <| tb_sequences ::= alter f sequence_id |>).

(** ** The model and its tokenizer *)

Definition require_active : M unit :=
  stopped ← gets tb_stopped; raise_when stopped (RuntimeError "inference backend is shut down").
Definition load_model : M unit :=
  _ ← require_active;
  worker ← gets tb_worker;
  _ ← raise_when (is_cuda (iw_device worker) && negb cuda_available)
        (RuntimeError "CUDA backend requested but CUDA is unavailable");
  on_worker warmup.
Definition unload_model : M unit :=
  sequences ← gets tb_sequences;
  _ ← raise_when (negb (bool_decide (sequences = ∅))) (RuntimeError "cannot unload a model with active sequences");
  on_worker unload.
Definition current_tokenizer (message : string) : M tokenizer :=
  worker ← gets tb_worker;
  match iw_tokenizer worker with Some t => mret t | None => raise (RuntimeError message) end.
Definition current_model (message : string) : M model :=
  worker ← gets tb_worker;
  match iw_model worker with Some m => mret m | None => raise (RuntimeError message) end.
Definition tokenize (prompt : string) : M TokenizedPrompt :=
  _ ← load_model;
  tokenizer ← current_tokenizer "tokenizer is unavailable after model load";
  lift_res (TokenizedPrompt_new (encode tokenizer prompt true)).
Definition vocabulary_size : M Z :=
  _ ← load_model;
  tokenizer ← current_tokenizer "tokenizer is unavailable after model load";
  mret (vocabulary tokenizer).
Definition eos_token_ids : M (list Z) :=
  _ ← load_model;
  model ← current_model "model components are unavailable after model load";
  tokenizer ← current_tokenizer "model components are unavailable after model load";
  let values := match generation_eos model with Some values => values | None => [eos_token_id tokenizer] end in
  mret (elements (list_to_set (omap id values) : gset Z)).

(** [_token]. *)
Definition choose_token (l : logits) (parameters : SamplingParameters) : M Z := λ b,
  let '(t, random) := select l parameters (tb_random b) in lift_res t (b <| tb_random := random |>).
Definition generated_token (token_id index : Z) (l : loc) : M GeneratedToken :=
  tokenizer ← current_tokenizer "tokenizer is unavailable during decode";
  n ← cache_length_at l;
  mret (mkToken token_id (decode_raw tokenizer [token_id]) index n).

(** ** Prefixes *)

Definition sequence_of (sequence_id : string) : M SequenceCache :=
  sequences ← gets tb_sequences;
  match sequences !! sequence_id with
  | Some s => mret s
  | None => raise (KeyError ("sequence does not exist: " +:+ sequence_id))
  end.
Definition snapshot_prefix (sequence_id : string) : M PrefixSnapshot :=
  sequence ← sequence_of sequence_id;
  match sc_next_token_logits sequence with
  | None => raise (RuntimeError "sequence has no reusable prefill logits")
  | Some logits =>
    l ← deepcopy (sc_cache sequence);
    mret (mkPrefixSnapshot l (sc_attention_mask sequence) (sc_cache_position sequence) logits)
  end.
Definition require_new (sequence_id : string) : M unit :=
  sequences ← gets tb_sequences;
  raise_when (bool_decide (is_Some (sequences !! sequence_id)))
    (ValueError ("sequence already exists: " +:+ sequence_id)).
Definition restore_prefix_cache (sequence_id : string) (snapshot : PrefixSnapshot) (last_token_id : Z) : M loc :=
  l ← deepcopy (ps_cache snapshot);
  _ ← set_sequence sequence_id
        (mkSequenceCache l (ps_attention_mask snapshot) (ps_cache_position snapshot) last_token_id
           (Some (ps_next_token_logits snapshot)));
  mret l.
Definition restore_prefix (sequence_id : string) (snapshot : PrefixSnapshot) (parameters : SamplingParameters)
  : M GeneratedToken :=
  _ ← require_active;
  _ ← require_new sequence_id;
  token_id ← choose_token (ps_next_token_logits snapshot) parameters;
  l ← restore_prefix_cache sequence_id snapshot token_id;
  generated_token token_id 0 l.

(** ** Prefill *)

Definition prefill (sequence_id : string) (prompt : TokenizedPrompt) (parameters : SamplingParameters)
  : M GeneratedToken :=
  _ ← require_active;
  _ ← require_new sequence_id;
  _ ← load_model;
  model ← current_model "model is unavailable after model load";
  input_ids ← lift_res (torch_tensor [tp_token_ids prompt]);
  let attention_mask := torch_ones_like input_ids in
  let cache_position := torch_arange 0 (width input_ids) in
  l ← new_cache dynamic_cache;
  out ← call_model model input_ids attention_mask l cache_position;
  token_id ← choose_token (last_logits out) parameters;
  _ ← set_sequence sequence_id
        (mkSequenceCache l attention_mask (last_plus_one cache_position) token_id (Some (last_logits out)));
  generated_token token_id 0 l.

(** The mask, the first position and the cache of a chunk. *)
Definition chunk_start (existing : option SequenceCache) (input_ids : matrix) : M (matrix * Z * loc) :=
  match existing with
  | None => l ← new_cache dynamic_cache; mret (torch_ones_like input_ids, 0, l)
  | Some existing =>
    attention_mask ← lift_res (cat_columns (sc_attention_mask existing) (torch_ones_like input_ids));
    start ← cache_length_at (sc_cache existing);
    mret (attention_mask, start, sc_cache existing)
  end.
(** The token of the last chunk. *)
Definition chunk_token (sequence_id : string) (parameters : SamplingParameters) (final : bool) (l : loc)
  (out : outputs) : M (option GeneratedToken) :=
  if negb final then mret None
  else
    token_id ← choose_token (last_logits out) parameters;
    _ ← update_sequence sequence_id (λ s, s <| sc_last_token_id := token_id |>);
    token ← generated_token token_id 0 l;
    mret (Some token).
Definition prefill_chunk (sequence_id : string) (prompt : TokenizedPrompt) (parameters : SamplingParameters)
  (final : bool) : M (option GeneratedToken) :=
  _ ← require_active;
  _ ← load_model;
  model ← current_model "model is unavailable after model load";
  existing ← gets (λ b, tb_sequences b !! sequence_id);
  input_ids ← lift_res (torch_tensor [tp_token_ids prompt]);
  start ← chunk_start existing input_ids;
  let '(attention_mask, start, l) := start in
  let cache_position := torch_arange start (start + width input_ids) in
  out ← call_model model input_ids attention_mask l cache_position;
  _ ← set_sequence sequence_id
        (mkSequenceCache l attention_mask (last_plus_one cache_position) (-1)
           (if final then Some (last_logits out) else None));
  chunk_token sequence_id parameters final l out.

Definition resume_prefix (sequence_id : string) (snapshot : PrefixSnapshot) (suffix : TokenizedPrompt)
  (parameters : SamplingParameters) : M GeneratedToken :=
  _ ← require_active;
  _ ← require_new sequence_id;
  if bool_decide (tp_token_ids suffix = []) then restore_prefix sequence_id snapshot parameters
  else
    _ ← restore_prefix_cache sequence_id snapshot (-1);
    token ← prefill_chunk sequence_id suffix parameters true;
    match token with
    | Some token => mret token
    | None => raise (RuntimeError "suffix prefill did not produce a token")
    end.

(** One row of the padded batch. *)
Definition padded_ids (pad_id : Z) (width : nat) (ids : list Z) : list Z :=
  replicate (width - length ids) pad_id ++ ids.
Definition padded_mask (width : nat) (ids : list Z) : list Z :=
  replicate (width - length ids) 0 ++ replicate (length ids) 1.
(** [zip(requests, caches, strict=True)]. *)
Fixpoint zip_strict {A B} (l : list A) (k : list B) : res (list (A * B)) :=
  match l, k with
  | [], [] => Ok []
  | x :: l, y :: k => p ← zip_strict l k; Ok ((x, y) :: p)
  | _, _ => Err (ValueError "zip() arguments have different lengths")
  end.
Fixpoint new_caches (cs : list cache) : M (list loc) :=
  match cs with
  | [] => mret []
  | c :: cs => l ← new_cache c; ls ← new_caches cs; mret (l :: ls)
  end.
Fixpoint prefill_rows (out : outputs) (attention_mask : matrix) (cache_position : vector) (row : nat)
  (items : list (PrefillRequest * loc)) (result : gmap string GeneratedToken) : M (gmap string GeneratedToken) :=
  match items with
  | [] => mret result
  | (sequence_id, _, parameters, l) :: items =>
    token_id ← choose_token (row_logits out row) parameters;
    _ ← set_sequence sequence_id
          (mkSequenceCache l (row_slice attention_mask row) (last_plus_one cache_position) token_id
             (Some (row_logits out row)));
    token ← generated_token token_id 0 l;
    prefill_rows out attention_mask cache_position (Datatypes.S row) items (<[sequence_id := token]> result)
  end.
Definition request_id_of (r : PrefillRequest) : string := r.1.1.
Definition request_ids_of (r : PrefillRequest) : list Z := tp_token_ids r.1.2.
Definition batch_width (requests : list PrefillRequest) : nat :=
  foldr Nat.max 0%nat ((λ r, length (request_ids_of r)) <$> requests).
(** [prefill_batch] on two requests or more. *)
Definition prefill_many (requests : list PrefillRequest) : M BatchTokenResult :=
  _ ← require_active;
  _ ← raise_when (negb (bool_decide (NoDup (request_id_of <$> requests))))
        (ValueError "prefill batch contains duplicate sequence identifiers");
  sequences ← gets tb_sequences;
  _ ← raise_when (existsb (λ r, bool_decide (is_Some (sequences !! request_id_of r))) requests)
        (ValueError "prefill batch contains an existing sequence");
  _ ← load_model;
  model ← current_model "model components are unavailable after model load";
  tokenizer ← current_tokenizer "model components are unavailable after model load";
  let width := batch_width requests in
  match pad_token_id tokenizer with
  | None => raise (RuntimeError "tokenizer does not define a padding token")
  | Some pad_id =>
    input_ids ← lift_res (torch_tensor ((λ r, padded_ids pad_id width (request_ids_of r)) <$> requests));
    attention_mask ← lift_res (torch_tensor ((λ r, padded_mask width (request_ids_of r)) <$> requests));
    let cache_position := torch_arange 0 (Z.of_nat width) in
    l ← new_cache dynamic_cache;
    out ← call_model model input_ids attention_mask l cache_position;
    whole ← gets (cache_at l);
    caches ← new_caches (batch_split whole (length requests));
    items ← lift_res (zip_strict requests caches);
    tokens ← prefill_rows out attention_mask cache_position 0 items ∅;
    mret (mkBatchResult tokens ∅)
  end.
Definition prefill_batch (requests : list PrefillRequest) : M BatchTokenResult :=
  match requests with
  | [] => mret (mkBatchResult ∅ ∅)
  | [(sequence_id, prompt, parameters)] =>
    token ← prefill sequence_id prompt parameters; mret (mkBatchResult {[ sequence_id := token ]} ∅)
  | _ => prefill_many requests
  end.

(** ** Decode *)

Definition decode (sequence_id : string) (parameters : SamplingParameters) (index : Z) : M GeneratedToken :=
  _ ← require_active;
  sequence ← sequence_of sequence_id;
  model ← current_model "model is unavailable during decode";
  input_ids ← lift_res (torch_tensor [[sc_last_token_id sequence]]);
  attention_mask ← lift_res (cat_columns (sc_attention_mask sequence) (torch_ones 1 1));
  _ ← update_sequence sequence_id (λ s, s <| sc_attention_mask := attention_mask |>);
  out ← call_model model input_ids attention_mask (sc_cache sequence) (sc_cache_position sequence);
  _ ← update_sequence sequence_id
        (λ s, s <| sc_cache_position ::= plus_one |> <| sc_next_token_logits := None |>);
  token_id ← choose_token (last_logits out) parameters;
  _ ← update_sequence sequence_id (λ s, s <| sc_last_token_id := token_id |>);
  generated_token token_id index (sc_cache sequence).

(** [[self._sequences[sequence_id] for ...]]. *)
Fixpoint sequences_of (requests : list DecodeRequest) : M (list SequenceCache) :=
  match requests with
  | [] => mret []
  | (sequence_id, _, _) :: requests =>
    sequences ← gets tb_sequences;
    match sequences !! sequence_id with
    | None => raise (KeyError sequence_id)
    | Some s => ss ← sequences_of requests; mret (s :: ss)
    end
  end.
Fixpoint lift_all {A} (l : list (res A)) : res (list A) :=
  match l with [] => Ok [] | r :: l => a ← r; k ← lift_all l; Ok (a :: k) end.
(** A row's sequence object is the one the dictionary holds under its identifier. *)
Fixpoint decode_rows (out : outputs) (attention_mask : matrix) (row : nat) (items : list (DecodeRequest * loc))
  (result : gmap string GeneratedToken) : M (gmap string GeneratedToken) :=
  match items with
  | [] => mret result
  | (sequence_id, parameters, index, l) :: items =>
    token_id ← choose_token (row_logits out row) parameters;
    _ ← update_sequence sequence_id
          (λ s, mkSequenceCache l (row_slice attention_mask row) (plus_one (sc_cache_position s)) token_id None);
    token ← generated_token token_id index l;
    decode_rows out attention_mask (Datatypes.S row) items (<[sequence_id := token]> result)
  end.
(** [decode_batch] on two requests or more. *)
Definition decode_many (requests : list DecodeRequest) : M BatchTokenResult :=
  sequences ← sequences_of requests;
  lengths ← gets (λ b, (λ s, cache_length (cache_at (sc_cache s) b)) <$> sequences);
  _ ← raise_when (negb (Nat.eqb (size (list_to_set lengths : gset Z)) 1))
        (ValueError "decode batches require equal physical cache lengths");
  model ← current_model "model is unavailable during decode";
  input_ids ← lift_res (torch_tensor ((λ s, [sc_last_token_id s]) <$> sequences));
  masks ← lift_res (lift_all ((λ s, cat_columns (sc_attention_mask s) (torch_ones 1 1)) <$> sequences));
  attention_mask ← lift_res (cat_rows masks);
  cs ← gets (λ b, (λ s, cache_at (sc_cache s) b) <$> sequences);
  l ← new_cache (from_batch_splits cs);
  match sequences with
  | [] => raise (IndexError "list index out of range")
  | first :: _ =>
    out ← call_model model input_ids attention_mask l (sc_cache_position first);
    whole ← gets (cache_at l);
    caches ← new_caches (batch_split whole (length requests));
    items ← lift_res (zip_strict requests caches);
    tokens ← decode_rows out attention_mask 0 items ∅;
    mret (mkBatchResult tokens ∅)
  end.
Definition decode_batch (requests : list DecodeRequest) : M BatchTokenResult :=
  match requests with
  | [] => mret (mkBatchResult ∅ ∅)
  | [(sequence_id, parameters, index)] =>
    token ← decode sequence_id parameters index; mret (mkBatchResult {[ sequence_id := token ]} ∅)
  | _ => decode_many requests
  end.

(** ** Release, capacity and shutdown *)

Definition release_sequence (sequence_id : string) : M unit :=
  modify (λ b, b <| tb_sequences ::= delete sequence_id |>).
Definition active_sequence_count (b : HuggingFaceTokenBackend) : Z := Z.of_nat (size (tb_sequences b)).
Definition colon : Ascii.ascii := Ascii.ascii_of_nat 58.
Definition capacity : M RuntimeCapacity :=
  b ← gets id;
  let device := iw_device (tb_worker b) in
  if negb (is_cuda device) then mret cpu_capacity
  else
    let number := (str_partition colon device).2 in
    index ← lift_res (if String.eqb number "" then Ok 0 else int_of_str number);
    _ ← modify (λ b, b <| tb_queries ::= Datatypes.S |>);
    mret (cuda_capacity index (cuda_device (tb_queries b) index)).
Definition shutdown : M unit :=
  sequences ← gets tb_sequences;
  _ ← for_each release_sequence (map_to_list sequences).*1;
  _ ← on_worker unload;
  modify (λ b, b <| tb_stopped := true |>).

(** ** The protocol of the engine *)

(** The message of an exception. *)
Definition error_message (e : PyErr) : string :=
  match e with
  | ValueError m | TypeError m | InvalidStateTransition m | KeyError m | IndexError m | ZeroDivisionError m
  | RuntimeError m | MemoryError m | OverflowError m | AssertionError m | TimeoutError m
  | KVCacheCapacityError m | KVCacheOwnershipError m | UnknownModel m | RequestDeadlineExceeded m
  | WorkerDispatchError m | PlatformExecutionError m => m
  | NoEligibleWorker _ => "" | PlatformAdmissionError _ reason => reason
  end.
Definition reported {A} (c : M A) : Eff HuggingFaceTokenBackend string A := λ b,
  match c b with (inr a, b) => (inr a, b) | (inl e, b) => (inl (error_message e), b) end.
Definition HfTokenBackend : InferenceBackend HuggingFaceTokenBackend PrefixSnapshot := {|
  bk_vocabulary_size := reported vocabulary_size;
  bk_tokenize prompt := reported (tokenize prompt);
  bk_eos_token_ids := reported eos_token_ids;
  bk_prefill i p s := reported (prefill i p s);
  bk_decode i s n := reported (decode i s n);
  bk_prefill_batch := Some (λ l, reported (prefill_batch l));
  bk_prefill_chunk := Some (λ i p s final, reported (prefill_chunk i p s final));
  bk_decode_batch := Some (λ l, reported (decode_batch l));
  bk_restore_prefix := Some (λ i sn s, reported (restore_prefix i sn s));
  bk_resume_prefix := Some (λ i sn p s, reported (resume_prefix i sn p s));
  bk_snapshot_prefix := Some (λ i, reported (snapshot_prefix i));
  bk_release_sequence i := reported (release_sequence i);
  bk_shutdown := reported shutdown
|}.
End backend.
Arguments HuggingFaceTokenBackend {_ _} _.
