(* ===== verification/TokenSampling.v ===== *)
(** [inference/sampling.py]: greedy and nucleus sampling of the next token. PyTorch's tensor functions on one
    row of scores are an interface with their documented laws; the instance at the end shows that the laws
    can be met. *)
From S2P Require Import Prelude PyContainers PyFloat TokenTypes Transformers.
From Stdlib Require String.
From stdpp Require Import sorting.

#[local] Open Scope string_scope.
#[local] Open Scope list_scope.
#[local] Open Scope Z_scope.

(** A row of scores is a list; [R] is the state of the random generator. *)
Class ScoreTensors `{Transformers} (R : Type) := {
  score : Type;
  score_nan : score → bool;
  score_is_zero : score → bool;
  score_leb : score → score → bool;
  score_reaches : score → float → bool;        (* [>=] a Python float *)
  score_zero : score;
  score_sub : score → score → score;
  is_tensor : logits → bool;
  float_scores : logits → list score;          (* [logits.float()] *)
  over_temperature : list score → float → list score;
  softmax : list score → list score;
  argmax : list score → nat;
  sort_descending : list score → list score * list nat;  (* the values and where they were *)
  cumsum : list score → list score;
  normalize : list score → list score;         (* [x /= x.sum()] *)
  multinomial : list score → R → res nat * R
}.
Class ScoreTensorsLaws `{ScoreTensors} : Prop := {
  score_zero_is : score_is_zero score_zero = true;
  argmax_in xs : xs ≠ [] → (argmax xs < length xs)%nat;
  argmax_most xs i x y : argmax xs = i → xs !! i = Some x → y ∈ xs →
    Forall (λ z, score_nan z = false) xs → score_leb y x = true;
  length_over_temperature xs t : length (over_temperature xs t) = length xs;
  length_softmax xs : length (softmax xs) = length xs;
  sort_places xs : (sort_descending xs).2 ≡ₚ seq 0 (length xs);
  sort_values xs k i : (sort_descending xs).2 !! k = Some i → (sort_descending xs).1 !! k = xs !! i;
  sort_sorted xs : Forall (λ z, score_nan z = false) xs →
    StronglySorted (λ x y, score_leb y x = true) (sort_descending xs).1;
  length_sort xs : length (sort_descending xs).1 = length (sort_descending xs).2;
  length_cumsum xs : length (cumsum xs) = length xs;
  length_normalize xs : length (normalize xs) = length xs;
  (* zero divided by the sum is zero, unless the sum is zero or not a number *)
  normalize_zero xs i x y : xs !! i = Some x → score_is_zero x = true → normalize xs !! i = Some y →
    score_is_zero y = true ∨ score_nan y = true;
  (* a category of a positive weight *)
  multinomial_drawn xs i (r r' : R) : multinomial xs r = (Ok i, r') →
    ∃ x, xs !! i = Some x ∧ score_is_zero x = false ∧ score_nan x = false
}.

Lemma sorted_pair {A} (R : A → A → Prop) l i j x y :
  StronglySorted R l → l !! i = Some x → l !! j = Some y → (i < j)%nat → R x y.
Proof.
  intros Hs. revert i j. induction Hs as [|z l _ IH Hz]; intros [|i] [|j]; try done; try lia.
  - cbn. intros [= ->] Hy _. rewrite Forall_forall in Hz. by eapply Hz, list_elem_of_lookup_2.
  - cbn. intros Hx Hy Hij. apply (IH i j); [done..|lia].
Qed.

Section sampler.
Context `{ScoreTensors}.

(** [TorchTokenSampler.select]. *)
Definition the_probabilities (l : logits) (parameters : SamplingParameters) : list score :=
  softmax (over_temperature (float_scores l) (sp_temperature parameters)).
(** [sorted_probabilities.masked_fill(remove, 0)]. *)
Definition nucleus (top_p : float) (sorted : list score) : list score :=
  zip_with (λ p c, if score_reaches (score_sub c p) top_p then score_zero else p) sorted (cumsum sorted).
Definition torch_select (l : logits) (parameters : SamplingParameters) (r : R) : res Z * R :=
  if negb (is_tensor l) then (Err (TypeError "PyTorch sampler requires tensor logits"), r)
  else if f_eqb (sp_temperature parameters) f_zero then (Ok (Z.of_nat (argmax (float_scores l))), r)
  else
    let probabilities := the_probabilities l parameters in
    if f_ltb (sp_top_p parameters) (f_of_Z 1) then
      let '(sorted_probabilities, sorted_indices) := sort_descending probabilities in
      let '(sampled_index, r) := multinomial (normalize (nucleus (sp_top_p parameters) sorted_probabilities)) r in
      (match sampled_index with
       | Ok i =>
         match sorted_indices !! i with
         | Some t => Ok (Z.of_nat t)
         | None => Err (IndexError "index out of bounds")
         end
       | Err e => Err e
       end, r)
    else let '(t, r) := multinomial probabilities r in (Z.of_nat <$> t, r).
(** The sampler of the token backend. *)
#[local] Instance TorchTokenSampler : TokenSampler R := {| select := torch_select |}.

Context `{!ScoreTensorsLaws}.

(** What [select] makes of the three cases: the token is one of the vocabulary; without a temperature it has
    the greatest score; with [top_p] it lies in the nucleus, which means that the probabilities sorted before
    it do not reach [top_p], and otherwise it has a positive probability. *)
Lemma greedy_token l parameters r t r' :
  f_eqb (sp_temperature parameters) f_zero = true → float_scores l ≠ [] →
  torch_select l parameters r = (Ok t, r') →
  r' = r ∧ 0 <= t < Z.of_nat (length (float_scores l)) ∧
  (Forall (λ z, score_nan z = false) (float_scores l) →
   ∃ x, float_scores l !! Z.to_nat t = Some x ∧ ∀ y, y ∈ float_scores l → score_leb y x = true).
Proof.
  intros Ht Hne. unfold torch_select. destruct (negb _); [done|]. rewrite Ht. intros [= <- <-].
  pose proof (argmax_in (float_scores l) Hne) as Hlt. split_and!; [done|lia|lia|]. intros Hnan. rewrite Nat2Z.id.
  destruct (lookup_lt_is_Some_2 _ _ Hlt) as [x Hx]. exists x. split; [done|]. intros y Hy. by eapply argmax_most.
Qed.
Lemma sampled_token l parameters r t r' :
  f_eqb (sp_temperature parameters) f_zero = false → f_ltb (sp_top_p parameters) (f_of_Z 1) = false →
  torch_select l parameters r = (Ok t, r') →
  0 <= t < Z.of_nat (length (float_scores l)) ∧
  ∃ p, the_probabilities l parameters !! Z.to_nat t = Some p ∧ score_is_zero p = false.
Proof.
  intros Ht Hp. unfold torch_select. destruct (negb _); [done|]. rewrite Ht, Hp.
  destruct (multinomial _ r) as [[i|e] r1] eqn:E; [|done]. intros [= <- <-].
  destruct (multinomial_drawn _ _ _ _ E) as (x & Hx & Hz & _). rewrite Nat2Z.id. split; [|by exists x].
  apply lookup_lt_Some in Hx. unfold the_probabilities in Hx. rewrite length_softmax, length_over_temperature in Hx. lia.
Qed.
Lemma nucleus_token l parameters r t r' :
  f_eqb (sp_temperature parameters) f_zero = false → f_ltb (sp_top_p parameters) (f_of_Z 1) = true →
  torch_select l parameters r = (Ok t, r') →
  let sorted := (sort_descending (the_probabilities l parameters)).1 in
  0 <= t < Z.of_nat (length (float_scores l)) ∧
  ∃ rank p before, the_probabilities l parameters !! Z.to_nat t = Some p ∧
    sorted !! rank = Some p ∧ cumsum sorted !! rank = Some before ∧
    score_reaches (score_sub before p) (sp_top_p parameters) = false ∧
    (Forall (λ z, score_nan z = false) (the_probabilities l parameters) →
     ∀ k y, (k < rank)%nat → sorted !! k = Some y → score_leb p y = true).
Proof.
  intros Ht Hp. unfold torch_select. destruct (negb _); [done|]. rewrite Ht, Hp.
  set (probabilities := the_probabilities l parameters).
  pose proof (sort_places probabilities) as Hpl. pose proof (sort_values probabilities) as Hv.
  pose proof (sort_sorted probabilities) as Hsort.
  destruct (sort_descending probabilities) as [sorted places]. cbn [fst snd] in *.
  destruct (multinomial _ r) as [[i|e] r1] eqn:E; [|done].
  destruct (places !! i) as [j|] eqn:Ej; [|done]. intros [= <- <-]. rewrite Nat2Z.id.
  destruct (multinomial_drawn _ _ _ _ E) as (x & Hx & Hz & Hn).
  assert (j < length probabilities)%nat as Hj.
  { apply list_elem_of_lookup_2 in Ej. rewrite Hpl in Ej. apply elem_of_seq in Ej. lia. }
  split.
  { unfold probabilities, the_probabilities in Hj. rewrite length_softmax, length_over_temperature in Hj. lia. }
  assert (is_Some (nucleus (sp_top_p parameters) sorted !! i)) as [w Hw].
  { apply lookup_lt_is_Some. rewrite <- length_normalize. by eapply lookup_lt_Some. }
  pose proof Hw as Hw'. unfold nucleus in Hw'. apply lookup_zip_with_Some in Hw' as (p & c & Ew & Hpi & Hci).
  exists i, p, c. rewrite <- (Hv i j Ej), Hpi. split_and!; [done..| |].
  2:{ intros Hnan k y Hk Hy. by apply (sorted_pair _ _ _ _ _ _ (Hsort Hnan) Hy Hpi Hk). }
  destruct (score_reaches (score_sub c p) (sp_top_p parameters)); [|done]. exfalso. subst w.
  destruct (normalize_zero _ _ _ _ Hw score_zero_is Hx); congruence.
Qed.
End sampler.

(** ** An instance *)

(** Scores are whole numbers, and weights rather than probabilities; a row of logits scores each of its
    positions with the token there. The generator is a number. *)
Definition toy_after (a b : Z * nat) : bool := b.1 <=? a.1.
Definition toy_sort (xs : list Z) : list (Z * nat) := sorted_by toy_after (zip xs (seq 0 (length xs))).
Definition toy_weighted (xs : list Z) : list nat :=
  filter (λ i, default 0 (xs !! i) ≠ 0) (seq 0 (length xs)).
Definition toy_multinomial (xs : list Z) (r : nat) : res nat * nat :=
  match toy_weighted xs !! (r mod length (toy_weighted xs))%nat with
  | Some i => (Ok i, Datatypes.S r)
  | None => (Err (RuntimeError "invalid multinomial distribution"), r)
  end.
Fixpoint toy_cumsum (total : Z) (xs : list Z) : list Z :=
  match xs with [] => [] | x :: xs => (total + x) :: toy_cumsum (total + x) xs end.
Definition toy_scores : @ScoreTensors toy_tensors toy_transformers nat :=
  @Build_ScoreTensors toy_tensors toy_transformers nat Z (λ _, false) (λ x, x =? 0) Z.leb
    (λ x p, f_leb p (f_of_Z x)) 0 Z.sub (λ _, true) (λ l, snd <$> l) (λ xs _, xs) (λ xs, xs)
    (λ xs, match toy_sort xs with p :: _ => p.2 | [] => O end) (λ xs, ((toy_sort xs).*1, (toy_sort xs).*2))
    (toy_cumsum 0) (λ xs, xs) toy_multinomial.
Lemma toy_sort_perm xs : toy_sort xs ≡ₚ zip xs (seq 0 (length xs)).
Proof. apply sorted_by_perm. Qed.
Lemma toy_sort_elem xs x i : (x, i) ∈ toy_sort xs → xs !! i = Some x.
Proof.
  rewrite toy_sort_perm. intros (k & Hk)%list_elem_of_lookup. apply lookup_zip_Some in Hk as [Hx Hi].
  apply lookup_seq in Hi as [-> _]. exact Hx.
Qed.
Lemma toy_sort_sorted xs : StronglySorted (λ a b, toy_after a b = true) (toy_sort xs).
Proof. apply sorted_by_sorted; unfold toy_after; intros; lia. Qed.
Lemma toy_scores_laws : @ScoreTensorsLaws toy_tensors toy_transformers nat toy_scores.
Proof.
  split; cbn; try done.
  - intros xs Hne. destruct (toy_sort xs) as [|[x i] l] eqn:E.
    + apply (f_equal length) in E. rewrite toy_sort_perm, length_zip, length_seq in E. destruct xs; [done|]. cbn in E. lia.
    + assert ((x, i) ∈ toy_sort xs) as Hi by (rewrite E; left). apply toy_sort_elem, lookup_lt_Some in Hi. exact Hi.
  - intros xs i x y Hi Hx Hy _. apply list_elem_of_lookup in Hy as [j Hj].
    assert ((y, j) ∈ toy_sort xs) as Hyj.
    { rewrite toy_sort_perm. apply list_elem_of_lookup. exists j. apply lookup_zip_Some. split; [done|].
      apply lookup_seq. split; [done|]. by eapply lookup_lt_Some. }
    pose proof (toy_sort_sorted xs) as Hs. destruct (toy_sort xs) as [|[z k] l] eqn:E; [by apply not_elem_of_nil in Hyj|].
    assert (xs !! k = Some z) as Hz by (apply toy_sort_elem; rewrite E; left). cbn in Hi. subst k.
    assert (z = x) as -> by congruence. apply elem_of_cons in Hyj as [[= -> _]|Hyj]; [lia|].
    inversion Hs as [|? ? _ Hall]; subst. rewrite Forall_forall in Hall. by apply (Hall (y, j)).
  - intros xs. rewrite toy_sort_perm. rewrite snd_zip; [done|]. by rewrite length_seq.
  - intros xs k i Hk. rewrite list_lookup_fmap in Hk. rewrite list_lookup_fmap.
    destruct (toy_sort xs !! k) as [[x j]|] eqn:E; [|done]. injection Hk as <-. cbn. symmetry.
    apply toy_sort_elem. by eapply list_elem_of_lookup_2.
  - intros xs _. pose proof (toy_sort_sorted xs) as Hs. induction Hs as [|[x i] l _ IH Hz]; constructor; [exact IH|].
    apply Forall_fmap. eapply Forall_impl; [exact Hz|]. done.
  - intros xs. by rewrite !length_fmap.
  - intros xs. generalize 0. induction xs as [|x xs IH]; intros n; cbn; [done|]. by rewrite IH.
  - intros xs i x y Hx Hz Hy. left. congruence.
  - intros xs i r r'. unfold toy_multinomial. destruct (toy_weighted xs !! _) as [j|] eqn:E; [|done]. intros [= <- _].
    apply list_elem_of_lookup_2, list_elem_of_filter in E as [Hj _]. destruct (xs !! j) as [x|]; [|done].
    exists x. cbn in Hj. split_and!; [done|lia|done].
Qed.
(** The first draw from the row 5, 9, 2: with [top_p] one half the nucleus is the second token alone. *)
Example torch_select_ex :
  (λ p, (@torch_select toy_tensors toy_transformers nat toy_scores [(0, 5); (1, 9); (2, 2)]
     (mkSampling 1 (f_of_Z 1) p []) 0%nat).1) <$> [f_ratio 1 2; f_of_Z 1] = [Ok 1; Ok 0].
Proof. vm_compute. reflexivity. Qed.
