(* ===== verification/TokenRows.v ===== *)
(** The rows of a key/value cache: padding and tokens at consecutive positions, and what one call of the
    model does with a row, a padded batch of new rows, or one more token for several rows. *)
From S2P Require Import Prelude TokenTypes Transformers TokenBackend.
From Stdlib Require String.

#[local] Open Scope string_scope.
#[local] Open Scope list_scope.
#[local] Open Scope Z_scope.

(** ** Slots *)

(** Tokens at consecutive positions from [p], attended to; and padding, which is not. *)
Definition numbered (p : Z) (l : list Z) : list (Z * Z) := zip (seqZ p (Z.of_nat (length l))) l.
Definition real (p : Z) (l : list Z) : list slot := (λ x, (x, true)) <$> numbered p l.
Definition pads (p : Z) (k : nat) (pad : Z) : list slot := (λ i, (i, pad, false)) <$> seqZ p (Z.of_nat k).

Lemma numbered_cons p x l : numbered p (x :: l) = (p, x) :: numbered (p + 1) l.
Proof.
  unfold numbered. cbn [length]. rewrite Nat2Z.inj_succ, seqZ_cons, Z.pred_succ by lia.
  by rewrite <- Z.add_1_r.
Qed.
Lemma numbered_app p l k : numbered p (l ++ k) = numbered p l ++ numbered (p + Z.of_nat (length l)) k.
Proof.
  revert p. induction l as [|x l IH]; intros p; cbn [app].
  - by rewrite Z.add_0_r.
  - rewrite !numbered_cons, IH. cbn [app length]. do 2 f_equal. f_equal. lia.
Qed.
Lemma real_cons p x l : real p (x :: l) = (p, x, true) :: real (p + 1) l.
Proof. unfold real. by rewrite numbered_cons. Qed.
Lemma numbered_length p l : length (numbered p l) = length l.
Proof. unfold numbered. rewrite length_zip, length_seqZ. lia. Qed.
Lemma real_length p l : length (real p l) = length l.
Proof. unfold real. by rewrite length_fmap, numbered_length. Qed.
Lemma real_tokens p l : slot_token <$> real p l = l.
Proof. revert p. induction l as [|x l IH]; intros p; [done|]. rewrite real_cons. cbn. by rewrite IH. Qed.
Lemma real_positions p l : slot_position <$> real p l = seqZ p (Z.of_nat (length l)).
Proof.
  revert p. induction l as [|x l IH]; intros p; [done|]. rewrite real_cons. cbn [fmap list_fmap length].
  rewrite Nat2Z.inj_succ, seqZ_cons, Z.pred_succ, <- Z.add_1_r by lia. cbn. f_equal. apply IH.
Qed.
Lemma real_mask p l : mask_of (real p l) = replicate (length l) 1.
Proof.
  revert p. induction l as [|x l IH]; intros p; [done|]. rewrite real_cons. cbn. f_equal. apply IH.
Qed.
Lemma real_last p l : l ≠ [] → ∃ s, last (real p l) = Some s ∧ s.2 = true.
Proof.
  intros Hl. destruct (last (real p l)) as [s|] eqn:E.
  - exists s. split; [done|]. apply last_Some_elem_of in E. unfold real in E.
    by apply list_elem_of_fmap in E as (x & -> & _).
  - apply last_None in E. apply (f_equal length) in E. rewrite real_length in E. by destruct l.
Qed.
Lemma attended_app h n : attended (h ++ n) = attended h ++ attended n.
Proof. unfold attended. by rewrite filter_app, fmap_app. Qed.
Lemma attended_real p l : attended (real p l) = numbered p l.
Proof.
  revert p. induction l as [|x l IH]; intros p; [done|]. rewrite real_cons, numbered_cons. unfold attended in *.
  rewrite filter_cons_True by done. cbn. f_equal. apply IH.
Qed.
Lemma pads_length p k pad : length (pads p k pad) = k.
Proof. unfold pads. rewrite length_fmap, length_seqZ. lia. Qed.
Lemma pads_S p k pad : pads p (S k) pad = (p, pad, false) :: pads (p + 1) k pad.
Proof. unfold pads. rewrite Nat2Z.inj_succ, seqZ_cons, Z.pred_succ, <- Z.add_1_r by lia. done. Qed.
Lemma pads_tokens p k pad : slot_token <$> pads p k pad = replicate k pad.
Proof. revert p. induction k as [|k IH]; intros p; [done|]. rewrite pads_S. cbn. f_equal. apply IH. Qed.
Lemma pads_positions p k pad : slot_position <$> pads p k pad = seqZ p (Z.of_nat k).
Proof. unfold pads. rewrite <- list_fmap_compose. apply list_fmap_id. Qed.
Lemma pads_mask p k pad : mask_of (pads p k pad) = replicate k 0.
Proof. revert p. induction k as [|k IH]; intros p; [done|]. rewrite pads_S. cbn. f_equal. apply IH. Qed.
Lemma attended_pads p k pad : attended (pads p k pad) = [].
Proof.
  revert p. induction k as [|k IH]; intros p; [done|]. rewrite pads_S. unfold attended in *.
  rewrite filter_cons_False by done. apply IH.
Qed.

Section rows.
Context `{TransformersLaws} `{!LongTensorLaws}.
Variable md : model.

(** ** One call of the model *)

(** The row [h] holds the tokens [ts] from position [p], after [p] slots of padding. *)
Definition holds_row (h : list slot) (p : Z) (ts : list Z) : Prop :=
  attended h = numbered p ts ∧ Z.of_nat (length h) = p + Z.of_nat (length ts).
(** A cache with its mask and its next position. *)
Definition holds (c : cache) (mask : matrix) (position : vector) (p : Z) (ts : list Z) : Prop :=
  ∃ h, represents c [h] ∧ holds_row h p ts ∧ tolist mask = [mask_of h] ∧ items position = [Z.of_nat (length h)].

Lemma holds_row_nil : holds_row [] 0 [].
Proof. done. Qed.
Lemma holds_row_extend h p ts new :
  holds_row h p ts → holds_row (h ++ real (Z.of_nat (length h)) new) p (ts ++ new).
Proof.
  intros [Ha Hl]. split.
  - by rewrite attended_app, attended_real, Ha, numbered_app, Hl.
  - rewrite !length_app, real_length. lia.
Qed.
Lemma holds_row_padded k pad l : holds_row (pads 0 k pad ++ real (Z.of_nat k) l) (Z.of_nat k) l.
Proof.
  split; [by rewrite attended_app, attended_pads, attended_real|].
  rewrite length_app, pads_length, real_length. lia.
Qed.
(** Real tokens after any slots are placed as the model wants them. *)
Lemma real_placed h n new positions :
  new ≠ [] → positions = (slot_position <$> n) ++ seqZ (Z.of_nat (length h + length n)) (Z.of_nat (length new)) →
  row_placed positions (h, n ++ real (Z.of_nat (length h + length n)) new).
Proof.
  intros Hne ->. split; cbn [fst snd].
  - by rewrite fmap_app, real_positions.
  - destruct (real_last (Z.of_nat (length h + length n)) new Hne) as (s & Hs & Ht). exists s. split; [|done].
    by rewrite last_app, Hs.
Qed.

(** A right call extends the cache, and its logits are those of its rows. *)
Lemma forward_asks ids mask c pos st out c' :
  asks ids mask c pos st → forward md ids mask c pos = (Ok out, c') →
  represents c' (map row_after st) ∧
  (∀ i hn, st !! i = Some hn → gives md (attended (row_after hn)) (row_logits out i)) ∧
  ∀ hn, st = [hn] → gives md (attended (row_after hn)) (last_logits out).
Proof.
  intros Ha E. pose proof Ha as [Hne Hc [n Hn] Hids Hmask Hpos]. split_and!.
  - by eapply forward_spec.
  - intros i hn Hi. exists ids, mask, c, pos, st, out, c', i, hn. split_and!; try done. by left.
  - intros hn ->. exists ids, mask, c, pos, [hn], out, c', 0%nat, hn. split_and!; try done. by right.
Qed.
(** A call on one row appends the new tokens and gives the logits after all of them. *)
Lemma forward_one c h p ts new ids mask position out c' :
  represents c [h] → holds_row h p ts → new ≠ [] →
  tolist ids = [new] → tolist mask = [mask_of h ++ replicate (length new) 1] →
  items position = seqZ (Z.of_nat (length h)) (Z.of_nat (length new)) →
  forward md ids mask c position = (Ok out, c') →
  gives md (numbered p (ts ++ new)) (last_logits out) ∧
  ∃ h', represents c' [h'] ∧ holds_row h' p (ts ++ new) ∧ mask_of h' = mask_of h ++ replicate (length new) 1.
Proof.
  intros Hr Hh Hne Hids Hmask Hpos E. set (n := real (Z.of_nat (length h)) new).
  destruct (forward_asks ids mask c position [(h, n)] out c') as (Hc & _ & Hlast); [split; try done|exact E|].
  - exists (length h). by repeat constructor.
  - rewrite Hids. cbn. unfold row_tokens. cbn. unfold n. by rewrite real_tokens.
  - rewrite Hmask. cbn. unfold row_mask, row_after. cbn. unfold n. by rewrite mask_of_app, real_mask.
  - apply Forall_singleton. unfold n. rewrite Hpos. pose proof (real_placed h [] new) as Hp. cbn [app] in Hp.
    rewrite Nat.add_0_r in Hp. by apply Hp.
  - pose proof (holds_row_extend h p ts new Hh) as Hh'. split.
    + rewrite <- (proj1 Hh'). by apply (Hlast (h, n)).
    + exists (h ++ n). split_and!; [exact Hc|exact Hh'|]. unfold n. by rewrite mask_of_app, real_mask.
Qed.

(** A padded batch of new sequences. *)
Definition padded_row (pad : Z) (w : nat) (l : list Z) : row_step :=
  let k := (w - length l)%nat in ([], pads 0 k pad ++ real (Z.of_nat k) l).
Lemma padded_row_tokens pad w l : row_tokens (padded_row pad w l) = padded_ids pad w l.
Proof. unfold row_tokens. cbn [snd padded_row]. by rewrite fmap_app, pads_tokens, real_tokens. Qed.
Lemma padded_row_mask pad w l : row_mask (padded_row pad w l) = padded_mask w l.
Proof. unfold row_mask, row_after. cbn [fst snd padded_row app]. by rewrite mask_of_app, pads_mask, real_mask. Qed.
Lemma padded_row_length pad w l : (length l ≤ w)%nat → length (row_after (padded_row pad w l)) = w.
Proof. intros Hl. unfold row_after. cbn. rewrite length_app, pads_length, real_length. lia. Qed.
Lemma padded_row_placed pad w l :
  l ≠ [] → (length l ≤ w)%nat → row_placed (seqZ 0 (Z.of_nat w)) (padded_row pad w l).
Proof.
  intros Hne Hl. unfold padded_row. set (k := (w - length l)%nat).
  pose proof (real_placed [] (pads 0 k pad) l (seqZ 0 (Z.of_nat w)) Hne) as Hp. cbn [length] in Hp.
  rewrite pads_length in Hp. apply Hp. cbn [plus]. rewrite pads_positions.
  replace (Z.of_nat w) with (Z.of_nat k + Z.of_nat (length l)) by lia. by rewrite seqZ_app by lia.
Qed.
Lemma forward_padded ls pad w ids mask position out c' :
  ls ≠ [] → Forall (λ l, l ≠ [] ∧ (length l ≤ w)%nat) ls →
  tolist ids = map (padded_ids pad w) ls → tolist mask = map (padded_mask w) ls → items position = seqZ 0 (Z.of_nat w) →
  forward md ids mask dynamic_cache position = (Ok out, c') →
  represents c' (map (λ l, row_after (padded_row pad w l)) ls) ∧
  ∀ i l, ls !! i = Some l →
    gives md (numbered (Z.of_nat (w - length l)) l) (row_logits out i).
Proof.
  intros Hne Hf Hids Hmask Hpos E.
  destruct (forward_asks ids mask dynamic_cache position (map (padded_row pad w) ls) out c')
    as (Hc & Hrow & _); [split; [by destruct ls|..]|exact E|].
  - replace (map (padded_row pad w) ls).*1 with (replicate (length ls) (@nil slot)); [apply dynamic_cache_spec|].
    clear. induction ls as [|l ls IH]; cbn; [done|]. by f_equal.
  - exists 0%nat. apply Forall_fmap, Forall_map, Forall_elem. by intros.
  - rewrite Hids, map_map. apply map_ext. intros l. by rewrite padded_row_tokens.
  - rewrite Hmask, map_map. apply map_ext. intros l. by rewrite padded_row_mask.
  - rewrite Hpos. apply Forall_map. eapply Forall_impl; [exact Hf|]. intros l [H1' H2']. by apply padded_row_placed.
  - rewrite map_map in Hc. split; [exact Hc|]. intros i l Hi.
    rewrite <- (proj1 (holds_row_padded _ pad l)). apply (Hrow i (padded_row pad w l)).
    change map with (@fmap list _). by rewrite list_lookup_fmap, Hi.
Qed.
(** One decoding step of several rows of equal length. *)
Definition decode_row (h : list slot) (t : Z) : row_step := (h, real (Z.of_nat (length h)) [t]).
Lemma forward_decode rows n c ids mask position out c' :
  rows ≠ [] → represents c rows.*1 → Forall (λ r : list slot * Z, length r.1 = n) rows →
  tolist ids = map (λ r, [r.2]) rows → tolist mask = map (λ r, mask_of r.1 ++ [1]) rows →
  items position = [Z.of_nat n] →
  forward md ids mask c position = (Ok out, c') →
  represents c' (map (λ r, row_after (decode_row r.1 r.2)) rows) ∧
  ∀ i r, rows !! i = Some r → gives md (attended (row_after (decode_row r.1 r.2))) (row_logits out i).
Proof.
  intros Hne Hc Hn Hids Hmask Hpos E.
  destruct (forward_asks ids mask c position (map (λ r, decode_row r.1 r.2) rows) out c')
    as (Hc' & Hrow & _); [split; [by destruct rows|..]|exact E|].
  - replace (map (λ r, decode_row r.1 r.2) rows).*1 with rows.*1; [done|].
    clear. induction rows as [|r rows IH]; cbn; [done|]. by f_equal.
  - exists n. apply Forall_fmap, Forall_map. eapply Forall_impl; [exact Hn|]. done.
  - rewrite Hids, map_map. apply map_ext. intros r. unfold row_tokens. cbn [snd decode_row]. by rewrite real_tokens.
  - rewrite Hmask, map_map. apply map_ext. intros r. unfold row_mask, row_after. cbn [fst snd decode_row].
    by rewrite mask_of_app, real_mask.
  - apply Forall_map. eapply Forall_impl; [exact Hn|]. intros r Hr. cbn. rewrite Hpos.
    pose proof (real_placed r.1 [] [r.2]) as Hp. cbn [app length] in Hp. rewrite Nat.add_0_r in Hp.
    apply Hp; [done|]. by rewrite Hr.
  - rewrite map_map in Hc'. split; [exact Hc'|]. intros i r Hi.
    apply (Hrow i (decode_row r.1 r.2)). change map with (@fmap list _). by rewrite list_lookup_fmap, Hi.
Qed.
End rows.
