(* ===== verification/TokenBackendSafe.v ===== *)
(** The token backend asks the model about the right tokens: whatever the batching, the chunking, the prefix
    reuse and the interleaving of sequences, each token is the sampler's choice on logits of a model call for a
    row that attends to exactly the tokens of its own sequence. *)
From S2P Require Import Prelude PyFloat PyText Domain Effects TokenTypes Transformers InferenceWorker TokenEngine TokenBackend TokenRows.
From Stdlib Require String.

#[local] Open Scope string_scope.
#[local] Open Scope list_scope.
#[local] Open Scope Z_scope.

Section safe.
Context `{TransformersLaws} `{!LongTensorLaws} {R : Type} `{!TokenSampler R}.
Variable int_of_str : string → res Z.
Variable md : model.

(** ** What a call leaves alone *)

#[local] Abbreviation Backend := (HuggingFaceTokenBackend R).
#[local] Abbreviation M := (Eff Backend PyErr).
Variable tok : tokenizer.
Variables model_name revision device dtype : string.
(** Loading the model again gives the same model and tokenizer. *)
Hypothesis pinned : ∀ n t m, InferenceWorker.load_model model_name revision device dtype n = Ok (t, m) → t = tok ∧ m = md.

Record worker_ok (w : InferenceWorker _) : Prop := {
  wo_name : iw_model_name w = model_name;
  wo_revision : iw_revision w = revision;
  wo_device : iw_device w = device;
  wo_dtype : iw_dtype w = dtype;
  wo_model : ∀ m, iw_model w = Some m → m = md;
  wo_tokenizer : ∀ t, iw_tokenizer w = Some t → t = tok
}.
(** Every sequence has a cache object of its own. *)
Record well_formed (b : Backend) : Prop := {
  wf_worker : worker_ok (tb_worker b);
  wf_alive : ∀ id s, tb_sequences b !! id = Some s → is_Some (tb_caches b !! sc_cache s);
  wf_distinct : ∀ i j s t, tb_sequences b !! i = Some s → tb_sequences b !! j = Some t → sc_cache s = sc_cache t → i = j
}.

Section frame.
Variable ids : list string.
Variable b0 : Backend.

(** The cache belongs to one of the sequences [ids] at the start. *)
Definition owned (l : loc) : Prop := ∃ id s, id ∈ ids ∧ tb_sequences b0 !! id = Some s ∧ sc_cache s = l.
(** [b] comes from [b0] by work on the sequences [ids] alone: other sequences and all caches that do not belong
    to [ids] are what they were, and the caches of [ids] are their own or new. *)
Record touches (b : Backend) : Prop := {
  to_wf : well_formed b;
  to_others : ∀ id, id ∉ ids → tb_sequences b !! id = tb_sequences b0 !! id;
  to_caches : ∀ l c, tb_caches b0 !! l = Some c → ¬ owned l → tb_caches b !! l = Some c;
  to_grows : ∀ l, is_Some (tb_caches b0 !! l) → is_Some (tb_caches b !! l);
  to_mine : ∀ id s, id ∈ ids → tb_sequences b !! id = Some s → tb_caches b0 !! sc_cache s = None ∨ owned (sc_cache s)
}.
(** A cache that work on [ids] may extend. *)
Definition writable (l : loc) : Prop := tb_caches b0 !! l = None ∨ owned l.
(** New caches that no sequence has yet. *)
Record spare (ls : list loc) (b : Backend) : Prop := {
  sp_touches : touches b;
  sp_new : ∀ l, l ∈ ls → tb_caches b0 !! l = None ∧ is_Some (tb_caches b !! l);
  sp_free : ∀ l id s, l ∈ ls → tb_sequences b !! id = Some s → sc_cache s ≠ l;
  sp_distinct : NoDup ls
}.

Lemma touches_start : well_formed b0 → touches b0.
Proof. intros Hwf. split; [done..|]. intros id s Hid Hs. right. by exists id, s. Qed.
Lemma spare_nil b : touches b → spare [] b.
Proof. intros Ht. split; [done| | |constructor]; by intros l ?%not_elem_of_nil || (intros l id s ?%not_elem_of_nil). Qed.

(** A computation that touches neither sequences nor caches. *)
Definition quiet {A} (c : M A) : Prop := ∀ b,
  tb_sequences (c b).2 = tb_sequences b ∧ tb_caches (c b).2 = tb_caches b ∧
  (worker_ok (tb_worker b) → worker_ok (tb_worker (c b).2)).
Lemma quiet_ret {A} (a : A) : quiet (mret (M := M) a).
Proof. by intros b. Qed.
Lemma quiet_raise {A} e : quiet (raise (A := A) e).
Proof. by intros b. Qed.
Lemma quiet_gets {A} (f : Backend → A) : quiet (gets f).
Proof. by intros b. Qed.
Lemma quiet_bind {A C} (m : M A) (k : A → M C) : quiet m → (∀ a, quiet (k a)) → quiet (m ≫= k).
Proof.
  intros Hm Hk b. specialize (Hm b) as (H1' & H2' & H3'). unfold mbind, M_bind.
  destruct (m b) as [[e|a] b1]; [done|]. cbn in *. destruct (Hk a b1) as (-> & -> & H4'). split_and!; auto.
Qed.
Lemma quiet_when c e : quiet (raise_when c e).
Proof. by destruct c. Qed.
Lemma quiet_lift {A} (r : res A) : quiet (lift_res r).
Proof. by destruct r. Qed.
Lemma quiet_choose l p : quiet (choose_token l p).
Proof. intros b. unfold choose_token. destruct (select l p (tb_random b)) as [[t|e] r]; by cbn. Qed.
Lemma ensure_loaded_ok w : worker_ok w → worker_ok (ensure_loaded w).2.
Proof.
  intros Hw. destruct (Hw) as [H1' H2' H3' H4' H5' H6']. unfold ensure_loaded.
  rewrite (bind_eq _ _ w w w) by done. destruct (iw_model w) as [m|] eqn:Em; [exact Hw|].
  rewrite (bind_eq _ _ w tt (w <| iw_loads ::= Datatypes.S |>)) by done. rewrite H1', H2', H3', H4'.
  destruct (InferenceWorker.load_model _ _ _ _ _) as [[t m]|e] eqn:El; cbn.
  - apply pinned in El as [-> ->]. split; cbn; try done; by intros ? [= <-].
  - destruct Hw. by split.
Qed.
Lemma quiet_load : quiet load_model.
Proof.
  apply quiet_bind; [apply quiet_bind; [apply quiet_gets|intros; apply quiet_when]|]. intros _.
  apply quiet_bind; [apply quiet_gets|]. intros w. apply quiet_bind; [apply quiet_when|]. intros _ b.
  unfold TokenBackend.on_worker, warmup. destruct (ensure_loaded (tb_worker b)) as [r w'] eqn:E.
  split_and!; [done..|]. intros Hw. cbn. apply ensure_loaded_ok in Hw. by rewrite E in Hw.
Qed.
Lemma quiet_active : quiet require_active.
Proof. apply quiet_bind; [apply quiet_gets|]. intros. apply quiet_when. Qed.
Lemma quiet_new id : quiet (require_new id).
Proof. apply quiet_bind; [apply quiet_gets|]. intros. apply quiet_when. Qed.
Lemma quiet_tokenizer m : quiet (current_tokenizer m).
Proof. apply quiet_bind; [apply quiet_gets|]. intros w. case_head; [apply quiet_ret|apply quiet_raise]. Qed.
Lemma quiet_model m : quiet (current_model m).
Proof. apply quiet_bind; [apply quiet_gets|]. intros w. case_head; [apply quiet_ret|apply quiet_raise]. Qed.
Lemma quiet_sequence id : quiet (sequence_of id).
Proof. apply quiet_bind; [apply quiet_gets|]. intros w. case_head; [apply quiet_ret|apply quiet_raise]. Qed.
Lemma quiet_sequences rs : quiet (sequences_of rs).
Proof.
  induction rs as [|[[id p] n] rs IH]; [apply quiet_ret|]. cbn. apply quiet_bind; [apply quiet_gets|]. intros w.
  case_head; [|apply quiet_raise]. apply quiet_bind; [exact IH|]. intros. apply quiet_ret.
Qed.
Lemma quiet_length l : quiet (cache_length_at l).
Proof. apply quiet_bind; [apply quiet_gets|]. intros. apply quiet_ret. Qed.
Lemma quiet_token t n l : quiet (generated_token t n l).
Proof.
  apply quiet_bind; [apply quiet_tokenizer|]. intros. apply quiet_bind; [apply quiet_length|]. intros. apply quiet_ret.
Qed.

(** ** The rules of [touches] *)

Lemma touches_same b b' :
  tb_sequences b' = tb_sequences b → tb_caches b' = tb_caches b → worker_ok (tb_worker b') →
  touches b → touches b'.
Proof.
  intros Es Ec Hw [Hwf Ho Hc Hm]. split; rewrite ?Es, ?Ec; try done. destruct Hwf. by split; rewrite ?Es, ?Ec.
Qed.
#[local] Abbreviation run P c Q := (hoare P c Q (λ _, touches)).
Lemma run_quiet {A} (c : M A) ls : quiet c → run (spare ls) c (λ _, spare ls).
Proof.
  intros Hq b [Ht Hn Hf Hd]. specialize (Hq b) as (Es & Ec & Hw).
  assert (touches (c b).2) as Ht' by (eapply touches_same; try done; apply Hw, wf_worker, to_wf, Ht).
  destruct (c b) as [[e|a] b']; cbn in *; [done|]. split; rewrite ?Es, ?Ec; done.
Qed.
Lemma run_new c ls : run (spare ls) (new_cache c) (λ l, spare (l :: ls)).
Proof.
  intros b [Ht Hn Hf Hd]. unfold new_cache. set (l := fresh (dom (tb_caches b))).
  assert (tb_caches b !! l = None) as Hl by (apply not_elem_of_dom, is_fresh).
  assert (tb_caches b0 !! l = None) as Hl0.
  { apply eq_None_not_Some. intros [x Hx]%(to_grows _ Ht). congruence. }
  assert (∀ l', is_Some (tb_caches b !! l') → l' ≠ l) as Hne by (intros l' [x Hx] ->; congruence).
  assert (∀ l', is_Some (tb_caches b !! l') → is_Some (<[l := c]> (tb_caches b) !! l')) as Hs.
  { intros l' Hl'. rewrite lookup_insert_ne; [done|]. intros <-. by apply (Hne l). }
  split; cbn.
  - destruct Ht as [[Hw Ha Hx] Ho Hc Hg Hm]. split; cbn; try done.
    + split; cbn; eauto.
    + intros l' c' Hl' Hno. rewrite lookup_insert_ne; [by apply Hc|]. intros <-. congruence.
    + intros l' Hl'%Hg. by apply Hs.
  - intros l' [->|Hl']%elem_of_cons; [by rewrite lookup_insert_eq|]. destruct (Hn l' Hl') as [? ?]. auto.
  - intros l' id s [->|Hl']%elem_of_cons Hid; [|by eapply Hf]. apply Hne. by eapply (wf_alive _ (to_wf _ Ht)).
  - apply NoDup_cons. split; [|done]. intros Hin. destruct (Hn l Hin) as [_ Hx]. by apply (Hne l Hx).
Qed.
Lemma run_call m ii mm l p ls :
  writable l → run (spare ls) (call_model m ii mm l p) (λ _, spare ls).
Proof.
  intros Hor b [Ht Hn Hf Hd]. unfold call_model.
  destruct (forward m ii mm (cache_at l b) p) as [out c].
  assert (∀ l', is_Some (tb_caches b !! l') → is_Some (<[l := c]> (tb_caches b) !! l')) as Hs.
  { intros l' Hl'. rewrite lookup_insert. by case_decide. }
  assert (spare ls (b <| tb_caches ::= <[l := c]> |>)) as Hs'.
  { split; cbn; [|by intros l' [? ?]%Hn; auto|done..].
    destruct Ht as [[Hw Ha Hx] Ho Hc Hg Hm]. split; cbn; try done.
    + split; cbn; eauto.
    + intros l' c' Hl' Hno. rewrite lookup_insert_ne; [by apply Hc|]. intros <-. destruct Hor as [?|?]; [congruence|done].
    + intros l' Hl'%Hg. by apply Hs. }
  destruct out as [out|e]; [exact Hs'|]. cbn. apply Hs'.
Qed.
(** A sequence takes a spare cache. *)
Lemma spare_insert id s ls b :
  id ∈ ids → spare (sc_cache s :: ls) b → spare ls (b <| tb_sequences ::= <[id := s]> |>).
Proof.
  intros Hid [Ht Hn Hf Hd]. destruct (Hn (sc_cache s)) as [Hl0 Hl]; [by left|].
  apply NoDup_cons in Hd as [Hnin Hd]. split; cbn.
  - destruct Ht as [[Hw Ha Hx] Ho Hc Hg Hm]. split; cbn; try done.
    + split; cbn; [done| |].
      * intros id' s' [[-> <-]|[_ Hs']]%lookup_insert_Some; [done|by eapply Ha].
      * intros i j s1 s2 [[-> <-]|[Hi H1']]%lookup_insert_Some [[-> <-]|[Hj H2']]%lookup_insert_Some E; [done| | |by eapply Hx].
        -- exfalso. by eapply Hf; [left|exact H2'|].
        -- exfalso. by eapply Hf; [left|exact H1'|].
    + intros id' Hid'. rewrite lookup_insert_ne; [by apply Ho|]. by intros ->.
    + intros id' s' Hid' [[-> <-]|[_ Hs']]%lookup_insert_Some; [by left|by eapply Hm].
  - intros l Hin. apply Hn. by right.
  - intros l id' s' Hin [[-> <-]|[_ Hs']]%lookup_insert_Some; [by intros <-|]. eapply Hf; [by right|done].
  - done.
Qed.
Lemma run_set id s ls :
  id ∈ ids → run (spare (sc_cache s :: ls)) (set_sequence id s) (λ _, spare ls).
Proof. intros Hid b Hb. by apply spare_insert. Qed.
(** A sequence is updated and keeps its cache. *)
Lemma run_update id f ls :
  id ∈ ids → (∀ s, sc_cache (f s) = sc_cache s) → run (spare ls) (update_sequence id f) (λ _, spare ls).
Proof.
  intros Hid Hf b [Ht Hn Hfr Hd].
  assert (∀ id' s', alter f id (tb_sequences b) !! id' = Some s' →
    ∃ s, tb_sequences b !! id' = Some s ∧ sc_cache s' = sc_cache s) as Ha'.
  { intros id' s' E. destruct (decide (id' = id)) as [->|Hne].
    - rewrite lookup_alter_eq in E. destruct (tb_sequences b !! id) as [s|]; [|done]. injection E as <-. by exists s.
    - rewrite lookup_alter_ne in E by done. by exists s'. }
  split; cbn; [|done| |done].
  - destruct Ht as [[Hw Ha Hx] Ho Hc Hg Hm]. split; cbn; try done.
    + split; cbn; [done| |].
      * intros id' s' (s & Hs & ->)%Ha'. by eapply Ha.
      * intros i j s1 s2 (t1 & H1' & ->)%Ha' (t2 & H2' & ->)%Ha'. by apply Hx.
    + intros id' Hid'. rewrite lookup_alter_ne; [by apply Ho|]. by intros ->.
    + intros id' s' Hid' (s & Hs & ->)%Ha'. by eapply Hm.
  - intros l id' s' Hin (s & Hs & ->)%Ha'. by eapply Hfr.
Qed.
Lemma spare_drop l ls b : spare (l :: ls) b → spare ls b.
Proof.
  intros [Ht Hn Hf Hd]. apply NoDup_cons in Hd as [_ Hd]. split; [done| | |done].
  - intros l' Hl'. apply Hn. by right.
  - intros l' id s Hl'. apply Hf. by right.
Qed.
(** A sequence is updated and takes a spare cache, if it is there. *)
Lemma run_replace id f l ls :
  id ∈ ids → (∀ s, sc_cache (f s) = l) → run (spare (l :: ls)) (update_sequence id f) (λ _, spare ls).
Proof.
  intros Hid Hf b Hb. unfold update_sequence, modify. destruct (tb_sequences b !! id) as [s|] eqn:E.
  - replace (b <| tb_sequences ::= alter f id |>) with (b <| tb_sequences ::= <[id := f s]> |>).
    { apply spare_insert; [done|]. by rewrite Hf. }
    unfold field_update. cbn. f_equal. apply map_eq. intros i. destruct (decide (i = id)) as [->|Hne].
    + by rewrite lookup_insert_eq, lookup_alter_eq, E.
    + by rewrite lookup_insert_ne, lookup_alter_ne.
  - replace (b <| tb_sequences ::= alter f id |>) with b; [by eapply spare_drop|].
    destruct b. unfold field_update. cbn in *. f_equal. symmetry. by apply alter_id_None || (apply map_eq; intros i;
      destruct (decide (i = id)) as [->|Hne]; [rewrite lookup_alter_eq, E|rewrite lookup_alter_ne]).
Qed.

(** ** The calls touch their own sequences alone *)

Lemma spare_writable l ls b : spare (l :: ls) b → writable l.
Proof. intros Hs. left. by apply (sp_new _ _ Hs); left. Qed.
Lemma run_call_spare m ii mm l p ls : run (spare (l :: ls)) (call_model m ii mm l p) (λ _, spare (l :: ls)).
Proof. intros b Hb. by apply run_call; [eapply spare_writable|]. Qed.
Lemma run_bind {A C} (m : M A) (k : A → M C) P (Q : A → Backend → Prop) (Q' : C → Backend → Prop) :
  run P m Q → (∀ a, run (Q a) (k a) Q') → run P (m ≫= k) Q'.
Proof. apply hoare_bind. Qed.
Lemma run_then {A C} (m : M A) (k : A → M C) ls (Q : C → Backend → Prop) :
  quiet m → (∀ a, run (spare ls) (k a) Q) → run (spare ls) (m ≫= k) Q.
Proof. intros Hm Hk. by eapply run_bind; [apply run_quiet|]. Qed.
Lemma run_done {A} (c : M A) ls : quiet c → run (spare ls) c (λ _, touches).
Proof. intros Hc. eapply hoare_post; [by apply run_quiet|]. by intros a b [? ? ? ?]. Qed.
Lemma run_fails {A} (e : PyErr) ls (Q : A → Backend → Prop) : run (spare ls) (raise e) Q.
Proof. intros b Hb. apply Hb. Qed.
(** A sequence that is read has a writable cache. *)
Lemma run_sequence {A} id (k : SequenceCache → M A) ls (Q : A → Backend → Prop) :
  id ∈ ids → (∀ s, writable (sc_cache s) → run (spare ls) (k s) Q) → run (spare ls) (sequence_of id ≫= k) Q.
Proof.
  intros Hid Hk b Hb. unfold sequence_of. unfold mbind, M_bind. cbn.
  destruct (tb_sequences b !! id) as [s|] eqn:E; cbn; [|apply Hb].
  apply Hk; [|exact Hb]. by apply (to_mine _ (sp_touches _ _ Hb) id).
Qed.
Lemma run_lift {A C} (r : res A) (k : A → M C) ls (Q : C → Backend → Prop) :
  (∀ a, r = Ok a → run (spare ls) (k a) Q) → run (spare ls) (lift_res r ≫= k) Q.
Proof. intros Hk b Hb. destruct r as [a|e]; [by apply Hk|apply Hb]. Qed.

Create HintDb quiet.
#[local] Hint Resolve quiet_ret quiet_raise quiet_gets quiet_when quiet_lift quiet_choose quiet_load quiet_active
  quiet_new quiet_tokenizer quiet_model quiet_sequence quiet_sequences quiet_length quiet_token : quiet.
#[local] Ltac quietly := apply run_then; [solve [auto with quiet]|intros ?].

Lemma run_deepcopy l ls : run (spare ls) (deepcopy l) (λ l', spare (l' :: ls)).
Proof. quietly. apply run_new. Qed.
Lemma run_restore_cache id sn t : id ∈ ids → run (spare []) (restore_prefix_cache id sn t) (λ _, spare []).
Proof.
  intros Hid. eapply run_bind; [apply run_deepcopy|]. intros l. cbn beta.
  eapply run_bind; [by eapply (run_set id (mkSequenceCache l _ _ _ _))|]. intros []. by apply run_quiet, quiet_ret.
Qed.
Lemma run_restore id sn p : id ∈ ids → run (spare []) (restore_prefix id sn p) (λ _, spare []).
Proof.
  intros Hid. do 3 quietly. eapply run_bind; [by apply run_restore_cache|]. intros l. cbn beta.
  apply run_quiet. auto with quiet.
Qed.
Lemma run_snapshot id : run (spare []) (snapshot_prefix id) (λ _, touches).
Proof.
  quietly. destruct (sc_next_token_logits _); [|apply run_fails].
  eapply run_bind; [apply run_deepcopy|]. intros l'. intros b Hb. apply Hb.
Qed.
Lemma run_prefill id p s : id ∈ ids → run (spare []) (prefill id p s) (λ _, touches).
Proof.
  intros Hid. do 5 quietly. eapply run_bind; [apply run_new|]. intros l. cbn beta.
  eapply run_bind; [apply run_call_spare|]. intros out. cbn beta. quietly. eapply run_bind; [by eapply (run_set id (mkSequenceCache l _ _ _ _))|].
  intros []. apply run_done. auto with quiet.
Qed.
(** The cache [l] is spare, or the sequence [id] has it. *)
Definition holder (id : string) (l : loc) (b : Backend) : Prop :=
  spare [l] b ∨ spare [] b ∧ ∃ s, tb_sequences b !! id = Some s ∧ sc_cache s = l.
Lemma holder_writable id l b : id ∈ ids → holder id l b → writable l.
Proof.
  intros Hid [Hs|[Hs (s & E & <-)]]; [by eapply spare_writable|]. by eapply (to_mine _ (sp_touches _ _ Hs)).
Qed.
Lemma holder_call id m ii mm l p : id ∈ ids → run (holder id l) (call_model m ii mm l p) (λ _, holder id l).
Proof.
  intros Hid b Hb. pose proof (holder_writable id l b Hid Hb) as Hw. destruct Hb as [Hb|[Hb Hs]].
  - pose proof (run_call m ii mm l p _ Hw b Hb) as Hx. destruct (call_model m ii mm l p b) as [[e|out] b']; [done|by left].
  - pose proof (run_call m ii mm l p _ Hw b Hb) as Hx.
    assert (tb_sequences (call_model m ii mm l p b).2 = tb_sequences b) as Es.
    { unfold call_model. destruct (forward m ii mm (cache_at l b) p) as [[out|e] c]; done. }
    destruct (call_model m ii mm l p b) as [[e|out] b']; [done|]. right. cbn in Es. by rewrite Es.
Qed.
Lemma holder_set id s : id ∈ ids → run (holder id (sc_cache s)) (set_sequence id s) (λ _, spare []).
Proof.
  intros Hid b [Hb|[Hb (s0 & Es & Ec)]]; [by apply (run_set id s [])|].
  replace (set_sequence id s b) with (update_sequence id (λ s0, s <| sc_cache := sc_cache s0 |>) b).
  - by apply (run_update id).
  - unfold set_sequence, update_sequence, modify, field_update. cbn. do 2 f_equal. apply map_eq. intros i.
    destruct (decide (i = id)) as [->|Hne].
    + rewrite lookup_insert_eq, lookup_alter_eq, Es. cbn. rewrite Ec. by destruct s.
    + by rewrite lookup_insert_ne, lookup_alter_ne.
Qed.
Lemma run_chunk_start id o ii :
  run (λ b, spare [] b ∧ tb_sequences b !! id = o) (chunk_start o ii) (λ r, holder id r.2).
Proof.
  intros b [Hb Ho]. unfold chunk_start. destruct o as [s|].
  - unfold mbind, M_bind. destruct (cat_columns _ _) as [mask|e]; [|apply Hb]. cbn. right. split; [done|]. by exists s.
  - pose proof (run_new dynamic_cache [] b Hb) as Hx. unfold mbind, M_bind.
    destruct (new_cache dynamic_cache b) as [[e|l] b']; [done|]. by left.
Qed.
Lemma run_chunk_token id s final l out : id ∈ ids → run (spare []) (chunk_token id s final l out) (λ _, touches).
Proof.
  intros Hid. unfold chunk_token. destruct final; [|apply run_done, quiet_ret]. cbn [negb]. quietly.
  eapply run_bind; [by apply run_update|]. intros []. quietly. apply run_done, quiet_ret.
Qed.
Lemma run_chunk id p s final : id ∈ ids → run (spare []) (prefill_chunk id p s final) (λ _, touches).
Proof.
  intros Hid. do 3 quietly.
  eapply run_bind with (Q := λ o b, spare [] b ∧ tb_sequences b !! id = o); [by intros b Hb|]. intros o.
  eapply run_bind with (Q := λ _ b, spare [] b ∧ tb_sequences b !! id = o).
  { intros b [Hb Ho]. destruct (torch_tensor _) as [t|e]; [by split|apply Hb]. }
  intros ii. eapply run_bind; [apply run_chunk_start|]. intros [[mask start] l]. cbn [snd].
  eapply run_bind; [by apply holder_call|]. intros out. cbn beta.
  eapply run_bind; [by apply (holder_set id (mkSequenceCache l _ _ _ _))|]. intros []. by apply run_chunk_token.
Qed.
Lemma run_resume id sn p s : id ∈ ids → run (spare []) (resume_prefix id sn p s) (λ _, touches).
Proof.
  intros Hid. do 2 quietly. case_bool_decide.
  { eapply hoare_post; [by apply run_restore|]. by intros ? ? [? ? ? ?]. }
  eapply run_bind; [by apply run_restore_cache|]. intros l0. cbn beta.
  intros b Hb. pose proof (run_chunk id p s true Hid b Hb) as Hx. unfold mbind, M_bind.
  destruct (prefill_chunk id p s true b) as [[e|[t|]] b']; done.
Qed.
Lemma run_decode id s n : id ∈ ids → run (spare []) (decode id s n) (λ _, touches).
Proof.
  intros Hid. quietly. apply run_sequence; [done|]. intros sq Hw. do 3 quietly.
  eapply run_bind; [by apply run_update|]. intros []. eapply run_bind; [by apply run_call|]. intros out. cbn beta.
  eapply run_bind; [by apply run_update|]. intros []. quietly. eapply run_bind; [by apply run_update|]. intros [].
  apply run_done. auto with quiet.
Qed.
Lemma spare_perm ls ls' b : ls ≡ₚ ls' → spare ls b → spare ls' b.
Proof.
  intros Hp [Ht Hn Hf Hd]. split; [done| | |by rewrite <- Hp].
  - intros l. rewrite <- Hp. apply Hn.
  - intros l id s. rewrite <- Hp. apply Hf.
Qed.
Lemma run_new_caches cs ls : run (spare ls) (new_caches cs) (λ ls', spare (ls' ++ ls)).
Proof.
  revert ls. induction cs as [|c cs IH]; intros ls; [by apply hoare_ret|]. cbn [new_caches].
  eapply run_bind; [apply run_new|]. intros l. cbn beta. eapply run_bind; [apply IH|]. intros ls'. cbn beta.
  apply hoare_ret. intros b. apply spare_perm. cbn. by rewrite Permutation_middle.
Qed.
Lemma zip_strict_inv {A C} (l : list A) (k : list C) p : zip_strict l k = Ok p → p = zip l k ∧ length l = length k.
Proof.
  revert k p. induction l as [|x l IH]; intros [|y k] p; try done; [by intros [= <-]|]. cbn. intros E.
  apply bind_Ok_inv in E as (q & [-> E]%IH & [= <-]). cbn. by rewrite E.
Qed.
Lemma run_prefill_rows out mask position row its acc :
  (∀ x, x ∈ its → request_id_of x.1 ∈ ids) →
  run (spare its.*2) (prefill_rows out mask position row its acc) (λ _, touches).
Proof.
  revert row acc. induction its as [|[[[id p] s] l] its IH]; intros row acc Hids; [apply run_done, quiet_ret|].
  cbn [prefill_rows fmap list_fmap snd]. quietly.
  eapply run_bind; [eapply (run_set id (mkSequenceCache l _ _ _ _)); apply (Hids (id, p, s, l)); by left|].
  intros []. quietly. apply IH. intros x Hx. apply Hids. by right.
Qed.
Lemma run_decode_rows out mask row its acc :
  (∀ x : DecodeRequest * loc, x ∈ its → x.1.1.1 ∈ ids) →
  run (spare its.*2) (decode_rows out mask row its acc) (λ _, touches).
Proof.
  revert row acc. induction its as [|[[[id s] n] l] its IH]; intros row acc Hids; [apply run_done, quiet_ret|].
  cbn [decode_rows fmap list_fmap snd]. quietly.
  eapply run_bind; [eapply (run_replace id _ l); [apply (Hids (id, s, n, l)); by left|done]|]. intros []. quietly.
  apply IH. intros x Hx. apply Hids. by right.
Qed.
(** The rows of a split cache get spare caches, one each. *)
Lemma run_rows {X} (f : X → string) (rs : list X) (l : loc) (rows : list (X * loc) → M (gmap string GeneratedToken)) ls :
  (∀ r, r ∈ rs → f r ∈ ids) →
  (∀ its, (∀ x, x ∈ its → f x.1 ∈ ids) → run (spare its.*2) (rows its) (λ _, touches)) →
  run (spare ls)
    (whole ← gets (cache_at l); caches ← new_caches (batch_split whole (length rs));
     items ← lift_res (zip_strict rs caches); tokens ← rows items; mret (M := M) (mkBatchResult tokens ∅))
    (λ _, touches).
Proof.
  intros Hf Hr. quietly. eapply run_bind; [apply run_new_caches|]. intros cs. cbn beta.
  apply run_lift. intros its [-> Hlen]%zip_strict_inv.
  eapply run_bind; [|intros ts b Hb; exact Hb]. eapply hoare_conseq; [apply (Hr (zip rs cs))| |done|done].
  - intros [x c] Hx%elem_of_zip_l. by apply Hf.
  - intros b Hb. rewrite snd_zip by lia. destruct Hb as [Ht Hn Hfr Hd].
    apply NoDup_app in Hd as (Hd & _ & _). split; [done| | |done].
    + intros l' Hl'. apply Hn, elem_of_app. by left.
    + intros l' id s Hl'. apply Hfr, elem_of_app. by left.
Qed.
Lemma run_prefill_many rs :
  (∀ r, r ∈ rs → request_id_of r ∈ ids) → run (spare []) (prefill_many rs) (λ _, touches).
Proof.
  intros Hids. unfold prefill_many. do 7 quietly. destruct (pad_token_id _); [|apply run_fails]. do 2 quietly.
  eapply run_bind; [apply run_new|]. intros l. cbn beta. eapply run_bind; [apply run_call_spare|]. intros out.
  cbn beta. apply (run_rows request_id_of); [done|]. intros its. apply run_prefill_rows.
Qed.
Lemma run_prefill_batch rs :
  (∀ r, r ∈ rs → request_id_of r ∈ ids) → run (spare []) (prefill_batch rs) (λ _, touches).
Proof.
  intros Hids. destruct rs as [|[[id p] s] [|r2 rs]]; [apply run_done, quiet_ret| |by apply run_prefill_many].
  eapply run_bind; [apply run_prefill; apply (Hids (id, p, s)); by left|]. intros t b Hb. exact Hb.
Qed.
Lemma run_decode_many rs :
  (∀ r : DecodeRequest, r ∈ rs → r.1.1 ∈ ids) → run (spare []) (decode_many rs) (λ _, touches).
Proof.
  intros Hids. unfold decode_many. do 8 quietly. eapply run_bind; [apply run_new|]. intros l. cbn beta.
  destruct a as [|first rest]; [apply run_fails|]. eapply run_bind; [apply run_call_spare|]. intros out. cbn beta.
  apply (run_rows (λ r : DecodeRequest, r.1.1)); [done|]. intros its. apply run_decode_rows.
Qed.
Lemma run_decode_batch rs :
  (∀ r : DecodeRequest, r ∈ rs → r.1.1 ∈ ids) → run (spare []) (decode_batch rs) (λ _, touches).
Proof.
  intros Hids. destruct rs as [|[[id s] n] [|r2 rs]]; [apply run_done, quiet_ret| |by apply run_decode_many].
  eapply run_bind; [apply run_decode; apply (Hids (id, s, n)); by left|]. intros t b Hb. exact Hb.
Qed.
(** Forgetting sequences. *)
Lemma run_release id ls : id ∈ ids → run (spare ls) (release_sequence id) (λ _, spare ls).
Proof.
  intros Hid b [[[Hw Ha Hx] Ho Hc Hg Hm] Hn Hf Hd]. split; cbn; [|done| |done].
  - split; cbn; try done.
    + split; cbn; [done| |].
      * intros i s [_ Hs]%lookup_delete_Some. by eapply Ha.
      * intros i j s t [_ Hi]%lookup_delete_Some [_ Hj]%lookup_delete_Some. by eapply Hx.
    + intros i Hi. rewrite lookup_delete_ne; [by apply Ho|]. by intros ->.
    + intros i s Hi [_ Hs]%lookup_delete_Some. by eapply Hm.
  - intros l i s Hl [_ Hs]%lookup_delete_Some. by eapply Hf.
Qed.
Lemma unload_ok w : worker_ok w → worker_ok (unload w).2.
Proof. intros [? ? ? ? ? ?]. by split. Qed.
Lemma quiet_unload : quiet (TokenBackend.on_worker (R := R) unload).
Proof. intros b. split_and!; [done..|]. apply unload_ok. Qed.
End frame.

(** ** What a call gives *)

(** The sequence holds the tokens [ts]; logits that it keeps are those after [ts]. *)
Definition sequence_ok (b : Backend) (sq : SequenceCache) (p : Z) (ts : list Z) : Prop :=
  holds (cache_at (sc_cache sq) b) (sc_attention_mask sq) (sc_cache_position sq) p ts ∧
  ∀ lg, sc_next_token_logits sq = Some lg → gives md (numbered p ts) lg.
(** The sampler chooses [t] on logits that the model gives after [ts], the first of them at position [p]. *)
Definition chosen (p : Z) (ts : list Z) (params : SamplingParameters) (t : Z) : Prop :=
  ∃ lg r r', gives md (numbered p ts) lg ∧ select lg params r = (Ok t, r').
Lemma chosen_on p ts params t lg :
  gives md (numbered p ts) lg → (∃ r r', select lg params r = (Ok t, r')) → chosen p ts params t.
Proof. intros Hg (r & r' & E). by exists lg, r, r'. Qed.
(** What the reply says of the token. *)
Definition token_ok (p : Z) (ts : list Z) (params : SamplingParameters) (index : Z) (t : GeneratedToken) : Prop :=
  chosen p ts params (gt_token_id t) ∧
  gt_text t = decode_raw tok [gt_token_id t] ∧ gt_index t = index ∧ gt_cache_tokens t = p + Z.of_nat (length ts).
(** The sequence [id] has processed [ts] and chosen [t]. *)
Definition served (b : Backend) (id : string) (p : Z) (ts : list Z) (params : SamplingParameters) (index : Z)
  (t : GeneratedToken) : Prop :=
  ∃ sq, tb_sequences b !! id = Some sq ∧ sequence_ok b sq p ts ∧ sc_last_token_id sq = gt_token_id t ∧
        token_ok p ts params index t.

Lemma quiet_inv {A} (c : M A) b a b' :
  quiet c → worker_ok (tb_worker b) → c b = (inr a, b') →
  tb_sequences b' = tb_sequences b ∧ tb_caches b' = tb_caches b ∧ worker_ok (tb_worker b').
Proof. intros Hq Hw E. specialize (Hq b) as (Es & Ec & Hk). rewrite E in *. auto. Qed.
Lemma lift_res_inv {A} (r : res A) b a b' : lift_res (R := R) r b = (inr a, b') → r = Ok a ∧ b' = b.
Proof. destruct r; [|done]. by intros [= -> ->]. Qed.
Lemma choose_inv l params (b : Backend) t b' : choose_token l params b = (inr t, b') →
  (∃ r r', select l params r = (Ok t, r')) ∧ tb_sequences b' = tb_sequences b ∧ tb_caches b' = tb_caches b ∧
  tb_worker b' = tb_worker b.
Proof.
  unfold choose_token. destruct (select l params (tb_random b)) as [[t'|e] r] eqn:E; [|done].
  intros [= -> <-]. split_and!; eauto.
Qed.
Lemma call_inv m ii mm l p (b : Backend) out b' : call_model m ii mm l p b = (inr out, b') →
  ∃ c, forward m ii mm (cache_at l b) p = (Ok out, c) ∧ b' = b <| tb_caches ::= <[l := c]> |>.
Proof.
  unfold call_model. destruct (forward m ii mm (cache_at l b) p) as [[o|e] c] eqn:E; [|done].
  intros [= -> <-]. by exists c.
Qed.
Lemma model_inv msg (b : Backend) m b' : worker_ok (tb_worker b) → current_model msg b = (inr m, b') → m = md ∧ b' = b.
Proof.
  intros Hw E. apply bind_inr_inv in E as (w & b1 & [= <- <-] & E).
  destruct (iw_model (tb_worker b)) as [m'|] eqn:Em; [|done]. injection E as -> ->. split; [|done].
  by apply (wo_model _ Hw).
Qed.
Lemma generated_inv t n l (b : Backend) g b' : worker_ok (tb_worker b) → generated_token t n l b = (inr g, b') →
  b' = b ∧ g = mkToken t (decode_raw tok [t]) n (cache_length (cache_at l b)).
Proof.
  intros Hw E. apply bind_inr_inv in E as (tk & b1 & Et & E).
  apply bind_inr_inv in Et as (w & b2 & [= <- <-] & Et).
  destruct (iw_tokenizer (tb_worker b)) as [t'|] eqn:Em; [|done]. injection Et as -> ->.
  apply (wo_tokenizer _ Hw) in Em as ->. apply bind_inr_inv in E as (k & b2 & Ek & [= <- <-]).
  by apply bind_inr_inv in Ek as (c & b3 & [= <- <-] & [= <- <-]).
Qed.
Lemma cache_at_insert l c (b : Backend) : cache_at l (b <| tb_caches ::= <[l := c]> |>) = c.
Proof. unfold cache_at. cbn. by rewrite lookup_insert_eq. Qed.
Lemma cache_at_same l (b b' : Backend) : tb_caches b' = tb_caches b → cache_at l b' = cache_at l b.
Proof. unfold cache_at. by intros ->. Qed.
Lemma sequence_ok_same b b' sq p ts : tb_caches b' = tb_caches b → sequence_ok b sq p ts → sequence_ok b' sq p ts.
Proof. intros E [H1' H2']. split; [|done]. by rewrite (cache_at_same _ b b'). Qed.
(** A cache that holds [ts] after [p] slots of padding has that many slots. *)
Lemma holds_length c mask position p ts : holds c mask position p ts → cache_length c = p + Z.of_nat (length ts).
Proof.
  intros (h & Hr & [_ Hl] & _). rewrite <- Hl. apply (cache_length_spec c [h]); [done..|]. by constructor.
Qed.
(** The last steps of every call that gives a token. *)
Lemma served_end b id sq p ts params index t l g b' :
  generated_token t index l b = (inr g, b') → worker_ok (tb_worker b) → tb_sequences b !! id = Some sq →
  sc_cache sq = l → sequence_ok b sq p ts → sc_last_token_id sq = t →
  chosen p ts params t → b' = b ∧ served b' id p ts params index g.
Proof.
  intros E Hw Hs <- Hok <- Hsel. apply generated_inv in E as [-> ->]; [|done]. split; [done|]. exists sq. split_and!; try done.
  split_and!; try done. cbn. by eapply holds_length, Hok.
Qed.

(** A new row after one call of the model. *)
Lemma holds_extended c h p ts new ii mm position out c' :
  represents c [h] → holds_row h p ts → new ≠ [] → tolist ii = [new] →
  tolist mm = [mask_of h ++ replicate (length new) 1] →
  items position = seqZ (Z.of_nat (length h)) (Z.of_nat (length new)) →
  forward md ii mm c position = (Ok out, c') →
  gives md (numbered p (ts ++ new)) (last_logits out) ∧
  ∀ position', items position' = [Z.of_nat (length h) + Z.of_nat (length new)] → holds c' mm position' p (ts ++ new).
Proof.
  intros Hr Hh Hne Hii Hmm Hpos E. destruct (forward_one md c h p ts new ii mm position out c') as (Hl & h' & Hr' & Hh' & Em);
    try done. split; [done|]. intros position' Hp. exists h'. split_and!; [done|done| |].
  - by rewrite Hmm, Em.
  - rewrite Hp. f_equal. apply (f_equal length) in Em. rewrite length_app, !mask_of_length, length_replicate in Em. lia.
Qed.
(** [last_plus_one] of the positions of a call is the position after them. *)
Lemma next_position a n v : (0 < n)%nat → items v = seqZ a (Z.of_nat n) → items (last_plus_one v) = [a + Z.of_nat n].
Proof.
  intros Hn E. destruct n as [|n]; [lia|]. rewrite Nat2Z.inj_succ, <- Z.add_1_r in E |- *.
  rewrite seqZ_app in E by lia. cbn in E. rewrite (last_plus_one_spec v _ _ E). f_equal. lia.
Qed.
(** Tensors of one row. *)
Lemma one_row l ii : torch_tensor [l] = Ok ii →
  tolist ii = [l] ∧ width ii = Z.of_nat (length l) ∧ tolist (torch_ones_like ii) = [replicate (length l) 1].
Proof.
  intros E. destruct (torch_tensor_spec [l] (length l)) as (t & E' & Et); [by repeat constructor|].
  assert (t = ii) as -> by congruence. split_and!; [done| |].
  - apply width_spec; rewrite Et; [done|by repeat constructor].
  - rewrite ones_like_spec, Et. done.
Qed.

Lemma prefill_served b id prompt params g b' :
  well_formed b → tp_token_ids prompt ≠ [] → prefill id prompt params b = (inr g, b') →
  served b' id 0 (tp_token_ids prompt) params 0 g.
Proof.
  intros Hwf Hne E. unfold prefill in E. pose proof (wf_worker _ Hwf) as Hw. set (ts := tp_token_ids prompt) in *.
  apply bind_inr_inv in E as ([] & b1 & (_ & _ & Hw1)%(quiet_inv _ _ _ _ quiet_active Hw) & E).
  apply bind_inr_inv in E as ([] & b2 & (_ & _ & Hw2)%(quiet_inv _ _ _ _ (quiet_new _) Hw1) & E).
  apply bind_inr_inv in E as ([] & b3 & (_ & _ & Hw3)%(quiet_inv _ _ _ _ quiet_load Hw2) & E).
  apply bind_inr_inv in E as (m & b4 & [-> ->]%model_inv & E); [|done].
  apply bind_inr_inv in E as (ii & b4 & [Eii ->]%lift_res_inv & E).
  apply one_row in Eii as (Hii & Hwd & Hmm). apply bind_inr_inv in E as (l & b4 & [= <- <-] & E).
  apply bind_inr_inv in E as (out & b5 & (c & Ef & ->)%call_inv & E). rewrite cache_at_insert in Ef.
  rewrite Hwd in Ef, E. set (position := torch_arange 0 (Z.of_nat (length ts))) in *.
  assert (items position = seqZ 0 (Z.of_nat (length ts))) as Hpos.
  { unfold position. rewrite <- (arange_spec 0). by rewrite Z.add_0_l. }
  destruct (holds_extended dynamic_cache [] 0 [] ts ii (torch_ones_like ii) position out c) as [Hlg Hh]; try done.
  { by apply (dynamic_cache_spec 1). }
  cbn [app] in Hlg, Hh. apply bind_inr_inv in E as (t & b5 & (Hsel & Es & Ec & Eb)%choose_inv & E).
  apply bind_inr_inv in E as ([] & b6 & [= <-] & E).
  eapply served_end in E as [_ E]; [exact E| |cbn; apply lookup_insert_eq|done| |done|by eapply chosen_on].
  - cbn. by rewrite Eb.
  - split; cbn; [|by intros lg [= <-]]. unfold cache_at. cbn. rewrite Ec. cbn. rewrite lookup_insert_eq. apply Hh.
    apply (next_position 0); [|done]. destruct ts; [done|]. cbn. lia.
Qed.
(** A snapshot of a sequence that had processed [ts]. *)
Definition snapshot_ok (b : Backend) (sn : PrefixSnapshot) (p : Z) (ts : list Z) : Prop :=
  holds (cache_at (ps_cache sn) b) (ps_attention_mask sn) (ps_cache_position sn) p ts ∧
  gives md (numbered p ts) (ps_next_token_logits sn).
Lemma deepcopy_inv l (b : Backend) l' b' : deepcopy l b = (inr l', b') →
  b' = b <| tb_caches ::= <[l' := cache_at l b]> |> ∧ tb_caches b !! l' = None.
Proof.
  intros E. apply bind_inr_inv in E as (c & b1 & [= <- <-] & E). injection E as <- <-. split; [done|].
  apply not_elem_of_dom, is_fresh.
Qed.
Lemma snapshot_inv b id sn b' : snapshot_prefix id b = (inr sn, b') →
  ∃ sq, tb_sequences b !! id = Some sq ∧ tb_caches b !! ps_cache sn = None ∧
    b' = b <| tb_caches ::= <[ps_cache sn := cache_at (sc_cache sq) b]> |> ∧
    ∀ p ts, sequence_ok b sq p ts → snapshot_ok b' sn p ts.
Proof.
  intros E. apply bind_inr_inv in E as (sq & b1 & Es & E). apply bind_inr_inv in Es as (sqs & b2 & [= <- <-] & Es).
  destruct (tb_sequences b !! id) as [sq'|]; [|done]. injection Es as -> ->.
  destruct (sc_next_token_logits sq) as [lg|] eqn:El; [|done].
  apply bind_inr_inv in E as (l & b2 & [-> Hl]%deepcopy_inv & [= <- <-]). exists sq. split_and!; [done..|].
  intros p ts [Hh Hlg]. split; cbn; [|by apply Hlg]. by rewrite cache_at_insert.
Qed.
Lemma restore_cache_inv id sn t (b : Backend) l b' : restore_prefix_cache id sn t b = (inr l, b') →
  tb_caches b !! l = None ∧
  b' = b <| tb_caches ::= <[l := cache_at (ps_cache sn) b]> |>
         <| tb_sequences ::= <[id := mkSequenceCache l (ps_attention_mask sn) (ps_cache_position sn) t
                                       (Some (ps_next_token_logits sn))]> |>.
Proof.
  intros E. apply bind_inr_inv in E as (l' & b1 & [-> Hl]%deepcopy_inv & E).
  apply bind_inr_inv in E as ([] & b2 & [= <-] & [= <- <-]). done.
Qed.
Lemma restore_served b id sn params p ts g b' :
  well_formed b → snapshot_ok b sn p ts → restore_prefix id sn params b = (inr g, b') →
  served b' id p ts params 0 g.
Proof.
  intros Hwf [Hh Hlg] E. unfold restore_prefix in E. pose proof (wf_worker _ Hwf) as Hw.
  apply bind_inr_inv in E as ([] & b1 & (Es1 & Ec1 & Hw1)%(quiet_inv _ _ _ _ quiet_active Hw) & E).
  apply bind_inr_inv in E as ([] & b2 & (Es2 & Ec2 & Hw2)%(quiet_inv _ _ _ _ (quiet_new _) Hw1) & E).
  apply bind_inr_inv in E as (t & b3 & (Hsel & Es3 & Ec3 & Eb3)%choose_inv & E).
  apply bind_inr_inv in E as (l & b4 & [Hl ->]%restore_cache_inv & E).
  eapply served_end in E as [_ E]; [exact E| |cbn; apply lookup_insert_eq|done| |done|by eapply chosen_on].
  - cbn. by rewrite Eb3.
  - split; cbn; [|by intros lg [= <-]]. unfold cache_at at 1. cbn. rewrite lookup_insert_eq. cbn.
    by rewrite (cache_at_same _ b) by congruence.
Qed.
(** What a sequence holds, nothing when it is new. *)
Definition starts_from (b : Backend) (id : string) (p : Z) (ts : list Z) : Prop :=
  match tb_sequences b !! id with
  | None => p = 0 ∧ ts = []
  | Some sq => holds (cache_at (sc_cache sq) b) (sc_attention_mask sq) (sc_cache_position sq) p ts
  end.
(** The mask, the positions and the cache of a chunk continue the row. *)
Lemma chunk_start_inv b id p ts new ii mask start l b' :
  starts_from b id p ts → torch_tensor [new] = Ok ii →
  chunk_start (tb_sequences b !! id) ii b = (inr (mask, start, l), b') →
  tb_sequences b' = tb_sequences b ∧ tb_worker b' = tb_worker b ∧
  ∃ h, represents (cache_at l b') [h] ∧ holds_row h p ts ∧ tolist mask = [mask_of h ++ replicate (length new) 1] ∧
       start = Z.of_nat (length h).
Proof.
  unfold starts_from. intros Hs (Hii & _ & Hones)%one_row E. destruct (tb_sequences b !! id) as [sq|] eqn:Esq.
  - apply bind_inr_inv in E as (m & b1 & [Em ->]%lift_res_inv & E).
    apply bind_inr_inv in E as (n & b2 & En & E). apply bind_inr_inv in En as (c & b3 & [= <- <-] & [= <- <-]).
    injection E as <- <- <- <-. destruct Hs as (h & Hr & Hh & Hm & Hp). split_and!; [done..|]. exists h. split_and!; try done.
    + apply cat_columns_spec in Em. by rewrite Em, Hm, Hones.
    + by apply (cache_length_spec _ [h]); [|done|constructor].
  - destruct Hs as [-> ->]. apply bind_inr_inv in E as (l' & b1 & [= <- <-] & [= <- <- <- <-]).
    split_and!; [done..|]. exists []. split_and!; [|done|done|done]. rewrite cache_at_insert. by apply (dynamic_cache_spec 1).
Qed.
Lemma chunk_served b id prompt params final p ts o b' :
  well_formed b → tp_token_ids prompt ≠ [] → starts_from b id p ts →
  prefill_chunk id prompt params final b = (inr o, b') →
  if final then ∃ g, o = Some g ∧ served b' id p (ts ++ tp_token_ids prompt) params 0 g
  else o = None ∧ ∃ sq, tb_sequences b' !! id = Some sq ∧ sequence_ok b' sq p (ts ++ tp_token_ids prompt).
Proof.
  intros Hwf Hne Hst E. unfold prefill_chunk in E. pose proof (wf_worker _ Hwf) as Hw. set (new := tp_token_ids prompt) in *.
  apply bind_inr_inv in E as ([] & b1 & (Es1 & Ec1 & Hw1)%(quiet_inv _ _ _ _ quiet_active Hw) & E).
  apply bind_inr_inv in E as ([] & b2 & (Es2 & Ec2 & Hw2)%(quiet_inv _ _ _ _ quiet_load Hw1) & E).
  apply bind_inr_inv in E as (m & b3 & [-> ->]%model_inv & E); [|done].
  apply bind_inr_inv in E as (ex & b3 & [= <- <-] & E). apply bind_inr_inv in E as (ii & b3 & [Eii ->]%lift_res_inv & E).
  apply bind_inr_inv in E as ([[mask start] l] & b3 & Ecs & E).
  apply (chunk_start_inv _ _ p ts new) in Ecs as (Es3 & Ew3 & h & Hr & Hh & Hm & ->); [| |done].
  2:{ unfold starts_from in *. rewrite Es2, Es1. destruct (tb_sequences b !! id); [|done]. by rewrite (cache_at_same _ b) by congruence. }
  apply one_row in Eii as (Hii & Hwd & _). rewrite Hwd in E.
  apply bind_inr_inv in E as (out & b4 & (c & Ef & ->)%call_inv & E).
  set (position := torch_arange _ _) in *.
  assert (items position = seqZ (Z.of_nat (length h)) (Z.of_nat (length new))) as Hpos by apply arange_spec.
  destruct (holds_extended _ h p ts new ii mask position out c Hr Hh Hne Hii Hm Hpos Ef) as [Hlg Hc].
  assert (items (last_plus_one position) = [Z.of_nat (length h) + Z.of_nat (length new)]) as Hnext.
  { apply next_position; [|done]. destruct new; [done|]. cbn. lia. }
  specialize (Hc _ Hnext). apply bind_inr_inv in E as ([] & b4 & [= <-] & E). unfold chunk_token in E.
  destruct final; cbn [negb] in E.
  - apply bind_inr_inv in E as (t & b4 & (Hsel & Es & Ec & Eb)%choose_inv & E).
    apply bind_inr_inv in E as ([] & b5 & [= <-] & E). apply bind_inr_inv in E as (g & b5 & Eg & [= <- <-]).
    exists g. split; [done|].
    eapply served_end in Eg as [_ Eg]; [exact Eg| | | | | |by eapply chosen_on].
    + cbn. rewrite Eb. cbn. by rewrite Ew3.
    + cbn. rewrite lookup_alter_eq, Es. cbn. by rewrite lookup_insert_eq.
    + done.
    + split; cbn; [|by intros lg [= <-]]. unfold cache_at. cbn. rewrite Ec. cbn. by rewrite lookup_insert_eq.
    + done.
  - injection E as <- <-. split; [done|]. eexists. split; [apply lookup_insert_eq|]. split; cbn; [|done].
    unfold cache_at. cbn. by rewrite lookup_insert_eq.
Qed.
Lemma resume_served b id sn suffix params p ts g b' :
  well_formed b → snapshot_ok b sn p ts → resume_prefix id sn suffix params b = (inr g, b') →
  served b' id p (ts ++ tp_token_ids suffix) params 0 g.
Proof.
  intros Hwf Hsn E. unfold resume_prefix in E. pose proof (wf_worker _ Hwf) as Hw.
  apply bind_inr_inv in E as ([] & b1 & (Es1 & Ec1 & Hw1)%(quiet_inv _ _ _ _ quiet_active Hw) & E).
  apply bind_inr_inv in E as ([] & b2 & (Es2 & Ec2 & Hw2)%(quiet_inv _ _ _ _ (quiet_new _) Hw1) & E).
  assert (well_formed b2) as Hwf2.
  { destruct Hwf as [? ? ?]. split; [done| |]; rewrite ?Es2, ?Ec2, ?Es1, ?Ec1; done. }
  assert (snapshot_ok b2 sn p ts) as Hsn2.
  { destruct Hsn as [Hh Hlg]. split; [|done]. by rewrite (cache_at_same _ b) by congruence. }
  case_bool_decide as Hs.
  { rewrite Hs, app_nil_r. by eapply restore_served. }
  apply bind_inr_inv in E as (l & b3 & Er & E). apply bind_inr_inv in E as (o & b4 & Ep & E).
  pose proof (run_restore_cache [id] b2 id sn (-1) ltac:(by left) b2 (spare_nil _ _ _ (touches_start _ _ Hwf2))) as Ht.
  rewrite Er in Ht. apply restore_cache_inv in Er as [Hl ->].
  eapply (chunk_served _ _ _ _ true p ts) in Ep as (g' & -> & Hg); [by injection E as <- <-|apply Ht|done|].
  unfold starts_from. cbn. rewrite lookup_insert_eq. cbn. unfold cache_at at 1. cbn. rewrite lookup_insert_eq. apply Hsn2.
Qed.
Lemma decode_served b id sq params index p ts g b' :
  well_formed b → tb_sequences b !! id = Some sq → sequence_ok b sq p ts →
  decode id params index b = (inr g, b') → served b' id p (ts ++ [sc_last_token_id sq]) params index g.
Proof.
  intros Hwf Esq [(h & Hr & Hh & Hm & Hp) _] E. unfold decode in E. pose proof (wf_worker _ Hwf) as Hw.
  apply bind_inr_inv in E as ([] & b1 & (Es1 & Ec1 & Hw1)%(quiet_inv _ _ _ _ quiet_active Hw) & E).
  apply bind_inr_inv in E as (sq' & b2 & Es & E). apply bind_inr_inv in Es as (sqs & b3 & [= <- <-] & Es).
  rewrite Es1, Esq in Es. injection Es as <- <-. apply bind_inr_inv in E as (m & b3 & [-> ->]%model_inv & E); [|done].
  apply bind_inr_inv in E as (ii & b3 & [(Hii & _ & _)%one_row ->]%lift_res_inv & E).
  apply bind_inr_inv in E as (mask & b3 & [Em%cat_columns_spec ->]%lift_res_inv & E). rewrite Hm, ones_spec in Em.
  apply bind_inr_inv in E as ([] & b3 & [= <-] & E). apply bind_inr_inv in E as (out & b4 & (c & Ef & ->)%call_inv & E).
  rewrite (cache_at_same _ b) in Ef by (cbn; congruence).
  destruct (holds_extended _ h p ts [sc_last_token_id sq] ii mask (sc_cache_position sq) out c Hr Hh ltac:(done) Hii Em)
    as [Hlg Hc]; [by rewrite Hp|exact Ef|].
  apply bind_inr_inv in E as ([] & b4 & [= <-] & E).
  apply bind_inr_inv in E as (t & b4 & (Hsel & Es & Ec & Eb)%choose_inv & E).
  apply bind_inr_inv in E as ([] & b5 & [= <-] & E).
  eapply served_end in E as [_ E]; [exact E| | | | | |by eapply chosen_on].
  - cbn. by rewrite Eb.
  - cbn. by rewrite lookup_alter_eq, Es; cbn; rewrite !lookup_alter_eq, Es1, Esq.
  - done.
  - split; cbn; [|done]. unfold cache_at. cbn. rewrite Ec. cbn. rewrite lookup_insert_eq. apply Hc.
    by rewrite plus_one_spec, Hp.
  - done.
Qed.

(** ** Batches *)

Lemma new_caches_inv cs (b : Backend) ls b' : new_caches cs b = (inr ls, b') →
  tb_sequences b' = tb_sequences b ∧ tb_worker b' = tb_worker b ∧ length ls = length cs ∧
  (∀ l c, tb_caches b !! l = Some c → tb_caches b' !! l = Some c) ∧
  ∀ i l c, ls !! i = Some l → cs !! i = Some c → tb_caches b' !! l = Some c.
Proof.
  revert b ls b'. induction cs as [|c cs IH]; intros b ls b' E; [injection E as <- <-; by split_and!|].
  cbn [new_caches] in E. apply bind_inr_inv in E as (l & b1 & [= <- <-] & E).
  apply bind_inr_inv in E as (ls' & b2 & (Es & Ew & El & Hold & Hnew)%IH & [= <- <-]).
  cbn in Es, Ew. split_and!; [done|done|cbn; by rewrite El| |].
  - intros l' c' Hl'. apply Hold. cbn. rewrite lookup_insert_ne; [done|]. intros <-.
    apply (is_fresh (dom (tb_caches b))). by eapply elem_of_dom_2.
  - intros [|i] l' c' Hi Hc; cbn in Hi, Hc; [|by eapply Hnew]. injection Hi as <-. injection Hc as <-.
    apply Hold. cbn. apply lookup_insert_eq.
Qed.
(** The rows of a batch, one after the other: each gets its own choice. *)
Lemma prefill_rows_inv out mask position row its acc (b : Backend) tokens b' :
  worker_ok (tb_worker b) → NoDup ((λ x, request_id_of x.1) <$> its) →
  prefill_rows out mask position row its acc b = (inr tokens, b') →
  tb_caches b' = tb_caches b ∧
  (∀ id, id ∉ (λ x, request_id_of x.1) <$> its → tb_sequences b' !! id = tb_sequences b !! id ∧ tokens !! id = acc !! id) ∧
  ∀ i id prompt params l, its !! i = Some (id, prompt, params, l) → ∃ t,
    (∃ r r', select (row_logits out (row + i)) params r = (Ok t, r')) ∧
    tb_sequences b' !! id = Some (mkSequenceCache l (row_slice mask (row + i)) (last_plus_one position) t
                                    (Some (row_logits out (row + i)))) ∧
    tokens !! id = Some (mkToken t (decode_raw tok [t]) 0 (cache_length (cache_at l b))).
Proof.
  revert row acc b tokens b'. induction its as [|[[[id0 prompt0] params0] l0] its IH]; intros row acc b tokens b' Hw Hd E.
  { injection E as <- <-. split_and!; [done..|]. by intros i ? ? ? ? Hi. }
  cbn [fmap list_fmap] in Hd. apply NoDup_cons in Hd as [Hnin Hd]. cbn [prefill_rows] in E.
  apply bind_inr_inv in E as (t & b1 & (Hsel & Es1 & Ec1 & Ew1)%choose_inv & E).
  apply bind_inr_inv in E as ([] & b2 & [= <-] & E).
  apply bind_inr_inv in E as (g & b3 & [-> ->]%generated_inv & E); [|cbn; by rewrite Ew1].
  apply IH in E as (Ec & Ho & Hi); [|cbn; by rewrite Ew1|done]. cbn in Ec, Ho. split_and!.
  - congruence.
  - intros id Hid. apply not_elem_of_cons in Hid as [Hne Hid]. destruct (Ho id Hid) as [-> ->].
    rewrite !lookup_insert_ne by (intros <-; by apply Hne). by rewrite Es1.
  - intros [|i] id prompt params l Hx.
    + injection Hx as <- <- <- <-. exists t. rewrite Nat.add_0_r. split; [done|].
      destruct (Ho id0 Hnin) as [-> ->]. rewrite !lookup_insert_eq. split; [done|]. unfold cache_at. cbn. by rewrite Ec1.
    + destruct (Hi i id prompt params l Hx) as (t' & Hsel' & Hs' & Ht'). exists t'.
      rewrite Nat.add_succ_r. split_and!; [done|done|]. rewrite Ht'. unfold cache_at. cbn. by rewrite Ec1.
Qed.
Lemma decode_rows_inv out mask row its acc (b : Backend) tokens b' :
  worker_ok (tb_worker b) → NoDup ((λ x : DecodeRequest * loc, x.1.1.1) <$> its) →
  decode_rows out mask row its acc b = (inr tokens, b') →
  tb_caches b' = tb_caches b ∧
  (∀ id, id ∉ (λ x : DecodeRequest * loc, x.1.1.1) <$> its → tb_sequences b' !! id = tb_sequences b !! id ∧ tokens !! id = acc !! id) ∧
  ∀ i id params index l sq, its !! i = Some (id, params, index, l) → tb_sequences b !! id = Some sq → ∃ t,
    (∃ r r', select (row_logits out (row + i)) params r = (Ok t, r')) ∧
    tb_sequences b' !! id = Some (mkSequenceCache l (row_slice mask (row + i)) (plus_one (sc_cache_position sq)) t None) ∧
    tokens !! id = Some (mkToken t (decode_raw tok [t]) index (cache_length (cache_at l b))).
Proof.
  revert row acc b tokens b'. induction its as [|[[[id0 params0] index0] l0] its IH]; intros row acc b tokens b' Hw Hd E.
  { injection E as <- <-. split_and!; [done..|]. by intros i ? ? ? ? ? Hi. }
  cbn [fmap list_fmap] in Hd. apply NoDup_cons in Hd as [Hnin Hd]. cbn [decode_rows] in E.
  apply bind_inr_inv in E as (t & b1 & (Hsel & Es1 & Ec1 & Ew1)%choose_inv & E).
  apply bind_inr_inv in E as ([] & b2 & [= <-] & E).
  apply bind_inr_inv in E as (g & b3 & [-> ->]%generated_inv & E); [|cbn; by rewrite Ew1].
  apply IH in E as (Ec & Ho & Hi); [|cbn; by rewrite Ew1|done]. cbn in Ec, Ho. split_and!.
  - congruence.
  - intros id Hid. apply not_elem_of_cons in Hid as [Hne Hid]. destruct (Ho id Hid) as [-> ->].
    rewrite lookup_alter_ne, lookup_insert_ne by (intros <-; by apply Hne). by rewrite Es1.
  - intros [|i] id params index l sq Hx Hsq.
    + injection Hx as <- <- <- <-. exists t. rewrite Nat.add_0_r. split; [done|].
      destruct (Ho id0 Hnin) as [-> ->]. rewrite lookup_insert_eq, lookup_alter_eq, Es1, Hsq. split; [done|].
      unfold cache_at. cbn. by rewrite Ec1.
    + assert (id ≠ id0) as Hne.
      { intros ->. apply Hnin. apply list_elem_of_fmap. exists (id0, params, index, l). split; [done|].
        by eapply list_elem_of_lookup_2. }
      destruct (Hi i id params index l sq Hx) as (t' & Hsel' & Hs' & Ht'); [cbn; by rewrite lookup_alter_ne, Es1|].
      exists t'. rewrite Nat.add_succ_r. split_and!; [done|done|]. rewrite Ht'. unfold cache_at. cbn. by rewrite Ec1.
Qed.

(** The tokens of a batch reply, one for each request and no others. *)
Definition batch_served {X} (key : X → string) (reply : X → GeneratedToken → Prop) (rs : list X)
  (res : BatchTokenResult) : Prop :=
  br_failures res = ∅ ∧ (∀ id, id ∉ key <$> rs → br_tokens res !! id = None) ∧
  ∀ r, r ∈ rs → ∃ g, br_tokens res !! key r = Some g ∧ reply r g.
Lemma batch_served_one {X} (key : X → string) (reply : X → GeneratedToken → Prop) r g :
  reply r g → batch_served key reply [r] (mkBatchResult {[ key r := g ]} ∅).
Proof.
  intros Hr. split_and!; [done| |].
  - intros id Hid. cbn. apply lookup_singleton_ne. intros E. apply Hid. cbn. rewrite E. by left.
  - intros r' ->%list_elem_of_singleton. exists g. split; [apply lookup_singleton_eq|done].
Qed.
(** Row [i] of a matrix. *)
Lemma row_slice_row t i l : tolist t !! i = Some l → tolist (row_slice t i) = [l].
Proof. intros Hi. rewrite row_slice_spec. by rewrite (drop_S _ l i). Qed.
(** The caches of a split batch. *)
Lemma split_caches l (b b' : Backend) hs cs i h c :
  represents (cache_at l b) hs → new_caches (batch_split (cache_at l b) (length hs)) b = (inr cs, b') →
  cs !! i = Some c → hs !! i = Some h → represents (cache_at c b') [h].
Proof.
  intros Hr (_ & _ & _ & _ & Hnew)%new_caches_inv Hc Hh. pose proof (batch_split_spec _ _ Hr) as Hf.
  destruct (Forall2_lookup_r _ _ _ _ _ Hf Hh) as (c0 & Hc0 & Hr0). unfold cache_at. by rewrite (Hnew i c c0).
Qed.
Lemma max_of_elem (l : list nat) x : x ∈ l → (x ≤ foldr Nat.max 0 l)%nat.
Proof. induction 1; cbn; lia. Qed.
Lemma padded_shape pad w l : (length l ≤ w)%nat → length (padded_ids pad w l) = w ∧ length (padded_mask w l) = w.
Proof. intros Hl. unfold padded_ids, padded_mask. rewrite !length_app, !length_replicate. lia. Qed.
Definition first_position (rs : list PrefillRequest) (r : PrefillRequest) : Z :=
  Z.of_nat (batch_width rs - length (request_ids_of r)).
(** The slices of a padded batch, row by row. *)
Lemma padded_sequence_ok rs r pad out mask position c (b : Backend) l i t :
  let w := batch_width rs in
  Forall (λ l, l ≠ [] ∧ (length l ≤ w)%nat) (request_ids_of <$> rs) →
  rs !! i = Some r → tolist mask = map (padded_mask w) (request_ids_of <$> rs) → items position = seqZ 0 (Z.of_nat w) →
  represents (cache_at l b) [row_after (padded_row pad w (request_ids_of r))] →
  gives md (numbered (Z.of_nat (w - length (request_ids_of r))) (request_ids_of r)) (row_logits out i) →
  c = l →
  sequence_ok b (mkSequenceCache c (row_slice mask i) (last_plus_one position) t (Some (row_logits out i)))
    (first_position rs r) (request_ids_of r).
Proof.
  intros w Hf Hi Hm Hp Hr Hlg ->. assert (request_ids_of r ≠ [] ∧ (length (request_ids_of r) ≤ w)%nat) as [Hne Hw].
  { rewrite Forall_elem in Hf. apply Hf. apply list_elem_of_fmap. exists r. split; [done|]. by eapply list_elem_of_lookup_2. }
  split; cbn; [|by intros lg [= <-]]. exists (row_after (padded_row pad w (request_ids_of r))). split_and!.
  - done.
  - apply holds_row_padded.
  - fold (row_mask (padded_row pad w (request_ids_of r))). rewrite padded_row_mask. apply row_slice_row.
    rewrite Hm. change map with (@fmap list _). by rewrite !list_lookup_fmap, Hi.
  - rewrite padded_row_length by done. rewrite (next_position 0 w); [by rewrite Z.add_0_l| |done].
    destruct (request_ids_of r); [done|cbn in Hw; lia].
Qed.
(** The end of a batch call: the cache is split, and each row is finished with a cache of its own. *)
Lemma split_tail {X} (rows : list (X * loc) → M (gmap string GeneratedToken)) (rs : list X) l b res b' :
  (whole ← gets (cache_at l); caches ← new_caches (batch_split whole (length rs));
   items ← lift_res (zip_strict rs caches); tokens ← rows items; mret (M := M) (mkBatchResult tokens ∅)) b = (inr res, b') →
  ∃ cs b1, new_caches (batch_split (cache_at l b) (length rs)) b = (inr cs, b1) ∧ length rs = length cs ∧
    rows (zip rs cs) b1 = (inr (br_tokens res), b') ∧ br_failures res = ∅.
Proof.
  intros E. apply bind_inr_inv in E as (whole & b1 & [= <- <-] & E). apply bind_inr_inv in E as (cs & b1 & Ecs & E).
  apply bind_inr_inv in E as (its & b2 & [[-> Hlen]%zip_strict_inv ->]%lift_res_inv & E).
  apply bind_inr_inv in E as (tokens & b2 & Er & [= <- <-]). by exists cs, b1.
Qed.
Lemma zip_keys {X} (key : X → string) (rs : list X) (cs : list loc) :
  length rs = length cs → (λ x : X * loc, key x.1) <$> zip rs cs = key <$> rs.
Proof. intros Hl. rewrite <- (fst_zip rs cs) at 2 by lia. by rewrite <- list_fmap_compose. Qed.
Lemma raise_when_inv c e (b : Backend) u b' : raise_when c e b = (inr u, b') → c = false ∧ b' = b.
Proof. destruct c; [done|]. by intros [= _ <-]. Qed.
Lemma padded_tensor (f : list Z → list Z) w (rs : list PrefillRequest) t :
  torch_tensor ((λ r, f (request_ids_of r)) <$> rs) = Ok t →
  Forall (λ l, length (f l) = w) (request_ids_of <$> rs) → tolist t = map f (request_ids_of <$> rs).
Proof.
  intros E Hf. destruct (torch_tensor_spec ((λ r, f (request_ids_of r)) <$> rs) w) as (t' & E' & Ht).
  - unfold rectangular. rewrite Forall_fmap in Hf |- *. exact Hf.
  - assert (t' = t) as <- by congruence. rewrite Ht. by rewrite (list_fmap_compose request_ids_of f).
Qed.
Lemma prefill_tail b rs pad out mask position l res b' :
  let w := batch_width rs in
  worker_ok (tb_worker b) → NoDup (request_id_of <$> rs) →
  Forall (λ l, l ≠ [] ∧ (length l ≤ w)%nat) (request_ids_of <$> rs) →
  tolist mask = map (padded_mask w) (request_ids_of <$> rs) → items position = seqZ 0 (Z.of_nat w) →
  represents (cache_at l b) (map (λ l, row_after (padded_row pad w l)) (request_ids_of <$> rs)) →
  (∀ i l, (request_ids_of <$> rs) !! i = Some l → gives md (numbered (Z.of_nat (w - length l)) l) (row_logits out i)) →
  (whole ← gets (cache_at l); caches ← new_caches (batch_split whole (length rs));
   items ← lift_res (zip_strict rs caches); tokens ← prefill_rows out mask position 0 items ∅;
   mret (M := M) (mkBatchResult tokens ∅)) b = (inr res, b') →
  batch_served request_id_of (λ r, served b' (request_id_of r) (first_position rs r) (request_ids_of r) r.2 0) rs res.
Proof.
  intros w Hw Hd Hf Hmm Hpos Hc Hlg (cs & b1 & Ecs & Hlen & E & Hfail)%split_tail.
  pose proof (new_caches_inv _ _ _ _ Ecs) as (_ & Ew & _). pose proof (zip_keys request_id_of rs cs Hlen) as Hkeys.
  apply prefill_rows_inv in E as (Ec & Ho & Hi); [|by rewrite Ew|by rewrite Hkeys].
  split_and!; [done| |].
  { intros id Hid. destruct (Ho id) as [_ ->]; [by rewrite Hkeys|apply lookup_empty]. }
  intros r [i Hr]%list_elem_of_lookup. destruct r as [[id prompt] params].
  destruct (lookup_lt_is_Some_2 cs i) as [lc Hlc]; [apply lookup_lt_Some in Hr; lia|].
  destruct (Hi i id prompt params lc) as (t & Hsel & Hs & Ht).
  { apply lookup_zip_with_Some. by eexists _, _. }
  cbn [plus] in Hsel, Hs. set (r := (id, prompt, params) : PrefillRequest) in *.
  assert (gives md (numbered (Z.of_nat (w - length (request_ids_of r))) (request_ids_of r)) (row_logits out i)) as Hrow.
  { apply Hlg. by rewrite list_lookup_fmap, Hr. }
  assert (sequence_ok b' (mkSequenceCache lc (row_slice mask i) (last_plus_one position) t (Some (row_logits out i)))
            (first_position rs r) (request_ids_of r)) as Hok.
  { eapply sequence_ok_same; [exact Ec|]. eapply (padded_sequence_ok rs r pad); try done.
    eapply (split_caches l b b1 _ cs i); [exact Hc| |exact Hlc|].
    - rewrite length_map, length_fmap. exact Ecs.
    - change map with (@fmap list _). by rewrite !list_lookup_fmap, Hr. }
  exists (mkToken t (decode_raw tok [t]) 0 (cache_length (cache_at lc b1))). split; [exact Ht|].
  eexists. split; [exact Hs|]. split; [exact Hok|]. split; [done|]. split_and!; [|done|done|].
  - cbn [gt_token_id]. unfold first_position. fold w. by eapply chosen_on.
  - cbn [gt_cache_tokens]. rewrite <- (cache_at_same lc b1 b') by done. apply (holds_length _ _ _ _ _ (proj1 Hok)).
Qed.
Lemma prefill_many_served b rs res b' :
  well_formed b → rs ≠ [] → (∀ r, r ∈ rs → request_ids_of r ≠ []) → prefill_many rs b = (inr res, b') →
  batch_served request_id_of (λ r, served b' (request_id_of r) (first_position rs r) (request_ids_of r) r.2 0) rs res.
Proof.
  intros Hwf Hrs Hne E. unfold prefill_many in E. pose proof (wf_worker _ Hwf) as Hw. set (w := batch_width rs) in *.
  assert (Forall (λ l, l ≠ [] ∧ (length l ≤ w)%nat) (request_ids_of <$> rs)) as Hf.
  { rewrite Forall_fmap, Forall_elem. intros r Hr. split; [by apply Hne|]. unfold w, batch_width.
    apply max_of_elem, list_elem_of_fmap. by exists r. }
  apply bind_inr_inv in E as ([] & b1 & (_ & _ & Hw1)%(quiet_inv _ _ _ _ quiet_active Hw) & E).
  apply bind_inr_inv in E as ([] & b2 & [Hd ->]%raise_when_inv & E). bool_hyps.
  apply bind_inr_inv in E as (sqs & b3 & [= _ <-] & E).
  apply bind_inr_inv in E as ([] & b3 & [_ ->]%raise_when_inv & E).
  apply bind_inr_inv in E as ([] & b4 & (_ & _ & Hw4)%(quiet_inv _ _ _ _ quiet_load Hw1) & E).
  apply bind_inr_inv in E as (m & b5 & [-> ->]%model_inv & E); [|done].
  apply bind_inr_inv in E as (tk & b5 & (_ & _ & Hw5)%(quiet_inv _ _ _ _ (quiet_tokenizer _) Hw4) & E).
  destruct (pad_token_id tk) as [pad|]; [|done].
  apply bind_inr_inv in E as (ii & b6 & [Hii ->]%lift_res_inv & E).
  apply (padded_tensor _ w) in Hii; [|eapply Forall_impl; [exact Hf|]; intros l [_ Hl]; by apply padded_shape].
  apply bind_inr_inv in E as (mask & b6 & [Hmm ->]%lift_res_inv & E).
  apply (padded_tensor _ w) in Hmm; [|eapply Forall_impl; [exact Hf|]; intros l [_ Hl]; by apply (padded_shape pad)].
  set (position := torch_arange 0 (Z.of_nat w)) in *.
  assert (items position = seqZ 0 (Z.of_nat w)) as Hpos.
  { unfold position. rewrite <- (arange_spec 0). by rewrite Z.add_0_l. }
  apply bind_inr_inv in E as (l & b6 & [= <- <-] & E).
  apply bind_inr_inv in E as (out & b6 & (c & Ef & ->)%call_inv & E). rewrite cache_at_insert in Ef.
  destruct (forward_padded md (request_ids_of <$> rs) pad w ii mask position out c) as [Hc Hlg]; try done.
  { by destruct rs. }
  apply (prefill_tail _ rs pad out mask position _ res b') in E; try done.
  by rewrite cache_at_insert.
Qed.
Lemma prefill_batch_served b rs res b' :
  well_formed b → (∀ r, r ∈ rs → request_ids_of r ≠ []) → prefill_batch rs b = (inr res, b') →
  batch_served request_id_of (λ r, served b' (request_id_of r) (first_position rs r) (request_ids_of r) r.2 0) rs res.
Proof.
  intros Hwf Hne E. destruct rs as [|[[id prompt] params] [|r2 rs]].
  - injection E as <- <-. split_and!; [done|done|]. by intros r ?%not_elem_of_nil.
  - apply bind_inr_inv in E as (g & b1 & E & [= <- <-]). apply (batch_served_one request_id_of _ (id, prompt, params)).
    unfold first_position, batch_width. cbn. rewrite Nat.max_0_r, Nat.sub_diag. eapply prefill_served; [done| |done].
    apply (Hne (id, prompt, params)). by left.
  - by apply (prefill_many_served b).
Qed.

(** ** Decoding batches *)

Lemma sequences_of_inv rs (b : Backend) ss b' : sequences_of rs b = (inr ss, b') →
  b' = b ∧ Forall2 (λ (r : DecodeRequest) s, tb_sequences b !! r.1.1 = Some s) rs ss.
Proof.
  revert ss b'. induction rs as [|[[id params] index] rs IH]; intros ss b' E; [injection E as <- <-; by split|].
  cbn [sequences_of] in E. apply bind_inr_inv in E as (sqs & b1 & [= <- <-] & E).
  destruct (tb_sequences b !! id) as [s|] eqn:Es; [|done].
  apply bind_inr_inv in E as (ss' & b2 & [-> Hf]%IH & [= <- <-]). split; [done|]. by constructor.
Qed.
Lemma lift_all_inv {A} (l : list (res A)) k : lift_all l = Ok k → Forall2 (λ r a, r = Ok a) l k.
Proof.
  revert k. induction l as [|r l IH]; intros k E; [by injection E as <-|]. cbn in E.
  apply bind_Ok_inv in E as (a & -> & E). apply bind_Ok_inv in E as (k' & E & [= <-]). constructor; auto.
Qed.
Lemma one_length (l : list Z) : size (list_to_set l : gset Z) = 1%nat → ∃ n, ∀ x, x ∈ l → x = n.
Proof.
  intros [n Hn]%size_1_elem_of. exists n. intros x Hx. apply (elem_of_list_to_set (C := gset Z)) in Hx. set_solver.
Qed.
(** The row that a sequence holds. *)
Definition has_row (b : Backend) (sq : SequenceCache) (h : list slot) : Prop :=
  represents (cache_at (sc_cache sq) b) [h] ∧ tolist (sc_attention_mask sq) = [mask_of h] ∧
  items (sc_cache_position sq) = [Z.of_nat (length h)].
Lemma choose_rows {X Y} (P : X → Y → Prop) l : (∀ x, x ∈ l → ∃ y, P x y) → ∃ k, Forall2 P l k.
Proof.
  induction l as [|x l IH]; intros Hl; [by exists []|]. destruct (Hl x) as [y Hy]; [by left|].
  destruct IH as [k Hk]; [intros z Hz; apply Hl; by right|]. exists (y :: k). by constructor.
Qed.
(** The operands of the model call of a decode batch. *)
Lemma decode_masks ss hs (b : Backend) masks mask :
  Forall2 (has_row b) ss hs → Forall2 (λ s m, cat_columns (sc_attention_mask s) (torch_ones 1 1) = Ok m) ss masks →
  cat_rows masks = Ok mask → tolist mask = map (λ h, mask_of h ++ [1]) hs.
Proof.
  intros Hf Hm E. apply cat_rows_spec in E. rewrite E. clear E. revert masks Hm.
  induction Hf as [|s h ss hs (_ & Hs & _) _ IH]; intros masks Hm; inversion Hm as [|? m ? masks' Hc Hm']; [done|].
  cbn. rewrite (IH _ Hm'). apply cat_columns_spec in Hc. by rewrite Hc, Hs, ones_spec.
Qed.
Lemma rows_of ss hs (b : Backend) :
  Forall2 (has_row b) ss hs → Forall2 (λ c h, represents c [h]) ((λ s, cache_at (sc_cache s) b) <$> ss) hs.
Proof. intros Hf. apply Forall2_fmap_l. eapply Forall2_impl; [exact Hf|]. by intros s h (Hr & _). Qed.
Lemma row_lengths ss hs (b : Backend) n :
  Forall2 (has_row b) ss hs →
  (∀ x, x ∈ (λ s, cache_length (cache_at (sc_cache s) b)) <$> ss → x = Z.of_nat n) → Forall (λ h, length h = n) hs.
Proof.
  induction 1 as [|s h ss hs (Hr & _) _ IH]; intros Hl; constructor.
  - apply Nat2Z.inj. rewrite <- (cache_length_spec _ [h] (length h) Hr); [|done|by constructor]. apply Hl. by left.
  - apply IH. intros x Hx. apply Hl. by right.
Qed.
(** The model call of a decode batch: the cache holds the extended rows and the logits are those of the rows. *)
Lemma decode_call b ss hs ii masks mask out c :
  Forall2 (has_row b) ss hs → ss ≠ [] →
  size (list_to_set ((λ s, cache_length (cache_at (sc_cache s) b)) <$> ss) : gset Z) = 1%nat →
  torch_tensor ((λ s, [sc_last_token_id s]) <$> ss) = Ok ii →
  Forall2 (λ s m, cat_columns (sc_attention_mask s) (torch_ones 1 1) = Ok m) ss masks → cat_rows masks = Ok mask →
  ∀ first, head ss = Some first →
  forward md ii mask (from_batch_splits ((λ s, cache_at (sc_cache s) b) <$> ss)) (sc_cache_position first) = (Ok out, c) →
  let rows := zip hs (sc_last_token_id <$> ss) in
  tolist mask = map (λ h, mask_of h ++ [1]) hs ∧
  represents c (map (λ r, row_after (decode_row r.1 r.2)) rows) ∧
  ∀ i r, rows !! i = Some r → gives md (attended (row_after (decode_row r.1 r.2))) (row_logits out i).
Proof.
  intros Hf Hne Hsize Eii Hmasks Emask first Hfirst E rows. pose proof (decode_masks _ _ _ _ _ Hf Hmasks Emask) as Hmask.
  split; [done|]. destruct (one_length _ Hsize) as [n Hn]. pose proof (Forall2_length _ _ _ Hf) as Hlen.
  destruct ss as [|s0 ss]; [done|]. injection Hfirst as ->. destruct hs as [|h0 hs]; [done|].
  pose proof Hf as Hf'. apply Forall2_cons in Hf' as [(Hr0 & Hm0 & Hp0) _].
  assert (n = Z.of_nat (length h0)) as ->.
  { rewrite <- (Hn (cache_length (cache_at (sc_cache first) b))) by (cbn; by left).
    apply (cache_length_spec _ [h0]); [done..|by constructor]. }
  pose proof (row_lengths _ _ _ _ Hf Hn) as Hls.
  destruct (torch_tensor_spec ((λ s, [sc_last_token_id s]) <$> first :: ss) 1) as (t & Et & Ht).
  { unfold rectangular. rewrite Forall_fmap, Forall_elem. by intros. }
  assert (t = ii) as -> by congruence.
  apply (forward_decode md rows (length h0) (from_batch_splits ((λ s, cache_at (sc_cache s) b) <$> first :: ss)) ii mask
    (sc_cache_position first)); try done.
  - unfold rows. rewrite fst_zip by (rewrite length_fmap; lia). by eapply from_batch_splits_spec; [apply rows_of|].
  - apply Forall_elem. intros [h x] Hx%elem_of_zip_l. rewrite Forall_elem in Hls. by apply Hls.
  - rewrite Ht. transitivity ((λ x, [x]) <$> rows.*2); [|by rewrite <- list_fmap_compose].
    unfold rows. rewrite snd_zip by (rewrite length_fmap; lia). by rewrite <- list_fmap_compose.
  - rewrite Hmask. transitivity ((λ h, mask_of h ++ [1]) <$> rows.*1); [|by rewrite <- list_fmap_compose].
    unfold rows. by rewrite fst_zip by (rewrite length_fmap; lia).
Qed.
(** A sequence after its row of a decode batch. *)
Lemma decoded_sequence_ok b sq p ts h mask i l b' t :
  sequence_ok b sq p ts → has_row b sq h → tolist mask !! i = Some (mask_of h ++ [1]) →
  represents (cache_at l b') [row_after (decode_row h (sc_last_token_id sq))] →
  attended h = numbered p ts → Z.of_nat (length h) = p + Z.of_nat (length ts) →
  sequence_ok b' (mkSequenceCache l (row_slice mask i) (plus_one (sc_cache_position sq)) t None) p (ts ++ [sc_last_token_id sq]).
Proof.
  intros Hok (_ & _ & Hp) Hm Hr Ha Hl. split; cbn; [|done]. eexists. split_and!; [exact Hr| | |].
  - unfold row_after. by apply holds_row_extend.
  - rewrite (row_slice_row _ _ _ Hm). unfold row_after. cbn [fst snd decode_row]. by rewrite mask_of_app, real_mask.
  - rewrite plus_one_spec, Hp. unfold row_after. cbn [fst snd decode_row]. rewrite length_app, real_length. cbn. f_equal. lia.
Qed.
Lemma decode_tail b0 b (st : DecodeRequest → Z * list Z) rs ss hs mask out l res b' :
  worker_ok (tb_worker b) → tb_sequences b = tb_sequences b0 → NoDup ((λ r : DecodeRequest, r.1.1) <$> rs) →
  length ss = length rs → length hs = length rs →
  (∀ i r s h, rs !! i = Some r → ss !! i = Some s → hs !! i = Some h →
     tb_sequences b0 !! r.1.1 = Some s ∧ has_row b0 s h ∧ sequence_ok b0 s (st r).1 (st r).2 ∧ holds_row h (st r).1 (st r).2) →
  tolist mask = map (λ h, mask_of h ++ [1]) hs →
  represents (cache_at l b) (map (λ r, row_after (decode_row r.1 r.2)) (zip hs (sc_last_token_id <$> ss))) →
  (∀ i r, zip hs (sc_last_token_id <$> ss) !! i = Some r →
     gives md (attended (row_after (decode_row r.1 r.2))) (row_logits out i)) →
  (whole ← gets (cache_at l); caches ← new_caches (batch_split whole (length rs));
   items ← lift_res (zip_strict rs caches); tokens ← decode_rows out mask 0 items ∅;
   mret (M := M) (mkBatchResult tokens ∅)) b = (inr res, b') →
  batch_served (λ r : DecodeRequest, r.1.1)
    (λ r g, ∃ sq, tb_sequences b0 !! r.1.1 = Some sq ∧
                  served b' r.1.1 (st r).1 ((st r).2 ++ [sc_last_token_id sq]) r.1.2 r.2 g) rs res.
Proof.
  intros Hw Es0 Hd Ls Lh Hrow Hmask Hc Hlg (cs & b1 & Ecs & Hlen & E & Hfail)%split_tail.
  pose proof (new_caches_inv _ _ _ _ Ecs) as (Es & Ew & _).
  pose proof (zip_keys (λ r : DecodeRequest, r.1.1) rs cs Hlen) as Hkeys.
  apply decode_rows_inv in E as (Ec & Ho & Hi); [|by rewrite Ew|by rewrite Hkeys].
  split_and!; [done| |].
  { intros id Hid. destruct (Ho id) as [_ ->]; [by rewrite Hkeys|apply lookup_empty]. }
  intros r [i Hr]%list_elem_of_lookup. pose proof (lookup_lt_Some _ _ _ Hr) as Hlt.
  destruct (lookup_lt_is_Some_2 cs i) as [lc Hlc]; [lia|]. destruct (lookup_lt_is_Some_2 ss i) as [sq Hsq]; [lia|].
  destruct (lookup_lt_is_Some_2 hs i) as [h Hh]; [lia|].
  destruct (Hrow i r sq h Hr Hsq Hh) as (Hsq0 & Hrow0 & Hok0 & Hh0). destruct r as [[id params] index].
  destruct (Hi i id params index lc sq) as (t & Hsel & Hs & Ht).
  { apply lookup_zip_with_Some. by eexists _, _. }
  { by rewrite Es, Es0. }
  cbn [plus] in Hsel, Hs. set (r := (id, params, index) : DecodeRequest) in *.
  assert (zip hs (sc_last_token_id <$> ss) !! i = Some (h, sc_last_token_id sq)) as Hz.
  { apply lookup_zip_with_Some. exists h, (sc_last_token_id sq). by rewrite list_lookup_fmap, Hsq. }
  assert (sequence_ok b' (mkSequenceCache lc (row_slice mask i) (plus_one (sc_cache_position sq)) t None)
            (st r).1 ((st r).2 ++ [sc_last_token_id sq])) as Hok.
  { eapply sequence_ok_same; [exact Ec|]. eapply (decoded_sequence_ok b0 sq _ _ h); try done; [| |apply Hh0..].
    - rewrite Hmask. change map with (@fmap list _). by rewrite list_lookup_fmap, Hh.
    - eapply (split_caches l b b1 _ cs i); [exact Hc| |exact Hlc|].
      + rewrite length_map, length_zip, length_fmap, Ls, Lh, Nat.min_id. exact Ecs.
      + change map with (@fmap list _). by rewrite list_lookup_fmap, Hz. }
  exists (mkToken t (decode_raw tok [t]) index (cache_length (cache_at lc b1))). split; [exact Ht|].
  exists sq. split; [exact Hsq0|]. eexists. split; [exact Hs|]. split; [exact Hok|]. split; [done|]. split_and!; [|done|done|].
  - cbn [gt_token_id]. eapply chosen_on; [|exact Hsel]. rewrite <- (proj1 (holds_row_extend h _ _ [sc_last_token_id sq] Hh0)).
    apply (Hlg i _ Hz).
  - cbn [gt_cache_tokens]. rewrite <- (cache_at_same lc b1 b') by done. apply (holds_length _ _ _ _ _ (proj1 Hok)).
Qed.
Lemma decode_many_served b (st : DecodeRequest → Z * list Z) rs res b' :
  well_formed b → rs ≠ [] → NoDup ((λ r : DecodeRequest, r.1.1) <$> rs) →
  (∀ r, r ∈ rs → ∃ sq, tb_sequences b !! r.1.1 = Some sq ∧ sequence_ok b sq (st r).1 (st r).2) →
  decode_many rs b = (inr res, b') →
  batch_served (λ r : DecodeRequest, r.1.1)
    (λ r g, ∃ sq, tb_sequences b !! r.1.1 = Some sq ∧
                  served b' r.1.1 (st r).1 ((st r).2 ++ [sc_last_token_id sq]) r.1.2 r.2 g) rs res.
Proof.
  intros Hwf Hrs Hd Hst E. unfold decode_many in E. pose proof (wf_worker _ Hwf) as Hw.
  apply bind_inr_inv in E as (ss & b1 & [-> Hss]%sequences_of_inv & E).
  apply bind_inr_inv in E as (lens & b2 & [= <- <-] & E).
  apply bind_inr_inv in E as ([] & b2 & [Hsize ->]%raise_when_inv & E). apply negb_false_iff, Nat.eqb_eq in Hsize.
  apply bind_inr_inv in E as (m & b2 & [-> ->]%model_inv & E); [|done].
  apply bind_inr_inv in E as (ii & b2 & [Hii ->]%lift_res_inv & E).
  apply bind_inr_inv in E as (masks & b2 & [Hmasks%lift_all_inv ->]%lift_res_inv & E).
  apply Forall2_fmap_l in Hmasks. apply bind_inr_inv in E as (mask & b2 & [Hmask ->]%lift_res_inv & E).
  apply bind_inr_inv in E as (cs0 & b2 & [= <- <-] & E). apply bind_inr_inv in E as (l & b2 & [= <- <-] & E).
  destruct ss as [|first ss]; [by inversion Hss; subst|]. set (all := first :: ss) in *.
  apply bind_inr_inv in E as (out & b2 & (c & Ef & ->)%call_inv & E). rewrite cache_at_insert in Ef.
  assert (∀ x, x ∈ zip rs all → ∃ h, has_row b x.2 h ∧ holds_row h (st x.1).1 (st x.1).2) as Hex.
  { intros [r s] Hx. destruct (Hst r) as (sq & Hsq & (h & H1' & H2' & H3') & _); [by eapply elem_of_zip_l|].
    apply list_elem_of_lookup in Hx as [i Hx]. apply lookup_zip_with_Some in Hx as (r' & s' & [= -> ->] & Hr & Hs).
    pose proof (Forall2_lookup_lr _ _ _ _ _ _ Hss Hr Hs) as Hs'. assert (s' = sq) as -> by congruence. by exists h. }
  apply choose_rows in Hex as [hs Hhs]. pose proof (Forall2_length _ _ _ Hss) as Hlen.
  assert (Forall2 (has_row b) all hs) as Hrows.
  { rewrite <- (snd_zip rs all) by lia. apply Forall2_fmap_l. eapply Forall2_impl; [exact Hhs|]. by intros x h [Hx _]. }
  destruct (decode_call b all hs ii masks mask out c Hrows ltac:(done) Hsize Hii Hmasks Hmask first eq_refl Ef)
    as (Hm & Hc & Hlg).
  pose proof (Forall2_length _ _ _ Hrows) as Hlen2.
  eapply (decode_tail b _ st rs all hs mask out); [| | |lia|lia| |exact Hm| |exact Hlg|exact E]; [done|done|done| |by rewrite cache_at_insert].
  intros i r s h Hr Hs Hh.
  destruct (Forall2_lookup_lr _ _ _ i (r, s) h Hhs) as [H1' H2']; [apply lookup_zip_with_Some; by eexists _, _|done|].
  pose proof (Forall2_lookup_lr _ _ _ _ _ _ Hss Hr Hs) as Hsq. split_and!; try done.
  destruct (Hst r) as (sq & Hsq' & Hok); [by eapply list_elem_of_lookup_2|]. assert (sq = s) as -> by congruence. done.
Qed.
Lemma decode_batch_served b (st : DecodeRequest → Z * list Z) rs res b' :
  well_formed b → NoDup ((λ r : DecodeRequest, r.1.1) <$> rs) →
  (∀ r, r ∈ rs → ∃ sq, tb_sequences b !! r.1.1 = Some sq ∧ sequence_ok b sq (st r).1 (st r).2) →
  decode_batch rs b = (inr res, b') →
  batch_served (λ r : DecodeRequest, r.1.1)
    (λ r g, ∃ sq, tb_sequences b !! r.1.1 = Some sq ∧
                  served b' r.1.1 (st r).1 ((st r).2 ++ [sc_last_token_id sq]) r.1.2 r.2 g) rs res.
Proof.
  intros Hwf Hd Hst E. destruct rs as [|[[id params] index] [|r2 rs]].
  - injection E as <- <-. split_and!; [done|done|]. by intros r ?%not_elem_of_nil.
  - apply bind_inr_inv in E as (g & b1 & E & [= <- <-]).
    destruct (Hst (id, params, index)) as (sq & Hsq & Hok); [by left|]. cbn [fst snd] in Hsq.
    apply (batch_served_one (λ r : DecodeRequest, r.1.1) _ (id, params, index)). exists sq. split; [done|].
    by eapply decode_served.
  - by apply (decode_many_served b).
Qed.

(** ** Runs of calls *)

(** The calls of a client. It passes the snapshots it was given, by their number. *)
Inductive Call :=
  | CLoad | CUnload | CVocabulary | CEosTokens | CTokenize (prompt : string) | CCapacity
  | CPrefill (sequence_id : string) (prompt : TokenizedPrompt) (parameters : SamplingParameters)
  | CPrefillBatch (requests : list PrefillRequest)
  | CPrefillChunk (sequence_id : string) (prompt : TokenizedPrompt) (parameters : SamplingParameters) (final : bool)
  | CDecode (sequence_id : string) (parameters : SamplingParameters) (index : Z)
  | CDecodeBatch (requests : list DecodeRequest)
  | CSnapshot (sequence_id : string)
  | CRestore (sequence_id : string) (k : nat) (parameters : SamplingParameters)
  | CResume (sequence_id : string) (k : nat) (suffix : TokenizedPrompt) (parameters : SamplingParameters)
  | CRelease (sequence_id : string) | CShutdown.
Definition Tokens : Type := gmap string GeneratedToken.
Definition no_tokens {A} (c : M A) : M (Tokens * option PrefixSnapshot) := _ ← c; mret (∅, None).
Definition one_token (sequence_id : string) (c : M GeneratedToken) : M (Tokens * option PrefixSnapshot) :=
  t ← c; mret ({[ sequence_id := t ]}, None).
Definition batch_tokens (c : M BatchTokenResult) : M (Tokens * option PrefixSnapshot) :=
  r ← c; mret (br_tokens r, None).
Definition backend_call (snapshots : list PrefixSnapshot) (c : Call) : M (Tokens * option PrefixSnapshot) :=
  match c with
  | CLoad => no_tokens load_model
  | CUnload => no_tokens unload_model
  | CVocabulary => no_tokens vocabulary_size
  | CEosTokens => no_tokens eos_token_ids
  | CTokenize prompt => no_tokens (tokenize prompt)
  | CCapacity => no_tokens (capacity int_of_str)
  | CPrefill i p s => one_token i (prefill i p s)
  | CPrefillBatch rs => batch_tokens (prefill_batch rs)
  | CPrefillChunk i p s final =>
    t ← prefill_chunk i p s final; mret (match t with Some t => {[ i := t ]} | None => ∅ end, None)
  | CDecode i s n => one_token i (decode i s n)
  | CDecodeBatch rs => batch_tokens (decode_batch rs)
  | CSnapshot i => sn ← snapshot_prefix i; mret (∅, Some sn)
  | CRestore i k s =>
    match snapshots !! k with Some sn => one_token i (restore_prefix i sn s) | None => mret (∅, None) end
  | CResume i k p s =>
    match snapshots !! k with Some sn => one_token i (resume_prefix i sn p s) | None => mret (∅, None) end
  | CRelease i => no_tokens (release_sequence i)
  | CShutdown => no_tokens shutdown
  end.
(** A client and the replies it gets. *)
Definition Client : Type := Backend * list PrefixSnapshot.
Definition perform (c : Call) (x : Client) : (PyErr + Tokens) * Client :=
  match backend_call x.2 c x.1 with
  | (inr (ts, sn), b) => (inr ts, (b, x.2 ++ option_list sn))
  | (inl e, b) => (inl e, (b, x.2))
  end.
Fixpoint replies (calls : list Call) (x : Client) : list (Call * (PyErr + Tokens)) :=
  match calls with
  | [] => []
  | c :: calls => let '(r, x) := perform c x in (c, r) :: replies calls x
  end.

(** ** What the replies should be *)

(** What a client knows of a sequence: the position of its first token, the tokens the model has processed, and
    the token chosen last, which the model has yet to process. *)
Record Stream := mkStream { sm_first : Z; sm_tokens : list Z; sm_next : option Z }.
(** [None] in [hi_streams] and [hi_snapshots]: a sequence or a snapshot after a failed call or a wrong use, of
    which nothing is claimed. *)
Record History := mkHistory {
  hi_streams : gmap string (option Stream);
  hi_snapshots : list (option (Z * list Z))
}.
(** A sequence that a call advances to [ad_tokens]; [ad_emit]: the reply has a token for it. *)
Record Advance := mkAdvance {
  ad_id : string; ad_parameters : SamplingParameters; ad_index : Z;
  ad_first : Z; ad_tokens : list Z; ad_emit : bool
}.
Definition known (h : History) (i : string) : option Stream := mjoin (hi_streams h !! i).
Definition decode_advance (h : History) (r : DecodeRequest) : option Advance :=
  match known h r.1.1 with
  | Some (mkStream p ts (Some t)) => Some (mkAdvance r.1.1 r.1.2 r.2 p (ts ++ [t]) true)
  | _ => None
  end.
Definition prefill_advance (rs : list PrefillRequest) (r : PrefillRequest) : Advance :=
  mkAdvance (request_id_of r) r.2 0 (first_position rs r) (request_ids_of r) true.
(** The sequences that a successful call advances; [None]: nothing is claimed of it. *)
Definition expected (h : History) (c : Call) : option (list Advance) :=
  match c with
  | CPrefill i p s => if bool_decide (tp_token_ids p = []) then None else Some [mkAdvance i s 0 0 (tp_token_ids p) true]
  | CPrefillBatch rs =>
    if existsb (λ r, bool_decide (request_ids_of r = [])) rs then None else Some (prefill_advance rs <$> rs)
  | CPrefillChunk i p s final =>
    if bool_decide (tp_token_ids p = []) then None else
    match hi_streams h !! i with
    | None => Some [mkAdvance i s 0 0 (tp_token_ids p) final]
    | Some (Some m) => Some [mkAdvance i s 0 (sm_first m) (sm_tokens m ++ tp_token_ids p) final]
    | Some None => None
    end
  | CDecode i s n => a ← decode_advance h (i, s, n); Some [a]
  | CDecodeBatch rs => if bool_decide (NoDup ((λ r : DecodeRequest, r.1.1) <$> rs)) then mapM (decode_advance h) rs else None
  | CRestore i k s =>
    match hi_snapshots h !! k with
    | Some k => k ← k; Some [mkAdvance i s 0 k.1 k.2 true]
    | None => Some []
    end
  | CResume i k p s =>
    match hi_snapshots h !! k with
    | Some k => k ← k; Some [mkAdvance i s 0 k.1 (k.2 ++ tp_token_ids p) true]
    | None => Some []
    end
  | _ => Some []
  end.
(** The sequences that a call works on. *)
Definition ids_of (h : History) (c : Call) : list string :=
  match c with
  | CPrefill i _ _ | CPrefillChunk i _ _ _ | CDecode i _ _ | CRelease i => [i]
  | CPrefillBatch rs => request_id_of <$> rs
  | CDecodeBatch rs => (λ r : DecodeRequest, r.1.1) <$> rs
  | CRestore i k _ | CResume i k _ _ => match hi_snapshots h !! k with Some _ => [i] | None => [] end
  | _ => []
  end.
Definition reply_ok (h : History) (c : Call) (r : PyErr + Tokens) : Prop :=
  match r, expected h c with
  | inr ts, Some ads =>
    (∀ a, a ∈ ads → ad_emit a = true →
       ∃ t, ts !! ad_id a = Some t ∧ token_ok (ad_first a) (ad_tokens a) (ad_parameters a) (ad_index a) t) ∧
    (∀ i, i ∉ ad_id <$> ads → ts !! i = None)
  | _, _ => True
  end.
Definition forget (ids : list string) (m : gmap string (option Stream)) : gmap string (option Stream) :=
  foldr (λ i m, <[i := None]> m) m ids.
Definition note (ts : Tokens) (ads : list Advance) (m : gmap string (option Stream)) : gmap string (option Stream) :=
  foldr (λ a m, <[ad_id a := Some (mkStream (ad_first a) (ad_tokens a)
                                     (if ad_emit a then gt_token_id <$> ts !! ad_id a else None))]> m) m ads.
(** The history after a call and its reply. *)
Definition after (h : History) (c : Call) (r : PyErr + Tokens) : History :=
  match r with
  | inl _ => mkHistory (forget (ids_of h c) (hi_streams h)) (hi_snapshots h)
  | inr ts =>
    match c with
    | CRelease i => mkHistory (delete i (hi_streams h)) (hi_snapshots h)
    | CShutdown => mkHistory ∅ (hi_snapshots h)
    | CSnapshot i =>
      mkHistory (hi_streams h) (hi_snapshots h ++ [(λ m, (sm_first m, sm_tokens m)) <$> known h i])
    | _ =>
      match expected h c with
      | None => mkHistory (forget (ids_of h c) (hi_streams h)) (hi_snapshots h)
      | Some ads => mkHistory (note ts ads (hi_streams h)) (hi_snapshots h)
      end
    end
  end.
Fixpoint faithful (h : History) (tr : list (Call * (PyErr + Tokens))) : Prop :=
  match tr with
  | [] => True
  | (c, r) :: tr => reply_ok h c r ∧ faithful (after h c r) tr
  end.

(** ** The history is right *)

Definition stream_ok (b : Backend) (i : string) (m : Stream) : Prop :=
  ∃ sq, tb_sequences b !! i = Some sq ∧ sequence_ok b sq (sm_first m) (sm_tokens m) ∧
        ∀ t, sm_next m = Some t → sc_last_token_id sq = t.
(** A snapshot has a cache that no sequence has. *)
Definition kept_ok (b : Backend) (sn : PrefixSnapshot) (k : option (Z * list Z)) : Prop :=
  is_Some (tb_caches b !! ps_cache sn) ∧
  (∀ i sq, tb_sequences b !! i = Some sq → sc_cache sq ≠ ps_cache sn) ∧
  ∀ p ts, k = Some (p, ts) → snapshot_ok b sn p ts.
Record agrees (x : Client) (h : History) : Prop := {
  ag_wf : well_formed x.1;
  ag_streams : ∀ i m, hi_streams h !! i = Some (Some m) → stream_ok x.1 i m;
  ag_absent : ∀ i, hi_streams h !! i = None → tb_sequences x.1 !! i = None;
  ag_kept : Forall2 (kept_ok x.1) x.2 (hi_snapshots h)
}.
(** Work on [ids] leaves other sequences and all snapshots as they were. *)
Lemma touches_cache ids (b0 b : Backend) l :
  touches ids b0 b → is_Some (tb_caches b0 !! l) → ¬ owned ids b0 l → cache_at l b = cache_at l b0.
Proof. intros Ht [c Hc] Hno. unfold cache_at. by rewrite (to_caches _ _ _ Ht l c Hc Hno), Hc. Qed.
Lemma touches_stream ids (b0 b : Backend) i m :
  well_formed b0 → touches ids b0 b → i ∉ ids → stream_ok b0 i m → stream_ok b i m.
Proof.
  intros Hwf Ht Hi (sq & Hsq & [Hh Hlg] & Hn). exists sq. split; [by rewrite (to_others _ _ _ Ht)|]. split; [|done].
  split; [|done]. rewrite (touches_cache ids b0 b); [done..|by eapply wf_alive|].
  intros (j & s & Hj & Hs & Ec). apply Hi. by rewrite (wf_distinct _ Hwf _ _ _ _ Hsq Hs (eq_sym Ec)).
Qed.
Lemma touches_kept ids (b0 b : Backend) sn k : touches ids b0 b → kept_ok b0 sn k → kept_ok b sn k.
Proof.
  intros Ht (Ha & Hno & Hk). split_and!; [by apply (to_grows _ _ _ Ht)| |].
  - intros i sq Hsq Ec. destruct (decide (i ∈ ids)) as [Hi|Hi].
    + destruct (to_mine _ _ _ Ht i sq Hi Hsq) as [Hn|(j & s & _ & Hs & Es)].
      * destruct Ha as [c Hc]. congruence.
      * by apply (Hno j s Hs); congruence.
    + rewrite (to_others _ _ _ Ht) in Hsq by done. by apply (Hno i sq).
  - intros p ts E. destruct (Hk p ts E) as [Hh Hlg]. split; [|done].
    rewrite (touches_cache ids b0 b); [done..|]. intros (j & s & _ & Hs & Es). by apply (Hno j s Hs).
Qed.
Lemma agrees_touch ids x h b m :
  agrees x h → touches ids x.1 b →
  (∀ i, i ∉ ids → m !! i = hi_streams h !! i) → (∀ i st, i ∈ ids → m !! i = Some (Some st) → stream_ok b i st) →
  (∀ i, i ∈ ids → is_Some (m !! i)) → agrees (b, x.2) (mkHistory m (hi_snapshots h)).
Proof.
  intros [Hwf Hs Ha Hk] Ht Ho Hi Hn. split; cbn.
  - apply Ht.
  - intros i st Hst. destruct (decide (i ∈ ids)) as [Hin|Hin]; [by apply Hi|].
    eapply touches_stream; [exact Hwf|exact Ht|done|]. apply Hs. by rewrite <- Ho.
  - intros i Hst. destruct (decide (i ∈ ids)) as [Hin|Hin]; [destruct (Hn i Hin) as [? ?]; congruence|].
    rewrite (to_others _ _ _ Ht) by done. apply Ha. by rewrite <- Ho.
  - eapply Forall2_impl; [exact Hk|]. intros sn k. by apply (touches_kept ids).
Qed.
Lemma forget_lookup ids m i : forget ids m !! i = if bool_decide (i ∈ ids) then Some None else m !! i.
Proof.
  induction ids as [|j ids IH]; cbn; [done|]. rewrite lookup_insert. fold (forget ids m). rewrite IH.
  repeat case_decide || case_bool_decide; set_solver.
Qed.
Lemma agrees_forget ids x h b :
  agrees x h → touches ids x.1 b → agrees (b, x.2) (mkHistory (forget ids (hi_streams h)) (hi_snapshots h)).
Proof.
  intros Hx Ht. apply (agrees_touch ids x h b); try done; intros i; rewrite forget_lookup.
  - intros Hi. by rewrite bool_decide_eq_false_2.
  - intros st Hi. by rewrite bool_decide_eq_true_2.
  - intros Hi. by rewrite bool_decide_eq_true_2.
Qed.
Lemma note_other ts ads m i : i ∉ ad_id <$> ads → note ts ads m !! i = m !! i.
Proof.
  induction ads as [|a ads IH]; intros Hi; cbn; [done|]. apply not_elem_of_cons in Hi as [Hne Hi].
  rewrite lookup_insert_ne by done. by apply IH.
Qed.
Lemma note_lookup ts ads m i : i ∈ ad_id <$> ads → ∃ a, a ∈ ads ∧ ad_id a = i ∧
  note ts ads m !! i = Some (Some (mkStream (ad_first a) (ad_tokens a) (if ad_emit a then gt_token_id <$> ts !! i else None))).
Proof.
  induction ads as [|a ads IH]; intros Hi; [by apply not_elem_of_nil in Hi|]. cbn.
  destruct (decide (i = ad_id a)) as [->|Hne].
  - exists a. rewrite lookup_insert_eq. split_and!; [by left|done..].
  - apply elem_of_cons in Hi as [?|Hi]; [done|]. destruct (IH Hi) as (a' & Ha' & E & Hl). exists a'.
    rewrite lookup_insert_ne by done. split_and!; [by right|done..].
Qed.
(** The sequence is where the call takes it. *)
Definition advanced (b : Backend) (ts : Tokens) (a : Advance) : Prop :=
  if ad_emit a then ∃ t, ts !! ad_id a = Some t ∧ served b (ad_id a) (ad_first a) (ad_tokens a) (ad_parameters a) (ad_index a) t
  else ∃ sq, tb_sequences b !! ad_id a = Some sq ∧ sequence_ok b sq (ad_first a) (ad_tokens a).
Lemma agrees_note ads ts x h b :
  agrees x h → touches (ad_id <$> ads) x.1 b → (∀ a, a ∈ ads → advanced b ts a) →
  agrees (b, x.2) (mkHistory (note ts ads (hi_streams h)) (hi_snapshots h)).
Proof.
  intros Hx Ht Ha. apply (agrees_touch (ad_id <$> ads) x h b); try done.
  - intros i Hi. by apply note_other.
  - intros i st Hi. destruct (note_lookup ts ads (hi_streams h) i Hi) as (a & Hin & <- & ->). intros [= <-].
    specialize (Ha a Hin). unfold advanced in Ha. destruct (ad_emit a).
    + destruct Ha as (t & Et & sq & Hsq & Hok & Hl & _). exists sq. rewrite Et. cbn. split_and!; [done..|]. by intros ? [= <-].
    + destruct Ha as (sq & Hsq & Hok). by exists sq.
  - intros i Hi. destruct (note_lookup ts ads (hi_streams h) i Hi) as (a & _ & _ & ->). done.
Qed.

(** ** Each call *)

Lemma quiet_unload_model : quiet unload_model.
Proof.
  apply quiet_bind; [apply quiet_gets|]. intros. apply quiet_bind; [apply quiet_when|]. intros. apply quiet_unload.
Qed.
Lemma quiet_vocabulary : quiet vocabulary_size.
Proof.
  apply quiet_bind; [apply quiet_load|]. intros. apply quiet_bind; [apply quiet_tokenizer|]. intros. apply quiet_ret.
Qed.
Lemma quiet_eos : quiet eos_token_ids.
Proof.
  apply quiet_bind; [apply quiet_load|]. intros. apply quiet_bind; [apply quiet_model|]. intros.
  apply quiet_bind; [apply quiet_tokenizer|]. intros. apply quiet_ret.
Qed.
Lemma quiet_tokenize p : quiet (tokenize p).
Proof.
  apply quiet_bind; [apply quiet_load|]. intros. apply quiet_bind; [apply quiet_tokenizer|]. intros. apply quiet_lift.
Qed.
Lemma quiet_capacity : quiet (capacity int_of_str).
Proof.
  apply quiet_bind; [apply quiet_gets|]. intros b. cbv zeta. destruct (negb _); [apply quiet_ret|].
  apply quiet_bind; [apply quiet_lift|]. intros. apply quiet_bind; [by intros ?|]. intros. apply quiet_ret.
Qed.
Lemma run_touches ids (b : Backend) {A} (c : M A) (Q : A → Backend → Prop) :
  well_formed b → hoare (spare ids b []) c Q (λ _, touches ids b) → (∀ a b', Q a b' → touches ids b b') →
  touches ids b (c b).2.
Proof.
  intros Hwf Hc HQ. specialize (Hc b (spare_nil _ _ _ (touches_start _ _ Hwf))).
  destruct (c b) as [[e|a] b']; [done|]. by eapply HQ.
Qed.
Lemma bind_touches ids (b : Backend) {A C} (c : M A) (f : A → C) :
  touches ids b (c b).2 → touches ids b ((a ← c; mret (M := M) (f a)) b).2.
Proof. unfold mbind, M_bind. by destruct (c b) as [[e|a] b']. Qed.
Lemma quiet_touches ids (b : Backend) {A} (c : M A) : well_formed b → quiet c → touches ids b (c b).2.
Proof. intros Hwf Hq. eapply run_touches; [done|by apply run_quiet|]. by intros a b' [? ? ? ?]. Qed.
(** [shutdown] is the only call that works on all sequences. *)
Lemma call_touches c x h : agrees x h → c ≠ CShutdown → touches (ids_of h c) x.1 (backend_call x.2 c x.1).2.
Proof.
  intros [Hwf _ _ Hk] Hc. apply Forall2_length in Hk.
  assert (∀ k, is_Some (x.2 !! k) ↔ is_Some (hi_snapshots h !! k)) as Hsn.
  { intros k. rewrite !lookup_lt_is_Some. lia. }
  destruct c; try done; cbn [ids_of backend_call]; try (apply bind_touches).
  1-6: apply quiet_touches; [done|]. 
  - apply quiet_load.
  - apply quiet_unload_model.
  - apply quiet_vocabulary.
  - apply quiet_eos.
  - apply quiet_tokenize.
  - apply quiet_capacity.
  - eapply run_touches; [done|by apply run_prefill; left|done].
  - eapply run_touches; [done|apply run_prefill_batch|done]. intros r Hr. apply list_elem_of_fmap. by exists r.
  - eapply run_touches; [done|by apply run_chunk; left|done].
  - eapply run_touches; [done|by apply run_decode; left|done].
  - eapply run_touches; [done|apply run_decode_batch|done]. intros r Hr. apply list_elem_of_fmap. by exists r.
  - eapply run_touches; [done|apply run_snapshot|done].
  - destruct (x.2 !! k) as [sn|] eqn:E.
    + destruct (proj1 (Hsn k)) as [y ->]; [by rewrite E|]. apply bind_touches.
      eapply run_touches; [done|by apply run_restore; left|]. by intros ? ? [? ? ? ?].
    + apply quiet_touches; [done|apply quiet_ret].
  - destruct (x.2 !! k) as [sn|] eqn:E.
    + destruct (proj1 (Hsn k)) as [y ->]; [by rewrite E|]. apply bind_touches.
      eapply run_touches; [done|by apply run_resume; left|done].
    + apply quiet_touches; [done|apply quiet_ret].
  - eapply run_touches; [done|by apply run_release; left|]. by intros ? ? [? ? ? ?].
Qed.
(** What a successful call does, when something is claimed of it. *)
Definition serves (h : History) (c : Call) (ads : list Advance) (ts : Tokens) (b : Backend) : Prop :=
  ad_id <$> ads = ids_of h c ∧ (∀ a, a ∈ ads → advanced b ts a) ∧ ∀ i, i ∉ ids_of h c → ts !! i = None.
Lemma serves_one h c a t b :
  ids_of h c = [ad_id a] → ad_emit a = true →
  served b (ad_id a) (ad_first a) (ad_tokens a) (ad_parameters a) (ad_index a) t → serves h c [a] {[ ad_id a := t ]} b.
Proof.
  intros Hi He Hs. unfold serves. rewrite Hi. split_and!; [done| |].
  - intros a' ->%list_elem_of_singleton. unfold advanced. rewrite He. exists t. split; [apply lookup_singleton_eq|done].
  - intros i Hn. apply lookup_singleton_ne. intros E. apply Hn. rewrite E. by left.
Qed.
Lemma one_token_inv i (c : M GeneratedToken) b ts sn b' :
  one_token i c b = (inr (ts, sn), b') → ∃ t, c b = (inr t, b') ∧ ts = {[ i := t ]} ∧ sn = None.
Proof. intros E. apply bind_inr_inv in E as (t & b1 & E & [= <- <- <-]). by exists t. Qed.
Lemma batch_tokens_inv (c : M BatchTokenResult) b ts sn b' :
  batch_tokens c b = (inr (ts, sn), b') → ∃ r, c b = (inr r, b') ∧ ts = br_tokens r ∧ sn = None.
Proof. intros E. apply bind_inr_inv in E as (r & b1 & E & [= <- <- <-]). by exists r. Qed.
Lemma kept_snapshot x h k sn p ts :
  agrees x h → x.2 !! k = Some sn → hi_snapshots h !! k = Some (Some (p, ts)) → snapshot_ok x.1 sn p ts.
Proof.
  intros Hx Hs Hk. destruct (Forall2_lookup_lr _ _ _ _ _ _ (ag_kept _ _ Hx) Hs Hk) as (_ & _ & H'). by apply H'.
Qed.
Lemma kept_same x h k : agrees x h → x.2 !! k = None ↔ hi_snapshots h !! k = None.
Proof. intros Hx%ag_kept%Forall2_length. rewrite !lookup_ge_None. by rewrite Hx. Qed.
Lemma decode_advance_inv x h r a : agrees x h → decode_advance h r = Some a →
  ∃ m sq, known h r.1.1 = Some m ∧ tb_sequences x.1 !! r.1.1 = Some sq ∧ sequence_ok x.1 sq (sm_first m) (sm_tokens m) ∧
    a = mkAdvance r.1.1 r.1.2 r.2 (sm_first m) (sm_tokens m ++ [sc_last_token_id sq]) true.
Proof.
  intros Hx. unfold decode_advance, known. destruct (hi_streams h !! r.1.1) as [[[p ts [t|]]|]|] eqn:E; try done.
  intros [= <-]. destruct (ag_streams _ _ Hx _ _ E) as (sq & Hsq & Hok & Hl). eexists _, sq. split_and!; try done.
  by rewrite (Hl t eq_refl).
Qed.
Lemma prefill_serves x h i p s ads t b' :
  agrees x h → expected h (CPrefill i p s) = Some ads → prefill i p s x.1 = (inr t, b') →
  serves h (CPrefill i p s) ads {[ i := t ]} b'.
Proof.
  intros Hx. cbn. case_bool_decide; [done|]. intros [= <-] E.
  apply (serves_one _ _ (mkAdvance i s 0 0 (tp_token_ids p) true)); [done..|]. cbn.
  eapply prefill_served; [apply Hx|done..].
Qed.
Lemma prefill_batch_serves x h rs ads r b' :
  agrees x h → expected h (CPrefillBatch rs) = Some ads → prefill_batch rs x.1 = (inr r, b') →
  serves h (CPrefillBatch rs) ads (br_tokens r) b'.
Proof.
  intros Hx. cbn. destruct (existsb _ rs) eqn:Ee; [done|]. intros [= <-] E.
  apply prefill_batch_served in E as (_ & Hno & Hr); [|apply Hx|].
  2:{ intros q Hq Eq. rewrite (proj2 (existsb_exists _ rs)) in Ee; [done|]. exists q. split; [by apply list_elem_of_In|].
      by apply bool_decide_eq_true. }
  split_and!; [by rewrite <- list_fmap_compose| |done].
  intros a (q & -> & Hq)%list_elem_of_fmap. exact (Hr q Hq).
Qed.
Lemma chunk_serves x h i p s final ads o b' :
  agrees x h → expected h (CPrefillChunk i p s final) = Some ads → prefill_chunk i p s final x.1 = (inr o, b') →
  serves h (CPrefillChunk i p s final) ads (match o with Some t => {[ i := t ]} | None => ∅ end) b'.
Proof.
  intros Hx. cbn [expected]. case_bool_decide as Hne; [done|]. intros Hads E.
  assert (∃ q ts, ads = [mkAdvance i s 0 q (ts ++ tp_token_ids p) final] ∧ starts_from x.1 i q ts) as (q & ts & -> & Hst).
  { unfold starts_from. destruct (hi_streams h !! i) as [[m|]|] eqn:Eh; [|done|]; injection Hads as <-.
    - destruct (ag_streams _ _ Hx _ _ Eh) as (sq & -> & [Hh _] & _). by eexists _, _.
    - rewrite (ag_absent _ _ Hx _ Eh). by exists 0, []. }
  eapply chunk_served in E; [|apply Hx|done|exact Hst]. destruct final.
  - destruct E as (t & -> & Hs). by apply (serves_one _ _ (mkAdvance i s 0 q (ts ++ tp_token_ids p) true)).
  - destruct E as [-> Hs]. split_and!; [done| |done]. by intros a ->%list_elem_of_singleton.
Qed.
Lemma decode_serves x h i s n ads t b' :
  agrees x h → expected h (CDecode i s n) = Some ads → decode i s n x.1 = (inr t, b') →
  serves h (CDecode i s n) ads {[ i := t ]} b'.
Proof.
  intros Hx. cbn [expected]. destruct (decode_advance h (i, s, n)) as [a|] eqn:Ea; [|done]. intros [= <-] E.
  apply (decode_advance_inv x) in Ea as (m & sq & _ & Hsq & Hok & ->); [|done].
  apply (serves_one _ _ (mkAdvance i s n (sm_first m) (sm_tokens m ++ [sc_last_token_id sq]) true)); [done..|].
  eapply decode_served; [apply Hx|done..].
Qed.
Lemma decode_batch_serves x h rs ads res b' :
  agrees x h → expected h (CDecodeBatch rs) = Some ads → decode_batch rs x.1 = (inr res, b') →
  serves h (CDecodeBatch rs) ads (br_tokens res) b'.
Proof.
  intros Hx. cbn [expected]. case_bool_decide as Hd; [|done]. intros Hads%mapM_Some E.
  set (st := λ r : DecodeRequest, match known h r.1.1 with Some m => (sm_first m, sm_tokens m) | None => (0, []) end : Z * list Z).
  assert (∀ (q : DecodeRequest) a, decode_advance h q = Some a → ∃ sq, tb_sequences x.1 !! q.1.1 = Some sq ∧
    sequence_ok x.1 sq (st q).1 (st q).2 ∧ a = mkAdvance q.1.1 q.1.2 q.2 (st q).1 ((st q).2 ++ [sc_last_token_id sq]) true) as Hst.
  { intros q a (m & sq & Em & Hsq & Hok & ->)%(decode_advance_inv x); [|done]. exists sq. unfold st. by rewrite Em. }
  clearbody st. assert (ad_id <$> ads = (λ r : DecodeRequest, r.1.1) <$> rs) as Hids.
  { clear E Hd. induction Hads as [|q a rs ads Ha _ IH]; [done|]. cbn. rewrite IH. f_equal.
    by destruct (Hst _ _ Ha) as (sq & _ & _ & ->). }
  destruct (decode_batch_served x.1 st rs res b') as (_ & Hno & Hr); [apply Hx|done| |exact E|].
  { intros q [j Hq]%list_elem_of_lookup. destruct (Forall2_lookup_l _ _ _ _ _ Hads Hq) as (a & _ & Ha).
    destruct (Hst _ _ Ha) as (sq & Hsq & Hok & _). by exists sq. }
  split_and!; [done| |done]. intros a [j Ha]%list_elem_of_lookup.
  destruct (Forall2_lookup_r _ _ _ _ _ Hads Ha) as (q & Hq & Hqa). destruct (Hst _ _ Hqa) as (sq & Hsq & _ & ->).
  destruct (Hr q) as (g & Hg & sq' & Hsq' & Hs); [by eapply list_elem_of_lookup_2|].
  assert (sq' = sq) as -> by congruence. by exists g.
Qed.
Lemma restore_serves x h i k s ads sn t b' :
  agrees x h → x.2 !! k = Some sn → expected h (CRestore i k s) = Some ads → restore_prefix i sn s x.1 = (inr t, b') →
  serves h (CRestore i k s) ads {[ i := t ]} b'.
Proof.
  intros Hx Hs He E. cbn [expected] in He. destruct (hi_snapshots h !! k) as [[[p ts]|]|] eqn:Ek; [|done|].
  - injection He as <-. apply (serves_one _ _ (mkAdvance i s 0 p ts true)); [cbn; by rewrite Ek|done|].
    eapply restore_served; [apply Hx| |done]. by eapply kept_snapshot.
  - apply (kept_same x h k Hx) in Ek. congruence.
Qed.
Lemma resume_serves x h i k q s ads sn t b' :
  agrees x h → x.2 !! k = Some sn → expected h (CResume i k q s) = Some ads → resume_prefix i sn q s x.1 = (inr t, b') →
  serves h (CResume i k q s) ads {[ i := t ]} b'.
Proof.
  intros Hx Hs He E. cbn [expected] in He. destruct (hi_snapshots h !! k) as [[[p ts]|]|] eqn:Ek; [|done|].
  - injection He as <-. apply (serves_one _ _ (mkAdvance i s 0 p (ts ++ tp_token_ids q) true)); [cbn; by rewrite Ek|done|].
    eapply resume_served; [apply Hx| |done]. by eapply kept_snapshot.
  - apply (kept_same x h k Hx) in Ek. congruence.
Qed.
(** The calls whose history [after] gives by [expected] alone. *)
Definition ordinary (c : Call) : Prop :=
  match c with CRelease _ | CShutdown | CSnapshot _ => False | _ => True end.
Lemma call_serves c x h ads ts sn b' :
  ordinary c → agrees x h → expected h c = Some ads → backend_call x.2 c x.1 = (inr (ts, sn), b') →
  sn = None ∧ serves h c ads ts b'.
Proof.
  intros Ho Hx He E. destruct c; try done; cbn [backend_call] in E;
    try (injection He as <-; apply bind_inr_inv in E as (a & b1 & _ & [= <- <- _]); split; [done|]; split_and!;
         [done|by intros a' ?%not_elem_of_nil|done]).
  - apply one_token_inv in E as (t & E & -> & ->). split; [done|]. by eapply prefill_serves.
  - apply batch_tokens_inv in E as (r & E & -> & ->). split; [done|]. by eapply prefill_batch_serves.
  - apply bind_inr_inv in E as (o & b1 & E & [= <- <- <-]). split; [done|]. by eapply chunk_serves.
  - apply one_token_inv in E as (t & E & -> & ->). split; [done|]. by eapply decode_serves.
  - apply batch_tokens_inv in E as (r & E & -> & ->). split; [done|]. by eapply decode_batch_serves.
  - destruct (x.2 !! k) as [s|] eqn:Es.
    + apply one_token_inv in E as (t & E & -> & ->). split; [done|]. by eapply restore_serves.
    + injection E as <- <- <-. split; [done|]. apply (kept_same x h k Hx) in Es. cbn [expected] in He. rewrite Es in He.
      injection He as <-. split_and!; [cbn; by rewrite Es|by intros a' ?%not_elem_of_nil|done].
  - destruct (x.2 !! k) as [s|] eqn:Es.
    + apply one_token_inv in E as (t & E & -> & ->). split; [done|]. by eapply resume_serves.
    + injection E as <- <- <-. split; [done|]. apply (kept_same x h k Hx) in Es. cbn [expected] in He. rewrite Es in He.
      injection He as <-. split_and!; [cbn; by rewrite Es|by intros a' ?%not_elem_of_nil|done].
Qed.
Lemma reply_none h c ts : expected h c = Some [] → ts = ∅ → reply_ok h c (inr ts).
Proof. intros E ->. unfold reply_ok. rewrite E. split; [by intros a ?%not_elem_of_nil|done]. Qed.
Lemma ordinary_step x h c ts sn b :
  ordinary c → agrees x h → backend_call x.2 c x.1 = (inr (ts, sn), b) →
  reply_ok h c (inr ts) ∧ agrees (b, x.2 ++ option_list sn) (after h c (inr ts)).
Proof.
  intros Ho Hx E. assert (touches (ids_of h c) x.1 b) as Ht.
  { pose proof (call_touches c x h Hx) as Ht. rewrite E in Ht. apply Ht. by intros ->. }
  assert (after h c (inr ts) = match expected h c with
    | None => mkHistory (forget (ids_of h c) (hi_streams h)) (hi_snapshots h)
    | Some ads => mkHistory (note ts ads (hi_streams h)) (hi_snapshots h) end) as -> by by destruct c.
  unfold reply_ok. destruct (expected h c) as [ads|] eqn:He.
  - destruct (call_serves c x h ads ts sn b Ho Hx He E) as (-> & Hi & Ha & Hn). rewrite <- Hi in *.
    cbn [option_list]. rewrite app_nil_r. split; [split; [|done]|by apply agrees_note].
    intros a Hin Hem. specialize (Ha a Hin). unfold advanced in Ha. rewrite Hem in Ha.
    destruct Ha as (t & Et & sq & _ & _ & _ & Hok). by exists t.
  - split; [done|]. assert (sn = None) as ->; [|cbn; rewrite app_nil_r; by apply agrees_forget].
    destruct c; try done; cbn [backend_call] in E; try (destruct (x.2 !! k));
      first [by injection E|by apply one_token_inv in E as (? & _ & _ & ->)|by apply batch_tokens_inv in E as (? & _ & _ & ->)|
             by apply bind_inr_inv in E as (? & ? & _ & [= _ <- _])].
Qed.
Lemma snapshot_step x h i sn b :
  agrees x h → snapshot_prefix i x.1 = (inr sn, b) → agrees (b, x.2 ++ [sn]) (after h (CSnapshot i) (inr ∅)).
Proof.
  intros Hx E. pose proof (call_touches (CSnapshot i) x h Hx ltac:(done)) as Ht. cbn [backend_call ids_of] in Ht.
  rewrite (bind_eq _ _ _ _ _ E) in Ht. cbn in Ht. apply snapshot_inv in E as (sq & Hsq & Hn & -> & Hok).
  pose proof (agrees_touch [] x h _ (hi_streams h) Hx Ht ltac:(done) ltac:(by intros ? ? ?%not_elem_of_nil)
    ltac:(by intros ? ?%not_elem_of_nil)) as [Hwf Hs Ha Hk]. cbn in Hs, Ha, Hk. split; [done..|].
  apply Forall2_app; [done|]. constructor; [|constructor]. split_and!.
  - cbn. rewrite lookup_insert_eq. done.
  - intros j s Hj Es. destruct (wf_alive _ (ag_wf _ _ Hx) j s Hj) as [c Hc]. congruence.
  - intros p ts Em. unfold known in Em. destruct (hi_streams h !! i) as [[m|]|] eqn:Eh; [|done..]. cbn in Em.
    injection Em as <- <-. destruct (ag_streams _ _ Hx _ _ Eh) as (sq' & Hsq' & Hsok & _).
    assert (sq' = sq) as -> by congruence. by apply Hok.
Qed.
Lemma release_step x h i b :
  agrees x h → release_sequence i x.1 = (inr tt, b) → agrees (b, x.2) (after h (CRelease i) (inr ∅)).
Proof.
  intros Hx [= <-]. pose proof (call_touches (CRelease i) x h Hx ltac:(done)) as Ht. cbn in Ht.
  destruct Hx as [Hwf Hs Ha Hk]. split; cbn.
  - apply Ht.
  - intros j m [Hne Hm]%lookup_delete_Some. eapply touches_stream; [exact Hwf|exact Ht| |by apply Hs].
    by intros ->%list_elem_of_singleton.
  - intros j [<-|Hj]%lookup_delete_None; [apply lookup_delete_eq|].
    apply lookup_delete_None. right. by apply Ha.
  - eapply Forall2_impl; [exact Hk|]. intros sn k. by apply (touches_kept [i]).
Qed.
Lemma release_all l (b : Backend) : ∃ b', for_each release_sequence l b = (inr tt, b') ∧
  tb_caches b' = tb_caches b ∧ tb_worker b' = tb_worker b ∧
  ∀ i, tb_sequences b' !! i = if bool_decide (i ∈ l) then None else tb_sequences b !! i.
Proof.
  revert b. induction l as [|j l IH]; intros b; [by exists b|]. cbn [for_each].
  destruct (IH (b <| tb_sequences ::= delete j |>)) as (b' & E & Ec & Ew & Hs). exists b'.
  rewrite (bind_eq _ _ b tt (b <| tb_sequences ::= delete j |>)) by done. split_and!; [done..|].
  intros i. rewrite Hs. cbn. rewrite lookup_delete. repeat case_decide || case_bool_decide; set_solver.
Qed.
Lemma shutdown_step x h r b :
  agrees x h → shutdown x.1 = (r, b) → r = inr tt ∧ agrees (b, x.2) (after h CShutdown (inr ∅)).
Proof.
  intros [Hwf Hs Ha Hk]. destruct (release_all (map_to_list (tb_sequences x.1)).*1 x.1) as (b1 & E1 & Ec & Ew & Hl).
  assert (∀ i, tb_sequences b1 !! i = None) as Hnone.
  { intros i. rewrite Hl. case_bool_decide as Hi; [done|]. destruct (tb_sequences x.1 !! i) as [s|] eqn:Es; [|done].
    destruct Hi. apply list_elem_of_fmap. exists (i, s). split; [done|]. by apply elem_of_map_to_list. }
  unfold shutdown. rewrite (bind_eq _ _ x.1 (tb_sequences x.1) x.1), (bind_eq _ _ _ _ _ E1) by done.
  rewrite (bind_eq _ _ b1 tt (b1 <| tb_worker := (unload (tb_worker b1)).2 |>)) by done.
  intros [= <- <-]. split; [done|]. split; cbn.
  - split; cbn; [|by intros i s; rewrite Hnone|by intros i j s t; rewrite Hnone]. rewrite Ew. apply unload_ok, Hwf.
  - by intros i m ?%lookup_empty_Some.
  - intros i _. apply Hnone.
  - eapply Forall2_impl; [exact Hk|]. intros sn k (H1' & H2' & H3'). unfold kept_ok. cbn. rewrite Ec.
    split_and!; [done|by intros i s; rewrite Hnone|]. intros p ts E. destruct (H3' p ts E) as [Hh Hlg]. split; [|done].
    by rewrite (cache_at_same _ x.1).
Qed.
Lemma perform_agrees c x h r x' :
  agrees x h → perform c x = (r, x') → reply_ok h c r ∧ agrees x' (after h c r).
Proof.
  intros Hx. unfold perform. destruct (backend_call x.2 c x.1) as [[e|[ts sn]] b] eqn:E.
  - intros [= <- <-]. split; [done|].
    assert (c = CShutdown ∨ c ≠ CShutdown) as [->|Hc] by (destruct c; first [by left|by right]).
    { cbn [backend_call] in E. unfold no_tokens, mbind, M_bind in E. destruct (shutdown x.1) as [r b1] eqn:Es.
      apply (shutdown_step x h) in Es as [-> _]; done. }
    cbn [after]. apply agrees_forget; [done|]. pose proof (call_touches c x h Hx Hc) as Ht. by rewrite E in Ht.
  - intros [= <- <-]. destruct c; try by apply (ordinary_step x h _ ts sn b).
    + apply bind_inr_inv in E as (s & b1 & E & [= <- <- <-]). split; [by apply reply_none|]. by apply (snapshot_step x).
    + apply bind_inr_inv in E as ([] & b1 & E & [= <- <- <-]). split; [by apply reply_none|]. cbn [option_list].
      rewrite app_nil_r. by apply release_step.
    + apply bind_inr_inv in E as ([] & b1 & E & [= <- <- <-]). split; [by apply reply_none|]. cbn [option_list].
      rewrite app_nil_r. by apply (shutdown_step x h (inr tt)).
Qed.
Lemma agrees_faithful calls x h : agrees x h → faithful h (replies calls x).
Proof.
  revert x h. induction calls as [|c calls IH]; intros x h Hx; [done|]. cbn [replies].
  destruct (perform c x) as [r x'] eqn:E. destruct (perform_agrees c x h r x' Hx E) as [Hr Hx']. split; [done|]. by apply IH.
Qed.
(** C3: The token backend asks the model about the right tokens. Take any calls of a client of a new backend, in any
    order: prefills alone, padded in batches or in chunks, decoding steps alone or in batches, snapshots and
    sequences resumed from them, failures, releases and reloads. Every token it reports for a sequence is the
    sampler's choice on logits that the model computes in a right call ([asks]: cache, tokens, mask and
    positions agree) for a row that attends to exactly the prompt and the earlier tokens of that sequence, at
    consecutive positions; the first is 0, or in a padded batch the number of pads before the prompt. The token
    comes with the decoded text, the index and the true length of the cache, padding included, and no reply has
    a token for another sequence. Nothing is assumed of the logits: whether the same tokens give the same
    logits in another batch is the model's affair. (Nothing is claimed of a sequence after a call on it fails,
    until it is released.) *)
Theorem generation_faithful calls random :
  faithful (mkHistory ∅ [])
    (replies calls (HuggingFaceTokenBackend_init (InferenceWorker_init model_name revision device dtype) random, [])).
Proof.
  apply agrees_faithful. split; cbn; [|by intros i m ?%lookup_empty_Some|done|constructor].
  split; cbn; [by split|by intros i s ?%lookup_empty_Some|by intros i j s t ?%lookup_empty_Some].
Qed.
End safe.

(** ** A run *)

#[local] Existing Instance toy_tensors.
#[local] Existing Instance toy_transformers.
#[local] Existing Instance toy_tensors_laws.
#[local] Existing Instance toy_laws.
#[local] Existing Instance toy_sampler.
Definition sample_params : SamplingParameters := mkSampling 8 f_zero (f_of_Z 1) [].
Definition sample_prompt (l : list Z) : TokenizedPrompt := mkTokenized l.
Definition sample_backend : HuggingFaceTokenBackend unit :=
  HuggingFaceTokenBackend_init (InferenceWorker_init "m" "main" "cpu" "float32") tt.
#[local] Abbreviation num := (λ _ : string, Err (ValueError "")).
(** Two prompts padded in one batch, two steps of both together, and a prefix taken up by another sequence. *)
Definition sample_calls : list Call :=
  [CPrefillBatch [("a", sample_prompt [5; 6; 7], sample_params); ("b", sample_prompt [9], sample_params)];
   CSnapshot "b"; CDecodeBatch [("a", sample_params, 1); ("b", sample_params, 1)]; CDecode "b" sample_params 2;
   CResume "c" 0 (sample_prompt [4; 4]) sample_params; CRelease "a"; CDecode "c" sample_params 1].
Definition reply_ids (tr : list (Call * (PyErr + Tokens))) (id : string) : list (option Z) :=
  (λ p, match p.2 with inr ts => gt_token_id <$> ts !! id | inl _ => None end) <$> tr.
Lemma sample_pinned n t m :
  InferenceWorker.load_model "m" "main" "cpu" "float32" n = Ok (t, m) → t = tt ∧ m = tt.
Proof. by destruct t, m. Qed.
Lemma generation_faithful_witness :
  let tr := replies num sample_calls (sample_backend, []) in
  faithful tt tt (mkHistory ∅ []) tr ∧
  reply_ids tr "c" = [None; None; None; None; Some 64; None; Some 60] ∧
  toy_select (numbered 2 [9; 4; 4]) = 64.
Proof.
  split; [|split; vm_compute; reflexivity].
  exact (generation_faithful num tt tt "m" "main" "cpu" "float32" sample_pinned sample_calls tt).
Defined.
(** The padding of a batch shifts the positions of the shorter prompts, since no [position_ids] are passed: with
    a model that reads absolute positions, the same prompt gives another token in a batch than alone. *)
Lemma batched_prefill_differs :
  reply_ids (replies num [CPrefill "b" (sample_prompt [9]) sample_params] (sample_backend, [])) "b" = [Some 10] ∧
  reply_ids (replies num [CPrefillBatch [("a", sample_prompt [5; 6; 7], sample_params);
                                         ("b", sample_prompt [9], sample_params)]] (sample_backend, [])) "b" = [Some 28].
Proof. split; vm_compute; reflexivity. Qed.
