(* ===== verification/WorkerSafe.v ===== *)
(** The managed worker under concurrency: an invariant of every interleaving of the locked sections of
    its methods. *)
From S2P Require Import Prelude PyContainers PyFloat Domain FairQueue Registry Effects Worker.
From Stdlib Require String.

#[local] Open Scope string_scope.
#[local] Open Scope list_scope.
#[local] Open Scope Z_scope.
#[local] Set Default Proof Using "Type".
#[local] Set Proof Using Clear Unused.

(** ** Calls between two of their sections *)

Inductive Call :=
  | CLoad (model : ModelDefinition) (evictions : list (string * ModelDefinition)) (attempt : Z)
  | CLoaded (model : ModelDefinition) (evictions : list (string * ModelDefinition)) (attempt : Z)
      (outcome : WorkerExc + unit)
  | CLoadEnd (model : ModelDefinition)
  | CUnload (model_id : string) (evicting : option (list string * list string))
  | CEvict (models evicted : list string)
  | CExecute (selected : list loc)
  | CRan (selected : list loc) (outcome : WorkerExc + list RuntimeResult)
  | CEnding (selected : list loc) (outcome : WorkerExc + list RuntimeResult)
  | CCompleting (selected : list loc) (results : list RuntimeResult)
  | CShutdown (models : list string).

(** The load a call is performing, the batch it counts as active, and the requests it holds. *)
Definition call_load (c : Call) : list ModelDefinition :=
  match c with CLoad m _ _ | CLoaded m _ _ _ | CLoadEnd m => [m] | _ => [] end.
Definition call_batch (c : Call) : list (list loc) :=
  match c with CExecute s | CRan s _ | CEnding s _ => [s] | _ => [] end.
Definition call_active (c : Call) : list loc := concat (call_batch c).
Definition call_owned (c : Call) : list loc :=
  match c with CCompleting s _ => s | c => call_active c end.
Definition loads (cs : list Call) : list ModelDefinition := concat (call_load <$> cs).
Definition batches (cs : list Call) : list (list loc) := concat (call_batch <$> cs).
Definition active (cs : list Call) : list loc := concat (call_active <$> cs).
Definition owned (cs : list Call) : list loc := concat (call_owned <$> cs).

(** The methods, as they are called. *)
Inductive Op :=
  | OpRegister | OpHeartbeat
  | OpLoad (model : ModelDefinition) | OpResume (model : ModelDefinition) (waiting_for_attempt : Z)
  | OpUnload (model_id : string) | OpWarmup (model_id : string) | OpEvict
  | OpEnqueue (l : loc) | OpCancel (request_id : string) | OpExecute
  | OpDrain | OpShutdown.

Section sections.
Context {S : Type} `{ModelRuntime S}.
#[local] Abbreviation M := (Eff (Site S) WorkerExc).
Variable clock : nat → float.
Variable perf : nat → float.
Variable hostname : string.

Definition after_plan (model : ModelDefinition) (plan : LoadPlan) : list Call :=
  match plan with LoadStart evictions attempt => [CLoad model evictions attempt] | _ => [] end.
(** The first section of a call, and what is left of the call. *)
Definition start (o : Op) : M (list Call) :=
  match o with
  | OpRegister => _ ← register clock hostname; mret []
  | OpHeartbeat => _ ← heartbeat clock hostname; mret []
  | OpLoad m => plan ← load_begin clock m; mret (after_plan m plan)
  | OpResume m k => plan ← load_resume clock m k; mret (after_plan m plan)
  | OpUnload m => go ← unload_begin m; mret (if go : bool then [CUnload m None] else [])
  | OpWarmup m => _ ← warmup_model m; mret []
  | OpEvict => models ← evict_begin clock; mret [CEvict models []]
  | OpEnqueue l => _ ← enqueue_request clock l; mret []
  | OpCancel i => _ ← cancel_request clock i; mret []
  | OpExecute =>
    selected ← execute_begin clock;
    mret (match selected with Some s => [CExecute s] | None => [] end)
  | OpDrain => _ ← drain; mret []
  | OpShutdown => models ← shutdown_begin clock; mret [CShutdown models]
  end.
(** The next section of a call. *)
Definition continue (c : Call) : M (list Call) :=
  match c with
  | CLoad m evictions attempt =>
    outcome ← Effects.attempt (load_run m evictions); mret [CLoaded m evictions attempt outcome]
  | CLoaded m evictions attempt (inr _) => _ ← load_commit clock m evictions; mret [CLoadEnd m]
  | CLoaded m evictions attempt (inl e) => _ ← load_abort clock m evictions attempt e; mret [CLoadEnd m]
  | CLoadEnd m => started ← perf_counter perf; _ ← load_end perf m started; mret []
  | CUnload m evicting =>
    _ ← unload_finish clock m;
    mret (match evicting with Some (models, evicted) => [CEvict models (evicted ++ [m])] | None => [] end)
  | CEvict [] evicted => _ ← evict_end evicted; mret []
  | CEvict (m :: models) evicted =>
    go ← unload_begin m;
    mret (if go : bool then [CUnload m (Some (models, evicted))] else [CEvict models (evicted ++ [m])])
  | CExecute s => outcome ← Effects.attempt (execute_run s); mret [CRan s outcome]
  | CRan s (inl e) => _ ← Effects.attempt (fail_selected clock s); mret [CEnding s (inl e)]
  | CRan s (inr results) => mret [CEnding s (inr results)]
  | CEnding s (inl _) => _ ← execute_end s; mret []
  | CEnding s (inr results) => _ ← execute_end s; mret [CCompleting s results]
  | CCompleting s results =>
    started ← perf_counter perf; elapsed ← elapsed_since perf started;
    _ ← complete_selected clock elapsed s results; mret []
  | CShutdown models => _ ← shutdown_finish models; mret []
  end.
(** One section of some call, or a change that the rest of the process makes to a request: it ends
    it, or the worker does not hold it. A section that raises ends its call. *)
Definition calls_left (r : WorkerExc + list Call) : list Call :=
  match r with inr cs => cs | inl _ => [] end.
Inductive worker_step : Site S * list Call → Site S * list Call → Prop :=
  | step_start o w cs w' r : start o w = (r, w') → worker_step (w, cs) (w', calls_left r ++ cs)
  | step_continue c w cs1 cs2 w' r :
      continue c w = (r, w') → worker_step (w, cs1 ++ c :: cs2) (w', calls_left r ++ cs1 ++ cs2)
  | step_request w cs l target at_ r :
      transition target at_ (si_heap w !!! l) = Ok r →
      terminal_state target = true ∨ l ∉ mw_queue (si_worker w) ++ owned cs →
      worker_step (w, cs) (w <| si_heap ::= <[l := r]> |>, cs).
End sections.

(** ** The invariant *)

Definition for_model (h : heap) (m : string) (l : loc) : Z :=
  if bool_decide (r_model_id (h !!! l) = m) then 1 else 0.
(** A batch fits the worker's limits, and its requests can be generated together. *)
Definition batch_ok (h : heap) (w : ManagedWorker) (s : list loc) : Prop :=
  Z.of_nat (length s) <= mw_max_batch_size w ∧
  zsum (λ l, estimated_tokens (h !!! l)) s <= mw_max_batch_tokens w ∧
  ∃ l s', s = l :: s' ∧ Forall (λ l', compatible (h !!! l') (h !!! l) = true) s'.
Record worker_inv (cs : list Call) (h : heap) (w : ManagedWorker) : Prop := {
  wi_size : 0 < mw_max_batch_size w;
  wi_depth : Z.of_nat (length (mw_queue w)) <= mw_max_queue_depth w;
  wi_once : NoDup (mw_queue w ++ owned cs);
  wi_queued : ∀ l, l ∈ mw_queue w → r_status (h !!! l) = QUEUED ∨ r_terminal (h !!! l) = true;
  wi_running : ∀ l, l ∈ owned cs → r_status (h !!! l) = RUNNING ∨ r_terminal (h !!! l) = true;
  wi_tokens : ∀ l, l ∈ mw_queue w → estimated_tokens (h !!! l) <= mw_max_batch_tokens w;
  wi_resident : ∀ l, l ∈ mw_queue w → r_model_id (h !!! l) ∈ mw_resident_models w;
  wi_one_load : NoDup (m_model_id <$> loads cs);
  wi_loading : ∀ m, m ∈ mw_loading_models w ↔ m ∈ m_model_id <$> loads cs;
  wi_reserved : mw_reserved_model_memory_bytes w = zsum m_estimated_memory_bytes (loads cs);
  wi_batches : mw_active_batch_count w = Z.of_nat (length (batches cs));
  wi_batch : ∀ s, s ∈ batches cs → batch_ok h w s;
  wi_active : ∀ m, cget (mw_active_requests_by_model w) m = zsum (for_model h m) (active cs)
}.
Definition WI {S} (cs : list Call) (w : Site S) : Prop := worker_inv cs (si_heap w) (si_worker w).

(** Calls that count for the same, or that let go of requests. *)
Lemma worker_inv_calls cs cs' h w :
  loads cs ≡ₚ loads cs' → batches cs ≡ₚ batches cs' → active cs ≡ₚ active cs' →
  owned cs' ⊆+ owned cs → worker_inv cs h w → worker_inv cs' h w.
Proof.
  intros Hl Hb Ha [k Ho]%submseteq_Permutation []. split; try done.
  - eapply (sublist_NoDup _ (k ++ mw_queue w ++ owned cs')); [|by apply sublist_inserts_l].
    by rewrite Permutation_app_swap_app, (Permutation_app_comm k), <- Ho.
  - intros l Hin. apply wi_running0. rewrite Ho. apply elem_of_app. by left.
  - by rewrite <- Hl.
  - intros m. rewrite <- Hl. auto.
  - by rewrite <- (zsum_perm _ _ _ Hl).
  - by rewrite <- Hb.
  - intros s. rewrite <- Hb. auto.
  - intros m. by rewrite <- (zsum_perm _ _ _ Ha).
Qed.
Lemma worker_inv_perm cs cs' h w : cs ≡ₚ cs' → worker_inv cs h w → worker_inv cs' h w.
Proof.
  intros Hp. apply worker_inv_calls; unfold loads, batches, active, owned; by rewrite Hp.
Qed.
(** The next section of a call that holds the same. *)
Lemma worker_inv_next c c' cs h w :
  call_load c = call_load c' → call_batch c = call_batch c' → call_owned c = call_owned c' →
  worker_inv (c :: cs) h w → worker_inv (c' :: cs) h w.
Proof.
  intros Hl Hb Ho. apply worker_inv_calls;
    unfold loads, batches, active, owned, call_active; cbn; by rewrite ?Hl, ?Hb, ?Ho.
Qed.
Lemma worker_inv_drop c cs h w :
  call_load c = [] → call_batch c = [] → worker_inv (c :: cs) h w → worker_inv cs h w.
Proof.
  intros Hl Hb. apply worker_inv_calls;
    unfold loads, batches, active, owned, call_active; cbn; rewrite ?Hl, ?Hb; [done..|].
  by apply submseteq_inserts_l.
Qed.
Lemma worker_inv_add c cs h w :
  call_load c = [] → call_owned c = [] → call_batch c = [] → worker_inv cs h w → worker_inv (c :: cs) h w.
Proof.
  intros Hl Ho Hb. apply worker_inv_calls;
    unfold loads, batches, active, owned, call_active; cbn; by rewrite ?Hl, ?Hb, ?Ho.
Qed.
Lemma terminal_target s target : target ∈ ALLOWED_REQUEST_TRANSITIONS s → terminal_state s = false.
Proof. destruct s; simpl; try done; intros H; by apply not_elem_of_nil in H. Qed.

(** What the worker relies on in a request, besides its status. *)
Definition shape (r : RequestRecord) :=
  (r_model_id r, r_prompt_tokens r, r_max_new_tokens r, r_temperature r, r_stream r).
Lemma transition_shape target at_ r r' : transition target at_ r = Ok r' → shape r' = shape r.
Proof. by intros [_ ->]%transition_Ok. Qed.
Lemma shape_same h h' : (∀ l, shape (h' !!! l) = shape (h !!! l)) →
  (∀ l, r_model_id (h' !!! l) = r_model_id (h !!! l)) ∧
  (∀ l, estimated_tokens (h' !!! l) = estimated_tokens (h !!! l)) ∧
  (∀ w s, batch_ok h w s → batch_ok h' w s).
Proof.
  unfold shape. intros Hs.
  assert (∀ l, estimated_tokens (h' !!! l) = estimated_tokens (h !!! l)) as Ht.
  { intros l. unfold estimated_tokens. specialize (Hs l). congruence. }
  split_and!; [intros l; specialize (Hs l); congruence|done|].
  intros w s (Hl & Hk & l & s' & -> & Hc). split_and!; [done| |].
  - by rewrite (zsum_ext _ _ _ (λ l _, Ht l)).
  - exists l, s'. split; [done|]. eapply Forall_impl; [exact Hc|]. intros l' Hl'.
    unfold compatible in *. pose proof (Hs l) as [= -> _ -> -> ->].
    by pose proof (Hs l') as [= -> _ -> -> ->].
Qed.
Lemma insert_shape (h : heap) l r :
  shape r = shape (h !!! l) → ∀ l', shape (<[l := r]> h !!! l') = shape (h !!! l').
Proof. intros Hr l'. rewrite lookup_total_insert. by destruct (decide (l = l')) as [<-|]. Qed.

(** A request that ends, or that the worker does not hold. *)
Lemma worker_inv_transition cs h w l target at_ r :
  transition target at_ (h !!! l) = Ok r →
  terminal_state target = true ∨ l ∉ mw_queue w ++ owned cs →
  worker_inv cs h w → worker_inv cs (<[l := r]> h) w.
Proof.
  intros Ht Hor [].
  destruct (shape_same _ _ (insert_shape h l r (transition_shape _ _ _ _ Ht))) as (Hmodel & Htokens & Hok).
  apply transition_Ok in Ht as [_ Hr].
  assert (∀ l' s, l' ∈ mw_queue w ++ owned cs →
    r_status (h !!! l') = s ∨ r_terminal (h !!! l') = true →
    r_status (<[l := r]> h !!! l') = s ∨ r_terminal (<[l := r]> h !!! l') = true) as Hstatus.
  { intros l' s Hin Hs. rewrite lookup_total_insert. destruct (decide (l = l')) as [<-|]; [|done].
    destruct Hor as [Hor|Hor]; [|done]. right. by rewrite Hr. }
  split; try done.
  - intros l' Hl'. apply Hstatus; [apply elem_of_app; by left|auto].
  - intros l' Hl'. apply Hstatus; [apply elem_of_app; by right|auto].
  - intros l' Hl'. rewrite Htokens. auto.
  - intros l' Hl'. rewrite Hmodel. auto.
  - intros s Hs. auto.
  - intros m. rewrite wi_active0. apply zsum_ext. intros l' _. unfold for_model. by rewrite Hmodel.
Qed.
(** A queue that lost requests or was reordered. *)
Lemma worker_inv_queue cs h w q :
  q ⊆+ mw_queue w → worker_inv cs h w → worker_inv cs h (w <| mw_queue := q |>).
Proof.
  intros Hs []. pose proof (submseteq_length _ _ Hs).
  assert (∀ l, l ∈ q → l ∈ mw_queue w) as Hin by (intros l ?; by eapply elem_of_submseteq).
  split; try done; cbn; [lia| |auto|auto|auto].
  apply submseteq_Permutation in Hs as [k Hk]. rewrite Hk in wi_once0.
  eapply (sublist_NoDup _ (k ++ q ++ owned cs));
    [by rewrite app_assoc, (Permutation_app_comm k q)|by apply sublist_inserts_l].
Qed.

(** An assigned request enters the queue. *)
Lemma worker_inv_enqueue cs h w l at_ r :
  r_status (h !!! l) = ASSIGNED → transition QUEUED at_ (h !!! l) = Ok r →
  r_model_id (h !!! l) ∈ mw_resident_models w →
  estimated_tokens (h !!! l) <= mw_max_batch_tokens w →
  Z.of_nat (length (mw_queue w)) < mw_max_queue_depth w →
  worker_inv cs h w → worker_inv cs (<[l := r]> h) (w <| mw_queue ::= λ q, q ++ [l] |>).
Proof.
  intros Hst Ht Hres Htok Hdepth Hw. pose proof Hw as [].
  assert (l ∉ mw_queue w ++ owned cs) as Hnew.
  { intros [Hl|Hl]%elem_of_app.
    - apply wi_queued0 in Hl as [Hl|Hl]; [congruence|]. unfold r_terminal in Hl. by rewrite Hst in Hl.
    - apply wi_running0 in Hl as [Hl|Hl]; [congruence|]. unfold r_terminal in Hl. by rewrite Hst in Hl. }
  destruct (worker_inv_transition cs h w l QUEUED at_ r Ht (or_intror Hnew) Hw).
  destruct (shape_same _ _ (insert_shape h l r (transition_shape _ _ _ _ Ht))) as (Hmodel & Htokens & _).
  apply transition_Ok in Ht as [_ Hr].
  split; try done; cbn.
  - rewrite length_app. simpl. lia.
  - rewrite <- app_assoc. cbn. rewrite <- Permutation_middle. by apply NoDup_cons.
  - intros l' [Hl'| ->%list_elem_of_singleton]%elem_of_app; [auto|].
    rewrite lookup_total_insert_eq. left. by rewrite Hr.
  - intros l' [Hl'| ->%list_elem_of_singleton]%elem_of_app; [auto|].
    by rewrite Htokens.
  - intros l' [Hl'| ->%list_elem_of_singleton]%elem_of_app; [auto|].
    by rewrite Hmodel.
Qed.

Section safe.
Context {S : Type} `{ModelRuntime S}.
#[local] Abbreviation World := (Site S).
#[local] Abbreviation M := (Eff World WorkerExc).
#[local] Abbreviation hoare := (Effects.hoare (W := World) (X := WorkerExc)).
#[local] Abbreviation never := (Effects.never (W := World) (X := WorkerExc)).
Implicit Types (w : World) (cs : list Call).
Variable clock : nat → float.
Variable perf : nat → float.
Variable hostname : string.

#[local] Abbreviation keeps cs := (preserves (W := World) (X := WorkerExc) (WI cs)).
Lemma keeps_lift_res {A} cs (r : res A) : keeps cs (lift_res r).
Proof. intros w Hw. by destruct r. Qed.
Lemma keeps_worker_update cs f : (∀ h x, worker_inv cs h x → worker_inv cs h (f x)) → keeps cs (update f).
Proof. intros Hf. apply preserves_modify. intros w. apply Hf. Qed.
Lemma keeps_worker_monotonic cs : keeps cs (monotonic clock).
Proof. intros w Hw. exact Hw. Qed.
Lemma keeps_perf_counter cs : keeps cs (perf_counter perf).
Proof. intros w Hw. exact Hw. Qed.
Lemma keeps_runtime_call {A} cs (c : Eff S PyErr A) : keeps cs (runtime_call c).
Proof. intros w Hw. unfold runtime_call. by destruct (c (si_runtime w)) as [[]]. Qed.
Lemma keeps_touch cs m now : keeps cs (touch m now).
Proof. apply keeps_worker_update. intros h w []. by split. Qed.
Lemma keeps_touch_now cs m : keeps cs (touch_now clock m).
Proof. apply preserves_bind; [apply keeps_worker_monotonic|]. intros now. apply keeps_touch. Qed.
(** The request is ended, if its state allows it. *)
Lemma keeps_transition cs l target at_ : terminal_state target = true → keeps cs (transition_at l target at_).
Proof.
  intros Ht w Hw. unfold transition_at, get_request.
  rewrite (bind_eq _ _ w (si_heap w !!! l) w) by done.
  destruct (transition target at_ (si_heap w !!! l)) as [r|e] eqn:E; [|exact Hw].
  rewrite (bind_eq _ _ w r w) by done. eapply worker_inv_transition; [exact E|by left|exact Hw].
Qed.
Lemma keeps_transition_now cs l target : terminal_state target = true → keeps cs (transition_now clock l target).
Proof.
  intros Ht. apply preserves_bind; [apply keeps_worker_monotonic|]. intros now. by apply keeps_transition.
Qed.

(** *** Single sections *)

Lemma keeps_snapshot cs : keeps cs (snapshot clock hostname).
Proof.
  apply preserves_bind; [apply keeps_runtime_call|]. intros c. apply preserves_bind; [apply preserves_gets|].
  intros w. apply preserves_bind; [apply keeps_worker_monotonic|]. intros now. apply keeps_lift_res.
Qed.
Lemma keeps_register cs : keeps cs (register clock hostname).
Proof.
  apply preserves_bind; [apply preserves_gets|]. intros w. apply preserves_bind.
  { case_bool_decide; [|apply preserves_ret]. apply keeps_worker_update. intros h w' []. by split. }
  intros _. apply preserves_bind; [apply keeps_worker_update; intros h w' []; by split|]. intros _.
  apply preserves_bind; [apply keeps_snapshot|]. intros s. apply preserves_bind; [apply keeps_worker_monotonic|].
  intros now. apply preserves_bind; [by apply preserves_modify|]. intros _. apply preserves_ret.
Qed.
Lemma keeps_heartbeat cs : keeps cs (heartbeat clock hostname).
Proof.
  apply preserves_bind; [apply preserves_gets|]. intros w. case_head; [apply preserves_raise|].
  apply preserves_bind; [apply keeps_snapshot|]. intros s. apply preserves_bind; [apply keeps_worker_monotonic|].
  intros now. apply preserves_bind; [apply preserves_gets|]. intros reg.
  apply preserves_bind; [apply keeps_lift_res|]. intros reg'.
  apply preserves_bind; [by apply preserves_modify|]. intros _. apply preserves_ret.
Qed.
Lemma keeps_worker_drain cs : keeps cs drain.
Proof.
  apply preserves_bind; [apply preserves_gets|]. intros w. case_head; [apply preserves_raise|].
  apply keeps_worker_update. intros h w' []. by split.
Qed.
Lemma keeps_warmup cs m : keeps cs (warmup_model m).
Proof.
  apply preserves_bind; [apply preserves_gets|]. intros w. case_head; [apply preserves_raise|].
  apply keeps_runtime_call.
Qed.
Lemma transition_at_Ok l target at_ w r :
  transition target at_ (si_heap w !!! l) = Ok r →
  transition_at l target at_ w = (inr tt, w <| si_heap ::= <[l := r]> |>).
Proof.
  intros E. unfold transition_at, get_request. rewrite (bind_eq _ _ w (si_heap w !!! l) w) by done.
  by rewrite E.
Qed.
Lemma transition_at_Err l target at_ w e :
  transition target at_ (si_heap w !!! l) = Err e → transition_at l target at_ w = (inl (EPy e), w).
Proof.
  intros E. unfold transition_at, get_request. rewrite (bind_eq _ _ w (si_heap w !!! l) w) by done.
  by rewrite E.
Qed.
Lemma keeps_enqueue cs l : keeps cs (enqueue_request clock l).
Proof.
  intros w Hw. unfold enqueue_request, get_worker, get_request.
  rewrite (bind_eq _ _ w (si_worker w) w), (bind_eq _ _ w (si_heap w !!! l) w) by done.
  repeat (case_head; [exact Hw|]). bool_hyps. unfold transition_now.
  set (w1 := w <| si_readings ::= Datatypes.S |>).
  destruct (transition QUEUED (clock (si_readings w)) (si_heap w !!! l)) as [r|e] eqn:E.
  - assert ((now ← monotonic clock; transition_at l QUEUED now) w
            = (inr tt, w1 <| si_heap ::= <[l := r]> |>)) as Et by by apply transition_at_Ok.
    rewrite (bind_eq _ _ w _ _ Et). by eapply worker_inv_enqueue; [..|exact Hw].
  - assert ((now ← monotonic clock; transition_at l QUEUED now) w = (inl (EPy e), w1)) as Et
      by by apply transition_at_Err.
    unfold mbind at 1, M_bind at 1. by rewrite Et.
Qed.
Lemma queue_remove_sublist h l q : queue_remove h l q `sublist_of` q.
Proof.
  induction q as [|l' q IH]; simpl; [done|]. case_head; [by apply sublist_cons|by apply sublist_skip].
Qed.
Lemma keeps_cancel cs i : keeps cs (cancel_request clock i).
Proof.
  unfold cancel_request. intros w Hw. rewrite (bind_eq _ _ w w w) by done. cbv zeta.
  assert (∀ l, keeps cs (_ ← transition_now clock l CANCELLED; mret (M := M) true)) as Hend.
  { intros l. apply preserves_bind; [by apply keeps_transition_now|]. intros _. apply preserves_ret. }
  destruct (find _ _) as [l|].
  - assert (keeps cs (update (λ x, x <| mw_queue ::= queue_remove (si_heap w) l |>))) as Hq.
    { apply keeps_worker_update. intros h x. apply worker_inv_queue, sublist_submseteq, queue_remove_sublist. }
    apply (preserves_bind (WI cs) _ (λ _, _ ← transition_now clock l CANCELLED; mret true) Hq (λ _, Hend l) w Hw).
  - destruct (_ !! i) as [l|]; [|exact Hw]. case_head; [exact Hw|]. by apply Hend.
Qed.

(** *** Unloading *)

Lemma queued_for_false h q m l : queued_for h q m = false → l ∈ q → r_model_id (h !!! l) ≠ m.
Proof.
  unfold queued_for. intros Hf Hl Hm. assert (existsb (λ l, bool_decide (r_model_id (h !!! l) = m)) q = true);
    [|congruence].
  apply existsb_exists. exists l. split; [by apply list_elem_of_In|]. by apply bool_decide_eq_true.
Qed.
Lemma keeps_unload_begin cs m : keeps cs (unload_begin m).
Proof.
  intros w Hw. unfold unload_begin. rewrite (bind_eq _ _ w w w) by done. cbv zeta.
  destruct (queued_for _ _ _) eqn:Hq; [exact Hw|]. case_head; [exact Hw|].
  destruct Hw. split; try done. cbn. intros l Hl. apply elem_of_difference. split; [auto|].
  rewrite elem_of_singleton. by eapply queued_for_false.
Qed.
Lemma keeps_unload_finish cs m : keeps cs (unload_finish clock m).
Proof.
  apply (hoare_except _ _ _ _ _ (λ _, WI cs)); [apply keeps_runtime_call|]. intros e.
  apply preserves_bind.
  { apply keeps_worker_update. intros h x []. split; try done. cbn. intros l Hl. apply elem_of_union. auto. }
  intros _. apply preserves_bind; [apply keeps_touch_now|]. intros _. apply preserves_raise.
Qed.
Lemma keeps_unload cs m : keeps cs (unload_model clock m).
Proof.
  apply preserves_bind; [apply keeps_unload_begin|]. intros []; [apply keeps_unload_finish|apply preserves_ret].
Qed.
Lemma keeps_evict_begin cs : keeps cs (evict_begin clock).
Proof.
  apply preserves_bind; [apply keeps_worker_monotonic|]. intros now. apply preserves_bind; [apply preserves_gets|].
  intros w. cbv zeta. apply preserves_bind; [apply keeps_lift_res|]. intros eligible.
  apply preserves_bind; [apply preserves_gets|]. intros x. apply preserves_bind; [apply keeps_lift_res|].
  intros keyed. apply preserves_ret.
Qed.
Lemma keeps_evict_end cs models : keeps cs (evict_end models).
Proof. apply keeps_worker_update. intros h y []. by split. Qed.

(** *** Loading *)

(** A section that gives the calls [Q] instead of the calls [cs]. *)
Definition turns {A} cs (c : M A) (Q : A → list Call) : Prop :=
  hoare (WI cs) c (λ a, WI (Q a)) (λ _, WI cs).
Lemma pick_evictions_spec h x required candidates evictions usable picked :
  pick_evictions h x required candidates evictions usable = Ok picked →
  ∀ e, e ∈ fst picked → e ∈ evictions ∨
    (queued_for h (mw_queue x) (fst e) = false ∧ cget (mw_active_requests_by_model x) (fst e) = 0).
Proof.
  revert evictions usable. induction candidates as [|m ms IH]; simpl; intros evictions usable.
  { intros [= <-]. by left. }
  case_head; [apply IH|]. destruct (mw_model_definitions x !! m) as [d|]; [|done].
  assert (∀ e, e ∈ evictions ++ [(m, d)] → e ∈ evictions ∨
    (queued_for h (mw_queue x) (fst e) = false ∧ cget (mw_active_requests_by_model x) (fst e) = 0)) as Hm.
  { intros e [He| ->%list_elem_of_singleton]%elem_of_app; [by left|right]. bool_hyps. by split. }
  case_head; [by intros [= <-]|]. intros Hp e He. destruct (IH _ _ Hp e He) as [?|?]; auto.
Qed.
Lemma turns_load_hit cs model :
  turns cs (load_hit clock (m_model_id model)) (λ plan, after_plan model plan ++ cs).
Proof. intros w []. by split. Qed.
Lemma turns_load_claim cs model :
  hoare (λ w, (m_model_id model ∉ mw_loading_models (si_worker w)) ∧ WI cs w) (load_claim model)
    (λ plan, WI (after_plan model plan ++ cs)) (λ _, WI cs).
Proof.
  set (P w := (m_model_id model ∉ mw_loading_models (si_worker w)) ∧ WI cs w).
  unfold load_claim. apply (hoare_bind _ _ _ (λ _, P)).
  { intros w [Hm Hw]. unfold runtime_call. by destruct (rt_capacity (si_runtime w)) as [[]]. }
  intros c. eapply hoare_bind; [apply hoare_gets|]. intros world. cbv zeta.
  apply (hoare_bind _ _ _ (λ _, P)).
  - destruct (cp_available_memory_bytes c) as [available|]; [|apply hoare_ret; by intros w [_ ?]].
    apply (hoare_bind _ _ _ (λ picked w, world = w ∧ P w ∧ ∀ e, e ∈ fst picked →
      queued_for (si_heap w) (mw_queue (si_worker w)) (fst e) = false)).
    + case_head; [|apply hoare_ret; intros w [-> ?]; split; [done|]; split; [done|]; intros e He; by apply not_elem_of_nil in He].
      intros w [-> [Hm Hw]]. unfold id. destruct (pick_evictions _ _ _ _ _ _) as [picked|e] eqn:Hp; [|exact Hw].
      rewrite (bind_eq (lift_res (Ok picked)) _ w picked w) by done. case_head; [exact Hw|]. cbn. split; [done|]. split; [by split|]. intros e He.
      destruct (pick_evictions_spec _ _ _ _ _ _ _ Hp e He) as [He'|[]]; [by apply not_elem_of_nil in He'|done].
    + intros picked. apply (hoare_bind _ _ _ (λ _, P)); [|intros []; by apply hoare_ret].
      apply hoare_modify. intros w (-> & [Hm [] ] & Hpick). split; [done|]. split; try done. cbn.
      intros l Hl. apply elem_of_difference. split; [auto|]. rewrite elem_of_list_to_set.
      intros ([m d] & Heq & He)%list_elem_of_fmap. apply Hpick in He.
      by eapply queued_for_false in He.
  - intros evictions. eapply hoare_bind.
    { apply (hoare_modify _ _ (λ _, WI (CLoad model evictions 0 :: cs))). intros w [Hm []]. split; try done; cbn.
      - apply NoDup_cons. by rewrite <- wi_loading0.
      - intros m. rewrite elem_of_union, elem_of_singleton, elem_of_cons. by rewrite wi_loading0.
      - fold (loads cs). unfold zsum in wi_reserved0. lia. }
    intros []. eapply hoare_bind; [apply hoare_gets|]. intros x. apply hoare_ret. intros w [_ Hw].
    by eapply worker_inv_next, Hw.
Qed.
Lemma turns_load_begin cs model :
  turns cs (load_begin clock model) (λ plan, after_plan model plan ++ cs).
Proof.
  intros w Hw. unfold load_begin, get_worker. rewrite (bind_eq _ _ w (si_worker w) w) by done.
  case_head; [exact Hw|]. case_head; [by apply turns_load_hit|]. case_head; [by destruct Hw|].
  apply turns_load_claim. split; [|exact Hw]. by apply bool_decide_eq_false in Heqb1.
Qed.
Lemma turns_load_resume cs model k :
  turns cs (load_resume clock model k) (λ plan, after_plan model plan ++ cs).
Proof.
  intros w Hw. unfold load_resume, get_worker. rewrite (bind_eq _ _ w (si_worker w) w) by done.
  case_head; [exact Hw|]. apply bool_decide_eq_false in Heqb. case_head; [by apply turns_load_hit|].
  destruct (_ !! _) as [[attempt e]|]; [case_head; [exact Hw|]|]; by apply turns_load_claim.
Qed.

(** A computation that raises no exception. *)
Definition calm {A} (c : M A) : Prop := hoare (λ _, True) c (λ _ _, True) never.
Lemma calm_bind {A C} (m : M A) (k : A → M C) : calm m → (∀ a, calm (k a)) → calm (m ≫= k).
Proof. intros Hm Hk. by eapply hoare_bind. Qed.
Lemma calm_ret {A} (a : A) : calm (mret (M := M) a).
Proof. by intros w _. Qed.
Lemma calm_update f : calm (update f).
Proof. by intros w _. Qed.
Lemma calm_touch_now m : calm (touch_now clock m).
Proof. by intros w _. Qed.
Lemma calm_for_each {Y} (f : Y → M unit) xs : (∀ x, calm (f x)) → calm (for_each f xs).
Proof.
  intros Hf. induction xs as [|x xs IH]; [apply calm_ret|]. apply calm_bind; [apply Hf|by intros _].
Qed.
Lemma keeps_calm {A} cs (c : M A) : keeps cs c → calm c → hoare (WI cs) c (λ _, WI cs) never.
Proof.
  intros Hk Hc w Hw. specialize (Hk w Hw). specialize (Hc w I). by destruct (c w) as [[] ?].
Qed.
Lemma load_commit_keeps cs m evictions :
  hoare (WI cs) (load_commit clock m evictions) (λ _, WI cs) never.
Proof.
  apply keeps_calm.
  - apply preserves_bind.
    { apply keeps_worker_update. intros h x []. split; try done. cbn. intros l Hl. apply elem_of_union. auto. }
    intros _. apply preserves_bind; [apply keeps_touch_now|]. intros _. apply keeps_worker_update.
    intros h x []. by split.
  - apply calm_bind; [apply calm_update|]. intros _. apply calm_bind; [apply calm_touch_now|].
    intros _. apply calm_update.
Qed.
Lemma load_abort_keeps cs m evictions attempt e :
  hoare (WI cs) (load_abort clock m evictions attempt e) (λ _, WI cs) never.
Proof.
  apply keeps_calm.
  - apply preserves_bind; [apply keeps_worker_update; intros h x []; by split|]. intros _.
    apply preserves_for_each. intros p. apply preserves_bind; [apply preserves_gets|]. intros s.
    case_head; [|apply preserves_ret]. apply preserves_bind; [|intros _; apply keeps_touch_now].
    apply keeps_worker_update. intros h x []. split; try done. cbn. intros l Hl. apply elem_of_union. auto.
  - apply calm_bind; [apply calm_update|]. intros _. apply calm_for_each. intros p.
    apply calm_bind; [by intros w _|]. intros s. case_head; [|apply calm_ret].
    apply calm_bind; [apply calm_update|]. intros _. apply calm_touch_now.
Qed.
Lemma load_end_keeps cs m started :
  hoare (WI (CLoadEnd m :: cs)) (load_end perf m started) (λ _, WI cs) never.
Proof.
  intros w []. split; try done; cbn.
  - by apply NoDup_cons in wi_one_load0 as [_ ?].
  - intros m'. rewrite elem_of_difference, elem_of_singleton, wi_loading0. cbn.
    apply NoDup_cons in wi_one_load0 as [Hm _]. fold (loads cs) in *. rewrite elem_of_cons.
    split; [naive_solver|]. intros Hm'. split; [by right|]. by intros ->.
  - rewrite wi_reserved0. cbn. fold (loads cs). unfold zsum. lia.
Qed.

(** *** Executing a batch *)

(** A request of the queue that has not ended can time out or start. *)
Lemma queued_transition cs h x l target at_ :
  worker_inv cs h x → l ∈ mw_queue x → r_terminal (h !!! l) = false → target = TIMED_OUT ∨ target = RUNNING →
  ∃ r, transition target at_ (h !!! l) = Ok r ∧ r_status r = target.
Proof.
  intros Hw Hl Hlive Ht. destruct (wi_queued _ _ _ Hw l Hl) as [Hq|]; [|congruence].
  destruct (transition_allowed target at_ (h !!! l)) as [r Hr].
  { rewrite Hq. destruct Ht as [-> | ->]; simpl; set_solver. }
  exists r. split; [done|]. by apply transition_Ok in Hr as [_ ->].
Qed.
(** The queue, once its head timed out. *)
Lemma worker_inv_timed_out cs h x l q at_ r :
  mw_queue x = l :: q → transition TIMED_OUT at_ (h !!! l) = Ok r → worker_inv cs h x →
  worker_inv cs (<[l := r]> h) (x <| mw_queue := q |>).
Proof.
  intros Hq Hr Hw. eapply worker_inv_queue; [rewrite Hq; by apply submseteq_cons|].
  eapply worker_inv_transition; [exact Hr|by left|done].
Qed.
Lemma skip_dead_spec cs now q :
  hoare (λ w, mw_queue (si_worker w) = q ∧ WI cs w) (skip_dead now q)
    (λ _ w, (∀ l, head (mw_queue (si_worker w)) = Some l → r_terminal (si_heap w !!! l) = false) ∧ WI cs w)
    never.
Proof.
  induction q as [|l q IH]; intros w [Hq Hw]; simpl; [by rewrite Hq|].
  unfold get_request. rewrite (bind_eq _ _ w (si_heap w !!! l) w) by done. case_head.
  - set (w1 := w <| si_worker ::= λ x, x <| mw_queue := q |> |>).
    rewrite (bind_eq _ _ w tt w1) by done. destruct (r_terminal _) eqn:Hlive.
    + rewrite (bind_eq _ _ w1 tt w1) by done. apply IH. split; [done|].
      apply (worker_inv_queue cs (si_heap w) (si_worker w)); [|exact Hw].
      rewrite Hq. by apply submseteq_cons.
    + destruct (queued_transition cs (si_heap w) (si_worker w) l TIMED_OUT now Hw) as (r & Hr & _);
        [rewrite Hq; by left|done|by left|].
      rewrite (bind_eq _ _ w1 tt _ (transition_at_Ok l TIMED_OUT now w1 r Hr)). apply IH. split; [done|].
      by apply (worker_inv_timed_out cs (si_heap w) (si_worker w) l q now r).
  - split; [|exact Hw]. rewrite Hq. intros l' [= <-]. by apply orb_false_iff in Heqb as [].
Qed.

(** What the second loop keeps: with its two lists put back, the queue is as it should be. *)
Definition put_back (s : Selection) (x : ManagedWorker) : ManagedWorker :=
  x <| mw_queue ::= λ q, sl_selected s ++ sl_deferred s ++ q |>.
Record selecting cs (first : RequestRecord) (s : Selection) w : Prop := {
  se_inv : worker_inv cs (si_heap w) (put_back s (si_worker w));
  se_batch : batch_ok (si_heap w) (si_worker w) (sl_selected s);
  se_tokens : sl_batch_tokens s = zsum (λ l, estimated_tokens (si_heap w !!! l)) (sl_selected s);
  se_live : ∀ l, l ∈ sl_selected s → r_terminal (si_heap w !!! l) = false;
  se_first : ∀ l, head (sl_selected s) = Some l → shape first = shape (si_heap w !!! l)
}.
Lemma selecting_drop cs first s l q w :
  mw_queue (si_worker w) = l :: q → selecting cs first s w →
  selecting cs first s (w <| si_worker ::= λ x, x <| mw_queue := q |> |>).
Proof.
  intros Hq []. split; try done. eapply worker_inv_queue in se_inv0; [exact se_inv0|].
  cbn. rewrite Hq. apply submseteq_app, submseteq_app; [done..|]. by apply submseteq_cons.
Qed.
Lemma selecting_timed_out cs first s l now r w :
  l ∉ sl_selected s → transition TIMED_OUT now (si_heap w !!! l) = Ok r → selecting cs first s w →
  selecting cs first s (w <| si_heap ::= <[l := r]> |>).
Proof.
  intros Hl Hr []. destruct (shape_same _ _ (insert_shape (si_heap w) l r (transition_shape _ _ _ _ Hr)))
    as (_ & Htokens & Hok).
  assert (∀ l', l' ∈ sl_selected s → <[l := r]> (si_heap w) !!! l' = si_heap w !!! l') as Hsame.
  { intros l' Hl'. apply lookup_total_insert_ne. by intros <-. }
  split; cbn.
  - eapply worker_inv_transition; [exact Hr|by left|done].
  - by apply Hok.
  - rewrite se_tokens0. apply zsum_ext. intros l' _. by rewrite Htokens.
  - intros l' Hl'. rewrite Hsame by done. auto.
  - intros l' Hl'. rewrite Hsame; [auto|]. by apply head_Some_elem_of.
Qed.
(** A request of the queue is set aside, or joins the batch. *)
Lemma selecting_defer cs first s l q w :
  mw_queue (si_worker w) = l :: q → selecting cs first s w →
  selecting cs first (mkSelection (sl_selected s) (sl_deferred s ++ [l]) (sl_batch_tokens s))
    (w <| si_worker ::= λ x, x <| mw_queue := q |> |>).
Proof.
  intros Hq []. split; try done. eapply worker_inv_queue in se_inv0; [exact se_inv0|].
  cbn. rewrite Hq, <- app_assoc. by apply submseteq_app.
Qed.
Lemma selecting_take cs first s l q w :
  mw_queue (si_worker w) = l :: q → r_terminal (si_heap w !!! l) = false →
  compatible (si_heap w !!! l) first = true →
  Z.of_nat (length (sl_selected s)) < mw_max_batch_size (si_worker w) →
  sl_batch_tokens s + estimated_tokens (si_heap w !!! l) <= mw_max_batch_tokens (si_worker w) →
  selecting cs first s w →
  selecting cs first (mkSelection (sl_selected s ++ [l]) (sl_deferred s)
      (sl_batch_tokens s + estimated_tokens (si_heap w !!! l)))
    (w <| si_worker ::= λ x, x <| mw_queue := q |> |>).
Proof.
  intros Hq Hlive Hc Hn Ht [Hinv (Hsize & Hmax & l0 & s' & Hs & Hall) Htok Hl Hf].
  split; cbn -[zsum].
  - eapply worker_inv_queue in Hinv; [exact Hinv|]. cbn. rewrite Hq, <- app_assoc. cbn.
    by rewrite (Permutation_middle (sl_deferred s)).
  - split_and!.
    + rewrite length_app. cbn in *. lia.
    + rewrite zsum_app. rewrite Htok in Ht. unfold zsum in *. simpl. cbn in Ht. lia.
    + exists l0, (s' ++ [l]). rewrite Hs. split; [done|]. apply Forall_app. split; [done|].
      apply Forall_singleton. specialize (Hf l0). rewrite Hs in Hf. specialize (Hf eq_refl).
      unfold compatible, shape in *. by injection Hf as <- _ <- <- <-.
  - rewrite zsum_app, Htok. unfold zsum. simpl. lia.
  - intros l' [Hl'| ->%list_elem_of_singleton]%elem_of_app; auto.
  - rewrite Hs in *. exact Hf.
Qed.
Lemma select_more_spec cs now first q s :
  hoare (λ w, mw_queue (si_worker w) = q ∧ selecting cs first s w) (select_more now first q s)
    (selecting cs first) never.
Proof.
  revert s. induction q as [|l q IH]; intros s w [Hq Hw]; simpl; [done|].
  unfold get_worker, get_request. rewrite (bind_eq _ _ w (si_worker w) w) by done.
  case_head; [exact Hw|]. apply negb_false_iff, Z.ltb_lt in Heqb.
  set (w1 := w <| si_worker ::= λ x, x <| mw_queue := q |> |>).
  rewrite (bind_eq _ _ w tt w1), (bind_eq _ _ w1 (si_heap w !!! l) w1) by done.
  pose proof (selecting_drop cs first s l q w Hq Hw) as Hdrop.
  destruct (r_terminal (si_heap w !!! l)) eqn:Hlive; [by apply IH|]. case_head.
  - destruct (queued_transition cs (si_heap w) (put_back s (si_worker w)) l TIMED_OUT now) as (r & Hr & _);
      [apply Hw|cbn; rewrite Hq; set_solver by idtac|done|by left|].
    rewrite (bind_eq _ _ w1 tt _ (transition_at_Ok l TIMED_OUT now w1 r Hr)). apply IH. split; [done|].
    apply (selecting_timed_out cs first s l now r w1); [|exact Hr|exact Hdrop].
    pose proof (wi_once _ _ _ (se_inv _ _ _ _ Hw)) as Hnd. cbn in Hnd. rewrite Hq in Hnd.
    rewrite <- app_assoc in Hnd. apply NoDup_app in Hnd as (_ & Hnd & _). intros Hl.
    apply (Hnd l Hl). rewrite !elem_of_app, elem_of_cons. auto.
  - case_head; apply IH; (split; [done|]).
    + apply andb_true_iff in Heqb1 as [Hc Ht%Z.leb_le]. by apply selecting_take.
    + by apply selecting_defer.
Qed.
(** What activating a batch, or deactivating it, leaves alone in the worker. *)
Definition recount (x y : ManagedWorker) : Prop :=
  ∃ c a, y = x <| mw_active_requests_by_model := c |> <| mw_active_requests := a |>.
Lemma recount_refl x : recount x x.
Proof. exists (mw_active_requests_by_model x), (mw_active_requests x). by destruct x. Qed.
Lemma recount_trans x y z : recount x y → recount y z → recount x z.
Proof. intros (c & a & ->) (c' & a' & ->). by exists c', a'. Qed.
Lemma for_model_same h h' m l : shape (h' !!! l) = shape (h !!! l) → for_model h' m l = for_model h m l.
Proof. unfold shape, for_model. by intros [= -> _ _ _ _]. Qed.
Record activated (sel : list loc) w w' : Prop := {
  ac_shape : ∀ l, shape (si_heap w' !!! l) = shape (si_heap w !!! l);
  ac_other : ∀ l, l ∉ sel → si_heap w' !!! l = si_heap w !!! l;
  ac_running : ∀ l, l ∈ sel → r_status (si_heap w' !!! l) = RUNNING;
  ac_worker : recount (si_worker w) (si_worker w');
  ac_count : ∀ m, cget (mw_active_requests_by_model (si_worker w')) m
    = cget (mw_active_requests_by_model (si_worker w)) m + zsum (for_model (si_heap w) m) sel
}.
Lemma activate_spec now l w :
  r_status (si_heap w !!! l) = QUEUED → ∃ w', activate now l w = (inr tt, w') ∧ activated [l] w w'.
Proof.
  intros Hq. destruct (transition_allowed RUNNING now (si_heap w !!! l)) as [r Hr].
  { rewrite Hq. simpl. set_solver. }
  eexists. split.
  { unfold activate. by rewrite (bind_eq _ _ w tt _ (transition_at_Ok l RUNNING now w r Hr)). }
  pose proof (transition_shape _ _ _ _ Hr) as Hs. pose proof Hr as [_ Hr']%transition_Ok. split; cbn -[zsum].
  - by apply insert_shape.
  - intros l' [Hl' _]%not_elem_of_cons. by apply lookup_total_insert_ne, not_eq_sym.
  - intros l' ->%list_elem_of_singleton. rewrite lookup_total_insert_eq. by rewrite Hr'.
  - by eexists _, _.
  - intros m. rewrite lookup_total_insert_eq, cget_cadd. unfold zsum, for_model. simpl.
    unfold shape in Hs. injection Hs as -> _ _ _ _. destruct (decide (r_model_id (si_heap w !!! l) = m)) as [Hm|Hm].
    + rewrite bool_decide_eq_true_2 by done. lia.
    + rewrite bool_decide_eq_false_2 by done. lia.
Qed.
Lemma activate_all now sel w :
  NoDup sel → (∀ l, l ∈ sel → r_status (si_heap w !!! l) = QUEUED) →
  ∃ w', for_each (activate now) sel w = (inr tt, w') ∧ activated sel w w'.
Proof.
  revert w. induction sel as [|l sel IH]; intros w Hnd Hq.
  { exists w. split; [done|]. split; try done; [intros l Hl; by apply not_elem_of_nil in Hl|apply recount_refl|].
    intros m. unfold zsum. simpl. lia. }
  apply NoDup_cons in Hnd as [Hl Hnd]. destruct (activate_spec now l w) as (w1 & E1 & A1); [apply Hq; by left|].
  destruct (IH w1 Hnd) as (w2 & E2 & A2).
  { intros l' Hl'. rewrite (ac_other _ _ _ A1); [apply Hq; by right|]. set_solver. }
  exists w2. split; [simpl; by rewrite (bind_eq _ _ w tt w1 E1)|]. destruct A1, A2. split.
  - intros l'. by rewrite ac_shape1.
  - intros l' [? ?]%not_elem_of_cons. rewrite ac_other1, ac_other0; [done| |done]. set_solver.
  - intros l' [-> | ?]%elem_of_cons; [|auto]. rewrite ac_other1 by done. apply ac_running0. by left.
  - by eapply recount_trans.
  - intros m. rewrite ac_count1, ac_count0, !zsum_cons. 
    rewrite (zsum_ext (for_model (si_heap w1) m) (for_model (si_heap w) m)); [unfold zsum; simpl; lia|].
    intros l' _. by apply for_model_same.
Qed.
Lemma worker_inv_touch cs h x m : worker_inv cs h x → worker_inv cs h (x <| mw_model_last_used := m |>).
Proof. intros []. by split. Qed.
(** An active batch is one more call. *)
Lemma worker_inv_activated cs sel w w' :
  worker_inv cs (si_heap w) (si_worker w <| mw_queue ::= λ q, sel ++ q |>) →
  batch_ok (si_heap w) (si_worker w) sel → activated sel w w' →
  worker_inv (CExecute sel :: cs) (si_heap w') (si_worker w' <| mw_active_batch_count ::= λ n, n + 1 |>).
Proof.
  intros [] Hok [Hshape Hother Hrun (c & a & Hx) Hcount]. cbn in *.
  destruct (shape_same _ _ Hshape) as (Hmodel & Htokens & Hbatch). rewrite Hx in *. clear Hx.
  assert (owned (CExecute sel :: cs) = sel ++ owned cs) as Ho.
  { unfold owned. cbn. unfold call_active. cbn. by rewrite app_nil_r. }
  assert (active (CExecute sel :: cs) = sel ++ active cs) as Ha.
  { unfold active, call_active. cbn. by rewrite app_nil_r. }
  assert (mw_queue (si_worker w) ++ sel ++ owned cs ≡ₚ (sel ++ mw_queue (si_worker w)) ++ owned cs) as Hp
    by (rewrite <- app_assoc; apply Permutation_app_swap_app).
  apply NoDup_app in wi_once0 as Hnd. destruct Hnd as (Hnd & Hnd' & _). apply NoDup_app in Hnd as (_ & Hnd & _).
  split; cbn -[owned active zsum]; try done.
  - rewrite length_app in wi_depth0. lia.
  - rewrite Ho, Hp. done.
  - intros l Hl. rewrite Hother; [|by intros Hl'%Hnd]. apply wi_queued0. set_solver.
  - intros l. rewrite Ho. intros [Hl|Hl]%elem_of_app; [left; auto|].
    rewrite Hother; [auto|]. intros Hl'. apply (Hnd' l); [set_solver|done].
  - intros l Hl. rewrite Htokens. apply wi_tokens0. set_solver.
  - intros l Hl. rewrite Hmodel. apply wi_resident0. set_solver.
  - rewrite wi_batches0. fold (batches cs). lia.
  - intros s [-> | Hs]%elem_of_cons; apply Hbatch; [exact Hok|]. by apply wi_batch0.
  - intros m. rewrite Ha, zsum_app. cbn in Hcount.
    rewrite Hcount, wi_active0. 
    rewrite !(zsum_ext (for_model (si_heap w') m) (for_model (si_heap w) m));
      [lia|intros l' _; by apply for_model_same..].
Qed.
Definition executing (selected : option (list loc)) : list Call :=
  match selected with Some s => [CExecute s] | None => [] end.
(** From the removal of the first request on. *)
Lemma execute_rest_spec cs now l q w :
  mw_queue (si_worker w) = l :: q → r_terminal (si_heap w !!! l) = false → WI cs w →
  let first := si_heap w !!! l in
  ∃ s w', select_more now first q (mkSelection [l] [] (estimated_tokens first))
            (w <| si_worker ::= λ x, x <| mw_queue := q |> |>) = (inr s, w') ∧ selecting cs first s w'.
Proof.
  intros Hq Hlive Hw first.
  set (s0 := mkSelection [l] [] (estimated_tokens first)).
  set (w1 := w <| si_worker ::= λ x, x <| mw_queue := q |> |>).
  assert (selecting cs first s0 w1) as H1.
  { split; cbn.
    - eapply worker_inv_queue in Hw; [exact Hw|]. by rewrite Hq.
    - split_and!; cbn.
      + pose proof (wi_size _ _ _ Hw). lia.
      + pose proof (wi_tokens _ _ _ Hw l) as Ht. rewrite Hq in Ht. specialize (Ht (list_elem_of_here _ _)).
        rewrite Z.add_0_r. exact Ht.
      + by exists l, [].
    - unfold zsum. simpl. unfold first. lia.
    - by intros l' ->%list_elem_of_singleton.
    - by intros l' [= <-]. }
  pose proof (select_more_spec cs now first q s0 w1 (conj eq_refl H1)) as Hs.
  destruct (select_more _ _ _ _ _) as [[e|s] w']; [done|]. by exists s, w'.
Qed.
Lemma turns_execute_begin cs :
  hoare (WI cs) (execute_begin clock) (λ selected, WI (executing selected ++ cs)) never.
Proof.
  intros w Hw. unfold execute_begin, get_worker.
  set (w0 := w <| si_readings ::= Datatypes.S |>). set (now := clock (si_readings w)).
  rewrite (bind_eq (monotonic clock) _ w now w0), (bind_eq _ _ w0 (si_worker w) w0) by done.
  pose proof (skip_dead_spec cs now _ w0 (conj eq_refl Hw)) as Hskip.
  change (mw_queue (si_worker w0)) with (mw_queue (si_worker w)) in Hskip.
  destruct (skip_dead now _ w0) as [[e|[]] w1] eqn:E1; [done|]. destruct Hskip as [Hlive H1].
  rewrite (bind_eq _ _ w0 tt w1 E1), (bind_eq _ _ w1 (si_worker w1) w1) by done.
  destruct (mw_queue (si_worker w1)) as [|l q] eqn:Hq; [exact H1|]. specialize (Hlive l eq_refl).
  destruct (execute_rest_spec cs now l q w1 Hq Hlive H1) as (s & w2 & E2 & H2).
  set (w1' := w1 <| si_worker ::= λ x, x <| mw_queue := q |> |>) in E2.
  unfold get_request. rewrite (bind_eq _ _ w1 tt w1'), (bind_eq _ _ w1' (si_heap w1 !!! l) w1') by done.
  rewrite (bind_eq _ _ w1' s w2 E2).
  set (w3 := w2 <| si_worker ::= λ x, x <| mw_queue ::= λ q, sl_deferred s ++ q |> |>).
  rewrite (bind_eq _ _ w2 tt w3) by done.
  destruct H2 as [Hinv Hok _ Hl _].
  assert (NoDup (sl_selected s)) as Hnd.
  { pose proof (wi_once _ _ _ Hinv) as Hnd. cbn in Hnd. rewrite <- app_assoc in Hnd. by apply NoDup_app in Hnd as []. }
  destruct (activate_all now (sl_selected s) w3 Hnd) as (w4 & E4 & H4).
  { intros l' Hl'. destruct (wi_queued _ _ _ Hinv l') as [?|?]; [cbn; set_solver|done|].
    by rewrite Hl in *. }
  rewrite (bind_eq _ _ w3 tt w4 E4).
  apply (worker_inv_activated cs) in H4; [|exact Hinv|exact Hok]. by apply (worker_inv_touch _ _ _ _ H4).
Qed.
Lemma keeps_execute_run cs s : keeps cs (execute_run s).
Proof.
  intros w Hw. unfold execute_run. rewrite (bind_eq _ _ w (si_heap w) w) by done.
  destruct s as [|l s]; [exact Hw|]. cbv zeta. case_head; [exact Hw|].
  refine (preserves_bind (WI cs) _ _ (keeps_runtime_call cs _) _ w Hw). intros results.
  case_head; [apply preserves_raise|apply preserves_ret].
Qed.
Lemma keeps_fail_selected cs s : keeps cs (fail_selected clock s).
Proof.
  apply preserves_bind; [apply keeps_worker_monotonic|]. intros now. apply preserves_for_each. intros l.
  apply preserves_bind; [apply preserves_gets|]. intros r.
  case_head; [apply preserves_ret|by apply keeps_transition].
Qed.
Lemma keeps_complete_selected cs elapsed s results : keeps cs (complete_selected clock elapsed s results).
Proof.
  apply preserves_bind; [apply preserves_for_each|intros _; apply keeps_worker_update; intros h x []; by split].
  intros l. apply preserves_bind; [apply preserves_gets|]. intros r.
  case_head; [apply preserves_ret|by apply keeps_transition_now].
Qed.
Lemma keeps_elapsed cs started : keeps cs (elapsed_since perf started).
Proof. apply preserves_bind; [apply keeps_perf_counter|]. intros t. apply preserves_ret. Qed.
Lemma deactivate_spec l w :
  ∃ w', deactivate l w = (inr tt, w') ∧ si_heap w' = si_heap w ∧
    recount (si_worker w) (si_worker w') ∧
    ∀ m, cget (mw_active_requests_by_model (si_worker w')) m
      = cget (mw_active_requests_by_model (si_worker w)) m - for_model (si_heap w) m l.
Proof.
  eexists. split_and!; [done|done|by eexists _, _|]. intros m. cbn. rewrite cget_cadd.
  unfold for_model. destruct (decide (r_model_id (si_heap w !!! l) = m)) as [Hm|Hm].
  - rewrite bool_decide_eq_true_2 by done. lia.
  - rewrite bool_decide_eq_false_2 by done. lia.
Qed.
Lemma deactivate_all s w :
  ∃ w', for_each deactivate s w = (inr tt, w') ∧ si_heap w' = si_heap w ∧
    recount (si_worker w) (si_worker w') ∧
    ∀ m, cget (mw_active_requests_by_model (si_worker w')) m
      = cget (mw_active_requests_by_model (si_worker w)) m - zsum (for_model (si_heap w) m) s.
Proof.
  revert w. induction s as [|l s IH]; intros w.
  { exists w. split_and!; [done..|apply recount_refl|]. intros m. unfold zsum. simpl. lia. }
  destruct (deactivate_spec l w) as (w1 & E1 & Hh1 & Hx1 & Hc1). destruct (IH w1) as (w2 & E2 & Hh & Hx & Hc).
  exists w2. split_and!.
  - simpl. by rewrite (bind_eq _ _ w tt w1 E1).
  - by rewrite Hh.
  - by eapply recount_trans.
  - intros m. rewrite Hc, Hc1, Hh1, zsum_cons. lia.
Qed.
Lemma execute_end_spec cs s outcome results :
  hoare (WI (CEnding s outcome :: cs)) (execute_end s) (λ _, WI (CCompleting s results :: cs)) never.
Proof.
  intros w Hw. unfold execute_end.
  set (w1 := w <| si_worker ::= λ x, x <| mw_active_batch_count ::= λ n, n - 1 |> |>).
  rewrite (bind_eq _ _ w tt w1) by done. destruct (deactivate_all s w1) as (w2 & -> & Hh & (c & a & Hx) & Hc).
  unfold WI. rewrite Hh. rewrite Hx in *. clear Hx. subst w1.
  assert (owned (CCompleting s results :: cs) = owned (CEnding s outcome :: cs)) as Ho.
  { unfold owned. cbn. unfold call_active. cbn. by rewrite app_nil_r. }
  destruct Hw. split; cbn -[zsum owned active]; rewrite ?Ho; try done.
  - rewrite wi_batches0. cbn. fold (batches cs). lia.
  - intros s' Hs'. apply wi_batch0. by right.
  - intros m. cbn -[zsum] in Hc. rewrite Hc, wi_active0.
    change (active (CEnding s outcome :: cs)) with (call_active (CEnding s outcome) ++ active cs).
    rewrite zsum_app. unfold call_active. cbn -[zsum]. rewrite app_nil_r.
    fold (active cs). lia.
Qed.
Lemma fail_queue_spec cs q :
  hoare (λ w, mw_queue (si_worker w) = q ∧ WI cs w) (fail_queue clock q)
    (λ _ w, mw_queue (si_worker w) = [] ∧ WI cs w) (λ _, WI cs).
Proof.
  induction q as [|l q IH]; simpl; [by apply hoare_ret|].
  apply (hoare_bind _ _ _ (λ _ w, mw_queue (si_worker w) = q ∧ WI cs w)).
  { apply hoare_modify. intros w [Hq Hw]. split; [done|].
    apply (worker_inv_queue cs (si_heap w) (si_worker w)); [|exact Hw]. rewrite Hq. by apply submseteq_cons. }
  intros []. apply (hoare_bind _ _ _ (λ _ w, mw_queue (si_worker w) = q ∧ WI cs w)); [|by intros []].
  intros w [Hq Hw]. pose proof (keeps_transition_now cs l FAILED eq_refl w Hw) as Hk.
  destruct (transition FAILED (clock (si_readings w)) (si_heap w !!! l)) as [r|e] eqn:E.
  - assert (transition_now clock l FAILED w = (inr tt, w <| si_readings ::= Datatypes.S |> <| si_heap ::= <[l := r]> |>))
      as Et by by apply transition_at_Ok.
    rewrite Et in *. by split.
  - assert (transition_now clock l FAILED w = (inl (EPy e), w <| si_readings ::= Datatypes.S |>))
      as Et by by apply transition_at_Err.
    by rewrite Et in *.
Qed.
Lemma keeps_shutdown_begin cs : keeps cs (shutdown_begin clock).
Proof.
  apply preserves_bind; [apply keeps_worker_update; intros h x []; by split|]. intros _.
  intros w Hw. unfold get_worker. rewrite (bind_eq _ _ w (si_worker w) w) by done.
  pose proof (fail_queue_spec cs _ w (conj eq_refl Hw)) as Hf.
  unfold mbind at 1, M_bind at 1. destruct (fail_queue clock _ w) as [[e|[]] w1]; [exact Hf|].
  destruct Hf as [Hq []]. split; try done. cbn. rewrite Hq. intros l Hl. by apply not_elem_of_nil in Hl.
Qed.
Lemma keeps_shutdown_finish cs models : keeps cs (shutdown_finish models).
Proof.
  apply (hoare_finally _ _ _ (λ _, WI cs) _ _ (λ _, WI cs)).
  - apply preserves_for_each. intros m. apply keeps_runtime_call.
  - intros []. by apply preserves_modify.
  - intros e. by apply preserves_modify.
Qed.

(** *** Any section *)

Lemma turns_start cs o : turns cs (start clock hostname o) (λ cs', cs' ++ cs).
Proof.
  assert (∀ A (c : M A), keeps cs c → turns cs (_ ← c; mret []) (λ cs', cs' ++ cs)) as Hquiet.
  { intros A c Hc. eapply hoare_bind; [exact Hc|]. intros a. by apply hoare_ret. }
  destruct o; simpl; try apply Hquiet.
  - apply keeps_register.
  - apply keeps_heartbeat.
  - eapply hoare_bind; [apply turns_load_begin|]. intros plan. by apply hoare_ret.
  - eapply hoare_bind; [apply turns_load_resume|]. intros plan. by apply hoare_ret.
  - eapply hoare_bind; [apply keeps_unload_begin|]. intros [].
    + apply hoare_ret. intros w. by apply worker_inv_add.
    + by apply hoare_ret.
  - apply keeps_warmup.
  - eapply hoare_bind; [apply keeps_evict_begin|]. intros models. apply hoare_ret. intros w.
    by apply worker_inv_add.
  - apply keeps_enqueue.
  - apply keeps_cancel.
  - eapply hoare_bind; [apply hoare_never, turns_execute_begin|]. intros selected. by apply hoare_ret.
  - apply keeps_worker_drain.
  - eapply hoare_bind; [apply keeps_shutdown_begin|]. intros models. apply hoare_ret. intros w.
    by apply worker_inv_add.
Qed.
(** A section of a call that counts for nothing, and what follows it. *)
Lemma continues cs c {A} (m : M A) (k : A → list Call) :
  call_load c = [] → call_batch c = [] → (∀ cs, keeps cs m) →
  (∀ a w, WI cs w → WI (k a ++ cs) w) →
  hoare (WI (c :: cs)) (a ← m; mret (k a)) (λ cs', WI (cs' ++ cs)) (λ _, WI cs).
Proof.
  intros Hl Hb Hm Hk. apply (hoare_bind _ _ _ (λ _, WI cs)).
  - eapply hoare_conseq; [apply Hm|intros w; by apply worker_inv_drop|done|done].
  - intros a. apply hoare_ret. intros w. apply Hk.
Qed.
(** A section that turns a call into another one that counts for the same. *)
Lemma follows cs c {A} (m : M A) (c' : A → Call) :
  hoare (WI (c :: cs)) m (λ _, WI (c :: cs)) never →
  (∀ a, call_load c = call_load (c' a) ∧ call_batch c = call_batch (c' a) ∧ call_owned c = call_owned (c' a)) →
  hoare (WI (c :: cs)) (a ← m; mret [c' a]) (λ cs', WI (cs' ++ cs)) (λ _, WI cs).
Proof.
  intros Hm Hc. eapply hoare_bind; [apply hoare_never, Hm|]. intros a. apply hoare_ret. intros w.
  destruct (Hc a) as (? & ? & ?). by apply worker_inv_next.
Qed.
Lemma keeps_attempt {A} cs (m : M A) :
  keeps cs m → hoare (WI cs) (Effects.attempt m) (λ _, WI cs) never.
Proof. intros Hm w Hw. specialize (Hm w Hw). unfold Effects.attempt. by destruct (m w) as [[]]. Qed.
Lemma turns_continue cs c :
  hoare (WI (c :: cs)) (continue clock perf c) (λ cs', WI (cs' ++ cs)) (λ _, WI cs).
Proof.
  destruct c as [m ev k|m ev k [e|[]]|m|m evicting|[|m models] evicted|s|s [e|results]|s [e|results]|s results|models]; simpl.
  - apply (follows _ _ _ (CLoaded m ev k)); [|done]. apply keeps_attempt.
    apply preserves_bind; [apply preserves_for_each; intros x; apply keeps_runtime_call|]. intros _.
    apply preserves_bind; [apply keeps_runtime_call|]. intros _. apply keeps_runtime_call.
  - apply (follows _ _ _ (λ _, CLoadEnd m)); [|done]. apply load_abort_keeps.
  - apply (follows _ _ _ (λ _, CLoadEnd m)); [|done]. apply load_commit_keeps.
  - apply (hoare_bind _ _ _ (λ _, WI (CLoadEnd m :: cs))); [by intros w Hw|]. intros started.
    eapply hoare_bind; [apply hoare_never, load_end_keeps|]. intros []. by apply hoare_ret.
  - apply continues; [done..|intros; apply keeps_unload_finish|]. intros _ w Hw.
    destruct evicting as [[]|]; [by apply worker_inv_add|done].
  - apply (continues _ _ _ (λ _, [])); [done..|intros; apply keeps_evict_end|done].
  - apply continues; [done..|intros; apply keeps_unload_begin|].
    intros [] w Hw; by apply worker_inv_add.
  - apply (follows _ _ _ (CRan s)); [|done]. apply keeps_attempt, keeps_execute_run.
  - apply (follows _ _ _ (λ _, CEnding s (inl e))); [|done]. apply keeps_attempt, keeps_fail_selected.
  - apply hoare_ret. intros w. by apply worker_inv_next.
  - eapply hoare_bind; [apply hoare_never, (execute_end_spec _ _ _ [])|]. intros [].
    apply hoare_ret. intros w. by apply worker_inv_drop.
  - eapply hoare_bind; [apply hoare_never, (execute_end_spec _ _ _ results)|]. intros [].
    by apply hoare_ret.
  - apply (hoare_conseq _ _ (WI cs) _ (λ cs', WI (cs' ++ cs)) _ (λ _, WI cs));
      [|intros w; by apply worker_inv_drop|done|done].
    eapply hoare_bind; [apply keeps_perf_counter|]. intros started.
    eapply hoare_bind; [apply keeps_elapsed|]. intros elapsed.
    eapply hoare_bind; [apply keeps_complete_selected|]. intros []. by apply hoare_ret.
  - apply (continues _ _ _ (λ _, [])); [done..|intros; apply keeps_shutdown_finish|done].
Qed.

Lemma worker_step_inv st st' :
  worker_step clock perf hostname st st' → WI st.2 st.1 → WI st'.2 st'.1.
Proof.
  destruct 1 as [o w cs w' r E|c w cs1 cs2 w' r E|w cs l target at_ r E Hor]; simpl; intros Hw.
  - pose proof (turns_start cs o w Hw) as Ht. rewrite E in Ht. by destruct r.
  - assert (WI (c :: cs1 ++ cs2) w) as Hc by by eapply worker_inv_perm, Hw; rewrite Permutation_middle.
    pose proof (turns_continue _ _ w Hc) as Ht. rewrite E in Ht. by destruct r.
  - by eapply worker_inv_transition.
Qed.
Lemma worker_steps_inv st st' :
  rtc (worker_step clock perf hostname) st st' → WI st.2 st.1 → WI st'.2 st'.1.
Proof.
  induction 1 as [|st1 st2 st3 Hs _ IH]; [done|]. intros H1. by eapply IH, worker_step_inv.
Qed.
Lemma fresh_inv worker_id a b c d e x h :
  ManagedWorker_init worker_id a b c d e = Ok x → worker_inv [] h x.
Proof.
  unfold ManagedWorker_init. intros ([] & Hr & [= <-])%bind_Ok_inv. apply raise_if_Ok in Hr.
  bool_hyps. split; cbn; try done; try lia; try (intros l Hl; by apply not_elem_of_nil in Hl).
  1,2: apply NoDup_nil_2. intros m. set_solver.
Qed.

(** C8: In every interleaving of the locked sections of a worker's methods on any number of threads,
    over any runtime and whatever the rest of the process does to requests that the worker does not
    hold (or by ending those it does), the queue stays within its depth, no request is queued or
    executed twice, a queued request is QUEUED or has ended and its model is resident, an executing
    one is RUNNING or has ended, every batch respects the batch size and token budget and is of one
    model and one set of generation parameters, at most one thread loads a model, and the counters
    of active batches, active requests per model and reserved memory are those of the calls in
    progress. *)
Theorem worker_invariant worker_id a b c d e x h registry runtime n w cs :
  ManagedWorker_init worker_id a b c d e = Ok x →
  rtc (worker_step clock perf hostname) (mkSite h registry runtime x n, []) (w, cs) →
  worker_inv cs (si_heap w) (si_worker w).
Proof.
  intros Hx Hr. exact (worker_steps_inv _ _ Hr (fresh_inv _ _ _ _ _ _ _ h Hx)).
Qed.
End safe.

(** ** A run *)

#[local] Instance sample_runtime : ModelRuntime (gset string) := {|
  rt_load_model m := modify (λ s, {[m_model_id m]} ∪ s);
  rt_unload_model m := modify (λ s, s ∖ {[m]});
  rt_warmup_model _ := mret tt;
  rt_is_model_loaded m s := bool_decide (m ∈ s);
  rt_generate _ prompts _ _ := mret ((λ p, mkResult p 1 1 f_zero f_zero f_zero) <$> prompts);
  rt_capacity := mret (mkCapacity CPU "cpu" None None None None None None None None None None None)
|}.
Definition sample_model : ModelDefinition :=
  mkModel "m" "r" SIMULATED 10 ["f32"] "f32" 100 100 true true f_zero f_zero.
Definition sample_heap : heap :=
  list_to_map ((λ p, (fst p, mkRequest (snd p) "t" "m" "hello" 3 4 0 (f_of_Z 100) false f_zero f_zero ASSIGNED
    (Some "w") 0 [] true ∅)) <$> [(1%positive, "a"); (2%positive, "b"); (3%positive, "c")]).
Definition sample_clock : nat → float := λ n, f_of_Z (Z.of_nat n).
(** Runs the first section of a call, or the next section of the first call. *)
Definition sample_section (o : option Op) (st : Site (gset string) * list Call)
  : Site (gset string) * list Call :=
  match o, st.2 with
  | Some o, cs => let '(r, w) := start sample_clock "host" o st.1 in (w, calls_left r ++ cs)
  | None, c :: cs => let '(r, w) := continue sample_clock sample_clock c st.1 in (w, calls_left r ++ cs)
  | None, [] => st
  end.
Lemma sample_section_steps o st :
  rtc (worker_step sample_clock sample_clock "host") st (sample_section o st).
Proof.
  destruct st as [w cs]. unfold sample_section. destruct o as [o|]; simpl.
  - destruct (start _ _ _ _) eqn:E. by eapply rtc_once, step_start.
  - destruct cs as [|c cs]; [done|]. destruct (continue _ _ _ _) eqn:E.
    by eapply rtc_once, (step_continue _ _ _ c w [] cs).
Qed.
Definition sample_worker : ManagedWorker :=
  mkManaged "w" 4 2 2 64 0 REGISTERING false ∅ ∅ ∅ ∅ ∅ ∅ ∅ ∅ 0 0 0 0 0 0 0 f_zero [] 0 f_zero.
Definition sample_start : Site (gset string) * list Call :=
  (mkSite sample_heap (mkWorkerRegistry (f_of_Z 30) (f_of_Z 10) ∅) ∅ sample_worker 0, []).
(** The worker loads a model while a second call waits for it, executes a batch of two of the three
    requests, and shuts down in the middle of it. *)
Definition sample_sections : list (option Op) :=
  [Some OpRegister; Some (OpLoad sample_model); Some (OpLoad sample_model); None; None; None;
   Some (OpResume sample_model 1); Some (OpEnqueue 1); Some (OpEnqueue 2); Some (OpEnqueue 3);
   Some OpExecute; None; Some OpShutdown].
Definition sample_end : Site (gset string) * list Call :=
  foldl (λ st o, sample_section o st) sample_start sample_sections.
Lemma sample_run : rtc (worker_step sample_clock sample_clock "host") sample_start (sample_end.1, sample_end.2).
Proof.
  rewrite <- surjective_pairing. unfold sample_end. generalize sample_sections. intros os. generalize sample_start.
  induction os as [|o os IH]; intros st; simpl; [done|]. by etransitivity; [apply sample_section_steps|].
Qed.
Theorem worker_invariant_witness :
  worker_inv sample_end.2 (si_heap sample_end.1) (si_worker sample_end.1) ∧
  map_to_list (r_status <$> si_heap sample_end.1) = [(3%positive, FAILED); (2%positive, RUNNING); (1%positive, RUNNING)] ∧
  mw_active_batch_count (si_worker sample_end.1) = 1 ∧ mw_coalesced_loads (si_worker sample_end.1) = 1.
Proof.
  split; [|vm_compute; by split_and!].
  apply (worker_invariant sample_clock sample_clock "host" "w" 4 2 2 64 0 sample_worker sample_heap
    (mkWorkerRegistry (f_of_Z 30) (f_of_Z 10) ∅) ∅ 0 sample_end.1 sample_end.2); [done|].
  exact sample_run.
Defined.
