(* ===== verification/WorkerApplication.v ===== *)
(** [apps/worker/application.py]: the loops of a worker process. The heartbeat, execution and eviction loops
    are tasks of one group on the event loop; batches and evictions run in threads, whose locked sections
    interleave with each other and with the requests that other threads hand to the worker. *)
From S2P Require Import Prelude PyContainers PyFloat Domain FairQueue Registry Effects Worker WorkerSafe.
From Stdlib Require String.

#[local] Open Scope string_scope.
#[local] Open Scope list_scope.
#[local] Open Scope Z_scope.
#[local] Set Default Proof Using "Type".
#[local] Set Proof Using Clear Unused.

(** ** Threads *)

(** A method of the worker called in a thread: not begun, between two of its locked sections, or over.
    [Returned] carries the results of a batch. *)
Inductive Thread :=
  | ToStart (o : Op)
  | Within (cs : list Call)
  | Returned (results : list WorkerExecutionResult)
  | Raised.
Definition thread_calls (t : Thread) : list Call := match t with Within cs => cs | _ => [] end.

(** ** The application *)

(** Where [run] is: before [register], in the load of a startup model, in the task group, in the group after
    it cancelled its tasks, in [shutdown], or over; [MRefused]: [register] raised. *)
Inductive MainState :=
  | MNew
  | MLoad (t : Thread) (model : ModelDefinition) (rest : list ModelDefinition)
  | MRunning
  | MAborting
  | MShutdown (t : Thread)
  | MEnded
  | MRefused.
Inductive ExecState := ExReady | ExThread (t : Thread) | ExIdle | ExDone.
Inductive EvictState := EvWaiting | EvThread (t : Thread) | EvDone.

(** [wa_stray] are the threads whose task was cancelled: nothing waits for them. *)
Record WorkerApplication S := mkApplication {
  wa_site : Site S;
  wa_stop : bool;
  wa_main : MainState;
  wa_heartbeat_alive : bool;
  wa_exec : ExecState;
  wa_evict : EvictState;
  wa_stray : list Thread
}.
Arguments mkApplication {S}.
Arguments wa_site {S}. Arguments wa_stop {S}. Arguments wa_main {S}. Arguments wa_heartbeat_alive {S}.
Arguments wa_exec {S}. Arguments wa_evict {S}. Arguments wa_stray {S}.
#[export] Instance eta_WorkerApplication S : Eta (WorkerApplication S) := λ a,
  mkApplication (wa_site a) (wa_stop a) (wa_main a) (wa_heartbeat_alive a) (wa_exec a) (wa_evict a) (wa_stray a).

Definition WorkerApplication_init {S} (w : Site S)
  (heartbeat_interval_seconds idle_poll_seconds eviction_scan_interval_seconds : float)
  : res (WorkerApplication S) :=
  _ ← raise_if (f_leb (default f_zero (py_min f_ltb [heartbeat_interval_seconds; idle_poll_seconds; eviction_scan_interval_seconds])) f_zero)
        (ValueError "worker loop intervals must be positive");
  Ok (mkApplication w false MNew false ExDone EvDone []).

Section application.
Context {S : Type} `{ModelRuntime S}.
Variable clock : nat → float.
Variable perf : nat → float.
Variable hostname : string.
Variable startup_models : list ModelDefinition.
#[local] Abbreviation App := (WorkerApplication S).

(** The thread after the first section of its method. *)
Definition begun (r : WorkerExc + list Call) : Thread :=
  match r with inl _ => Raised | inr [] => Returned [] | inr cs => Within cs end.
(** The thread after a section of the call [c]. Which of the two ends a load has is not told by its last
    section: [failed] does. *)
Definition went (c : Call) (failed : bool) (w : Site S) (r : WorkerExc + list Call) : Thread :=
  match r, c with
  | inl _, _ => Raised
  | inr [], CEnding _ (inl _) => Raised
  | inr [], CLoadEnd _ => if failed then Raised else Returned []
  | inr [], CCompleting s results => Returned (completed_results (si_heap w) s results)
  | inr [], _ => Returned []
  | inr cs, _ => Within cs
  end.
Inductive thread_step : Site S * Thread → Site S * Thread → Prop :=
  | thread_begins o w r w' : start clock hostname o w = (r, w') → thread_step (w, ToStart o) (w', begun r)
  | thread_goes_on c w failed r w' :
      continue clock perf c w = (r, w') → thread_step (w, Within [c]) (w', went c failed w' r).

(** The next startup model; after the last one, the three tasks of the group. *)
Definition start_up (models : list ModelDefinition) (a : App) : App :=
  match models with
  | [] => a <| wa_main := MRunning |> <| wa_heartbeat_alive := true |> <| wa_exec := ExReady |> <| wa_evict := EvWaiting |>
  | m :: models => a <| wa_main := MLoad (ToStart (OpLoad m)) m models |>
  end.
(** The group cancels its tasks: because one of them raised, or because [run] was cancelled. The execution
    loop waits for its thread, the eviction loop leaves it. *)
Definition abort_group (a : App) : App :=
  a <| wa_main := MAborting |>
    <| wa_heartbeat_alive := false |>
    <| wa_exec ::= λ e, match e with ExThread t => ExThread t | _ => ExDone end |>
    <| wa_evict := EvDone |>
    <| wa_stray ::= λ ts, match wa_evict a with EvThread t => t :: ts | _ => ts end |>.

(** The calls in progress. *)
Definition main_calls (m : MainState) : list Call :=
  match m with MLoad t _ _ | MShutdown t => thread_calls t | _ => [] end.
Definition exec_calls (e : ExecState) : list Call := match e with ExThread t => thread_calls t | _ => [] end.
Definition evict_calls (e : EvictState) : list Call := match e with EvThread t => thread_calls t | _ => [] end.
Definition calls (a : App) : list Call :=
  main_calls (wa_main a) ++ exec_calls (wa_exec a) ++ evict_calls (wa_evict a) ++ mbind thread_calls (wa_stray a).

(** What other threads call: requests are handed over and cancelled, and the application is stopped. *)
Definition foreign (o : Op) : bool := match o with OpEnqueue _ | OpCancel _ => true | _ => false end.
Definition stopped (r : WorkerExc + list Call) (a : App) : App :=
  match r with inl _ => a | inr _ => a <| wa_stop := true |> end.

Inductive app_step : App → App → Prop :=
  (* other threads *)
  | app_foreign a o r w' :
      foreign o = true → start clock hostname o (wa_site a) = (r, w') → app_step a (a <| wa_site := w' |>)
  | app_request a l target at_ r :
      transition target at_ (si_heap (wa_site a) !!! l) = Ok r →
      terminal_state target = true ∨ l ∉ mw_queue (si_worker (wa_site a)) ++ owned (calls a) →
      app_step a (a <| wa_site ::= λ w, w <| si_heap ::= <[l := r]> |> |>)
  | app_stop a r w' :
      start clock hostname OpDrain (wa_site a) = (r, w') → app_step a (stopped r (a <| wa_site := w' |>))
  (* [run] up to its task group *)
  | app_register a r w' :
      wa_main a = MNew → start clock hostname OpRegister (wa_site a) = (r, w') →
      app_step a (match r with
                  | inl _ => a <| wa_site := w' |> <| wa_main := MRefused |>
                  | inr _ => start_up startup_models (a <| wa_site := w' |>)
                  end)
  | app_loading a t m models w' t' :
      wa_main a = MLoad t m models → thread_step (wa_site a, t) (w', t') →
      app_step a (a <| wa_site := w' |> <| wa_main := MLoad t' m models |>)
  | app_loaded a results m models r w' :
      wa_main a = MLoad (Returned results) m models → start clock hostname (OpWarmup (m_model_id m)) (wa_site a) = (r, w') →
      app_step a (match r with
                  | inl _ => abort_group (a <| wa_site := w' |>)
                  | inr _ => start_up models (a <| wa_site := w' |>)
                  end)
  | app_load_failed a m models :
      wa_main a = MLoad Raised m models → app_step a (abort_group a)
  (* the heartbeat loop: the interval passes, or the stop event is seen *)
  | app_heartbeat a r w' :
      wa_main a = MRunning → wa_heartbeat_alive a = true → start clock hostname OpHeartbeat (wa_site a) = (r, w') →
      app_step a (match r with inl _ => abort_group (a <| wa_site := w' |>) | inr _ => a <| wa_site := w' |> end)
  | app_heartbeat_ends a :
      wa_main a = MRunning → wa_stop a = true → app_step a (a <| wa_heartbeat_alive := false |>)
  (* the execution loop *)
  | app_exec_next a :
      wa_main a = MRunning → wa_exec a = ExReady →
      app_step a (a <| wa_exec := if wa_stop a then ExDone else ExThread (ToStart OpExecute) |>)
  | app_exec_section a t w' t' :
      wa_exec a = ExThread t → thread_step (wa_site a, t) (w', t') →
      app_step a (a <| wa_site := w' |> <| wa_exec := ExThread t' |>)
  | app_exec_empty a :
      wa_main a = MRunning → wa_exec a = ExThread (Returned []) → app_step a (a <| wa_exec := ExIdle |>)
  | app_exec_delivered a result results (sink_raises : bool) :
      wa_main a = MRunning → wa_exec a = ExThread (Returned (result :: results)) →
      app_step a (if sink_raises then abort_group (a <| wa_exec := ExDone |>) else a <| wa_exec := ExReady |>)
  | app_exec_failed a :
      wa_main a = MRunning → wa_exec a = ExThread Raised → app_step a (abort_group (a <| wa_exec := ExDone |>))
  | app_exec_polls a :
      wa_main a = MRunning → wa_exec a = ExIdle → app_step a (a <| wa_exec := ExReady |>)
  | app_exec_cancelled a t :
      wa_main a = MAborting → wa_exec a = ExThread t → t = Raised ∨ (∃ results, t = Returned results) →
      app_step a (a <| wa_exec := ExDone |>)
  (* the eviction loop *)
  | app_evict_next a :
      wa_main a = MRunning → wa_evict a = EvWaiting → app_step a (a <| wa_evict := EvThread (ToStart OpEvict) |>)
  | app_evict_ends a :
      wa_main a = MRunning → wa_evict a = EvWaiting → wa_stop a = true → app_step a (a <| wa_evict := EvDone |>)
  | app_evict_section a t w' t' :
      wa_evict a = EvThread t → thread_step (wa_site a, t) (w', t') →
      app_step a (a <| wa_site := w' |> <| wa_evict := EvThread t' |>)
  | app_evicted a results r w' :
      wa_main a = MRunning → wa_evict a = EvThread (Returned results) → start clock hostname OpHeartbeat (wa_site a) = (r, w') →
      app_step a (match r with
                  | inl _ => abort_group (a <| wa_site := w' |> <| wa_evict := EvDone |>)
                  | inr _ => a <| wa_site := w' |> <| wa_evict := EvWaiting |>
                  end)
  | app_evict_failed a :
      wa_main a = MRunning → wa_evict a = EvThread Raised → app_step a (abort_group (a <| wa_evict := EvDone |>))
  | app_stray a ts1 t ts2 w' t' :
      wa_stray a = ts1 ++ t :: ts2 → thread_step (wa_site a, t) (w', t') →
      app_step a (a <| wa_site := w' |> <| wa_stray := ts1 ++ t' :: ts2 |>)
  (* the end of the group, and the [finally] clause *)
  | app_cancelled a : wa_main a = MRunning → app_step a (abort_group a)
  | app_group_ends a :
      wa_main a = MRunning ∨ wa_main a = MAborting →
      wa_heartbeat_alive a = false → wa_exec a = ExDone → wa_evict a = EvDone →
      app_step a (a <| wa_main := MShutdown (ToStart OpShutdown) |>)
  | app_shutdown_section a t w' t' :
      wa_main a = MShutdown t → thread_step (wa_site a, t) (w', t') →
      app_step a (a <| wa_site := w' |> <| wa_main := MShutdown t' |>)
  | app_ended a t :
      wa_main a = MShutdown t → t = Raised ∨ (∃ results, t = Returned results) → app_step a (a <| wa_main := MEnded |>).

(** ** What kind of call each thread performs *)

Inductive Kind := KLoad | KEvict | KBatch | KShutdown.
Definition kind (c : Call) : Kind :=
  match c with
  | CLoad _ _ _ | CLoaded _ _ _ _ | CLoadEnd _ => KLoad
  | CUnload _ _ | CEvict _ _ => KEvict
  | CExecute _ | CRan _ _ | CEnding _ _ | CCompleting _ _ => KBatch
  | CShutdown _ => KShutdown
  end.
Definition op_kind (o : Op) : option Kind :=
  match o with
  | OpLoad _ | OpResume _ _ => Some KLoad
  | OpUnload _ | OpEvict => Some KEvict
  | OpExecute => Some KBatch
  | OpShutdown => Some KShutdown
  | _ => None
  end.
(** At most one call, of kind [k]. *)
Definition single (k : option Kind) (cs : list Call) : Prop := cs = [] ∨ ∃ c, cs = [c] ∧ Some (kind c) = k.
Definition thread_kind (k : Kind) (t : Thread) : Prop :=
  match t with ToStart o => op_kind o = Some k | Within cs => single (Some k) cs | _ => True end.

Lemma ret_inv {A} (m : Eff (Site S) WorkerExc A) (f : A → list Call) w cs w' :
  (m ≫= λ a, mret (f a)) w = (inr cs, w') → ∃ a, cs = f a.
Proof. intros (a & w1 & _ & [= <- _])%bind_inr_inv. by exists a. Qed.
Lemma start_single o w cs w' : start clock hostname o w = (inr cs, w') → single (op_kind o) cs.
Proof.
  intros E. destruct o; cbn [start] in E; apply ret_inv in E as [x ->]; try (by left);
    destruct x; cbn; first [by left|by right; eexists].
Qed.
Lemma continue_single c w cs w' : continue clock perf c w = (inr cs, w') → single (Some (kind c)) cs.
Proof.
  intros E. destruct c as [| ? ? ? []| |? []|[]| |? []|? []| |]; cbn [continue] in E;
    try (apply bind_inr_inv in E as (? & ? & _ & E));
    try (apply bind_inr_inv in E as (? & ? & _ & E));
    try (apply bind_inr_inv in E as (? & ? & _ & E)); cbn in E; try injection E as <- _;
    try (by left); try (by right; eexists).
  all: try (case_match); try (by left); try (by right; eexists).
Qed.

(** ** The invariant *)

Lemma begun_calls r : thread_calls (begun r) = calls_left r.
Proof. by destruct r as [|[]]. Qed.
Lemma went_calls c failed w r : thread_calls (went c failed w r) = calls_left r.
Proof. destruct r as [|[]]; [done| |done]. by destruct c as [| | | | | | |? []| |], failed. Qed.
Lemma begun_kind k r :
  match r with inr cs => single (Some k) cs | inl _ => True end → thread_kind k (begun r).
Proof. destruct r as [|[]]; done. Qed.
Lemma went_kind k c failed w r :
  match r with inr cs => single (Some k) cs | inl _ => True end → thread_kind k (went c failed w r).
Proof. destruct r as [|[]]; [done| |done]. by destruct c as [| | | | | | |? []| |], failed. Qed.

Lemma thread_step_inv k w t w' t' cs :
  thread_step (w, t) (w', t') → thread_kind k t → WI (thread_calls t ++ cs) w →
  WI (thread_calls t' ++ cs) w' ∧ thread_kind k t'.
Proof.
  intros Hs Hk Hw. inversion Hs as [o ? r ? E|c ? failed r ? E]; subst; clear Hs; cbn in Hk.
  - split.
    + rewrite begun_calls. exact (worker_step_inv clock perf hostname _ _ (step_start _ _ _ o w cs w' r E) Hw).
    + apply begun_kind. destruct r as [|cs']; [done|]. rewrite <- Hk. by eapply start_single.
  - split.
    + rewrite went_calls. exact (worker_step_inv clock perf hostname _ _ (step_continue _ _ _ c w [] cs w' r E) Hw).
    + apply went_kind. destruct r as [|cs']; [done|].
      destruct Hk as [|(c' & [= <-] & <-)]; [done|]. by eapply continue_single.
Qed.
Lemma begin_inv o w r w' cs :
  start clock hostname o w = (r, w') → op_kind o = None → WI cs w → WI cs w'.
Proof.
  intros E Hk Hw. pose proof (worker_step_inv clock clock hostname _ _ (step_start _ _ _ o w cs w' r E) Hw) as Hi.
  destruct r as [|cs']; [done|]. apply start_single in E as [->|(c & -> & Hc)]; [done|]. by rewrite Hk in Hc.
Qed.

(** The tasks that a phase of [run] has. *)
Definition tasks_of (a : App) : Prop :=
  match wa_main a with
  | MRunning => True
  | MAborting => wa_heartbeat_alive a = false ∧ wa_evict a = EvDone ∧ wa_exec a ≠ ExReady ∧ wa_exec a ≠ ExIdle
  | _ => wa_heartbeat_alive a = false ∧ wa_evict a = EvDone ∧ wa_exec a = ExDone
  end.
Record app_inv (a : App) : Prop := {
  ai_worker : WI (calls a) (wa_site a);
  ai_main : match wa_main a with
            | MLoad t _ _ => thread_kind KLoad t | MShutdown t => thread_kind KShutdown t | _ => True end;
  ai_exec : match wa_exec a with ExThread t => thread_kind KBatch t | _ => True end;
  ai_evict : match wa_evict a with EvThread t => thread_kind KEvict t | _ => True end;
  ai_stray : Forall (thread_kind KEvict) (wa_stray a);
  ai_tasks : tasks_of a
}.

Lemma abort_group_inv a :
  app_inv a → main_calls (wa_main a) = [] → app_inv (abort_group a).
Proof.
  intros [Hw Hm He Hv Hs Ht] H0. split; cbn.
  - eapply worker_inv_perm, Hw. unfold calls, abort_group. cbn. rewrite H0. cbn.
    destruct (wa_exec a), (wa_evict a); cbn; rewrite ?app_nil_r; done.
  - done.
  - by destruct (wa_exec a).
  - done.
  - destruct (wa_evict a); [done|by constructor|done].
  - split_and!; [done|done|by destruct (wa_exec a)..].
Qed.
Lemma start_up_inv models a :
  app_inv a → main_calls (wa_main a) = [] → wa_main a ≠ MRunning → wa_main a ≠ MAborting → app_inv (start_up models a).
Proof.
  intros [Hw Hm He Hv Hs Ht] H0 Hr Ha.
  assert (wa_heartbeat_alive a = false ∧ wa_evict a = EvDone ∧ wa_exec a = ExDone) as (Eh & Ev & Ex).
  { unfold tasks_of in Ht. by destruct (wa_main a). }
  assert (WI (mbind thread_calls (wa_stray a)) (wa_site a)) as Hw'.
  { unfold calls in Hw. by rewrite H0, Ev, Ex in Hw. }
  destruct models as [|m models]; split; unfold calls, tasks_of; cbn; rewrite ?Ev, ?Ex; done.
Qed.
(** A step of [run]'s own that leaves the tasks and the threads. *)
Lemma app_inv_main a w m :
  app_inv a → WI (calls (a <| wa_site := w |> <| wa_main := m |>)) w →
  match m with MLoad t _ _ => thread_kind KLoad t | MShutdown t => thread_kind KShutdown t | _ => True end →
  tasks_of (a <| wa_site := w |> <| wa_main := m |>) →
  app_inv (a <| wa_site := w |> <| wa_main := m |>).
Proof. intros [Hw Hm He Hv Hs Ht] Hw' Hm' Ht'. by split. Qed.
Lemma app_inv_site a w : app_inv a → WI (calls a) w → app_inv (a <| wa_site := w |>).
Proof. intros [Hw Hm He Hv Hs Ht] Hw'. by split. Qed.

(** A section of one of the threads. *)
Lemma exec_thread_inv a t w' t' :
  app_inv a → wa_exec a = ExThread t → thread_step (wa_site a, t) (w', t') →
  app_inv (a <| wa_site := w' |> <| wa_exec := ExThread t' |>).
Proof.
  intros [Hw Hm He Hv Hs Ht] E Hstep. unfold calls in Hw. rewrite E in He, Hw. cbn in Hw.
  destruct (thread_step_inv KBatch _ _ _ _ (main_calls (wa_main a) ++ evict_calls (wa_evict a) ++ mbind thread_calls (wa_stray a)) Hstep He)
    as [Hw' Hk]; [by eapply worker_inv_perm, Hw; rewrite Permutation_app_swap_app|].
  split; cbn; try done.
  - eapply worker_inv_perm, Hw'. unfold calls. cbn. by rewrite Permutation_app_swap_app.
  - unfold tasks_of in *. cbn. destruct (wa_main a); try done; rewrite E in Ht; by destruct Ht as (? & ? & ?).
Qed.
Lemma evict_thread_inv a t w' t' :
  app_inv a → wa_evict a = EvThread t → thread_step (wa_site a, t) (w', t') →
  app_inv (a <| wa_site := w' |> <| wa_evict := EvThread t' |>).
Proof.
  intros [Hw Hm He Hv Hs Ht] E Hstep. unfold calls in Hw. rewrite E in Hv, Hw. cbn in Hw.
  set (before := main_calls (wa_main a) ++ exec_calls (wa_exec a)).
  assert (∀ cs, main_calls (wa_main a) ++ exec_calls (wa_exec a) ++ cs ++ mbind thread_calls (wa_stray a)
                ≡ₚ cs ++ before ++ mbind thread_calls (wa_stray a)) as Hp.
  { intros cs. unfold before. rewrite !app_assoc. by rewrite (Permutation_app_comm _ cs), !app_assoc. }
  destruct (thread_step_inv KEvict _ _ _ _ (before ++ mbind thread_calls (wa_stray a)) Hstep Hv)
    as [Hw' Hk]; [by eapply worker_inv_perm, Hw|].
  split; cbn; try done.
  - eapply worker_inv_perm, Hw'. unfold calls. cbn. by rewrite Hp.
  - unfold tasks_of in *. cbn. destruct (wa_main a); try done; rewrite E in Ht; by destruct Ht as (? & ? & ?).
Qed.
Lemma stray_thread_inv a ts1 t ts2 w' t' :
  app_inv a → wa_stray a = ts1 ++ t :: ts2 → thread_step (wa_site a, t) (w', t') →
  app_inv (a <| wa_site := w' |> <| wa_stray := ts1 ++ t' :: ts2 |>).
Proof.
  intros [Hw Hm He Hv Hs Ht] E Hstep. unfold calls in Hw. rewrite E in Hs, Hw.
  apply Forall_app in Hs as [Hs1 [Hk Hs2]%Forall_cons].
  set (rest := main_calls (wa_main a) ++ exec_calls (wa_exec a) ++ evict_calls (wa_evict a) ++ mbind thread_calls (ts1 ++ ts2)).
  assert (∀ t, main_calls (wa_main a) ++ exec_calls (wa_exec a) ++ evict_calls (wa_evict a) ++ mbind thread_calls (ts1 ++ t :: ts2)
                ≡ₚ thread_calls t ++ rest) as Hp.
  { intros u. unfold rest. rewrite !bind_app. cbn [mbind list_bind]. rewrite !app_assoc.
    rewrite (Permutation_app_comm _ (thread_calls u)). by rewrite !app_assoc. }
  destruct (thread_step_inv KEvict _ _ _ _ rest Hstep Hk) as [Hw' Hk']; [by eapply worker_inv_perm, Hw|].
  split; cbn; try done.
  - eapply worker_inv_perm, Hw'. unfold calls. cbn. by rewrite Hp.
  - apply Forall_app. split; [done|by constructor].
Qed.
Lemma main_thread_inv a k m t w' t' (m' : Thread → MainState) :
  app_inv a → wa_main a = m → m = m' t → (∀ t, main_calls (m' t) = thread_calls t) →
  thread_kind k t → (∀ t, thread_kind k t → match m' t with
    MLoad t _ _ => thread_kind KLoad t | MShutdown t => thread_kind KShutdown t | _ => True end) →
  (m' t' ≠ MRunning ∧ m' t' ≠ MAborting) → (m ≠ MRunning ∧ m ≠ MAborting) →
  thread_step (wa_site a, t) (w', t') →
  app_inv (a <| wa_site := w' |> <| wa_main := m' t' |>).
Proof.
  intros Hi E -> Hc Hk Hk' Hn Hn' Hstep. pose proof Hi as [Hw Hm He Hv Hs Ht]. unfold calls in Hw. rewrite E, Hc in Hw.
  destruct (thread_step_inv k _ _ _ _ _ Hstep Hk Hw) as [Hw' Hk2].
  apply app_inv_main; [done| |by apply Hk'|].
  - unfold calls. cbn. by rewrite Hc.
  - unfold tasks_of in *. cbn. rewrite E in Ht. destruct Hn, Hn'. by destruct (m' t), (m' t').
Qed.

(** A loop moves on without a section. *)
Lemma exec_moves a e :
  app_inv a → exec_calls (wa_exec a) = [] → exec_calls e = [] →
  match e with ExThread t => thread_kind KBatch t | _ => True end →
  wa_main a = MRunning ∨ wa_main a = MAborting ∧ e = ExDone → app_inv (a <| wa_exec := e |>).
Proof.
  intros [Hw Hm He Hv Hs Ht] E0 E1 Hk Hor. split; cbn; try done.
  - unfold calls in *. cbn. by rewrite E1, <- E0.
  - unfold tasks_of in *. cbn. destruct Hor as [->|[Em ->]]; [done|]. rewrite Em in *. naive_solver.
Qed.
Lemma evict_moves a e :
  app_inv a → evict_calls (wa_evict a) = [] → evict_calls e = [] →
  match e with EvThread t => thread_kind KEvict t | _ => True end →
  wa_main a = MRunning → app_inv (a <| wa_evict := e |>).
Proof.
  intros [Hw Hm He Hv Hs Ht] E0 E1 Hk Em. split; cbn; try done.
  - unfold calls in *. cbn. by rewrite E1, <- E0.
  - unfold tasks_of in *. cbn. by rewrite Em.
Qed.
Lemma app_inv_begin a o r w' :
  app_inv a → start clock hostname o (wa_site a) = (r, w') → op_kind o = None → app_inv (a <| wa_site := w' |>).
Proof. intros Hi E Hk. apply app_inv_site; [done|]. eapply begin_inv; [done..|]. apply Hi. Qed.

Lemma app_step_inv a a' : app_step a a' → app_inv a → app_inv a'.
Proof.
  intros Hs Hi. destruct Hs as [a o r w' Ho E|a l target at_ r E Hor|a r w' E|a r w' Em E|a t m models w' t' Em Hs
    |a results m models r w' Em E|a m models Em|a r w' Em _ E|a Em _|a Em Ex|a t w' t' Ex Hs|a Em Ex
    |a result results raises Em Ex|a Em Ex|a Em Ex|a t Em Ex Hor|a Em Ev|a Em Ev _|a t w' t' Ev Hs
    |a results r w' Em Ev E|a Em Ev|a ts1 t ts2 w' t' Ets Hs|a Em|a Hor Eh Ex Ev|a t w' t' Em Hs|a t Em Hor].
  - eapply app_inv_begin; [done..|]. by destruct o.
  - apply app_inv_site; [done|].
    refine (worker_step_inv clock perf hostname (_, _) (_, _) _ (ai_worker _ Hi)). by econstructor.
  - pose proof (app_inv_begin _ _ _ _ Hi E eq_refl) as H1. destruct r; [done|]. by destruct H1; split.
  - pose proof (app_inv_begin _ _ _ _ Hi E eq_refl) as H1. destruct r.
    + apply (app_inv_main (a <| wa_site := w' |>) w' MRefused); [done| |done|];
        destruct H1 as [Hw _ _ _ _ Ht]; unfold calls, tasks_of in *; cbn in *; by rewrite Em in *.
    + apply start_up_inv; cbn; by rewrite ?Em.
  - eapply (main_thread_inv a KLoad _ t w' t' (λ t, MLoad t m models)); try done.
    pose proof (ai_main _ Hi) as Hm. by rewrite Em in Hm.
  - pose proof (app_inv_begin _ _ _ _ Hi E eq_refl) as H1.
    destruct r; [apply abort_group_inv|apply start_up_inv]; cbn; by rewrite ?Em.
  - apply abort_group_inv; [done|by rewrite Em].
  - pose proof (app_inv_begin _ _ _ _ Hi E eq_refl) as H1. destruct r; [|done].
    apply abort_group_inv; cbn; by rewrite ?Em.
  - destruct Hi as [Hw Hm He Hv Hst Ht]. split; cbn; try done. unfold tasks_of. cbn. by rewrite Em.
  - apply exec_moves; try done; [by rewrite Ex|by destruct (wa_stop a)..|by left].
  - by eapply exec_thread_inv.
  - apply exec_moves; try done; [by rewrite Ex|by left].
  - destruct raises; [apply abort_group_inv; [|by cbn; rewrite Em]|];
      (apply exec_moves; try done; [by rewrite Ex|by left]).
  - apply abort_group_inv; [|by cbn; rewrite Em]. apply exec_moves; try done; [by rewrite Ex|by left].
  - apply exec_moves; try done; [by rewrite Ex|by left].
  - apply exec_moves; try done; [|by right]. rewrite Ex. by destruct Hor as [->|[? ->]].
  - apply evict_moves; try done. by rewrite Ev.
  - apply evict_moves; try done. by rewrite Ev.
  - by eapply evict_thread_inv.
  - pose proof (app_inv_begin _ _ _ _ Hi E eq_refl) as H1.
    destruct r; [apply abort_group_inv; [|by cbn; rewrite Em]|]; (apply evict_moves; cbn; try done; by rewrite ?Ev).
  - apply abort_group_inv; [|by cbn; rewrite Em]. apply evict_moves; try done. by rewrite Ev.
  - by eapply stray_thread_inv.
  - apply abort_group_inv; [done|by rewrite Em].
  - destruct Hi as [Hw Hm He Hv Hst Ht]. split; cbn; try done.
    unfold calls in *. cbn. by destruct Hor as [Em|Em]; rewrite Em in Hw.
  - eapply (main_thread_inv a KShutdown _ t w' t' MShutdown); try done.
    pose proof (ai_main _ Hi) as Hm. by rewrite Em in Hm.
  - destruct Hi as [Hw Hm He Hv Hst Ht]. split; cbn; try done.
    + unfold calls in *. cbn. rewrite Em in Hw. by destruct Hor as [->|[? ->]].
    + unfold tasks_of in *. cbn. by rewrite Em in Ht.
Qed.
Lemma app_steps_inv a a' : rtc app_step a a' → app_inv a → app_inv a'.
Proof. induction 1 as [|a1 a2 a3 Hs _ IH]; [done|]. intros Hi. by eapply IH, app_step_inv. Qed.

(** ** What the threads of a reachable application hold *)

Lemma other_kind k t : thread_kind k t → k ≠ KBatch → batches (thread_calls t) = [] ∧ owned (thread_calls t) = [].
Proof.
  destruct t as [|cs| |]; try done. intros [->|(c & -> & [= <-])] Hn; [done|]. by destruct c.
Qed.
Lemma other_load k t : thread_kind k t → k ≠ KLoad → loads (thread_calls t) = [].
Proof. destruct t as [|cs| |]; try done. intros [->|(c & -> & [= <-])] Hn; [done|]. by destruct c. Qed.
Lemma one_batch t : thread_kind KBatch t → (length (batches (thread_calls t)) <= 1)%nat.
Proof. destruct t as [|cs| |]; cbn; try lia. intros [->|(c & -> & _)]; [cbn; lia|]. destruct c; cbn; lia. Qed.
Lemma stray_batches ts :
  Forall (thread_kind KEvict) ts →
  batches (mbind thread_calls ts) = [] ∧ owned (mbind thread_calls ts) = [] ∧ loads (mbind thread_calls ts) = [].
Proof.
  unfold batches, owned, loads. induction 1 as [|t ts Hk _ (IH1 & IH2 & IH3)]; [done|]. cbn [mbind list_bind].
  rewrite !fmap_app, !concat_app. destruct (other_kind _ _ Hk) as [E1 E2]; [done|].
  pose proof (other_load _ _ Hk ltac:(done)) as E3. unfold batches, owned, loads in *. cbn in *.
  by rewrite E1, E2, E3, IH1, IH2, IH3.
Qed.
(** Only the execution loop's thread executes, and only the main thread loads. *)
Lemma app_inv_held a :
  app_inv a →
  batches (calls a) = batches (exec_calls (wa_exec a)) ∧ owned (calls a) = owned (exec_calls (wa_exec a)) ∧
  loads (calls a) = loads (main_calls (wa_main a)).
Proof.
  intros [Hw Hm He Hv Hs Ht]. destruct (stray_batches _ Hs) as (S1 & S2 & S3).
  assert (batches (main_calls (wa_main a)) = [] ∧ owned (main_calls (wa_main a)) = []) as [M1 M2].
  { destruct (wa_main a); try done; by eapply other_kind. }
  assert (batches (evict_calls (wa_evict a)) = [] ∧ owned (evict_calls (wa_evict a)) = [] ∧
          loads (evict_calls (wa_evict a)) = []) as (V1 & V2 & V3).
  { destruct (wa_evict a) as [|t|]; try done. destruct (other_kind _ _ Hv) as [? ?]; [done|].
    pose proof (other_load _ _ Hv). auto. }
  assert (loads (exec_calls (wa_exec a)) = []) as X.
  { destruct (wa_exec a); try done. by eapply other_load. }
  unfold calls, batches, owned, loads in *. rewrite !fmap_app, !concat_app.
  by rewrite M1, M2, V1, V2, V3, X, S1, S2, S3, !app_nil_r.
Qed.

(** C9: In every run of a worker's application (any batches, evictions, hand-overs, cancellations and failures,
    however their locked sections interleave): the invariant of the worker holds of the calls in progress; at
    most one batch is executing; a startup load finds no other load to wait for; and when the worker is shut
    down, no batch is in progress and no request is held by one, so no model is unloaded under a batch by
    [shutdown]. *)
Theorem application_shuts_down_idle worker_id p q r s e x h registry runtime n d1 d2 d3 a0 a :
  ManagedWorker_init worker_id p q r s e = Ok x →
  WorkerApplication_init (mkSite h registry runtime x n) d1 d2 d3 = Ok a0 →
  rtc app_step a0 a →
  worker_inv (calls a) (si_heap (wa_site a)) (si_worker (wa_site a)) ∧
  mw_active_batch_count (si_worker (wa_site a)) <= 1 ∧
  (∀ m rest, wa_main a = MLoad (ToStart (OpLoad m)) m rest → mw_loading_models (si_worker (wa_site a)) = ∅) ∧
  ((∃ t, wa_main a = MShutdown t) ∨ wa_main a = MEnded →
   mw_active_batch_count (si_worker (wa_site a)) = 0 ∧ owned (calls a) = []).
Proof.
  intros Hx Ha Hr. unfold WorkerApplication_init in Ha. apply bind_Ok_inv in Ha as ([] & _ & [= <-]).
  assert (app_inv a) as Hi.
  { apply (app_steps_inv _ _ Hr). split; try done. by eapply fresh_inv. }
  destruct (app_inv_held _ Hi) as (Eb & Eo & El). destruct Hi as [Hw Hm He Hv Hs Ht].
  split; [done|]. pose proof (wi_batches _ _ _ Hw) as Hc. rewrite Eb in Hc. split_and!.
  - rewrite Hc. destruct (wa_exec a) as [|t| |]; try done. apply one_batch in He. cbn [exec_calls]. lia.
  - intros m rest Em. rewrite Em in El. pose proof (wi_loading _ _ _ Hw) as Hl. rewrite El in Hl. cbn in Hl. set_solver.
  - intros Hend. assert (wa_exec a = ExDone) as Ex.
    { unfold tasks_of in Ht. destruct Hend as [[t Em]|Em]; rewrite Em in Ht; by destruct Ht as (_ & _ & ?). }
    by rewrite Hc, Eo, Ex.
Qed.
End application.

(** [shutdown] makes every queued request FAILED without asking whether it has ended, as [execute_batch] does:
    the first one that ended while it was queued makes it raise, and the worker keeps its models and its place
    in the registry. *)
Lemma shutdown_raises_at_ended_request {S} `{ModelRuntime S} (clock : nat → float) (w : Site S) l queue :
  mw_queue (si_worker w) = l :: queue → r_terminal (si_heap w !!! l) = true →
  ∃ e w', shutdown clock w = (inl e, w') ∧
    mw_health (si_worker w') = mw_health (si_worker w) ∧
    mw_resident_models (si_worker w') = mw_resident_models (si_worker w) ∧
    si_registry w' = si_registry w ∧ si_runtime w' = si_runtime w.
Proof.
  intros Hq Ht.
  assert (∃ e, transition FAILED (clock (si_readings w)) (si_heap w !!! l) = Err e) as [e He].
  { unfold transition. rewrite bool_decide_eq_true_2; [by eexists|].
    intros Hin%terminal_target. unfold r_terminal in Ht. congruence. }
  unfold shutdown, shutdown_begin, update, get_worker, mbind, M_bind, modify, gets. cbn. rewrite Hq. cbn.
  unfold mbind, M_bind, transition_now, monotonic, transition_at, get_request, mbind, M_bind, gets, lift_res. cbn.
  rewrite He. by do 2 eexists.
Qed.

(** ** Runs *)

#[local] Existing Instance WorkerSafe.sample_runtime.
#[local] Abbreviation SampleApp := (WorkerApplication (gset string)).
#[local] Abbreviation sample_app_step := (app_step sample_clock sample_clock "host" [sample_model]).

(** One section of a thread. *)
Definition sample_thread (w : Site (gset string)) (t : Thread) : option (Site (gset string) * Thread) :=
  match t with
  | ToStart o => let '(r, w') := start sample_clock "host" o w in Some (w', begun r)
  | Within [c] => let '(r, w') := continue sample_clock sample_clock c w in Some (w', went c false w' r)
  | _ => None
  end.
Lemma sample_thread_steps w t w' t' :
  sample_thread w t = Some (w', t') → thread_step sample_clock sample_clock "host" (w, t) (w', t').
Proof.
  destruct t as [o|[|c [|]]| |]; cbn; try done.
  - destruct (start _ _ _ _) eqn:E. intros [= <- <-]. by constructor.
  - destruct (continue _ _ _ _) eqn:E. intros [= <- <-]. by constructor.
Qed.
(** What happens next: a loop or thread goes on by itself, or another thread calls the worker. *)
Inductive Move := MoveMain | MoveExec | MoveEvict | MoveCall (o : Op) | MoveStop.
Definition sample_move (mv : Move) (a : SampleApp) : option SampleApp :=
  match mv with
  | MoveCall o =>
    if foreign o then Some (a <| wa_site := (start sample_clock "host" o (wa_site a)).2 |>) else None
  | MoveStop => let '(r, w') := start sample_clock "host" OpDrain (wa_site a) in Some (stopped r (a <| wa_site := w' |>))
  | MoveExec =>
    match wa_exec a, wa_main a with
    | ExReady, MRunning => Some (a <| wa_exec := if wa_stop a then ExDone else ExThread (ToStart OpExecute) |>)
    | ExThread (Returned []), MRunning => Some (a <| wa_exec := ExIdle |>)
    | ExThread (Returned (_ :: _)), MRunning => Some (a <| wa_exec := ExReady |>)
    | ExThread (Returned _), MAborting => Some (a <| wa_exec := ExDone |>)
    | ExThread t, _ => p ← sample_thread (wa_site a) t; Some (a <| wa_site := p.1 |> <| wa_exec := ExThread p.2 |>)
    | _, _ => None
    end
  | MoveEvict =>
    match wa_evict a, wa_main a with
    | EvWaiting, MRunning => Some (a <| wa_evict := EvThread (ToStart OpEvict) |>)
    | EvThread Raised, MRunning => Some (abort_group (a <| wa_evict := EvDone |>))
    | EvThread t, _ => p ← sample_thread (wa_site a) t; Some (a <| wa_site := p.1 |> <| wa_evict := EvThread p.2 |>)
    | _, _ => None
    end
  | MoveMain =>
    match wa_main a with
    | MNew => let '(r, w') := start sample_clock "host" OpRegister (wa_site a) in
              Some (match r with
                    | inl _ => a <| wa_site := w' |> <| wa_main := MRefused |>
                    | inr _ => start_up [sample_model] (a <| wa_site := w' |>)
                    end)
    | MLoad (Returned _) m ms =>
      let '(r, w') := start sample_clock "host" (OpWarmup (m_model_id m)) (wa_site a) in
      Some (match r with
            | inl _ => abort_group (a <| wa_site := w' |>)
            | inr _ => start_up ms (a <| wa_site := w' |>)
            end)
    | MLoad t m ms => p ← sample_thread (wa_site a) t; Some (a <| wa_site := p.1 |> <| wa_main := MLoad p.2 m ms |>)
    | MAborting =>
      match wa_heartbeat_alive a, wa_exec a, wa_evict a with
      | false, ExDone, EvDone => Some (a <| wa_main := MShutdown (ToStart OpShutdown) |>)
      | _, _, _ => None
      end
    | MShutdown Raised | MShutdown (Returned _) => Some (a <| wa_main := MEnded |>)
    | MShutdown t => p ← sample_thread (wa_site a) t; Some (a <| wa_site := p.1 |> <| wa_main := MShutdown p.2 |>)
    | MRunning => Some (abort_group a)
    | _ => None
    end
  end.
Ltac of_thread H :=
  apply bind_Some in H as ([w2 t2] & ?%sample_thread_steps & [= <-]); by econstructor.
Lemma sample_move_steps mv a a' : sample_move mv a = Some a' → sample_app_step a a'.
Proof.
  destruct mv as [| | |o|]; cbn [sample_move].
  - destruct (wa_main a) as [|t m ms| | |t| |] eqn:Em; try done.
    + destruct (start _ _ _ _) as [r w'] eqn:E. intros [= <-]. by apply (app_register sample_clock sample_clock "host" [sample_model]).
    + destruct t as [o|cs|rs|]; intros Hs; try of_thread Hs.
      destruct (start _ _ _ _) as [r w'] eqn:E. injection Hs as <-. by eapply app_loaded.
    + intros [= <-]. by apply app_cancelled.
    + destruct (wa_heartbeat_alive a) eqn:?, (wa_exec a) eqn:?, (wa_evict a) eqn:?; try done. intros [= <-].
      apply app_group_ends; auto.
    + destruct t as [o|cs|rs|]; intros Hs; try of_thread Hs; injection Hs as <-; eapply app_ended; eauto.
  - destruct (wa_exec a) as [|t| |] eqn:Ex; try done.
    + destruct (wa_main a) eqn:Em; try done. intros [= <-]. by apply app_exec_next.
    + destruct t as [o|cs|rs|]; intros Hs; try by destruct (wa_main a).
      1, 2: destruct (wa_main a); of_thread Hs.
      destruct rs as [|r rs], (wa_main a) eqn:Em; try done; injection Hs as <-;
        [by apply app_exec_empty|by eapply app_exec_cancelled; eauto| |by eapply app_exec_cancelled; eauto].
      by apply (app_exec_delivered _ _ _ _ a r rs false).
  - destruct (wa_evict a) as [|t|] eqn:Ev; try done.
    + destruct (wa_main a) eqn:Em; try done. intros [= <-]. by apply app_evict_next.
    + destruct t as [o|cs|rs|]; intros Hs; try by destruct (wa_main a).
      1, 2: destruct (wa_main a); of_thread Hs.
      destruct (wa_main a) eqn:Em; try done. injection Hs as <-. by apply app_evict_failed.
  - destruct (foreign o) eqn:Ho; [|done]. intros [= <-].
    destruct (start sample_clock "host" o (wa_site a)) as [r w'] eqn:E. by eapply app_foreign.
  - destruct (start _ _ _ _) as [r w'] eqn:E. intros [= <-]. by apply app_stop.
Qed.
Fixpoint sample_moves (mvs : list Move) (a : SampleApp) : option SampleApp :=
  match mvs with [] => Some a | mv :: mvs => a ← sample_move mv a; sample_moves mvs a end.
Lemma sample_moves_steps mvs a a' : sample_moves mvs a = Some a' → rtc sample_app_step a a'.
Proof.
  revert a. induction mvs as [|mv mvs IH]; intros a; cbn; [intros [= <-]; done|].
  intros (a1 & H1 & H2)%bind_Some. by eapply rtc_l; [eapply sample_move_steps|apply IH].
Qed.

Definition sample_app_start : SampleApp :=
  mkApplication (mkSite sample_heap (mkWorkerRegistry (f_of_Z 30) (f_of_Z 10) ∅) ∅ sample_worker 0)
    false MNew false ExDone EvDone [].
(** [register], the load and the warmup of the startup model. *)
Definition sample_startup : list Move := replicate 6 MoveMain.
(** What the lemmas below say of a state. *)
Definition sample_statuses (a : SampleApp) := map_to_list (r_status <$> si_heap (wa_site a)).
Definition sample_loaded (a : SampleApp) : list string := elements (si_runtime (wa_site a)).
Definition sample_view (a : SampleApp) := (wa_main a, sample_loaded a, sample_statuses a).

(** The run is cancelled while a batch is in the runtime: the batch completes before [shutdown] takes the
    models, whose list is about to be unloaded. *)
Definition sample_cancelled : list Move :=
  sample_startup ++ MoveCall (OpEnqueue 1) :: replicate 2 MoveExec ++ MoveMain :: replicate 5 MoveExec ++ [MoveMain; MoveMain].
Lemma application_shuts_down_idle_witness :
  ∃ a, rtc sample_app_step sample_app_start a ∧ wa_main a = MShutdown (Within [CShutdown ["m"]]) ∧
    sample_loaded a = ["m"] ∧ sample_statuses a = [(3%positive, ASSIGNED); (2%positive, ASSIGNED); (1%positive, COMPLETED)] ∧
    worker_inv (calls a) (si_heap (wa_site a)) (si_worker (wa_site a)) ∧
    mw_active_batch_count (si_worker (wa_site a)) <= 1 ∧
    (∀ m rest, wa_main a = MLoad (ToStart (OpLoad m)) m rest → mw_loading_models (si_worker (wa_site a)) = ∅) ∧
    ((∃ t, wa_main a = MShutdown t) ∨ wa_main a = MEnded →
     mw_active_batch_count (si_worker (wa_site a)) = 0 ∧ owned (calls a) = []).
Proof.
  destruct (sample_moves sample_cancelled sample_app_start) as [a|] eqn:E; [|by vm_compute in E].
  pose proof (sample_moves_steps _ _ _ E) as Hs. exists a. split; [done|].
  apply (f_equal (fmap (M := option) sample_view)) in E. vm_compute in E. injection E as E1 E2 E3.
  do 3 (split; [done|]).
  refine (application_shuts_down_idle sample_clock sample_clock "host" [sample_model] "w" 4 2 2 64 0 sample_worker
    sample_heap (mkWorkerRegistry (f_of_Z 30) (f_of_Z 10) ∅) ∅ 0 (f_of_Z 5) (f_of_Z 1) (f_of_Z 30) sample_app_start a _ _ Hs);
    reflexivity.
Defined.

(** A request that reaches the worker while the eviction loop is between its search for idle models and the
    unload of one: [unload_model] refuses the model, [evict_idle_models] raises, and the group stops the whole
    worker, whose request fails. *)
Definition sample_eviction_race : list Move :=
  sample_startup ++ [MoveEvict; MoveEvict; MoveCall (OpEnqueue 1); MoveEvict; MoveEvict] ++ replicate 4 MoveMain.
Lemma eviction_race_stops_worker :
  ∃ a, rtc sample_app_step sample_app_start a ∧ wa_main a = MEnded ∧ wa_stop a = false ∧
    mw_health (si_worker (wa_site a)) = STOPPED ∧
    sample_statuses a = [(3%positive, ASSIGNED); (2%positive, ASSIGNED); (1%positive, FAILED)].
Proof.
  destruct (sample_moves sample_eviction_race sample_app_start) as [a|] eqn:E; [|by vm_compute in E].
  pose proof (sample_moves_steps _ _ _ E) as Hs. exists a. split; [done|].
  apply (f_equal (fmap (M := option)
    (λ a, (wa_main a, wa_stop a, mw_health (si_worker (wa_site a)), sample_statuses a)))) in E.
  vm_compute in E. by injection E as E1 E2 E3 E4.
Qed.
