(* ===== verification/WorkerFrame.v ===== *)
(** What the methods of a worker do to the request objects and to its queue: a rule for any invariant of
    the objects that their transitions keep, with any condition on what is queued. *)
From S2P Require Import Prelude PyContainers PyFloat Domain FairQueue Registry Effects Worker.
From Stdlib Require String.

#[local] Open Scope string_scope.
#[local] Open Scope list_scope.
#[local] Open Scope Z_scope.



(** The states a request has from its entry into the global queue on: it can fail, or has ended. *)
Definition endable (s : RequestState) : bool :=
  match s with RECEIVED | VALIDATED | ADMITTED => false | _ => true end.
(** Objects keep their identifiers and do not leave those states. *)
Definition evolves (h h' : heap) : Prop :=
  ∀ l, r_request_id (h' !!! l) = r_request_id (h !!! l) ∧
    (endable (r_status (h !!! l)) = true → endable (r_status (h' !!! l)) = true).

Lemma evolves_refl h : evolves h h.
Proof. by intros l. Qed.
Lemma evolves_trans h h' h'' : evolves h h' → evolves h' h'' → evolves h h''.
Proof. intros H1 H2 l. destruct (H1 l), (H2 l). split; [congruence|auto]. Qed.
Lemma endable_target s target :
  endable s = true → target ∈ ALLOWED_REQUEST_TRANSITIONS s → endable target = true.
Proof. destruct s; simpl; try done; intros _ Ht; destruct target; try done; set_solver. Qed.
Lemma endable_ends s target : endable s = true → terminal_state s = false → target = FAILED ∨ target = TIMED_OUT →
  target ∈ ALLOWED_REQUEST_TRANSITIONS s.
Proof. intros He Ht [-> | ->]; destruct s; try done; simpl; set_solver. Qed.
Lemma evolves_transition h l target at_ r :
  transition target at_ (h !!! l) = Ok r → evolves h (<[l := r]> h).
Proof.
  intros Ht l'. rewrite lookup_total_insert. destruct (decide (l = l')) as [<-|]; [|done].
  split; [by apply transition_keeps in Ht as []|]. apply transition_Ok in Ht as [Ht ->]. intros He.
  by eapply endable_target.
Qed.

(** A condition on the objects of a list. *)
#[local] Abbreviation all P q := (∀ l, l ∈ q → P l).

Section frame.
Context {S : Type} `{ModelRuntime S}.
#[local] Abbreviation World := (Site S).
#[local] Abbreviation M := (Eff World WorkerExc).
#[local] Abbreviation hoare := (Effects.hoare (W := World) (X := WorkerExc)).
Variable clock : nat → float.
Variable perf : nat → float.
Variable hostname : string.
(** The invariant of the objects, the condition on the queue, and what the clock shows. *)
Variable I : heap → Prop.
Variable P : loc → Prop.
Variable fine : float → Prop.
Hypothesis fine_clock : ∀ n, fine (clock n).
Hypothesis I_transition : ∀ h l target at_ r,
  fine at_ → transition target at_ (h !!! l) = Ok r → I h → I (<[l := r]> h).

Definition holds (w : World) : Prop := I (si_heap w) ∧ all P (mw_queue (si_worker w)).
Definition raised (e : WorkerExc) (w : World) : Prop := e ≠ EBlocked ∧ holds w.
(** The computation does not wait, and keeps both. *)
Definition moves {A} (c : M A) : Prop := hoare holds c (λ _, holds) raised.

Lemma moves_bind {A C} (m : M A) (k : A → M C) : moves m → (∀ a, moves (k a)) → moves (m ≫= k).
Proof. intros Hm Hk. by eapply hoare_bind. Qed.
Lemma moves_ret {A} (a : A) : moves (mret (M := M) a).
Proof. by apply hoare_ret. Qed.
Lemma moves_raise {A} e : moves (raise (A := A) (EPy e)).
Proof. by apply hoare_raise. Qed.
Lemma moves_gets {A} (f : World → A) : moves (gets f).
Proof. intros w Hw. exact Hw. Qed.
Lemma moves_worker {A} (k : ManagedWorker → M A) :
  (∀ w, all P (mw_queue w) → moves (k w)) → moves (get_worker ≫= k).
Proof. intros Hk w Hw. exact (Hk (si_worker w) (proj2 Hw) w Hw). Qed.
Lemma moves_world {A} (k : World → M A) : (∀ w, holds w → moves (k w)) → moves (gets id ≫= k).
Proof. intros Hk w Hw. exact (Hk w Hw w Hw). Qed.
Lemma moves_lift_res {A} (r : res A) : moves (lift_res r).
Proof. intros w Hw. by destruct r. Qed.
Lemma moves_modify f :
  (∀ w, si_heap (f w) = si_heap w ∧ mw_queue (si_worker (f w)) = mw_queue (si_worker w)) → moves (modify f).
Proof. intros Hf w [Hh Hq]. cbn. unfold holds. by destruct (Hf w) as [-> ->]. Qed.
Lemma moves_update f : (∀ x, mw_queue (f x) = mw_queue x) → moves (update f).
Proof. intros Hf. apply moves_modify. intros w. split; [done|]. apply Hf. Qed.
Lemma moves_requeue f :
  (∀ x, all P (mw_queue x) → all P (mw_queue (f x))) → moves (update f).
Proof. intros Hf w [Hh Hq]. split; [exact Hh|]. by apply Hf. Qed.
Lemma moves_set_queue q : all P q → moves (set_queue q).
Proof. intros Hq. by apply moves_requeue. Qed.
Lemma moves_clock {A} (k : float → M A) :
  (∀ a, fine a → moves (k a)) → moves (monotonic clock ≫= k).
Proof. intros Hk w Hw. apply Hk; [apply fine_clock|exact Hw]. Qed.
Lemma moves_monotonic : moves (monotonic clock).
Proof. intros w Hw. exact Hw. Qed.
Lemma moves_perf_counter : moves (perf_counter perf).
Proof. intros w Hw. exact Hw. Qed.
Lemma moves_runtime_call {A} (c : Eff S PyErr A) : moves (runtime_call c).
Proof. intros w Hw. unfold runtime_call. by destruct (c (si_runtime w)) as [[]]. Qed.
Lemma moves_for_each {Y} (f : Y → M unit) xs : (∀ x, moves (f x)) → moves (for_each f xs).
Proof. intros Hf. apply hoare_for_each. intros x _. apply Hf. Qed.
Lemma moves_transition l target at_ : fine at_ → moves (transition_at l target at_).
Proof.
  intros Hf w [Hw Hq]. unfold transition_at, Worker.get_request.
  rewrite (bind_eq _ _ w (si_heap w !!! l) w) by done.
  destruct (transition target at_ (si_heap w !!! l)) as [r|e] eqn:E; [|done].
  split; [|exact Hq]. by eapply I_transition.
Qed.
Lemma moves_transition_now l target : moves (transition_now clock l target).
Proof. apply moves_clock. intros a. apply moves_transition. Qed.
Lemma moves_finally {A} (c : M A) last : moves c → moves last → moves (try_finally c last).
Proof.
  intros Hc Hl. apply (hoare_finally _ _ _ (λ _, holds) _ _ raised); [exact Hc|done|].
  intros e w [He Hw]. specialize (Hl w Hw). by destruct (last w) as [[]].
Qed.
Lemma moves_except {A} (c : M A) handler :
  moves c → (∀ e, e ≠ EBlocked → moves (handler e)) → moves (try_except c handler).
Proof. intros Hc Hh. apply (hoare_except _ _ _ _ _ raised); [exact Hc|]. intros e w [He Hw]. by apply Hh. Qed.
Lemma moves_raise_again {A} e : e ≠ EBlocked → moves (raise (A := A) e).
Proof. intros He. by apply hoare_raise. Qed.

Create HintDb frame discriminated.
#[local] Hint Resolve moves_ret moves_raise moves_gets moves_lift_res moves_monotonic moves_set_queue
  moves_perf_counter moves_runtime_call moves_transition moves_transition_now moves_raise_again : frame.
#[local] Hint Extern 1 (moves (update _)) => apply moves_update; done : frame.
(** Walks through a computation. *)
Ltac moving :=
  repeat first
    [ progress intros | solve [auto with frame]
    | apply moves_clock | apply moves_worker | apply moves_world
    | apply moves_bind | apply moves_for_each | apply moves_finally | apply moves_except
    | by apply moves_modify
    | progress cbv zeta
    | match goal with
      | |- Effects.hoare holds ?c (λ _, holds) raised => change (moves c)
      | |- moves (if ?b then _ else _) => destruct b
      | |- moves (match ?x with _ => _ end) => destruct x
      end ].

Lemma moves_snapshot : moves (snapshot clock hostname).
Proof. unfold snapshot. moving. Qed.
#[local] Hint Resolve moves_snapshot : frame.
Lemma moves_register : moves (register clock hostname).
Proof. unfold register. moving. Qed.
Lemma moves_heartbeat : moves (heartbeat clock hostname).
Proof. unfold heartbeat. moving. Qed.
Lemma moves_enqueue l : P l → moves (enqueue_request clock l).
Proof.
  intros Hl. unfold enqueue_request, Worker.get_request. moving.
  apply moves_requeue. cbn. intros x Hx l' [Hl'|Hl']%elem_of_app; [by apply Hx|].
  by apply list_elem_of_singleton in Hl' as ->.
Qed.
Lemma moves_touch_now m : moves (touch_now clock m).
Proof. unfold touch_now, touch. moving. Qed.
#[local] Hint Resolve moves_touch_now : frame.
Lemma moves_load_finish model evictions k : moves (load_finish clock perf model evictions k).
Proof. unfold load_finish, load_run, load_commit, load_abort, load_end. moving. Qed.
(** A load that finds no load in progress does not wait. *)
Lemma load_model_moves model :
  hoare (λ w, mw_loading_models (si_worker w) = ∅ ∧ holds w) (load_model clock perf model)
    (λ _, holds) raised.
Proof.
  intros w [Hl Hw]. unfold load_model.
  assert (moves (load_claim model)) as Hclaim.
  { unfold load_claim. moving. }
  assert (∀ plan, hoare holds (match plan with
    | LoadHit | LoadWait _ => mret tt
    | LoadStart evictions k => load_finish clock perf model evictions k end) (λ _, holds) raised) as Hplan.
  { intros [| |]; [apply moves_ret..|apply moves_load_finish]. }
  assert (hoare holds (load_hit clock (m_model_id model)) (λ p w, p = LoadHit ∧ holds w) raised) as Hhit.
  { intros w' Hw'. by split. }
  assert (match load_begin clock model w with
    | (inr plan, w') => (∀ k, plan ≠ LoadWait k) ∧ holds w' | (inl e, w') => raised e w' end) as Hb.
  { unfold load_begin, get_worker. rewrite (bind_eq _ _ w (si_worker w) w) by done.
    case_head; [by split|]. case_head.
    - specialize (Hhit w Hw). destruct (load_hit _ _ w) as [[e|p] w']; [exact Hhit|].
      by destruct Hhit as [-> ?].
    - rewrite Hl, bool_decide_eq_false_2 by apply not_elem_of_empty.
      assert (hoare holds (load_claim model) (λ p w, (∀ k, p ≠ LoadWait k) ∧ holds w) raised) as Hc.
      { unfold load_claim in *. eapply hoare_bind; [apply moves_runtime_call|]. intros c.
        eapply hoare_bind; [apply moves_gets|]. intros world. cbv zeta.
        apply (hoare_bind _ _ _ (λ _, holds)); [moving|]. intros evictions.
        eapply hoare_bind; [by apply moves_update|]. intros [].
        eapply hoare_bind; [apply moves_gets|]. intros x. by apply hoare_ret. }
      exact (Hc w Hw). }
  unfold mbind, M_bind. destruct (load_begin clock model w) as [[e|plan] w']; [exact Hb|].
  destruct Hb as [Hk Hw']. specialize (Hplan plan w' Hw'). destruct plan; [done| |exact Hplan]. by destruct (Hk waiting_for_attempt).
Qed.
(** Any load, which may find another in progress. *)
Lemma load_model_keeps model : hoare holds (load_model clock perf model) (λ _, holds) (λ _, holds).
Proof.
  assert (∀ A (c : M A), moves c → hoare holds c (λ _, holds) (λ _, holds)) as Hm.
  { intros A c Hc. eapply hoare_conseq; [exact Hc|done|done|by intros e w []]. }
  eapply hoare_bind; [apply Hm; unfold load_begin, load_hit, load_claim; moving|].
  intros [|k|evictions k]; [by apply hoare_ret|by apply hoare_raise|]. apply Hm, moves_load_finish.
Qed.
Lemma moves_unload_finish m : moves (unload_finish clock m).
Proof. unfold unload_finish. moving. Qed.
#[local] Hint Resolve moves_unload_finish : frame.
Lemma moves_unload m : moves (unload_model clock m).
Proof. unfold unload_model, unload_begin. moving. Qed.
Lemma moves_warmup m : moves (warmup_model m).
Proof. unfold warmup_model. moving. Qed.
Lemma moves_cancel i : moves (cancel_request clock i).
Proof.
  unfold cancel_request. moving. apply moves_requeue. cbn. intros x Hx l Hl. apply Hx. by eapply elem_of_queue_remove.
Qed.
Lemma moves_drain : moves drain.
Proof. unfold drain. moving. Qed.
Lemma moves_fail_queue q : all P q → moves (fail_queue clock q).
Proof.
  induction q as [|l q IH]; intros Hq; simpl; [apply moves_ret|].
  assert (all P q) as Hq' by (intros l' Hl'; apply Hq; by right). specialize (IH Hq'). moving.
Qed.
#[local] Hint Resolve moves_fail_queue : frame.
Lemma moves_shutdown : moves (shutdown clock).
Proof. unfold shutdown, shutdown_begin, shutdown_finish. moving. Qed.

(** *** [execute_batch] *)

Lemma moves_skip_dead t queue : fine t → all P queue → moves (skip_dead t queue).
Proof.
  intros Ht. induction queue as [|l queue IH]; intros Hq; simpl; [apply moves_ret|].
  assert (all P queue) as Hq' by (intros l' Hl'; apply Hq; by right). specialize (IH Hq').
  unfold Worker.get_request. moving.
Qed.
(** What is selected and deferred was queued. *)
Definition selects (s : Selection) : Prop := all P (sl_selected s) ∧ all P (sl_deferred s).
Lemma moves_select_more t first queue s : fine t → all P queue → selects s →
  hoare holds (select_more t first queue s) (λ s w, selects s ∧ holds w) raised.
Proof.
  intros Ht. revert s. induction queue as [|l queue IH]; intros s Hq Hs; simpl;
    (eapply hoare_bind; [apply moves_gets|]; intros x); [by apply hoare_ret|].
  assert (P l) as Hl by (apply Hq; left).
  assert (all P queue) as Hq' by (intros l' Hl'; apply Hq; by right).
  case_head; [by apply hoare_ret|].
  eapply hoare_bind; [by apply moves_set_queue|]. intros [].
  eapply hoare_bind; [apply moves_gets|]. intros r. case_head; [by apply IH|]. case_head.
  { eapply hoare_bind; [by apply moves_transition|]. intros []. by apply IH. }
  destruct Hs as [Hs Hd].
  case_head; apply IH; try done; split; try done; cbn; intros l' [Hl'|Hl']%elem_of_app;
    auto; by apply list_elem_of_singleton in Hl' as ->.
Qed.
Lemma moves_activate t l : fine t → moves (activate t l).
Proof. intros Ht. unfold activate, Worker.get_request. moving. Qed.
#[local] Hint Resolve moves_skip_dead moves_activate : frame.
Lemma execute_begin_moves :
  hoare holds (execute_begin clock) (λ s w, (∀ l, s = Some l → all P l) ∧ holds w) raised.
Proof.
  unfold execute_begin. intros w0 Hw0. refine (_ w0 Hw0). eapply (hoare_bind _ _ _ (λ t w, fine t ∧ holds w)).
  { intros w Hw. split; [apply fine_clock|exact Hw]. }
  intros t. apply hoare_pre. intros Ht. eapply (hoare_bind _ _ _ (λ x w, all P (mw_queue x) ∧ holds w)).
  { intros w Hw. split; [apply Hw|exact Hw]. }
  intros x. apply hoare_pre. intros Hx. eapply hoare_bind; [by apply moves_skip_dead|]. intros [].
  eapply (hoare_bind _ _ _ (λ x w, all P (mw_queue x) ∧ holds w)).
  { intros w Hw. split; [apply Hw|exact Hw]. }
  intros y. apply hoare_pre. intros Hy. destruct (mw_queue y) as [|l queue] eqn:Eq; [by apply hoare_ret|].
  assert (P l) as Hl by (apply Hy; left).
  assert (all P queue) as Hq' by (intros l' Hl'; apply Hy; by right).
  eapply hoare_bind; [by apply moves_set_queue|]. intros [].
  eapply hoare_bind; [apply moves_gets|]. intros first.
  eapply hoare_bind.
  { apply moves_select_more; [done..|]. split; cbn; [|by intros l' ?%not_elem_of_nil].
    by intros l' ->%list_elem_of_singleton. }
  intros s. apply hoare_pre. intros [Hs Hd]. eapply hoare_bind.
  { apply (moves_requeue (λ x, x <| mw_queue ::= λ q, sl_deferred s ++ q |>)).
    cbn. intros z Hz l' [?|?]%elem_of_app; auto. }
  intros []. eapply hoare_bind; [apply moves_for_each; intros l'; by apply moves_activate|]. intros [].
  eapply hoare_bind; [apply moves_gets|]. intros f.
  eapply hoare_bind; [by apply moves_update|]. intros [].
  eapply hoare_bind; [by apply moves_update|]. intros []. apply hoare_ret. intros w Hw. split; [|exact Hw].
  by intros ? [= <-].
Qed.
Lemma moves_execute_run s : moves (execute_run s).
Proof. unfold execute_run. moving. Qed.
#[local] Hint Resolve moves_execute_run : frame.
Lemma completed_in h s results x : x ∈ completed_results h s results →
  ∃ l, l ∈ s ∧ we_request_id x = r_request_id (h !!! l) ∧ r_status (h !!! l) = COMPLETED.
Proof.
  unfold completed_results. intros ([l r] & -> & [Hs Hz]%list_elem_of_filter)%list_elem_of_fmap.
  exists l. apply elem_of_zip_l in Hz. done.
Qed.
(** Every returned result is that of a completed request that was queued. *)
Lemma execute_batch_moves :
  hoare holds (execute_batch clock perf) (λ xs w, holds w ∧ ∀ x, x ∈ xs →
    ∃ l, P l ∧ we_request_id x = r_request_id (si_heap w !!! l) ∧ r_status (si_heap w !!! l) = COMPLETED) raised.
Proof.
  eapply hoare_bind; [apply execute_begin_moves|]. intros [s|]; apply hoare_pre; intros Hs.
  2:{ apply hoare_ret. intros w Hw. split; [exact Hw|]. intros x Hx. by apply not_elem_of_nil in Hx. }
  eapply hoare_bind; [apply moves_perf_counter|]. intros started. apply (hoare_bind _ _ _ (λ _, holds)).
  { unfold fail_selected, execute_end, deactivate, Worker.get_request. moving. }
  intros results. apply (hoare_bind _ _ _ (λ _, holds)); [unfold elapsed_since; moving|].
  intros elapsed. apply (hoare_bind _ _ _ (λ _, holds)).
  { unfold complete_selected, Worker.get_request. moving. }
  intros []. intros w Hw. split; [exact Hw|]. intros x (l & Hl & Hx)%completed_in.
  exists l. split; [by apply (Hs s)|exact Hx].
Qed.
End frame.

(** ** Any worker, any queue: the objects evolve *)

Section evolving.
Context {S : Type} `{ModelRuntime S}.
Variable clock : nat → float.
Variable perf : nat → float.
Variable hostname : string.
Variable h0 : heap.

Definition from (w : Site S) : Prop := evolves h0 (si_heap w).
Definition evolving {A} (c : Eff (Site S) WorkerExc A) : Prop :=
  hoare from c (λ _, from) (λ e w, e ≠ EBlocked ∧ from w).
Lemma evolves_step (h : heap) l target at_ r :
  True → transition target at_ (h !!! l) = Ok r → evolves h0 h → evolves h0 (<[l := r]> h).
Proof. intros _ Ht Hh. eapply evolves_trans; [exact Hh|]. by eapply evolves_transition. Qed.
Lemma evolving_of {A} (I : Site S → Prop) (c : Eff (Site S) WorkerExc A) (R : A → Site S → Prop) :
  hoare (λ w, I w ∧ holds (evolves h0) (λ _, True) w) c (λ a w, holds (evolves h0) (λ _, True) w ∧ R a w)
    (raised (evolves h0) (λ _, True)) →
  hoare (λ w, I w ∧ from w) c (λ a w, from w ∧ R a w) (λ e w, e ≠ EBlocked ∧ from w).
Proof.
  intros Hc w [HI Hw]. specialize (Hc w (conj HI (conj Hw (λ _ _, Logic.I)))).
  destruct (c w) as [[e|a] w']; [by destruct Hc as [? []]|by destruct Hc as [[] ?]].
Qed.
Lemma evolving_moves {A} (c : Eff (Site S) WorkerExc A) : moves (evolves h0) (λ _, True) c → evolving c.
Proof.
  intros Hc w Hw. specialize (Hc w (conj Hw (λ _ _, Logic.I))).
  destruct (c w) as [[e|a] w']; [by destruct Hc as [? []]|by destruct Hc].
Qed.
Lemma evolving_heartbeat : evolving (heartbeat clock hostname).
Proof. apply evolving_moves. by apply (moves_heartbeat clock perf hostname _ _ (λ _, True)). Qed.
Lemma evolving_enqueue l : evolving (enqueue_request clock l).
Proof. apply evolving_moves. by apply (moves_enqueue clock perf _ _ (λ _, True) (λ _, I) evolves_step). Qed.
Lemma evolving_load model :
  hoare (λ w, mw_loading_models (si_worker w) = ∅ ∧ from w) (load_model clock perf model)
    (λ _ w, from w ∧ True) (λ e w, e ≠ EBlocked ∧ from w).
Proof.
  apply evolving_of. eapply hoare_conseq;
    [by apply (load_model_moves clock perf (evolves h0) (λ _, True))|by intros w Hw| |by intros e w Hw]; intros a w Hw; by split.
Qed.
Lemma evolving_execute :
  hoare (λ w, True ∧ from w) (execute_batch clock perf) (λ xs w, from w ∧ ∀ x, x ∈ xs →
    ∃ l, we_request_id x = r_request_id (si_heap w !!! l) ∧ r_status (si_heap w !!! l) = COMPLETED)
    (λ e w, e ≠ EBlocked ∧ from w).
Proof.
  apply evolving_of. eapply hoare_conseq;
    [by apply (execute_batch_moves clock perf _ (λ _, True) (λ _, True) (λ _, I) evolves_step)|by intros w []| |done].
  intros xs w [Hw Hx]. split; [exact Hw|]. intros x (l & _ & Hl)%Hx. by exists l.
Qed.
End evolving.
