(* ===== verification/ControlPlane.v ===== *)
(** [apps/control_plane]: the global scheduler, dispatch to workers, cancellation, recovery of a lost
    worker ([service.py], [scheduler.py]), the supervisor that triggers it ([reliability.py]) and the
    in-process pipeline that joins admission, fair queue, scheduler and workers ([pipeline.py]). *)
From S2P Require Import Prelude PyContainers PyFloat Domain FairQueue Admission RequestStore Registry Routing Reservations Effects Worker.
From Stdlib Require String.

#[local] Open Scope string_scope.
#[local] Open Scope list_scope.
#[local] Open Scope Z_scope.

(** An exception, or a wait that nothing ends. *)
Inductive PlaneExc := PErr (e : PyErr) | PBlocked.
(** [except (MemoryError, OverflowError, RuntimeError)]: the class and its subclasses. *)
Definition is_handoff_error (e : PyErr) : bool :=
  match e with
  | MemoryError _ | OverflowError _ | RuntimeError _ | KVCacheCapacityError _
  | KVCacheOwnershipError _ | NoEligibleWorker _ | WorkerDispatchError _
  | PlatformAdmissionError _ _ | PlatformExecutionError _ => true
  | _ => false
  end.

(** The protocol [CoordinationLease]. *)
Class CoordinationLease (L : Type) := {
  cl_acquire : L → bool * L;
  cl_renew : L → bool * L;
  cl_release : L → bool * L;
  cl_is_owner : L → bool
}.

Section plane_state.
Context {S P L : Type}.
(** The objects of the process, [pl_readings] clock readings after its start. A worker handle is the
    state of its runtime and of the worker; [pl_directory] is [WorkerDirectory._workers]. *)
Record Plane := mkPlane {
  pl_heap : heap;
  pl_registry : WorkerRegistry;
  pl_policy : P;
  pl_reservations : option AtomicPlacementReservations;
  pl_directory : gmap string (S * ManagedWorker);
  pl_models : option ModelRegistry;
  pl_requests : option InMemoryRequestStateStore;
  pl_global_queue : option FairQueue;
  pl_admission : TenantAdmissionController;
  pl_lease : option L;
  pl_failure : option PlaneExc;
  pl_readings : nat
}.
#[export] Instance eta_Plane : Eta Plane := λ w,
  mkPlane (pl_heap w) (pl_registry w) (pl_policy w) (pl_reservations w) (pl_directory w)
    (pl_models w) (pl_requests w) (pl_global_queue w) (pl_admission w) (pl_lease w) (pl_failure w)
    (pl_readings w).
End plane_state.
Arguments Plane S P L : clear implicits.

Section plane.
Context {S P L : Type} `{ModelRuntime S} `{RoutingPolicy P} `{CoordinationLease L}.
#[local] Abbreviation World := (Plane S P L).
#[local] Abbreviation M := (Eff World PlaneExc).
(** [time.monotonic]; the clocks that the policy and the fair queue read during one of their calls. *)
Variable clock : nat → float.
Variable perf : nat → float.
Variable policy_clock : nat → nat → float.
Variable queue_clock : nat → nat → nat → float.
Variable hostname : string.

Definition lift_res {A} (r : res A) : M A := λ w,
  match r with Ok a => (inr a, w) | Err e => (inl (PErr e), w) end.
(** [try: ... finally: last] and [except]; a call that blocks reaches neither. *)
Definition finally_do {A} (body : M A) (last : M unit) : M A := λ w,
  match body w with
  | (inl PBlocked, w) => (inl PBlocked, w)
  | (r, w) => match last w with (inr _, w) => (r, w) | (inl e, w) => (inl e, w) end
  end.
Definition catch {A} (body : M A) (handler : PyErr → M A) : M A := λ w,
  match body w with
  | (inl (PErr e), w) => handler e w
  | r => r
  end.
Definition tick : M nat := λ w, (inr (pl_readings w), w <| pl_readings ::= Datatypes.S |>).
Definition now : M float := n ← tick; mret (clock n).
Definition get_request (l : loc) : M RequestRecord := gets (λ w, pl_heap w !!! l).
Definition set_request (l : loc) (r : RequestRecord) : M unit :=
  modify (λ w, w <| pl_heap ::= <[l := r]> |>).
Definition transition_at (l : loc) (target : RequestState) (at_ : float) : M unit :=
  r ← get_request l; r ← lift_res (transition target at_ r); set_request l r.
Definition transition_now (l : loc) (target : RequestState) : M unit :=
  t ← now; transition_at l target t.
(** A new object. *)
Definition new_request (r : RequestRecord) : M loc := λ w,
  let l := fresh (dom (pl_heap w)) in (inr l, w <| pl_heap ::= <[l := r]> |>).

(** ** [WorkerDirectory] *)

Definition directory_add (s : S) (x : ManagedWorker) : M unit :=
  modify (λ w, w <| pl_directory ::= <[mw_worker_id x := (s, x)]> |>).
Definition directory_remove (worker_id : string) : M unit :=
  modify (λ w, w <| pl_directory ::= delete worker_id |>).
Definition directory_get (worker_id : string) : M (option (S * ManagedWorker)) :=
  gets (λ w, pl_directory w !! worker_id).
(** A method of the worker with that identifier, in the objects it shares with the process. *)
Definition on_worker {A} (worker_id : string) (c : Eff (Site S) WorkerExc A) : M A := λ w,
  match pl_directory w !! worker_id with
  | None => (inl (PErr (KeyError worker_id)), w)
  | Some (s, x) =>
    let '(r, site) := c (mkSite (pl_heap w) (pl_registry w) s x (pl_readings w)) in
    (match r with inr a => inr a | inl (EPy e) => inl (PErr e) | inl EBlocked => inl PBlocked end,
     w <| pl_heap := si_heap site |> <| pl_registry := si_registry site |>
       <| pl_readings := si_readings site |>
       <| pl_directory ::= <[worker_id := (si_runtime site, si_worker site)]> |>)
  end.

(** ** [GlobalScheduler] *)

(** The store; the caller's message when there is none. *)
Definition request_store (missing : string) : M InMemoryRequestStateStore :=
  s ← gets pl_requests;
  match s with
  | None => raise (PErr (RuntimeError missing))
  | Some s => mret s
  end.
Definition save_record (r : RequestRecord) : M unit :=
  s ← request_store ""; s ← lift_res (store_save r s); modify (λ w, w <| pl_requests := Some s |>).
Definition save (l : loc) : M unit := r ← get_request l; save_record r.
(** [if self.requests is not None: self.requests.save(request)]. *)
Definition save_if_kept (l : loc) : M unit :=
  s ← gets pl_requests; match s with None => mret tt | Some _ => save l end.

Definition pending_demand (book : option AtomicPlacementReservations) (model_id : string) : Z :=
  match book with None => 0 | Some b => demand b model_id end.
(** The selection, with or without reservations. *)
Definition select_worker (r : RequestRecord) : M RoutingDecision := λ w,
  let env := mkEnv (default ∅ (pl_models w)) (pending_demand (pl_reservations w))
               (policy_clock (pl_readings w)) in
  let w := w <| pl_readings ::= Datatypes.S |> in
  let out d := match d with Ok d => inr d | Err e => inl (PErr e) end in
  match pl_reservations w with
  | Some book =>
    let '(d, p, book) := select_and_reserve env r (pl_registry w) (pl_policy w) book in
    (out d, w <| pl_policy := p |> <| pl_reservations := Some book |>)
  | None =>
    let '(d, p) := select env r (worker_list (pl_registry w)) (pl_policy w) in
    (out d, w <| pl_policy := p |>)
  end.
Definition assign (l : loc) : M (Assignment (RoutingDecision * Z)) :=
  r ← get_request l;
  if negb (bool_decide (r_status r = ADMITTED ∨ r_status r = QUEUED)) then
    raise (PErr (ValueError "only admitted or globally queued requests can be assigned"))
  else
    t ← now;
    if f_leb (r_deadline r) t then
      _ ← transition_at l TIMED_OUT t;
      raise (PErr (RequestDeadlineExceeded "request deadline expired before assignment"))
    else
      decision ← select_worker r;
      _ ← set_request l (r <| r_assigned_worker_id := Some (rd_selected_worker_id decision) |>
                           <| r_attempt_count ::= λ n, n + 1 |>);
      _ ← transition_at l ASSIGNED t;
      mret (mkAssignment (r_request_id r) (rd_selected_worker_id decision) (rd_policy decision)
              (decision, estimated_tokens r) t).
Definition release_assignment (request_id : string) : M bool := λ w,
  match pl_reservations w with
  | None => (inr false, w)
  | Some book =>
    let '(b, book) := reservation_release request_id book in
    (inr b, w <| pl_reservations := Some book |>)
  end.

(** ** [ControlPlane] *)

(** The body of [dispatch]'s [try] statement. *)
Definition hand_over (l : loc) (worker_id : string) : M unit :=
  worker ← directory_get worker_id;
  match worker with
  | None => raise (PErr (WorkerDispatchError "selected worker is no longer reachable"))
  | Some _ =>
    registry ← gets pl_registry;
    match worker_get worker_id registry with
    | None => raise (PErr (WorkerDispatchError "selected worker is no longer registered"))
    | Some snapshot =>
      r ← get_request l;
      _ ←
        (if bool_decide (r_model_id r ∈ w_resident_models snapshot) then mret tt
         else
           models ← gets pl_models;
           match models with
           | None => raise (PErr (WorkerDispatchError "selected worker does not host the model"))
           | Some models =>
             match model_get (r_model_id r) models with
             | None => raise (PErr (WorkerDispatchError "request model is not registered"))
             | Some model =>
               _ ← on_worker worker_id (load_model clock perf model);
               _ ← on_worker worker_id (heartbeat clock hostname);
               mret tt
             end
           end);
      t ← now;
      _ ←
        (if f_leb (r_deadline r) t then
           _ ← transition_now l TIMED_OUT;
           raise (PErr (WorkerDispatchError "request deadline expired during model loading"))
         else mret tt);
      _ ← on_worker worker_id (enqueue_request clock l);
      save_if_kept l
    end
  end.
Definition handoff_failed (l : loc) (e : PyErr) : M unit :=
  if is_handoff_error e then
    r ← get_request l;
    _ ← (if r_terminal r then mret tt
         else
           _ ← set_request l (r <| r_assigned_worker_id := None |>);
           transition_now l QUEUED);
    raise (PErr (match e with
      | WorkerDispatchError _ => e
      | _ => WorkerDispatchError "selected worker rejected the handoff"
      end))
  else raise (PErr e).
Definition dispatch (l : loc) : M (Assignment (RoutingDecision * Z)) :=
  assignment ← assign l;
  _ ← save_if_kept l;
  r ← get_request l;
  _ ← finally_do (catch (hand_over l (as_worker_id assignment)) (handoff_failed l))
        (_ ← release_assignment (r_request_id r); mret tt);
  mret assignment.

Definition queue_cancel (request_id : string) : M bool := λ w,
  match pl_global_queue w with
  | None => (inr false, w)
  | Some q =>
    let t := clock (pl_readings w) in
    let w := w <| pl_readings ::= Datatypes.S |> in
    let '(r, h, q) := FairQueue.cancel request_id t (pl_heap w) q in
    (match r with Ok b => inr b | Err e => inl (PErr e) end,
     w <| pl_heap := h |> <| pl_global_queue := Some q |>)
  end.
(** [request] is the store's copy. *)
Definition cancel (request_id : string) : M bool :=
  store ← request_store "request state store is required for global cancellation";
  match store_get request_id store with
  | None => mret false
  | Some r =>
    if r_terminal r then mret false
    else
      cancelled ← queue_cancel request_id;
      cancelled ←
        (match cancelled, r_assigned_worker_id r with
         | false, Some worker_id =>
           if str_empty worker_id then mret false
           else
             worker ← directory_get worker_id;
             match worker with
             | None => mret false
             | Some _ => on_worker worker_id (cancel_request clock request_id)
             end
         | cancelled, _ => mret cancelled
         end);
      _ ← (if cancelled : bool then
             t ← now; r ← lift_res (transition CANCELLED t r); save_record r
           else mret tt);
      mret cancelled
  end.

(** *** Recovery *)

Record RecoveryCounts := mkCounts { rc_requeued : Z; rc_failed : Z; rc_untouched : Z }.
Inductive Recovery := Requeued | Failed | Untouched.
Definition tally (o : Recovery) (c : RecoveryCounts) : RecoveryCounts :=
  match o with
  | Requeued => mkCounts (rc_requeued c + 1) (rc_failed c) (rc_untouched c)
  | Failed => mkCounts (rc_requeued c) (rc_failed c + 1) (rc_untouched c)
  | Untouched => mkCounts (rc_requeued c) (rc_failed c) (rc_untouched c + 1)
  end.
(** [request.transition(target)] of the copy, then a reason. *)
Definition end_copy (target : RequestState) (reason : string) (r : RequestRecord) : M RequestRecord :=
  t ← now; r ← lift_res (transition target t r);
  mret (r <| r_retry_reasons ::= λ rs, rs ++ [reason] |>).
Definition execution_started (r : RequestRecord) : bool :=
  bool_decide (r_status r = RUNNING ∨ r_status r = STREAMING)
  || bool_decide (is_Some (r_transition_timestamps r !! RUNNING))
  || bool_decide (is_Some (r_transition_timestamps r !! STREAMING)).
Definition queue_enqueue (l : loc) : M unit := λ w,
  match pl_global_queue w with
  | None => (inr tt, w)
  | Some q =>
    let t := clock (pl_readings w) in
    let w := w <| pl_readings ::= Datatypes.S |> in
    match enqueue l t (pl_heap w) q with
    | Ok (h, q) => (inr tt, w <| pl_heap := h |> <| pl_global_queue := Some q |>)
    | Err e => (inl (PErr e), w)
    end
  end.
(** One turn of the loop; [r] is a copy that the store made. The copy becomes an object of the
    process when it is enqueued. *)
Definition recover_request (worker_id : string) (max_attempts : Z) (r : RequestRecord) : M Recovery :=
  if negb (bool_decide (r_assigned_worker_id r = Some worker_id)) || r_terminal r then mret Untouched
  else if execution_started r then
    r ← end_copy FAILED "worker_lost_after_execution_started" r; _ ← save_record r; mret Failed
  else if negb (r_payload_available r) then
    r ← end_copy FAILED "request_payload_unavailable_after_restart" r; _ ← save_record r; mret Failed
  else
    exhausted ← (if max_attempts <=? r_attempt_count r then mret true
                 else t ← now; mret (f_leb (r_deadline r) t));
    if exhausted : bool then
      t ← now;
      r ← (if f_leb (r_deadline r) t then end_copy TIMED_OUT "deadline_exhausted" r
           else end_copy FAILED "retry_budget_exhausted" r);
      _ ← save_record r; mret Failed
    else
      r ← (if bool_decide (r_status r = ASSIGNED)
           then t ← now; lift_res (transition QUEUED t r) else mret r);
      let r := r <| r_assigned_worker_id := None |>
                 <| r_retry_reasons ::= λ rs, rs ++ ["assigned_worker_heartbeat_expired"] |> in
      q ← gets pl_global_queue;
      match q with
      | None =>
        r ← end_copy FAILED "global_retry_queue_unavailable" r; _ ← save_record r; mret Failed
      | Some _ =>
        l ← new_request r; _ ← queue_enqueue l; _ ← save l; mret Requeued
      end.
Fixpoint recover_requests (worker_id : string) (max_attempts : Z) (rs : list RequestRecord)
  (c : RecoveryCounts) : M RecoveryCounts :=
  match rs with
  | [] => mret c
  | r :: rs =>
    o ← recover_request worker_id max_attempts r; recover_requests worker_id max_attempts rs (tally o c)
  end.
Definition recover_failed_worker (worker_id : string) (max_attempts : Z) : M RecoveryCounts :=
  if max_attempts <=? 0 then raise (PErr (ValueError "maximum attempts must be positive"))
  else
    store ← request_store "request state store is required for worker recovery";
    _ ← directory_remove worker_id;
    recover_requests worker_id max_attempts (store_list store) (mkCounts 0 0 0).

(** ** [ReliabilitySupervisor] *)

Definition on_lease (op : L → bool * L) : M bool := λ w,
  match pl_lease w with
  | None => (inr true, w)
  | Some k => let '(b, k) := op k in (inr b, w <| pl_lease := Some k |>)
  end.
Definition owns_lease (w : World) : bool :=
  match pl_lease w with None => true | Some k => cl_is_owner k end.
(** The constructor's test of its settings. *)
Definition ReliabilitySupervisor_init (check_interval_seconds : float) (max_request_attempts : Z) : res unit :=
  raise_if (f_leb check_interval_seconds f_zero || (max_request_attempts <=? 0))
    (ValueError "reliability supervisor settings must be positive").
(** The loop's body after the test of the stop event. *)
Definition supervise (max_request_attempts : Z) : M unit :=
  owner ← gets owns_lease;
  owns ← on_lease (if (owner : bool) then cl_renew else cl_acquire);
  if negb (owns : bool) then mret tt
  else
    t ← now;
    registry ← gets pl_registry;
    let '(expired, registry) := expire_stale t registry in
    _ ← modify (λ w, w <| pl_registry := registry |>);
    for_each (λ worker_id,
      _ ← recover_failed_worker worker_id max_request_attempts; mret tt) expired.
(** Each element of [stops] says whether the stop event is set after one wait. *)
Fixpoint supervisor_loop (max_request_attempts : Z) (stops : list bool) : M unit :=
  match stops with
  | [] => raise PBlocked
  | true :: _ => mret tt
  | false :: stops => _ ← supervise max_request_attempts; supervisor_loop max_request_attempts stops
  end.
Definition supervisor_run (max_request_attempts : Z) (stops : list bool) : M unit :=
  finally_do
    (catch (supervisor_loop max_request_attempts stops)
       (λ e, _ ← modify (λ w, w <| pl_failure := Some (PErr e) |>); raise (PErr e)))
    (k ← gets pl_lease;
     match k with
     | Some k => if cl_is_owner k then _ ← on_lease cl_release; mret tt else mret tt
     | None => mret tt
     end).

(** ** [LocalControlPlanePipeline] *)

Record PlatformGenerationResult := mkGeneration {
  pg_request : loc;
  pg_result : RuntimeResult;
  pg_scheduler_policy : string;
  pg_batch_size : Z
}.
Definition on_admission (f : TenantAdmissionController → res TenantAdmissionController) : M unit :=
  c ← gets pl_admission; c ← lift_res (f c); modify (λ w, w <| pl_admission := c |>).
Definition is_queue_error (e : PyErr) : bool :=
  match e with NoEligibleWorker _ | RequestDeadlineExceeded _ => true | _ => false end.
(** [str(exc)]. *)
Definition exc_message (e : PyErr) : string :=
  match e with
  | NoEligibleWorker _ => "no eligible worker"
  | RequestDeadlineExceeded m => m
  | _ => ""
  end.
(** The body of the [try] statement of [_execute], its two [except] clauses, and the whole. *)
Definition execute_assigned (l : loc) : M PlatformGenerationResult :=
  r ← get_request l;
  assignment ← dispatch l;
  _ ← on_admission (mark_running (r_request_id r));
  worker ← directory_get (as_worker_id assignment);
  match worker with
  | None => raise (PErr (PlatformExecutionError "assigned worker became unavailable"))
  | Some _ =>
    batch ← on_worker (as_worker_id assignment) (execute_batch clock perf);
    match find (λ x, bool_decide (we_request_id x = r_request_id r)) batch with
    | None => raise (PErr (PlatformExecutionError "worker did not return the assigned request"))
    | Some execution =>
      _ ← save l;
      mret (mkGeneration l (we_result execution) (as_policy assignment) (Z.of_nat (length batch)))
    end
  end.
Definition execution_failed (l : loc) (e : PyErr) : M PlatformGenerationResult :=
  r ← get_request l;
  if is_queue_error e then
    _ ← (if r_terminal r then mret tt
         else
           t ← now;
           _ ← transition_now l (if f_leb (r_deadline r) t then TIMED_OUT else FAILED);
           save l);
    raise (PErr (PlatformExecutionError (exc_message e)))
  else
    _ ← (if r_terminal r then mret tt else _ ← transition_now l FAILED; save l);
    raise (PErr (match e with
      | PlatformExecutionError _ => e
      | _ => PlatformExecutionError "control-plane execution failed"
      end)).
Definition execute (l : loc) : M PlatformGenerationResult :=
  r ← get_request l;
  finally_do (catch (execute_assigned l) (execution_failed l))
    (on_admission (λ c, Ok (release (r_request_id r) c))).

Definition decide_admission (l : loc) (model : ModelDefinition) : M AdmissionDecision := λ w,
  let t := clock (pl_readings w) in
  let '(d, c) := admission_decide (pl_heap w !!! l) (Some model) (worker_list (pl_registry w)) t
                   (pl_admission w) in
  (inr d, w <| pl_readings ::= Datatypes.S |> <| pl_admission := c |>).
(** [while selected is None: selected = self.fair_queue.pop()], for at most [fuel] pops. *)
Definition pop_request (fuel : nat) : M loc := λ w,
  match pl_global_queue w with
  | None => (inl PBlocked, w)
  | Some q =>
    let '(r, q) := pop_until fuel (queue_clock (pl_readings w)) (pl_heap w) q in
    (match r with Ok (Some l) => inr l | Ok None => inl PBlocked | Err e => inl (PErr e) end,
     w <| pl_readings ::= Datatypes.S |> <| pl_global_queue := Some q |>)
  end.
(** [submit], once the record is created in the store. *)
Definition submit_created (fuel : nat) (model : ModelDefinition) (l : loc) (t : float)
  : M PlatformGenerationResult :=
  _ ← transition_at l VALIDATED t;
  _ ← save l;
  decision ← decide_admission l model;
  if negb (d_admitted decision) then
    _ ← transition_now l REJECTED;
    _ ← save l;
    raise (PErr (PlatformAdmissionError (d_code decision) (d_reason decision)))
  else
    _ ← transition_now l ADMITTED;
    _ ← queue_enqueue l;
    _ ← save l;
    selected ← pop_request fuel;
    r ← get_request l;
    s ← get_request selected;
    if negb (bool_decide (r_request_id s = r_request_id r)) then
      _ ← transition_now l FAILED;
      _ ← save l;
      _ ← on_admission (λ c, Ok (release (r_request_id r) c));
      raise (PErr (PlatformExecutionError "control-plane queue ownership was violated"))
    else execute selected.
(** [request_id] is the identifier made from [uuid4]. *)
Definition submit (fuel : nat) (model : ModelDefinition) (request_id tenant_id prompt : string)
  (prompt_tokens max_new_tokens : Z) (temperature : float) (priority : Z) (deadline_seconds : float)
  : M PlatformGenerationResult :=
  t ← now;
  r ← lift_res (RequestRecord_post_init
        (mkRequest request_id tenant_id (m_model_id model) prompt prompt_tokens max_new_tokens
           priority (f_add t deadline_seconds) false temperature t RECEIVED None 0 [] true ∅));
  l ← new_request r;
  store ← request_store "";
  store ← lift_res (store_create r store);
  _ ← modify (λ w, w <| pl_requests := Some store |>);
  submit_created fuel model l t.
End plane.

(** ** [build_local_simulated_pipeline] *)

Section build.
Context {S L : Type} `{ModelRuntime S}.
Variable clock : nat → float.
Variable hostname : string.
(** [SimulatedGpuRuntime([model], SimulatedGpuConfig(..., tokens_per_second, seed, ...))]. *)
Variable simulated_runtime : ModelDefinition → float → Z → S.

Definition local_model (effective_context_tokens max_batch_tokens : Z) : ModelDefinition :=
  mkModel "local-simulated-model" "deterministic-v1" SIMULATED (256 * 1024 ^ 2) ["float16"] "float16"
    effective_context_tokens max_batch_tokens false true (f_of_Z 5) (f_of_Z 300).
(** One round of the loop over the two throughputs. *)
Definition build_worker (model : ModelDefinition) (max_queue_size max_concurrent_requests max_batch_tokens : Z)
  (name : string) (throughput : float) (index : Z)
  (st : WorkerRegistry * gmap string (S * ManagedWorker) * nat)
  : res (WorkerRegistry * gmap string (S * ManagedWorker) * nat) :=
  let '(registry, directory, n) := st in
  x ← ManagedWorker_init name max_queue_size max_concurrent_requests 8 max_batch_tokens 0;
  match register clock hostname (mkSite ∅ registry (simulated_runtime model throughput index) x n) with
  | (inl (EPy e), _) => Err e
  | (inl EBlocked, _) => Err (RuntimeError "")
  | (inr _, site) =>
    Ok (si_registry site, <[mw_worker_id (si_worker site) := (si_runtime site, si_worker site)]> directory,
        si_readings site)
  end.
Definition tenant_limits (max_queue_size max_concurrent_requests effective_context_tokens : Z)
  (tenant_id : string) : res TenantLimits :=
  TenantLimits_post_init (mkTenant tenant_id max_concurrent_requests max_queue_size
    (effective_context_tokens * max_queue_size) 1).
Definition build_local_simulated_pipeline (requests : InMemoryRequestStateStore)
  (tenant_ids : gset string) (max_queue_size max_concurrent_requests max_context_tokens max_batch_tokens : Z)
  : res (ModelDefinition * Plane S DemandAwarePlacementPolicy L) :=
  let effective_context_tokens := Z.min max_context_tokens max_batch_tokens in
  model ← ModelDefinition_post_init (local_model effective_context_tokens max_batch_tokens);
  models ← InMemoryModelRegistry_init [model];
  registry ← InMemoryWorkerRegistry_init (f_of_Z 30) None;
  let worker := build_worker model max_queue_size max_concurrent_requests max_batch_tokens in
  st ← worker "local-sim-worker-1" (f_of_Z 10000) 1 (registry, ∅, 0%nat);
  st ← worker "local-sim-worker-2" (f_of_Z 8000) 2 st;
  let '(registry, directory, n) := st in
  tenants ← mapM (tenant_limits max_queue_size max_concurrent_requests effective_context_tokens)
              (sorted_by str_leb (elements tenant_ids));
  admission ← TenantAdmissionController_init tenants max_queue_size;
  fair_queue ← FairQueue_init tenants 128 (f_of_Z 1);
  policy ← DemandAwarePlacementPolicy_init 4 (f_of_Z 5) 0;
  Ok (model,
      mkPlane ∅ registry policy (Some (AtomicPlacementReservations_init (Some models))) directory
        (Some models) (Some requests) (Some fair_queue) admission None None n).
End build.
