(* ===== verification/ControlPlaneSafe.v ===== *)
(** The pipeline of the control plane from admission to completion, and the recovery of requests after
    the loss of a worker. *)
From S2P Require Import Prelude PyContainers PyFloat Domain FairQueue Admission RequestStore Registry Routing Reservations Effects Worker WorkerFrame ControlPlane.
From Stdlib Require String.

#[local] Open Scope string_scope.
#[local] Open Scope list_scope.
#[local] Open Scope Z_scope.
#[local] Set Default Proof Using "Type".
#[local] Set Proof Using Clear Unused.

Section safe.
Context {S P L : Type} `{ModelRuntime S} `{RoutingPolicy P} `{CoordinationLease L}.
#[local] Abbreviation World := (Plane S P L).
#[local] Abbreviation M := (Eff World PlaneExc).
#[local] Abbreviation hoare := (Effects.hoare (W := World) (X := PlaneExc)).
#[local] Abbreviation never := (Effects.never (W := World) (X := PlaneExc)).
Implicit Types (w : World).
Variable clock : nat → float.
Variable perf : nat → float.
Variable policy_clock : nat → nat → float.
Variable queue_clock : nat → nat → nat → float.
Variable hostname : string.

(** ** One request on its way *)

Section request.
(** The request, and what the admission controller and the reservation book hold for others. *)
Variable id : string.
Variable l : loc.
Variable admitted : gmap string Admission.Reservation.
Variable placed : option (list (string * PlacementReservation)).

Definition reservations_of w : option (list (string * PlacementReservation)) :=
  ar_reservations <$> pl_reservations w.
Record tracked w : Prop := {
  tr_object : ∀ l', r_request_id (pl_heap w !!! l') = id ↔ l' = l;
  tr_state : endable (r_status (pl_heap w !!! l)) = true;
  tr_store : ∃ store, pl_requests w = Some store ∧ is_Some (store !! id);
  tr_admission : delete id (ac_reserved (pl_admission w)) = admitted;
  tr_placed : od_del id <$> reservations_of w = placed
}.
(** No placement is reserved for it. *)
Definition unplaced w : Prop := reservations_of w = placed.
(** Its stored record is its state. *)
Definition stored w : Prop :=
  ∃ store, pl_requests w = Some store ∧ store !! id = Some (pl_heap w !!! l).
Definition failing (Q : World → Prop) (e : PlaneExc) w : Prop := e ≠ PBlocked ∧ Q w.

Lemma tracked_id w : tracked w → r_request_id (pl_heap w !!! l) = id.
Proof. intros []. by apply tr_object0. Qed.
Lemma save_record_eq w store r :
  pl_requests w = Some store → is_Some (store !! r_request_id r) →
  save_record r w = (inr tt, w <| pl_requests := Some (<[r_request_id r := r]> store) |>).
Proof.
  intros Hs [r' Hr]. unfold save_record, request_store.
  assert ((s ← gets pl_requests; match s with
    | None => raise (PErr (RuntimeError "")) | Some s => mret s end) w = (inr store, w)) as E.
  { rewrite (bind_eq _ _ w (Some store) w) by (unfold gets; by rewrite Hs). done. }
  rewrite (bind_eq _ _ w store w E). unfold store_save. by rewrite Hr.
Qed.
(** Saving it. *)
Lemma save_spec (Q : World → Prop) :
  (∀ w s, Q w → Q (w <| pl_requests := s |>)) →
  hoare (λ w, tracked w ∧ Q w) (save l) (λ _ w, tracked w ∧ stored w ∧ Q w) never.
Proof.
  intros HQ w [Hw Hq]. unfold save, get_request. rewrite (bind_eq _ _ w (pl_heap w !!! l) w) by done.
  pose proof (tracked_id w Hw) as Hid. destruct (tr_store _ Hw) as (store & Hs & Hin).
  rewrite (save_record_eq w store) by (rewrite ?Hid; done). rewrite Hid.
  split_and!; [|by exists (<[id := pl_heap w !!! l]> store); split; [|apply lookup_insert_eq]|by apply HQ].
  destruct Hw. split; try done. exists (<[id := pl_heap w !!! l]> store). split; [done|].
  rewrite lookup_insert_eq. by eexists.
Qed.
Lemma save_if_kept_spec (Q : World → Prop) :
  (∀ w s, Q w → Q (w <| pl_requests := s |>)) →
  hoare (λ w, tracked w ∧ Q w) (save_if_kept l) (λ _ w, tracked w ∧ stored w ∧ Q w) never.
Proof.
  intros HQ w [Hw Hq]. unfold save_if_kept. destruct (tr_store _ Hw) as (store & Hs & _).
  rewrite (bind_eq _ _ w (Some store) w) by (unfold gets; by rewrite Hs). by apply save_spec.
Qed.
(** A change of the objects. *)
Lemma tracked_heap w h : tracked w → evolves (pl_heap w) h → tracked (w <| pl_heap := h |>).
Proof.
  intros [] Hh. split; try done; cbn.
  - intros l'. destruct (Hh l') as [-> _]. apply tr_object0.
  - by apply Hh.
Qed.
Lemma transition_at_eq w l' target at_ r :
  transition target at_ (pl_heap w !!! l') = Ok r →
  ControlPlane.transition_at l' target at_ w = (inr tt, w <| pl_heap ::= <[l' := r]> |>).
Proof.
  intros E. unfold ControlPlane.transition_at, ControlPlane.get_request.
  rewrite (bind_eq _ _ w (pl_heap w !!! l') w) by done. by rewrite E.
Qed.
Lemma transition_now_eq w l' target r :
  transition target (clock (pl_readings w)) (pl_heap w !!! l') = Ok r →
  ControlPlane.transition_now clock l' target w
  = (inr tt, w <| pl_readings ::= Datatypes.S |> <| pl_heap ::= <[l' := r]> |>).
Proof. intros E. by apply (transition_at_eq (w <| pl_readings ::= Datatypes.S |>)). Qed.
(** It can always be ended. *)
Lemma end_spec target (Q : World → Prop) :
  target = FAILED ∨ target = TIMED_OUT →
  (∀ w h n, Q w → Q (w <| pl_readings := n |> <| pl_heap := h |>)) →
  hoare (λ w, (tracked w ∧ r_terminal (pl_heap w !!! l) = false) ∧ Q w)
    (ControlPlane.transition_now clock l target)
    (λ _ w, (tracked w ∧ r_terminal (pl_heap w !!! l) = true) ∧ Q w) never.
Proof.
  intros Ht HQ w [[Hw Hlive] Hq].
  destruct (transition_allowed target (clock (pl_readings w)) (pl_heap w !!! l)) as [r Hr].
  { apply endable_ends; [apply Hw|done|done]. }
  rewrite (transition_now_eq w l target r Hr). split; [|by apply (HQ w)]. split.
  - apply (tracked_heap (w <| pl_readings ::= Datatypes.S |>)); [|by eapply evolves_transition].
    destruct Hw. by split.
  - cbn. rewrite lookup_total_insert_eq. apply transition_Ok in Hr as [_ ->]. by destruct Ht as [-> | ->].
Qed.
(** A call of a worker; [Q] is about the reservation book. *)
Lemma on_worker_spec {A} worker_id (c : Eff (Site S) WorkerExc A) (I : Site S → Prop)
  (R : A → Site S → Prop) (Q : World → Prop) :
  (∀ h0, Effects.hoare (λ s, I s ∧ from h0 s) c (λ a s, from h0 s ∧ R a s) (λ e s, e ≠ EBlocked ∧ from h0 s)) →
  (∀ w w', pl_reservations w' = pl_reservations w → Q w → Q w') →
  hoare (λ w, (tracked w ∧ Q w) ∧ ∀ s x, pl_directory w !! worker_id = Some (s, x) →
           I (mkSite (pl_heap w) (pl_registry w) s x (pl_readings w)))
    (on_worker worker_id c)
    (λ a w, (tracked w ∧ Q w) ∧ ∃ site, si_heap site = pl_heap w ∧ R a site)
    (failing (λ w, tracked w ∧ Q w)).
Proof.
  intros Hc HQ w [[Hw Hq] HI]. unfold on_worker. destruct (pl_directory w !! worker_id) as [[s x]|]; [|by split].
  specialize (Hc (pl_heap w) _ (conj (HI s x eq_refl) (evolves_refl _))).
  assert (∀ site, evolves (pl_heap w) (si_heap site) → tracked (w <| pl_heap := si_heap site |>
    <| pl_registry := si_registry site |> <| pl_readings := si_readings site |>
    <| pl_directory ::= <[worker_id := (si_runtime site, si_worker site)]> |>)) as Ht.
  { intros site Hs. pose proof (tracked_heap w (si_heap site) Hw Hs) as []. by split. }
  destruct (c _) as [[[e|]|a] site]; destruct Hc as [H1 H2].
  - split; [done|]. split; [by apply Ht|by apply (HQ w)].
  - done.
  - split; [split; [by apply Ht|by apply (HQ w)]|]. by exists site.
Qed.
(** A call that needs and gives nothing more. *)
Lemma on_worker_moves {A} worker_id (c : Eff (Site S) WorkerExc A) (Q : World → Prop) :
  (∀ h0, evolving h0 c) → (∀ w w', pl_reservations w' = pl_reservations w → Q w → Q w') →
  hoare (λ w, tracked w ∧ Q w) (on_worker worker_id c) (λ _ w, tracked w ∧ Q w)
    (failing (λ w, tracked w ∧ Q w)).
Proof.
  intros Hc HQ. eapply hoare_conseq.
  - apply (on_worker_spec worker_id c (λ _, True) (λ _ _, True) Q); [|exact HQ].
    intros h0 s [_ Hs]. specialize (Hc h0 s Hs). by destruct (c s) as [[]].
  - by intros w Hw.
  - by intros a w [Hw _].
  - done.
Qed.

(** *** Assignment *)

Lemma od_del_set {V} (v : V) (d : list (string * V)) : od_get id d = None → od_del id (od_set id v d) = d.
Proof.
  intros Hd. rewrite (od_set_new d id v Hd). unfold od_del. rewrite filter_app.
  change (od_del id d ++ od_del id [(id, v)] = d). rewrite (od_del_id d id Hd).
  rewrite od_del_cons, decide_True by done. apply app_nil_r.
Qed.
Lemma od_get_del_self {V} (d : list (string * V)) : od_del id d = d → od_get id d = None.
Proof. intros Hd. rewrite <- Hd, od_get_del. by rewrite decide_True by done. Qed.
(** The selection fails and reserves nothing, or leaves at most a placement of this request. *)
Lemma select_worker_spec D r w :
  r_request_id r = id → tracked w ∧ unplaced w → pl_directory w = D →
  match select_worker policy_clock r w with
  | (inr d, w') => tracked w' ∧ pl_directory w' = D ∧ pl_heap w' = pl_heap w
  | (inl e, w') => failing (λ w, tracked w ∧ unplaced w) e w'
  end.
Proof.
  intros Hid [Hw Hu] HD. unfold select_worker. set (w1 := w <| pl_readings ::= Datatypes.S |>).
  change (pl_reservations w1) with (pl_reservations w). unfold unplaced, reservations_of in *.
  pose proof (tr_placed _ Hw) as Hp. unfold reservations_of in Hp.
  destruct (pl_reservations w) as [book|] eqn:Hb; cbn in Hu, Hp.
  - assert (od_del id (ar_reservations book) = ar_reservations book) as Hdel by congruence.
    apply od_get_del_self in Hdel as Hget.
    unfold select_and_reserve. rewrite Hid. unfold od_has. rewrite Hget.
    rewrite bool_decide_eq_false_2 by by intros [].
    assert (∀ p, tracked (w1 <| pl_policy := p |> <| pl_reservations := Some book |>)
      ∧ Some (ar_reservations book) = placed) as Hsame.
    { intros p. split; [|done]. destruct Hw. by split. }
    destruct (select _ _ _ _) as [[d|e] p]; [|split; [done|apply Hsame]].
    destruct (worker_get _ _); [|split; [done|apply Hsame]].
    split_and!; [|done..]. destruct Hw. split; try done. unfold reservations_of. cbn -[od_del od_set].
    by rewrite od_del_set.
  - assert (∀ p, tracked (w1 <| pl_policy := p |>)) as Hsame.
    { intros p. destruct Hw. by split. }
    destruct (select _ _ _ _) as [[d|e] p]; [split_and!; [apply Hsame|done..]|].
    split; [done|]. split; [apply Hsame|]. cbn. by rewrite Hb.
Qed.
Lemma tracked_readings w n : tracked w → tracked (w <| pl_readings := n |>).
Proof. intros []. by split. Qed.
(** An attempt to change its state. *)
Lemma try_transition_spec target at_ (Q : World → Prop) :
  (∀ w h, Q w → Q (w <| pl_heap := h |>)) →
  hoare (λ w, tracked w ∧ Q w) (ControlPlane.transition_at l target at_) (λ _ w, tracked w ∧ Q w)
    (failing (λ w, tracked w ∧ Q w)).
Proof.
  intros HQ w [Hw Hq]. destruct (transition target at_ (pl_heap w !!! l)) as [r|e] eqn:E.
  - rewrite (transition_at_eq w l target at_ r E). split; [|by apply HQ].
    apply tracked_heap; [done|]. by eapply evolves_transition.
  - unfold ControlPlane.transition_at, ControlPlane.get_request.
    rewrite (bind_eq _ _ w (pl_heap w !!! l) w) by done. by rewrite E.
Qed.
Lemma set_request_spec (f : RequestRecord → RequestRecord) (Q : World → Prop) :
  (∀ r, r_request_id (f r) = r_request_id r ∧ r_status (f r) = r_status r) →
  (∀ w h, Q w → Q (w <| pl_heap := h |>)) →
  hoare (λ w, tracked w ∧ Q w) (λ w, set_request l (f (pl_heap w !!! l)) w) (λ _ w, tracked w ∧ Q w) never.
Proof.
  intros Hf HQ w [Hw Hq]. split; [|by apply (HQ w)]. apply tracked_heap; [done|]. intros l'.
  rewrite lookup_total_insert. destruct (decide (l = l')) as [<-|]; [|done].
  destruct (Hf (pl_heap w !!! l)) as [-> ->]. done.
Qed.
Lemma assign_spec D :
  hoare (λ w, (tracked w ∧ unplaced w) ∧ pl_directory w = D) (assign clock policy_clock l)
    (λ a w, tracked w ∧ pl_directory w = D) (failing (λ w, tracked w ∧ unplaced w)).
Proof.
  intros w [[Hw Hu] HD]. unfold assign, ControlPlane.get_request.
  rewrite (bind_eq _ _ w (pl_heap w !!! l) w) by done. case_head; [done|].
  set (w1 := w <| pl_readings ::= Datatypes.S |>). set (t := clock (pl_readings w)).
  rewrite (bind_eq (now clock) _ w t w1) by done.
  pose proof (tracked_readings w (Datatypes.S (pl_readings w)) Hw : tracked w1) as H1. case_head.
  - pose proof (try_transition_spec TIMED_OUT t unplaced ltac:(done) w1 (conj H1 Hu)) as Ht.
    unfold mbind, M_bind. destruct (ControlPlane.transition_at _ _ _ _) as [[e|a] w2]; done.
  - pose proof (select_worker_spec D (pl_heap w !!! l) w1 (tracked_id w Hw) (conj H1 Hu) HD) as Hs.
    unfold mbind at 1, M_bind at 1.
    destruct (select_worker _ _ w1) as [[e|d] w2]; [done|]. destruct Hs as (H2 & HD2 & Hh).
    set (r' := _ <| r_attempt_count ::= _ |>).
    assert (tracked (w2 <| pl_heap ::= <[l := r']> |>) ∧ pl_directory w2 = D) as [H3 HD3].
    { pose proof (set_request_spec (λ r, r <| r_assigned_worker_id := Some (rd_selected_worker_id d) |>
        <| r_attempt_count ::= λ n, n + 1 |>) (λ w, pl_directory w = D) ltac:(done) ltac:(done) w2
        (conj H2 HD2)) as H3. cbv beta in H3. rewrite Hh in H3. exact H3. }
    set (w3 := w2 <| pl_heap ::= <[l := r']> |>). rewrite (bind_eq _ _ w2 tt w3) by done.
    pose proof (try_transition_spec ASSIGNED t (λ w, pl_directory w = D) ltac:(done) w3 (conj H3 HD3)) as Ht.
    assert (∃ r, transition ASSIGNED t (pl_heap w3 !!! l) = Ok r) as [r Hr].
    { apply transition_allowed. cbn. rewrite lookup_total_insert_eq. unfold r'. cbn.
      apply negb_false_iff, bool_decide_eq_true in Heqb. destruct Heqb as [-> | ->]; simpl; set_solver. }
    rewrite (transition_at_eq w3 l ASSIGNED t r Hr) in Ht.
    rewrite (bind_eq _ _ w3 tt _ (transition_at_eq w3 l ASSIGNED t r Hr)). exact Ht.
Qed.

(** *** Hand-over *)

(** No worker of the directory is loading a model. *)
Definition no_loads w : Prop :=
  ∀ i s x, pl_directory w !! i = Some (s, x) → mw_loading_models x = ∅.
Definition anything w : Prop := True.
Lemma now_spec (Q : World → Prop) : (∀ w n, Q w → Q (w <| pl_readings := n |>)) →
  hoare Q (now clock) (λ _, Q) never.
Proof. intros HQ w Hq. by apply (HQ w). Qed.
Lemma raise_spec {A} e (Q : World → Prop) (R : A → World → Prop) :
  hoare Q (raise (PErr e)) R (failing Q).
Proof. by apply hoare_raise. Qed.
Lemma hoare_split {A} (c : M A) (Q1 Q2 Q : World → Prop) R E :
  (∀ w, Q w → Q1 w ∧ Q2 w) → hoare (λ w, Q1 w ∧ Q2 w) c R E → hoare Q c R E.
Proof. intros Hq Hc. by eapply hoare_conseq. Qed.
Lemma transition_now_spec target (Q : World → Prop) :
  (∀ w n h, Q w → Q (w <| pl_readings := n |> <| pl_heap := h |>)) →
  hoare (λ w, tracked w ∧ Q w) (ControlPlane.transition_now clock l target) (λ _ w, tracked w ∧ Q w)
    (failing (λ w, tracked w ∧ Q w)).
Proof.
  intros HQ w [Hw Hq]. set (w1 := w <| pl_readings ::= Datatypes.S |>).
  assert (tracked w1) as H1 by by apply tracked_readings.
  pose proof (try_transition_spec target (clock (pl_readings w)) (λ w, tracked w)) as Ht.
  destruct (transition target (clock (pl_readings w)) (pl_heap w !!! l)) as [r|e] eqn:E.
  - rewrite (transition_now_eq w l target r E). split; [|by apply (HQ w)].
    apply (tracked_heap w1); [done|]. by eapply evolves_transition.
  - assert (ControlPlane.transition_now clock l target w = (inl (PErr e), w1)) as ->.
    { unfold ControlPlane.transition_now. rewrite (bind_eq _ _ w (clock (pl_readings w)) w1) by done.
      unfold ControlPlane.transition_at, ControlPlane.get_request.
      rewrite (bind_eq _ _ w1 (pl_heap w !!! l) w1) by done. by rewrite E. }
    split; [done|]. split; [done|]. by apply (HQ w (Datatypes.S (pl_readings w)) (pl_heap w)).
Qed.
Lemma load_step worker_id model :
  hoare (λ w, tracked w ∧ no_loads w)
    (_ ← on_worker worker_id (load_model clock perf model);
     _ ← on_worker worker_id (heartbeat clock hostname); mret tt)
    (λ _ w, tracked w) (failing tracked).
Proof.
  eapply hoare_bind.
  { eapply (hoare_conseq _ _ _ _ _ _ _
      (on_worker_spec worker_id _ (λ s, mw_loading_models (si_worker s) = ∅) (λ _ _, True) anything _ _)).
    - intros w [Hw Hn]. split; [by split|]. intros s x Hd. by apply (Hn worker_id s x).
    - intros a w [Hw _]. exact Hw.
    - by intros e w [He []]. }
  intros []. eapply hoare_bind.
  { eapply (hoare_conseq _ _ _ _ _ _ _ (on_worker_moves worker_id _ anything _ _));
      [intros w Hw; exact Hw|intros a w Hw; exact Hw|by intros e w [He []]]. }
  intros s. apply hoare_ret. by intros w [].
  Unshelve.
  - intros h0. apply evolving_load.
  - done.
  - intros h0. by apply evolving_heartbeat.
  - done.
Qed.
Lemma raise_dispatch {A} e (R : A → World → Prop) : hoare tracked (raise (PErr e)) R (failing tracked).
Proof. by apply hoare_raise. Qed.
Lemma tracked_step {A} (c : M A) :
  hoare (λ w, tracked w ∧ anything w) c (λ _ w, tracked w ∧ anything w)
    (failing (λ w, tracked w ∧ anything w)) →
  hoare tracked c (λ _, tracked) (failing tracked).
Proof.
  intros Hc. eapply hoare_conseq; [exact Hc|by intros w Hw|by intros a w []|by intros e w [He []]].
Qed.
Lemma hand_over_spec worker_id :
  hoare (λ w, tracked w ∧ no_loads w) (hand_over clock perf hostname l worker_id)
    (λ _ w, tracked w ∧ stored w) (failing tracked).
Proof.
  eapply hoare_bind; [apply hoare_gets|]. intros [worker|].
  2:{ apply hoare_raise. by intros w (_ & Hw & _). }
  eapply hoare_bind; [apply hoare_gets|]. intros registry.
  destruct (worker_get worker_id registry) as [snapshot|].
  2:{ apply hoare_raise. by intros w (_ & _ & Hw & _). }
  eapply hoare_bind; [apply hoare_gets|]. intros r.
  apply (hoare_bind _ _ _ (λ _, tracked)).
  { apply (hoare_split _ tracked no_loads); [by intros w (_ & _ & _ & Hw)|].
    destruct (bool_decide _); [by apply hoare_ret; intros w []|].
    eapply hoare_bind; [apply hoare_gets|]. intros [models|].
    2:{ apply hoare_raise. by intros w (_ & Hw & _). }
    destruct (model_get _ _) as [model|].
    2:{ apply hoare_raise. by intros w (_ & Hw & _). }
    apply (hoare_split _ tracked no_loads); [by intros w [_ Hw]|]. apply load_step. }
  intros []. apply (hoare_bind _ _ _ (λ _, tracked)).
  { apply hoare_never, now_spec. intros w n. apply tracked_readings. }
  intros t. apply (hoare_bind _ _ _ (λ _, tracked)).
  { case_head; [|by apply hoare_ret]. apply (hoare_bind _ _ _ (λ _, tracked)); [|intros _; apply raise_dispatch].
    apply tracked_step, transition_now_spec. done. }
  intros []. apply (hoare_bind _ _ _ (λ _, tracked)).
  { apply tracked_step, on_worker_moves; [|done]. intros h0. by apply evolving_enqueue. }
  intros []. eapply hoare_conseq;
    [apply hoare_never, (save_if_kept_spec anything); done|by intros w Hw|by intros a w (? & ? & _)|done].
Qed.
Lemma handoff_failed_spec e :
  hoare tracked (handoff_failed clock l e) (λ _, tracked) (failing tracked).
Proof.
  unfold handoff_failed. case_head; [|apply raise_dispatch].
  intros w Hw. unfold ControlPlane.get_request. rewrite (bind_eq _ _ w (pl_heap w !!! l) w) by done.
  revert w Hw. 
  assert (∀ r, hoare (λ w, tracked w ∧ r = pl_heap w !!! l)
    (_ ← (if r_terminal r then mret tt
          else _ ← set_request l (r <| r_assigned_worker_id := None |>);
               ControlPlane.transition_now clock l QUEUED);
     raise (A := unit) (PErr (match e with
       | WorkerDispatchError _ => e
       | _ => WorkerDispatchError "selected worker rejected the handoff" end)))
    (λ _, tracked) (failing tracked)) as Hr.
  { intros r. apply (hoare_bind _ _ _ (λ _, tracked)); [|intros _; apply raise_dispatch].
    case_head; [by apply hoare_ret; intros w []|]. apply (hoare_bind _ _ _ (λ _, tracked)).
    - intros w [Hw ->].
      exact (proj1 (set_request_spec (λ r, r <| r_assigned_worker_id := None |>) anything
               ltac:(done) ltac:(done) w (conj Hw I))).
    - intros _. apply tracked_step, transition_now_spec. done. }
  intros w Hw. by apply (Hr _ w).
Qed.
Lemma finally_spec {A} (body : M A) (last : M unit) (Q Q1 Q2 : World → Prop) (R R' : A → World → Prop) :
  hoare Q body R (failing Q1) → (∀ a, hoare (R a) last (λ _, R' a) never) →
  hoare Q1 last (λ _, Q2) never → hoare Q (finally_do body last) R' (failing Q2).
Proof.
  intros Hb Ha He w Hw. specialize (Hb w Hw). unfold finally_do.
  destruct (body w) as [[[e|]|a] w1]; [|by destruct Hb|].
  - destruct Hb as [_ H1]. specialize (He w1 H1). destruct (last w1) as [[] ?]; [done|by split].
  - specialize (Ha a w1 Hb). by destruct (last w1) as [[] ?].
Qed.
Lemma catch_spec {A} (body : M A) handler (Q Q1 Q2 : World → Prop) (R : A → World → Prop) :
  hoare Q body R (failing Q1) → (∀ e, hoare Q1 (handler e) R (failing Q2)) →
  hoare Q (catch body handler) R (failing Q2).
Proof.
  intros Hb He w Hw. specialize (Hb w Hw). unfold catch.
  destruct (body w) as [[[e|]|a] w1]; [|by destruct Hb|done].
  destruct Hb as [_ H1]. by apply He.
Qed.
(** Releasing the placement. *)
Lemma release_assignment_spec (Q : World → Prop) :
  (∀ w b, Q w → Q (w <| pl_reservations := b |>)) →
  hoare (λ w, tracked w ∧ Q w) (_ ← release_assignment id; mret tt)
    (λ _ w, tracked w ∧ unplaced w ∧ Q w) never.
Proof.
  intros HQ w [Hw Hq]. unfold release_assignment, mbind, M_bind.
  pose proof (tr_placed _ Hw) as Hp. unfold unplaced, reservations_of in *.
  destruct (pl_reservations w) as [book|] eqn:Hb; cbn in Hp.
  - split_and!; [|exact Hp|by apply HQ]. destruct Hw. split; try done.
    unfold reservations_of. cbn. unfold od_del. rewrite list_filter_filter_l by done. exact Hp.
  - cbn. rewrite Hb. by split_and!.
Qed.
Lemma dispatch_spec :
  hoare (λ w, (tracked w ∧ unplaced w) ∧ no_loads w) (dispatch clock perf policy_clock hostname l)
    (λ _ w, tracked w ∧ unplaced w) (failing (λ w, tracked w ∧ unplaced w)).
Proof.
  apply (hoare_bind _ _ _ (λ _ w, tracked w ∧ no_loads w)).
  { intros w [Hw Hn]. pose proof (assign_spec (pl_directory w) w (conj Hw eq_refl)) as Ha.
    destruct (assign _ _ _ w) as [[e|a] w1]; [done|]. destruct Ha as [H1 HD]. split; [done|].
    unfold no_loads. by rewrite HD. }
  intros assignment. apply (hoare_bind _ _ _ (λ _ w, tracked w ∧ no_loads w)).
  { eapply hoare_conseq; [apply hoare_never, (save_if_kept_spec no_loads); done|done|by intros a w (? & _ & ?)|done]. }
  intros _ w Hw. unfold ControlPlane.get_request.
  rewrite (bind_eq _ _ w (pl_heap w !!! l) w), (tracked_id w (proj1 Hw)) by done.
  revert w Hw.
  apply (hoare_bind _ _ _ (λ _ w, tracked w ∧ unplaced w)); [|intros a; by apply hoare_ret].
  apply (finally_spec _ _ _ tracked _ (λ _, tracked)).
  - apply (catch_spec _ _ _ tracked).
    + eapply hoare_post; [apply hand_over_spec|by intros a w []].
    + apply handoff_failed_spec.
  - intros a. eapply hoare_conseq; [apply (release_assignment_spec anything); done|done|by intros x w (? & ? & _)|done].
  - eapply hoare_conseq; [apply (release_assignment_spec anything); done|done|by intros x w (? & ? & _)|done].
Qed.

(** *** Execution *)

Lemma tracked_admission w c :
  delete id (ac_reserved c) = admitted → tracked w → tracked (w <| pl_admission := c |>).
Proof. intros Hc []. by split. Qed.
Lemma mark_running_spec :
  hoare (λ w, tracked w ∧ unplaced w) (on_admission (mark_running id)) (λ _ w, tracked w ∧ unplaced w)
    (failing (λ w, tracked w ∧ unplaced w)).
Proof.
  intros w [Hw Hu]. unfold on_admission. rewrite (bind_eq _ _ w (pl_admission w) w) by done.
  destruct (mark_running id (pl_admission w)) as [c|e] eqn:E; [|done].
  rewrite (bind_eq _ _ w c w) by done. split; [|exact Hu]. apply tracked_admission; [|done].
  pose proof (tr_admission _ Hw) as Ha. unfold mark_running in E.
  destruct (ac_reserved _ !! id) as [[tid tokens []]|]; [by injection E as <-| |done].
  destruct (ac_tenants _ !! tid); [|done]. case_hyp E; [done|]. injection E as <-. cbn.
  by rewrite delete_insert_eq.
Qed.
Lemma release_reserved c : ac_reserved (release id c) = delete id (ac_reserved c).
Proof.
  unfold release. destruct (ac_reserved c !! id) as [[tid tokens []]|] eqn:E; [done..|].
  by rewrite delete_id.
Qed.
(** Nothing is held for it any more. *)
Definition settled w : Prop :=
  tracked w ∧ unplaced w ∧ ac_reserved (pl_admission w) = admitted.
Lemma admission_release_spec (Q : World → Prop) : (∀ w c, Q w → Q (w <| pl_admission := c |>)) →
  hoare (λ w, (tracked w ∧ unplaced w) ∧ Q w) (on_admission (λ c, Ok (release id c)))
    (λ _ w, settled w ∧ Q w) never.
Proof.
  intros HQ w [[Hw Hu] Hq]. unfold on_admission. pose proof (tr_admission _ Hw) as Ha.
  split; [|by apply HQ]. split_and!; [|exact Hu|cbn; by rewrite release_reserved].
  apply tracked_admission; [|done]. rewrite release_reserved, delete_id; [exact Ha|apply lookup_delete_eq].
Qed.
Definition ended w : Prop := r_terminal (pl_heap w !!! l) = true.
Definition completed (g : PlatformGenerationResult) w : Prop :=
  pg_request g = l ∧ r_status (pl_heap w !!! l) = COMPLETED ∧ stored w.
Lemma execute_assigned_spec :
  hoare (λ w, (tracked w ∧ unplaced w) ∧ no_loads w)
    (execute_assigned clock perf policy_clock hostname l)
    (λ g w, (tracked w ∧ unplaced w) ∧ completed g w) (failing (λ w, tracked w ∧ unplaced w)).
Proof.
  intros w Hw. unfold execute_assigned, ControlPlane.get_request.
  rewrite (bind_eq _ _ w (pl_heap w !!! l) w), (tracked_id w (proj1 (proj1 Hw))) by done. revert w Hw.
  apply (hoare_bind _ _ _ (λ _ w, tracked w ∧ unplaced w)); [apply dispatch_spec|]. intros assignment.
  apply (hoare_bind _ _ _ (λ _ w, tracked w ∧ unplaced w)); [apply mark_running_spec|]. intros _.
  eapply hoare_bind; [apply hoare_gets|]. intros [worker|].
  2:{ apply hoare_raise. by intros w [_ Hw]. }
  eapply hoare_bind.
  { eapply (hoare_conseq _ _ _ _ _ _ _ (on_worker_spec _ _ (λ _, True) (λ xs s, ∀ x, x ∈ xs →
      ∃ l', we_request_id x = r_request_id (si_heap s !!! l') ∧ r_status (si_heap s !!! l') = COMPLETED)
      unplaced _ _)); [by intros w [_ Hw]|intros a w Hw; exact Hw|done]. }
  intros batch. destruct (find _ batch) as [x|] eqn:Hx.
  2:{ apply hoare_raise. by intros w [Hw _]. }
  apply (hoare_bind _ _ _ (λ _ w, tracked w ∧ stored w ∧ unplaced w ∧ r_status (pl_heap w !!! l) = COMPLETED)).
  - eapply hoare_conseq; [apply hoare_never, (save_spec (λ w, unplaced w ∧ r_status (pl_heap w !!! l) = COMPLETED)); done| |done|done].
    intros w ((Hw & Hu) & site & Hsite & Hall). split; [done|]. split; [done|].
    apply find_some in Hx as [Hin Hid%bool_decide_eq_true].
    destruct (Hall x) as (l' & Hl' & Hc); [by apply list_elem_of_In|]. rewrite Hsite in *.
    assert (l' = l) as ->; [|done]. apply (tr_object _ Hw). congruence.
  - intros []. apply hoare_ret. intros w (Hw & Hs & Hu & Hc). by split.
  Unshelve.
  + intros h0. apply evolving_execute.
  + intros w w' Hr. unfold unplaced, reservations_of. by rewrite Hr.
Qed.
Lemma execution_failed_spec e :
  hoare (λ w, tracked w ∧ unplaced w) (execution_failed clock l e) (λ _ _, False)
    (failing (λ w, (tracked w ∧ unplaced w) ∧ ended w)).
Proof.
  assert (∀ r target, target = FAILED ∨ target = TIMED_OUT → hoare
    (λ w, (tracked w ∧ unplaced w) ∧ r = pl_heap w !!! l ∧ r_terminal r = false)
    (_ ← ControlPlane.transition_now clock l target; save l)
    (λ _ w, (tracked w ∧ unplaced w) ∧ ended w) (failing (λ w, (tracked w ∧ unplaced w) ∧ ended w))) as Hend.
  { intros r target Ht. eapply hoare_bind.
    - eapply hoare_conseq; [apply hoare_never, (end_spec target unplaced Ht); done| |done|done].
      by intros w ((Hw & Hu) & -> & Hr).
    - intros a. eapply hoare_conseq; [apply hoare_never, (save_spec (λ w, unplaced w ∧ ended w)); done| |
        by intros x w (? & _ & ? & ?)|done].
      by intros w [[Hw He] Hu]. }
  intros w Hw. unfold execution_failed, ControlPlane.get_request.
  rewrite (bind_eq _ _ w (pl_heap w !!! l) w) by done.
  assert (∀ r e', hoare (λ w, (tracked w ∧ unplaced w) ∧ r = pl_heap w !!! l ∧ r_terminal r = true)
    (raise (A := PlatformGenerationResult) (PErr e')) (λ _ _, False)
    (failing (λ w, (tracked w ∧ unplaced w) ∧ ended w))) as Hraise.
  { intros r e'. apply hoare_raise. intros w' (Hw' & -> & Hr). by split. }
  assert (∀ (c : M unit) e', hoare (λ w', w' = w) c (λ _ w, (tracked w ∧ unplaced w) ∧ ended w)
     (failing (λ w, (tracked w ∧ unplaced w) ∧ ended w)) →
     hoare (λ w', w' = w) (_ ← c; raise (A := PlatformGenerationResult) (PErr e')) (λ _ _, False)
       (failing (λ w, (tracked w ∧ unplaced w) ∧ ended w))) as Hthen.
  { intros c e' Hc. eapply hoare_bind; [exact Hc|]. intros a. apply hoare_raise. by intros w' Hw'. }
  case_head; refine (Hthen _ _ _ w eq_refl); intros w' ->; destruct (r_terminal (pl_heap w !!! l)) eqn:Hr;
    try by split.
  - set (w1 := w <| pl_readings ::= Datatypes.S |>). rewrite (bind_eq (now clock) _ w (clock (pl_readings w)) w1) by done.
    apply (Hend (pl_heap w !!! l)); [destruct (f_leb _ _); auto|]. destruct Hw. split; [|by split].
    split; [by apply tracked_readings|done].
  - by apply (Hend (pl_heap w !!! l)); [left|].
Qed.
Lemma execute_spec :
  hoare (λ w, (tracked w ∧ unplaced w) ∧ no_loads w) (execute clock perf policy_clock hostname l)
    (λ g w, settled w ∧ completed g w) (failing (λ w, settled w ∧ ended w)).
Proof.
  intros w Hw. unfold execute, ControlPlane.get_request.
  rewrite (bind_eq _ _ w (pl_heap w !!! l) w), (tracked_id w (proj1 (proj1 Hw))) by done. revert w Hw.
  apply (finally_spec _ _ _ (λ w, (tracked w ∧ unplaced w) ∧ ended w)
    _ (λ g w, (tracked w ∧ unplaced w) ∧ completed g w)).
  - apply (catch_spec _ _ _ (λ w, tracked w ∧ unplaced w)); [apply execute_assigned_spec|]. intros e.
    eapply hoare_post; [apply execution_failed_spec|done].
  - intros g. by apply admission_release_spec.
  - by apply admission_release_spec.
Qed.

(** *** Before it is queued *)

(** The token cost of the live requests of the fair queue is bounded. *)
Definition costs (h : heap) (q : FairQueue) (bound : Z) : Prop :=
  ∀ t queue l', od_get t (fq_queues q) = Some queue → l' ∈ queue → r_terminal (h !!! l') = false →
    estimated_tokens (h !!! l') <= bound.
Variable bound : Z.
Variable fuel : nat.
Record early (status : RequestState) w : Prop := {
  ea_object : ∀ l', r_request_id (pl_heap w !!! l') = id ↔ l' = l;
  ea_status : r_status (pl_heap w !!! l) = status;
  ea_tokens : estimated_tokens (pl_heap w !!! l) <= bound;
  ea_store : ∃ store, pl_requests w = Some store ∧ is_Some (store !! id);
  ea_admission : delete id (ac_reserved (pl_admission w)) = admitted;
  ea_placed : od_del id <$> placed = placed ∧ unplaced w;
  ea_stamped : queued_stamped (pl_heap w);
  ea_loads : no_loads w;
  ea_queue : ∃ q, pl_global_queue w = Some q ∧ fq_ok [] (pl_heap w) q ∧ costs (pl_heap w) q bound ∧
    bound <= Z.of_nat fuel * fq_base_quantum_tokens q ∧
    (∀ t queue, od_get t (fq_queues q) = Some queue → l ∉ queue) ∧
    ∀ t, is_Some (ac_tenants (pl_admission w) !! t) → is_Some (od_get t (fq_queues q))
}.
Lemma early_transition s target at_ :
  target ∈ ALLOWED_REQUEST_TRANSITIONS s →
  hoare (early s) (ControlPlane.transition_at l target at_) (λ _, early target) never.
Proof.
  intros Ht w []. destruct (transition_allowed target at_ (pl_heap w !!! l)) as [r Hr]; [by rewrite ea_status0|].
  rewrite (transition_at_eq w l target at_ r Hr). pose proof (transition_keeps _ _ _ _ Hr) as Hk.
  destruct ea_queue0 as (q & Hq & Hok & Hcost & Hfuel & Hl & Htenants). split; cbn; try done.
  - intros l'. rewrite lookup_total_insert. destruct (decide (l = l')) as [<-|]; [|done].
    split; [done|]. intros _. destruct Hk as (-> & _). by apply ea_object0.
  - rewrite lookup_total_insert_eq. by apply transition_Ok in Hr as [_ ->].
  - rewrite lookup_total_insert_eq. unfold estimated_tokens in *. destruct Hk as (_&_&_&_&->&->&_). exact ea_tokens0.
  - by eapply transition_queued_stamped.
  - exists q. split_and!; [done|by eapply transition_heap_ok| |done..].
    intros t queue l' Hg Hin. rewrite lookup_total_insert_ne; [by apply (Hcost t queue)|].
    intros <-. by apply (Hl t queue).
Qed.
Lemma early_now s : hoare (early s) (now clock) (λ _, early s) never.
Proof. intros w []. by split. Qed.
Lemma early_transition_now s target :
  target ∈ ALLOWED_REQUEST_TRANSITIONS s →
  hoare (early s) (ControlPlane.transition_now clock l target) (λ _, early target) never.
Proof.
  intros Ht. eapply hoare_bind; [apply early_now|]. intros t. by apply early_transition.
Qed.
Lemma early_save s : hoare (early s) (save l) (λ _ w, early s w ∧ stored w) never.
Proof.
  intros w Hw. destruct (ea_store _ _ Hw) as (store & Hs & Hin).
  assert (r_request_id (pl_heap w !!! l) = id) as Hid by by apply (ea_object _ _ Hw).
  unfold save, get_request. rewrite (bind_eq _ _ w (pl_heap w !!! l) w) by done.
  rewrite (save_record_eq w store) by (rewrite ?Hid; done). rewrite Hid. split.
  - destruct Hw. split; try done. eexists. split; [done|]. by rewrite lookup_insert_eq.
  - eexists. split; [done|]. apply lookup_insert_eq.
Qed.
(** Admission reserves capacity for it, of a known tenant, or nothing. *)
Definition admission_done (d : AdmissionDecision) w : Prop :=
  if d_admitted d then is_Some (ac_tenants (pl_admission w) !! r_tenant_id (pl_heap w !!! l))
  else ac_reserved (pl_admission w) = admitted.
Lemma decide_admission_spec model :
  hoare (λ w, early VALIDATED w ∧ ac_reserved (pl_admission w) = admitted) (decide_admission clock l model)
    (λ d w, early VALIDATED w ∧ admission_done d w) never.
Proof.
  intros w [Hw Hr]. pose proof (ea_admission _ _ Hw) as Hd. rewrite Hr in Hd.
  assert (r_request_id (pl_heap w !!! l) = id) as Hid by by apply (ea_object _ _ Hw).
  assert (admitted !! id = None) as Hnone by (rewrite <- Hd; apply lookup_delete_eq).
  unfold decide_admission. destruct (admission_decide _ _ _ _ _) as [d c] eqn:E.
  assert (delete id (ac_reserved c) = admitted ∧ ac_tenants c = ac_tenants (pl_admission w) ∧
    if d_admitted d then is_Some (ac_tenants c !! r_tenant_id (pl_heap w !!! l)) else ac_reserved c = admitted)
    as (H1 & H2 & H3).
  { unfold admission_decide in E. rewrite Hid, Hr, Hnone in E.
    destruct (ac_tenants _ !! _) as [tenant|] eqn:Ht; [|injection E as <- <-; by rewrite Hr].
    destruct (request_checks _ _ _ _) as [refusal|] eqn:Hc.
    { assert (d_admitted refusal = false) as Hrefused.
      { unfold request_checks in Hc. repeat (case_hyp Hc; [by injection Hc as <-|]). done. }
      injection E as <- <-. by rewrite Hrefused, Hr. }
    repeat (case_hyp E; [injection E as <- <-; by rewrite Hr|]).
    injection E as <- <-. cbn -[delete]. split_and!; [|done|by rewrite Ht].
    rewrite delete_insert_eq, Hr. exact Hd. }
  split; [|exact H3]. destruct Hw. destruct ea_queue0 as (q & Hq & Hok & Hcost & Hfuel & Hl & Htenants).
  split; try done. exists q. split_and!; try done. cbn. by rewrite H2.
Qed.
(** In the queue, which will hand out some request. *)
Definition waiting w : Prop :=
  (tracked w ∧ unplaced w) ∧ no_loads w ∧ r_status (pl_heap w !!! l) = QUEUED ∧
  ∃ q, pl_global_queue w = Some q ∧ ∀ clocks, ∃ l' q', pop_until fuel clocks (pl_heap w) q = (Ok (Some l'), q').
Lemma enqueue_spec :
  (0 < fuel)%nat →
  hoare (λ w, early ADMITTED w ∧ is_Some (ac_tenants (pl_admission w) !! r_tenant_id (pl_heap w !!! l)))
    (queue_enqueue clock l) (λ _, waiting) never.
Proof.
  intros Hf w [Hw Hten]. destruct (ea_queue _ _ Hw) as (q & Hq & Hok & Hcost & Hfuel & Hl & Htenants).
  unfold queue_enqueue. rewrite Hq. cbv zeta.
  change (pl_heap (w <| pl_readings ::= Datatypes.S |>)) with (pl_heap w). destruct (enqueue _ _ _ q) as [[h' q']|e] eqn:E.
  2:{ exfalso. unfold enqueue in E. destruct (Htenants _ Hten) as [queue Hg]. rewrite Hg in E.
      rewrite (ea_status _ _ Hw) in E. simpl in E.
      destruct (existsb _ queue) eqn:Hex.
      { apply existsb_exists in Hex as (l' & Hin & Heq%bool_decide_eq_true).
        rewrite (proj2 (ea_object _ _ Hw l) eq_refl) in Heq. apply (ea_object _ _ Hw) in Heq as ->.
        apply (Hl _ _ Hg). by apply list_elem_of_In. }
      destruct (transition_allowed QUEUED (clock (pl_readings w)) (pl_heap w !!! l)) as [r Hr];
        [rewrite (ea_status _ _ Hw); simpl; set_solver|].
      simpl in E. by rewrite Hr in E. }
  destruct (enqueue_ok _ _ _ _ _ _ Hok (ea_stamped _ _ Hw) E) as [Hok' _].
  unfold enqueue in E. destruct (od_get _ _) as [queue|] eqn:Hg; [|done].
  apply bind_Ok_inv in E as ([] & _ & E). apply bind_Ok_inv in E as ([] & _ & E).
  apply bind_Ok_inv in E as (r & Hr & [= <- <-]). rewrite decide_True in Hr by apply Hw.
  pose proof (transition_keeps _ _ _ _ Hr) as (Hid & Hten' & _ & _ & Hp & Hm & _).
  assert (r_status r = QUEUED) as Hst by by apply transition_Ok in Hr as [_ ->].
  set (h' := <[l := r]> (pl_heap w)) in *. set (q' := q <| fq_queues ::= _ |> <| fq_active ::= _ |>) in *.
  destruct Hw. split_and!; cbn.
  - split; try done; cbn; unfold h'.
    + intros l'. rewrite lookup_total_insert. destruct (decide (l = l')) as [<-|]; [|done].
      split; [done|]. intros _. rewrite Hid. by apply ea_object0.
    + by rewrite lookup_total_insert_eq, Hst.
    + destruct ea_placed0 as [Hd Hu]. unfold unplaced, reservations_of in *. cbn. by rewrite Hu.
  - apply ea_placed0.
  - exact ea_loads0.
  - unfold h'. by rewrite lookup_total_insert_eq.
  - exists q'. split; [done|]. intros clocks.
    assert (live h' (queue ++ [l]) = live h' queue ++ [l]) as Hlive.
    { unfold live. rewrite filter_app. f_equal. rewrite filter_cons_True; [done|].
      unfold h'. rewrite lookup_total_insert_eq. unfold r_terminal. by rewrite Hst. }
    apply (pop_until_progress fuel clocks h' q' (r_tenant_id (pl_heap w !!! l)) (live h' (queue ++ [l])) bound Hok').
    + unfold live_view, q'. cbn -[od_get od_set]. by rewrite od_get_set_eq.
    + rewrite Hlive. by destruct (live h' queue).
    + intros l' [Hin Hnt]%elem_of_live. unfold h' in *. apply elem_of_app in Hin as [Hin| ->%list_elem_of_singleton].
      * assert (l ≠ l') by (intros <-; by apply (Hl _ _ Hg)).
        rewrite lookup_total_insert_ne in * by done. by apply (Hcost _ _ l' Hg).
      * rewrite lookup_total_insert_eq. unfold estimated_tokens in *. rewrite Hp, Hm. exact ea_tokens0.
    + exact Hf.
    + assert (0 <= credit q' (r_tenant_id (pl_heap w !!! l))) as Hcredit.
      { destruct (ok_deficits _ _ _ Hok' (r_tenant_id (pl_heap w !!! l))) as (d & Hd & H0).
        - apply (ok_keys _ _ _ Hok). rewrite Hg. by eexists.
        - unfold credit, cget. by rewrite Hd. }
      unfold q' at 2. cbn [fq_base_quantum_tokens]. cbn. lia.
Qed.
Lemma pop_spec :
  hoare (λ w, waiting w ∧ stored w) (pop_request queue_clock fuel)
    (λ _ w, (tracked w ∧ unplaced w) ∧ no_loads w ∧ r_status (pl_heap w !!! l) = QUEUED) never.
Proof.
  intros w [(Hw & Hn & Hs & q & Hq & Hp) _]. unfold pop_request. rewrite Hq.
  destruct (Hp (queue_clock (pl_readings w))) as (l' & q' & ->). split_and!; [|apply Hw|done..].
  destruct Hw as [[] _]. by split.
Qed.
Lemma on_raise {A} e (Q Q' : World → Prop) (R : A → World → Prop) :
  (∀ w, Q w → Q' w) → hoare Q (raise (PErr e)) R (failing Q').
Proof. intros HQ. apply hoare_raise. intros w Hw. by split; [|apply HQ]. Qed.
Lemma rejected_spec e :
  hoare (λ w, early VALIDATED w ∧ ac_reserved (pl_admission w) = admitted)
    (_ ← ControlPlane.transition_now clock l REJECTED; _ ← save l;
     raise (A := PlatformGenerationResult) (PErr e))
    (λ _ _, False) (failing (λ w, settled w ∧ ended w)).
Proof.
  intros w [Hw Ha]. destruct (transition_allowed REJECTED (clock (pl_readings w)) (pl_heap w !!! l)) as [r Hr].
  { rewrite (ea_status _ _ Hw). simpl. set_solver. }
  pose proof (early_transition_now VALIDATED REJECTED ltac:(simpl; set_solver) w Hw) as H1.
  rewrite (transition_now_eq w l REJECTED r Hr) in H1.
  rewrite (bind_eq _ _ w tt _ (transition_now_eq w l REJECTED r Hr)). set (w1 := _ <| pl_heap ::= _ |>) in *.
  assert (tracked w1) as Ht.
  { destruct H1. split; try done; [by rewrite ea_status0|]. destruct ea_placed0 as [Hd Hu].
    unfold unplaced in Hu. by rewrite Hu. }
  pose proof (save_spec (λ w, unplaced w ∧ ac_reserved (pl_admission w) = admitted ∧ ended w) ltac:(done) w1
    (conj Ht (conj (proj2 (ea_placed _ _ H1)) (conj Ha
      (f_equal terminal_state (ea_status _ _ H1)))))) as H2.
  unfold mbind, M_bind. destruct (save l w1) as [[e'|[]] w2]; [done|].
  destruct H2 as (? & _ & ? & ? & ?). by split_and!.
Qed.
Lemma violated_spec e :
  hoare (λ w, (tracked w ∧ unplaced w) ∧ no_loads w ∧ r_status (pl_heap w !!! l) = QUEUED)
    (_ ← ControlPlane.transition_now clock l FAILED; _ ← save l;
     _ ← on_admission (λ c, Ok (release id c));
     raise (A := PlatformGenerationResult) (PErr e))
    (λ _ _, False) (failing (λ w, settled w ∧ ended w)).
Proof.
  eapply hoare_bind.
  { eapply hoare_conseq; [apply hoare_never, (end_spec FAILED unplaced); [by left|done]| |done|done].
    intros w ((Hw & Hu) & _ & Hs). split; [|done]. split; [done|]. unfold r_terminal. by rewrite Hs. }
  intros []. eapply hoare_bind.
  { eapply (hoare_conseq _ _ _ _ _ _ (failing (λ w, settled w ∧ ended w))); [apply hoare_never, (save_spec (λ w, unplaced w ∧ ended w)); done| |done|done].
    by intros w [[Hw He] Hu]. }
  intros []. eapply hoare_bind.
  { eapply hoare_conseq; [apply hoare_never, (admission_release_spec ended); done| |intros a w Hw; exact Hw|done].
    by intros w (Hw & _ & Hu & He). }
  intros []. apply on_raise. by intros w Hw.
Qed.
Lemma submit_created_spec model t :
  (0 < fuel)%nat →
  hoare (λ w, early RECEIVED w ∧ ac_reserved (pl_admission w) = admitted)
    (submit_created clock perf policy_clock queue_clock hostname fuel model l t)
    (λ g w, settled w ∧ completed g w) (failing (λ w, settled w ∧ ended w)).
Proof.
  intros Hf. unfold submit_created.
  apply (hoare_bind _ _ _ (λ _ w, early VALIDATED w ∧ ac_reserved (pl_admission w) = admitted)).
  { intros w [Hw Ha]. destruct (transition_allowed VALIDATED t (pl_heap w !!! l)) as [r Hr].
    { rewrite (ea_status _ _ Hw). simpl. set_solver. }
    pose proof (early_transition RECEIVED VALIDATED t ltac:(simpl; set_solver) w Hw) as H1.
    by rewrite (transition_at_eq w l VALIDATED t r Hr) in *. }
  intros []. apply (hoare_bind _ _ _ (λ _ w, early VALIDATED w ∧ ac_reserved (pl_admission w) = admitted)).
  { intros w [Hw Ha]. pose proof (early_save VALIDATED w Hw) as H1.
    destruct (ea_store _ _ Hw) as (store & Hs & Hin).
    assert (r_request_id (pl_heap w !!! l) = id) as Hid by by apply (ea_object _ _ Hw).
    revert H1. unfold save, get_request. rewrite (bind_eq _ _ w (pl_heap w !!! l) w) by done.
    rewrite (save_record_eq w store) by (rewrite ?Hid; done). by intros [? _]. }
  intros []. eapply hoare_bind; [apply hoare_never, decide_admission_spec|]. intros d. unfold admission_done.
  destruct (d_admitted d); simpl.
  2:{ eapply hoare_post; [apply rejected_spec|done]. }
  apply (hoare_bind _ _ _ (λ _ w, early ADMITTED w ∧
    is_Some (ac_tenants (pl_admission w) !! r_tenant_id (pl_heap w !!! l)))).
  { intros w [Hw Ht]. destruct (transition_allowed ADMITTED (clock (pl_readings w)) (pl_heap w !!! l)) as [r Hr].
    { rewrite (ea_status _ _ Hw). simpl. set_solver. }
    pose proof (early_transition_now VALIDATED ADMITTED ltac:(simpl; set_solver) w Hw) as H1.
    rewrite (transition_now_eq w l ADMITTED r Hr) in *. split; [exact H1|]. cbn.
    rewrite lookup_total_insert_eq. by destruct (transition_keeps _ _ _ _ Hr) as (_ & -> & _). }
  intros []. eapply hoare_bind; [by apply hoare_never, enqueue_spec|]. intros [].
  apply (hoare_bind _ _ _ (λ _ w, waiting w ∧ stored w)).
  { eapply hoare_conseq; [apply hoare_never, (save_spec (λ w, unplaced w ∧ no_loads w ∧
      r_status (pl_heap w !!! l) = QUEUED ∧ ∃ q, pl_global_queue w = Some q ∧ ∀ clocks, ∃ l' q',
        pop_until fuel clocks (pl_heap w) q = (Ok (Some l'), q'))); done| | |done].
    - intros w ((Hw & Hu) & Hrest). exact (conj Hw (conj Hu Hrest)).
    - intros a w (Hw & Hst & Hu & Hrest). exact (conj (conj (conj Hw Hu) Hrest) Hst). }
  intros []. eapply hoare_bind; [apply hoare_never, pop_spec|]. intros selected w Hw.
  unfold ControlPlane.get_request. rewrite (bind_eq _ _ w (pl_heap w !!! l) w) by done.
  rewrite (bind_eq _ _ w (pl_heap w !!! selected) w), (tracked_id w (proj1 (proj1 Hw))) by done.
  case_head.
  - eapply hoare_post; [apply violated_spec| |exact Hw]. done.
  - apply negb_false_iff, bool_decide_eq_true, (tr_object _ (proj1 (proj1 Hw))) in Heqb as ->.
    apply execute_spec. split; apply Hw.
Qed.
End request.

(** ** A submission *)

(** The pipeline with nothing of the new request in it. *)
Record ready (fuel : nat) (id : string) (tokens : Z) w : Prop := {
  re_fresh : ∀ l, r_request_id (pl_heap w !!! l) ≠ id;
  re_stamped : queued_stamped (pl_heap w);
  re_store : ∃ store, pl_requests w = Some store ∧ store !! id = None;
  re_admission : ac_reserved (pl_admission w) !! id = None;
  re_placed : ∀ book, pl_reservations w = Some book → od_get id (ar_reservations book) = None;
  re_loads : no_loads w;
  re_queue : ∃ q, pl_global_queue w = Some q ∧ fq_ok [] (pl_heap w) q ∧
    costs (pl_heap w) q (Z.of_nat fuel * fq_base_quantum_tokens q) ∧
    tokens <= Z.of_nat fuel * fq_base_quantum_tokens q ∧
    ∀ t, is_Some (ac_tenants (pl_admission w) !! t) → is_Some (od_get t (fq_queues q))
}.
Lemma fresh_not_queued h q l :
  fq_ok [] h q → l ∉ dom h → ∀ t queue, od_get t (fq_queues q) = Some queue → l ∉ queue.
Proof.
  intros Hok Hl t queue Hg Hin. destruct (ok_stamped _ _ _ Hok _ _ Hg l Hin) as [x Hx].
  rewrite lookup_total_alt, (not_elem_of_dom_1 _ _ Hl) in Hx. done.
Qed.
Lemma fq_ok_new h q l r :
  fq_ok [] h q → (∀ t queue, od_get t (fq_queues q) = Some queue → l ∉ queue) → fq_ok [] (<[l := r]> h) q.
Proof.
  intros [Ho Hkeys Hq Hw Hd Ha Hkn Hs Hun Hst] Hl. split; try done.
  - intros t queue Hg. destruct (Hun _ _ Hg) as [Hnd Hu]. split; [done|].
    intros l1 l2 H1 H2. rewrite !lookup_total_insert_ne by (intros <-; by eapply Hl). auto.
  - intros t queue Hg l' Hl'. rewrite lookup_total_insert_ne by (intros <-; by eapply Hl). by eapply Hst.
Qed.
Lemma post_init_same r r' : RequestRecord_post_init r = Ok r' →
  ∃ ts, r' = r <| r_transition_timestamps := ts |>.
Proof.
  unfold RequestRecord_post_init. intros ([] & _ & H)%bind_Ok_inv. apply bind_Ok_inv in H as ([] & _ & [= <-]).
  by eexists.
Qed.
(** The object is created, with its record. *)
Lemma created_early fuel w r n q :
  ready fuel (r_request_id r) (estimated_tokens r) w → r_status r = RECEIVED → pl_global_queue w = Some q →
  let l := fresh (dom (pl_heap w)) in
  ∀ store, pl_requests w = Some store →
  early (r_request_id r) l (ac_reserved (pl_admission w)) (reservations_of w)
    (Z.of_nat fuel * fq_base_quantum_tokens q) fuel RECEIVED
    (w <| pl_readings := n |> <| pl_heap ::= <[l := r]> |> <| pl_requests := Some (<[r_request_id r := r]> store) |>).
Proof.
  intros [] Hr Hgq l store Hs. destruct re_queue0 as (q' & Hq & Hok & Hcost & Hb & Hten).
  rewrite Hgq in Hq. injection Hq as <-.
  assert (l ∉ dom (pl_heap w)) as Hl by apply is_fresh.
  pose proof (fresh_not_queued _ _ _ Hok Hl) as Hnq. split; cbn; try done.
  - intros l'. rewrite lookup_total_insert. destruct (decide (l = l')) as [<-|Hne]; [done|].
    split; [by intros ?%re_fresh0|by intros ->].
  - by rewrite lookup_total_insert_eq.
  - by rewrite lookup_total_insert_eq.
  - eexists. split; [done|]. by rewrite lookup_insert_eq.
  - by apply delete_id.
  - split; [|done]. unfold reservations_of. destruct (pl_reservations w) as [book|] eqn:Hb'; [|done].
    cbn -[od_del]. by rewrite od_del_id by by apply re_placed0.
  - intros l'. rewrite lookup_total_insert. destruct (decide (l = l')) as [<-|Hne]; [by rewrite Hr|apply re_stamped0].
  - exists q. split_and!; [done|by apply fq_ok_new| |lia|done..].
    intros t queue l' Hg Hin. rewrite lookup_total_insert_ne by (intros <-; by eapply Hnq). by apply (Hcost t queue).
Qed.

(** What a submission gives: the request completed and stored, or ended; and in any case nothing is
    reserved for it. *)
Definition done_request (id : string) w w' (r : PlaneExc + PlatformGenerationResult) : Prop :=
  ac_reserved (pl_admission w') = ac_reserved (pl_admission w) ∧ reservations_of w' = reservations_of w ∧
  match r with
  | inr g => r_request_id (pl_heap w' !!! pg_request g) = id ∧
      r_status (pl_heap w' !!! pg_request g) = COMPLETED ∧
      ∃ store, pl_requests w' = Some store ∧ store !! id = Some (pl_heap w' !!! pg_request g)
  | inl e => e ≠ PBlocked ∧ ∀ l, r_request_id (pl_heap w' !!! l) = id → r_terminal (pl_heap w' !!! l) = true
  end.
Lemma settled_done id l w w' e :
  settled id l (ac_reserved (pl_admission w)) (reservations_of w) w' → ended l w' → e ≠ PBlocked →
  done_request id w w' (inl e).
Proof.
  intros (Ht & Hu & Ha) He Hb. split_and!; [done..|]. intros l' Hl'.
  apply (tr_object _ _ _ _ _ Ht) in Hl' as ->. exact He.
Qed.
Lemma new_request_eq w r :
  new_request r w = (inr (fresh (dom (pl_heap w))), w <| pl_heap ::= <[fresh (dom (pl_heap w)) := r]> |>).
Proof. done. Qed.

(** C4: A submission to the pipeline, over any worker runtimes and any routing policy, never hangs (when
    no worker is loading a model and the fuel covers the token cost of the queued requests) and leaves
    nothing behind, whichever step fails: when it returns, the request is COMPLETED and the store has
    that record; when it raises, the request, if one was created, has ended; and in both cases
    the admission controller and the placement book hold exactly what they held before. *)
Theorem submit_settles fuel model id tenant prompt prompt_tokens max_new_tokens temperature priority
  deadline_seconds w r w' :
  (0 < fuel)%nat → ready fuel id (prompt_tokens + max_new_tokens) w →
  submit clock perf policy_clock queue_clock hostname fuel model id tenant prompt prompt_tokens
    max_new_tokens temperature priority deadline_seconds w = (r, w') →
  done_request id w w' r.
Proof.
  intros Hf Hre E. unfold submit in E. set (t := clock (pl_readings w)) in *.
  set (w1 := w <| pl_readings ::= Datatypes.S |>) in *. rewrite (bind_eq (now clock) _ w t w1) in E by done.
  set (r0 := mkRequest _ _ _ _ _ _ _ _ _ _ _ _ _ _ _ _ _) in E.
  destruct (RequestRecord_post_init r0) as [rq|e] eqn:Hpost; rewrite ?Hpost in E.
  2:{ injection E as <- <-. split_and!; [done..|].
      intros l Hl. destruct (re_fresh _ _ _ _ Hre l Hl). }
  rewrite (bind_eq (lift_res (Ok rq)) _ w1 rq w1) in E by done.
  destruct (post_init_same _ _ Hpost) as [ts Hrq].
  assert (r_request_id rq = id ∧ estimated_tokens rq = prompt_tokens + max_new_tokens ∧ r_status rq = RECEIVED)
    as (Hid & Htok & Hst) by by subst rq.
  rewrite (bind_eq _ _ w1 _ _ (new_request_eq w1 rq)) in E.
  set (l := fresh (dom (pl_heap w1))) in *. set (w2 := w1 <| pl_heap ::= <[l := rq]> |>) in *.
  destruct (re_store _ _ _ _ Hre) as (store & Hs & Hnone).
  destruct (re_queue _ _ _ _ Hre) as (q & Hq & _).
  assert (request_store "" w2 = (inr store, w2)) as Estore.
  { unfold request_store. rewrite (bind_eq _ _ w2 (Some store) w2) by (unfold gets; cbn; by rewrite Hs). done. }
  rewrite (bind_eq _ _ w2 store w2 Estore) in E. unfold store_create in E. rewrite Hid, Hnone in E.
  rewrite (bind_eq (lift_res (Ok _)) _ w2 (<[id := rq]> store) w2) in E by done.
  set (w3 := w2 <| pl_requests := Some (<[id := rq]> store) |>).
  rewrite (bind_eq _ _ w2 tt w3) in E by done.
  assert (early id l (ac_reserved (pl_admission w)) (reservations_of w)
    (Z.of_nat fuel * fq_base_quantum_tokens q) fuel RECEIVED w3) as Hearly.
  { rewrite <- Htok, <- Hid in Hre. pose proof (created_early fuel w rq (Datatypes.S (pl_readings w)) q Hre Hst Hq store Hs) as Hc.
    rewrite Hid in Hc. exact Hc. }
  pose proof (submit_created_spec id l _ _ _ fuel model t Hf w3 (conj Hearly eq_refl)) as Hdone.
  rewrite E in Hdone. destruct r as [e|g].
  - destruct Hdone as (Hb & Hset & Hend). by apply (settled_done id l).
  - destruct Hdone as ((Ht & Hu & Ha) & Hg & Hc & store' & Hs' & Hl'). split; [done|]. split; [done|]. rewrite Hg.
    split; [by apply (tr_object _ _ _ _ _ Ht)|]. split; [done|]. by exists store'.
Qed.
End safe.

(** ** The local pipeline is ready *)

Section build.
Context {S L : Type} `{ModelRuntime S}.
Variable clock : nat → float.
Variable hostname : string.
Variable simulated_runtime : ModelDefinition → float → Z → S.

Lemma register_loads :
  preserves (X := WorkerExc) (λ s : Site S, mw_loading_models (si_worker s) = ∅) (register clock hostname).
Proof.
  unfold register, get_worker. apply preserves_bind; [apply preserves_gets|]. intros x.
  apply preserves_bind; [case_bool_decide; [by apply preserves_modify|apply preserves_ret]|]. intros _.
  apply preserves_bind; [by apply preserves_modify|]. intros _. apply preserves_bind.
  - unfold snapshot, get_worker. apply preserves_bind.
    { intros s Hs. unfold runtime_call. by destruct (rt_capacity (si_runtime s)) as [[]]. }
    intros c. apply preserves_bind; [apply preserves_gets|]. intros y.
    apply preserves_bind; [by intros s Hs|]. intros t s Hs. unfold Worker.lift_res. by destruct (WorkerState_post_init _).
  - intros st. apply preserves_bind; [by intros s Hs|]. intros t.
    apply preserves_bind; [by apply preserves_modify|]. intros _. apply preserves_ret.
Qed.
Definition idle_directory (d : gmap string (S * ManagedWorker)) : Prop :=
  ∀ i s x, d !! i = Some (s, x) → mw_loading_models x = ∅.
Lemma build_worker_idle model a b c name throughput index st st' :
  build_worker clock hostname simulated_runtime model a b c name throughput index st = Ok st' →
  idle_directory st.1.2 → idle_directory st'.1.2.
Proof.
  destruct st as [[registry d] n]. unfold build_worker. intros (x & Hx & E)%bind_Ok_inv Hd.
  assert (mw_loading_models x = ∅) as Hl.
  { unfold ManagedWorker_init in Hx. apply bind_Ok_inv in Hx as ([] & _ & [= <-]). done. }
  pose proof (register_loads (mkSite ∅ registry (simulated_runtime model throughput index) x n) Hl) as Hr.
  destruct (register _ _ _) as [[[]|r] site]; [done..|]. injection E as <-. intros i s y. cbn.
  rewrite lookup_insert. case_decide; [by intros [= _ <-]|]. apply Hd.
Qed.
Lemma tenants_known tenants (m : gmap string TenantLimits) (d : list (string * TenantLimits)) :
  (∀ t, is_Some (m !! t) → is_Some (od_get t d)) →
  ∀ t, is_Some (foldl (λ m t, <[t_tenant_id t := t]> m) m tenants !! t) →
    is_Some (od_get t (foldl (λ d t, od_set (t_tenant_id t) t d) d tenants)).
Proof.
  revert m d. induction tenants as [|x tenants IH]; intros m d Hmd; simpl; [exact Hmd|].
  apply IH. intros t. rewrite od_get_set, lookup_insert. case_decide as H1; case_decide as H2; subst; naive_solver.
Qed.
Lemma tenants_valid a b c ids tenants :
  mapM (tenant_limits a b c) ids = Ok tenants → Forall (λ t, is_ok (TenantLimits_post_init t) = true) tenants.
Proof.
  revert tenants. induction ids as [|i ids IH]; simpl; intros tenants; [by intros [= <-]|].
  intros (t & Ht & E)%bind_Ok_inv. apply bind_Ok_inv in E as (ts & Hts & [= <-]).
  constructor; [|by apply IH]. unfold tenant_limits in Ht.
  assert (TenantLimits_post_init t = Ok t) as ->; [|done].
  unfold TenantLimits_post_init in *. by apply bind_Ok_inv in Ht as ([] & Hr & [= <-]); rewrite Hr.
Qed.
Lemma build_ready requests tenant_ids a b c d model (w : Plane S DemandAwarePlacementPolicy L) fuel id tokens :
  build_local_simulated_pipeline clock hostname simulated_runtime requests tenant_ids a b c d = Ok (model, w) →
  id ≠ "" → requests !! id = None → tokens <= Z.of_nat fuel * 128 → ready fuel id tokens w.
Proof.
  intros E Hid Hnone Htok. unfold build_local_simulated_pipeline in E.
  apply bind_Ok_inv in E as (model' & _ & E). apply bind_Ok_inv in E as (models & _ & E).
  apply bind_Ok_inv in E as (registry & _ & E). apply bind_Ok_inv in E as (st1 & H1 & E).
  apply bind_Ok_inv in E as ([[registry2 directory] n] & H2 & E). apply bind_Ok_inv in E as (tenants & Ht & E).
  apply bind_Ok_inv in E as (admission & Ha & E). apply bind_Ok_inv in E as (q & Hq & E).
  apply bind_Ok_inv in E as (policy & _ & [= <- <-]).
  apply build_worker_idle in H1; [|intros i s x; cbn; by rewrite lookup_empty].
  apply build_worker_idle in H2; [|exact H1].
  assert (ac_reserved admission = ∅ ∧ ac_tenants admission = tenants_by_id tenants) as [Hres Hten].
  { unfold TenantAdmissionController_init in Ha. apply bind_Ok_inv in Ha as ([] & _ & Ha).
    by apply bind_Ok_inv in Ha as ([] & _ & [= <-]). }
  pose proof (fq_init_ok tenants 128 (f_of_Z 1) ∅ q Hq (tenants_valid _ _ _ _ _ Ht)) as Hok.
  assert (∀ t, od_get t (fq_queues q) = (λ _, []) <$> od_get t (fq_tenants q)) as Hempty.
  { unfold FairQueue_init in Hq. apply bind_Ok_inv in Hq as ([] & _ & [= <-]). intros t. apply od_get_empties. }
  assert (fq_base_quantum_tokens q = 128 ∧ fq_tenants q = foldl (λ d t, od_set (t_tenant_id t) t d) [] tenants)
    as [Hquantum Hfq] by by (unfold FairQueue_init in Hq; apply bind_Ok_inv in Hq as ([] & _ & [= <-])).
  split; cbn.
  - intros l. by rewrite lookup_total_empty.
  - intros l. by rewrite lookup_total_empty.
  - by exists requests.
  - by rewrite Hres.
  - by intros book [= <-].
  - exact H2.
  - exists q. rewrite Hquantum. split_and!; [done|done| |done|].
    + intros t queue l. rewrite Hempty. destruct (od_get t _); [|done]. intros [= <-] Hl. by apply not_elem_of_nil in Hl.
    + intros t. rewrite Hten, Hempty, fmap_is_Some, Hfq. by apply tenants_known.
Qed.
End build.

(** ** A run *)

#[local] Instance plane_runtime : ModelRuntime (gset string) := {|
  rt_load_model m := modify (λ s, {[m_model_id m]} ∪ s);
  rt_unload_model m := modify (λ s, s ∖ {[m]});
  rt_warmup_model _ := mret tt;
  rt_is_model_loaded m s := bool_decide (m ∈ s);
  rt_generate _ prompts _ _ := mret ((λ p, mkResult p 1 1 f_zero f_zero f_zero) <$> prompts);
  rt_capacity := mret (mkCapacity SIMULATED_GPU "gpu" (Some (4 * 1024 ^ 3)) (Some (4 * 1024 ^ 3))
    None None None None None None None None None)
|}.
#[local] Instance no_lease : CoordinationLease unit := {|
  cl_acquire k := (true, k); cl_renew k := (true, k); cl_release k := (true, k); cl_is_owner _ := true |}.
Definition plane_clock : nat → float := λ n, f_of_Z (Z.of_nat n).
Definition sample_build : res (ModelDefinition * Plane (gset string) DemandAwarePlacementPolicy unit) :=
  build_local_simulated_pipeline plane_clock "host" (λ _ _ _, ∅) ∅ {["tenant-a"]} 8 2 512 512.
Definition sample_plane : option (Plane (gset string) DemandAwarePlacementPolicy unit) :=
  match sample_build with Ok (_, w) => Some w | Err _ => None end.
Definition sample_submit (id : string) (deadline_seconds : float)
  (w : Plane (gset string) DemandAwarePlacementPolicy unit) :=
  submit plane_clock plane_clock (λ n _, plane_clock n) (λ n _ _, plane_clock n) "host" 1
    (local_model 512 512) id "tenant-a" "hello" 3 4 f_zero 0 deadline_seconds w.
(** The outcome, the states of the objects and of the stored records. *)
Definition sample_result (id : string) (deadline_seconds : float)
  : option (option PlaneExc * list (positive * RequestState) * list (string * RequestState)) :=
  match sample_plane with
  | None => None
  | Some w =>
    let '(r, w') := sample_submit id deadline_seconds w in
    Some (match r with inl e => Some e | inr _ => None end, map_to_list (r_status <$> pl_heap w'),
      map_to_list (r_status <$> default ∅ (pl_requests w')))
  end.
Lemma submit_settles_witness :
  match sample_plane with
  | Some w => done_request "platform_1" w (sample_submit "platform_1" (f_of_Z 1000) w).2
                (sample_submit "platform_1" (f_of_Z 1000) w).1
  | None => False
  end ∧
  sample_result "platform_1" (f_of_Z 1000) = Some (None, [(1%positive, COMPLETED)], [("platform_1", COMPLETED)]).
Proof.
  split; [|vm_compute; reflexivity].
  assert (is_ok sample_build = true) as Hok by (vm_compute; reflexivity).
  unfold sample_plane. destruct sample_build as [[model w]|] eqn:E; [|discriminate Hok].
  apply (submit_settles plane_clock plane_clock (λ n _, plane_clock n) (λ n _ _, plane_clock n) "host" 1
    (local_model 512 512) "platform_1" "tenant-a" "hello" 3 4 f_zero 0 (f_of_Z 1000)); [lia| |].
  - eapply build_ready; [exact E|discriminate|done|lia].
  - apply surjective_pairing.
Defined.
(** A request that times out during the model load, or in the worker's queue, ends, but the store keeps
    an earlier state of it for ever. *)
Lemma timed_out_record_stale :
  sample_result "platform_1" (f_of_Z 10)
  = Some (Some (PErr (PlatformExecutionError "control-plane execution failed")),
      [(1%positive, TIMED_OUT)], [("platform_1", ASSIGNED)]) ∧
  sample_result "platform_1" (f_of_Z 13)
  = Some (Some (PErr (PlatformExecutionError "worker did not return the assigned request")),
      [(1%positive, TIMED_OUT)], [("platform_1", QUEUED)]).
Proof. split; vm_compute; reflexivity. Qed.

(** A request that recovery put back in the queue is dropped by the next submission, which fails. *)
Definition recovered_request : RequestRecord :=
  mkRequest "platform_0" "tenant-a" "local-simulated-model" "hello" 3 4 0 (f_of_Z 1000) false f_zero f_zero
    QUEUED None 1 ["assigned_worker_heartbeat_expired"] true {[QUEUED := f_zero]}.
Definition with_recovered (w : Plane (gset string) DemandAwarePlacementPolicy unit)
  : Plane (gset string) DemandAwarePlacementPolicy unit :=
  (queue_enqueue plane_clock 1%positive
    (w <| pl_heap := {[1%positive := recovered_request]} |>
       <| pl_requests := Some {["platform_0" := recovered_request]} |>)).2.
Lemma recovered_request_dropped :
  match sample_plane with
  | None => False
  | Some w =>
    let '(r, w') := sample_submit "platform_1" (f_of_Z 1000) (with_recovered w) in
    r = inl (PErr (PlatformExecutionError "control-plane queue ownership was violated")) ∧
    map_to_list (r_status <$> pl_heap w') = [(2%positive, FAILED); (1%positive, QUEUED)] ∧
    (fmap fq_queues (pl_global_queue w')) = Some [("tenant-a", [2%positive])]
  end.
Proof. vm_compute. by split_and!. Qed.
