(* ===== verification/Recovery.v ===== *)
(** The recovery of requests after the loss of a worker: [ControlPlane.recover_failed_worker]. *)
From S2P Require Import Prelude PyContainers PyFloat Domain FairQueue Admission RequestStore Registry Routing Reservations Effects Worker ControlPlane.
From Stdlib Require String.

#[local] Open Scope string_scope.
#[local] Open Scope list_scope.
#[local] Open Scope Z_scope.
#[local] Set Default Proof Using "Type".
#[local] Set Proof Using Clear Unused.

(** ** Specification *)

(** The same request, whatever its progress. *)
Definition same_request (r r' : RequestRecord) : Prop :=
  r_request_id r' = r_request_id r ∧ r_tenant_id r' = r_tenant_id r ∧ r_model_id r' = r_model_id r ∧
  r_prompt r' = r_prompt r ∧ r_prompt_tokens r' = r_prompt_tokens r ∧
  r_max_new_tokens r' = r_max_new_tokens r ∧ r_deadline r' = r_deadline r.
Definition given_up (target : RequestState) (reason : string) (r r' : RequestRecord) : Prop :=
  r_status r' = target ∧ r_retry_reasons r' = r_retry_reasons r ++ [reason] ∧ same_request r r'.
Definition expired (clock : nat → float) (n : nat) (r : RequestRecord) : bool := f_leb (r_deadline r) (clock n).
(** What becomes of a stored record, in a plane that has a global queue or not; [queued] says that a
    request object is in it, and the readings of the clock are those from [first] up to [last]. A
    request that can be retried is judged at the reading [n]: it is given up when its attempts are used
    up or its deadline has passed, and the deadline, read once more unless the attempts were used up,
    decides between the two ways to end it. *)
Definition recovered (clock : nat → float) (worker_id : string) (max_attempts : Z) (has_queue : bool)
  (queued : RequestRecord → Prop) (first last : nat) (r r' : RequestRecord) : Prop :=
  if negb (bool_decide (r_assigned_worker_id r = Some worker_id)) || r_terminal r then r' = r
  else if execution_started r then given_up FAILED "worker_lost_after_execution_started" r r'
  else if negb (r_payload_available r) then
    given_up FAILED "request_payload_unavailable_after_restart" r r'
  else
    ∃ n, (first <= n < last)%nat ∧
      let used_up := max_attempts <=? r_attempt_count r in
      if used_up || expired clock n r then
        if expired clock (if used_up then n else Datatypes.S n) r
        then given_up TIMED_OUT "deadline_exhausted" r r'
        else given_up FAILED "retry_budget_exhausted" r r'
      else
        same_request r r' ∧ r_assigned_worker_id r' = None ∧ r_attempt_count r' = r_attempt_count r ∧
        if has_queue then
          r_status r' = QUEUED ∧ queued r' ∧
          r_retry_reasons r' = r_retry_reasons r ++ ["assigned_worker_heartbeat_expired"]
        else
          r_status r' = FAILED ∧ r_retry_reasons r' =
            r_retry_reasons r ++ ["assigned_worker_heartbeat_expired"; "global_retry_queue_unavailable"].

Section recovery.
Context {S P L : Type} `{ModelRuntime S} `{RoutingPolicy P} `{CoordinationLease L}.
#[local] Abbreviation World := (Plane S P L).
#[local] Abbreviation M := (Eff World PlaneExc).
#[local] Abbreviation hoare := (Effects.hoare (W := World) (X := PlaneExc)).
Implicit Types (w : World).
Variable clock : nat → float.

Definition in_queue w (l : loc) : Prop :=
  ∃ q t queue, pl_global_queue w = Some q ∧ od_get t (fq_queues q) = Some queue ∧ l ∈ queue.
Definition queued_record w (r : RequestRecord) : Prop :=
  ∃ l, l ∈ dom (pl_heap w) ∧ pl_heap w !!! l = r ∧ in_queue w l.
(** Objects stay as they are and queued requests stay queued. *)
Record grows w w' : Prop := {
  gr_dom : dom (pl_heap w) ⊆ dom (pl_heap w');
  gr_heap : ∀ l, l ∈ dom (pl_heap w) → pl_heap w' !!! l = pl_heap w !!! l;
  gr_queue : ∀ l, in_queue w l → in_queue w' l;
  gr_has_queue : is_Some (pl_global_queue w') ↔ is_Some (pl_global_queue w);
  gr_readings : (pl_readings w <= pl_readings w')%nat
}.
Lemma grows_refl w : grows w w.
Proof. by split. Qed.
Lemma grows_trans w1 w2 w3 : grows w1 w2 → grows w2 w3 → grows w1 w3.
Proof.
  intros [] []. split; [set_solver| |auto|by rewrite gr_has_queue1|lia]. intros l Hl. rewrite gr_heap1 by set_solver. auto.
Qed.
(** A world that differs in its readings or its store. *)
Lemma grows_same w w' :
  pl_heap w' = pl_heap w → pl_global_queue w' = pl_global_queue w →
  (pl_readings w <= pl_readings w')%nat → grows w w'.
Proof.
  intros Hh Hq Hn. split; rewrite ?Hh, ?Hq; try done. intros l. unfold in_queue. by rewrite Hq.
Qed.
Ltac same_queue := apply grows_same; cbn; [done|done|lia].
Lemma queued_record_grows w w' r : grows w w' → queued_record w r → queued_record w' r.
Proof.
  intros [] (l & Hl & Hr & Hq). exists l. split_and!; [set_solver|by rewrite gr_heap0|auto].
Qed.
Definition has_queue w : bool := bool_decide (is_Some (pl_global_queue w)).
(** [r] is recovered as [r'] between these two worlds. *)
Definition recovered_in worker_id k w w' (r r' : RequestRecord) : Prop :=
  recovered clock worker_id k (has_queue w) (queued_record w') (pl_readings w) (pl_readings w') r r'.
Lemma recovered_grows worker_id k w1 w2 w3 w4 r r' : grows w1 w2 → grows w3 w4 →
  recovered_in worker_id k w2 w3 r r' → recovered_in worker_id k w1 w4 r r'.
Proof.
  intros H1 H2. unfold recovered_in, recovered.
  destruct (_ || r_terminal r); [done|]. destruct (execution_started r); [done|].
  destruct (negb (r_payload_available r)); [done|].
  intros (n & Hn & Hr). exists n. pose proof (gr_readings _ _ H1). pose proof (gr_readings _ _ H2).
  split; [lia|]. destruct (_ || _); [done|]. destruct Hr as (? & ? & ? & Hr). split_and!; try done.
  assert (has_queue w1 = has_queue w2) as -> by (apply bool_decide_ext; symmetry; apply (gr_has_queue _ _ H1)).
  destruct (has_queue w2); [|done]. destruct Hr as (? & Hq & ?). split_and!; try done.
  by eapply queued_record_grows.
Qed.

(** ** One request *)

(** From a store that holds [r]: the store afterwards, whether or not the computation raises. *)
Definition handles (r : RequestRecord) w (out : PlaneExc + Recovery) w' (Q : RequestRecord → Prop) : Prop :=
  grows w w' ∧ ∃ s, pl_requests w = Some s ∧
    match out with
    | inr _ => ∃ r', pl_requests w' = Some (<[r_request_id r := r']> s) ∧ r_request_id r' = r_request_id r ∧ Q r'
    | inl e => e ≠ PBlocked ∧ pl_requests w' = Some s
    end.
Lemma save_record_spec w s r :
  pl_requests w = Some s → is_Some (s !! r_request_id r) →
  save_record r w = (inr tt, w <| pl_requests := Some (<[r_request_id r := r]> s) |>).
Proof.
  intros Hs [r' Hr]. unfold save_record, request_store.
  assert ((s ← gets pl_requests; match s with
    | None => raise (PErr (RuntimeError "")) | Some s => mret s end) w = (inr s, w)) as E.
  { rewrite (bind_eq _ _ w (Some s) w) by (unfold gets; by rewrite Hs). done. }
  rewrite (bind_eq _ _ w s w E). unfold store_save. by rewrite Hr.
Qed.
Lemma transition_same target at_ r r' : transition target at_ r = Ok r' → same_request r r'.
Proof. by intros [_ ->]%transition_Ok. Qed.
(** A record that is ended and saved. *)
Lemma end_copy_saves target reason r r0 w s :
  same_request r0 r → pl_requests w = Some s → s !! r_request_id r0 = Some r0 →
  let out := (r ← end_copy clock target reason r; _ ← save_record r; mret (M := M) Failed) w in
  handles r0 w out.1 out.2 (λ r', r_status r' = target ∧ r_retry_reasons r' = r_retry_reasons r ++ [reason] ∧
    same_request r0 r' ∧ r_assigned_worker_id r' = r_assigned_worker_id r ∧
    r_attempt_count r' = r_attempt_count r).
Proof.
  intros Hr0 Hs Hin. cbv zeta. unfold end_copy. set (w1 := w <| pl_readings ::= Datatypes.S |>).
  destruct (transition target (clock (pl_readings w)) r) as [r1|e] eqn:E.
  - set (r2 := r1 <| r_retry_reasons ::= λ rs, rs ++ [reason] |>).
    assert ((t ← now clock; r ← lift_res (transition target t r);
      mret (M := M) (r <| r_retry_reasons ::= λ rs, rs ++ [reason] |>)) w = (inr r2, w1)) as Ec.
    { rewrite (bind_eq (now clock) _ w (clock (pl_readings w)) w1) by done. by rewrite E. }
    rewrite (bind_eq _ _ w r2 w1 Ec).
    apply transition_Ok in E as E'. destruct E' as [_ ->]. pose proof (transition_same _ _ _ _ E) as Hsame.
    assert (r_request_id r2 = r_request_id r0) as Hid by apply Hr0.
    assert (save_record r2 w1 = (inr tt, w1 <| pl_requests := Some (<[r_request_id r2 := r2]> s) |>)) as Esave.
    { apply save_record_spec; [done|]. rewrite Hid, Hin. by eexists. }
    rewrite (bind_eq _ _ w1 tt _ Esave). split; [same_queue|]. exists s. split; [done|]. exists r2.
    rewrite Hid. split; [done|]. split; [done|]. split; [done|]. split; [done|]. split; [exact Hr0|done].
  - assert ((t ← now clock; r ← lift_res (transition target t r);
      mret (M := M) (r <| r_retry_reasons ::= λ rs, rs ++ [reason] |>)) w = (inl (PErr e), w1)) as Ec.
    { rewrite (bind_eq (now clock) _ w (clock (pl_readings w)) w1) by done. by rewrite E. }
    rewrite (bind_raise _ _ w _ w1 Ec). split; [same_queue|]. exists s. by split_and!.
Qed.
Lemma handles_post r w out w' Q Q' : (∀ r', Q r' → Q' r') → handles r w out w' Q → handles r w out w' Q'.
Proof.
  intros HQ [Hg (s & Hs & Hout)]. split; [done|]. exists s. split; [done|].
  destruct out; [done|]. destruct Hout as (r' & ? & ? & ?). eauto.
Qed.
Lemma handles_from r w w1 out w' Q :
  grows w w1 → pl_requests w1 = pl_requests w → handles r w1 out w' Q → handles r w out w' Q.
Proof.
  intros Hg Hs [Hg' (s & Hs' & Hout)]. split; [by eapply grows_trans|]. exists s. by rewrite <- Hs.
Qed.
(** Enqueueing a new object. *)
Lemma queue_enqueue_spec w r q :
  pl_global_queue w = Some q →
  let l := fresh (dom (pl_heap w)) in let w1 := w <| pl_heap ::= <[l := r]> |> in
  match queue_enqueue clock l w1 with
  | (inr _, w2) => grows w w2 ∧ l ∈ dom (pl_heap w2) ∧ in_queue w2 l ∧ pl_requests w2 = pl_requests w ∧
      r_status (pl_heap w2 !!! l) = QUEUED ∧ same_request r (pl_heap w2 !!! l) ∧
      r_assigned_worker_id (pl_heap w2 !!! l) = r_assigned_worker_id r ∧
      r_attempt_count (pl_heap w2 !!! l) = r_attempt_count r ∧
      r_retry_reasons (pl_heap w2 !!! l) = r_retry_reasons r
  | (inl e, w2) => grows w w2 ∧ e ≠ PBlocked ∧ pl_requests w2 = pl_requests w
  end.
Proof.
  intros Hq l w1. assert (l ∉ dom (pl_heap w)) as Hl by apply is_fresh.
  assert (∀ h, (∀ l', l' ∈ dom (pl_heap w) → h !!! l' = pl_heap w !!! l') → dom (pl_heap w) ⊆ dom h →
    ∀ q' n, (pl_readings w <= n)%nat → (∀ t queue l', od_get t (fq_queues q) = Some queue → l' ∈ queue →
      ∃ queue', od_get t (fq_queues q') = Some queue' ∧ l' ∈ queue') →
    grows w (w <| pl_readings := n |> <| pl_heap := h |> <| pl_global_queue := Some q' |>)) as Hgrows.
  { intros h Hh Hd q' n Hn Hq'. split; [done|done| |by rewrite Hq|done]. intros l' (q0 & t & queue & Hq0 & Hg & Hin).
    rewrite Hq in Hq0. injection Hq0 as <-. destruct (Hq' _ _ _ Hg Hin) as (queue' & ? & ?).
    by exists q', t, queue'. }
  unfold queue_enqueue. change (pl_global_queue w1) with (pl_global_queue w). rewrite Hq. cbv zeta.
  set (w1' := w1 <| pl_readings ::= Datatypes.S |>). unfold enqueue.
  assert (pl_heap w1' !!! l = r) as Hr by apply lookup_total_insert_eq. rewrite Hr.
  assert (grows w w1') as Hg1.
  { split; cbn; [set_solver| | |done|lia].
    - intros l' Hl'. apply lookup_total_insert_ne. by intros <-.
    - intros l' Hin. exact Hin. }
  destruct (od_get _ (fq_queues q)) as [queue|] eqn:Hg; [|cbn; by split_and!].
  destruct (raise_if (negb _) _) as [[]|] eqn:Hadm; [|cbn; by split_and!]. cbn [mbind res_bind].
  destruct (raise_if (existsb _ _) _) as [[]|] eqn:Hdup; [|cbn; by split_and!]. cbn [mbind res_bind].
  apply raise_if_Ok, negb_false_iff, bool_decide_eq_true in Hadm.
  assert (∀ r', (if decide (r_status r = ADMITTED) then transition QUEUED (clock (pl_readings w1)) r else Ok r) = Ok r' →
    r_status r' = QUEUED ∧ same_request r r' ∧ r_assigned_worker_id r' = r_assigned_worker_id r ∧
    r_attempt_count r' = r_attempt_count r ∧ r_retry_reasons r' = r_retry_reasons r) as Hr'.
  { intros r'. case_decide; [|intros [= <-]; by split_and!; [tauto|..]].
    intros E. pose proof (transition_same _ _ _ _ E). apply transition_Ok in E as [_ ->]. by split_and!. }
  destruct (if decide _ then _ else _) as [r'|e]; [|cbn; by split_and!]. cbn [mbind res_bind].
  destruct (Hr' r' eq_refl) as (Hs & Hsame & Ha & Hc & Hreasons). split.
  { apply (Hgrows (<[l := r']> (<[l := r]> (pl_heap w)))).
    - intros l' Hl'. rewrite !lookup_total_insert_ne; [done|by intros <-..].
    - rewrite !dom_insert. set_solver.
    - cbn. lia.
    - intros t queue' l' Hg' Hin. cbn -[od_get od_set]. rewrite od_get_set. case_decide as Ht.
      + subst t. rewrite Hg in Hg'. injection Hg' as <-. exists (queue ++ [l]). split; [done|]. apply elem_of_app. by left.
      + by exists queue'. }
  cbn -[od_get od_set]. rewrite lookup_total_insert_eq. split_and!; try done.
  - rewrite !dom_insert. set_solver.
  - eexists _, (r_tenant_id r), (queue ++ [l]). split; [done|]. cbn -[od_get od_set].
    rewrite od_get_set_eq. split; [done|]. apply elem_of_app. right. by apply list_elem_of_singleton.
Qed.
(** A request given up from an unchanged store. *)
Lemma gives_up target reason r w w1 s :
  grows w w1 → pl_requests w1 = pl_requests w → pl_requests w = Some s → s !! r_request_id r = Some r →
  let out := (r ← end_copy clock target reason r; _ ← save_record r; mret (M := M) Failed) w1 in
  grows w1 out.2 ∧
  ∀ Q : RequestRecord → Prop, (∀ r', given_up target reason r r' → Q r') → handles r w out.1 out.2 Q.
Proof.
  intros Hg Heq Hs Hin out.
  assert (handles r w1 out.1 out.2 (given_up target reason r)) as Hh.
  { eapply handles_post; [|apply (end_copy_saves target reason r r w1 s); [by split_and!|by rewrite Heq|done]].
    cbv beta. intros r' (? & ? & ? & _). done. }
  split; [apply Hh|]. intros Q HQ. apply (handles_from _ _ w1); [done|done|]. by eapply handles_post.
Qed.
(** The test of the attempts and the deadline. *)
Lemma exhausted_eq k r w :
  let n := pl_readings w in let used_up := k <=? r_attempt_count r in
  (if used_up then mret (M := M) true else t ← now clock; mret (f_leb (r_deadline r) t)) w =
  (inr (used_up || expired clock n r), w <| pl_readings := if used_up then n else Datatypes.S n |>).
Proof. intros n used_up. destruct used_up; [by destruct w|done]. Qed.
Lemma recover_request_spec worker_id k r w s :
  pl_requests w = Some s → s !! r_request_id r = Some r →
  let out := recover_request clock worker_id k r w in
  handles r w out.1 out.2 (recovered_in worker_id k w out.2 r).
Proof.
  intros Hs Hin out. unfold recovered_in, recovered, out, recover_request.
  destruct (negb _ || r_terminal r) eqn:Hmine.
  { split; [apply grows_refl|]. exists s. split; [done|]. exists r. by rewrite insert_id. }
  destruct (execution_started r).
  { by apply (gives_up _ _ _ w w s (grows_refl w)). }
  destruct (negb (r_payload_available r)).
  { by apply (gives_up _ _ _ w w s (grows_refl w)). }
  rewrite (bind_eq _ _ w _ _ (exhausted_eq k r w)). set (n := pl_readings w).
  set (m := if k <=? r_attempt_count r then n else Datatypes.S n). set (w1 := w <| pl_readings := m |>).
  assert (n <= m)%nat as Hm by (unfold m; destruct (_ <=? _); lia).
  assert (grows w w1) as Hg1 by same_queue. destruct (_ || expired clock n r) eqn:Hover.
  { set (w2 := w1 <| pl_readings ::= Datatypes.S |>).
    rewrite (bind_eq (now clock) _ w1 (clock m) w2) by done. assert (grows w w2) as Hg2 by same_queue.
    change (f_leb (r_deadline r) (clock m)) with (expired clock m r).
    destruct (expired clock m r) eqn:Hexp.
    - destruct (gives_up TIMED_OUT "deadline_exhausted" r w w2 s Hg2 eq_refl Hs Hin) as [Hg3 HQ].
      apply HQ. intros r' Hr'. exists n. pose proof (gr_readings _ _ Hg3) as Hlt. cbn in Hlt.
      split; [lia|]. cbv zeta. rewrite Hover. fold m. by rewrite Hexp.
    - destruct (gives_up FAILED "retry_budget_exhausted" r w w2 s Hg2 eq_refl Hs Hin) as [Hg3 HQ].
      apply HQ. intros r' Hr'. exists n. pose proof (gr_readings _ _ Hg3) as Hlt. cbn in Hlt.
      split; [lia|]. cbv zeta. rewrite Hover. fold m. by rewrite Hexp. }
  set (requeue := (if bool_decide (r_status r = ASSIGNED) then _ else _) : M RequestRecord).
  assert (m = Datatypes.S n) as Hmn by (unfold m; by destruct (k <=? r_attempt_count r)).
  assert (match requeue w1 with
    | (inr r1, w2) => grows w1 w2 ∧ pl_requests w2 = Some s ∧ pl_global_queue w2 = pl_global_queue w ∧
        same_request r r1 ∧ r_attempt_count r1 = r_attempt_count r ∧ r_retry_reasons r1 = r_retry_reasons r
    | (inl e, w2) => grows w1 w2 ∧ pl_requests w2 = Some s ∧ e ≠ PBlocked end) as Hrq.
  { unfold requeue. destruct (bool_decide (r_status r = ASSIGNED)); [|cbn; split_and!; [same_queue|done..]].
    rewrite (bind_eq (now clock) _ w1 (clock m) (w1 <| pl_readings ::= Datatypes.S |>)) by done.
    destruct (transition QUEUED _ r) as [r1|e] eqn:E; cbn; [|split_and!; [same_queue|done..]].
    pose proof (transition_same _ _ _ _ E). apply transition_Ok in E as [_ ->]. split_and!; [same_queue|done..]. }
  destruct (requeue w1) as [[e|r1] w2] eqn:Erq.
  { rewrite (bind_raise _ _ w1 e w2 Erq). destruct Hrq as (Hg2 & ? & ?).
    split; [exact (grows_trans _ _ _ Hg1 Hg2)|]. by exists s. }
  rewrite (bind_eq _ _ w1 r1 w2 Erq). destruct Hrq as (Hg2 & Hs2 & Hq2 & Hsame & Hattempts & Hreasons). cbv zeta.
  set (r2 := r1 <| r_assigned_worker_id := None |> <| r_retry_reasons ::= _ |>).
  assert (same_request r r2) as Hsame2 by exact Hsame. pose proof (grows_trans _ _ _ Hg1 Hg2) as Hg02.
  rewrite (bind_eq (gets pl_global_queue) _ w2 (pl_global_queue w2) w2) by done.
  unfold has_queue. rewrite <- Hq2. destruct (pl_global_queue w2) as [q|] eqn:Hq.
  - rewrite (bind_eq _ _ w2 (fresh (dom (pl_heap w2))) (w2 <| pl_heap ::= <[fresh (dom (pl_heap w2)) := r2]> |>)) by done.
    pose proof (queue_enqueue_spec w2 r2 q Hq) as He. cbv zeta in He.
    set (l := fresh _) in *. set (w3 := w2 <| pl_heap ::= _ |>) in *.
    destruct (queue_enqueue clock l w3) as [[e|[]] w4] eqn:Ee.
    { rewrite (bind_raise _ _ w3 e w4 Ee). destruct He as (Hg4 & Hnb & Hs4).
      split; [by eapply grows_trans|]. exists s. split; [done|]. split; [done|]. exact (eq_trans Hs4 Hs2). }
    rewrite (bind_eq _ _ w3 tt w4 Ee). destruct He as (Hg4 & Hl & Hin4 & Hs4 & Hst & Hsame4 & Ha & Hc & Hrr).
    rewrite Hs2 in Hs4. assert (r_request_id (pl_heap w4 !!! l) = r_request_id r) as Hid
      by (destruct Hsame4 as [-> _]; apply Hsame2).
    assert (save l w4 = (inr tt, w4 <| pl_requests := Some (<[r_request_id r := pl_heap w4 !!! l]> s) |>)) as Esave.
    { unfold save, get_request. rewrite (bind_eq _ _ w4 (pl_heap w4 !!! l) w4) by done. rewrite <- Hid.
      apply save_record_spec; [done|]. rewrite Hid, Hin. by eexists. }
    rewrite (bind_eq _ _ w4 tt _ Esave). split.
    { eapply grows_trans; [exact Hg02|]. eapply grows_trans; [exact Hg4|]. same_queue. }
    exists s. split; [done|]. exists (pl_heap w4 !!! l). split; [done|]. split; [done|]. exists n.
    pose proof (gr_readings _ _ Hg2) as Hr2. pose proof (gr_readings _ _ Hg4) as Hr4. cbn in Hr2.
    split; [cbn; lia|]. cbv zeta. rewrite Hover. rewrite bool_decide_eq_true_2 by by eexists.
    split; [unfold same_request in *; destruct_and!; split_and!; congruence|].
    split_and!; [by rewrite Ha|by rewrite Hc|done|by exists l|]. by rewrite Hrr; cbn; rewrite Hreasons.
  - apply (handles_from _ _ w2); [done|by rewrite Hs2|].
    pose proof (end_copy_saves FAILED "global_retry_queue_unavailable" r2 r w2 s Hsame2 Hs2 Hin) as Hh.
    cbv zeta in Hh. eapply handles_post; [|exact Hh].
    cbv beta. intros r' (Hst & Hrr & Hsame' & Ha & Hc). exists n.
    pose proof (gr_readings _ _ Hg2) as Hr2. pose proof (gr_readings _ _ (proj1 Hh)) as Hr4. cbn in Hr2.
    split; [lia|]. cbv zeta. rewrite Hover. rewrite bool_decide_eq_false_2 by by intros [].
    split; [done|]. split; [by rewrite Ha|]. split_and!; [|done|].
    + by rewrite Hc.
    + rewrite Hrr. cbn. by rewrite Hreasons, <- app_assoc.
Qed.

(** ** All of them *)

Definition total (c : RecoveryCounts) : Z := rc_requeued c + rc_failed c + rc_untouched c.
Lemma total_tally o c : total (tally o c) = total c + 1.
Proof. unfold total. destruct o; simpl; lia. Qed.
(** What the loop makes of the requests [rs] of a store [s]. *)
Definition outcome worker_id k (rs : list RequestRecord) (s : gmap string RequestRecord) w
  (out : PlaneExc + RecoveryCounts) w' : Prop :=
  grows w w' ∧ ∃ s', pl_requests w' = Some s' ∧ (∀ i, i ∉ r_request_id <$> rs → s' !! i = s !! i) ∧
    ∀ r, r ∈ rs → ∃ r', s' !! r_request_id r = Some r' ∧
      (recovered_in worker_id k w w' r r' ∨ r' = r ∧ ∃ e, out = inl e).
Lemma recover_requests_spec worker_id k rs c w s :
  NoDup (r_request_id <$> rs) → (∀ r, r ∈ rs → s !! r_request_id r = Some r) → pl_requests w = Some s →
  let out := recover_requests clock worker_id k rs c w in
  outcome worker_id k rs s w out.1 out.2 ∧
  match out.1 with inr c' => total c' = total c + Z.of_nat (length rs) | inl e => e ≠ PBlocked end.
Proof.
  revert c w s. induction rs as [|r rs IH]; intros c w s Hnd Hin Hs; simpl.
  { split; [|lia]. split; [apply grows_refl|]. exists s. split_and!; [done|done|].
    intros r Hr. by apply not_elem_of_nil in Hr. }
  apply NoDup_cons in Hnd as [Hr Hnd].
  pose proof (recover_request_spec worker_id k r w s Hs (Hin r (list_elem_of_here _ _))) as Ho. cbv zeta in Ho.
  destruct (recover_request clock worker_id k r w) as [[e|o] w1] eqn:E.
  { rewrite (bind_raise _ _ w e w1 E). destruct Ho as [Hg (s0 & Hs0 & Hb & Hs1)].
    rewrite Hs in Hs0. injection Hs0 as <-. split; [|done]. split; [done|]. exists s. split_and!; [done|done|].
    intros r' Hr'. exists r'. split; [by apply Hin|]. right. split; [done|]. by exists e. }
  rewrite (bind_eq _ _ w o w1 E). destruct Ho as [Hg (s0 & Hs0 & r1 & Hs1 & Hid & Hrec)].
  rewrite Hs in Hs0. injection Hs0 as <-. cbn in Hs1, Hrec.
  destruct (IH (tally o c) w1 (<[r_request_id r := r1]> s) Hnd) as [[Hg2 (s2 & Hs2 & Hout & Hall)] Htot]; [|done|].
  { intros r' Hr'. rewrite lookup_insert_ne; [apply Hin; by right|]. intros Heq. apply Hr.
    rewrite Heq. by apply list_elem_of_fmap_2. }
  split.
  - split; [by eapply grows_trans|]. exists s2. split; [done|]. split.
    + intros i Hi. apply not_elem_of_cons in Hi as [Hne Hi]. rewrite Hout by done. by apply lookup_insert_ne, not_eq_sym.
    + intros r' [-> |Hr']%elem_of_cons.
      * exists r1. split; [rewrite Hout by done; apply lookup_insert_eq|].
        left. eapply recovered_grows; [apply grows_refl|exact Hg2|exact Hrec].
      * destruct (Hall r' Hr') as (r2 & Hr2 & [Hrec2|Hrec2]); exists r2; (split; [done|]); [left|by right].
        eapply recovered_grows; [exact Hg|apply grows_refl|exact Hrec2].
  - destruct (recover_requests _ _ _ _ _ _).1; [done|]. rewrite Htot, total_tally. lia.
Qed.
Lemma store_list_spec (m : gmap string RequestRecord) :
  (∀ i r, m !! i = Some r → r_request_id r = i) →
  NoDup (r_request_id <$> store_list m) ∧ (∀ r, r ∈ store_list m ↔ m !! r_request_id r = Some r) ∧
  length (store_list m) = size m.
Proof.
  intros Hk. unfold store_list. set (keys := sorted_by str_leb (map_to_list m).*1).
  assert (∀ i, i ∈ keys ↔ is_Some (m !! i)) as Hkeys.
  { intros i. unfold keys. rewrite elem_of_sorted_by. split.
    - intros ([j r] & -> & Hr%elem_of_map_to_list)%list_elem_of_fmap. by exists r.
    - intros [r Hr]. apply list_elem_of_fmap. exists (i, r). split; [done|]. by apply elem_of_map_to_list. }
  assert (r_request_id <$> omap (λ k, m !! k) keys = keys) as Hids.
  { assert (∀ ks : list string, (∀ i, i ∈ ks → is_Some (m !! i)) → r_request_id <$> omap (λ k, m !! k) ks = ks) as Hgen.
    { induction ks as [|i ks IH]; intros Hks; [done|]. destruct (Hks i (list_elem_of_here _ _)) as [r Hr].
      simpl. rewrite Hr. simpl. f_equal; [by apply Hk|]. apply IH. intros j Hj. apply Hks. by right. }
    apply Hgen. intros i. by rewrite Hkeys. }
  split_and!.
  - rewrite Hids. unfold keys. rewrite sorted_by_perm. apply NoDup_fst_map_to_list.
  - intros r. rewrite list_elem_of_omap. split.
    + intros (i & Hi & Hr). by rewrite (Hk i r Hr).
    + intros Hr. exists (r_request_id r). split; [|done]. apply Hkeys. by eexists.
  - rewrite <- (length_fmap r_request_id), Hids. unfold keys. rewrite length_sorted_by, length_fmap.
    apply length_map_to_list.
Qed.

(** *** When nothing is raised *)

(** A live request of the lost worker is in a state that an assigned request can be in, and its
    tenant's queue, if there is a global queue, takes it. *)
Definition recoverable worker_id w (r : RequestRecord) : Prop :=
  r_assigned_worker_id r = Some worker_id → r_terminal r = false →
  r_status r ∈ [QUEUED; ASSIGNED; RUNNING; STREAMING] ∧
  ∀ q, pl_global_queue w = Some q → ∃ queue, od_get (r_tenant_id r) (fq_queues q) = Some queue ∧
    ∀ l, l ∈ queue → ∃ r0, pl_heap w !! l = Some r0 ∧ r_request_id r0 ≠ r_request_id r.
(** The queue and the heap as they were, up to objects of [r]. *)
Definition only_adds (r : RequestRecord) w w' : Prop :=
  ∀ worker_id r2, r_request_id r2 ≠ r_request_id r → recoverable worker_id w r2 → recoverable worker_id w' r2.
Lemma only_adds_same r w w' :
  pl_heap w' = pl_heap w → pl_global_queue w' = pl_global_queue w → only_adds r w w'.
Proof. intros Hh Hq i r2 _. unfold recoverable. by rewrite Hh, Hq. Qed.
Lemma end_copy_returns target reason r r0 w s :
  target ∈ ALLOWED_REQUEST_TRANSITIONS (r_status r) → r_request_id r = r_request_id r0 →
  pl_requests w = Some s → s !! r_request_id r0 = Some r0 →
  ∃ w', (r ← end_copy clock target reason r; _ ← save_record r; mret (M := M) Failed) w = (inr Failed, w') ∧
    pl_heap w' = pl_heap w ∧ pl_global_queue w' = pl_global_queue w.
Proof.
  intros Ht Hid Hs Hin. set (w1 := w <| pl_readings ::= Datatypes.S |>).
  assert (transition target (clock (pl_readings w)) r = Ok (r <| r_status := target |>
    <| r_transition_timestamps ::= <[target := clock (pl_readings w)]> |>)) as Et by (by apply transition_Ok).
  set (r1 := r <| r_status := target |> <| r_transition_timestamps ::= _ |>) in Et.
  set (r2 := r1 <| r_retry_reasons ::= λ rs, rs ++ [reason] |>).
  assert (end_copy clock target reason r w = (inr r2, w1)) as Ec.
  { unfold end_copy. rewrite (bind_eq (now clock) _ w (clock (pl_readings w)) w1) by done. by rewrite Et. }
  rewrite (bind_eq _ _ w r2 w1 Ec).
  rewrite (bind_eq _ _ w1 tt _ (save_record_spec w1 s r2 Hs ltac:(change (r_request_id r2) with (r_request_id r);
    rewrite Hid, Hin; by eexists))).
  by eexists.
Qed.
Lemma queue_enqueue_returns w r q queue :
  pl_global_queue w = Some q → r_status r = QUEUED → od_get (r_tenant_id r) (fq_queues q) = Some queue →
  (∀ l, l ∈ queue → ∃ r0, pl_heap w !! l = Some r0 ∧ r_request_id r0 ≠ r_request_id r) →
  let l := fresh (dom (pl_heap w)) in let w1 := w <| pl_heap ::= <[l := r]> |> in
  ∃ w2, queue_enqueue clock l w1 = (inr tt, w2) ∧ pl_requests w2 = pl_requests w ∧
    pl_heap w2 = <[l := r]> (pl_heap w) ∧
    pl_global_queue w2 = Some (q <| fq_queues ::= od_set (r_tenant_id r) (queue ++ [l]) |>
                                 <| fq_active ::= FairQueue.activate (r_tenant_id r) |>).
Proof.
  intros Hq Hst Hg Hfresh l w1. assert (pl_heap w !! l = None) as Hl by apply not_elem_of_dom, is_fresh.
  unfold queue_enqueue. change (pl_global_queue w1) with (pl_global_queue w).
  rewrite Hq. cbv zeta. set (w1' := w1 <| pl_readings ::= Datatypes.S |>). unfold enqueue.
  assert (pl_heap w1' !!! l = r) as Hr by apply lookup_total_insert_eq. rewrite Hr, Hg.
  rewrite (bool_decide_eq_true_2 (_ ∨ _)) by by right. cbn [negb raise_if mbind res_bind].
  assert (existsb (λ l', bool_decide (r_request_id (pl_heap w1' !!! l') = r_request_id r)) queue = false) as ->.
  { apply not_true_iff_false. intros (l' & Hl'%list_elem_of_In & Heq%bool_decide_eq_true)%existsb_exists.
    destruct (Hfresh l' Hl') as (r0 & Hr0 & Hne). apply Hne. rewrite <- Heq. f_equal. symmetry.
    apply lookup_total_correct. cbn. rewrite lookup_insert_ne; [done|]. congruence. }
  cbn [raise_if mbind res_bind]. rewrite decide_False by by rewrite Hst. cbn [mbind res_bind].
  eexists. split; [done|]. split; [done|]. split; [|done]. cbn. by rewrite insert_insert_eq.
Qed.
(** Every state in which a request that is not ended may be given up. *)
Lemma gives_up_allowed r target :
  r_status r ∈ [QUEUED; ASSIGNED; RUNNING; STREAMING] → target ∈ [FAILED; TIMED_OUT] →
  target ∈ ALLOWED_REQUEST_TRANSITIONS (r_status r).
Proof.
  intros Hs Ht. apply (bool_decide_unpack _).
  repeat (apply elem_of_cons in Hs as [-> |Hs];
    [repeat (apply elem_of_cons in Ht as [-> |Ht]; [vm_compute; exact I|]); by apply not_elem_of_nil in Ht|]).
  by apply not_elem_of_nil in Hs.
Qed.
Lemma recover_request_returns worker_id k r w s :
  pl_requests w = Some s → s !! r_request_id r = Some r → recoverable worker_id w r →
  ∃ o w', recover_request clock worker_id k r w = (inr o, w') ∧ only_adds r w w'.
Proof.
  intros Hs Hin Hrec. unfold recover_request.
  destruct (negb _ || r_terminal r) eqn:Hmine; [eexists _, w; split; [done|by apply only_adds_same]|].
  apply orb_false_iff in Hmine as [Hmine%negb_false_iff%bool_decide_eq_true Hlive].
  destruct (Hrec Hmine Hlive) as [Hst Hqueue]. clear Hrec.
  assert (∀ target reason w1, target ∈ [FAILED; TIMED_OUT] → pl_requests w1 = Some s → pl_heap w1 = pl_heap w →
    pl_global_queue w1 = pl_global_queue w →
    ∃ o w', (r ← end_copy clock target reason r; _ ← save_record r; mret (M := M) Failed) w1 = (inr o, w') ∧
      only_adds r w w') as Hend.
  { intros target reason w1 Ht Hs1 Hh Hq.
    destruct (end_copy_returns target reason r r w1 s) as (w' & E & Hh' & Hq'); [by apply gives_up_allowed|done..|].
    exists Failed, w'. split; [done|]. apply only_adds_same; congruence. }
  destruct (execution_started r) eqn:Hstarted; [apply Hend; [set_solver|done..]|].
  destruct (negb (r_payload_available r)); [apply Hend; [set_solver|done..]|].
  rewrite (bind_eq _ _ w _ _ (exhausted_eq k r w)). destruct (_ || expired clock _ r).
  { match goal with |- context [(now clock ≫= _) ?w1] =>
      rewrite (bind_eq (now clock) _ w1 _ (w1 <| pl_readings ::= Datatypes.S |>) eq_refl) end.
    destruct (f_leb _ _); (apply Hend; [set_solver|done..]). }
  set (w1 := w <| pl_readings := _ |>).
  set (requeue := (if bool_decide (r_status r = ASSIGNED) then _ else _) : M RequestRecord).
  assert (∃ r1 w2, requeue w1 = (inr r1, w2) ∧ r_status r1 = QUEUED ∧ same_request r r1 ∧
    pl_requests w2 = Some s ∧ pl_heap w2 = pl_heap w ∧ pl_global_queue w2 = pl_global_queue w)
    as (r1 & w2 & Erq & Hst1 & Hsame & Hs2 & Hh2 & Hq2).
  { unfold requeue. case_bool_decide as Hass.
    - set (t := clock (pl_readings w1)). set (w2 := w1 <| pl_readings ::= Datatypes.S |>).
      exists (r <| r_status := QUEUED |> <| r_transition_timestamps ::= <[QUEUED := t]> |>), w2.
      rewrite (bind_eq (now clock) _ w1 t w2) by done.
      assert (transition QUEUED t r = Ok (r <| r_status := QUEUED |> <| r_transition_timestamps ::= <[QUEUED := t]> |>))
        as -> by (apply transition_Ok; rewrite Hass; split; [set_solver|done]). done.
    - exists r, w1. split; [done|]. split; [|done]. unfold execution_started in Hstarted.
      apply orb_false_iff in Hstarted as [Hstarted _]. apply orb_false_iff in Hstarted as [Hno%bool_decide_eq_false _].
      repeat (apply elem_of_cons in Hst as [Hst|Hst]; [by tauto|]). by apply not_elem_of_nil in Hst. }
  rewrite (bind_eq _ _ w1 r1 w2 Erq). cbv zeta.
  set (r2 := r1 <| r_assigned_worker_id := None |> <| r_retry_reasons ::= _ |>).
  rewrite (bind_eq (gets pl_global_queue) _ w2 (pl_global_queue w2) w2) by done.
  pose proof Hsame as (Hid & Htenant & _).
  destruct (pl_global_queue w2) as [q|] eqn:Hq.
  - rewrite (bind_eq _ _ w2 (fresh (dom (pl_heap w2))) (w2 <| pl_heap ::= <[fresh (dom (pl_heap w2)) := r2]> |>)) by done.
    destruct (Hqueue q) as (queue & Hg & Hfresh); [congruence|].
    destruct (queue_enqueue_returns w2 r2 q queue Hq Hst1) as (w3 & E3 & Hs3 & Hh3 & Hq3).
    { change (r_tenant_id r2) with (r_tenant_id r1). by rewrite Htenant. }
    { intros l Hl. rewrite Hh2. change (r_request_id r2) with (r_request_id r1). rewrite Hid. by apply Hfresh. }
    set (l := fresh _) in *. rewrite (bind_eq _ _ _ tt w3 E3).
    assert (pl_heap w3 !!! l = r2) as Hl by (rewrite Hh3; apply lookup_total_insert_eq).
    assert (save l w3 = (inr tt, w3 <| pl_requests := Some (<[r_request_id r2 := r2]> s) |>)) as Esave.
    { unfold save, get_request. rewrite (bind_eq _ _ w3 (pl_heap w3 !!! l) w3) by done. rewrite Hl.
      apply save_record_spec; [congruence|]. change (r_request_id r2) with (r_request_id r1). rewrite Hid, Hin. by eexists. }
    rewrite (bind_eq _ _ w3 tt _ Esave). eexists _, _. split; [done|].
    intros i r3 Hne Hr3 Hm3 Hlive3. destruct (Hr3 Hm3 Hlive3) as [Hst3 Hq3']. split; [done|]. cbn.
    rewrite Hq3, Hh3. intros q' [= <-]. destruct (Hq3' q) as (queue3 & Hg3 & Hfresh3); [congruence|].
    assert (∀ l', l' ∈ queue3 → ∃ r0, <[l := r2]> (pl_heap w2) !! l' = Some r0 ∧ r_request_id r0 ≠ r_request_id r3) as Hold.
    { intros l' Hl'. destruct (decide (l = l')) as [<-|Hll].
      - exists r2. rewrite lookup_insert_eq. split; [done|]. change (r_request_id r2) with (r_request_id r1). congruence.
      - rewrite lookup_insert_ne by done. rewrite Hh2. by apply Hfresh3. }
    cbn -[od_get od_set]. rewrite od_get_set. case_decide as Ht; [|by exists queue3].
    exists (queue ++ [l]). split; [done|]. intros l' [Hl'| ->%list_elem_of_singleton]%elem_of_app.
    + apply Hold. change (r_tenant_id r2) with (r_tenant_id r1) in Ht. rewrite Ht, Htenant, Hg in Hg3. by injection Hg3 as <-.
    + exists r2. rewrite lookup_insert_eq. split; [done|]. change (r_request_id r2) with (r_request_id r1). congruence.
  - destruct (end_copy_returns FAILED "global_retry_queue_unavailable" r2 r w2 s) as (w' & E & Hh' & Hq');
      [|done..|].
    { change (r_status r2) with (r_status r1). rewrite Hst1. set_solver. }
    exists Failed, w'. split; [done|]. apply only_adds_same; congruence.
Qed.
Lemma recover_requests_returns worker_id k rs c w s :
  NoDup (r_request_id <$> rs) → (∀ r, r ∈ rs → s !! r_request_id r = Some r) → pl_requests w = Some s →
  (∀ r, r ∈ rs → recoverable worker_id w r) → ∃ c' w', recover_requests clock worker_id k rs c w = (inr c', w').
Proof.
  revert c w s. induction rs as [|r rs IH]; intros c w s Hnd Hin Hs Hrec; simpl; [by eexists _, _|].
  apply NoDup_cons in Hnd as [Hr Hnd]. pose proof (Hin r (list_elem_of_here _ _)) as Hr0.
  destruct (recover_request_returns worker_id k r w s Hs Hr0 (Hrec r (list_elem_of_here _ _))) as (o & w1 & E & Hadds).
  pose proof (recover_request_spec worker_id k r w s Hs Hr0) as [_ (s0 & Hs0 & Hout)]. rewrite E in Hout.
  rewrite (bind_eq _ _ w o w1 E). destruct Hout as (r1 & Hs1 & Hid & _). rewrite Hs in Hs0. injection Hs0 as <-.
  assert (∀ r', r' ∈ rs → r_request_id r' ≠ r_request_id r) as Hne.
  { intros r' Hr' Heq. apply Hr. rewrite <- Heq. by apply list_elem_of_fmap_2. }
  apply (IH _ w1 (<[r_request_id r := r1]> s)); [done| |done|].
  - intros r' Hr'. rewrite lookup_insert_ne; [apply Hin; by right|]. by apply not_eq_sym, Hne.
  - intros r' Hr'. apply Hadds; [by apply Hne|]. apply Hrec. by right.
Qed.

(** C13: Recovery after the loss of a worker treats every stored request as its history demands: the
    requests of other workers and the ended ones are left alone; one that had started executing is
    never replayed but fails; one whose payload is gone fails; one whose attempts are used up or whose
    deadline has passed when it is its turn is given up, as timed out if the deadline has passed and as
    failed otherwise; and every other one, and only those, goes back unassigned and with the same
    attempts to the global queue (or fails if there is none). The call returns, with counts that cover
    every stored request, when the tenants of the worker's live requests are configured in the queue
    and none of these requests is queued already; otherwise it may raise, and then each record was
    either treated so or is unchanged. *)
Theorem recover_failed_worker_correct worker_id max_attempts store w out w' :
  0 < max_attempts → pl_requests w = Some store → (∀ i r, store !! i = Some r → r_request_id r = i) →
  recover_failed_worker clock worker_id max_attempts w = (out, w') →
  ∃ store', pl_requests w' = Some store' ∧ (∀ i, store !! i = None → store' !! i = None) ∧
    (∀ i r, store !! i = Some r → ∃ r', store' !! i = Some r' ∧
       (recovered clock worker_id max_attempts (has_queue w) (queued_record w')
          (pl_readings w) (pl_readings w') r r' ∨ r' = r ∧ ∃ e, out = inl e)) ∧
    match out with
    | inr c => rc_requeued c + rc_failed c + rc_untouched c = Z.of_nat (size store)
    | inl e => e ≠ PBlocked
    end ∧
    ((∀ i r, store !! i = Some r → recoverable worker_id w r) → ∃ c, out = inr c).
Proof.
  intros Hmax Hs Hk E. unfold recover_failed_worker in E.
  assert ((max_attempts <=? 0) = false) as Hm by lia. rewrite Hm in E.
  set (missing := "request state store is required for worker recovery") in E.
  assert (request_store missing w = (inr store, w)) as Estore.
  { unfold request_store. rewrite (bind_eq _ _ w (Some store) w) by (unfold gets; by rewrite Hs). done. }
  rewrite (bind_eq _ _ w store w Estore) in E. set (w1 := w <| pl_directory ::= delete worker_id |>).
  rewrite (bind_eq (directory_remove worker_id) _ w tt w1) in E by done.
  destruct (store_list_spec store Hk) as (Hnd & Hin & Hlen).
  destruct (recover_requests_spec worker_id max_attempts (store_list store) (mkCounts 0 0 0) w1 store Hnd)
    as [[_ (s' & Hs' & Hout & Hall)] Htot]; [intros r; by rewrite Hin|done|].
  assert ((∀ i r, store !! i = Some r → recoverable worker_id w r) → ∃ c, out = inr c) as Hret.
  { intros Hrec. destruct (recover_requests_returns worker_id max_attempts (store_list store) (mkCounts 0 0 0) w1 store Hnd)
      as (c & w2 & E2); [intros r; by rewrite Hin|done| |rewrite E in E2; injection E2 as ->; by exists c].
    intros r Hr. apply (Hrec (r_request_id r)). by apply Hin. }
  rewrite E in *. cbn in *. exists s'. split; [done|]. split.
  { intros i Hi. rewrite Hout; [done|]. intros (r & -> & Hr)%list_elem_of_fmap. apply Hin in Hr. congruence. }
  split; [intros i r Hi; pose proof (Hk i r Hi) as <-; apply Hall; by apply Hin|].
  split; [destruct out; [done|]; unfold total in Htot; cbn in Htot; rewrite Hlen in Htot; lia|exact Hret].
Qed.
End recovery.

(** ** A recovery *)

(** A request that was running, one that was only assigned, one of another worker, one that was assigned
    and whose deadline has passed. *)
Definition lost_request (id worker_id : string) (status : RequestState) (deadline : Z) : RequestRecord :=
  mkRequest id "tenant-a" "m" "hello" 3 4 0 (f_of_Z deadline) false f_zero f_zero status (Some worker_id) 1 [] true
    {[QUEUED := f_zero; status := f_zero]}.
Definition lost_requests : list RequestRecord :=
  [lost_request "a" "w1" RUNNING 100; lost_request "b" "w1" ASSIGNED 100; lost_request "c" "w2" ASSIGNED 100;
   lost_request "d" "w1" ASSIGNED 1].
Definition lost_store : InMemoryRequestStateStore := list_to_map ((λ r, (r_request_id r, r)) <$> lost_requests).
Definition lost_queue : FairQueue :=
  mkFairQueue [("tenant-a", mkTenant "tenant-a" 4 4 100 1)] 128 (f_of_Z 1) [("tenant-a", [])] {["tenant-a" := 0]} [].
Definition lost_plane : Plane unit unit unit :=
  mkPlane ∅ (mkWorkerRegistry (f_of_Z 30) (f_of_Z 10) ∅) tt None ∅ None (Some lost_store) (Some lost_queue)
    (mkAdmission ∅ 4 ∅ ∅ ∅ ∅) None None 0.
Definition lost_result := recover_failed_worker (λ _, f_of_Z 1) "w1" 3 lost_plane.
Lemma lost_store_elem i r : lost_store !! i = Some r → r_request_id r = i ∧ r ∈ lost_requests.
Proof.
  intros Hr%elem_of_list_to_map_2. apply list_elem_of_fmap in Hr as (r' & [= -> ->] & Hr). done.
Qed.
Lemma lost_recoverable i r : lost_store !! i = Some r → recoverable "w1" lost_plane r.
Proof.
  intros [_ Hr]%lost_store_elem _ _. split.
  - repeat (apply elem_of_cons in Hr as [-> |Hr]; [apply (bool_decide_unpack _); vm_compute; exact I|]).
    by apply not_elem_of_nil in Hr.
  - intros q [= <-]. exists []. split; [|by intros l ?%not_elem_of_nil].
    repeat (apply elem_of_cons in Hr as [-> |Hr]; [reflexivity|]). by apply not_elem_of_nil in Hr.
Qed.
Lemma recover_failed_worker_correct_witness :
  (∃ store', pl_requests lost_result.2 = Some store' ∧
    ∃ r', store' !! "d" = Some r' ∧ r_status r' = TIMED_OUT) ∧
  lost_result.1 = inr (mkCounts 1 2 1) ∧ ∃ c, lost_result.1 = inr c.
Proof.
  destruct (recover_failed_worker_correct (λ _, f_of_Z 1) "w1" 3 lost_store lost_plane lost_result.1 lost_result.2
    ltac:(lia) ltac:(reflexivity) ltac:(intros i r Hr; apply (lost_store_elem i r Hr)) (surjective_pairing _))
    as (store' & Hs & _ & Hall & _ & Hret).
  split; [|split; [vm_compute; reflexivity|exact (Hret lost_recoverable)]].
  exists store'. split; [exact Hs|].
  destruct (Hall "d" (lost_request "d" "w1" ASSIGNED 1)) as (r' & Hr' & Hd); [reflexivity|].
  exists r'. split; [exact Hr'|]. assert (lost_result.1 = inr (mkCounts 1 2 1)) as Hout by (vm_compute; reflexivity).
  destruct Hd as [(n & _ & Hd)|(_ & e & He)]; [|rewrite Hout in He; discriminate He].
  exact (proj1 Hd).
Defined.
