(* ===== verification/Wire.v ===== *)
(** [apps/worker/serialization.py]: the wire form of models, workers, requests, capacities and
    results between the control plane and a worker process. *)
From S2P Require Import Prelude PyContainers PyFloat Domain Json Worker.
From Stdlib Require String.

#[local] Open Scope string_scope.
#[local] Open Scope list_scope.
#[local] Open Scope Z_scope.

(** ** Python's conversions of a decoded value *)

(** [payload.get(key, default)]. *)
Definition jget_or (key : string) (other : json) (j : json) : res json :=
  match j with
  | JObj fields => Ok (default other (od_get key fields))
  | _ => Err (TypeError "not a dictionary")
  end.
(** A field that is taken as it is; its declared type is part of the model. *)
Definition raw {A} (f : json → res A) (j : json) : res A :=
  match f j with Ok a => Ok a | Err _ => Err (TypeError "field of another type") end.
Definition py_bool (j : json) : bool :=
  match j with
  | JNull => false
  | JBool b => b
  | JInt n => negb (n =? 0)
  | JFloat x => f_truthy x
  | JStr s => negb (str_empty s)
  | JList l => negb (Nat.eqb (length l) 0)
  | JObj fields => negb (Nat.eqb (length fields) 0)
  end.

Section wire.
(** [str(x)] of a value that is not a string, and the numeric parsers of [int] and [float] on
    strings. *)
Context (show : json → string) (int_of_str : string → res Z) (float_of_str : string → res float).

Definition py_str (j : json) : string := match j with JStr s => s | _ => show j end.
Definition py_int (j : json) : res Z :=
  match j with
  | JInt n => Ok n
  | JBool b => Ok (if b then 1 else 0)
  | JFloat x =>
    if f_is_nan x then Err (ValueError "cannot convert float NaN to integer")
    else if negb (f_isfinite x) then Err (OverflowError "cannot convert float infinity to integer")
    else Ok (f_trunc x)
  | JStr s => int_of_str s
  | _ => Err (TypeError "int() argument must be a string or a real number")
  end.
Definition py_float (j : json) : res float :=
  match j with
  | JFloat x => Ok x
  | JInt n => if f_isfinite (f_of_Z n) then Ok (f_of_Z n)
              else Err (OverflowError "int too large to convert to float")
  | JBool b => Ok (f_of_Z (if b then 1 else 0))
  | JStr s => float_of_str s
  | _ => Err (TypeError "float() argument must be a string or a real number")
  end.
(** [Enum(value)] of a decoded value. *)
Definition py_enum {E} (value : E → string) (all : list E) (j : json) : res E :=
  match j with JStr s => enum_of_value value all s | _ => Err (ValueError "not a valid enumeration value") end.

(** *** Models *)

Definition model_to_dict (m : ModelDefinition) : json :=
  JObj
    [("model_id", JStr (m_model_id m));
     ("revision", JStr (m_revision m));
     ("runtime_type", JStr (RuntimeType_value (m_runtime_type m)));
     ("estimated_memory_bytes", JInt (m_estimated_memory_bytes m));
     ("supported_dtypes", JList (JStr <$> m_supported_dtypes m));
     ("default_dtype", JStr (m_default_dtype m));
     ("max_context_tokens", JInt (m_max_context_tokens m));
     ("max_batch_tokens", JInt (m_max_batch_tokens m));
     ("supports_streaming", JBool (m_supports_streaming m));
     ("supports_cancellation", JBool (m_supports_cancellation m));
     ("load_timeout_seconds", JFloat (m_load_timeout_seconds m));
     ("idle_eviction_seconds", JFloat (m_idle_eviction_seconds m))].
Definition model_from_dict (payload : json) : res ModelDefinition :=
  model_id ← jget "model_id" payload;
  revision ← jget "revision" payload;
  runtime_type ← (jget "runtime_type" payload ≫= py_enum RuntimeType_value all_RuntimeType);
  estimated_memory_bytes ← (jget "estimated_memory_bytes" payload ≫= py_int);
  supported_dtypes ← (jget "supported_dtypes" payload ≫= raw jlist);
  supported_dtypes ← mapR (raw jstr) supported_dtypes;
  default_dtype ← jget "default_dtype" payload;
  max_context_tokens ← (jget "max_context_tokens" payload ≫= py_int);
  max_batch_tokens ← (jget "max_batch_tokens" payload ≫= py_int);
  supports_streaming ← jget "supports_streaming" payload;
  supports_cancellation ← jget "supports_cancellation" payload;
  load_timeout_seconds ← (jget "load_timeout_seconds" payload ≫= py_float);
  idle_eviction_seconds ← (jget "idle_eviction_seconds" payload ≫= py_float);
  ModelDefinition_post_init
    (mkModel (py_str model_id) (py_str revision) runtime_type estimated_memory_bytes supported_dtypes
       (py_str default_dtype) max_context_tokens max_batch_tokens (py_bool supports_streaming)
       (py_bool supports_cancellation) load_timeout_seconds idle_eviction_seconds).

(** *** Worker states *)

Definition worker_state_to_dict (w : WorkerState) : json :=
  JObj
    [("worker_id", JStr (w_worker_id w));
     ("device_type", JStr (DeviceType_value (w_device_type w)));
     ("device_name", JStr (w_device_name w));
     ("total_memory_bytes", jof_opt JInt (w_total_memory_bytes w));
     ("available_memory_bytes", jof_opt JInt (w_available_memory_bytes w));
     ("resident_models", JList (JStr <$> sorted_by str_leb (elements (w_resident_models w))));
     ("loading_models", JList (JStr <$> sorted_by str_leb (elements (w_loading_models w))));
     ("queue_depth", JInt (w_queue_depth w));
     ("active_batch_count", JInt (w_active_batch_count w));
     ("max_concurrency", JInt (w_max_concurrency w));
     ("recent_tokens_per_second", JFloat (w_recent_tokens_per_second w));
     ("health_status", JStr (HealthStatus_value (w_health_status w)));
     ("draining", JBool (w_draining w));
     ("last_heartbeat", JFloat (w_last_heartbeat w));
     ("allocated_memory_bytes", jof_opt JInt (w_allocated_memory_bytes w));
     ("reserved_memory_bytes", jof_opt JInt (w_reserved_memory_bytes w));
     ("gpu_index", jof_opt JInt (w_gpu_index w));
     ("compute_capability", jof_opt JStr (w_compute_capability w));
     ("driver_version", jof_opt JStr (w_driver_version w));
     ("runtime_version", jof_opt JStr (w_runtime_version w));
     ("heartbeat_sequence", JInt (w_heartbeat_sequence w));
     ("consecutive_failures", JInt (w_consecutive_failures w));
     ("last_error_code", jof_opt JStr (w_last_error_code w));
     ("node_id", jof_opt JStr (w_node_id w));
     ("numa_node", jof_opt JInt (w_numa_node w));
     ("pcie_root_id", jof_opt JStr (w_pcie_root_id w));
     ("fabric_id", jof_opt JStr (w_fabric_id w))].
Definition string_set (j : json) : res (gset string) :=
  l ← raw jlist j; l ← mapR (raw jstr) l; Ok (list_to_set l).
Definition worker_state_from_dict (payload : json) : res WorkerState :=
  worker_id ← jget "worker_id" payload;
  device_type ← (jget "device_type" payload ≫= py_enum DeviceType_value all_DeviceType);
  device_name ← jget "device_name" payload;
  total_memory_bytes ← (jget "total_memory_bytes" payload ≫= raw (jopt jint));
  available_memory_bytes ← (jget "available_memory_bytes" payload ≫= raw (jopt jint));
  resident_models ← (jget "resident_models" payload ≫= string_set);
  loading_models ← (jget "loading_models" payload ≫= string_set);
  queue_depth ← (jget "queue_depth" payload ≫= py_int);
  active_batch_count ← (jget "active_batch_count" payload ≫= py_int);
  max_concurrency ← (jget "max_concurrency" payload ≫= py_int);
  recent_tokens_per_second ← (jget "recent_tokens_per_second" payload ≫= py_float);
  health_status ← (jget "health_status" payload ≫= py_enum HealthStatus_value all_HealthStatus);
  draining ← jget "draining" payload;
  last_heartbeat ← (jget "last_heartbeat" payload ≫= py_float);
  allocated_memory_bytes ← (jget "allocated_memory_bytes" payload ≫= raw (jopt jint));
  reserved_memory_bytes ← (jget "reserved_memory_bytes" payload ≫= raw (jopt jint));
  gpu_index ← (jget_or "gpu_index" JNull payload ≫= raw (jopt jint));
  compute_capability ← (jget_or "compute_capability" JNull payload ≫= raw (jopt jstr));
  driver_version ← (jget_or "driver_version" JNull payload ≫= raw (jopt jstr));
  runtime_version ← (jget_or "runtime_version" JNull payload ≫= raw (jopt jstr));
  heartbeat_sequence ← (jget_or "heartbeat_sequence" (JInt 0) payload ≫= py_int);
  consecutive_failures ← (jget_or "consecutive_failures" (JInt 0) payload ≫= py_int);
  last_error_code ← (jget_or "last_error_code" JNull payload ≫= raw (jopt jstr));
  node_id ← (jget_or "node_id" JNull payload ≫= raw (jopt jstr));
  numa_node ← (jget_or "numa_node" JNull payload ≫= raw (jopt jint));
  pcie_root_id ← (jget_or "pcie_root_id" JNull payload ≫= raw (jopt jstr));
  fabric_id ← (jget_or "fabric_id" JNull payload ≫= raw (jopt jstr));
  WorkerState_post_init
    (mkWorker (py_str worker_id) device_type (py_str device_name) total_memory_bytes
       available_memory_bytes resident_models loading_models queue_depth active_batch_count
       max_concurrency recent_tokens_per_second health_status (py_bool draining) last_heartbeat
       allocated_memory_bytes reserved_memory_bytes gpu_index compute_capability driver_version
       runtime_version heartbeat_sequence consecutive_failures last_error_code node_id numa_node
       pcie_root_id fabric_id).

(** *** Requests *)

(** The items of [transition_timestamps]; the model keeps that dictionary as a finite map. *)
Definition timestamps_to_dict (ts : gmap RequestState float) : list (string * json) :=
  (λ p, (RequestState_value p.1, JFloat p.2)) <$> map_to_list ts.
Fixpoint timestamps_from_dict (items : list (string * json)) (ts : gmap RequestState float)
  : res (gmap RequestState float) :=
  match items with
  | [] => Ok ts
  | (state, timestamp) :: items =>
    s ← enum_of_value RequestState_value all_RequestState state;
    x ← py_float timestamp;
    timestamps_from_dict items (<[s := x]> ts)
  end.
Definition request_to_dict (r : RequestRecord) : json :=
  JObj
    [("request_id", JStr (r_request_id r));
     ("tenant_id", JStr (r_tenant_id r));
     ("model_id", JStr (r_model_id r));
     ("prompt", JStr (r_prompt r));
     ("prompt_tokens", JInt (r_prompt_tokens r));
     ("max_new_tokens", JInt (r_max_new_tokens r));
     ("priority", JInt (r_priority r));
     ("deadline", if f_isfinite (r_deadline r) then JFloat (r_deadline r) else JNull);
     ("stream", JBool (r_stream r));
     ("temperature", JFloat (r_temperature r));
     ("created_at", JFloat (r_created_at r));
     ("status", JStr (RequestState_value (r_status r)));
     ("assigned_worker_id", jof_opt JStr (r_assigned_worker_id r));
     ("attempt_count", JInt (r_attempt_count r));
     ("retry_reasons", JList (JStr <$> r_retry_reasons r));
     ("payload_available", JBool (r_payload_available r));
     ("transition_timestamps", JObj (timestamps_to_dict (r_transition_timestamps r)))].
Definition request_from_dict (payload : json) : res RequestRecord :=
  request_id ← jget "request_id" payload;
  tenant_id ← jget "tenant_id" payload;
  model_id ← jget "model_id" payload;
  prompt ← jget "prompt" payload;
  prompt_tokens ← (jget "prompt_tokens" payload ≫= py_int);
  max_new_tokens ← (jget "max_new_tokens" payload ≫= py_int);
  priority ← (jget "priority" payload ≫= py_int);
  deadline ← jget "deadline" payload;
  deadline ← match deadline with JNull => Ok f_inf | _ => py_float deadline end;
  stream ← jget "stream" payload;
  temperature ← (jget "temperature" payload ≫= py_float);
  created_at ← (jget "created_at" payload ≫= py_float);
  status ← (jget "status" payload ≫= py_enum RequestState_value all_RequestState);
  assigned_worker_id ← (jget "assigned_worker_id" payload ≫= raw (jopt jstr));
  attempt_count ← (jget "attempt_count" payload ≫= py_int);
  retry_reasons ← (jget "retry_reasons" payload ≫= raw jlist);
  retry_reasons ← mapR (raw jstr) retry_reasons;
  payload_available ← jget "payload_available" payload;
  items ← (jget "transition_timestamps" payload ≫= raw jobj);
  transition_timestamps ← timestamps_from_dict items ∅;
  RequestRecord_post_init
    (mkRequest (py_str request_id) (py_str tenant_id) (py_str model_id) (py_str prompt) prompt_tokens
       max_new_tokens priority deadline (py_bool stream) temperature created_at status
       assigned_worker_id attempt_count retry_reasons (py_bool payload_available)
       transition_timestamps).
(** The fields that a worker may have changed, taken over from its copy. *)
Definition adopt (restored request : RequestRecord) : RequestRecord :=
  request <| r_status := r_status restored |>
          <| r_assigned_worker_id := r_assigned_worker_id restored |>
          <| r_attempt_count := r_attempt_count restored |>
          <| r_retry_reasons := r_retry_reasons restored |>
          <| r_payload_available := r_payload_available restored |>
          <| r_transition_timestamps := r_transition_timestamps restored |>.
Definition apply_request_dict (request : RequestRecord) (payload : json) : res RequestRecord :=
  restored ← request_from_dict payload; Ok (adopt restored request).

(** *** Capacities and results *)

Definition capacity_to_dict (c : RuntimeCapacity) : json :=
  JObj
    [("device_type", JStr (DeviceType_value (cp_device_type c)));
     ("device_name", JStr (cp_device_name c));
     ("total_memory_bytes", jof_opt JInt (cp_total_memory_bytes c));
     ("available_memory_bytes", jof_opt JInt (cp_available_memory_bytes c));
     ("allocated_memory_bytes", jof_opt JInt (cp_allocated_memory_bytes c));
     ("reserved_memory_bytes", jof_opt JInt (cp_reserved_memory_bytes c));
     ("device_index", jof_opt JInt (cp_device_index c));
     ("compute_capability", jof_opt JStr (cp_compute_capability c));
     ("driver_version", jof_opt JStr (cp_driver_version c));
     ("runtime_version", jof_opt JStr (cp_runtime_version c));
     ("numa_node", jof_opt JInt (cp_numa_node c));
     ("pcie_root_id", jof_opt JStr (cp_pcie_root_id c));
     ("fabric_id", jof_opt JStr (cp_fabric_id c))].
Definition capacity_from_dict (payload : json) : res RuntimeCapacity :=
  device_type ← (jget "device_type" payload ≫= py_enum DeviceType_value all_DeviceType);
  device_name ← jget "device_name" payload;
  total_memory_bytes ← (jget "total_memory_bytes" payload ≫= raw (jopt jint));
  available_memory_bytes ← (jget "available_memory_bytes" payload ≫= raw (jopt jint));
  allocated_memory_bytes ← (jget "allocated_memory_bytes" payload ≫= raw (jopt jint));
  reserved_memory_bytes ← (jget "reserved_memory_bytes" payload ≫= raw (jopt jint));
  device_index ← (jget_or "device_index" JNull payload ≫= raw (jopt jint));
  compute_capability ← (jget_or "compute_capability" JNull payload ≫= raw (jopt jstr));
  driver_version ← (jget_or "driver_version" JNull payload ≫= raw (jopt jstr));
  runtime_version ← (jget_or "runtime_version" JNull payload ≫= raw (jopt jstr));
  numa_node ← (jget_or "numa_node" JNull payload ≫= raw (jopt jint));
  pcie_root_id ← (jget_or "pcie_root_id" JNull payload ≫= raw (jopt jstr));
  fabric_id ← (jget_or "fabric_id" JNull payload ≫= raw (jopt jstr));
  Ok (mkCapacity device_type (py_str device_name) total_memory_bytes available_memory_bytes
        allocated_memory_bytes reserved_memory_bytes device_index compute_capability driver_version
        runtime_version numa_node pcie_root_id fabric_id).

Definition result_to_dict (r : RuntimeResult) : json :=
  JObj
    [("text", JStr (rr_text r));
     ("input_tokens", JInt (rr_input_tokens r));
     ("output_tokens", JInt (rr_output_tokens r));
     ("tokenization_ms", JFloat (rr_tokenization_ms r));
     ("generation_ms", JFloat (rr_generation_ms r));
     ("decoding_ms", JFloat (rr_decoding_ms r))].
Definition result_from_dict (payload : json) : res RuntimeResult :=
  text ← jget "text" payload;
  input_tokens ← (jget "input_tokens" payload ≫= py_int);
  output_tokens ← (jget "output_tokens" payload ≫= py_int);
  tokenization_ms ← (jget "tokenization_ms" payload ≫= py_float);
  generation_ms ← (jget "generation_ms" payload ≫= py_float);
  decoding_ms ← (jget "decoding_ms" payload ≫= py_float);
  Ok (mkResult (py_str text) input_tokens output_tokens tokenization_ms generation_ms decoding_ms).

(** ** Round trips *)

(** A request as it is on both sides of the wire: validated, with its status stamped, its prompt
    present and a deadline that is finite or infinite. *)
Definition wire_ok (r : RequestRecord) : Prop :=
  RequestRecord_post_init r = Ok r ∧ (f_isfinite (r_deadline r) = true ∨ r_deadline r = f_inf).

Lemma raw_opt {A} (f : json → res A) (g : A → json) (o : option A) :
  (∀ a, f (g a) = Ok a) → (∀ a, g a ≠ JNull) → raw (jopt f) (jof_opt g o) = Ok o.
Proof. intros H Hn. unfold raw. by rewrite jopt_of_opt. Qed.
Lemma string_set_sorted (s : gset string) : string_set (JList (JStr <$> sorted_by str_leb (elements s))) = Ok s.
Proof.
  unfold string_set. simpl. rewrite mapR_fmap by done. simpl. f_equal.
  apply set_eq. intros x. by rewrite elem_of_list_to_set, sorted_by_perm, elem_of_elements.
Qed.
Lemma timestamps_roundtrip ts : timestamps_from_dict (timestamps_to_dict ts) ∅ = Ok ts.
Proof.
  unfold timestamps_to_dict. pose proof (NoDup_fst_map_to_list ts) as Hd.
  assert (∀ l m, timestamps_from_dict ((λ p : RequestState * float, (RequestState_value p.1, JFloat p.2)) <$> l) m
    = Ok (foldl (λ m p, <[p.1 := p.2]> m) m l)) as H.
  { induction l as [|[s x] l IH]; intros m; [done|]. rewrite fmap_cons. cbn [timestamps_from_dict fst snd].
    rewrite RequestState_of_value. simpl. apply IH. }
  rewrite H. f_equal. rewrite <- (list_to_map_to_list ts) at 2. revert Hd. generalize (map_to_list ts). intros l Hd.
  assert (∀ m, foldl (λ (m : gmap RequestState float) p, <[p.1 := p.2]> m) m l = list_to_map l ∪ m) as Hf.
  { induction l as [|[s x] l IH]; intros m; simpl; [by rewrite (left_id_L ∅ (∪))|].
    apply NoDup_cons in Hd as [Hn Hd]. rewrite IH by done.
    rewrite <- insert_union_l, insert_union_r; [done|]. by apply not_elem_of_list_to_map_1. }
  by rewrite Hf, (right_id_L ∅ (∪)).
Qed.

Lemma model_roundtrip m : ModelDefinition_post_init m = Ok m → model_from_dict (model_to_dict m) = Ok m.
Proof.
  intros Hv. unfold model_from_dict, model_to_dict. simpl. rewrite RuntimeType_of_value. simpl.
  rewrite mapR_fmap by done. simpl. by destruct m.
Qed.
Lemma worker_state_roundtrip w :
  WorkerState_post_init w = Ok w → worker_state_from_dict (worker_state_to_dict w) = Ok w.
Proof.
  intros Hv. unfold worker_state_from_dict, worker_state_to_dict. simpl.
  rewrite DeviceType_of_value. simpl. rewrite !raw_opt by done. simpl.
  rewrite !string_set_sorted. simpl. rewrite HealthStatus_of_value. simpl. by destruct w.
Qed.
Lemma request_roundtrip r : wire_ok r → request_from_dict (request_to_dict r) = Ok r.
Proof.
  intros [Hv Hd]. unfold request_from_dict, request_to_dict. simpl.
  assert (match (if f_isfinite (r_deadline r) then JFloat (r_deadline r) else JNull) with
    | JNull => Ok f_inf | _ => py_float (if f_isfinite (r_deadline r) then JFloat (r_deadline r) else JNull) end
    = Ok (r_deadline r)) as ->.
  { destruct Hd as [->| ->]; done. }
  simpl. rewrite RequestState_of_value. simpl. rewrite raw_opt by done. simpl.
  rewrite mapR_fmap by done. simpl. rewrite timestamps_roundtrip. simpl. by destruct r.
Qed.
Lemma capacity_roundtrip c : capacity_from_dict (capacity_to_dict c) = Ok c.
Proof.
  unfold capacity_from_dict, capacity_to_dict. simpl. rewrite DeviceType_of_value. simpl.
  rewrite !raw_opt by done. by destruct c.
Qed.
Lemma result_roundtrip r : result_from_dict (result_to_dict r) = Ok r.
Proof. by destruct r. Qed.
End wire.
