(* ===== verification/WorkerApi.v ===== *)
(** [apps/worker/api.py]: the HTTP server of a worker process. Its handlers contain no [await], so each
    request is served in one piece. What FastAPI does around them is part of the model as documented:
    the credential is tested first, a body that is declared a dictionary must be one, an exception that is
    not an [HTTPException] becomes status 500, and a response with a non-finite number cannot be written. *)
From S2P Require Import Prelude PyContainers PyFloat Domain FairQueue Json Effects Registry Worker Wire.
From Stdlib Require String.

#[local] Open Scope string_scope.
#[local] Open Scope list_scope.
#[local] Open Scope Z_scope.

(** [json.dumps(payload, allow_nan=False)] accepts the payload. *)
Fixpoint json_finite (j : json) : bool :=
  match j with
  | JFloat x => f_isfinite x
  | JList l => forallb json_finite l
  | JObj fields => forallb (λ p, json_finite p.2) fields
  | _ => true
  end.
Definition not_compliant : PyErr := ValueError "Out of range float values are not JSON compliant".

(** The requests that the server accepts, one constructor per route. *)
Inductive Endpoint :=
  | PostRegister | PostHeartbeat | GetHealth | GetCapacity
  | PostLoadModel (payload : json)
  | PostWarmup (model_id : string)
  | DeleteModel (model_id : string)
  | PostRequest (payload : json)
  | DeleteRequest (request_id : string)
  | PostExecute | PostDrain | PostShutdown.

(** [HTTPException], or any other exception of a handler. *)
Inductive HttpExc := HStatus (status_code : Z) (detail : string) | HServer (e : WorkerExc).

Section world.
Context {S : Type}.
(** The variables that the handlers close over, with the worker's process. *)
Record Server := mkServer {
  sv_worker : Site S;
  sv_catalog : gmap string ModelDefinition;
  sv_requests : gmap string loc;
  sv_auth_token : string
}.
#[export] Instance eta_Server : Eta Server := λ s,
  mkServer (sv_worker s) (sv_catalog s) (sv_requests s) (sv_auth_token s).
End world.
Arguments Server S : clear implicits.

Section api.
Context {S : Type} `{ModelRuntime S}.
Context (show : json → string) (int_of_str : string → res Z) (float_of_str : string → res float).
Variable clock : nat → float.
Variable perf : nat → float.
Variable hostname : string.
#[local] Abbreviation M := (Eff (Server S) HttpExc).

Definition create_worker_http_app (worker : Site S) (models : list ModelDefinition) (auth_token : string)
  : res (Server S) :=
  _ ← raise_if (str_empty auth_token) (ValueError "worker transport auth token is required");
  Ok (mkServer worker (foldl (λ catalog model, <[m_model_id model := model]> catalog) ∅ models) ∅ auth_token).

Definition on_worker {A} (c : Eff (Site S) WorkerExc A) : M A := λ s,
  match c (sv_worker s) with
  | (inr a, w) => (inr a, s <| sv_worker := w |>)
  | (inl e, w) => (inl (HServer e), s <| sv_worker := w |>)
  end.
Definition lift_py {A} (r : res A) : M A :=
  match r with Ok a => mret a | Err e => raise (HServer (EPy e)) end.

(** ** The handlers *)

Definition post_register : M json := s ← on_worker (register clock hostname); mret (worker_state_to_dict s).
Definition post_heartbeat : M json := s ← on_worker (heartbeat clock hostname); mret (worker_state_to_dict s).
Definition get_health : M json :=
  w ← gets sv_worker; mret (JObj [("status", JStr (HealthStatus_value (mw_health (si_worker w))))]).
Definition get_capacity : M json := c ← on_worker (runtime_call rt_capacity); mret (capacity_to_dict c).
Definition post_load_model (payload : json) : M json :=
  supplied ← lift_py (model_from_dict show int_of_str float_of_str payload);
  catalog ← gets sv_catalog;
  match catalog !! m_model_id supplied with
  | Some expected =>
    if negb (ModelDefinition_eqb supplied expected) then raise (HStatus 400 "model is not registered")
    else
      _ ← on_worker (load_model clock perf expected);
      mret (JObj [("loaded", JStr (m_model_id expected))])
  | None => raise (HStatus 400 "model is not registered")
  end.
Definition post_warmup (model_id : string) : M json :=
  _ ← on_worker (warmup_model model_id); mret (JObj [("warmed", JStr model_id)]).
Definition delete_model (model_id : string) : M json :=
  _ ← on_worker (unload_model clock model_id); mret (JObj [("unloaded", JStr model_id)]).
(** The request object is new. *)
Definition new_object (r : RequestRecord) : Eff (Site S) WorkerExc loc :=
  l ← gets (λ w, fresh (dom (si_heap w)));
  _ ← modify (λ w, w <| si_heap ::= <[l := r]> |>); mret l.
Definition post_request (payload : json) : M json :=
  request ← lift_py (request_from_dict show int_of_str float_of_str payload);
  l ← on_worker (new_object request);
  _ ← on_worker (enqueue_request clock l);
  _ ← modify (λ s, s <| sv_requests ::= <[r_request_id request := l]> |>);
  request ← on_worker (get_request l);
  mret (request_to_dict request).
(** The entry of [requests], as it is now. *)
Definition tracked_request (request_id : string) : M (option RequestRecord) :=
  gets (λ s, (λ l, si_heap (sv_worker s) !!! l) <$> sv_requests s !! request_id).
Definition delete_request (request_id : string) : M json :=
  cancelled ← on_worker (cancel_request clock request_id);
  request ← tracked_request request_id;
  mret (JObj [("cancelled", JBool cancelled); ("request", jof_opt request_to_dict request)]).
(** One item of the response. *)
Definition execution_item (execution : WorkerExecutionResult) : M json :=
  request ← tracked_request (we_request_id execution);
  match request with
  | Some request =>
    mret (JObj [("request_id", JStr (we_request_id execution));
                ("result", result_to_dict (we_result execution));
                ("request", request_to_dict request)])
  | None => lift_py (Err (KeyError (we_request_id execution)))
  end.
Fixpoint execution_items (executions : list WorkerExecutionResult) : M (list json) :=
  match executions with
  | [] => mret []
  | execution :: executions =>
    item ← execution_item execution; items ← execution_items executions; mret (item :: items)
  end.
Definition post_execute : M json :=
  executions ← on_worker (execute_batch clock perf);
  items ← execution_items executions;
  mret (JObj [("executions", JList items)]).
Definition post_drain : M json := _ ← on_worker drain; mret (JObj [("draining", JBool true)]).
Definition post_shutdown : M json := _ ← on_worker (shutdown clock); mret (JObj [("status", JStr "stopped")]).

(** ** A request from its credential to its response *)

Definition authenticate (x_worker_token : string) : M unit :=
  auth_token ← gets sv_auth_token;
  if bool_decide (x_worker_token = auth_token) then mret tt
  else raise (HStatus 401 "invalid worker credential").
Definition body_object (payload : json) : M unit :=
  match payload with JObj _ => mret tt | _ => raise (HStatus 422 "") end.
Definition handler (e : Endpoint) : M json :=
  match e with
  | PostRegister => post_register
  | PostHeartbeat => post_heartbeat
  | GetHealth => get_health
  | GetCapacity => get_capacity
  | PostLoadModel payload => _ ← body_object payload; post_load_model payload
  | PostWarmup model_id => post_warmup model_id
  | DeleteModel model_id => delete_model model_id
  | PostRequest payload => _ ← body_object payload; post_request payload
  | DeleteRequest request_id => delete_request request_id
  | PostExecute => post_execute
  | PostDrain => post_drain
  | PostShutdown => post_shutdown
  end.
Definition serve (x_worker_token : string) (e : Endpoint) : M json :=
  _ ← authenticate x_worker_token;
  j ← handler e;
  if json_finite j then mret j else lift_py (Err not_compliant).
End api.
