(* ===== verification/Transport.v ===== *)
(** [apps/worker/transport.py]: the control plane's handle for a worker in another process, over the
    server of [WorkerApi]. The network is a script that says what becomes of each exchange. *)
From S2P Require Import Prelude PyContainers PyFloat Domain FairQueue Json Effects Registry Worker Wire WorkerApi.
From Stdlib Require String.
From Stdlib Require Import Ascii.

#[local] Open Scope string_scope.
#[local] Open Scope list_scope.
#[local] Open Scope Z_scope.

(** What becomes of an exchange: it is answered; it never reaches the server; the server serves it but the
    answer comes too late ([URLError], [TimeoutError]); or the connection breaks while the answer is read,
    whether or not the server has served the request ([ConnectionResetError] and the like, which [urlopen]
    does not wrap). *)
Inductive Exchange := Answered | NotSent | ReplyLost | Broken (served : bool).

(** [WorkerTransportError], an exception of the connection, or one of Python's own. *)
Inductive TransportExc := TTransport (message : string) | TConnection | TPy (e : PyErr).

(** [base_url.rstrip("/")], on the reversed characters. *)
Fixpoint drop_slashes (l : list Ascii.ascii) : list Ascii.ascii :=
  match l with
  | c :: l' => if Ascii.eqb c "/"%char then drop_slashes l' else l
  | [] => []
  end.
Definition rstrip_slash (s : string) : string :=
  String.string_of_list_ascii (rev (drop_slashes (rev (String.list_ascii_of_string s)))).

Section world.
Context {S : Type}.
(** The handle, the heap and the registry of its process with the clock's readings, and the other process. *)
Record HttpWorkerClient := mkClient {
  hc_worker_id : string;
  hc_base_url : string;
  hc_auth_token : string;
  hc_timeout_seconds : float;
  hc_requests : gmap string loc;
  hc_heap : heap;
  hc_registry : WorkerRegistry;
  hc_readings : nat;
  hc_exchanges : nat;
  hc_server : Server S
}.
#[export] Instance eta_HttpWorkerClient : Eta HttpWorkerClient := λ c,
  mkClient (hc_worker_id c) (hc_base_url c) (hc_auth_token c) (hc_timeout_seconds c) (hc_requests c)
    (hc_heap c) (hc_registry c) (hc_readings c) (hc_exchanges c) (hc_server c).
End world.
Arguments HttpWorkerClient S : clear implicits.

Section transport.
Context {S : Type} `{ModelRuntime S}.
Context (show : json → string) (int_of_str : string → res Z) (float_of_str : string → res float).
(** The clocks of the worker's process and of this one. *)
Variable clock : nat → float.
Variable perf : nat → float.
Variable hostname : string.
Variable registry_clock : nat → float.
(** [urllib.parse.quote(x, safe="")], and the identifier that the server's router reads back from the quoted
    segment; [None]: no route matches the path. *)
Variable quote : string → string.
Variable route_id : string → option string.
Variable net : nat → Exchange.
#[local] Abbreviation M := (Eff (HttpWorkerClient S) TransportExc).

Definition HttpWorkerClient_init (worker_id base_url auth_token : string) (timeout_seconds : float)
  (h : heap) (registry : WorkerRegistry) (server : Server S) : res (HttpWorkerClient S) :=
  _ ← raise_if (str_empty worker_id || str_empty base_url || str_empty auth_token
                || f_leb timeout_seconds (f_of_Z 0))
        (ValueError "remote worker transport settings are invalid");
  Ok (mkClient worker_id (rstrip_slash base_url) auth_token timeout_seconds ∅ h registry 0 0 server).

(** ** [_request] *)

Definition method_of (e : Endpoint) : string :=
  match e with
  | GetHealth | GetCapacity => "GET"
  | DeleteModel _ | DeleteRequest _ => "DELETE"
  | _ => "POST"
  end.
Definition path_of (e : Endpoint) : string :=
  match e with
  | PostRegister => "/internal/register"
  | PostHeartbeat => "/internal/heartbeat"
  | GetHealth => "/internal/health"
  | GetCapacity => "/internal/capacity"
  | PostLoadModel _ => "/internal/models/load"
  | PostWarmup model_id => "/internal/models/" +:+ quote model_id +:+ "/warmup"
  | DeleteModel model_id => "/internal/models/" +:+ quote model_id
  | PostRequest _ => "/internal/requests"
  | DeleteRequest request_id => "/internal/requests/" +:+ quote request_id
  | PostExecute => "/internal/batches/execute"
  | PostDrain => "/internal/drain"
  | PostShutdown => "/internal/shutdown"
  end.
Definition payload_of (e : Endpoint) : option json :=
  match e with PostLoadModel payload | PostRequest payload => Some payload | _ => None end.
(** The request as the server's router sees it. *)
Definition route (e : Endpoint) : option Endpoint :=
  match e with
  | PostWarmup model_id => PostWarmup <$> route_id model_id
  | DeleteModel model_id => DeleteModel <$> route_id model_id
  | DeleteRequest request_id => DeleteRequest <$> route_id request_id
  | _ => Some e
  end.
(** The server serves the request; [None]: the response is not a success. *)
Definition served (e : Endpoint) : M (option json) := λ c,
  match route e with
  | None => (inr None, c)
  | Some e =>
    match serve show int_of_str float_of_str clock perf hostname (hc_auth_token c) e (hc_server c) with
    | (inr j, s) => (inr (Some j), c <| hc_server := s |>)
    | (inl _, s) => (inr None, c <| hc_server := s |>)
    end
  end.
Definition transport_failed {A} (e : Endpoint) : M A :=
  worker_id ← gets hc_worker_id;
  raise (TTransport ("worker " +:+ worker_id +:+ " transport request failed: " +:+ method_of e +:+ " " +:+ path_of e)).
Definition request (e : Endpoint) : M json :=
  if match payload_of e with Some payload => json_finite payload | None => true end then
    n ← gets hc_exchanges;
    _ ← modify (λ c, c <| hc_exchanges ::= Datatypes.S |>);
    match net n with
    | Answered =>
      response ← served e;
      match response with Some j => mret j | None => transport_failed e end
    | NotSent => transport_failed e
    | ReplyLost => _ ← served e; transport_failed e
    | Broken true => _ ← served e; raise TConnection
    | Broken false => raise TConnection
    end
  else raise (TPy not_compliant).

Definition lift_res {A} (r : res A) : M A := match r with Ok a => mret a | Err e => raise (TPy e) end.
Definition monotonic : M float := λ c,
  (inr (registry_clock (hc_readings c)), c <| hc_readings ::= Datatypes.S |>).

(** ** Registration *)

Definition check_identity (snapshot : WorkerState) (message : string) : M unit :=
  worker_id ← gets hc_worker_id;
  if bool_decide (w_worker_id snapshot = worker_id) then mret tt else raise (TTransport message).
Definition remote_register : M WorkerState :=
  payload ← request PostRegister;
  snapshot ← lift_res (worker_state_from_dict show int_of_str float_of_str payload);
  _ ← check_identity snapshot "worker registration identity did not match";
  now ← monotonic;
  _ ← modify (λ c, c <| hc_registry ::= worker_register snapshot now |>);
  mret snapshot.
Definition remote_heartbeat : M WorkerState :=
  payload ← request PostHeartbeat;
  snapshot ← lift_res (worker_state_from_dict show int_of_str float_of_str payload);
  _ ← check_identity snapshot "worker heartbeat identity did not match";
  now ← monotonic;
  registry ← gets hc_registry;
  registry ← lift_res (worker_heartbeat snapshot now registry);
  _ ← modify (λ c, c <| hc_registry := registry |>);
  mret snapshot.

(** ** Models *)

Definition remote_load_model (model : ModelDefinition) : M unit :=
  _ ← request (PostLoadModel (model_to_dict model)); mret tt.
Definition remote_unload_model (model_id : string) : M unit :=
  _ ← request (DeleteModel model_id); _ ← remote_heartbeat; mret tt.
Definition remote_warmup_model (model_id : string) : M unit :=
  _ ← request (PostWarmup model_id); mret tt.

(** ** Requests *)

Definition get_record (l : loc) : M RequestRecord := gets (λ c, hc_heap c !!! l).
(** [apply_request_dict(request, payload)] on the object at [l]. *)
Definition apply_to (l : loc) (payload : json) : M unit :=
  r ← get_record l;
  r ← lift_res (apply_request_dict show int_of_str float_of_str r payload);
  modify (λ c, c <| hc_heap ::= <[l := r]> |>).
Definition remote_enqueue_request (l : loc) : M unit :=
  r ← get_record l;
  payload ← request (PostRequest (request_to_dict r));
  _ ← apply_to l payload;
  r ← get_record l;
  modify (λ c, c <| hc_requests ::= <[r_request_id r := l]> |>).
Definition remote_cancel_request (request_id : string) : M bool :=
  payload ← request (DeleteRequest request_id);
  request_payload ← lift_res (jget_or "request" JNull payload);
  requests ← gets hc_requests;
  _ ← match request_payload, requests !! request_id with
      | JNull, _ | _, None => mret tt
      | _, Some l => apply_to l request_payload
      end;
  cancelled ← lift_res (jget "cancelled" payload);
  mret (py_bool cancelled).
(** One round of the loop. *)
Definition adopt_execution (item : json) : M WorkerExecutionResult :=
  request_id ← lift_res (jget "request_id" item);
  let request_id := py_str show request_id in
  requests ← gets hc_requests;
  match requests !! request_id with
  | None => raise (TTransport "worker returned an unknown request")
  | Some l =>
    payload ← lift_res (jget "request" item);
    _ ← apply_to l payload;
    result ← lift_res (jget "result" item);
    result ← lift_res (result_from_dict show int_of_str float_of_str result);
    mret (mkExecution request_id result)
  end.
Fixpoint adopt_executions (items : list json) : M (list WorkerExecutionResult) :=
  match items with
  | [] => mret []
  | item :: items => x ← adopt_execution item; xs ← adopt_executions items; mret (x :: xs)
  end.
Definition remote_execute_batch : M (list WorkerExecutionResult) :=
  payload ← request PostExecute;
  items ← lift_res (jget "executions" payload);
  items ← lift_res (raw jlist items);
  adopt_executions items.

(** ** Drain, shutdown, health and capacity *)

Definition remote_drain : M unit := _ ← request PostDrain; _ ← remote_heartbeat; mret tt.
Definition remote_shutdown : M unit :=
  _ ← request PostShutdown;
  modify (λ c, c <| hc_registry ::= worker_unregister (hc_worker_id c) |>).
Definition remote_health : M HealthStatus :=
  payload ← request GetHealth;
  status ← lift_res (jget "status" payload);
  lift_res (py_enum HealthStatus_value all_HealthStatus status).
Definition remote_capacity : M RuntimeCapacity :=
  payload ← request GetCapacity; lift_res (capacity_from_dict show payload).
End transport.
