(* ===== verification/TransportSafe.v ===== *)
(** The handle of a worker behind the HTTP transport: what its calls do to the worker's process, and what they
    make of the records of this one, over a network that loses exchanges and answers. *)
From S2P Require Import Prelude PyContainers PyFloat Domain FairQueue Json Effects Registry Worker WorkerFrame Wire WorkerApi Transport.
From S2P Require WorkerSafe.
From Stdlib Require String.

#[local] Open Scope string_scope.
#[local] Open Scope list_scope.
#[local] Open Scope Z_scope.

(** ** Records on the wire *)

(** What nothing ever changes in a record. *)
Definition identity (r : RequestRecord) :=
  (r_request_id r, r_tenant_id r, r_model_id r, r_prompt r, r_prompt_tokens r, r_max_new_tokens r,
   r_priority r, r_deadline r, r_stream r, r_temperature r, r_created_at r).
Lemma identity_id a b : identity a = identity b → r_request_id a = r_request_id b.
Proof. unfold identity. congruence. Qed.
Lemma adopt_identity a b : identity (adopt a b) = identity b.
Proof. done. Qed.
Lemma adopt_same a b : identity a = identity b → adopt a b = a.
Proof. destruct a, b. unfold identity. cbn. by intros [= -> -> -> -> -> -> -> -> -> -> ->]. Qed.
Lemma transition_identity target at_ r r' : transition target at_ r = Ok r' → identity r' = identity r.
Proof. by intros [_ ->]%transition_Ok. Qed.

Lemma forallb_fmap_true {A} (p : json → bool) (f : A → json) l :
  (∀ x, p (f x) = true) → forallb p (f <$> l) = true.
Proof. intros Hf. induction l as [|x l IH]; [done|]. cbn. by rewrite Hf. Qed.
Lemma jof_opt_finite {A} (f : A → json) o : (∀ a, json_finite (f a) = true) → json_finite (jof_opt f o) = true.
Proof. intros Hf. by destruct o; cbn. Qed.
Lemma json_finite_request r : json_finite (request_to_dict r) = true ↔
  f_isfinite (r_temperature r) = true ∧ f_isfinite (r_created_at r) = true ∧
  map_Forall (λ _ x, f_isfinite x = true) (r_transition_timestamps r).
Proof.
  assert (json_finite (if f_isfinite (r_deadline r) then JFloat (r_deadline r) else JNull) = true) as Hd
    by (destruct (f_isfinite (r_deadline r)) eqn:E; [exact E|done]).
  assert (forallb (λ p, json_finite p.2) (timestamps_to_dict (r_transition_timestamps r)) = true ↔
    map_Forall (λ _ x, f_isfinite x = true) (r_transition_timestamps r)) as Ht.
  { unfold timestamps_to_dict. rewrite map_Forall_to_list. generalize (map_to_list (r_transition_timestamps r)).
    intros l. induction l as [|[s x] l IH]; [done|]. rewrite fmap_cons, Forall_cons. cbn.
    rewrite andb_true_iff. by rewrite IH. }
  rewrite <- Ht. unfold request_to_dict. cbn -[timestamps_to_dict]. cbn in Hd. rewrite Hd.
  rewrite (jof_opt_finite JStr) by done. rewrite (forallb_fmap_true _ JStr) by done. cbn -[timestamps_to_dict].
  rewrite !andb_true_r, !andb_true_iff. tauto.
Qed.
(** A record that can be sent and read back. *)
Definition sound (r : RequestRecord) : Prop := wire_ok r ∧ json_finite (request_to_dict r) = true.
Lemma sound_transition target at_ r r' :
  f_isfinite at_ = true → transition target at_ r = Ok r' → sound r → sound r'.
Proof.
  intros Ha [_ ->]%transition_Ok [[Hv Hd] (Ht & Hc & Hts)%json_finite_request]. split; [split|].
  - unfold RequestRecord_post_init in *. cbn. apply bind_Ok_inv in Hv as ([] & H1 & Hv).
    apply bind_Ok_inv in Hv as ([] & H2 & _). rewrite H1, H2. cbn [mbind res_bind]. unfold field_update. simpl. by rewrite lookup_insert_eq.
  - exact Hd.
  - apply json_finite_request. split_and!; [done..|]. cbn. by apply map_Forall_insert_2.
Qed.

Section safe.
Context {S : Type} `{ModelRuntime S}.
Context (show : json → string) (int_of_str : string → res Z) (float_of_str : string → res float).
Variable clock : nat → float.
Variable perf : nat → float.
Variable hostname : string.
Variable registry_clock : nat → float.
Variable quote : string → string.
Variable route_id : string → option string.
Variable net : nat → Exchange.
Hypothesis clock_finite : ∀ n, f_isfinite (clock n) = true.
#[local] Abbreviation heap_of s := (si_heap (sv_worker s)).
#[local] Abbreviation queue_of s := (mw_queue (si_worker (sv_worker s))).

(** ** The server *)

(** Every request that the server remembers is an object of its own that can be sent, and what is queued is
    remembered. *)
Record server_ok (s : Server S) : Prop := {
  so_object : ∀ id l, sv_requests s !! id = Some l →
    is_Some (heap_of s !! l) ∧ r_request_id (heap_of s !!! l) = id ∧ sound (heap_of s !!! l);
  so_queue : ∀ l, l ∈ queue_of s → sv_requests s !! r_request_id (heap_of s !!! l) = Some l
}.
(** What a call that sends no new request leaves as it is. *)
Record steady (s0 s : Server S) : Prop := {
  sd_requests : sv_requests s = sv_requests s0;
  sd_token : sv_auth_token s = sv_auth_token s0;
  sd_identity : ∀ id l, sv_requests s0 !! id = Some l → identity (heap_of s !!! l) = identity (heap_of s0 !!! l)
}.
Definition kept (s0 s : Server S) : Prop := server_ok s ∧ steady s0 s.
Lemma steady_refl s : steady s s.
Proof. by split. Qed.

(** The invariant of the worker's objects and queue, from those of [s]. *)
Definition objects (s : Server S) (h : heap) : Prop :=
  ∀ id l, sv_requests s !! id = Some l → is_Some (h !! l) ∧ identity (h !!! l) = identity (heap_of s !!! l) ∧ sound (h !!! l).
Definition remembered (s : Server S) (l : loc) : Prop := ∃ id, sv_requests s !! id = Some l.
Lemma objects_transition s h l target at_ r : f_isfinite at_ = true →
  transition target at_ (h !!! l) = Ok r → objects s h → objects s (<[l := r]> h).
Proof.
  intros Ha Ht Ho id l' Hl'. destruct (Ho id l' Hl') as (Hs & Hi & Hr). destruct (decide (l = l')) as [<-|Hne].
  - rewrite lookup_insert_eq, lookup_total_insert_eq. split_and!; [done| |by eapply sound_transition].
    rewrite <- Hi. by eapply transition_identity.
  - by rewrite lookup_insert_ne, lookup_total_insert_ne.
Qed.
Lemma server_holds s : server_ok s → holds (objects s) (remembered s) (sv_worker s).
Proof.
  intros Hs. split.
  - intros id l Hl. by destruct (so_object s Hs id l Hl) as (? & ? & ?).
  - intros l Hl. eexists. by apply so_queue.
Qed.
Lemma holds_kept s0 s w : kept s0 s → holds (objects s) (remembered s) w → kept s0 (s <| sv_worker := w |>).
Proof.
  intros [Hs Hd] [Ho Hq]. split; split.
  - cbn. intros id l Hl. destruct (Ho id l Hl) as (? & Hi & ?), (so_object s Hs id l Hl) as (_ & <- & _).
    split_and!; [done|by apply identity_id|done].
  - cbn. intros l [id Hl]%Hq. destruct (Ho id l Hl) as (_ & Hi & _), (so_object s Hs id l Hl) as (_ & <- & _).
    by rewrite (identity_id _ _ Hi).
  - by destruct Hd.
  - by destruct Hd.
  - cbn. intros id l Hl. rewrite <- (sd_identity s0 s Hd id l Hl). apply (Ho id). by rewrite (sd_requests s0 s Hd).
Qed.
(** A call of the worker's. *)
Lemma worker_keeps {A} s0 (c : Eff (Site S) WorkerExc A) :
  (∀ s, hoare (holds (objects s) (remembered s)) c (λ _, holds (objects s) (remembered s))
          (λ _, holds (objects s) (remembered s))) →
  preserves (kept s0) (on_worker c).
Proof.
  intros Hc s Hs. unfold on_worker. specialize (Hc s _ (server_holds s (proj1 Hs))).
  destruct (c (sv_worker s)) as [[e|a] w]; by apply holds_kept.
Qed.
Lemma worker_moves {A} s0 (c : Eff (Site S) WorkerExc A) :
  (∀ s, moves (objects s) (remembered s) c) → preserves (kept s0) (on_worker c).
Proof.
  intros Hc. apply worker_keeps. intros s. eapply hoare_conseq; [apply Hc|done|done|by intros e w [_ Hw]].
Qed.

(** *** The handlers *)

#[local] Abbreviation served_by := (serve show int_of_str float_of_str clock perf hostname).
#[local] Abbreviation finite := (λ a, f_isfinite a = true).
Lemma kept_lift_py {A} s0 (r : res A) : preserves (kept s0) (lift_py (S := S) r).
Proof. intros s Hs. by destruct r. Qed.
Lemma kept_items s0 xs : preserves (kept s0) (execution_items xs).
Proof.
  induction xs as [|x xs IH]; cbn [execution_items]; [apply preserves_ret|].
  apply preserves_bind; [|intros item; apply preserves_bind; [exact IH|intros items; apply preserves_ret]].
  apply preserves_bind; [apply preserves_gets|]. intros [r|]; [apply preserves_ret|apply kept_lift_py].
Qed.
Create HintDb transport discriminated.
#[local] Hint Resolve preserves_ret preserves_raise preserves_gets kept_lift_py kept_items : transport.
(** Walks through a computation that keeps an invariant. *)
Ltac keeping :=
  repeat first
    [ progress intros | solve [auto with transport] | apply preserves_bind
    | progress cbv zeta
    | match goal with
      | |- preserves _ (if ?b then _ else _) => destruct b
      | |- preserves _ (match ?x with _ => _ end) => destruct x
      end ].
Lemma serve_keeps s0 token e :
  (∀ payload, e ≠ PostRequest payload) → preserves (kept s0) (served_by token e).
Proof.
  intros He. unfold serve, authenticate. apply preserves_bind; [keeping|]. intros [].
  apply preserves_bind; [|keeping].
  assert (∀ s, moves (objects s) (remembered s) (runtime_call (A := RuntimeCapacity) rt_capacity)) as Hcap
    by (intros s; apply moves_runtime_call).
  unfold handler, post_register, post_heartbeat, get_health, get_capacity, post_load_model, post_warmup,
    delete_model, delete_request, post_execute, post_drain, post_shutdown, body_object, tracked_request.
  destruct e; try (by destruct (He payload)); keeping.
  - apply worker_moves. intros s. by apply (moves_register clock perf hostname _ _ finite).
  - apply worker_moves. intros s. by apply (moves_heartbeat clock perf hostname _ _ finite).
  - by apply worker_moves.
  - apply worker_keeps. intros s. by apply (load_model_keeps clock perf).
  - apply worker_moves. intros s. apply moves_warmup.
  - apply worker_moves. intros s. by apply (moves_unload clock perf).
  - apply worker_moves. intros s. by apply (moves_cancel clock perf _ _ finite clock_finite (objects_transition s)).
  - apply worker_keeps. intros s. eapply hoare_conseq;
      [apply (execute_batch_moves clock perf (objects s) (remembered s) finite clock_finite (objects_transition s))|done
      |by intros xs w []|by intros x w []].
  - apply worker_moves. intros s. apply (moves_drain perf).
  - apply worker_moves. intros s. by apply (moves_shutdown clock perf _ _ finite clock_finite (objects_transition s)).
Qed.

(** ** The two processes *)

#[local] Abbreviation Client := (HttpWorkerClient S).
#[local] Abbreviation remote := (request show int_of_str float_of_str clock perf hostname quote route_id net).
(** The server remembers the requests that the handle remembers (and those whose answer was lost), and both
    records of a request are of one identity. *)
Record linked (c : Client) : Prop := {
  lk_token : hc_auth_token c = sv_auth_token (hc_server c);
  lk_server : server_ok (hc_server c);
  lk_known : ∀ id, is_Some (hc_requests c !! id) → is_Some (sv_requests (hc_server c) !! id);
  lk_same : ∀ id lc ls, hc_requests c !! id = Some lc → sv_requests (hc_server c) !! id = Some ls →
    identity (hc_heap c !!! lc) = identity (heap_of (hc_server c) !!! ls)
}.
(** The server may come to remember more. *)
Lemma linked_server (c : Client) s : linked c → server_ok s → sv_auth_token s = sv_auth_token (hc_server c) →
  (∀ id l, sv_requests (hc_server c) !! id = Some l →
     sv_requests s !! id = Some l ∧ identity (heap_of s !!! l) = identity (heap_of (hc_server c) !!! l)) →
  linked (c <| hc_server := s |>).
Proof.
  intros Hc Hs Ht Hr. split; cbn.
  - rewrite Ht. apply (lk_token c Hc).
  - exact Hs.
  - intros id [ls Hls]%(lk_known c Hc). exists ls. by apply Hr.
  - intros id lc ls Hlc Hls. destruct (lk_known c Hc id (mk_is_Some _ _ Hlc)) as [l Hl].
    destruct (Hr id l Hl) as [Hl' Hi]. assert (l = ls) as -> by congruence.
    rewrite Hi. by apply (lk_same c Hc id).
Qed.
Lemma linked_kept (c : Client) s : linked c → kept (hc_server c) s → linked (c <| hc_server := s |>).
Proof.
  intros Hc [Hs [Hr Ht Hi]]. apply linked_server; [done..|]. intros id l Hl. rewrite Hr. split; [done|by apply (Hi id)].
Qed.
(** The records of this process may change in any way that keeps their identity. *)
Lemma linked_heap (c : Client) h : linked c →
  (∀ id l, hc_requests c !! id = Some l → identity (h !!! l) = identity (hc_heap c !!! l)) →
  linked (c <| hc_heap := h |>).
Proof.
  intros Hc Hh. split; cbn; [apply (lk_token c Hc)|apply (lk_server c Hc)|apply (lk_known c Hc)|].
  intros id lc ls Hlc Hls. rewrite (Hh id lc Hlc). by apply (lk_same c Hc id).
Qed.
Lemma linked_id (c : Client) id l : linked c → hc_requests c !! id = Some l → r_request_id (hc_heap c !!! l) = id.
Proof.
  intros Hc Hl. destruct (lk_known c Hc id (mk_is_Some _ _ Hl)) as [ls Hls].
  rewrite (identity_id _ _ (lk_same c Hc id l ls Hl Hls)). by apply (so_object _ (lk_server c Hc)).
Qed.
Lemma linked_other (c : Client) f :
  (∀ c, hc_auth_token (f c) = hc_auth_token c ∧ hc_server (f c) = hc_server c ∧
        hc_requests (f c) = hc_requests c ∧ hc_heap (f c) = hc_heap c) → linked c → linked (f c).
Proof.
  intros Hf []. destruct (Hf c) as (E1 & E2 & E3 & E4). split; rewrite ?E1, ?E2, ?E3, ?E4; done.
Qed.
Lemma linked_modify f :
  (∀ c, hc_auth_token (f c) = hc_auth_token c ∧ hc_server (f c) = hc_server c ∧
        hc_requests (f c) = hc_requests c ∧ hc_heap (f c) = hc_heap c) →
  preserves (X := TransportExc) linked (modify f).
Proof. intros Hf. apply preserves_modify. intros c. by apply linked_other. Qed.
Lemma linked_lift_res {A} (r : res A) : preserves linked (Transport.lift_res (S := S) r).
Proof. intros s Hs. by destruct r. Qed.
Lemma linked_failed {A} e : preserves linked (transport_failed (S := S) (A := A) quote e).
Proof. unfold transport_failed. apply preserves_bind; [apply preserves_gets|]. intros x. apply preserves_raise. Qed.
Lemma linked_served e : (∀ payload, e ≠ PostRequest payload) →
  preserves linked (served show int_of_str float_of_str clock perf hostname route_id e).
Proof.
  intros He c Hc. unfold served. destruct (route route_id e) as [e'|] eqn:Ee; [|exact Hc].
  assert (∀ payload, e' ≠ PostRequest payload) as He'.
  { intros payload ->. destruct e; cbn in Ee; try discriminate; try (by destruct (route_id _));
      injection Ee as ->; by destruct (He payload). }
  pose proof (serve_keeps (hc_server c) (hc_auth_token c) e' He' (hc_server c)
    (conj (lk_server c Hc) (steady_refl _))) as Hs.
  destruct (served_by _ _ _) as [[x|j] s]; by apply linked_kept.
Qed.
#[local] Hint Resolve linked_lift_res linked_failed linked_served : transport.
Lemma linked_request e : (∀ payload, e ≠ PostRequest payload) → preserves linked (remote e).
Proof.
  intros He. unfold request. keeping; by apply linked_modify.
Qed.
Lemma linked_apply l payload : preserves linked (apply_to show int_of_str float_of_str l payload).
Proof.
  intros c Hc. unfold apply_to, get_record. rewrite (bind_eq _ _ c (hc_heap c !!! l) c) by done.
  unfold apply_request_dict. destruct (request_from_dict _ _ _ payload) as [r|e]; [|exact Hc].
  apply linked_heap; [exact Hc|]. intros id l' _. destruct (decide (l = l')) as [<-|Hne].
  - by rewrite lookup_total_insert_eq.
  - by rewrite lookup_total_insert_ne.
Qed.
#[local] Hint Resolve linked_apply : transport.
#[local] Hint Extern 1 (preserves linked (modify _)) => by apply linked_modify : transport.
#[local] Hint Extern 1 (preserves linked (request _ _ _ _ _ _ _ _ _ _)) => by apply linked_request : transport.

(** *** Calls *)

(** The calls of the handle. *)
Inductive RemoteCall :=
  | RcRegister | RcHeartbeat | RcHealth | RcCapacity
  | RcLoad (model : ModelDefinition) | RcUnload (model_id : string) | RcWarmup (model_id : string)
  | RcEnqueue (l : loc) | RcCancel (request_id : string) | RcExecute | RcDrain | RcShutdown.
Definition remote_call (call : RemoteCall) : Eff Client TransportExc unit :=
  match call with
  | RcRegister => _ ← remote_register show int_of_str float_of_str clock perf hostname registry_clock quote route_id net; mret tt
  | RcHeartbeat => _ ← remote_heartbeat show int_of_str float_of_str clock perf hostname registry_clock quote route_id net; mret tt
  | RcHealth => _ ← remote_health show int_of_str float_of_str clock perf hostname quote route_id net; mret tt
  | RcCapacity => _ ← remote_capacity show int_of_str float_of_str clock perf hostname quote route_id net; mret tt
  | RcLoad model => remote_load_model show int_of_str float_of_str clock perf hostname quote route_id net model
  | RcUnload model_id => remote_unload_model show int_of_str float_of_str clock perf hostname registry_clock quote route_id net model_id
  | RcWarmup model_id => remote_warmup_model show int_of_str float_of_str clock perf hostname quote route_id net model_id
  | RcEnqueue l => remote_enqueue_request show int_of_str float_of_str clock perf hostname quote route_id net l
  | RcCancel request_id => _ ← remote_cancel_request show int_of_str float_of_str clock perf hostname quote route_id net request_id; mret tt
  | RcExecute => _ ← remote_execute_batch show int_of_str float_of_str clock perf hostname quote route_id net; mret tt
  | RcDrain => remote_drain show int_of_str float_of_str clock perf hostname registry_clock quote route_id net
  | RcShutdown => remote_shutdown show int_of_str float_of_str clock perf hostname quote route_id net
  end.
(** A handoff is of a validated request that the worker does not have. *)
Definition handed_over (c : Client) (l : loc) : Prop :=
  sv_requests (hc_server c) !! r_request_id (hc_heap c !!! l) = None ∧ wire_ok (hc_heap c !!! l).
Inductive client_step : Client → Client → Prop :=
  | StCall c call r c' : (∀ l, call = RcEnqueue l → handed_over c l) →
    remote_call call c = (r, c') → client_step c c'
  | StOwner c h : (∀ id l, hc_requests c !! id = Some l → identity (h !!! l) = identity (hc_heap c !!! l)) →
    client_step c (c <| hc_heap := h |>).

Lemma call_linked call : (∀ l, call ≠ RcEnqueue l) → preserves linked (remote_call call).
Proof.
  intros Hn.
  assert (∀ A (f : Client → A), preserves (X := TransportExc) linked (gets f)) as Hg by (intros; apply preserves_gets).
  assert (∀ items, preserves linked (adopt_executions (S := S) show int_of_str float_of_str items)) as Hx.
  { induction items as [|item items IH]; cbn [adopt_executions]; [apply preserves_ret|].
    apply preserves_bind; [|intros x; apply preserves_bind; [exact IH|intros xs; apply preserves_ret]].
    unfold adopt_execution. keeping. }
  assert (preserves linked (Transport.monotonic (S := S) registry_clock)) as Hm
    by (intros c Hc; by apply (linked_other c (λ c, c <| hc_readings ::= Datatypes.S |>))).
  assert (preserves linked (remote_heartbeat show int_of_str float_of_str clock perf hostname registry_clock
    quote route_id net)) as Hh.
  { unfold remote_heartbeat, check_identity. keeping. }
  destruct call; try (by destruct (Hn l)); cbn [remote_call];
    unfold remote_register, remote_health, remote_capacity, remote_load_model, remote_unload_model,
      remote_warmup_model, remote_cancel_request, remote_execute_batch, remote_drain, remote_shutdown,
      check_identity;
    keeping.
Qed.

(** ** An answered exchange *)

#[local] Abbreviation handle_ := (handler show int_of_str float_of_str clock perf hostname).
#[local] Abbreviation submitted := (enqueue_request (S := S) clock).
Definition advance (c : Client) (s : Server S) : Client :=
  c <| hc_exchanges ::= Datatypes.S |> <| hc_server := s |>.
Definition failure (c : Client) (e : Endpoint) : TransportExc :=
  TTransport ("worker " +:+ hc_worker_id c +:+ " transport request failed: " +:+ method_of e +:+ " " +:+ path_of quote e).
Lemma request_answered c e e' : linked c → net (hc_exchanges c) = Answered →
  match payload_of e with Some payload => json_finite payload = true | None => True end →
  route route_id e = Some e' →
  remote e c = match handle_ e' (hc_server c) with
    | (inr j, s) => if json_finite j then (inr j, advance c s) else (inl (failure c e), advance c s)
    | (inl _, s) => (inl (failure c e), advance c s)
    end.
Proof.
  intros Hc Hn Hp He. unfold request.
  replace (match payload_of e with Some payload => json_finite payload | None => true end) with true
    by (by destruct (payload_of e)).
  rewrite (bind_eq _ _ c (hc_exchanges c) c) by done. unfold modify at 1, mbind at 1, M_bind at 1. rewrite Hn.
  unfold served, serve, mbind, M_bind, authenticate, gets, attempt. rewrite He. cbn -[bool_decide handler].
  unfold mbind, M_bind. rewrite bool_decide_eq_true_2 by apply (lk_token c Hc). cbn -[handler].
  destruct (handle_ e' (hc_server c)) as [[x|j] s]; [done|]. by destruct (json_finite j).
Qed.
(** An exchange that the server serves, and whose answer is lost. *)
Definition lost (n : Exchange) : bool := match n with ReplyLost | Broken true => true | _ => false end.
(** What the caller of an exchange that is not answered gets. *)
Definition unanswered (c : Client) (e : Endpoint) : TransportExc :=
  match net (hc_exchanges c) with Broken _ => TConnection | _ => failure c e end.
Lemma request_lost c e e' : linked c → lost (net (hc_exchanges c)) = true →
  match payload_of e with Some payload => json_finite payload = true | None => True end →
  route route_id e = Some e' →
  remote e c = (inl (unanswered c e), advance c (handle_ e' (hc_server c)).2).
Proof.
  intros Hc Hn Hp He. unfold request, unanswered.
  replace (match payload_of e with Some payload => json_finite payload | None => true end) with true
    by (by destruct (payload_of e)).
  rewrite (bind_eq _ _ c (hc_exchanges c) c) by done. unfold modify at 1, mbind at 1, M_bind at 1.
  destruct (net (hc_exchanges c)) as [| | |[]]; try done;
    unfold served, serve, mbind, M_bind, authenticate, gets, attempt; rewrite He; cbn -[bool_decide handler];
    unfold mbind, M_bind; rewrite bool_decide_eq_true_2 by apply (lk_token c Hc); cbn -[handler];
    by destruct (handle_ e' (hc_server c)) as [[x|j] s]; [|destruct (json_finite j)].
Qed.

(** *** A handoff *)

Lemma enqueue_worker l (w : Site S) :
  match submitted l w with
  | (inl _, w') => si_heap w' = si_heap w ∧ mw_queue (si_worker w') = mw_queue (si_worker w)
  | (inr _, w') => ∃ t r, f_isfinite t = true ∧ transition QUEUED t (si_heap w !!! l) = Ok r ∧
      si_heap w' = <[l := r]> (si_heap w) ∧ mw_queue (si_worker w') = mw_queue (si_worker w) ++ [l]
  end.
Proof.
  unfold enqueue_request. rewrite (bind_eq get_worker _ w (si_worker w) w) by done.
  rewrite (bind_eq (Worker.get_request l) _ w (si_heap w !!! l) w) by done.
  do 5 match goal with |- context [if ?b then _ else _] => destruct b; [done|] end.
  assert (transition_now clock l QUEUED w = match transition QUEUED (clock (si_readings w)) (si_heap w !!! l) with
    | Ok r => (inr tt, w <| si_readings ::= Datatypes.S |> <| si_heap ::= <[l := r]> |>)
    | Err e => (inl (EPy e), w <| si_readings ::= Datatypes.S |>)
    end) as E.
  { unfold transition_now, transition_at, mbind, M_bind, Worker.monotonic, Worker.get_request, gets. cbn.
    by destruct (transition QUEUED _ _). }
  destruct (transition QUEUED (clock (si_readings w)) (si_heap w !!! l)) as [r|e] eqn:Et.
  - rewrite (bind_eq _ _ _ _ _ E). cbn. by exists (clock (si_readings w)), r.
  - by rewrite (bind_raise _ _ _ _ _ E).
Qed.
Lemma post_request_spec s r : server_ok s → sound r → sv_requests s !! r_request_id r = None →
  let l := fresh (dom (heap_of s)) in
  let '(outcome, w) := submitted l (sv_worker s <| si_heap ::= <[l := r]> |>) in
  let s' := s <| sv_worker := w |> in
  match outcome with
  | inl e => handle_ (PostRequest (request_to_dict r)) s = (inl (HServer e), s') ∧ kept s s'
  | inr _ =>
    let s' := s' <| sv_requests ::= <[r_request_id r := l]> |> in
    handle_ (PostRequest (request_to_dict r)) s = (inr (request_to_dict (heap_of s' !!! l)), s') ∧
    server_ok s' ∧ identity (heap_of s' !!! l) = identity r ∧ sound (heap_of s' !!! l) ∧
    ∀ id l', sv_requests s !! id = Some l' → heap_of s' !!! l' = heap_of s !!! l'
  end.
Proof.
  intros Hs Hr Hid l. set (w1 := sv_worker s <| si_heap ::= <[l := r]> |>).
  assert (heap_of s !! l = None) as Hl by (apply not_elem_of_dom, is_fresh).
  assert (∀ id l', sv_requests s !! id = Some l' → l ≠ l') as Hne.
  { intros id l' Hl' <-. destruct (so_object s Hs id l Hl') as [[x Hx] _]. congruence. }
  assert (∀ l', l' ∈ queue_of s → l ≠ l') as Hnq by (intros l' Hl'%(so_queue s Hs); by eapply Hne).
  pose proof (enqueue_worker l w1) as Hw. destruct (submitted l w1) as [outcome w] eqn:Ew.
  assert (handle_ (PostRequest (request_to_dict r)) s = match outcome with
    | inl e => (inl (HServer e), s <| sv_worker := w |>)
    | inr _ => (inr (request_to_dict (si_heap w !!! l)),
                s <| sv_worker := w |> <| sv_requests ::= <[r_request_id r := l]> |>)
    end) as Eh.
  { unfold handler, body_object, post_request. rewrite (bind_eq _ _ s tt s) by done.
    rewrite (request_roundtrip show int_of_str float_of_str) by apply Hr. rewrite (bind_eq _ _ s r s) by done.
    rewrite (bind_eq _ _ s l (s <| sv_worker := w1 |>)) by done. unfold mbind at 1, M_bind at 1.
    unfold on_worker at 1. change (sv_worker (s <| sv_worker := w1 |>)) with w1. rewrite Ew. destruct outcome; done. }
  clearbody l. destruct outcome as [e|[]]; cbv beta iota zeta.
  - split; [exact Eh|]. destruct Hw as [Eheap Equeue]. apply holds_kept; [split; [exact Hs|apply steady_refl]|]. split.
    + rewrite Eheap. intros id l' Hl'. cbn. rewrite lookup_insert_ne, lookup_total_insert_ne by (by eapply Hne).
      destruct (so_object s Hs id l' Hl') as (? & ? & ?). done.
    + rewrite Equeue. intros l' Hl'. eexists. by apply (so_queue s Hs).
  - destruct Hw as (t & r' & Ht & Etr & Eheap & Equeue). cbn in Etr. rewrite lookup_total_insert_eq in Etr.
    cbn [sv_worker]. assert (si_heap w !!! l = r') as El by (by rewrite Eheap, lookup_total_insert_eq).
    assert (sound r') as Hr' by (by eapply sound_transition).
    pose proof (transition_identity _ _ _ _ Etr) as Hi. pose proof (identity_id _ _ Hi) as Hrid.
    assert (∀ id l', sv_requests s !! id = Some l' → si_heap w !!! l' = heap_of s !!! l') as Hsame.
    { intros id l' Hl'. rewrite Eheap. cbn. by rewrite !lookup_total_insert_ne by (by eapply Hne). }
    split; [exact Eh|]. set (s' := s <| sv_worker := w |> <| sv_requests ::= _ |>).
    change (heap_of s') with (si_heap w). rewrite El. split_and!; [|exact Hi|exact Hr'|exact Hsame]. split; cbn.
    + intros id l' [[<- <-]|[Hn Hl']]%lookup_insert_Some.
      * rewrite El. split_and!; [|exact Hrid|exact Hr']. rewrite Eheap, lookup_insert_eq. by eexists.
      * rewrite (Hsame id l' Hl'). destruct (so_object s Hs id l' Hl') as (Hx & ? & ?). split_and!; [|done..].
        rewrite Eheap. cbn. by rewrite !lookup_insert_ne by (by eapply Hne).
    + rewrite Equeue. intros l' [Hl'|Hl']%elem_of_app.
      * pose proof (so_queue s Hs l' Hl') as Hq. rewrite (Hsame _ l' Hq), lookup_insert_ne; [exact Hq|congruence].
      * apply list_elem_of_singleton in Hl' as ->. by rewrite El, Hrid, lookup_insert_eq.
Qed.

#[local] Abbreviation remote_enqueue := (remote_enqueue_request show int_of_str float_of_str clock perf hostname quote route_id net).
Lemma apply_sound (c : Client) l r : sound r → identity r = identity (hc_heap c !!! l) →
  apply_to show int_of_str float_of_str l (request_to_dict r) c = (inr tt, c <| hc_heap ::= <[l := r]> |>).
Proof.
  intros [Hr _] Hi. unfold apply_to, get_record. rewrite (bind_eq _ _ c (hc_heap c !!! l) c) by done.
  unfold apply_request_dict. rewrite (request_roundtrip show int_of_str float_of_str r Hr). cbn.
  by rewrite (adopt_same _ _ Hi).
Qed.
(** What becomes of a handoff. The exchange may not reach the worker. Otherwise the worker enqueues a copy of
    the record, or refuses it; when the answer comes, the caller's record becomes the copy and the handle tracks
    it; when the answer is lost, the caller gets the error and knows nothing of the copy. *)
Definition hands_over (c : Client) (l : loc) : Prop :=
  let r := hc_heap c !!! l in
  let ls := fresh (dom (heap_of (hc_server c))) in
  let refusal := unanswered c (PostRequest (request_to_dict r)) in
  match net (hc_exchanges c) with
  | NotSent | Broken false => remote_enqueue l c = (inl refusal, c <| hc_exchanges ::= Datatypes.S |>)
  | n =>
    match submitted ls (sv_worker (hc_server c) <| si_heap ::= <[ls := r]> |>) with
    | (inr _, w) => ∃ c', linked c' ∧ sv_worker (hc_server c') = w ∧
        sv_requests (hc_server c') = <[r_request_id r := ls]> (sv_requests (hc_server c)) ∧
        match n with
        | Answered => remote_enqueue l c = (inr tt, c') ∧ hc_heap c' = <[l := si_heap w !!! ls]> (hc_heap c) ∧
            hc_requests c' = <[r_request_id r := l]> (hc_requests c)
        | _ => remote_enqueue l c = (inl refusal, c') ∧ hc_heap c' = hc_heap c ∧ hc_requests c' = hc_requests c
        end
    | (inl _, w) => ∃ c', remote_enqueue l c = (inl refusal, c') ∧ linked c' ∧
        sv_worker (hc_server c') = w ∧ hc_heap c' = hc_heap c ∧ hc_requests c' = hc_requests c
    end
  end.
Lemma advance_linked (c : Client) s : linked (c <| hc_server := s |>) → linked (advance c s).
Proof. intros Hc. by apply (linked_other _ (λ c, c <| hc_exchanges ::= Datatypes.S |>)) in Hc. Qed.
Lemma enqueue_refused c l e c' :
  remote (PostRequest (request_to_dict (hc_heap c !!! l))) c = (inl e, c') → remote_enqueue l c = (inl e, c').
Proof.
  intros E. unfold remote_enqueue_request. rewrite (bind_eq _ _ c (hc_heap c !!! l) c) by done.
  by rewrite (bind_raise _ _ _ _ _ E).
Qed.
(** The handle tracks the request from the answer on. *)
Lemma tracked_linked c l s ls : linked (advance c s) → sv_requests s !! r_request_id (hc_heap c !!! l) = Some ls →
  identity (heap_of s !!! ls) = identity (hc_heap c !!! l) →
  linked (advance c s <| hc_heap ::= <[l := heap_of s !!! ls]> |> <| hc_requests ::= <[r_request_id (hc_heap c !!! l) := l]> |>).
Proof.
  intros Hc Hls Hi. pose proof Hc as [Ht Hs Hk Hm]. split; [exact Ht|exact Hs| |].
  - intros id [lc Hlc]. change (<[r_request_id (hc_heap c !!! l) := l]> (hc_requests c) !! id = Some lc) in Hlc.
    apply lookup_insert_Some in Hlc as [[<- _]|[_ Hlc]]; [by exists ls|]. by apply (Hk id).
  - intros id lc ls' Hlc Hls'. change (<[r_request_id (hc_heap c !!! l) := l]> (hc_requests c) !! id = Some lc) in Hlc.
    change (sv_requests s !! id = Some ls') in Hls'.
    change (identity (<[l := heap_of s !!! ls]> (hc_heap c) !!! lc) = identity (heap_of s !!! ls')).
    apply lookup_insert_Some in Hlc as [[<- <-]|[Hne Hlc]].
    + rewrite lookup_total_insert_eq. congruence.
    + rewrite lookup_total_insert_ne; [by apply (Hm id)|]. intros <-.
      apply Hne. by apply (linked_id (advance c s) id l).
Qed.
Lemma enqueue_answered c l : linked c → handed_over c l →
  json_finite (request_to_dict (hc_heap c !!! l)) = true → hands_over c l.
Proof.
  intros Hc [Hnew Hok] Hf. unfold hands_over. set (r := hc_heap c !!! l) in *.
  set (refusal := unanswered c (PostRequest (request_to_dict r))).
  assert (lost (net (hc_exchanges c)) = false → net (hc_exchanges c) ≠ Answered →
    remote_enqueue l c = (inl refusal, c <| hc_exchanges ::= Datatypes.S |>)) as Hnot.
  { intros Hl Ha. apply enqueue_refused. fold r. unfold request. cbn [payload_of]. rewrite Hf. unfold refusal, unanswered.
    unfold mbind, M_bind, gets, modify. by destruct (net (hc_exchanges c)) as [| | |[]]. }
  pose proof (post_request_spec (hc_server c) r (lk_server c Hc) (conj Hok Hf) Hnew) as Hp. cbv beta zeta in Hp.
  set (ls := fresh (dom (heap_of (hc_server c)))) in *.
  set (post := PostRequest (request_to_dict r)) in *.
  pose proof (request_answered c post post Hc) as Er. pose proof (request_lost c post post Hc) as El.
  destruct (submitted ls _) as [[e|[]] w]; destruct Hp as [Eh Hs]; rewrite Eh in Er, El.
  - pose proof (advance_linked c _ (linked_kept c _ Hc Hs)) as Ha.
    destruct (net (hc_exchanges c)) as [| | |[]] eqn:En; try (by apply Hnot);
      (eexists; split; [apply enqueue_refused; fold r; fold post|by split_and!]).
    + rewrite (Er eq_refl Hf eq_refl). unfold refusal, unanswered. by rewrite En.
    + apply (El eq_refl Hf eq_refl).
    + apply (El eq_refl Hf eq_refl).
  - set (s' := hc_server c <| sv_worker := w |> <| sv_requests ::= <[r_request_id r := ls]> |>) in *.
    destruct Hs as (Hs' & Hi & Hsound & Hsame). cbn [payload_of] in Er. rewrite (proj2 Hsound) in Er.
    assert (linked (advance c s')) as Ha.
    { apply advance_linked, linked_server; [done..|]. intros id l' Hl'. split; [|by rewrite (Hsame id)].
      cbn. rewrite lookup_insert_ne; [done|]. intros <-. congruence. }
    assert (sv_requests s' !! r_request_id r = Some ls) as Hls by apply lookup_insert_eq.
    destruct (net (hc_exchanges c)) as [| | |[]] eqn:En; try (by apply Hnot).
    2,3: exists (advance c s'); split_and!; try done; apply enqueue_refused, (El eq_refl Hf eq_refl).
    specialize (Er eq_refl Hf eq_refl).
    pose proof (apply_sound (advance c s') l _ Hsound Hi) as Eapp.
    exists (advance c s' <| hc_heap ::= <[l := heap_of s' !!! ls]> |> <| hc_requests ::= <[r_request_id r := l]> |>).
    split_and!; try done.
    + by apply tracked_linked.
    + unfold remote_enqueue_request. rewrite (bind_eq _ _ c r c) by done. rewrite (bind_eq _ _ _ _ _ Er).
      rewrite (bind_eq _ _ _ _ _ Eapp). set (c1 := advance c s' <| hc_heap ::= _ |>).
      rewrite (bind_eq _ _ c1 (hc_heap c1 !!! l) c1) by done.
      assert (hc_heap c1 !!! l = heap_of s' !!! ls) as -> by apply lookup_total_insert_eq.
      by rewrite (identity_id _ _ Hi).
Qed.

Lemma handed_over_linked c l r c' : linked c → handed_over c l → remote_enqueue l c = (r, c') → linked c'.
Proof.
  intros Hc Hh E. destruct (json_finite (request_to_dict (hc_heap c !!! l))) eqn:Hf.
  2:{ assert (remote_enqueue l c = (inl (TPy not_compliant), c)) as E'; [|congruence].
      apply enqueue_refused. unfold request. cbn [payload_of]. by rewrite Hf. }
  pose proof (enqueue_answered c l Hc Hh Hf) as Hx. unfold hands_over in Hx.
  assert (linked (c <| hc_exchanges ::= Datatypes.S |>)) as Hs
    by (by apply (linked_other c (λ c, c <| hc_exchanges ::= Datatypes.S |>))).
  destruct (submitted _ _) as [[e|[]] w], (net (hc_exchanges c)) as [| | |[]];
    first [by (rewrite Hx in E; injection E as _ <-)
          |destruct Hx as (c1 & E1 & Hl & _); rewrite E1 in E; by injection E as _ <-
          |destruct Hx as (c1 & Hl & _ & _ & E1 & _); rewrite E1 in E; by injection E as _ <-].
Qed.
Lemma step_linked c c' : linked c → client_step c c' → linked c'.
Proof.
  intros Hc Hstep. destruct Hstep as [c call r c' Hh E|c h Hh].
  - assert ((∃ l, call = RcEnqueue l) ∨ ∀ l, call ≠ RcEnqueue l) as [[l ->]|Hn]
      by (destruct call; try (by right); left; by eexists).
    + apply (handed_over_linked c l r); [exact Hc|by apply Hh|exact E].
    + pose proof (call_linked call Hn c Hc) as Hl. rewrite E in Hl. by destruct r.
  - by apply linked_heap.
Qed.

(** *** A cancellation *)

#[local] Abbreviation remote_cancel := (remote_cancel_request show int_of_str float_of_str clock perf hostname quote route_id net).
(** The worker cancels, its answer is the caller's, and the record of a request that the handle tracks becomes the
    worker's. *)
Definition cancels (c : Client) (id : string) : Prop :=
  match cancel_request clock id (sv_worker (hc_server c)) with
  | (inr b, w) => ∃ c', remote_cancel id c = (inr b, c') ∧ sv_worker (hc_server c') = w ∧
      hc_heap c' = match hc_requests c !! id, sv_requests (hc_server c) !! id with
                   | Some l, Some ls => <[l := si_heap w !!! ls]> (hc_heap c)
                   | _, _ => hc_heap c
                   end
  | (inl _, w) => ∃ message c', remote_cancel id c = (inl (TTransport message), c') ∧
      sv_worker (hc_server c') = w ∧ hc_heap c' = hc_heap c
  end.
Lemma cancel_answered c id : linked c → net (hc_exchanges c) = Answered → route_id id = Some id → cancels c id.
Proof.
  intros Hc Hn Hid. unfold cancels.
  assert (route route_id (DeleteRequest id) = Some (DeleteRequest id)) as Hr by (cbn; by rewrite Hid).
  pose proof (request_answered c (DeleteRequest id) _ Hc Hn I Hr) as Er.
  pose proof (worker_moves (hc_server c) (cancel_request clock id)
    (λ s, moves_cancel clock perf _ _ finite clock_finite (objects_transition s) id) (hc_server c)
    (conj (lk_server c Hc) (steady_refl _))) as Hk.
  unfold handler, delete_request in Er.
  destruct (cancel_request clock id (sv_worker (hc_server c))) as [[e|b] w] eqn:Ew;
    unfold on_worker in Hk; rewrite Ew in Hk.
  { rewrite (bind_raise _ _ (hc_server c) (HServer e) (hc_server c <| sv_worker := w |>)) in Er
      by (unfold on_worker; by rewrite Ew).
    eexists _, _. unfold remote_cancel_request. by rewrite (bind_raise _ _ _ _ _ Er). }
  set (s' := hc_server c <| sv_worker := w |>) in *.
  rewrite (bind_eq _ _ (hc_server c) b s') in Er by (unfold on_worker; by rewrite Ew).
  rewrite (bind_eq (tracked_request id) _ s' ((λ l, heap_of s' !!! l) <$> sv_requests s' !! id) s') in Er by done.
  change (sv_requests s') with (sv_requests (hc_server c)) in Er. change (heap_of s') with (si_heap w) in Er.
  destruct (sv_requests (hc_server c) !! id) as [ls|] eqn:Els.
  - destruct (so_object s' (proj1 Hk) id ls Els) as (_ & Hid' & Hsound).
    assert (json_finite (JObj [("cancelled", JBool b); ("request", request_to_dict (heap_of s' !!! ls))]) = true) as Hf.
    { cbn [json_finite forallb snd]. by rewrite (proj2 Hsound). }
    cbn -[json_finite request] in Er. change (si_heap w !!! ls) with (heap_of s' !!! ls) in Er. rewrite Hf in Er.
    destruct (hc_requests c !! id) as [l|] eqn:Hl.
    2:{ exists (advance c s'). split; [|done]. unfold remote_cancel_request. rewrite (bind_eq _ _ _ _ _ Er).
      rewrite (bind_eq _ _ (advance c s') (request_to_dict (heap_of s' !!! ls)) (advance c s')) by done.
      rewrite (bind_eq _ _ (advance c s') (hc_requests c) (advance c s')) by done. rewrite Hl. by destruct b. }
    assert (identity (heap_of s' !!! ls) = identity (hc_heap (advance c s') !!! l)) as Hi.
    { rewrite (sd_identity _ _ (proj2 Hk) id ls Els). symmetry. by apply (lk_same c Hc id). }
    pose proof (apply_sound (advance c s') l _ Hsound Hi) as Ea.
    eexists. split.
    + unfold remote_cancel_request. rewrite (bind_eq _ _ _ _ _ Er).
      rewrite (bind_eq _ _ (advance c s') (request_to_dict (heap_of s' !!! ls)) (advance c s')) by done.
      rewrite (bind_eq _ _ (advance c s') (hc_requests c) (advance c s')) by done. rewrite Hl.
      rewrite (bind_eq _ _ (advance c s') tt _) by exact Ea. by destruct b.
    + done.
  - assert (hc_requests c !! id = None) as Hl.
    { apply eq_None_not_Some. intros Hs%(lk_known c Hc). rewrite Els in Hs. by apply is_Some_None in Hs. }
    rewrite Hl. cbn in Er. exists (advance c s'). split; [|done].
    unfold remote_cancel_request. rewrite (bind_eq _ _ _ _ _ Er).
    rewrite (bind_eq _ _ (advance c s') JNull (advance c s')) by done. by destruct b.
Qed.

(** *** A batch *)

#[local] Abbreviation remote_execute := (remote_execute_batch show int_of_str float_of_str clock perf hostname quote route_id net).
(** The server's record of a request, and its item of the response. *)
Definition server_record (s : Server S) (id : string) : RequestRecord :=
  match sv_requests s !! id with Some ls => heap_of s !!! ls | None => inhabitant end.
Definition item_of (s : Server S) (x : WorkerExecutionResult) : json :=
  JObj [("request_id", JStr (we_request_id x)); ("result", result_to_dict (we_result x));
        ("request", request_to_dict (server_record s (we_request_id x)))].
(** The results before the first of a request that the handle does not track, because the answer to its handoff was
    lost; and what the caller then gets. *)
Fixpoint reported (requests : gmap string loc) (xs : list WorkerExecutionResult) : list WorkerExecutionResult :=
  match xs with
  | [] => []
  | x :: xs => match requests !! we_request_id x with Some _ => x :: reported requests xs | None => [] end
  end.
Definition batch_answer (requests : gmap string loc) (xs : list WorkerExecutionResult)
  : TransportExc + list WorkerExecutionResult :=
  if bool_decide (Forall (λ x, is_Some (requests !! we_request_id x)) xs) then inr xs
  else inl (TTransport "worker returned an unknown request").
(** The worker runs a batch. When every result can be written, the results are the caller's if it tracks all the
    requests; else it gets an error and no results. The records of the results up to there become the worker's,
    the others staying as they are. *)
Definition executes (c : Client) : Prop :=
  match execute_batch clock perf (sv_worker (hc_server c)) with
  | (inr xs, w) => Forall (λ x, json_finite (result_to_dict (we_result x)) = true) xs →
      ∃ c', remote_execute c = (batch_answer (hc_requests c) xs, c') ∧
        sv_worker (hc_server c') = w ∧ hc_requests c' = hc_requests c ∧
        ∀ id l, hc_requests c !! id = Some l →
          if bool_decide (id ∈ we_request_id <$> reported (hc_requests c) xs)
          then hc_heap c' !!! l = server_record (hc_server c') id ∧ r_status (hc_heap c' !!! l) = COMPLETED
          else hc_heap c' !!! l = hc_heap c !!! l
  | (inl _, w) => ∃ message c', remote_execute c = (inl (TTransport message), c') ∧
      sv_worker (hc_server c') = w ∧ hc_heap c' = hc_heap c
  end.
Lemma execution_items_eq s xs : (∀ x, x ∈ xs → is_Some (sv_requests s !! we_request_id x)) →
  execution_items xs s = (inr (item_of s <$> xs), s).
Proof.
  induction xs as [|x xs IH]; intros Hx; [done|]. cbn [execution_items].
  assert (execution_item x s = (inr (item_of s x), s)) as E.
  { unfold execution_item, tracked_request, mbind, M_bind, gets, item_of, server_record.
    destruct (Hx x) as [ls ->]; [left|]. done. }
  rewrite (bind_eq _ _ _ _ _ E). rewrite (bind_eq _ _ s (item_of s <$> xs) s); [done|].
  apply IH. intros y Hy. apply Hx. by right.
Qed.
(** The heap after the loop. *)
Fixpoint adopted (s : Server S) (requests : gmap string loc) (xs : list WorkerExecutionResult) (h : heap) : heap :=
  match xs with
  | [] => h
  | x :: xs =>
    adopted s requests xs
      match requests !! we_request_id x with
      | Some l => <[l := server_record s (we_request_id x)]> h
      | None => h
      end
  end.
Lemma reported_elem requests xs x : x ∈ reported requests xs → x ∈ xs.
Proof.
  induction xs as [|y xs IH]; [done|]. cbn. destruct (requests !! we_request_id y); [|by intros ?%not_elem_of_nil].
  intros [->|Hx]%elem_of_cons; [left|right; by apply IH].
Qed.
Lemma all_tracked (requests : gmap string loc) xs :
  Forall (λ x, is_Some (requests !! we_request_id x)) xs →
  batch_answer requests xs = inr xs ∧ reported requests xs = xs.
Proof.
  intros Hf. split; [by apply (bool_decide_eq_true_2 _) in Hf; unfold batch_answer; rewrite Hf|].
  induction Hf as [|x xs [l Hl] _ IH]; [done|]. cbn. by rewrite Hl, IH.
Qed.
Lemma batch_answer_cons requests x xs : batch_answer requests (x :: xs) =
  match requests !! we_request_id x with
  | Some _ => match batch_answer requests xs with inr xs => inr (x :: xs) | inl e => inl e end
  | None => inl (TTransport "worker returned an unknown request")
  end.
Proof.
  unfold batch_answer. destruct (requests !! we_request_id x) as [l|] eqn:El.
  - destruct (decide (Forall (λ x, is_Some (requests !! we_request_id x)) xs)) as [Hf|Hf].
    + by rewrite !bool_decide_eq_true_2 by (try constructor; done).
    + by rewrite !bool_decide_eq_false_2 by (rewrite ?Forall_cons; tauto).
  - rewrite bool_decide_eq_false_2; [done|]. rewrite Forall_cons, El. by intros [[? ?] _].
Qed.
Lemma adopt_executions_eq s xs (c : Client) :
  (∀ x, x ∈ xs → sound (server_record s (we_request_id x))) →
  (∀ id l, hc_requests c !! id = Some l → r_request_id (hc_heap c !!! l) = id) →
  (∀ x l, x ∈ xs → hc_requests c !! we_request_id x = Some l →
     identity (server_record s (we_request_id x)) = identity (hc_heap c !!! l)) →
  adopt_executions show int_of_str float_of_str (item_of s <$> xs) c
  = (batch_answer (hc_requests c) xs,
     c <| hc_heap := adopted s (hc_requests c) (reported (hc_requests c) xs) (hc_heap c) |>).
Proof.
  revert c. induction xs as [|x xs IH]; intros c Hx Hid Hsame; [by destruct c|].
  assert (x ∈ x :: xs) as Hin by left. pose proof (Hx x Hin) as Hsound. rewrite batch_answer_cons. cbn [reported].
  destruct (hc_requests c !! we_request_id x) as [l|] eqn:Hl.
  2:{ rewrite fmap_cons. cbn [adopt_executions adopted].
    assert (adopt_execution show int_of_str float_of_str (item_of s x) c
      = (inl (TTransport "worker returned an unknown request"), c)) as E.
    { unfold adopt_execution. rewrite (bind_eq _ _ c (JStr (we_request_id x)) c) by done. cbn [py_str].
      rewrite (bind_eq _ _ c (hc_requests c) c) by done. by rewrite Hl. }
    rewrite (bind_raise _ _ _ _ _ E). by destruct c. }
  set (r := server_record s (we_request_id x)). pose proof (Hsame x l Hin Hl) as Hi.
  set (c1 := c <| hc_heap ::= <[l := r]> |>).
  assert (adopt_execution show int_of_str float_of_str (item_of s x) c = (inr x, c1)) as E.
  { unfold adopt_execution. rewrite (bind_eq _ _ c (JStr (we_request_id x)) c) by done. cbn [py_str].
    rewrite (bind_eq _ _ c (hc_requests c) c) by done. rewrite Hl.
    rewrite (bind_eq _ _ c (request_to_dict r) c) by done. rewrite (bind_eq _ _ c tt c1) by (by apply apply_sound).
    rewrite (bind_eq _ _ c1 (result_to_dict (we_result x)) c1) by done.
    rewrite (result_roundtrip show int_of_str float_of_str). by destruct x. }
  rewrite fmap_cons. cbn [adopt_executions adopted]. rewrite (bind_eq _ _ _ _ _ E). rewrite Hl.
  assert (∀ id l', hc_requests c !! id = Some l' → identity (<[l := r]> (hc_heap c) !!! l') = identity (hc_heap c !!! l')) as Hkeep.
  { intros id l' Hl'. destruct (decide (l = l')) as [<-|]; [by rewrite lookup_total_insert_eq|by rewrite lookup_total_insert_ne]. }
  assert (adopt_executions show int_of_str float_of_str (item_of s <$> xs) c1
    = (batch_answer (hc_requests c) xs,
       c1 <| hc_heap := adopted s (hc_requests c) (reported (hc_requests c) xs) (hc_heap c1) |>)) as E1.
  2:{ destruct (batch_answer (hc_requests c) xs) as [e|ys]; [by rewrite (bind_raise _ _ _ _ _ E1)|].
    by rewrite (bind_eq _ _ _ _ _ E1). }
  apply (IH c1).
  - intros y Hy. apply Hx. by right.
  - intros id l' Hl'. rewrite <- (Hid id l' Hl'). by apply identity_id, (Hkeep id).
  - intros y l' Hy Hl'. change (hc_heap c1) with (<[l := r]> (hc_heap c)). rewrite (Hkeep _ l' Hl').
    apply Hsame; [by right|exact Hl'].
Qed.
Lemma adopted_lookup s requests xs h id l :
  (∀ id1 id2 l', requests !! id1 = Some l' → requests !! id2 = Some l' → id1 = id2) → requests !! id = Some l →
  adopted s requests xs h !!! l = if bool_decide (id ∈ we_request_id <$> xs) then server_record s id else h !!! l.
Proof.
  intros Hinj Hl. revert h. induction xs as [|x xs IH]; intros h; [done|]. cbn [adopted]. rewrite IH, fmap_cons.
  destruct (decide (id ∈ we_request_id <$> xs)) as [Hin|Hin].
  { rewrite !bool_decide_eq_true_2; [done|by right|done]. }
  rewrite (bool_decide_eq_false_2 (id ∈ _ <$> _)) by done. destruct (decide (id = we_request_id x)) as [->|Hne].
  - rewrite bool_decide_eq_true_2 by left. rewrite Hl. by rewrite lookup_total_insert_eq.
  - rewrite bool_decide_eq_false_2 by (by intros [?|?]%elem_of_cons).
    destruct (requests !! we_request_id x) as [l'|] eqn:El; [|done]. rewrite lookup_total_insert_ne; [done|].
    intros ->. apply Hne. by eapply Hinj.
Qed.

Lemma executes_results c xs w : executes c → execute_batch clock perf (sv_worker (hc_server c)) = (inr xs, w) →
  Forall (λ x, json_finite (result_to_dict (we_result x)) = true) xs →
  ∃ c', remote_execute c = (batch_answer (hc_requests c) xs, c') ∧
    ∀ id l, hc_requests c !! id = Some l → id ∈ we_request_id <$> reported (hc_requests c) xs →
    r_status (hc_heap c' !!! l) = COMPLETED.
Proof.
  unfold executes. intros He E Hf. rewrite E in He. destruct (He Hf) as (c' & Er & _ & _ & Hrec).
  exists c'. split; [exact Er|]. intros id l Hl Hin. specialize (Hrec id l Hl).
  rewrite bool_decide_eq_true_2 in Hrec by done. apply Hrec.
Qed.
(** The server's side: every result is of a request that it remembers, as it now is. *)
Lemma post_execute_spec s : server_ok s →
  let '(outcome, w) := execute_batch clock perf (sv_worker s) in
  let s' := s <| sv_worker := w |> in
  match outcome with
  | inl e => handle_ PostExecute s = (inl (HServer e), s')
  | inr xs =>
    handle_ PostExecute s = (inr (JObj [("executions", JList (item_of s' <$> xs))]), s') ∧ kept s s' ∧
    ∀ x, x ∈ xs → ∃ ls, sv_requests s' !! we_request_id x = Some ls ∧
      server_record s' (we_request_id x) = heap_of s' !!! ls ∧ r_status (heap_of s' !!! ls) = COMPLETED
  end.
Proof.
  intros Hs. pose proof (execute_batch_moves clock perf (objects s) (remembered s) finite clock_finite
    (objects_transition s) _ (server_holds s Hs)) as Hx.
  destruct (execute_batch clock perf (sv_worker s)) as [outcome w] eqn:Ew. cbv beta iota zeta.
  unfold handler, post_execute. destruct outcome as [e|xs].
  { by rewrite (bind_raise _ _ s (HServer e) (s <| sv_worker := w |>)) by (unfold on_worker; by rewrite Ew). }
  destruct Hx as [Hw Hx]. set (s' := s <| sv_worker := w |>).
  pose proof (holds_kept _ _ w (conj Hs (steady_refl _)) Hw) as Hk.
  assert (∀ x, x ∈ xs → ∃ ls, sv_requests s' !! we_request_id x = Some ls ∧
    server_record s' (we_request_id x) = heap_of s' !!! ls ∧ r_status (heap_of s' !!! ls) = COMPLETED) as Hrec.
  { intros x (ls & [id Hid] & Hxid & Hst)%Hx. exists ls.
    assert (sv_requests s' !! we_request_id x = Some ls) as E.
    { rewrite Hxid. change (si_heap w) with (heap_of s'). by destruct (so_object s' (proj1 Hk) id ls Hid) as (_ & -> & _). }
    split_and!; [exact E| |exact Hst]. unfold server_record. by rewrite E. }
  split; [|by split]. rewrite (bind_eq _ _ s xs s') by (unfold on_worker; by rewrite Ew).
  rewrite (bind_eq _ _ s' (item_of s' <$> xs) s'); [done|].
  apply execution_items_eq. intros x (ls & -> & _)%Hrec. by eexists.
Qed.
Lemma execute_answered c : linked c → net (hc_exchanges c) = Answered → executes c.
Proof.
  intros Hc Hn. unfold executes. pose proof (request_answered c PostExecute _ Hc Hn I eq_refl) as Er.
  pose proof (post_execute_spec (hc_server c) (lk_server c Hc)) as Hx.
  destruct (execute_batch clock perf (sv_worker (hc_server c))) as [[e|xs] w]; cbv beta iota zeta in Hx.
  { rewrite Hx in Er. eexists _, _. unfold remote_execute_batch. by rewrite (bind_raise _ _ _ _ _ Er). }
  intros Hf. set (s' := hc_server c <| sv_worker := w |>) in *. destruct Hx as (Eh & Hk & Hrec). rewrite Eh in Er.
  assert (json_finite (JObj [("executions", JList (item_of s' <$> xs))]) = true) as Hj.
  { cbn [json_finite forallb snd]. rewrite andb_true_r. apply forallb_forall. intros j Hj%list_elem_of_In.
    apply list_elem_of_fmap in Hj as (x & -> & Hin). rewrite Forall_forall in Hf.
    destruct (Hrec x Hin) as (ls & Els & Es & _). unfold item_of. cbn [json_finite forallb snd].
    rewrite (Hf x Hin), Es. by rewrite (proj2 (proj2 (proj2 (so_object s' (proj1 Hk) _ _ Els)))). }
  rewrite Hj in Er. set (c1 := advance c s') in *. pose proof (advance_linked c s' (linked_kept c s' Hc Hk)) as Hc1.
  assert (adopt_executions show int_of_str float_of_str (item_of s' <$> xs) c1
    = (batch_answer (hc_requests c1) xs,
       c1 <| hc_heap := adopted s' (hc_requests c1) (reported (hc_requests c1) xs) (hc_heap c1) |>)) as Ea.
  { apply adopt_executions_eq.
    - intros x Hin. destruct (Hrec x Hin) as (ls & Els & -> & _). by apply (so_object s' (proj1 Hk) _ _ Els).
    - intros id l. by apply linked_id.
    - intros x l Hin Hl. destruct (Hrec x Hin) as (ls & Els & -> & _). symmetry.
      by apply (lk_same c1 Hc1 (we_request_id x) l ls). }
  set (ys := reported (hc_requests c1) xs) in *.
  set (h := adopted s' (hc_requests c1) ys (hc_heap c1)) in *. exists (c1 <| hc_heap := h |>). split.
  { unfold remote_execute_batch. rewrite (bind_eq _ _ _ _ _ Er).
    rewrite (bind_eq _ _ c1 (JList (item_of s' <$> xs)) c1) by done.
    rewrite (bind_eq _ _ c1 (item_of s' <$> xs) c1) by done. exact Ea. }
  split_and!; [done|done|]. intros id l Hl.
  change (hc_heap (c1 <| hc_heap := h |>)) with h. unfold h.
  rewrite (adopted_lookup s' (hc_requests c1) ys (hc_heap c1) id l); [| |exact Hl].
  2:{ intros id1 id2 l' H1 H2. rewrite <- (linked_id c1 id1 l') by done. by rewrite (linked_id c1 id2 l'). }
  change (reported (hc_requests c) xs) with ys.
  destruct (bool_decide_reflect (id ∈ we_request_id <$> ys)) as [Hin|]; [|done]. split; [done|].
  apply list_elem_of_fmap in Hin as (x & -> & Hin%reported_elem). by destruct (Hrec x Hin) as (ls & _ & -> & Hst).
Qed.

(** ** The theorem *)

(** A handle and a server process at their start. *)
Definition fresh_pair (c : Client) : Prop :=
  ∃ (worker : Site S) models worker_id base_url token timeout h registry server,
    mw_queue (si_worker worker) = [] ∧
    create_worker_http_app worker models token = Ok server ∧
    HttpWorkerClient_init worker_id base_url token timeout h registry server = Ok c.
Lemma fresh_linked c : fresh_pair c → linked c.
Proof.
  intros (w & models & i & u & token & t & h & registry & s & Hq & Es & Ec).
  unfold create_worker_http_app in Es. apply bind_Ok_inv in Es as (_ & _ & [= <-]).
  unfold HttpWorkerClient_init in Ec. apply bind_Ok_inv in Ec as (_ & _ & [= <-]).
  split; cbn; [done| | |].
  - split; cbn; [by intros id l Hl%lookup_empty_Some|]. rewrite Hq. by intros l ?%not_elem_of_nil.
  - intros id. rewrite lookup_empty. by intros ?%is_Some_None.
  - intros id lc ls Hl. by apply lookup_empty_Some in Hl.
Qed.
(** C10: The transport tells the truth about the worker, and exactly what it knows. After any calls of a handle,
    over a network that may lose any exchange or any answer, and with any changes that the owner makes to records
    without touching their identity (the one thing excluded is to hand over, again, a request that the worker
    already has): every request that the handle tracks is one object of the worker's process with the same
    identity. The next handoff does on the worker what the worker's own method does, or nothing when it is not
    delivered; the caller's record becomes the worker's copy and is tracked only when the answer comes. When the
    next exchange is answered, a cancellation or a batch has on the worker exactly the effect of the worker's own
    method. A cancellation returns its result. A batch returns its results when the handle tracks every one of
    them; when it does not, since the answer to a handoff was lost, the caller gets the error (worker returned an
    unknown request) and no result. The records reported up to there become equal to the worker's own, COMPLETED
    for a batch, and the other records stay as they are. An exception of the worker is a transport error. *)
Theorem remote_worker_faithful c0 c :
  fresh_pair c0 → rtc client_step c0 c →
  (∀ id l, hc_requests c !! id = Some l → ∃ ls, sv_requests (hc_server c) !! id = Some ls ∧
     identity (hc_heap c !!! l) = identity (heap_of (hc_server c) !!! ls)) ∧
  (∀ l, handed_over c l → json_finite (request_to_dict (hc_heap c !!! l)) = true → hands_over c l) ∧
  (net (hc_exchanges c) = Answered → (∀ id, route_id id = Some id → cancels c id) ∧ executes c).
Proof.
  intros Hf Hsteps. assert (linked c) as Hc.
  { apply fresh_linked in Hf. induction Hsteps as [|c0 c1 c2 Hs _ IH]; [exact Hf|]. apply IH. by eapply step_linked. }
  split_and!.
  - intros id l Hl. destruct (lk_known c Hc id (mk_is_Some _ _ Hl)) as [ls Hls].
    exists ls. split; [exact Hls|]. by apply (lk_same c Hc id).
  - intros l Hh Hj. by apply enqueue_answered.
  - intros Hn. split; [intros id Hid; by apply cancel_answered|by apply execute_answered].
Qed.
End safe.

(** ** A run *)

#[local] Existing Instance WorkerSafe.sample_runtime.
Section sample.
Variable net : nat → Exchange.
#[local] Abbreviation still := (λ _ : nat, f_of_Z 5).
#[local] Abbreviation num := (λ _ : string, Err (ValueError "")).
#[local] Abbreviation call_ := (remote_call (λ _, "") num num still still "host" still id Some net).
Definition sample_server : Server (gset string) :=
  mkServer (mkSite ∅ (mkWorkerRegistry (f_of_Z 30) (f_of_Z 10) ∅) ∅ WorkerSafe.sample_worker 0)
    {[ "m" := WorkerSafe.sample_model ]} ∅ "secret".
Definition sample_client : HttpWorkerClient (gset string) :=
  mkClient "w" "http://worker" "secret" (f_of_Z 5) ∅ ∅ (mkWorkerRegistry (f_of_Z 30) (f_of_Z 10) ∅) 0 0 sample_server.
Definition sample_record (id : string) (stream : bool) : RequestRecord :=
  mkRequest id "t" "m" "hello" 3 4 0 (f_of_Z 100) stream f_zero f_zero ASSIGNED (Some "w") 0 [] true {[ ASSIGNED := f_zero ]}.
(** The owner creates an object. *)
Definition sample_create (l : loc) (r : RequestRecord) (c : HttpWorkerClient (gset string)) :=
  c <| hc_heap := <[l := r]> (hc_heap c) |>.
Definition sample_calls (calls : list RemoteCall) (c : HttpWorkerClient (gset string)) : HttpWorkerClient (gset string) :=
  foldl (λ c call, (call_ call c).2) c calls.
End sample.
#[local] Abbreviation num := (λ _ : string, Err (ValueError "")).
#[local] Abbreviation still := (λ _ : nat, f_of_Z 5).
(** The answer to a handoff is lost: the caller's record stays ASSIGNED, as after any refused handoff, while
    the worker has the request; handed over again, it runs twice. *)
Lemma lost_reply_duplicates :
  let net n := if Nat.eqb n 2 then ReplyLost else Answered in
  let call_ := remote_call (λ _, "") num num still still "host" still id Some net in
  let c := sample_create 1 (sample_record "a" false)
             (sample_calls net [RcRegister; RcLoad WorkerSafe.sample_model] sample_client) in
  let '(first, c) := call_ (RcEnqueue 1) c in
  let '(second, c') := call_ (RcEnqueue 1) c in
  first = inl (TTransport "worker w transport request failed: POST /internal/requests") ∧
  r_status (hc_heap c !!! 1%positive) = ASSIGNED ∧
  second = inr tt ∧
  match (execute_batch still still (sv_worker (hc_server c'))).1 with
  | inr xs => we_request_id <$> xs = ["a"; "a"]
  | inl _ => False
  end.
Proof. vm_compute. by split_and!. Qed.
(** The answer to a first handoff is lost; a second request is handed over and the worker completes both. The
    caller gets an error instead of the results, and its record of the second stays QUEUED. *)
Lemma lost_reply_drops_results :
  let net n := if Nat.eqb n 2 then ReplyLost else Answered in
  let call_ := remote_call (λ _, "") num num still still "host" still id Some net in
  let c := sample_create 2 (sample_record "b" false) (sample_create 1 (sample_record "a" false)
             (sample_calls net [RcRegister; RcLoad WorkerSafe.sample_model] sample_client)) in
  let '(r, c') := call_ RcExecute (sample_calls net [RcEnqueue 1; RcEnqueue 2] c) in
  r = inl (TTransport "worker returned an unknown request") ∧
  r_status (server_record (hc_server c') "a") = COMPLETED ∧ r_status (server_record (hc_server c') "b") = COMPLETED ∧
  r_status (hc_heap c' !!! 2%positive) = QUEUED.
Proof. vm_compute. by split_and!. Qed.
(** A batch that fails in the worker: the caller gets a transport error and its record stays QUEUED, while the
    worker's record is FAILED. *)
Lemma failed_batch_not_reported :
  let call_ := remote_call (λ _, "") num num still still "host" still id Some (λ _, Answered) in
  let c := sample_calls (λ _, Answered) [RcEnqueue 1] (sample_create 1 (sample_record "a" true)
             (sample_calls (λ _, Answered) [RcRegister; RcLoad WorkerSafe.sample_model] sample_client)) in
  let '(r, c') := call_ RcExecute c in
  r = inl (TTransport "worker w transport request failed: POST /internal/batches/execute") ∧
  r_status (hc_heap c' !!! 1%positive) = QUEUED ∧
  r_status (server_record (hc_server c') "a") = FAILED.
Proof. vm_compute. by split_and!. Qed.

Lemma sample_fresh : fresh_pair sample_client.
Proof.
  exists (sv_worker sample_server), [WorkerSafe.sample_model], "w", "http://worker/", "secret", (f_of_Z 5), ∅,
    (mkWorkerRegistry (f_of_Z 30) (f_of_Z 10) ∅), sample_server. split_and!; vm_compute; reflexivity.
Qed.
Section steps.
Variable net : nat → Exchange.
#[local] Abbreviation step := (client_step (λ _, "") num num still still "host" still id Some net).
Lemma sample_call_step calls c :
  (∀ call l, call ∈ calls → call ≠ RcEnqueue l) → rtc step c (sample_calls net calls c).
Proof.
  revert c. induction calls as [|call calls IH]; intros c Hn; [done|].
  eapply rtc_l; [|apply IH; intros call' l Hin; apply Hn; by right].
  destruct (remote_call _ _ _ _ _ _ _ _ _ net call c) as [r c'] eqn:E. 
  eapply StCall; [|exact E]. intros l ->. by destruct (Hn (RcEnqueue l) l); [left|].
Qed.
End steps.
#[local] Abbreviation always := (λ _ : nat, Answered).
#[local] Abbreviation sample_step := (client_step (λ _, "") num num still still "host" still id Some always).
Lemma sample_create_step l r c : hc_requests c = ∅ → sample_step c (sample_create l r c).
Proof. intros E. apply StOwner. rewrite E. by intros id l' ?%lookup_empty_Some. Qed.
Lemma sample_handoff l c : handed_over c l → sample_step c (sample_calls always [RcEnqueue l] c).
Proof.
  intros Hh. unfold sample_calls. cbn [foldl]. destruct (remote_call _ _ _ _ _ _ _ _ _ _ _ c) as [r c'] eqn:E.
  eapply StCall; [|exact E]. by intros l' [= <-].
Qed.
Definition sample_loaded : HttpWorkerClient (gset string) :=
  sample_calls always [RcRegister; RcLoad WorkerSafe.sample_model] sample_client.
Definition sample_ready : HttpWorkerClient (gset string) :=
  sample_create 2 (sample_record "b" false) (sample_create 1 (sample_record "a" false) sample_loaded).
Definition sample_half : HttpWorkerClient (gset string) := sample_calls always [RcEnqueue 1] sample_ready.
Definition sample_served : HttpWorkerClient (gset string) := sample_calls always [RcEnqueue 2] sample_half.
Lemma transport_run : rtc sample_step sample_client sample_served.
Proof.
  transitivity sample_loaded.
  { apply sample_call_step. intros call l Hin E. rewrite E in Hin.
    by repeat (apply elem_of_cons in Hin as [Hin|Hin]; [done|]); apply not_elem_of_nil in Hin. }
  transitivity sample_ready.
  { eapply rtc_l; [apply (sample_create_step 1 (sample_record "a" false))|].
    - vm_compute. reflexivity.
    - apply rtc_once, (sample_create_step 2 (sample_record "b" false)). vm_compute. reflexivity. }
  transitivity sample_half; apply rtc_once.
  - apply (sample_handoff 1). split; [|split; [|left]]; vm_compute; reflexivity.
  - apply (sample_handoff 2). split; [|split; [|left]]; vm_compute; reflexivity.
Qed.
Lemma remote_worker_faithful_witness :
  ∃ xs c', remote_execute_batch (λ _, "") num num still still "host" id Some always sample_served = (inr xs, c') ∧
    we_request_id <$> xs = ["a"; "b"] ∧
    r_status (hc_heap c' !!! 1%positive) = COMPLETED ∧ r_status (hc_heap c' !!! 2%positive) = COMPLETED.
Proof.
  destruct (remote_worker_faithful (λ _, "") num num still still "host" still id Some always ltac:(done)
    sample_client sample_served sample_fresh transport_run) as (_ & _ & Hx).
  destruct (Hx eq_refl) as [_ He]. clear Hx.
  destruct (execute_batch still still (sv_worker (hc_server sample_served))) as [r w] eqn:E.
  assert (match r with
    | inr xs => Some (we_request_id <$> xs, (λ x, json_finite (result_to_dict (we_result x))) <$> xs)
    | inl _ => None end = Some (["a"; "b"], [true; true])) as Es.
  { change r with (r, w).1. rewrite <- E. vm_compute. reflexivity. }
  destruct r as [e|xs]; [discriminate|].
  assert (we_request_id <$> xs = ["a"; "b"]) as Hid by (clear He E; by injection Es).
  assert ((λ x, json_finite (result_to_dict (we_result x))) <$> xs = [true; true]) as Hfin by (clear He E; by injection Es).
  destruct (executes_results _ _ _ _ _ _ _ _ _ _ _ _ He E) as (c' & Er & Hrec); clear He E.
  { apply Forall_forall. intros x Hin.
    apply (list_elem_of_fmap_2 (λ x, json_finite (result_to_dict (we_result x)))) in Hin. rewrite Hfin in Hin.
    by repeat (apply elem_of_cons in Hin as [Hin|Hin]; [done|]); apply not_elem_of_nil in Hin. }
  destruct (all_tracked (hc_requests sample_served) xs) as [Ea Ep].
  { apply (proj1 (Forall_fmap we_request_id (λ id, is_Some (hc_requests sample_served !! id)) xs)). rewrite Hid.
    clear. repeat constructor; vm_compute; by eexists. }
  apply (λ E, eq_trans E (f_equal (λ a, (a, c')) Ea)) in Er. rewrite <- Ep in Hid. exists xs, c'. split; [exact Er|].
  split; [by rewrite <- Ep|]. rewrite Hid in Hrec.
  split; [apply (Hrec "a")|apply (Hrec "b")]; solve [vm_compute; reflexivity|by repeat constructor].
Defined.
