(* ===== verification/GatewayEdge.v ===== *)
(** [apps/gateway/errors.py], [schemas.py], [limits.py] and [auth.py]: the checks at the gateway's
    edge. Coroutines run one at a time between [await]s; the locks here guard sections without an
    [await], so they are never waited for and each method is one step. *)
From S2P Require Import Prelude PyContainers PyFloat PyText Json Effects.
From Stdlib Require String.
From Stdlib Require Import Ascii.
From stdpp Require Import pretty.

#[local] Open Scope string_scope.
#[local] Open Scope list_scope.
#[local] Open Scope Z_scope.

(** ** [errors.py] *)

Record APIError := mkAPIError {
  ae_status_code : Z;
  ae_code : string;
  ae_message : string;
  ae_details : json
}.
(** What a handler may raise; [GCancelled] is [asyncio.CancelledError], [GBackend] an exception of
    the model or the tokenizer. *)
Inductive GwExc := GApi (e : APIError) | GPy (e : PyErr) | GCancelled | GBackend (message : string).
Definition api_error {W A} (status : Z) (code message : string) (details : json) : Eff W GwExc A :=
  raise (GApi (mkAPIError status code message details)).
Definition py_raise {W A} (e : PyErr) : Eff W GwExc A := raise (GPy e).
Definition lift_py {W A} (r : res A) : Eff W GwExc A :=
  match r with Ok a => mret a | Err e => py_raise e end.
Definition when {W} (b : bool) (c : Eff W GwExc unit) : Eff W GwExc unit := if b then c else mret tt.

(** ** [schemas.py] *)

Record GenerateRequest := mkGenerate {
  gb_prompt : string;
  gb_max_new_tokens : Z;
  gb_temperature : float;
  gb_top_p : float;
  gb_stop_token_ids : list Z;
  gb_priority : Z;
  gb_deadline_seconds : option float
}.
Definition validate_stop_token_ids (values : list Z) : res (list Z) :=
  _ ← raise_if (existsb (λ value, value <? 0) values)
    (ValueError "stop token identifiers must be non-negative");
  _ ← raise_if (negb (Nat.eqb (size (list_to_set values : gset Z)) (length values)))
    (ValueError "stop token identifiers must be unique");
  Ok values.

Record GenerateResponse := mkGenerateResponse {
  gx_request_id : string;
  gx_text : string;
  gx_input_tokens : Z;
  gx_output_tokens : Z;
  gx_latency_ms : float;
  gx_queue_wait_ms : float;
  gx_scheduler_policy : string;
  gx_batch_size : Z;
  gx_status : string
}.
Record RequestStatusResponse := mkStatusResponse {
  sx_request_id : string;
  sx_model_id : string;
  sx_status : string;
  sx_assigned_worker_id : option string;
  sx_attempt_count : Z;
  sx_priority : Z;
  sx_retry_reasons : list string;
  sx_transition_timestamps : gmap string float
}.

(** ** [limits.py] *)

Record ConcurrencyLimiter := mkLimiter { cl_maximum : Z; cl_active : Z }.
#[export] Instance eta_ConcurrencyLimiter : Eta ConcurrencyLimiter := λ l,
  mkLimiter (cl_maximum l) (cl_active l).
Definition ConcurrencyLimiter_init (maximum : Z) : ConcurrencyLimiter := mkLimiter maximum 0.
Definition acquire : Eff ConcurrencyLimiter GwExc unit :=
  l ← gets id;
  if cl_maximum l <=? cl_active l then
    api_error 429 "concurrency_limit_exceeded" "maximum concurrent requests exceeded" JNull
  else modify (λ l, l <| cl_active ::= λ n, n + 1 |>).
Definition release : Eff ConcurrencyLimiter GwExc unit :=
  l ← gets id;
  if cl_active l <=? 0 then
    py_raise (RuntimeError "concurrency limiter released without an active slot")
  else modify (λ l, l <| cl_active ::= λ n, n - 1 |>).

(** [st_idle] is the event that [close] waits for. *)
Record StreamTracker := mkTracker { tk_accepting : bool; tk_active : Z; tk_idle : bool }.
#[export] Instance eta_StreamTracker : Eta StreamTracker := λ t,
  mkTracker (tk_accepting t) (tk_active t) (tk_idle t).
Definition StreamTracker_init : StreamTracker := mkTracker true 0 true.
Definition tracker_start : Eff StreamTracker GwExc unit :=
  t ← gets id;
  if negb (tk_accepting t) then
    api_error 503 "service_shutting_down" "server is shutting down" JNull
  else modify (λ t, t <| tk_active ::= λ n, n + 1 |> <| tk_idle := false |>).
Definition tracker_finish : Eff StreamTracker GwExc unit :=
  t ← gets id;
  if tk_active t <=? 0 then
    py_raise (RuntimeError "stream tracker finished without an active stream")
  else
    _ ← modify (λ t, t <| tk_active ::= λ n, n - 1 |>);
    modify (λ t, if tk_active t =? 0 then t <| tk_idle := true |> else t).
(** [close] up to its [await], and its result: whether the event is set before the timeout. *)
Definition tracker_close_begin (t : StreamTracker) : StreamTracker := t <| tk_accepting := false |>.
Definition tracker_close_end (t : StreamTracker) : bool := tk_idle t.

(** The settings that the checks read. *)
Record RequestLimits := mkRequestLimits {
  lm_max_prompt_characters : Z;
  lm_max_prompt_tokens : Z;
  lm_max_new_tokens : Z
}.
Definition validate_request {W} (prompt : string) (max_new_tokens prompt_tokens context_window_tokens : Z)
  (settings : RequestLimits) : Eff W GwExc unit :=
  _ ← when (py_blank prompt) (api_error 400 "empty_prompt" "prompt must not be empty" JNull);
  _ ← when (lm_max_prompt_tokens settings <? prompt_tokens)
    (api_error 413 "prompt_too_long"
       ("prompt exceeds " +:+ pretty (lm_max_prompt_tokens settings) +:+ " tokens")
       (JObj [("input_tokens", JInt prompt_tokens);
              ("max_prompt_tokens", JInt (lm_max_prompt_tokens settings))]));
  _ ← when (lm_max_new_tokens settings <? max_new_tokens)
    (api_error 400 "output_too_long"
       ("max_new_tokens exceeds " +:+ pretty (lm_max_new_tokens settings))
       (JObj [("max_new_tokens", JInt max_new_tokens); ("limit", JInt (lm_max_new_tokens settings))]));
  when (context_window_tokens <? prompt_tokens + max_new_tokens)
    (api_error 413 "context_window_exceeded"
       "prompt and requested output exceed the model context window"
       (JObj [("input_tokens", JInt prompt_tokens); ("max_new_tokens", JInt max_new_tokens);
              ("context_window_tokens", JInt context_window_tokens)])).

(** ** [auth.py] *)

Section auth.
(** [sha256(text.encode()).digest()]. *)
Variable sha256 : string → string.

(** The digest of each key, with its tenant. *)
Abbreviation ApiKeyAuthenticator := (list (string * string)).
(** [credentials] is a dictionary from key to tenant. *)
Definition ApiKeyAuthenticator_init (credentials : list (string * string)) : res ApiKeyAuthenticator :=
  _ ← raise_if (existsb (λ p, str_empty p.2 || str_empty p.1) credentials)
    (ValueError "API keys and tenant identifiers must be non-empty");
  Ok ((λ p, (sha256 p.1, p.2)) <$> credentials).
Definition auth_enabled (a : ApiKeyAuthenticator) : bool := negb (bool_decide (a = [])).
(** The tenant of the first key with this digest. *)
Fixpoint find_key (supplied_digest : string) (a : ApiKeyAuthenticator) : option string :=
  match a with
  | [] => None
  | (key_digest, tenant_id) :: a =>
    if bool_decide (supplied_digest = key_digest) then Some tenant_id
    else find_key supplied_digest a
  end.
(** [authorization]: the header of that name, if the request has one. *)
Definition authenticate {W} (authorization : option string) (a : ApiKeyAuthenticator) : Eff W GwExc string :=
  if negb (auth_enabled a) then mret "default"
  else
    let '(scheme, _, supplied) := str_partition " "%char (default "" authorization) in
    _ ← when (negb (bool_decide (py_lower scheme = "bearer")) || str_empty supplied)
      (api_error 401 "authentication_required" "a bearer API key is required" JNull);
    match find_key (sha256 supplied) a with
    | Some tenant_id => mret tenant_id
    | None => api_error 401 "invalid_api_key" "the API key is invalid" JNull
    end.

(** One entry of the loop of [parse_api_keys]. *)
Definition parse_entry (entry : string) (credentials : list (string * string))
  : res (list (string * string)) :=
  let '(tenant_id, separator, key) := str_partition ":"%char entry in
  _ ← raise_if (negb separator || str_empty (py_strip tenant_id) || str_empty (py_strip key))
    (ValueError "API_KEYS entries must use tenant:key");
  _ ← raise_if (od_has (py_strip key) credentials) (ValueError "API keys must be unique");
  Ok (od_set (py_strip key) (py_strip tenant_id) credentials).
Fixpoint parse_entries (entries : list string) (credentials : list (string * string))
  : res (list (string * string)) :=
  match entries with
  | [] => Ok credentials
  | entry :: entries => credentials ← parse_entry entry credentials; parse_entries entries credentials
  end.
Definition parse_api_keys (value : string) : res (list (string * string)) :=
  if str_empty (py_strip value) then Ok [] else parse_entries (str_split ","%char value) [].

(** ** Authentication is by the configured keys *)

(** The entry assigns this key to this tenant. *)
Definition entry_gives (entry key tenant : string) : Prop :=
  ∃ t k, str_partition ":"%char entry = (t, true, k) ∧ py_strip k = key ∧ py_strip t = tenant.
(** The digest tells the configured keys from the one supplied. *)
Definition tells_apart (credentials : list (string * string)) (supplied : string) : Prop :=
  ∀ key tenant, (key, tenant) ∈ credentials → sha256 supplied = sha256 key → key = supplied.

Lemma parse_entry_spec entry c0 c :
  parse_entry entry c0 = Ok c →
  ∃ key tenant, entry_gives entry key tenant ∧ key ≠ "" ∧ tenant ≠ "" ∧ od_get key c0 = None ∧
    c = od_set key tenant c0.
Proof.
  unfold parse_entry. destruct (str_partition _ _) as [[t found] k] eqn:E. intros H.
  apply bind_Ok_inv in H as ([] & Hr & H). apply bind_Ok_inv in H as ([] & Hh & [= <-]).
  rewrite raise_if_Ok in Hr, Hh. apply orb_false_iff in Hr as [Hr Hk]. apply orb_false_iff in Hr as [Hf Ht].
  apply negb_false_iff in Hf as ->. unfold str_empty in *. apply bool_decide_eq_false in Hk, Ht.
  exists (py_strip k), (py_strip t). split_and!; [by exists t, k|done..| |done].
  unfold od_has in Hh. apply bool_decide_eq_false in Hh. by apply eq_None_not_Some.
Qed.
Lemma entry_gives_fun entry k t k' t' : entry_gives entry k t → entry_gives entry k' t' → k = k' ∧ t = t'.
Proof. intros (? & ? & E & <- & <-) (? & ? & E' & <- & <-). rewrite E in E'. by injection E' as -> ->. Qed.
(** The dictionary holds what it held and what the entries give, and never an empty string. *)
Lemma parse_entries_spec entries : ∀ c0 c,
  parse_entries entries c0 = Ok c → od_ok c0 →
  Forall (λ p, p.1 ≠ "" ∧ p.2 ≠ "") c0 →
  od_ok c ∧ Forall (λ p, p.1 ≠ "" ∧ p.2 ≠ "") c ∧
  ∀ k t, od_get k c = Some t ↔ od_get k c0 = Some t ∨ ∃ entry, entry ∈ entries ∧ entry_gives entry k t.
Proof.
  induction entries as [|entry entries IH]; intros c0 c; cbn [parse_entries].
  - intros [= <-] Hok Hne. split_and!; [done..|]. intros k t. split; [by left|].
    intros [?|(? & ?%not_elem_of_nil & _)]; done.
  - intros (c1 & H1 & H)%bind_Ok_inv Hok Hne.
    destruct (parse_entry_spec _ _ _ H1) as (key & tenant & Hg & Hk & Ht & Hnew & ->).
    assert (Forall (λ p, p.1 ≠ "" ∧ p.2 ≠ "") (od_set key tenant c0)) as Hne1.
    { rewrite od_set_new by done. apply Forall_app. split; [done|]. by apply Forall_singleton. }
    destruct (IH _ _ H (od_set_ok _ _ _ Hok) Hne1) as (Hok' & Hne' & Hget). split_and!; [done..|].
    intros k t. rewrite Hget, od_get_set. setoid_rewrite elem_of_cons.
    destruct (decide (k = key)) as [->|Hk'].
    + rewrite Hnew. split.
      * intros [[= <-]|(e & ? & ?)]; [|by eauto]. right. exists entry. by split; [left|].
      * intros [?|(e & [->|?] & Hg')]; [done| |by eauto].
        left. f_equal. by eapply entry_gives_fun.
    + split; [intros [?|(e & ? & ?)]; eauto|].
      intros [?|(e & [->|?] & Hg')]; [by left| |by eauto].
      by destruct (entry_gives_fun _ _ _ _ _ Hg Hg').
Qed.
Lemma parse_api_keys_spec value c :
  parse_api_keys value = Ok c →
  od_ok c ∧ Forall (λ p, p.1 ≠ "" ∧ p.2 ≠ "") c ∧
  (c = [] ↔ py_strip value = "") ∧
  (py_strip value ≠ "" → ∀ k t, od_get k c = Some t ↔
     ∃ entry, entry ∈ str_split ","%char value ∧ entry_gives entry k t).
Proof.
  unfold parse_api_keys, str_empty. destruct (bool_decide_reflect (py_strip value = "")) as [He|He].
  - intros [= <-]. split_and!; [constructor|constructor|done|done].
  - intros H. destruct (parse_entries_spec _ _ _ H) as (Hok & Hne & Hget); [constructor|constructor|].
    split_and!; [done|done| |].
    + split; [intros ->|done]. exfalso.
      destruct (str_split ","%char value) as [|entry entries] eqn:E.
      { destruct value as [|a s]; [done|]. simpl in E. destruct (bool_decide _); [done|].
        by destruct (str_split _ s). }
      cbn [parse_entries] in H. apply bind_Ok_inv in H as (c1 & H1 & _).
      apply parse_entry_spec in H1 as (k & t & Hg & _).
      destruct (Hget k t) as [_ Hr]. discriminate Hr. right. exists entry. by split; [left|].
    + intros _ k t. rewrite Hget. split; [intros [?|?]; done|by right].
Qed.
Lemma find_key_spec c supplied :
  tells_apart c supplied →
  find_key (sha256 supplied) ((λ p, (sha256 p.1, p.2)) <$> c) = od_get supplied c.
Proof.
  induction c as [|[k t] c IH]; intros Ht; [done|]. rewrite fmap_cons. cbn [find_key fst snd od_get].
  destruct (bool_decide_reflect (sha256 supplied = sha256 k)) as [E|E].
  - assert (k = supplied) as -> by (by eapply Ht; [left|]). by rewrite decide_True.
  - rewrite decide_False by congruence. apply IH. intros k' t' Hin. apply (Ht k' t'). by right.
Qed.
End auth.

(** C29: With API_KEYS parsed and the authenticator built from it, a request is served as a tenant exactly
    when its authorization header is a bearer header whose key one of the comma-separated entries
    assigns to that tenant; with a blank API_KEYS every request is the tenant default, and otherwise
    the refusals are the two documented 401 responses. *)
Theorem authenticate_correct sha256 value credentials a header {W} (w : W) :
  parse_api_keys value = Ok credentials → ApiKeyAuthenticator_init sha256 credentials = Ok a →
  let '(scheme, _, supplied) := str_partition " "%char (default "" header) in
  tells_apart sha256 credentials supplied →
  (authenticate sha256 header a w).2 = w ∧
  (∀ tenant, (authenticate sha256 header a w).1 = inr tenant ↔
     if bool_decide (py_strip value = "") then tenant = "default"
     else py_lower scheme = "bearer" ∧
       ∃ entry, entry ∈ str_split ","%char value ∧ entry_gives entry supplied tenant) ∧
  (∀ e, (authenticate sha256 header a w).1 = inl e → ∃ code message,
     e = GApi (mkAPIError 401 code message JNull) ∧
     (code = "authentication_required" ∨ code = "invalid_api_key")).
Proof.
  intros Hp Ha. destruct (str_partition " "%char (default "" header)) as [[scheme found] supplied] eqn:Eh.
  intros Hs. destruct (parse_api_keys_spec _ _ Hp) as (_ & Hne & Hnil & Hget).
  unfold ApiKeyAuthenticator_init in Ha. apply bind_Ok_inv in Ha as ([] & _ & [= <-]).
  unfold authenticate, auth_enabled. rewrite Eh.
  destruct (bool_decide_reflect (py_strip value = "")) as [He|He].
  - apply Hnil in He as ->. cbn. split_and!; [done| |done]. intros t. split; [by intros [= <-]|by intros ->].
  - assert (credentials ≠ []) as Hc by by rewrite Hnil.
    rewrite bool_decide_eq_false_2 by (by destruct credentials). cbn [negb].
    specialize (Hget He supplied). destruct (bool_decide_reflect (py_lower scheme = "bearer")) as [Hb|Hb]; cbn.
    + unfold str_empty. destruct (bool_decide_reflect (supplied = "")) as [->|Hn]; cbn.
      * split_and!; [done| |by intros e [= <-]; eauto]. intros t. split; [done|]. intros [_ Hg%Hget].
        apply od_get_elem in Hg. rewrite Forall_forall in Hne. by apply Hne in Hg as [??].
      * rewrite find_key_spec by done. destruct (od_get supplied credentials) as [t0|]; cbn.
        -- split_and!; [done| |done]. intros t. rewrite <- Hget.
           split; [by intros [= <-]|by intros [_ [= ->]]].
        -- split_and!; [done| |by intros e [= <-]; eauto]. intros t. rewrite <- Hget. split; [done|by intros []].
    + split_and!; [done| |by intros e [= <-]; eauto]. intros t. split; [done|by intros [? _]].
Qed.
Lemma authenticate_correct_witness :
  (authenticate id (Some "Bearer key-b") [("key-a", "team-a"); ("key-b", "team-b")] tt).1 = inr "team-b".
Proof.
  apply (authenticate_correct id "team-a:key-a, team-b:key-b" [("key-a", "team-a"); ("key-b", "team-b")]
    [("key-a", "team-a"); ("key-b", "team-b")] (Some "Bearer key-b") tt);
    [vm_compute; reflexivity|vm_compute; reflexivity| |].
  - intros key tenant _ E. exact (eq_sym E).
  - split; [reflexivity|]. exists " team-b:key-b".
    split; [right; left|]. exists " team-b", "key-b". repeat split.
Defined.
