(* ===== verification/GatewayConfig.v ===== *)
(** [apps/gateway/config.py]: the gateway's settings, read from the environment and validated. *)
From S2P Require Import Prelude PyFloat PyText.
From Stdlib Require String.

#[local] Open Scope string_scope.
#[local] Open Scope list_scope.
#[local] Open Scope Z_scope.
#[local] Set Default Proof Using "Type".
#[local] Set Proof Using Clear Unused.

Record Settings := mkSettings {
  cf_host : string;
  cf_port : Z;
  cf_model_name : string;
  cf_model_revision : string;
  cf_model_device : string;
  cf_model_dtype : string;
  cf_inference_backend : string;
  cf_max_active_sequences : Z;
  cf_token_max_batch_size : Z;
  cf_token_scheduling_policy : string;
  cf_prefill_chunk_size_tokens : Z;
  cf_kv_cache_total_blocks : Z;
  cf_kv_cache_block_size_tokens : Z;
  cf_kv_cache_bytes_per_block : Z;
  cf_kv_cache_high_watermark : float;
  cf_kv_cache_low_watermark : float;
  cf_prefix_cache_max_entries : Z;
  cf_prefix_cache_max_tokens : Z;
  cf_scheduler_policy : string;
  cf_max_prompt_tokens : Z;
  cf_max_prompt_characters : Z;
  cf_max_new_tokens : Z;
  cf_max_queue_size : Z;
  cf_max_concurrent_requests : Z;
  cf_request_timeout_seconds : float;
  cf_max_batch_size : Z;
  cf_max_wait_ms : Z;
  cf_max_total_batch_tokens : Z;
  cf_model_warmup_on_start : bool;
  cf_shutdown_grace_seconds : float;
  cf_metrics_sample_limit : Z;
  cf_api_keys : string;
  cf_cors_allowed_origins : string;
  cf_platform_api_enabled : bool;
  cf_otel_service_name : string;
  cf_otel_exporter_otlp_endpoint : string;
  cf_allow_remote_telemetry : bool
}.
#[export] Instance eta_Settings : Eta Settings := λ s,
  mkSettings (cf_host s) (cf_port s) (cf_model_name s) (cf_model_revision s) (cf_model_device s)
    (cf_model_dtype s) (cf_inference_backend s) (cf_max_active_sequences s) (cf_token_max_batch_size s)
    (cf_token_scheduling_policy s) (cf_prefill_chunk_size_tokens s) (cf_kv_cache_total_blocks s)
    (cf_kv_cache_block_size_tokens s) (cf_kv_cache_bytes_per_block s) (cf_kv_cache_high_watermark s)
    (cf_kv_cache_low_watermark s) (cf_prefix_cache_max_entries s) (cf_prefix_cache_max_tokens s)
    (cf_scheduler_policy s) (cf_max_prompt_tokens s) (cf_max_prompt_characters s) (cf_max_new_tokens s)
    (cf_max_queue_size s) (cf_max_concurrent_requests s) (cf_request_timeout_seconds s) (cf_max_batch_size
    s) (cf_max_wait_ms s) (cf_max_total_batch_tokens s) (cf_model_warmup_on_start s)
    (cf_shutdown_grace_seconds s) (cf_metrics_sample_limit s) (cf_api_keys s) (cf_cors_allowed_origins s)
    (cf_platform_api_enabled s) (cf_otel_service_name s) (cf_otel_exporter_otlp_endpoint s)
    (cf_allow_remote_telemetry s).
(** The dataclass defaults. *)
Definition Settings_default : Settings :=
  mkSettings "0.0.0.0" 8000 "HuggingFaceTB/SmolLM2-135M-Instruct"
    "12fd25f77366fa6b3b4b768ec3050bf629380bac" "cpu" "float32" "token_loop" 8 8 "balanced" 0 1024 16 737280
    (f_ratio 9 10) (f_ratio 7 10) 32 2048 "no_batching" 1024 16384 128 128 16 (f_of_Z 60) 8 25 1024 false
    (f_of_Z 30) 10000 "" "" false "llm-inference-scheduler" "" false.

Section settings.
(** [int(value)] and [float(value)] of a text, [str.isdigit], and the scheme and host name that
    [urlparse] finds. *)
Context (int_of_str : string → res Z) (float_of_str : string → res float).
Context (isdigit : string → bool) (urlparse : string → res (string * option string)).

(** ** [from_env] *)

Definition env_or {A} (env : gmap string string) (name : string) (default_ : A) (cast : string → res A) : res A :=
  match env !! name with None => Ok default_ | Some value => cast value end.
Definition bool_env (env : gmap string string) (name : string) (default_ : bool) : res bool :=
  match env !! name with
  | None => Ok default_
  | Some value =>
    let normalized := py_lower (py_strip value) in
    if bool_decide (normalized ∈ ["1"; "true"; "yes"; "on"]) then Ok true
    else if bool_decide (normalized ∈ ["0"; "false"; "no"; "off"]) then Ok false
    else Err (ValueError (name +:+ " must be a boolean"))
  end.
Definition from_env (env : gmap string string) : res Settings :=
  host ← env_or env "HOST" "0.0.0.0" Ok;
  port ← env_or env "PORT" 8000 int_of_str;
  model_name ← env_or env "MODEL_NAME" "HuggingFaceTB/SmolLM2-135M-Instruct" Ok;
  model_revision ← env_or env "MODEL_REVISION" "12fd25f77366fa6b3b4b768ec3050bf629380bac" Ok;
  model_device ← env_or env "MODEL_DEVICE" "cpu" Ok;
  model_dtype ← env_or env "MODEL_DTYPE" "float32" Ok;
  inference_backend ← env_or env "INFERENCE_BACKEND" "token_loop" Ok;
  max_active_sequences ← env_or env "MAX_ACTIVE_SEQUENCES" 8 int_of_str;
  token_max_batch_size ← env_or env "TOKEN_MAX_BATCH_SIZE" 8 int_of_str;
  token_scheduling_policy ← env_or env "TOKEN_SCHEDULING_POLICY" "balanced" Ok;
  prefill_chunk_size_tokens ← env_or env "PREFILL_CHUNK_SIZE_TOKENS" 0 int_of_str;
  kv_cache_total_blocks ← env_or env "KV_CACHE_TOTAL_BLOCKS" 1024 int_of_str;
  kv_cache_block_size_tokens ← env_or env "KV_CACHE_BLOCK_SIZE_TOKENS" 16 int_of_str;
  kv_cache_bytes_per_block ← env_or env "KV_CACHE_BYTES_PER_BLOCK" 737280 int_of_str;
  kv_cache_high_watermark ← env_or env "KV_CACHE_HIGH_WATERMARK" (f_ratio 9 10) float_of_str;
  kv_cache_low_watermark ← env_or env "KV_CACHE_LOW_WATERMARK" (f_ratio 7 10) float_of_str;
  prefix_cache_max_entries ← env_or env "PREFIX_CACHE_MAX_ENTRIES" 32 int_of_str;
  prefix_cache_max_tokens ← env_or env "PREFIX_CACHE_MAX_TOKENS" 2048 int_of_str;
  scheduler_policy ← env_or env "SCHEDULER_POLICY" "no_batching" Ok;
  max_prompt_tokens ← env_or env "MAX_PROMPT_TOKENS" 1024 int_of_str;
  max_prompt_characters ← env_or env "MAX_PROMPT_CHARACTERS" 16384 int_of_str;
  max_new_tokens ← env_or env "MAX_NEW_TOKENS" 128 int_of_str;
  max_queue_size ← env_or env "MAX_QUEUE_SIZE" 128 int_of_str;
  max_concurrent_requests ← env_or env "MAX_CONCURRENT_REQUESTS" 16 int_of_str;
  request_timeout_seconds ← env_or env "REQUEST_TIMEOUT_SECONDS" (f_of_Z 60) float_of_str;
  max_batch_size ← env_or env "MAX_BATCH_SIZE" 8 int_of_str;
  max_wait_ms ← env_or env "MAX_WAIT_MS" 25 int_of_str;
  max_total_batch_tokens ← env_or env "MAX_TOTAL_BATCH_TOKENS" 1024 int_of_str;
  model_warmup_on_start ← bool_env env "MODEL_WARMUP_ON_START" false;
  shutdown_grace_seconds ← env_or env "SHUTDOWN_GRACE_SECONDS" (f_of_Z 30) float_of_str;
  metrics_sample_limit ← env_or env "METRICS_SAMPLE_LIMIT" 10000 int_of_str;
  api_keys ← env_or env "API_KEYS" "" Ok;
  cors_allowed_origins ← env_or env "CORS_ALLOWED_ORIGINS" "" Ok;
  platform_api_enabled ← bool_env env "PLATFORM_API_ENABLED" false;
  otel_service_name ← env_or env "OTEL_SERVICE_NAME" "llm-inference-scheduler" Ok;
  otel_exporter_otlp_endpoint ← env_or env "OTEL_EXPORTER_OTLP_ENDPOINT" "" Ok;
  allow_remote_telemetry ← bool_env env "ALLOW_REMOTE_TELEMETRY" false;
  Ok (mkSettings host port model_name model_revision model_device model_dtype inference_backend
    max_active_sequences token_max_batch_size token_scheduling_policy prefill_chunk_size_tokens
    kv_cache_total_blocks kv_cache_block_size_tokens kv_cache_bytes_per_block kv_cache_high_watermark
    kv_cache_low_watermark prefix_cache_max_entries prefix_cache_max_tokens scheduler_policy
    max_prompt_tokens max_prompt_characters max_new_tokens max_queue_size max_concurrent_requests
    request_timeout_seconds max_batch_size max_wait_ms max_total_batch_tokens model_warmup_on_start
    shutdown_grace_seconds metrics_sample_limit api_keys cors_allowed_origins platform_api_enabled
    otel_service_name otel_exporter_otlp_endpoint allow_remote_telemetry).

(** ** [validate] *)

(** The fields that must be positive, with their names. *)
Definition positive_fields (s : Settings) : list (string * Z) :=
  [("port", cf_port s); ("max_prompt_tokens", cf_max_prompt_tokens s);
   ("max_prompt_characters", cf_max_prompt_characters s); ("max_new_tokens", cf_max_new_tokens s);
   ("max_queue_size", cf_max_queue_size s); ("max_concurrent_requests", cf_max_concurrent_requests s);
   ("max_batch_size", cf_max_batch_size s); ("max_total_batch_tokens", cf_max_total_batch_tokens s);
   ("metrics_sample_limit", cf_metrics_sample_limit s);
   ("max_active_sequences", cf_max_active_sequences s);
   ("token_max_batch_size", cf_token_max_batch_size s);
   ("kv_cache_total_blocks", cf_kv_cache_total_blocks s);
   ("kv_cache_block_size_tokens", cf_kv_cache_block_size_tokens s);
   ("kv_cache_bytes_per_block", cf_kv_cache_bytes_per_block s)].
Fixpoint check_positive (fields : list (string * Z)) : res unit :=
  match fields with
  | [] => Ok tt
  | (name, value) :: fields =>
    _ ← raise_if (value <=? 0) (ValueError (name +:+ " must be positive")); check_positive fields
  end.
Definition valid_device (device : string) : bool :=
  bool_decide (device = "cpu") || bool_decide (device = "cuda")
  || match str_remove_prefix "cuda:" device with Some index => isdigit index | None => false end.
Definition validate_telemetry (s : Settings) : res unit :=
  if str_empty (cf_otel_exporter_otlp_endpoint s) then Ok tt
  else
    parsed ← urlparse (cf_otel_exporter_otlp_endpoint s);
    let '(scheme, hostname) := parsed in
    match hostname with
    | Some hostname =>
      _ ← raise_if (negb (bool_decide (scheme ∈ ["http"; "https"])) || str_empty hostname)
        (ValueError "OTEL_EXPORTER_OTLP_ENDPOINT must be an HTTP(S) URL");
      raise_if (negb (bool_decide (py_lower hostname ∈ ["localhost"; "127.0.0.1"; "::1"]))
                && negb (cf_allow_remote_telemetry s))
        (ValueError "remote telemetry requires ALLOW_REMOTE_TELEMETRY=true")
    | None => Err (ValueError "OTEL_EXPORTER_OTLP_ENDPOINT must be an HTTP(S) URL")
    end.
Definition validate (s : Settings) : res unit :=
  _ ← raise_if (negb (bool_decide (cf_scheduler_policy s ∈ ["no_batching"; "dynamic_batch"])))
    (ValueError "SCHEDULER_POLICY must be no_batching or dynamic_batch");
  _ ← raise_if (negb (valid_device (cf_model_device s)))
    (ValueError "MODEL_DEVICE must be cpu, cuda, or cuda:<index>");
  _ ← raise_if (negb (bool_decide (cf_model_dtype s ∈ ["auto"; "float32"; "float16"; "bfloat16"])))
    (ValueError "MODEL_DTYPE must be auto, float32, float16, or bfloat16");
  _ ← raise_if (negb (bool_decide (cf_inference_backend s ∈ ["token_loop"; "legacy_generate"])))
    (ValueError "INFERENCE_BACKEND must be token_loop or legacy_generate");
  _ ← raise_if (negb (bool_decide (cf_token_scheduling_policy s ∈
                                   ["prefill_first"; "decode_first"; "balanced"])))
    (ValueError "TOKEN_SCHEDULING_POLICY must be prefill_first, decode_first, or balanced");
  _ ← check_positive (positive_fields s);
  _ ← raise_if (cf_max_active_sequences s <? cf_token_max_batch_size s)
    (ValueError "TOKEN_MAX_BATCH_SIZE cannot exceed MAX_ACTIVE_SEQUENCES");
  _ ← raise_if (f_leb (cf_request_timeout_seconds s) f_zero || f_leb (cf_shutdown_grace_seconds s) f_zero
                || (cf_max_wait_ms s <? 0))
    (ValueError "timeout must be positive and wait must be non-negative");
  _ ← raise_if (negb (f_ltb f_zero (cf_kv_cache_low_watermark s)
                      && f_ltb (cf_kv_cache_low_watermark s) (cf_kv_cache_high_watermark s)
                      && f_leb (cf_kv_cache_high_watermark s) (f_of_Z 1)))
    (ValueError "KV cache watermarks must satisfy 0 < low < high <= 1");
  _ ← raise_if (cf_prefill_chunk_size_tokens s <? 0)
    (ValueError "PREFILL_CHUNK_SIZE_TOKENS must be non-negative");
  _ ← raise_if ((cf_prefix_cache_max_entries s <? 0) || (cf_prefix_cache_max_tokens s <? 0))
    (ValueError "prefix cache limits must be non-negative");
  _ ← raise_if (xorb (negb (cf_prefix_cache_max_entries s =? 0)) (negb (cf_prefix_cache_max_tokens s =? 0)))
    (ValueError "PREFIX_CACHE_MAX_ENTRIES and PREFIX_CACHE_MAX_TOKENS must both be zero or positive");
  _ ← raise_if (py_blank (cf_otel_service_name s)) (ValueError "OTEL_SERVICE_NAME must not be empty");
  validate_telemetry s.

(** ** Lemmas *)

(** The defaults are written twice, in the class and in [from_env]: they agree, and are valid. *)
Lemma from_env_default : from_env ∅ = Ok Settings_default.
Proof. reflexivity. Qed.
Lemma default_valid : validate Settings_default = Ok tt.
Proof. vm_compute. reflexivity. Qed.
Lemma check_positive_ok fields : check_positive fields = Ok tt ↔ Forall (λ p, 0 < p.2) fields.
Proof.
  induction fields as [|[name v] fields IH]; simpl.
  - split; [constructor|done].
  - rewrite Forall_cons, <- IH. destruct (Z.leb_spec v 0); simpl; split; intros; try done; naive_solver lia.
Qed.
(** What the rest of the program relies on. *)
Record settings_ok (s : Settings) : Prop := {
  so_positive : Forall (λ p, 0 < p.2) (positive_fields s);
  so_policy : cf_token_scheduling_policy s ∈ ["prefill_first"; "decode_first"; "balanced"];
  so_batch : cf_token_max_batch_size s <= cf_max_active_sequences s;
  so_watermarks : f_ltb f_zero (cf_kv_cache_low_watermark s)
                  && f_ltb (cf_kv_cache_low_watermark s) (cf_kv_cache_high_watermark s)
                  && f_leb (cf_kv_cache_high_watermark s) (f_of_Z 1) = true;
  so_chunk : 0 <= cf_prefill_chunk_size_tokens s;
  so_prefix : 0 <= cf_prefix_cache_max_entries s ∧ 0 <= cf_prefix_cache_max_tokens s ∧
              (cf_prefix_cache_max_entries s = 0 ↔ cf_prefix_cache_max_tokens s = 0)
}.
Lemma validate_sound s : validate s = Ok tt → settings_ok s.
Proof using isdigit urlparse.
  unfold validate. intros H.
  repeat match type of H with (_ ≫= _) = Ok _ =>
    let E := fresh "E" in apply bind_Ok_inv in H as ([] & E & H); try rewrite raise_if_Ok in E end.
  split.
  - by apply check_positive_ok.
  - by apply negb_false_iff, bool_decide_eq_true in E3.
  - lia.
  - by apply negb_false_iff in E7.
  - lia.
  - destruct (Z.eqb_spec (cf_prefix_cache_max_entries s) 0), (Z.eqb_spec (cf_prefix_cache_max_tokens s) 0);
      try discriminate E10; split_and!; lia.
Qed.
End settings.
