(* ===== verification/Gateway.v ===== *)
(** [apps/gateway/api.py] and the construction in [apps/gateway/main.py]: the HTTP handlers over the
    request queue, the token engine, the limits, the metrics and the request store. Coroutines run
    one at a time between [await]s: each stretch of a handler between two suspensions is one
    computation, and what a suspension brings (a token count, an exception, a cancellation) is an
    argument of the next one. *)
From S2P Require Import Prelude PyContainers PyFloat PyText Json Effects Domain RequestStore KVCache PrefixCache LocalRequest TokenTypes TokenEngine GatewayEdge GatewayConfig.
From S2P Require LocalScheduler.
From Stdlib Require String.

#[local] Open Scope string_scope.
#[local] Open Scope list_scope.
#[local] Open Scope Z_scope.

Section world.
Context {S B : Type}.

(** [app.state]. The request objects, the request queue and the metrics are those of
    [LocalScheduler]; its readings count the clock's. *)
Record Gateway := mkGateway {
  gw_settings : Settings;
  gw_local : LocalScheduler.World;
  gw_token_engine : option (TokenGenerationEngine S B);
  gw_limiter : ConcurrencyLimiter;
  gw_stream_tracker : StreamTracker;
  gw_authenticator : list (string * string);
  gw_platform_requests : InMemoryRequestStateStore;
  gw_active_gateway_requests : gmap string loc;
  (** whether [app.state.otel] is set *)
  gw_otel : bool
}.
#[export] Instance eta_Gateway : Eta Gateway := λ g,
  mkGateway (gw_settings g) (gw_local g) (gw_token_engine g) (gw_limiter g) (gw_stream_tracker g)
    (gw_authenticator g) (gw_platform_requests g) (gw_active_gateway_requests g) (gw_otel g).
End world.
Arguments Gateway S B : clear implicits.

Section gateway.
Context {S B : Type} `{InferenceBackend S B}.
#[local] Abbreviation World := (Gateway S B).
#[local] Abbreviation M := (Eff World GwExc).
(** [time.monotonic] and [time.perf_counter] at each reading. *)
Variable clock : nat → float.
Variable perf : nat → float.
Variable sha256 : string → string.

(** ** [create_app] *)

Definition the_limits (s : Settings) : RequestLimits :=
  mkRequestLimits (cf_max_prompt_characters s) (cf_max_prompt_tokens s) (cf_max_new_tokens s).
Definition build_engine (settings : Settings) (backend : S) : res (TokenGenerationEngine S B) :=
  kv ← KVBlockAllocator_init (cf_kv_cache_total_blocks settings) (cf_kv_cache_block_size_tokens settings)
         (cf_kv_cache_bytes_per_block settings) (cf_kv_cache_high_watermark settings)
         (cf_kv_cache_low_watermark settings);
  prefix ← PrefixCache_init (cf_prefix_cache_max_entries settings) (cf_prefix_cache_max_tokens settings);
  TokenGenerationEngine_init backend (cf_max_active_sequences settings)
    (Some (cf_token_max_batch_size settings)) (cf_token_scheduling_policy settings) (Some kv)
    (cf_prefill_chunk_size_tokens settings) (Some prefix).
(** [configure_opentelemetry] of [apps/gateway/otel.py]: whether it returns a runtime. [packages]: the optional
    OpenTelemetry packages can be imported. *)
Definition configure_opentelemetry (packages : bool) (endpoint : string) : res bool :=
  if str_empty endpoint then Ok false
  else
    _ ← raise_if (negb packages) (RuntimeError "OTLP export requires requirements-observability.txt");
    Ok true.
(** [engine]: the argument [token_engine]; [is_inference_worker]: the worker is an [InferenceWorker]. *)
Definition create_app (packages : bool) (settings : Settings) (engine : option (TokenGenerationEngine S B))
  (is_inference_worker : bool) (backend : S) : res World :=
  otel ← configure_opentelemetry packages (cf_otel_exporter_otlp_endpoint settings);
  engine ← match engine with
           | Some e => Ok (Some e)
           | None =>
             if bool_decide (cf_inference_backend settings = "token_loop") && is_inference_worker
             then e ← build_engine settings backend; Ok (Some e) else Ok None
           end;
  credentials ← parse_api_keys (cf_api_keys settings);
  authenticator ← ApiKeyAuthenticator_init sha256 credentials;
  Ok (mkGateway settings
        (LocalScheduler.RequestQueue_init (cf_max_queue_size settings)
           (Z.to_nat (cf_metrics_sample_limit settings)))
        engine (ConcurrencyLimiter_init (cf_max_concurrent_requests settings)) StreamTracker_init
        authenticator store_init ∅ otel).

(** ** The parts of the state *)

(** A computation on the request queue's world; its exception is a value here. *)
Definition on_local {A} (c : LocalScheduler.M A) : M (LocalScheduler.Exc + A) := λ g,
  let '(r, w) := c (gw_local g) in (inr r, g <| gw_local := w |>).
(** The methods of the request and of the metrics never raise. *)
Definition local_call {A} (c : LocalScheduler.M A) : M A :=
  r ← on_local c;
  match r with inr a => mret a | inl _ => raise (GPy (RuntimeError "")) end.
Definition on_limiter (c : Eff ConcurrencyLimiter GwExc unit) : M unit := λ g,
  let '(r, l) := c (gw_limiter g) in (r, g <| gw_limiter := l |>).
Definition on_tracker (c : Eff StreamTracker GwExc unit) : M unit := λ g,
  let '(r, t) := c (gw_stream_tracker g) in (r, g <| gw_stream_tracker := t |>).
(** A computation on the engine, whose exception is a value here; without an engine it is not run. *)
Definition on_engine {A} (c : Eff (TokenGenerationEngine S B) Exc A) : M (option (Exc + A)) := λ g,
  match gw_token_engine g with
  | None => (inr None, g)
  | Some e => let '(r, e) := c e in (inr (Some r), g <| gw_token_engine := Some e |>)
  end.
Definition engine_do {A} (c : Eff (TokenGenerationEngine S B) Exc A) : M unit :=
  _ ← on_engine c; mret tt.
Definition has_engine : M bool := gets (λ g, match gw_token_engine g with Some _ => true | None => false end).

Definition monotonic : M float := local_call (LocalScheduler.monotonic clock).
Definition perf_counter : M float := local_call (LocalScheduler.monotonic perf).
Definition update_metrics (f : Metrics → Metrics) : M unit := local_call (LocalScheduler.update_metrics f).
Definition rejected_for (reason : string) : M unit := update_metrics (LocalRequest.rejected false reason).
Definition get_item (l : loc) : M InferenceRequest := local_call (LocalScheduler.get_request l).
Definition update_item (l : loc) (f : InferenceRequest → InferenceRequest) : M unit :=
  local_call (LocalScheduler.update_request l f).
Definition new_item (item : InferenceRequest) : M loc :=
  l ← gets (λ g, fresh (dom (LocalScheduler.wd_requests (gw_local g))));
  _ ← local_call (LocalScheduler.set_request l item); mret l.
Definition settings_of : M Settings := gets gw_settings.
Definition store_do (f : InMemoryRequestStateStore → res InMemoryRequestStateStore) : M unit :=
  m ← gets gw_platform_requests; m ← lift_py (f m);
  modify (λ g, g <| gw_platform_requests := m |>).

(** ** The helpers of [api.py] *)

(** [record.transition(target)], at the clock's time. *)
Definition transition_now (target : RequestState) (record : RequestRecord) : M RequestRecord :=
  if bool_decide (target ∉ ALLOWED_REQUEST_TRANSITIONS (r_status record))
  then raise (GPy (transition_error (r_status record) target))
  else now ← monotonic; lift_py (transition target now record).

Definition platform_request (request_id : string) (body : GenerateRequest) (tenant_id model_id : string)
  (prompt_tokens : Z) (timeout_seconds : float) : M RequestRecord :=
  now ← monotonic;
  let deadline := f_add now (default timeout_seconds (gb_deadline_seconds body)) in
  lift_py
    (record ← RequestRecord_post_init
       (mkRequest request_id tenant_id model_id (gb_prompt body) prompt_tokens (gb_max_new_tokens body)
          (gb_priority body) deadline false (gb_temperature body) now RECEIVED None 0 [] true ∅);
     record ← transition VALIDATED now record;
     record ← transition ADMITTED now record;
     transition QUEUED now record).

Definition final_state (status : RequestStatus) : option RequestState :=
  match status with
  | SCompleted => Some COMPLETED | SFailed => Some FAILED | SRejected => Some REJECTED
  | STimeout => Some TIMED_OUT | SCancelled => Some CANCELLED | _ => None
  end.
Definition finish_transitions (record : RequestRecord) (target : RequestState) (started_at : option float)
  : M RequestRecord :=
  record ← match started_at with
           | Some t => if bool_decide (r_status record = QUEUED) && f_truthy t
                       then lift_py (transition RUNNING t record) else mret record
           | None => mret record
           end;
  transition_now target record.
Definition finish_platform_request (record : RequestRecord) (status : RequestStatus)
  (started_at : option float) : M RequestRecord :=
  record ← match final_state status with
           | Some target =>
             if r_terminal record then mret record else finish_transitions record target started_at
           | None => mret record
           end;
  _ ← store_do (store_save record);
  _ ← when (r_terminal record)
        (modify (λ g, g <| gw_active_gateway_requests ::= delete (r_request_id record) |>));
  mret record.

Definition status_response (record : RequestRecord) : RequestStatusResponse :=
  mkStatusResponse (r_request_id record) (r_model_id record) (RequestState_value (r_status record))
    (r_assigned_worker_id record) (r_attempt_count record) (r_priority record) (r_retry_reasons record)
    (list_to_map ((λ p, (RequestState_value p.1, p.2)) <$> map_to_list (r_transition_timestamps record))).
(** [status.value]. *)
Definition status_value (s : RequestStatus) : string :=
  match s with
  | SReceived => "RECEIVED" | SQueued => "QUEUED" | SRunning => "RUNNING" | SCompleted => "COMPLETED"
  | SFailed => "FAILED" | SRejected => "REJECTED" | STimeout => "TIMEOUT" | SCancelled => "CANCELLED"
  end.
Definition response (item : InferenceRequest) : GenerateResponse :=
  mkGenerateResponse (ir_request_id item) (ir_result_text item) (ir_input_tokens item)
    (ir_output_tokens item) (elapsed_ms (ir_completed_at item) (ir_queued_at item))
    (if f_truthy (ir_started_at item) then elapsed_ms (ir_started_at item) (ir_queued_at item) else f_of_Z 0)
    (ir_scheduler_policy item) (ir_batch_size item) (status_value (ir_status item)).
Definition require_legacy_sampling (body : GenerateRequest) : M unit :=
  when (negb (f_eqb (gb_top_p body) (f_of_Z 1)) || negb (bool_decide (gb_stop_token_ids body = [])))
    (api_error 400 "unsupported_sampling_parameters"
       "top_p and stop_token_ids require the token-loop streaming backend" JNull).

(** [_validated] up to the token count, and from it: the count and the milliseconds it took.
    [context_window] is what the worker reports. *)
Definition validated_begin (body : GenerateRequest) : M float :=
  _ ← when (py_blank (gb_prompt body)) (api_error 400 "empty_prompt" "prompt must not be empty" JNull);
  settings ← settings_of;
  _ ← when (cf_max_prompt_characters settings <? py_len (gb_prompt body))
    (api_error 413 "prompt_size_exceeded" "prompt exceeds the configured character limit"
       (JObj [("max_prompt_characters", JInt (cf_max_prompt_characters settings))]));
  perf_counter.
Definition validated_end (body : GenerateRequest) (tokenization_started : float) (tokens : GwExc + Z)
  (context_window : GwExc + Z) : M (Z * float) :=
  tokens ← match tokens with inr n => mret n | inl e => raise e end;
  now ← perf_counter;
  context_window ← match context_window with inr n => mret n | inl e => raise e end;
  settings ← settings_of;
  _ ← validate_request (gb_prompt body) (gb_max_new_tokens body) tokens context_window (the_limits settings);
  mret (tokens, elapsed_ms now tokenization_started).
Definition is_http (e : GwExc) : bool := match e with GApi _ => true | _ => false end.
Definition http_code (e : GwExc) : string := match e with GApi a => ae_code a | _ => "" end.

(** ** [POST /v1/generate] *)

(** [except HTTPException]. *)
Definition count_refusal (e : GwExc) : M unit :=
  match e with
  | GApi a =>
    when (((400 <=? ae_status_code a) && (ae_status_code a <? 500)) || (ae_status_code a =? 503))
      (when (negb (bool_decide (ae_code a = "service_shutting_down")))
         (update_metrics (LocalRequest.rejected (bool_decide (ae_code a = "queue_full"))
            (if str_empty (ae_code a) then "http_error" else ae_code a))))
  | _ => mret tt
  end.
Definition counting_refusals {A} (c : M A) : M A :=
  try_except c (λ e, _ ← count_refusal e; raise e).
(** The exit of [async with state.limiter.slot()] by an exception. *)
Definition in_slot {A} (c : M A) : M A := try_except c (λ e, _ ← on_limiter release; raise e).

(** Up to the token count: the tenant and the time it started. *)
Definition generate_enter (body : GenerateRequest) (authorization : option string) : M (string * float) :=
  authenticator ← gets gw_authenticator;
  tenant_id ← authenticate sha256 authorization authenticator;
  _ ← update_metrics LocalRequest.received;
  counting_refusals
    (_ ← require_legacy_sampling body;
     _ ← on_limiter acquire;
     started ← in_slot (validated_begin body); mret (tenant_id, started)).
(** The request object, with its clock reading. *)
Definition make_item (body : GenerateRequest) (tokens : Z) (policy request_id : string)
  (validation_tokenization_ms : float) : M loc :=
  created_at ← monotonic;
  deadline_at ← match gb_deadline_seconds body with
                | Some s => now ← monotonic; mret (Some (f_add now s))
                | None => mret None
                end;
  new_item
    (InferenceRequest_init (gb_prompt body) (gb_max_new_tokens body) (gb_temperature body) tokens policy
       request_id created_at deadline_at
     <| ir_validation_tokenization_ms := validation_tokenization_ms |>).
Definition reject_record (record : RequestRecord) : M unit :=
  _ ← finish_platform_request record SRejected None; mret tt.
(** From the token count to [await asyncio.shield(item.future)]. *)
Definition generate_submit (body : GenerateRequest) (tenant_id request_id : string) (started : float)
  (tokens context_window : GwExc + Z) : M (loc * RequestRecord) :=
  counting_refusals (in_slot (
    validated ← validated_end body started tokens context_window;
    let '(tokens, validation_tokenization_ms) := validated in
    settings ← settings_of;
    l ← make_item body tokens (cf_scheduler_policy settings) request_id validation_tokenization_ms;
    record ← platform_request request_id body tenant_id (cf_model_name settings) tokens
               (cf_request_timeout_seconds settings);
    _ ← store_do (store_create record);
    _ ← modify (λ g, g <| gw_active_gateway_requests ::= <[request_id := l]> |>);
    submitted ← on_local (LocalScheduler.submit clock l);
    match submitted with
    | inl LocalScheduler.EQueueClosed =>
      _ ← reject_record record; _ ← rejected_for "service_shutting_down";
      api_error 503 "service_shutting_down" "server is shutting down" JNull
    | inl LocalScheduler.EQueueFull =>
      _ ← reject_record record; api_error 503 "queue_full" "scheduler queue is full" JNull
    | inl _ => raise (GPy (RuntimeError ""))
    | inr tt =>
      item ← get_item l;
      match ir_future item with
      | None => raise (GPy (RuntimeError "request queue did not create a result future"))
      | Some _ => mret (l, record)
      end
    end)).
(** From the end of that [await]: the future is done, or the handler is cancelled. *)
Definition generate_finish (l : loc) (record : RequestRecord) (cancelled : bool) : M GenerateResponse :=
  counting_refusals (try_finally (
    if cancelled then
      _ ← local_call (LocalScheduler.cancel clock l "client disconnected");
      item ← get_item l;
      _ ← finish_platform_request record (ir_status item) None;
      raise GCancelled
    else
      result ← get_item l;
      _ ← finish_platform_request record (ir_status result)
            (if f_truthy (ir_started_at result) then Some (ir_started_at result) else None);
      match ir_status result with
      | STimeout => api_error 504 "request_timeout" "request timed out" JNull
      | SRejected => api_error 503 "service_shutting_down" (ir_error_message result) JNull
      | SFailed =>
        api_error 500 "generation_failed" "model generation failed"
          (JObj [("reason", JStr (ir_error_message result))])
      | _ => mret (response result)
      end) (on_limiter release)).

(** ** [GET] and [DELETE /v1/requests/{request_id}] *)

(** The record of the caller's tenant. *)
Definition own_record (request_id : string) (authorization : option string) : M RequestRecord :=
  authenticator ← gets gw_authenticator;
  tenant_id ← authenticate sha256 authorization authenticator;
  m ← gets gw_platform_requests;
  match store_get request_id m with
  | Some record =>
    if bool_decide (r_tenant_id record = tenant_id) then mret record
    else api_error 404 "request_not_found" "request was not found" JNull
  | None => api_error 404 "request_not_found" "request was not found" JNull
  end.
Definition request_status (request_id : string) (authorization : option string) : M RequestStatusResponse :=
  record ← own_record request_id authorization; mret (status_response record).
Definition cancel_request (request_id : string) (authorization : option string) : M RequestStatusResponse :=
  record ← own_record request_id authorization;
  _ ← when (r_terminal record)
        (api_error 409 "request_already_terminal" "request is already terminal" JNull);
  active ← gets gw_active_gateway_requests;
  match active !! request_id with
  | None => api_error 409 "request_not_cancellable" "request cannot be cancelled" JNull
  | Some l =>
    _ ← engine_do (TokenEngine.cancel request_id);
    _ ← local_call (LocalScheduler.cancel clock l "cancelled through request API");
    item ← get_item l;
    record ← finish_platform_request record (ir_status item)
               (if f_truthy (ir_started_at item) then Some (ir_started_at item) else None);
    mret (status_response record)
  end.

(** ** [POST /v1/generate_stream] *)

Definition http_reason (e : GwExc) : M unit :=
  match e with GApi a => rejected_for (ae_code a) | _ => mret tt end.
Definition release_stream : M unit := _ ← on_limiter release; on_tracker tracker_finish.
(** [except BaseException] around [_validated]. *)
Definition in_stream_slots {A} (c : M A) : M A :=
  try_except c (λ e, _ ← release_stream; _ ← http_reason e; raise e).

(** Up to the token count. *)
Definition stream_enter (body : GenerateRequest) (authorization : option string) : M (string * float) :=
  authenticator ← gets gw_authenticator;
  tenant_id ← authenticate sha256 authorization authenticator;
  _ ← update_metrics LocalRequest.received;
  engine ← has_engine;
  _ ← when (negb engine) (require_legacy_sampling body);
  _ ← try_except (on_tracker tracker_start) (λ e, _ ← http_reason e; raise e);
  _ ← try_except (on_limiter acquire)
        (λ e, _ ← on_tracker tracker_finish; _ ← http_reason e; raise e);
  started ← in_stream_slots (validated_begin body); mret (tenant_id, started).

(** What a stream's handler keeps: the request object, the record (a copy of which the store has),
    the token count, the engine's sequence once its stream is open, and what was sent so far. *)
Record StreamCall := mkCall {
  sc_item : loc;
  sc_request_id : string;
  sc_record : RequestRecord;
  sc_tokens : Z;
  sc_stream : option loc;
  sc_sent : list json
}.
#[export] Instance eta_StreamCall : Eta StreamCall := λ c,
  mkCall (sc_item c) (sc_request_id c) (sc_record c) (sc_tokens c) (sc_stream c) (sc_sent c).
(** Between the token count and the record: the request object, and what the engine is asked for. *)
Record StreamOpening := mkOpening {
  so_item : loc;
  so_request_id : string;
  so_tenant_id : string;
  so_tokens : Z;
  so_body : GenerateRequest
}.

(** From the token count to the request object. *)
Definition stream_item (body : GenerateRequest) (tenant_id request_id : string) (started : float)
  (tokens context_window : GwExc + Z) : M StreamOpening :=
  validated ← in_stream_slots (validated_end body started tokens context_window);
  let '(tokens, validation_tokenization_ms) := validated in
  l ← make_item body tokens "single_stream" request_id validation_tokenization_ms;
  now ← monotonic;
  _ ← update_item l (λ r, r <| ir_queued_at := now |> <| ir_started_at := now |> <| ir_status := SRunning |>);
  mret (mkOpening l request_id tenant_id tokens body).
(** The arguments for the engine: the sampling parameters and the deadline. *)
Definition stream_sampling (o : StreamOpening) : M (SamplingParameters * float) :=
  let body := so_body o in
  sampling ← lift_py (SamplingParameters_post_init (mkSampling (gb_max_new_tokens body) (gb_temperature body)
                        (gb_top_p body) (gb_stop_token_ids body)));
  item ← get_item (so_item o);
  deadline ← match ir_deadline_at item with
             | Some d => if f_truthy d then mret d
                         else settings ← settings_of; now ← monotonic;
                              mret (f_add now (cf_request_timeout_seconds settings))
             | None => settings ← settings_of; now ← monotonic;
                       mret (f_add now (cf_request_timeout_seconds settings))
             end;
  mret (sampling, deadline).
(** The exception handlers around [validate_sampling] and [reserve]. *)
Definition engine_refusal {A} (e : Exc) : M A :=
  match e with
  | EInvalidStopToken message =>
    _ ← release_stream; _ ← rejected_for "invalid_stop_token";
    api_error 400 "invalid_stop_token" message JNull
  | EEngineCapacity message =>
    _ ← release_stream; _ ← rejected_for "engine_capacity_exceeded";
    api_error 429 "engine_capacity_exceeded" message JNull
  | _ =>
    _ ← release_stream; _ ← rejected_for "token_backend_unavailable";
    api_error 503 "token_backend_unavailable" "the token inference backend is unavailable" JNull
  end.
(** From the end of [await engine.validate_sampling(sampling)]; [None]: the handler is cancelled. *)
Definition stream_reserve (o : StreamOpening) (sampling : SamplingParameters) (deadline : float)
  (validated : option (Exc + unit)) : M unit :=
  match validated with
  | None => _ ← release_stream; raise GCancelled
  | Some (inl e) => engine_refusal e
  | Some (inr _) =>
    reserved ← on_engine (TokenEngine.reserve clock (so_request_id o) (gb_prompt (so_body o)) sampling deadline
                            (so_tokens o));
    match reserved with
    | Some (inl e) => engine_refusal e
    | _ => mret tt
    end
  end.
(** From the record to the response object. *)
Definition stream_open_record (o : StreamOpening) : M StreamCall :=
  settings ← settings_of;
  record ← platform_request (so_request_id o) (so_body o) (so_tenant_id o) (cf_model_name settings) (so_tokens o)
             (cf_request_timeout_seconds settings);
  let record := record <| r_stream := true |> in
  engine ← has_engine;
  record ← transition_now (if (engine : bool) then PREFILL else RUNNING) record;
  _ ← store_do (store_create record);
  _ ← modify (λ g, g <| gw_active_gateway_requests ::= <[so_request_id o := so_item o]> |>);
  mret (mkCall (so_item o) (so_request_id o) record (so_tokens o) None []).

(** *** The response body: [events] *)

Definition token_message (request_id : string) (t : GeneratedToken) : json :=
  JObj [("request_id", JStr request_id); ("token", JStr (gt_text t)); ("token_id", JInt (gt_token_id t));
        ("index", JInt (gt_index t))].
Definition FinishReason_value (r : FinishReason) : string :=
  match r with
  | FEos => "eos" | FStop => "stop" | FLength => "length" | FCancelled => "cancelled"
  | FTimeout => "timeout" | FFailed => "failed"
  end.
Definition done_message (request_id : string) (reason : FinishReason) (input_tokens output_tokens : Z) : json :=
  JObj [("request_id", JStr request_id); ("done", JBool true); ("finish_reason", JStr (FinishReason_value reason));
        ("usage", JObj [("input_tokens", JInt input_tokens); ("output_tokens", JInt output_tokens)])].
Definition error_message (request_id : string) : json :=
  JObj [("request_id", JStr request_id);
        ("error", JObj [("code", JStr "generation_failed");
                        ("message", JStr "streaming model generation failed")])].
Definition chunk_message (request_id text : string) : json :=
  JObj [("request_id", JStr request_id); ("token", JStr text)].
Definition plain_done_message (request_id : string) : json :=
  JObj [("request_id", JStr request_id); ("done", JBool true)].
Definition status_of_reason (r : FinishReason) : RequestStatus :=
  match r with
  | FCancelled => SCancelled | FTimeout => STimeout | FFailed => SFailed | _ => SCompleted
  end.
Definition send (message : json) (c : StreamCall) : StreamCall :=
  c <| sc_sent ::= λ sent, sent ++ [message] |>.

(** Up to the first event: [engine.stream(item.request_id)], whose first step finds the sequence. *)
Definition body_begin (c : StreamCall) : M StreamCall :=
  _ ← update_metrics (LocalRequest.record_model_invocation (f_of_Z 0) false);
  _ ← update_metrics LocalRequest.model_execution_started;
  opened ← on_engine (TokenEngine.stream_open (sc_request_id c));
  match opened with
  | Some (inl (EPy e)) => raise (GPy e)
  | Some (inl (EBackend message)) => raise (GBackend message)
  | Some (inl _) => raise (GPy (RuntimeError ""))
  | Some (inr l) => mret (c <| sc_stream := Some l |>)
  | None => mret c
  end.
(** [if not item.first_token_at]. *)
Definition mark_first_token (l : loc) : M unit :=
  item ← get_item l;
  when (negb (f_truthy (ir_first_token_at item)))
    (now ← monotonic; update_item l (λ r, r <| ir_first_token_at := now |>)).
(** A token of the engine, up to its [yield]; [None]: it is passed over. *)
Definition body_token (t : GeneratedToken) (c : StreamCall) : M (option StreamCall) :=
  item ← get_item (sc_item c);
  if bool_decide (ir_status item = SCancelled) then mret None
  else
    _ ← mark_first_token (sc_item c);
    c ← (if bool_decide (r_status (sc_record c) = PREFILL) then
           record ← transition_now DECODE (sc_record c);
           _ ← store_do (store_save record); mret (c <| sc_record := record |>)
         else mret c);
    _ ← update_item (sc_item c) (λ r, r <| ir_output_tokens := gt_index t + 1 |>
                                        <| ir_result_text ::= λ s, s +:+ gt_text t |>);
    mret (Some (send (token_message (sc_request_id c) t) c)).
Definition body_complete (e : GenerationComplete) (c : StreamCall) : M StreamCall :=
  now ← monotonic;
  _ ← update_item (sc_item c) (λ r,
        r <| ir_input_tokens := gc_input_tokens e |> <| ir_output_tokens := gc_output_tokens e |>
          <| ir_worker_tokenization_ms := f_of_Z 0 |>
          <| ir_generation_ms := f_add (gc_prefill_ms e) (gc_decode_ms e) |>
          <| ir_decoding_ms := gc_decode_ms e |> <| ir_completed_at := now |>
          <| ir_status := status_of_reason (gc_finish_reason e) |>);
  mret (send (done_message (sc_request_id c) (gc_finish_reason e) (gc_input_tokens e) (gc_output_tokens e)) c).
(** A chunk of the worker's stream, and its end. *)
Definition body_chunk (text : string) (output_tokens : Z) (c : StreamCall) : M StreamCall :=
  _ ← mark_first_token (sc_item c);
  _ ← update_item (sc_item c) (λ r, r <| ir_output_tokens := output_tokens |>);
  mret (send (chunk_message (sc_request_id c) text) c).
Definition body_end (c : StreamCall) : M StreamCall :=
  now ← monotonic;
  _ ← update_item (sc_item c) (λ r, r <| ir_completed_at := now |>);
  settings ← settings_of; now ← monotonic;
  _ ← update_item (sc_item c) (λ r,
        r <| ir_status := if timed_out (cf_request_timeout_seconds settings) now r then STimeout else SCompleted |>);
  mret (send (plain_done_message (sc_request_id c)) c).
(** [except Exception], up to its first and its second [yield]. *)
Definition body_fail (c : StreamCall) : M StreamCall :=
  _ ← local_call (LocalScheduler.finish clock (sc_item c) SFailed "streaming model generation failed");
  mret (send (error_message (sc_request_id c)) c).
Definition body_failed (c : StreamCall) : M StreamCall :=
  item ← get_item (sc_item c);
  mret (send (done_message (sc_request_id c) FFailed (sc_tokens c) (ir_output_tokens item)) c).
(** [except asyncio.CancelledError], up to its [raise]. *)
Definition body_cancelled (c : StreamCall) : M unit :=
  _ ← engine_do (TokenEngine.cancel (sc_request_id c));
  local_call (LocalScheduler.cancel clock (sc_item c) "streaming client disconnected").
(** The [finally] clause. *)
Definition body_finally (c : StreamCall) : M unit :=
  _ ← update_item (sc_item c) (λ r, r <| ir_input_tokens := sc_tokens c |>);
  _ ← local_call (LocalScheduler.record clock (sc_item c));
  _ ← update_metrics LocalRequest.model_execution_finished;
  _ ← release_stream;
  item ← get_item (sc_item c);
  _ ← finish_platform_request (sc_record c) (ir_status item) None; mret tt.

(** ** Tasks *)

(** Where a handler is suspended. [TStreamReady]: the response object is returned, its body has not
    run; [TStreamLost]: it never will; [TStreamSent]: at a [yield]; [TStreamClosing]: the engine's
    stream was cancelled and waits for the sequence to be done. [TEnded]: it has returned or raised;
    [TBroken]: it has raised after the slots were taken, past every handler that gives them back. *)
Inductive AfterYield := AyNext | AyReturn | AyTerminal | AyFinish.
Inductive Task :=
  | TGenerateCount (body : GenerateRequest) (tenant_id : string) (started : float)
  | TGenerateResult (l : loc) (record : RequestRecord)
  | TStreamCount (body : GenerateRequest) (tenant_id : string) (started : float)
  | TStreamCheck (o : StreamOpening) (sampling : SamplingParameters) (deadline : float)
  | TStreamReady (c : StreamCall)
  | TStreamLost (c : StreamCall)
  | TStreamWait (c : StreamCall)
  | TStreamSent (c : StreamCall) (next : AfterYield)
  | TStreamClosing (c : StreamCall)
  | TEnded (e : option GwExc) (c : option StreamCall)
  | TBroken (e : GwExc).
(** What a suspension brings. [InTokens] also gives the identifier that [uuid4] draws; [InChunk] is the
    next item of the worker's stream; [InClose]: the body is closed at a [yield]. *)
Inductive Input :=
  | InTokens (request_id : string) (tokens context_window : GwExc + Z)
  | InFuture (cancelled : bool)
  | InChecked (validated : option (Exc + unit))
  | InBody | InLost | InEvent
  | InChunk (chunk : GwExc + option (string * Z))
  | InCancel | InDone | InResume | InClose.

(** The next state of a task whose computation is [c]. *)
Definition then_ {A} (c : M A) (next : A → M Task) (failed : GwExc → M Task) : M Task :=
  r ← attempt c; match r with inl e => failed e | inr a => next a end.
Definition ended (call : option StreamCall) (e : GwExc) : M Task := mret (TEnded (Some e) call).
Definition run_finally (c : StreamCall) (e : option GwExc) : M Task :=
  then_ (body_finally c) (λ _, mret (TEnded e (Some c))) (ended (Some c)).
(** The rest of [events] after an [Exception]; cancellation is not one. *)
Definition body_except (c : StreamCall) (e : GwExc) : M Task :=
  match e with
  | GCancelled => then_ (body_cancelled c) (λ _, run_finally c (Some GCancelled)) (λ e, run_finally c (Some e))
  | _ => then_ (body_fail c) (λ c, mret (TStreamSent c AyTerminal)) (λ e, run_finally c (Some e))
  end.
(** The engine's stream delivers an event, if there is one. *)
Definition stream_event (l : loc) (c : StreamCall) : M Task :=
  event ← on_engine (TokenEngine.stream_next (sc_request_id c) l);
  match event with
  | Some (inr (Some (EvToken t))) =>
    then_ (body_token t c)
      (λ r, mret (match r with Some c => TStreamSent c AyNext | None => TStreamWait c end)) (body_except c)
  | Some (inr (Some (EvComplete e))) =>
    then_ (body_complete e c) (λ c, mret (TStreamSent c AyReturn)) (body_except c)
  | Some (inl (EBackend message)) => body_except c (GBackend message)
  | Some (inl (EPy e)) => body_except c (GPy e)
  | Some (inl _) => body_except c (GPy (RuntimeError ""))
  | _ => mret (TStreamWait c)
  end.
Definition chunk_event (chunk : GwExc + option (string * Z)) (c : StreamCall) : M Task :=
  match chunk with
  | inl e => body_except c e
  | inr None => then_ (body_end c) (λ c, mret (TStreamSent c AyFinish)) (body_except c)
  | inr (Some (text, n)) =>
    then_ (body_chunk text n c) (λ c, mret (TStreamSent c AyNext)) (body_except c)
  end.
Definition resume (c : StreamCall) (next : AfterYield) : M Task :=
  match next with
  | AyNext => mret (TStreamWait c)
  | AyReturn =>
    _ ← (match sc_stream c with
         | Some l => engine_do (TokenEngine.stream_return (sc_request_id c) l)
         | None => mret tt
         end);
    run_finally c None
  | AyTerminal => then_ (body_failed c) (λ c, mret (TStreamSent c AyFinish)) (λ e, run_finally c (Some e))
  | AyFinish => run_finally c None
  end.
Definition open_record (o : StreamOpening) : M Task :=
  then_ (stream_open_record o) (λ c, mret (TStreamReady c)) (λ e, mret (TBroken e)).

(** One stretch of a task; an input that its suspension does not wait for changes nothing. *)
Definition task_run (t : Task) (i : Input) : M Task :=
  match t, i with
  | TGenerateCount body tenant_id started, InTokens id tokens context_window =>
    then_ (generate_submit body tenant_id id started tokens context_window)
      (λ p, mret (TGenerateResult p.1 p.2)) (ended None)
  | TGenerateResult l record, InFuture cancelled =>
    item ← get_item l;
    if cancelled || bool_decide (ir_future item = Some true)
    then then_ (generate_finish l record cancelled) (λ _, mret (TEnded None None)) (ended None)
    else mret t
  | TStreamCount body tenant_id started, InTokens id tokens context_window =>
    then_ (stream_item body tenant_id id started tokens context_window)
      (λ o, engine ← has_engine;
            if (engine : bool)
            then then_ (stream_sampling o) (λ p, mret (TStreamCheck o p.1 p.2)) (λ e, mret (TBroken e))
            else open_record o) (ended None)
  | TStreamCheck o sampling deadline, InChecked validated =>
    then_ (stream_reserve o sampling deadline validated) (λ _, open_record o) (ended None)
  | TStreamReady c, InBody => then_ (body_begin c) (λ c, mret (TStreamWait c)) (body_except c)
  | TStreamReady c, InLost => mret (TStreamLost c)
  | TStreamWait c, InEvent => match sc_stream c with Some l => stream_event l c | None => mret t end
  | TStreamWait c, InChunk chunk => match sc_stream c with Some _ => mret t | None => chunk_event chunk c end
  | TStreamWait c, InCancel =>
    match sc_stream c with
    | Some l => _ ← engine_do (TokenEngine.stream_cancel l); mret (TStreamClosing c)
    | None => body_except c GCancelled
    end
  | TStreamClosing c, InDone =>
    match sc_stream c with
    | Some l =>
      done ← gets (λ g, match gw_token_engine g with Some e => sq_done (seq_at l e) | None => true end);
      if (done : bool)
      then _ ← engine_do (TokenEngine.stream_cancelled (sc_request_id c) l); body_except c GCancelled
      else mret t
    | None => mret t
    end
  | TStreamClosing c, InCancel =>
    _ ← (match sc_stream c with
         | Some l => engine_do (TokenEngine.stream_finally (sc_request_id c) l)
         | None => mret tt
         end);
    body_except c GCancelled
  | TStreamSent c next, InResume => resume c next
  | TStreamSent c _, InClose => run_finally c None
  | _, _ => mret t
  end.
Definition start_generate (body : GenerateRequest) (authorization : option string) : M Task :=
  then_ (generate_enter body authorization) (λ p, mret (TGenerateCount body p.1 p.2)) (ended None).
Definition start_stream (body : GenerateRequest) (authorization : option string) : M Task :=
  then_ (stream_enter body authorization) (λ p, mret (TStreamCount body p.1 p.2)) (ended None).

(** The first step of the shutdown: [request_queue.close], then [stream_tracker.close] up to its wait. *)
Definition begin_shutdown : M bool :=
  closed ← on_local (LocalScheduler.close clock);
  match closed with
  | inl _ => mret false
  | inr _ => _ ← modify (λ g, g <| gw_stream_tracker ::= tracker_close_begin |>); mret true
  end.

(** The gateway and the handlers that it has started. *)
Definition App : Type := World * list Task.
Inductive handler_step : App → App → Prop :=
  | StGenerate g tasks body authorization t g' :
    start_generate body authorization g = (inr t, g') → handler_step (g, tasks) (g', tasks ++ [t])
  | StStream g tasks body authorization t g' :
    start_stream body authorization g = (inr t, g') → handler_step (g, tasks) (g', tasks ++ [t])
  | StRun g tasks n t i t' g' :
    tasks !! n = Some t → task_run t i g = (inr t', g') → handler_step (g, tasks) (g', <[n := t']> tasks)
  | StStatus g tasks request_id authorization r g' :
    request_status request_id authorization g = (r, g') → handler_step (g, tasks) (g', tasks)
  | StCancel g tasks request_id authorization r g' :
    cancel_request request_id authorization g = (r, g') → handler_step (g, tasks) (g', tasks).
(** [StLocal] and [StEngine]: the scheduler's and the engine's own tasks run, with any effect on what is
    theirs; whether submissions are accepted is not. *)
Inductive app_step : App → App → Prop :=
  | StHandler x y : handler_step x y → app_step x y
  | StClose g tasks : app_step (g, tasks) (snd (begin_shutdown g), tasks)
  | StLocal g tasks w :
    LocalScheduler.wd_accepting w = LocalScheduler.wd_accepting (gw_local g) →
    app_step (g, tasks) (g <| gw_local := w |>, tasks)
  | StEngine g tasks e e' :
    gw_token_engine g = Some e → te_closed e' = te_closed e →
    app_step (g, tasks) (g <| gw_token_engine := Some e' |>, tasks).
End gateway.
