(* ===== verification/GatewaySafe.v ===== *)
(** The gateway's slots: in every interleaving of the handlers the limiter and the stream tracker
    count exactly the handlers that hold a slot, and the slot of a response whose body never runs is
    lost for ever. *)
From S2P Require Import Prelude PyContainers PyFloat PyText Json Effects Domain RequestStore LocalRequest TokenTypes TokenEngine TokenEngineSafe GatewayEdge GatewayConfig Gateway.
From S2P Require LocalScheduler.
From Stdlib Require String.

#[local] Open Scope string_scope.
#[local] Open Scope list_scope.
#[local] Open Scope Z_scope.
#[local] Set Default Proof Using "Type".
#[local] Set Proof Using Clear Unused.

(** The slots that a task holds. *)
Definition limiter_slots (t : Task) : Z := match t with TEnded _ _ => 0 | _ => 1 end.
Definition stream_slots (t : Task) : Z :=
  match t with TEnded _ _ | TGenerateCount _ _ _ | TGenerateResult _ _ => 0 | _ => 1 end.

Section gateway.
Context {S B : Type} `{InferenceBackend S B}.
#[local] Abbreviation World := (Gateway S B).
#[local] Abbreviation M := (Eff World GwExc).
Variable clock perf : nat → float.
Variable sha256 : string → string.

(** [a] slots and [b] streams are counted, of at most [m] slots. *)
Definition counts (m a b : Z) (g : World) : Prop :=
  cl_maximum (gw_limiter g) = m ∧ cl_active (gw_limiter g) = a ∧ a <= m ∧
  tk_active (gw_stream_tracker g) = b ∧ tk_idle (gw_stream_tracker g) = (b =? 0).
(** The computation leaves the counts as they are. *)
Definition still {A} (c : M A) : Prop := ∀ m a b, preserves (counts m a b) c.

Lemma still_bind {A C} (c : M A) (k : A → M C) : still c → (∀ x, still (k x)) → still (c ≫= k).
Proof. intros Hc Hk m a b. apply preserves_bind; [apply Hc|]. intros x. apply Hk. Qed.
Lemma still_ret {A} (x : A) : still (mret x).
Proof. intros m a b. apply preserves_ret. Qed.
Lemma still_raise {A} e : still (raise (A := A) e).
Proof. intros m a b. apply preserves_raise. Qed.
Lemma still_gets {A} (f : World → A) : still (gets f).
Proof. intros m a b. apply preserves_gets. Qed.
Lemma still_modify f :
  (∀ g, gw_limiter (f g) = gw_limiter g ∧ gw_stream_tracker (f g) = gw_stream_tracker g) → still (modify f).
Proof. intros Hf m a b. apply preserves_modify. intros g Hg. unfold counts. by destruct (Hf g) as [-> ->]. Qed.
Lemma still_on_local {A} (c : LocalScheduler.M A) : still (on_local c).
Proof. intros m a b g Hg. unfold on_local. by destruct (c (gw_local g)). Qed.
Lemma still_on_engine {A} (c : Eff (TokenGenerationEngine S B) Exc A) : still (on_engine c).
Proof. intros m a b g Hg. unfold on_engine. destruct (gw_token_engine g) as [e|]; [|done]. by destruct (c e). Qed.
Lemma still_try {A} (c : M A) h : still c → (∀ e, still (h e)) → still (try_except c h).
Proof. intros Hc Hh m a b. eapply hoare_except; [apply Hc|]. intros e. apply Hh. Qed.
Lemma still_attempt {A} (c : M A) : still c → still (attempt c).
Proof.
  intros Hc m a b g Hg. specialize (Hc m a b g Hg). unfold attempt. by destruct (c g) as [[e|x] g'].
Qed.
#[local] Create HintDb still.
(** Follows the structure of a computation, down to the lemmas about its parts. *)
Ltac still_steps :=
  repeat (intros; cbn beta iota; first
    [ assumption
    | apply still_ret | apply still_raise | apply still_gets | apply still_on_local | apply still_on_engine
    | apply still_bind | apply still_try | apply still_attempt
    | apply still_modify; intros; split; reflexivity
    | solve [auto with still]
    | match goal with |- still (match ?x with _ => _ end) => destruct x end
    | match goal with |- still (let '_ := ?x in _) => destruct x end ]).

Lemma still_lift_py {A} (r : res A) : still (lift_py r).
Proof. unfold lift_py, py_raise. destruct r; still_steps. Qed.
Lemma still_when b c : still c → still (when b c).
Proof. unfold when. destruct b; still_steps. Qed.
Lemma still_local_call {A} (c : LocalScheduler.M A) : still (local_call c).
Proof. unfold local_call. still_steps. Qed.
Lemma still_api {A} status code message details : still (A := A) (api_error status code message details).
Proof. apply still_raise. Qed.
Hint Resolve still_lift_py still_when still_local_call still_api : still.
Lemma still_monotonic : still (monotonic clock).
Proof. unfold monotonic. still_steps. Qed.
Lemma still_perf : still (perf_counter perf).
Proof. unfold perf_counter. still_steps. Qed.
Lemma still_metrics f : still (update_metrics f).
Proof. unfold update_metrics. still_steps. Qed.
Lemma still_get_item l : still (get_item l).
Proof. unfold get_item. still_steps. Qed.
Lemma still_update_item l f : still (update_item l f).
Proof. unfold update_item. still_steps. Qed.
Lemma still_engine_do {A} (c : Eff (TokenGenerationEngine S B) Exc A) : still (engine_do c).
Proof. unfold engine_do. still_steps. Qed.
Hint Resolve still_monotonic still_perf still_metrics still_get_item still_update_item still_engine_do : still.
Lemma still_new_item item : still (new_item item).
Proof. unfold new_item. still_steps. Qed.
Lemma still_store f : still (store_do f).
Proof. unfold store_do. still_steps. Qed.
Lemma still_transition target record : still (transition_now clock target record).
Proof. unfold transition_now. still_steps. Qed.
Hint Resolve still_new_item still_store still_transition : still.
Lemma still_platform_request id body tenant model n t : still (platform_request clock id body tenant model n t).
Proof. unfold platform_request. still_steps. Qed.
Lemma still_finish_request record status started : still (finish_platform_request clock record status started).
Proof. unfold finish_platform_request, finish_transitions. still_steps; apply still_when; still_steps. Qed.
Lemma still_authenticate header auth : still (authenticate sha256 header auth).
Proof. unfold authenticate. still_steps. Qed.
Lemma still_legacy body : still (require_legacy_sampling body).
Proof. unfold require_legacy_sampling. still_steps. Qed.
Lemma still_validated_begin body : still (validated_begin perf body).
Proof. unfold validated_begin, settings_of. still_steps. Qed.
Lemma still_validated_end body t n c : still (validated_end perf body t n c).
Proof. unfold validated_end, settings_of, validate_request. still_steps. Qed.
Lemma still_make_item body n p id ms : still (make_item clock body n p id ms).
Proof. unfold make_item. still_steps. Qed.
Hint Resolve still_platform_request still_finish_request still_authenticate still_legacy
  still_validated_begin still_validated_end still_make_item : still.
Lemma still_own_record id header : still (own_record sha256 id header).
Proof. unfold own_record. still_steps. Qed.
Hint Resolve still_own_record : still.
Lemma still_status id header : still (request_status sha256 id header).
Proof. unfold request_status. still_steps. Qed.
Lemma still_cancel id header : still (cancel_request clock sha256 id header).
Proof. unfold cancel_request. still_steps. Qed.
Lemma still_count_refusal e : still (count_refusal e).
Proof. unfold count_refusal. still_steps; repeat apply still_when; still_steps. Qed.
Lemma still_http_reason e : still (http_reason e).
Proof. unfold http_reason, rejected_for. still_steps. Qed.
Hint Resolve still_count_refusal still_http_reason : still.

(** ** Taking and giving back slots *)

(** A computation that starts with the counts [a] and [b] and ends with [a'] and [b'], those of an
    exception being [ea] and [eb]. *)
Definition moves {A} (c : M A) (a b a' b' ea eb : Z) : Prop :=
  ∀ m, hoare (counts m a b) c (λ _, counts m a' b') (λ _, counts m ea eb).

Lemma moves_still {A} (c : M A) a b : still c → moves c a b a b a b.
Proof. intros Hc m. apply Hc. Qed.
Lemma turns_bind {A C} (c : M A) (k : A → M C) a b a1 b1 a2 b2 ea eb :
  moves c a b a1 b1 ea eb → (∀ x, moves (k x) a1 b1 a2 b2 ea eb) → moves (c ≫= k) a b a2 b2 ea eb.
Proof. intros Hc Hk m. eapply hoare_bind; [apply Hc|]. intros x. apply Hk. Qed.
Lemma moves_try {A} (c : M A) h a b a' b' ea eb fa fb :
  moves c a b a' b' fa fb → (∀ e, moves (h e) fa fb a' b' ea eb) → moves (try_except c h) a b a' b' ea eb.
Proof. intros Hc Hh m. eapply hoare_except; [apply Hc|]. intros e. apply Hh. Qed.
Lemma turns_raise {A} e a b a' b' : moves (raise (A := A) e) a b a' b' a b.
Proof. intros m. by apply hoare_raise. Qed.
(** A step whose exceptions cannot happen. *)
Lemma moves_never {A} (c : M A) a b a' b' ea eb :
  (∀ m, hoare (counts m a b) c (λ _, counts m a' b') never) → moves c a b a' b' ea eb.
Proof. intros Hc m. apply hoare_never, Hc. Qed.
Lemma moves_then_raise {A C} (c : M C) e a b a' b' ea eb :
  moves c a b ea eb ea eb → moves (_ ← c; raise (A := A) e) a b a' b' ea eb.
Proof. intros Hc. eapply turns_bind; [exact Hc|]. intros x. apply turns_raise. Qed.

Lemma acquire_moves a b : moves (on_limiter acquire) a b (a + 1) b a b.
Proof.
  intros m g (Hm & Ha & Hle & Hb & Hi). unfold on_limiter, acquire, mbind, M_bind, gets, modify, api_error, raise. cbn.
  destruct (Z.leb_spec (cl_maximum (gw_limiter g)) (cl_active (gw_limiter g))); cbn; unfold counts; cbn.
  - split_and!; done || lia.
  - split_and!; done || lia.
Qed.
Lemma release_moves a b ea eb : 0 < a → moves (on_limiter release) a b (a - 1) b ea eb.
Proof.
  intros Hpos. apply moves_never. intros m g (Hm & Ha & Hle & Hb & Hi).
  unfold on_limiter, release, mbind, M_bind, gets, modify, py_raise, raise. cbn.
  destruct (Z.leb_spec (cl_active (gw_limiter g)) 0); cbn; [lia|]. unfold counts; cbn. split_and!; done || lia.
Qed.
Lemma start_moves a b : 0 <= b → moves (on_tracker tracker_start) a b a (b + 1) a b.
Proof.
  intros Hpos m g (Hm & Ha & Hle & Hb & Hi).
  unfold on_tracker, tracker_start, mbind, M_bind, gets, modify, api_error, raise. cbn.
  destruct (tk_accepting (gw_stream_tracker g)); cbn; unfold counts; cbn; split_and!; try done; lia.
Qed.
Lemma finish_moves a b ea eb : 0 < b → moves (on_tracker tracker_finish) a b a (b - 1) ea eb.
Proof.
  intros Hpos. apply moves_never. intros m g (Hm & Ha & Hle & Hb & Hi).
  unfold on_tracker, tracker_finish, mbind, M_bind, gets, modify, py_raise, raise. cbn.
  destruct (Z.leb_spec (tk_active (gw_stream_tracker g)) 0); cbn; [lia|].
  destruct (Z.eqb_spec (tk_active (gw_stream_tracker g) - 1) 0); unfold counts; cbn; split_and!; try done; try lia;
    rewrite ?Hi; lia.
Qed.
Lemma release_stream_moves a b ea eb :
  0 < a → 0 < b → moves release_stream a b (a - 1) (b - 1) ea eb.
Proof.
  intros Ha Hb. unfold release_stream. eapply turns_bind; [by apply release_moves|].
  intros x. by apply finish_moves.
Qed.

(** ** The handlers *)

Lemma counting_moves {A} (c : M A) a b a' b' ea eb :
  moves c a b a' b' ea eb → moves (counting_refusals c) a b a' b' ea eb.
Proof.
  intros Hc. eapply moves_try; [exact Hc|]. intros e. apply moves_then_raise, moves_still, still_count_refusal.
Qed.
Lemma in_slot_moves {A} (c : M A) a b : 0 < a → still c → moves (in_slot c) a b a b (a - 1) b.
Proof.
  intros Ha Hc. eapply moves_try; [by apply moves_still|]. intros e. by apply moves_then_raise, release_moves.
Qed.
Lemma in_stream_slots_moves {A} (c : M A) a b :
  0 < a → 0 < b → still c → moves (in_stream_slots c) a b a b (a - 1) (b - 1).
Proof.
  intros Ha Hb Hc. eapply moves_try; [by apply moves_still|]. intros e.
  eapply turns_bind; [by apply release_stream_moves|]. intros x.
  apply moves_then_raise, moves_still, still_http_reason.
Qed.

Lemma generate_enter_moves body header a b :
  0 <= a → moves (generate_enter perf sha256 body header) a b (a + 1) b a b.
Proof.
  intros Ha. unfold generate_enter.
  eapply turns_bind; [apply moves_still; still_steps|]. intros auth.
  eapply turns_bind; [apply moves_still; auto with still|]. intros tenant.
  eapply turns_bind; [apply moves_still; auto with still|]. intros _.
  apply counting_moves. eapply turns_bind; [apply moves_still; auto with still|]. intros _.
  eapply turns_bind; [apply acquire_moves|]. intros _.
  replace a with (a + 1 - 1) at 3 by lia.
  eapply turns_bind; [apply in_slot_moves; [lia|auto with still]|]. intros started.
  intros m. by apply hoare_ret.
Qed.
Lemma generate_submit_moves body tenant id started n c a b :
  0 < a → moves (generate_submit clock perf body tenant id started n c) a b a b (a - 1) b.
Proof.
  intros Ha. unfold generate_submit, reject_record, rejected_for, settings_of. apply counting_moves, in_slot_moves; [done|].
  still_steps.
Qed.
Lemma generate_finish_moves l record cancelled a b :
  0 < a → moves (generate_finish clock l record cancelled) a b (a - 1) b (a - 1) b.
Proof.
  intros Ha. unfold generate_finish. apply counting_moves. intros m.
  eapply (hoare_finally _ _ _ (λ _, counts m a b) _ _ (λ _, counts m a b)).
  - assert (∀ c : M GenerateResponse, still c → hoare (counts m a b) c (λ _, counts m a b) (λ _, counts m a b)) as Hs
      by (intros c Hc; apply Hc). apply Hs. still_steps.
  - intros r. by apply release_moves.
  - intros e. by apply release_moves.
Qed.

Lemma stream_enter_moves body header a b :
  0 <= a → 0 <= b → moves (stream_enter perf sha256 body header) a b (a + 1) (b + 1) a b.
Proof.
  intros Ha Hb. unfold stream_enter, has_engine.
  do 2 (eapply turns_bind; [apply moves_still; still_steps|intros ?]).
  do 3 (eapply turns_bind; [apply moves_still; auto with still; still_steps|intros ?]).
  eapply turns_bind.
  { eapply moves_try; [by apply start_moves|]. intros e. apply moves_then_raise, moves_still, still_http_reason. }
  intros _. eapply turns_bind.
  { eapply moves_try; [apply acquire_moves|]. intros e.
    eapply turns_bind; [apply finish_moves; lia|]. intros ?. replace (b + 1 - 1) with b by lia.
    apply moves_then_raise, moves_still, still_http_reason. }
  intros _. replace a with (a + 1 - 1) at 3 by lia. replace b with (b + 1 - 1) at 3 by lia.
  eapply turns_bind; [apply in_stream_slots_moves; [lia|lia|auto with still]|]. intros started m.
  by apply hoare_ret.
Qed.
(** *** Computations that never raise *)

Definition total {A} (c : M A) : Prop := ∀ g, ∃ x g', c g = (inr x, g').
Lemma total_ret {A} (x : A) : total (mret x).
Proof. intros g. by exists x, g. Qed.
Lemma total_gets {A} (f : World → A) : total (gets f).
Proof. intros g. by exists (f g), g. Qed.
Lemma total_bind {A C} (c : M A) (k : A → M C) : total c → (∀ x, total (k x)) → total (c ≫= k).
Proof.
  intros Hc Hk g. destruct (Hc g) as (x & g' & E). destruct (Hk x g') as (y & g'' & E').
  exists y, g''. by rewrite (bind_eq _ _ _ _ _ E).
Qed.
Lemma total_attempt {A} (c : M A) : total (attempt c).
Proof. intros g. unfold attempt. destruct (c g) as [r g']. by exists r, g'. Qed.
Lemma total_engine {A} (c : Eff (TokenGenerationEngine S B) Exc A) : total (on_engine c).
Proof.
  intros g. unfold on_engine. destruct (gw_token_engine g) as [e|]; [|by eexists _, _].
  destruct (c e) as [r e']. by eexists _, _.
Qed.
Lemma total_engine_do {A} (c : Eff (TokenGenerationEngine S B) Exc A) : total (engine_do c).
Proof. apply total_bind; [apply total_engine|]. intros x. apply total_ret. Qed.
Lemma total_local {A} (c : LocalScheduler.M A) : (∀ w, ∃ x w', c w = (inr x, w')) → total (local_call c).
Proof.
  intros Hc g. unfold local_call, mbind, M_bind, on_local. destruct (Hc (gw_local g)) as (x & w' & ->). by eexists _, _.
Qed.
Lemma total_get_item l : total (get_item l).
Proof. apply total_local. intros w. by eexists _, _. Qed.
Lemma total_update_item l f : total (update_item l f).
Proof. apply total_local. intros w. by eexists _, _. Qed.
Lemma total_monotonic : total (monotonic clock).
Proof. apply total_local. intros w. by eexists _, _. Qed.
Lemma total_new_item item : total (new_item item).
Proof. apply total_bind; [apply total_gets|]. intros l. apply total_bind; [|intros _; apply total_ret].
  apply total_local. intros w. by eexists _, _. Qed.
Lemma total_make_item body n p id ms : total (make_item clock body n p id ms).
Proof.
  unfold make_item. apply total_bind; [apply total_monotonic|]. intros created.
  apply total_bind; [|intros ?; apply total_new_item].
  destruct (gb_deadline_seconds body); [|apply total_ret].
  apply total_bind; [apply total_monotonic|]. intros now. apply total_ret.
Qed.
Lemma hoare_calm {A} (c : M A) m a b : still c → total c → hoare (counts m a b) c (λ _, counts m a b) never.
Proof.
  intros Hs Ht g Hg. specialize (Hs m a b g Hg). destruct (Ht g) as (x & g' & E). by rewrite E in *.
Qed.
Lemma moves_calm {A} (c : M A) a b ea eb : still c → total c → moves c a b a b ea eb.
Proof. intros Hs Ht. apply moves_never. intros m. by apply hoare_calm. Qed.

Lemma stream_item_moves body tenant id started n c a b :
  0 < a → 0 < b → moves (stream_item clock perf body tenant id started n c) a b a b (a - 1) (b - 1).
Proof.
  intros Ha Hb. unfold stream_item.
  eapply turns_bind; [apply in_stream_slots_moves; [done|done|auto with still]|]. intros [tokens ms].
  eapply turns_bind; [apply moves_calm; [auto with still|apply total_make_item]|]. intros l.
  eapply turns_bind; [apply moves_calm; [auto with still|apply total_monotonic]|]. intros now.
  eapply turns_bind; [apply moves_calm; [auto with still|apply total_update_item]|]. intros ? m.
  by apply hoare_ret.
Qed.
Lemma engine_refusal_moves {A} e a b :
  0 < a → 0 < b → moves (engine_refusal (A := A) e) a b a b (a - 1) (b - 1).
Proof.
  intros Ha Hb.
  assert (∀ reason status code message, moves (_ ← release_stream; _ ← rejected_for reason;
    api_error (A := A) status code message JNull) a b a b (a - 1) (b - 1)) as Hr.
  { intros reason status code message. eapply turns_bind; [by apply release_stream_moves|]. intros _.
    apply moves_then_raise, moves_still. unfold rejected_for. auto with still. }
  destruct e; simpl; apply Hr.
Qed.
Lemma stream_reserve_moves o sampling deadline validated a b :
  0 < a → 0 < b → moves (stream_reserve clock o sampling deadline validated) a b a b (a - 1) (b - 1).
Proof.
  intros Ha Hb. unfold stream_reserve. destruct validated as [[e|u]|].
  - by apply engine_refusal_moves.
  - eapply turns_bind; [apply moves_calm; [apply still_on_engine|apply total_engine]|].
    intros [[e|?]|]; [by apply engine_refusal_moves|intros m; by apply hoare_ret..].
  - apply moves_then_raise. by apply release_stream_moves.
Qed.
Lemma body_finally_moves c a b :
  0 < a → 0 < b → moves (body_finally clock c) a b (a - 1) (b - 1) (a - 1) (b - 1).
Proof.
  intros Ha Hb. unfold body_finally.
  eapply turns_bind; [apply moves_calm; [auto with still|apply total_update_item]|]. intros _.
  eapply turns_bind.
  { apply moves_calm; [auto with still|]. apply total_local. intros w.
    unfold LocalScheduler.record, mbind, M_bind, LocalScheduler.get_request, gets.
    destruct (ir_metrics_recorded _); [by eexists _, _|].
    destruct (bool_decide _); cbn; destruct (metrics_record _ _ _); cbn; by eexists _, _. }
  intros _. eapply turns_bind; [apply moves_calm; [auto with still|]|].
  { apply total_local. intros w. by eexists _, _. }
  intros _. eapply turns_bind; [by apply release_stream_moves|]. intros _.
  apply moves_still. still_steps.
Qed.

(** ** One stretch of a task *)

(** From the counts [a] and [b] of the other tasks and what this one holds, it goes on to hold what
    its next state says. *)
Definition settles (c : M Task) (a b la lb : Z) : Prop :=
  ∀ m, hoare (counts m (a + la) (b + lb)) c
         (λ t, counts m (a + limiter_slots t) (b + stream_slots t)) never.

Lemma settles_ret t a b : settles (mret t) a b (limiter_slots t) (stream_slots t).
Proof. intros m. by apply hoare_ret. Qed.
Lemma settles_then {A} (c : M A) next failed a b la lb la1 lb1 la2 lb2 :
  moves c (a + la) (b + lb) (a + la1) (b + lb1) (a + la2) (b + lb2) →
  (∀ x, settles (next x) a b la1 lb1) → (∀ e, settles (failed e) a b la2 lb2) →
  settles (then_ c next failed) a b la lb.
Proof.
  intros Hc Hn Hf m. unfold then_. eapply hoare_bind; [eapply hoare_attempt, Hc|].
  intros [e|x]; [apply Hf|apply Hn].
Qed.
Lemma settles_calm {A} (c : M A) (k : A → M Task) a b la lb :
  still c → total c → (∀ x, settles (k x) a b la lb) → settles (c ≫= k) a b la lb.
Proof. intros Hs Ht Hk m. eapply hoare_bind; [by apply hoare_calm|]. intros x. apply Hk. Qed.
Lemma settles_engine {A} (c : Eff (TokenGenerationEngine S B) Exc A) (k : option (Exc + A) → M Task) a b la lb :
  (∀ x, settles (k x) a b la lb) → settles (on_engine c ≫= k) a b la lb.
Proof. apply settles_calm; [apply still_on_engine|apply total_engine]. Qed.
Lemma settles_still {A} (c : M A) next failed a b la lb :
  still c → (∀ x, settles (next x) a b la lb) → (∀ e, settles (failed e) a b la lb) →
  settles (then_ c next failed) a b la lb.
Proof. intros Hs Hn Hf. by eapply settles_then; [apply moves_still| |]. Qed.
Lemma ended_settles c e a b : settles (ended c e) a b 0 0.
Proof. apply settles_ret. Qed.

Lemma run_finally_settles c e a b : 0 <= a → 0 <= b → settles (run_finally clock c e) a b 1 1.
Proof.
  intros Ha Hb. unfold run_finally. eapply (settles_then _ _ _ a b 1 1 0 0 0 0).
  - replace (a + 0) with (a + 1 - 1) by lia. replace (b + 0) with (b + 1 - 1) by lia.
    apply body_finally_moves; lia.
  - intros _. apply settles_ret.
  - intros e'. apply ended_settles.
Qed.
Lemma body_cancelled_still c : still (body_cancelled clock c).
Proof. unfold body_cancelled. still_steps. Qed.
Lemma body_fail_still c : still (body_fail clock c).
Proof. unfold body_fail. still_steps. Qed.
Lemma mark_first_token_still l : still (mark_first_token clock l).
Proof. unfold mark_first_token. still_steps. Qed.
Hint Resolve body_cancelled_still body_fail_still mark_first_token_still : still.
Lemma body_except_settles c e a b : 0 <= a → 0 <= b → settles (body_except clock c e) a b 1 1.
Proof.
  intros Ha Hb. unfold body_except.
  destruct e; (apply settles_still; [auto with still| |]); intros ?; first
    [by apply run_finally_settles|apply (settles_ret (TStreamSent _ _))].
Qed.
Lemma stream_event_settles l c a b : 0 <= a → 0 <= b → settles (stream_event clock l c) a b 1 1.
Proof.
  intros Ha Hb. unfold stream_event. apply settles_engine.
  intros [[e|[[t|e|e]|]]|].
  - destruct e; by apply body_except_settles.
  - apply settles_still.
    + unfold body_token. still_steps.
    + intros [c'|]; [apply (settles_ret (TStreamSent c' AyNext))|apply (settles_ret (TStreamWait c))].
    + intros e. by apply body_except_settles.
  - apply settles_still.
    + unfold body_complete. still_steps.
    + intros c'. apply (settles_ret (TStreamSent c' AyReturn)).
    + intros e'. by apply body_except_settles.
  - apply (settles_ret (TStreamWait c)).
  - apply (settles_ret (TStreamWait c)).
  - apply (settles_ret (TStreamWait c)).
Qed.
Lemma chunk_event_settles chunk c a b : 0 <= a → 0 <= b → settles (chunk_event clock chunk c) a b 1 1.
Proof.
  intros Ha Hb. unfold chunk_event. destruct chunk as [e|[[text n]|]]; [by apply body_except_settles|..].
  - apply settles_still; [unfold body_chunk; still_steps| |].
    + intros c'. apply (settles_ret (TStreamSent c' AyNext)).
    + intros e. by apply body_except_settles.
  - apply settles_still; [unfold body_end, settings_of; still_steps| |].
    + intros c'. apply (settles_ret (TStreamSent c' AyFinish)).
    + intros e. by apply body_except_settles.
Qed.
Lemma resume_settles c next a b : 0 <= a → 0 <= b → settles (resume clock c next) a b 1 1.
Proof.
  intros Ha Hb. destruct next; simpl.
  - apply (settles_ret (TStreamWait c)).
  - destruct (sc_stream c).
    + apply settles_calm; [auto with still|apply total_engine_do|intros _; by apply run_finally_settles].
    + apply settles_calm; [apply still_ret|apply total_ret|intros _; by apply run_finally_settles].
  - apply settles_still; [unfold body_failed; still_steps| |].
    + intros c'. apply (settles_ret (TStreamSent c' AyFinish)).
    + intros e. by apply run_finally_settles.
  - by apply run_finally_settles.
Qed.
Lemma open_record_settles o a b : settles (open_record clock o) a b 1 1.
Proof.
  unfold open_record. apply settles_still; [unfold stream_open_record, settings_of, has_engine; still_steps| |].
  - intros c. apply (settles_ret (TStreamReady c)).
  - intros e. apply (settles_ret (TBroken e)).
Qed.
Lemma task_run_settles t i a b :
  0 <= a → 0 <= b → settles (task_run clock perf t i) a b (limiter_slots t) (stream_slots t).
Proof.
  intros Ha Hb. destruct t, i; try apply settles_ret; cbn [task_run limiter_slots stream_slots].
  - eapply (settles_then _ _ _ a b 1 0 1 0 0 0).
    + replace (a + 0) with (a + 1 - 1) by lia. apply generate_submit_moves. lia.
    + intros p. apply (settles_ret (TGenerateResult p.1 p.2)).
    + intros e. apply ended_settles.
  - apply settles_calm; [auto with still|apply total_get_item|]. intros item.
    destruct (_ || _); [|apply (settles_ret (TGenerateResult l record))].
    eapply (settles_then _ _ _ a b 1 0 0 0 0 0).
    + replace (a + 0) with (a + 1 - 1) by lia. apply generate_finish_moves. lia.
    + intros p. apply (settles_ret (TEnded None None)).
    + intros e. apply ended_settles.
  - eapply (settles_then _ _ _ a b 1 1 1 1 0 0).
    + replace (a + 0) with (a + 1 - 1) by lia. replace (b + 0) with (b + 1 - 1) by lia.
      apply stream_item_moves; lia.
    + intros o. apply settles_calm; [apply still_gets|apply total_gets|]. intros [|]; [|apply open_record_settles].
      apply settles_still; [unfold stream_sampling, settings_of; still_steps| |].
      * intros p. apply (settles_ret (TStreamCheck o p.1 p.2)).
      * intros e. apply (settles_ret (TBroken e)).
    + intros e. apply ended_settles.
  - eapply (settles_then _ _ _ a b 1 1 1 1 0 0).
    + replace (a + 0) with (a + 1 - 1) by lia. replace (b + 0) with (b + 1 - 1) by lia.
      apply stream_reserve_moves; lia.
    + intros _. apply open_record_settles.
    + intros e. apply ended_settles.
  - apply settles_still; [unfold body_begin; still_steps| |].
    + intros c'. apply (settles_ret (TStreamWait c')).
    + intros e. by apply body_except_settles.
  - apply (settles_ret (TStreamLost c)).
  - destruct (sc_stream c); [by apply stream_event_settles|apply (settles_ret (TStreamWait c))].
  - destruct (sc_stream c); [apply (settles_ret (TStreamWait c))|by apply chunk_event_settles].
  - destruct (sc_stream c); [|by apply body_except_settles].
    apply settles_calm; [auto with still|apply total_engine_do|]. intros _. apply (settles_ret (TStreamClosing c)).
  - by apply resume_settles.
  - by apply run_finally_settles.
  - destruct (sc_stream c).
    + apply settles_calm; [auto with still|apply total_engine_do|intros _; by apply body_except_settles].
    + apply settles_calm; [apply still_ret|apply total_ret|intros _; by apply body_except_settles].
  - destruct (sc_stream c); [|apply (settles_ret (TStreamClosing c))].
    apply settles_calm; [apply still_gets|apply total_gets|]. intros [|]; [|apply (settles_ret (TStreamClosing c))].
    apply settles_calm; [auto with still|apply total_engine_do|]. intros _. by apply body_except_settles.
Qed.

(** ** The application *)

Lemma zsum_update {A} (f : A → Z) l n x y :
  l !! n = Some x → zsum f (<[n := y]> l) = zsum f l - f x + f y.
Proof.
  revert n. induction l as [|z l IH]; intros [|n]; try done.
  - intros [= ->]. change (<[0%nat := y]> (x :: l)) with (y :: l). rewrite !zsum_cons. lia.
  - intros E. change (<[Datatypes.S n := y]> (z :: l)) with (z :: <[n := y]> l).
    rewrite !zsum_cons, (IH n E). lia.
Qed.
Lemma slots_range t : 0 <= stream_slots t <= limiter_slots t ∧ limiter_slots t <= 1.
Proof. destruct t; simpl; lia. Qed.
Lemma slots_nonneg (ts : list Task) : 0 <= zsum limiter_slots ts ∧ 0 <= zsum stream_slots ts.
Proof. split; apply zsum_nonneg; intros t _; pose proof (slots_range t); lia. Qed.
Lemma others_nonneg (ts : list Task) n t :
  ts !! n = Some t →
  0 <= zsum limiter_slots ts - limiter_slots t ∧ 0 <= zsum stream_slots ts - stream_slots t.
Proof.
  intros Hn. pose proof (slots_nonneg (<[n := TEnded None None]> ts)) as H'.
  rewrite !(zsum_update _ _ _ _ _ Hn) in H'. simpl in H'. lia.
Qed.

Definition app_ok (m : Z) (x : App) : Prop :=
  counts m (zsum limiter_slots x.2) (zsum stream_slots x.2) x.1.
(** The tracker's event is set exactly when no handler holds a stream. *)
Lemma no_open_stream m g ts :
  app_ok m (g, ts) → (tracker_close_end (gw_stream_tracker g) = true ↔ ∀ t, t ∈ ts → stream_slots t = 0).
Proof.
  intros (_ & _ & _ & _ & Hi). simpl in Hi. unfold tracker_close_end. rewrite Hi, Z.eqb_eq. split.
  - intros Hz t Ht. pose proof (slots_range t). apply Z.le_antisymm; [|lia]. rewrite <- Hz.
    apply zsum_elem_le; [|done]. intros u _. pose proof (slots_range u). lia.
  - intros Hz. rewrite (zsum_ext _ (λ _, 0)) by done. clear. induction ts as [|t ts IH]; [done|].
    by rewrite zsum_cons, IH.
Qed.
Lemma start_ok {A} (c : M A) (next : A → M Task) m g ts t g' da db :
  app_ok m (g, ts) →
  (∀ a b, 0 <= a → 0 <= b → moves c a b (a + da) (b + db) a b) →
  (∀ x a b, settles (next x) a b da db) →
  then_ c next (ended None) g = (inr t, g') → app_ok m (g', ts ++ [t]).
Proof.
  intros Hok Hc Hn E. unfold app_ok in *. simpl in *. rewrite !zsum_app. simpl. rewrite !Z.add_0_r.
  pose proof (slots_nonneg ts) as [Ha Hb].
  assert (settles (then_ c next (ended None)) (zsum limiter_slots ts) (zsum stream_slots ts) 0 0) as Hs.
  { eapply (settles_then _ _ _ _ _ 0 0 da db 0 0); [rewrite !Z.add_0_r; by apply Hc|intros x; exact (Hn x _ _)|].
    intros e. apply ended_settles. }
  specialize (Hs m g). rewrite !Z.add_0_r in Hs. specialize (Hs Hok). by rewrite E in Hs.
Qed.
Lemma handler_step_ok m x y : handler_step clock perf sha256 x y → app_ok m x → app_ok m y.
Proof.
  destruct 1 as [g ts body auth t g' E|g ts body auth t g' E|g ts n t i t' g' Hn E|g ts id auth r g' E
    |g ts id auth r g' E]; intros Hok.
  - eapply (start_ok _ _ m g ts t g' 1 0); [exact Hok| | |exact E].
    + intros a b Ha Hb. rewrite Z.add_0_r. by apply generate_enter_moves.
    + intros p a b. apply (settles_ret (TGenerateCount body p.1 p.2)).
  - eapply (start_ok _ _ m g ts t g' 1 1); [exact Hok| | |exact E].
    + intros a b Ha Hb. by apply stream_enter_moves.
    + intros p a b. apply (settles_ret (TStreamCount body p.1 p.2)).
  - unfold app_ok in *. simpl in *. rewrite !(zsum_update _ _ _ _ _ Hn).
    destruct (others_nonneg ts n t Hn) as [Ha Hb].
    pose proof (task_run_settles t i _ _ Ha Hb m g) as Hs.
    rewrite !Z.sub_add in Hs. specialize (Hs Hok). by rewrite E in Hs.
  - pose proof (still_status id auth _ _ _ _ Hok) as Hs. cbn [fst] in Hs. rewrite E in Hs. by destruct r.
  - pose proof (still_cancel id auth _ _ _ _ Hok) as Hs. cbn [fst] in Hs. rewrite E in Hs. by destruct r.
Qed.
Lemma still_begin_shutdown : still (begin_shutdown clock).
Proof.
  unfold begin_shutdown. apply still_bind; [apply still_on_local|]. intros [e|n]; [apply still_ret|].
  apply still_bind; [|intros _; apply still_ret]. intros m a b. by apply preserves_modify.
Qed.
Lemma app_step_ok m x y : app_step clock perf sha256 x y → app_ok m x → app_ok m y.
Proof.
  destruct 1 as [x y Hs|g ts|g ts w _|g ts e e' _ _]; intros Hok; [by eapply handler_step_ok| |exact Hok..].
  pose proof (still_begin_shutdown m _ _ g Hok) as Hs. by destruct (begin_shutdown clock g) as [[] ?].
Qed.
Lemma app_steps_ok m (x y : App (S := S) (B := B)) : rtc (app_step clock perf sha256) x y → app_ok m x → app_ok m y.
Proof. induction 1; [done|]. intros Hok. by eapply IHrtc, app_step_ok. Qed.
Lemma create_app_ok packages settings engine worker backend g :
  settings_ok settings → create_app sha256 packages settings engine worker backend = Ok g →
  app_ok (cf_max_concurrent_requests settings) (g, []).
Proof.
  intros Hs E. unfold create_app in E.
  apply bind_Ok_inv in E as (otel & _ & E). apply bind_Ok_inv in E as (e & _ & E).
  apply bind_Ok_inv in E as (creds & _ & E).
  apply bind_Ok_inv in E as (auth & _ & [= <-]). unfold app_ok, counts. cbn. split_and!; try done.
  pose proof (so_positive _ Hs) as Hp. unfold positive_fields in Hp.
  rewrite !Forall_cons in Hp. cbn in Hp. lia.
Qed.

(** A response whose body never runs keeps its slots, whatever happens: once such responses hold them
    all, every later request is refused. *)
Definition lost_slots (t : Task) : Z := match t with TStreamLost _ | TBroken _ => 1 | _ => 0 end.
Lemma lost_slots_step (x y : App (S := S) (B := B)) :
  app_step clock perf sha256 x y → zsum lost_slots x.2 <= zsum lost_slots y.2.
Proof.
  destruct 1 as [x y [g ts body auth t g' E|g ts body auth t g' E|g ts n t i t' g' Hn E|g ts id auth r g' E
    |g ts id auth r g' E]|g ts|g ts w|g ts e e' _]; simpl; try lia.
  - rewrite zsum_app. simpl. destruct t; simpl; lia.
  - rewrite zsum_app. simpl. destruct t; simpl; lia.
  - rewrite (zsum_update _ _ _ _ _ Hn).
    assert (lost_slots t <= lost_slots t'); [|lia].
    destruct t; simpl; try (destruct t'; simpl; lia); destruct i; by injection E as <- <-.
Qed.
Lemma all_slots_lost m (x y : App (S := S) (B := B)) body header t g :
  app_ok m x → m <= zsum lost_slots x.2 → rtc (app_step clock perf sha256) x y →
  start_stream perf sha256 body header y.1 = (inr t, g) ∨ start_generate perf sha256 body header y.1 = (inr t, g) →
  ∃ e c, t = TEnded e c.
Proof.
  intros Hok Hm Hr Ht. assert (m <= zsum lost_slots y.2) as Hy.
  { clear Ht Hok. induction Hr as [x|x z y Hxz _ IH]; [done|]. apply IH.
    pose proof (lost_slots_step _ _ Hxz). lia. }
  pose proof (app_steps_ok m _ _ Hr Hok) as Hok'. destruct y as [g1 ts]. simpl in *.
  assert (app_ok m (g, ts ++ [t])) as (_ & _ & Hle & _).
  { destruct Ht as [Ht|Ht]; (eapply app_step_ok; [|exact Hok']).
    - by eapply StHandler, StStream.
    - by eapply StHandler, StGenerate. }
  simpl in Hle. rewrite zsum_app in Hle. simpl in Hle.
  assert (zsum lost_slots ts <= zsum limiter_slots ts) as Hll.
  { clear. induction ts as [|u ts IH]; [done|]. rewrite !zsum_cons. destruct u; simpl; lia. }
  destruct t; simpl in Hle; try lia. by eexists _, _.
Qed.
End gateway.

(** C5: In every state the gateway reaches, with any number of generate and stream handlers interleaved at
    their suspensions, the limiter counts exactly the handlers that hold a slot, never more than
    max_concurrent_requests, and the tracker counts exactly the open streams: its idle event is set
    exactly when no handler holds a stream. Every handler that has ended, on whatever path, holds nothing. *)
Theorem gateway_slots_accounted {S B} `{InferenceBackend S B} clock perf sha256 isdigit urlparse packages settings
    engine worker backend (g0 g : Gateway S B) tasks :
  validate isdigit urlparse settings = Ok tt →
  create_app sha256 packages settings engine worker backend = Ok g0 →
  rtc (app_step clock perf sha256) (g0, []) (g, tasks) →
  cl_active (gw_limiter g) = zsum limiter_slots tasks ∧
  zsum limiter_slots tasks <= cf_max_concurrent_requests settings ∧
  tk_active (gw_stream_tracker g) = zsum stream_slots tasks ∧
  (tracker_close_end (gw_stream_tracker g) = true ↔ ∀ t, t ∈ tasks → stream_slots t = 0).
Proof.
  intros Hv Hc Hr. pose proof (create_app_ok sha256 _ _ _ _ _ _ (validate_sound _ _ _ Hv) Hc) as Hok.
  apply (app_steps_ok clock perf sha256 _ _ _ Hr) in Hok. pose proof Hok as (Hm & Ha & Hle & Hb & Hi). simpl in *.
  split_and!; try done. by eapply no_open_stream.
Qed.

(** ** A sample run: one slot, two streams *)

Definition sample_now (n : nat) : float := f_of_Z (1 + Z.of_nat n).
Definition one_slot : Settings :=
  Settings_default <| cf_max_concurrent_requests := 1 |> <| cf_inference_backend := "legacy_generate" |>.
Definition hello : GenerateRequest := mkGenerate "hello" 3 f_zero (f_of_Z 1) [] 0 None.
#[local] Instance gateway_backend : InferenceBackend Z (list Z) := sample_backend false.
Definition sample_gateway : Gateway Z (list Z) :=
  match create_app id false one_slot None true 0 with
  | Ok g => g
  | Err _ => mkGateway one_slot (LocalScheduler.RequestQueue_init 0 0) None (mkLimiter 0 0)
               StreamTracker_init [] ∅ ∅ false
  end.
(** A first stream's client leaves before its body runs. *)
Definition sample_tokens : Input := InTokens "req_1" (inr 1) (inr 64).
Definition task_of (r : (GwExc + Task) * Gateway Z (list Z)) : Task :=
  match r.1 with inr t => t | inl e => TBroken e end.
Definition start1 := start_stream sample_now id hello None sample_gateway.
Definition ready1 := task_run sample_now sample_now (task_of start1) sample_tokens start1.2.
Definition lost1 := task_run sample_now sample_now (task_of ready1) InLost ready1.2.
Definition start2 := start_stream sample_now id hello None lost1.2.

Lemma gateway_slots_accounted_witness :
  cl_active (gw_limiter start2.2) = 1 ∧ tk_active (gw_stream_tracker start2.2) = 1 ∧
  task_of start2 = TEnded (Some (GApi (mkAPIError 429 "concurrency_limit_exceeded"
    "maximum concurrent requests exceeded" JNull))) None.
Proof.
  assert (rtc (app_step sample_now sample_now id) (sample_gateway, [])
    (start2.2, [task_of lost1; task_of start2])) as Hr.
  { eapply (rtc_l _ _ (start1.2, [task_of start1])).
    { apply StHandler, (StStream sample_now sample_now id sample_gateway [] hello None). vm_compute. reflexivity. }
    eapply (rtc_l _ _ (ready1.2, [task_of ready1])).
    { apply StHandler, (StRun sample_now sample_now id start1.2 [task_of start1] 0 (task_of start1) sample_tokens);
        [reflexivity|vm_compute; reflexivity]. }
    eapply (rtc_l _ _ (lost1.2, [task_of lost1])).
    { apply StHandler, (StRun sample_now sample_now id ready1.2 [task_of ready1] 0 (task_of ready1) InLost);
        [reflexivity|vm_compute; reflexivity]. }
    eapply rtc_once.
    apply StHandler, (StStream sample_now sample_now id lost1.2 [task_of lost1] hello None). vm_compute. reflexivity. }
  assert (create_app id false one_slot None true 0 = Ok sample_gateway) as Hc by (vm_compute; reflexivity).
  destruct (gateway_slots_accounted sample_now sample_now id (λ _, false) (λ _, Ok ("", None)) false one_slot None
    true 0 sample_gateway start2.2 [task_of lost1; task_of start2] ltac:(vm_compute; reflexivity) Hc Hr)
    as (Ha & _ & Hb & _).
  rewrite Ha, Hb. split_and!; vm_compute; reflexivity.
Defined.
