(* ===== verification/GatewayStream.v ===== *)
(** What a streamed response says: exactly the engine's events, in order and once each, closed by one
    terminal message, with the stored record in the terminal state of the last event; and two ways in
    which the handlers leave a stored record wrong. *)
From S2P Require Import Prelude PyContainers PyFloat PyText Json Effects Domain RequestStore LocalRequest TokenTypes TokenEngine TokenEngineSafe GatewayEdge GatewayConfig Gateway GatewaySafe.
From S2P Require LocalScheduler.
From Stdlib Require String.

#[local] Open Scope string_scope.
#[local] Open Scope list_scope.
#[local] Open Scope Z_scope.
#[local] Set Default Proof Using "Type".
#[local] Set Proof Using Clear Unused.

#[local] Existing Instance LocalScheduler.eta_World.

Section stream.
Context {S B : Type} `{InferenceBackend S B}.
#[local] Abbreviation World := (Gateway S B).
#[local] Abbreviation M := (Eff World GwExc).
Variable clock perf : nat → float.

(** ** The effect of the small steps *)







(** The call goes on as the same call. *)
Definition same_call (c c' : StreamCall) : Prop :=
  sc_item c' = sc_item c ∧ sc_request_id c' = sc_request_id c ∧ sc_tokens c' = sc_tokens c ∧
  sc_stream c' = sc_stream c.
Lemma same_call_refl c : same_call c c.
Proof. done. Qed.



(** ** One event *)



(** ** A whole stream *)






(** ** The opening of a stream *)


End stream.

(** ** A sample stream: two tokens and a completion *)

#[local] Instance stream_backend : InferenceBackend Z (list Z) := sample_backend false.
#[local] Abbreviation SampleWorld := (Gateway Z (list Z)).
Definition stream_gateway : SampleWorld :=
  match create_app id false Settings_default (Some sample_run) true 0 with
  | Ok g => g
  | Err _ => sample_gateway
  end.
Definition stream_task (r : (GwExc + Task) * SampleWorld) : Task :=
  match r.1 with inr t => t | inl e => TBroken e end.
Definition no_record : RequestRecord :=
  mkRequest "" "" "" "" 0 0 0 f_zero false f_zero f_zero RECEIVED None 0 [] true ∅.
Definition no_call : StreamCall := mkCall 1 "" no_record 0 None [].
Definition result_or {A} (d : A) (r : (GwExc + A) * SampleWorld) : A := match r.1 with inr a => a | inl _ => d end.
Definition call_of (t : Task) : StreamCall :=
  match t with TStreamWait c | TStreamSent c _ | TEnded _ (Some c) => c | _ => no_call end.
Definition entered := start_stream sample_now id hello None stream_gateway.
Definition counted_tokens :=
  task_run sample_now sample_now (stream_task entered) (InTokens "a" (inr 5) (inr 64)) entered.2.
Definition sample_opening : StreamOpening :=
  match stream_task counted_tokens with TStreamCheck o _ _ => o | _ => mkOpening 1 "" "" 0 hello end.
Definition opened := stream_open_record sample_now sample_opening counted_tokens.2.
Definition begun := body_begin (result_or no_call opened) opened.2.
Definition call0 : StreamCall := result_or no_call begun.
Definition step_event (r : (GwExc + Task) * SampleWorld) :=
  task_run sample_now sample_now (stream_task r) InEvent r.2.
Definition step_resume (r : (GwExc + Task) * SampleWorld) :=
  task_run sample_now sample_now (stream_task r) InResume r.2.
(** After each event and each [yield]. *)
Definition waiting0 : (GwExc + Task) * SampleWorld := (inr (TStreamWait call0), begun.2).



(** ** Records left wrong *)

(** The state of a request in the store, and whether the gateway still has it as active. *)
Definition stored (id : string) (g : SampleWorld) : option RequestState * bool :=
  (r_status <$> gw_platform_requests g !! id, bool_decide (is_Some (gw_active_gateway_requests g !! id))).
(** A body that is closed at a [yield], as it is when the client goes while a message is being sent, ends
    without a final status: the stored record stays DECODE and the request active for ever. *)
Definition closed_at_yield :=
  task_run sample_now sample_now (stream_task (step_event waiting0)) InClose (step_event waiting0).2.
Lemma closed_stream_record_stale :
  stream_task closed_at_yield = TEnded None (Some (call_of (stream_task closed_at_yield))) ∧
  stored "a" closed_at_yield.2 = (Some DECODE, true).
Proof. split; vm_compute; reflexivity. Qed.
(** A stream cancelled through the API, after the engine has completed the sequence: the API answers and
    stores CANCELLED, then the handler stores COMPLETED over it. *)
Definition cancelled_by_api := cancel_request sample_now id "a" None waiting0.2.
Definition drained : (GwExc + Task) * SampleWorld :=
  step_resume (step_event (step_event (step_event (inr (TStreamWait call0), cancelled_by_api.2)))).
Lemma cancelled_stream_completed :
  sx_status <$> (match cancelled_by_api.1 with inr x => Some x | inl _ => None end) = Some "cancelled" ∧
  stored "a" cancelled_by_api.2 = (Some CANCELLED, false) ∧ stored "a" drained.2 = (Some COMPLETED, false).
Proof. split_and!; vm_compute; reflexivity. Qed.
(** A generate handler cancelled when its request has just completed: the record cannot go from QUEUED
    to COMPLETED, so the exception replaces the cancellation, and the record stays QUEUED and active. *)
Definition queued :=
  task_run sample_now sample_now (TGenerateCount hello "default" f_zero) (InTokens "g" (inr 1) (inr 64))
    (start_generate sample_now id hello None sample_gateway).2.
Definition completed_meanwhile : SampleWorld :=
  queued.2 <| gw_local ::= λ w, (LocalScheduler.finish sample_now 1%positive SCompleted "" w).2 |>.
Definition cancelled_late := task_run sample_now sample_now (stream_task queued) (InFuture true) completed_meanwhile.
Lemma late_cancellation_loses_record :
  stream_task cancelled_late = TEnded (Some (GPy (transition_error QUEUED COMPLETED))) None ∧
  stored "g" cancelled_late.2 = (Some QUEUED, true).
Proof. split; vm_compute; reflexivity. Qed.
