(* ===== verification/GatewayLifespan.v ===== *)
(** The lifespan of [apps/gateway/main.py]: the coroutine that starts the gateway's scheduler and, at
    shutdown, closes the queue, waits for the streams and the scheduler within their grace periods and
    shuts the engine down, interleaved with the handlers of [Gateway]. *)
From S2P Require Import Prelude PyContainers PyFloat PyText Json Effects Domain RequestStore LocalRequest TokenTypes TokenEngine TokenEngineSafe GatewayEdge GatewayConfig Gateway GatewaySafe.
From S2P Require LocalScheduler.
From Stdlib Require String.

#[local] Open Scope string_scope.
#[local] Open Scope list_scope.
#[local] Open Scope Z_scope.
#[local] Set Default Proof Using "Type".
#[local] Set Proof Using Clear Unused.

(** ** The coroutine *)

(** Where the lifespan is suspended: in [worker.warmup], at its [yield], in [stream_tracker.close], in
    [wait_for(shield(task))], in [await task] after the cancellation, in [token_engine.shutdown] and in
    [otel.shutdown]. *)
Inductive LifespanExc :=
  | XWarmup (e : PyErr) | XQueueClose | XScheduler (e : LocalScheduler.Exc) | XEngine (e : Exc) | XTelemetry
  | XCancelled.
Inductive Phase :=
  | LfStarting | LfWarmup | LfServing | LfStreams | LfScheduler | LfCancelling | LfEngine | LfTelemetry
  | LfDone | LfFailed (e : LifespanExc).
(** The task of [run_scheduler]. *)
Inductive SchedulerTask := NotCreated | Running (cancelled : bool) | Over (r : LocalScheduler.Exc + unit).

Section lifespan.
Context {S B : Type} `{InferenceBackend S B}.
Variable clock perf : nat → float.
Variable sha256 : string → string.
(** Telemetry is configured. *)
Variable otel : bool.

(** [ls_streams_finished]: the result of [stream_tracker.close], once there is one. *)
Record Site := mkSite {
  ls_app : App (S := S) (B := B);
  ls_task : SchedulerTask;
  ls_phase : Phase;
  ls_streams_finished : option bool
}.
#[export] Instance eta_Site : Eta Site := λ s, mkSite (ls_app s) (ls_task s) (ls_phase s) (ls_streams_finished s).
Definition lifespan_start (g : Gateway S B) : Site := mkSite (g, []) NotCreated LfStarting None.

(** [asyncio.create_task(run_scheduler(...))], up to the [yield]. *)
Definition serve (s : Site) : Site := s <| ls_task := Running false |> <| ls_phase := LfServing |>.
Definition start_up (s : Site) : Site :=
  if cf_model_warmup_on_start (gw_settings (ls_app s).1) then s <| ls_phase := LfWarmup |> else serve s.
Definition end_engine (s : Site) : Site := s <| ls_phase := if otel then LfTelemetry else LfDone |>.
(** From the end of the scheduler's task: [token_engine.shutdown] up to its first [await]; an engine that
    is closed already returns at once. *)
Definition shut_engine (s : Site) : Site :=
  let g := (ls_app s).1 in
  match on_engine TokenEngine.shutdown_begin g with
  | (inr (Some (inr true)), g) => s <| ls_app := (g, (ls_app s).2) |> <| ls_phase := LfEngine |>
  | (_, g) => end_engine (s <| ls_app := (g, (ls_app s).2) |>)
  end.
(** From the [yield]. *)
Definition shut_down (s : Site) : Site :=
  let '(r, g) := begin_shutdown clock (ls_app s).1 in
  s <| ls_app := (g, (ls_app s).2) |>
    <| ls_phase := match r with inr true => LfStreams | _ => LfFailed XQueueClose end |>.
Definition streams_closed (finished : bool) (s : Site) : Site :=
  s <| ls_streams_finished := Some finished |> <| ls_phase := LfScheduler |>.
(** [except TimeoutError]. *)
Definition cancel_scheduler (s : Site) : Site :=
  s <| ls_task ::= λ t, match t with Running _ => Running true | _ => t end |> <| ls_phase := LfCancelling |>.
(** The task's outcome at [wait_for], and at [await task] where its cancellation is suppressed. *)
Definition scheduler_over (r : LocalScheduler.Exc + unit) (suppress : bool) (s : Site) : Site :=
  match r with
  | inr _ => shut_engine s
  | inl LocalScheduler.ECancelled =>
    if suppress then shut_engine s else s <| ls_phase := LfFailed (XScheduler LocalScheduler.ECancelled) |>
  | inl e => s <| ls_phase := LfFailed (XScheduler e) |>
  end.

(** Handlers run from the first [yield] on; the scheduler's task and the engine's have any effect on what
    is theirs ([StLocal], [StEngine]). *)
Definition served (p : Phase) : bool := match p with LfStarting | LfWarmup => false | _ => true end.
Definition waits (p : Phase) : bool :=
  match p with LfWarmup | LfServing | LfStreams | LfScheduler | LfEngine | LfTelemetry => true | _ => false end.
Inductive lifespan_step : Site → Site → Prop :=
  | lf_start s : ls_phase s = LfStarting → lifespan_step s (start_up s)
  | lf_warm s (r : PyErr + unit) :
    ls_phase s = LfWarmup →
    lifespan_step s (match r with inr _ => serve s | inl e => s <| ls_phase := LfFailed (XWarmup e) |> end)
  | lf_handler s x :
    served (ls_phase s) = true → handler_step clock perf sha256 (ls_app s) x → lifespan_step s (s <| ls_app := x |>)
  | lf_scheduler s w cancelled :
    ls_task s = Running cancelled →
    LocalScheduler.wd_accepting w = LocalScheduler.wd_accepting (gw_local (ls_app s).1) →
    lifespan_step s (s <| ls_app ::= λ a, (a.1 <| gw_local := w |>, a.2) |>)
  | lf_scheduler_ends s w cancelled r :
    ls_task s = Running cancelled →
    LocalScheduler.wd_accepting w = LocalScheduler.wd_accepting (gw_local (ls_app s).1) →
    lifespan_step s (s <| ls_app ::= λ a, (a.1 <| gw_local := w |>, a.2) |> <| ls_task := Over r |>)
  | lf_engine s e e' :
    gw_token_engine (ls_app s).1 = Some e → te_closed e' = te_closed e →
    lifespan_step s (s <| ls_app ::= λ a, (a.1 <| gw_token_engine := Some e' |>, a.2) |>)
  | lf_shut_down s : ls_phase s = LfServing → lifespan_step s (shut_down s)
  (* [stream_tracker.close]: its event is set, or its timeout has passed *)
  | lf_streams s finished :
    ls_phase s = LfStreams → (finished = true → tracker_close_end (gw_stream_tracker (ls_app s).1) = true) →
    lifespan_step s (streams_closed finished s)
  | lf_scheduler_waited s r : ls_phase s = LfScheduler → ls_task s = Over r → lifespan_step s (scheduler_over r false s)
  | lf_scheduler_late s : ls_phase s = LfScheduler → lifespan_step s (cancel_scheduler s)
  | lf_scheduler_cancelled s r :
    ls_phase s = LfCancelling → ls_task s = Over r → lifespan_step s (scheduler_over r true s)
  | lf_engine_returns s e e' :
    ls_phase s = LfEngine → gw_token_engine (ls_app s).1 = Some e → te_closed e' = te_closed e →
    te_executor_closed e' = true →
    lifespan_step s (end_engine (s <| ls_app ::= λ a, (a.1 <| gw_token_engine := Some e' |>, a.2) |>))
  | lf_engine_raises s e : ls_phase s = LfEngine → lifespan_step s (s <| ls_phase := LfFailed (XEngine e) |>)
  | lf_telemetry s (raised : bool) :
    ls_phase s = LfTelemetry → lifespan_step s (s <| ls_phase := if raised then LfFailed XTelemetry else LfDone |>)
  (* the lifespan itself is cancelled; in [await task] this cancels only the task, once more *)
  | lf_cancelled s : waits (ls_phase s) = true → lifespan_step s (s <| ls_phase := LfFailed XCancelled |>).
End lifespan.
Arguments Site S B : clear implicits.

#[local] Existing Instance LocalScheduler.eta_World.

(** ** What the handlers leave alone *)

(** Whether the queue, the tracker and the engine accept work. *)
Section gates.
Context {S B : Type} `{InferenceBackend S B}.
#[local] Abbreviation World := (Gateway S B).
#[local] Abbreviation M := (Eff World GwExc).
Variable clock perf : nat → float.
Variable sha256 : string → string.

Definition engine_closed (c : bool) (g : World) : Prop := ∀ e, gw_token_engine g = Some e → te_closed e = c.
Definition gates (a t c : bool) (g : World) : Prop :=
  LocalScheduler.wd_accepting (gw_local g) = a ∧ tk_accepting (gw_stream_tracker g) = t ∧ engine_closed c g.
Definition gated {A} (c : M A) : Prop := ∀ a t b, preserves (gates a t b) c.
(** A computation of the queue, and one of the engine, that leaves its own flag alone. *)
#[local] Abbreviation gated_local c := (∀ a, preserves (λ w, LocalScheduler.wd_accepting w = a) c).
#[local] Abbreviation gated_engine c := (∀ b, preserves (λ e : TokenGenerationEngine S B, te_closed e = b) c).

#[local] Create HintDb gated.
(** Follows the structure of a computation that preserves a state predicate. *)
Ltac frame_steps :=
  repeat (intros; cbn beta iota; first
    [ assumption | solve [auto with gated]
    | apply preserves_ret | apply preserves_raise | apply preserves_gets | apply preserves_bind
    | apply preserves_except
    | apply preserves_modify; intros; done
    | match goal with |- preserves _ (match ?x with _ => _ end) => destruct x end
    | match goal with |- preserves _ (let '_ := ?x in _) => destruct x end ]).

Lemma gated_bind {A C} (c : M A) (k : A → M C) : gated c → (∀ x, gated (k x)) → gated (c ≫= k).
Proof. intros Hc Hk a t b. apply preserves_bind; [apply Hc|]. intros x. apply Hk. Qed.
Lemma gated_ret {A} (x : A) : gated (mret x).
Proof. intros a t b. apply preserves_ret. Qed.
Lemma gated_raise {A} e : gated (raise (A := A) e).
Proof. intros a t b. apply preserves_raise. Qed.
Lemma gated_gets {A} (f : World → A) : gated (gets f).
Proof. intros a t b. apply preserves_gets. Qed.
Lemma gated_modify f :
  (∀ g, gw_local (f g) = gw_local g ∧ gw_stream_tracker (f g) = gw_stream_tracker g ∧
        gw_token_engine (f g) = gw_token_engine g) → gated (modify f).
Proof.
  intros Hf a t b. apply preserves_modify. intros g. unfold gates, engine_closed. by destruct (Hf g) as (-> & -> & ->).
Qed.
Lemma gated_try {A} (c : M A) h : gated c → (∀ e, gated (h e)) → gated (try_except c h).
Proof. intros Hc Hh a t b. apply preserves_except; [apply Hc|]. intros e. apply Hh. Qed.
Lemma gated_finally {A} (c : M A) last : gated c → gated last → gated (try_finally c last).
Proof. intros Hc Hl a t b. apply preserves_finally; [apply Hc|apply Hl]. Qed.
Lemma gated_attempt {A} (c : M A) : gated c → gated (attempt c).
Proof. intros Hc a t b. apply preserves_attempt, Hc. Qed.
Lemma gated_on_local {A} (c : LocalScheduler.M A) : gated_local c → gated (on_local c).
Proof.
  intros Hc a t b g (Ha & Ht & Hb). specialize (Hc a _ Ha). unfold on_local.
  by destruct (c (gw_local g)) as [[e|x] w].
Qed.
Lemma gated_on_engine {A} (c : Eff (TokenGenerationEngine S B) Exc A) : gated_engine c → gated (on_engine c).
Proof.
  intros Hc a t b g (Ha & Ht & Hb). unfold on_engine. destruct (gw_token_engine g) as [e|] eqn:Ee; [|by split_and!].
  specialize (Hc b e (Hb _ Ee)). destruct (c e) as [[x|x] e']; (split_and!; [done..|]); by intros ? [= <-].
Qed.
Lemma gated_on_tracker c : (∀ t, preserves (λ s, tk_accepting s = t) c) → gated (on_tracker c).
Proof.
  intros Hc a t b g (Ha & Ht & Hb). specialize (Hc t _ Ht). unfold on_tracker.
  by destruct (c (gw_stream_tracker g)) as [[e|x] s].
Qed.
Lemma gated_on_limiter c : gated (on_limiter c).
Proof. intros a t b g Hg. unfold on_limiter. by destruct (c (gw_limiter g)) as [[e|x] l]. Qed.

(** *** The queue *)

Lemma gated_local_update l f : gated_local (LocalScheduler.update_request l f).
Proof. intros a. unfold LocalScheduler.update_request. frame_steps. Qed.
Lemma gated_local_metrics f : gated_local (LocalScheduler.update_metrics f).
Proof. intros a. by apply preserves_modify. Qed.
Lemma gated_local_monotonic c : gated_local (LocalScheduler.monotonic c).
Proof. intros a w Hw. done. Qed.
Hint Resolve gated_local_update gated_local_metrics gated_local_monotonic : gated.
Lemma gated_local_finish l status message : gated_local (LocalScheduler.finish clock l status message).
Proof.
  intros a. unfold LocalScheduler.finish, LocalScheduler.completion_time, LocalScheduler.get_request. frame_steps.
Qed.
Hint Resolve gated_local_finish : gated.
Lemma gated_local_cancel l reason : gated_local (LocalScheduler.cancel clock l reason).
Proof.
  intros a. unfold LocalScheduler.cancel, LocalScheduler.get_request. frame_steps.
Qed.
Lemma gated_local_record l : gated_local (LocalScheduler.record clock l).
Proof.
  intros a. unfold LocalScheduler.record, LocalScheduler.get_request, LocalScheduler.set_request. frame_steps.
Qed.
Hint Resolve gated_local_cancel gated_local_record : gated.
Lemma gated_local_submit l : gated_local (LocalScheduler.submit clock l).
Proof. intros a. unfold LocalScheduler.submit, LocalScheduler.put_nowait. frame_steps. Qed.
(** Once the queue is closed it takes no request. *)
Lemma submit_refused l :
  hoare (λ w, LocalScheduler.wd_accepting w = false) (LocalScheduler.submit clock l) (λ _ _, False)
    (λ _ w, LocalScheduler.wd_accepting w = false).
Proof.
  unfold LocalScheduler.submit. apply (hoare_bind _ _ _ (λ _ w, LocalScheduler.wd_accepting w = false)); [apply gated_local_update|]. intros _.
  eapply hoare_bind; [apply hoare_gets|]. intros accepting w [-> Hw]. rewrite Hw. generalize dependent w.
  change (hoare (λ w, LocalScheduler.wd_accepting w = false)
    (_ ← LocalScheduler.finish clock l SRejected "scheduler is shutting down"; raise (A := unit) LocalScheduler.EQueueClosed)
    (λ _ _, False) (λ _ w, LocalScheduler.wd_accepting w = false)).
  apply (hoare_bind _ _ _ (λ _ w, LocalScheduler.wd_accepting w = false)); [apply gated_local_finish|]. intros _. by apply hoare_raise.
Qed.

(** *** The engine *)

#[local] Create HintDb engine_ops.
#[local] Hint Unfold TokenEngine.cancel TokenEngine.set_cancellation TokenEngine.set_wake TokenEngine.get_seq
  TokenEngine.update_state TokenEngine.update_seq TokenEngine.pop_finished TokenEngine.ensure_scheduler
  TokenEngine.monotonic TokenEngine.stream_finally TokenEngine.reserve TokenEngine.stream_open
  TokenEngine.stream_next TokenEngine.stream_return TokenEngine.stream_cancel TokenEngine.stream_cancelled : engine_ops.
Ltac engine_frame := intros b; autounfold with engine_ops; frame_steps.
Lemma gated_engine_cancel id : gated_engine (TokenEngine.cancel id).
Proof. engine_frame. Qed.
Lemma gated_engine_monotonic : gated_engine (TokenEngine.monotonic clock).
Proof. intros b e He. done. Qed.
Hint Resolve gated_engine_monotonic : gated.
Lemma gated_engine_reserve id prompt sampling deadline n :
  gated_engine (TokenEngine.reserve clock id prompt sampling deadline n).
Proof. engine_frame. Qed.
Lemma gated_engine_finally id l : gated_engine (TokenEngine.stream_finally id l).
Proof. engine_frame. Qed.
Lemma gated_engine_open id : gated_engine (TokenEngine.stream_open id).
Proof. engine_frame. Qed.
Lemma gated_engine_next id l : gated_engine (TokenEngine.stream_next id l).
Proof. engine_frame. Qed.
Lemma gated_engine_return id l : gated_engine (TokenEngine.stream_return id l).
Proof. engine_frame. Qed.
Lemma gated_engine_stream_cancel l : gated_engine (TokenEngine.stream_cancel l).
Proof. engine_frame. Qed.
Lemma gated_engine_cancelled id l : gated_engine (TokenEngine.stream_cancelled id l).
Proof. engine_frame. Qed.
Hint Resolve gated_local_submit gated_engine_cancel gated_engine_reserve gated_engine_finally gated_engine_open
  gated_engine_next gated_engine_return gated_engine_stream_cancel gated_engine_cancelled : gated.

(** *** The handlers *)

Lemma gated_when b c : gated c → gated (when b c).
Proof. intros Hc. unfold when. destruct b; [exact Hc|apply gated_ret]. Qed.
Ltac gated_steps :=
  repeat (intros; cbn beta iota; first
    [ assumption | solve [auto with gated]
    | apply gated_ret | apply gated_raise | apply gated_gets | apply gated_on_limiter
    | apply gated_on_local; solve [auto with gated] | apply gated_on_engine; solve [auto with gated]
    | apply gated_when | apply gated_bind | apply gated_try | apply gated_finally | apply gated_attempt
    | apply gated_modify; intros; split_and!; reflexivity
    | match goal with |- gated (match ?x with _ => _ end) => destruct x end
    | match goal with |- gated (let '_ := ?x in _) => destruct x end ]).

Lemma gated_start : gated (on_tracker tracker_start).
Proof. apply gated_on_tracker. intros t. unfold tracker_start, api_error. frame_steps. Qed.
Lemma gated_finish : gated (on_tracker tracker_finish).
Proof.
  apply gated_on_tracker. intros t. unfold tracker_finish, py_raise. frame_steps.
  intros []. apply preserves_modify. intros s Hs. by destruct (tk_active s =? 0).
Qed.
Lemma gated_lift_py {A} (r : res A) : gated (lift_py r).
Proof. unfold lift_py, py_raise. destruct r; gated_steps. Qed.
Lemma gated_local_call {A} (c : LocalScheduler.M A) : gated_local c → gated (local_call c).
Proof. intros Hc. unfold local_call. apply gated_bind; [by apply gated_on_local|]. gated_steps. Qed.
Lemma gated_engine_do {A} (c : Eff (TokenGenerationEngine S B) Exc A) : gated_engine c → gated (engine_do c).
Proof. intros Hc. unfold engine_do. apply gated_bind; [by apply gated_on_engine|]. gated_steps. Qed.
Hint Resolve gated_start gated_finish gated_lift_py gated_local_call gated_engine_do : gated.
Lemma gated_local_set l r : gated_local (LocalScheduler.set_request l r).
Proof. intros a. by apply preserves_modify. Qed.
Lemma gated_local_get l : gated_local (LocalScheduler.get_request l).
Proof. intros a. apply preserves_gets. Qed.
Hint Resolve gated_local_set gated_local_get : gated.
#[local] Create HintDb gateway_ops.
#[local] Hint Unfold monotonic perf_counter update_metrics rejected_for get_item update_item
  new_item settings_of store_do transition_now platform_request finish_transitions
  require_legacy_sampling validated_begin validated_end validate_request count_refusal
  counting_refusals in_slot generate_enter make_item reject_record authenticate own_record http_reason
  release_stream in_stream_slots has_engine stream_enter stream_sampling engine_refusal
  stream_open_record body_begin mark_first_token body_token body_complete body_chunk body_end
  body_fail body_failed body_cancelled api_error then_ ended run_finally send : gateway_ops.
Ltac gated_handler := autounfold with gateway_ops; gated_steps.
Lemma gated_finish_request record status started : gated (finish_platform_request clock record status started).
Proof. unfold finish_platform_request. gated_handler. Qed.
Hint Resolve gated_finish_request : gated.
Lemma gated_start_generate body header : gated (start_generate perf sha256 body header).
Proof. unfold start_generate. gated_handler. Qed.
Lemma gated_start_stream body header : gated (start_stream perf sha256 body header).
Proof. unfold start_stream. gated_handler. Qed.
Lemma gated_status id header : gated (request_status sha256 id header).
Proof. unfold request_status. gated_handler. Qed.
Lemma gated_cancel id header : gated (cancel_request clock sha256 id header).
Proof. unfold cancel_request. gated_handler. Qed.
Lemma gated_body_finally c : gated (body_finally clock c).
Proof. unfold body_finally. gated_handler. Qed.
Hint Resolve gated_body_finally : gated.
Lemma gated_body_except c e : gated (body_except clock c e).
Proof. unfold body_except. gated_handler. Qed.
Hint Resolve gated_body_except : gated.
Lemma gated_stream_event l c : gated (stream_event clock l c).
Proof. unfold stream_event. gated_handler. Qed.
Lemma gated_chunk_event chunk c : gated (chunk_event clock chunk c).
Proof. unfold chunk_event. gated_handler. Qed.
Lemma gated_resume c next : gated (resume clock c next).
Proof. unfold resume. gated_handler. Qed.
Lemma gated_generate_submit body tenant id started n window :
  gated (generate_submit clock perf body tenant id started n window).
Proof. unfold generate_submit. gated_handler. Qed.
Lemma gated_generate_finish l record cancelled : gated (generate_finish clock l record cancelled).
Proof. unfold generate_finish. gated_handler. Qed.
Lemma gated_stream_item body tenant id started n window :
  gated (stream_item clock perf body tenant id started n window).
Proof. unfold stream_item. gated_handler. Qed.
Lemma gated_stream_reserve o sampling deadline validated :
  gated (stream_reserve clock o sampling deadline validated).
Proof. unfold stream_reserve. gated_handler. Qed.
Lemma gated_open_record o : gated (open_record clock o).
Proof. unfold open_record. gated_handler. Qed.
Hint Resolve gated_stream_event gated_chunk_event gated_resume gated_generate_submit gated_generate_finish
  gated_stream_item gated_stream_reserve gated_open_record : gated.
Lemma gated_task_run t i : gated (task_run clock perf t i).
Proof. destruct t, i; try apply gated_ret; cbn [task_run]; gated_handler. Qed.
Lemma handler_step_gates a t c (x y : App) :
  handler_step clock perf sha256 x y → gates a t c x.1 → gates a t c y.1.
Proof.
  intros Hs Hg. destruct Hs as [g ts body auth t' g' E|g ts body auth t' g' E|g ts n t' i t1 g' Hn E|g ts id auth r g' E
    |g ts id auth r g' E]; simpl in *.
  - pose proof (gated_start_generate body auth a t c _ Hg) as Hk. by rewrite E in Hk.
  - pose proof (gated_start_stream body auth a t c _ Hg) as Hk. by rewrite E in Hk.
  - pose proof (gated_task_run t' i a t c _ Hg) as Hk. by rewrite E in Hk.
  - pose proof (gated_status id auth a t c _ Hg) as Hk. rewrite E in Hk. by destruct r.
  - pose proof (gated_cancel id auth a t c _ Hg) as Hk. rewrite E in Hk. by destruct r.
Qed.

(** ** Closed gates *)

(** The computation raises, from every state with the predicate. *)
Definition refuses {A} (P : World → Prop) (c : M A) : Prop := ∀ g, P g → ∃ e g', c g = (inl e, g').
Lemma refuses_bind {A C} P (c : M A) (k : A → M C) : refuses P c → refuses P (c ≫= k).
Proof. intros Hc g Hg. destruct (Hc g Hg) as (e & g' & E). exists e, g'. by apply bind_raise. Qed.
Lemma refuses_after {A C} a t b (c : M A) (k : A → M C) :
  gated c → (∀ x, refuses (gates a t b) (k x)) → refuses (gates a t b) (c ≫= k).
Proof.
  intros Hc Hk g Hg. specialize (Hc a t b g Hg). unfold mbind, M_bind.
  destruct (c g) as [[e|x] g']; [by eexists _, _|by apply Hk].
Qed.
Lemma refuses_then {A C} P (c : M A) (k : A → M C) : (∀ x, refuses (λ _, True) (k x)) → refuses P (c ≫= k).
Proof. intros Hk g _. unfold mbind, M_bind. destruct (c g) as [[e|x] g']; [by eexists _, _|by apply Hk]. Qed.
Lemma refuses_raise {A} P e : refuses P (raise (A := A) e).
Proof. intros g _. by eexists _, _. Qed.
Lemma refuses_reraise {A C} P (c : M C) e : refuses P (_ ← c; raise (A := A) e).
Proof. apply refuses_then. intros x. apply refuses_raise. Qed.
Lemma refuses_try {A} P (c : M A) h :
  refuses P c → (∀ e, refuses (λ _, True) (h e)) → refuses P (try_except c h).
Proof.
  intros Hc Hh g Hg. destruct (Hc g Hg) as (e & g' & E). unfold try_except. rewrite E. by apply Hh.
Qed.

(** Once streams are refused, no handler takes a stream. *)
Lemma stream_enter_refused body header a c : refuses (gates a false c) (stream_enter perf sha256 body header).
Proof.
  unfold stream_enter. do 5 (apply refuses_after; [autounfold with gateway_ops; gated_steps|intros ?]).
  apply refuses_bind, refuses_try; [|intros e; apply refuses_reraise].
  intros g (_ & Ht & _). unfold on_tracker, tracker_start, mbind, M_bind, gets. cbn. rewrite Ht. by eexists _, _.
Qed.
Lemma start_stream_refused body header a c g t g' :
  gates a false c g → start_stream perf sha256 body header g = (inr t, g') → ∃ e, t = TEnded (Some e) None.
Proof.
  intros Hg. destruct (stream_enter_refused body header a c g Hg) as (e & g1 & E).
  unfold start_stream, then_, attempt, mbind, M_bind. rewrite E. intros [= <- _]. by exists e.
Qed.
(** Once the queue is closed, no handler's request enters it. *)
Lemma generate_submit_refused body tenant id started n window t c :
  refuses (gates false t c) (generate_submit clock perf body tenant id started n window).
Proof.
  unfold generate_submit, counting_refusals, in_slot.
  apply refuses_try; [|intros e; apply refuses_reraise]. apply refuses_try; [|intros e; apply refuses_reraise].
  apply refuses_after; [autounfold with gateway_ops; gated_steps|]. intros [tokens ms].
  do 2 (apply refuses_after; [autounfold with gateway_ops; gated_steps|intros ?]).
  do 3 (apply refuses_after; [autounfold with gateway_ops; gated_steps|intros ?]).
  intros g (Ha & _). unfold on_local at 1. unfold mbind at 1, M_bind at 1.
  match goal with |- context [LocalScheduler.submit clock ?l ?w] => pose proof (submit_refused l w Ha) as Hs;
    destruct (LocalScheduler.submit clock l w) as [[e|[]] w'] end; [|done].
  clear Ha Hs. cbv beta iota zeta.
  match goal with |- ∃ e0 g0, ?c ?g' = (inl e0, g0) => assert (refuses (λ _, True) c) as Hr; [|by apply Hr] end.
  destruct e; solve [apply refuses_raise | apply refuses_reraise | apply refuses_then; intros ?; apply refuses_reraise].
Qed.
Lemma task_run_streamless t i (g : World) t' g' :
  stream_slots t = 0 → task_run clock perf t i g = (inr t', g') → stream_slots t' = 0.
Proof.
  intros Ht. destruct t; try done; destruct i; try (by intros [= <- _]); cbn [task_run].
  - unfold then_, attempt, mbind, M_bind. destruct (generate_submit _ _ _ _ _ _ _ _ g) as [[e|p] g1]; by intros [= <- _].
  - intros (item & g1 & _ & E)%bind_inr_inv. destruct (_ || _); [|by injection E as <- _].
    revert E. unfold then_, attempt, mbind, M_bind.
    destruct (generate_finish _ _ _ _ g1) as [[e|p] g2]; by intros [= <- _].
Qed.
Lemma handler_step_streamless a c (x y : App) :
  handler_step clock perf sha256 x y → gates a false c x.1 →
  (∀ t, t ∈ x.2 → stream_slots t = 0) → ∀ t, t ∈ y.2 → stream_slots t = 0.
Proof.
  intros Hs Hg Hx. destruct Hs as [g ts body auth t' g' E|g ts body auth t' g' E|g ts n t' i t1 g' Hn E|g ts id auth r g' E
    |g ts id auth r g' E]; simpl in *; try done.
  - intros t [Ht| ->%list_elem_of_singleton]%elem_of_app; [by apply Hx|].
    revert E. unfold start_generate, then_, attempt, mbind, M_bind.
    destruct (generate_enter _ _ _ _ g) as [[e|p] g1]; by intros [= <- _].
  - destruct (start_stream_refused _ _ _ _ _ _ _ Hg E) as [e ->].
    intros t [Ht| ->%list_elem_of_singleton]%elem_of_app; [by apply Hx|done].
  - intros t (k & Hk)%list_elem_of_lookup. destruct (decide (k = n)) as [->|Hkn].
    + rewrite list_lookup_insert_eq in Hk by (by eapply lookup_lt_Some). injection Hk as <-.
      eapply task_run_streamless; [|exact E]. apply Hx. by eapply list_elem_of_lookup_2.
    + rewrite list_lookup_insert_ne in Hk by done. apply Hx. by eapply list_elem_of_lookup_2.
Qed.

(** *** Closing them *)

Lemma drain_closed fuel n :
  preserves (λ w, LocalScheduler.wd_accepting w = false) (LocalScheduler.drain clock fuel n).
Proof.
  revert n. induction fuel as [|fuel IH]; intros n; [apply preserves_raise|]. cbn [LocalScheduler.drain].
  unfold LocalScheduler.get_nowait, LocalScheduler.task_done. frame_steps.
Qed.
Lemma close_closes :
  hoare (λ _, True) (LocalScheduler.close clock) (λ _ w, LocalScheduler.wd_accepting w = false) anyhow.
Proof.
  intros w _. unfold LocalScheduler.close.
  rewrite (bind_eq (gets LocalScheduler.wd_accepting) _ w _ w eq_refl).
  destruct (LocalScheduler.wd_accepting w) eqn:Ha; [|exact Ha]. cbn [negb].
  assert (hoare (λ _, True) (_ ← modify (λ w, w <| LocalScheduler.wd_accepting := false |>);
    items ← gets (λ w, LocalScheduler.aq_items (LocalScheduler.wd_queue w));
    n ← LocalScheduler.drain clock (Datatypes.S (length items)) 0; _ ← LocalScheduler.put_nowait None; mret n)
    (λ _ w, LocalScheduler.wd_accepting w = false) (λ _ w, LocalScheduler.wd_accepting w = false)) as Hc.
  { apply (hoare_bind _ _ _ (λ _ w, LocalScheduler.wd_accepting w = false)); [by apply hoare_modify|]. intros _.
    apply preserves_bind; [apply preserves_gets|]. intros items. apply preserves_bind; [apply drain_closed|]. intros n.
    apply preserves_bind; [|intros ?; apply preserves_ret]. unfold LocalScheduler.put_nowait. frame_steps. }
  specialize (Hc w I). revert Hc. match goal with |- context [?c w] => destruct (c w) as [[e|n] w'] end; done.
Qed.
Lemma begin_shutdown_closes g b g' :
  begin_shutdown clock g = (inr b, g') → b = true → ∃ c, gates false false c g'.
Proof.
  unfold begin_shutdown, on_local, mbind, M_bind, modify, mret, M_ret. pose proof (close_closes (gw_local g) I) as Hc.
  destruct (LocalScheduler.close clock (gw_local g)) as [[e|n] w]; intros [= <- <-]; [done|]. intros _.
  exists (match gw_token_engine g with Some e => te_closed e | None => false end).
  split_and!; [exact Hc|done|]. intros e He. cbn in He. by rewrite He.
Qed.
Lemma shutdown_begin_closes :
  hoare (λ _ : TokenGenerationEngine S B, True) TokenEngine.shutdown_begin (λ _ e, te_closed e = true) never.
Proof.
  intros e _. unfold TokenEngine.shutdown_begin. rewrite (bind_eq (gets te_closed) _ e _ e eq_refl).
  destruct (te_closed e) eqn:He; [exact He|]. rewrite (bind_eq (modify _) _ e tt _ eq_refl).
  set (e1 := e <| te_closed := true |>). assert (te_closed e1 = true) as H1 by done. clearbody e1.
  assert (∀ ls, ∃ e2, for_each set_cancellation ls e1 = (inr tt, e2) ∧ te_closed e2 = true) as Hf.
  { intros ls. revert e1 H1. induction ls as [|l ls IH]; intros e1 H1; cbn [for_each]; [by exists e1|].
    unfold set_cancellation at 1, update_state, update_seq, modify, mbind, M_bind. by apply IH. }
  unfold gets, mbind, M_bind. destruct (Hf (od_values (te_active e1))) as (e2 & -> & H2). exact H2.
Qed.

(** ** The lifespan *)

Variable otel : bool.

(** The phases after the close, and those after the wait for the scheduler. *)
Definition closing (p : Phase) : bool :=
  match p with LfStreams | LfScheduler | LfCancelling | LfEngine | LfTelemetry | LfDone => true | _ => false end.
Definition early (p : Phase) : bool := match p with LfStarting | LfWarmup | LfServing => true | _ => false end.
Definition ending (p : Phase) : bool := match p with LfEngine | LfTelemetry | LfDone => true | _ => false end.

Record site_ok (m : Z) (s : Site S B) : Prop := {
  so_app : app_ok m (ls_app s);
  so_early : early (ls_phase s) = true → ls_streams_finished s = None;
  so_closing : closing (ls_phase s) = true → ∃ c, gates false false c (ls_app s).1;
  so_streams : ls_streams_finished s = Some true →
    (∃ a c, gates a false c (ls_app s).1) ∧ ∀ t, t ∈ (ls_app s).2 → stream_slots t = 0;
  so_ending : ending (ls_phase s) = true → engine_closed true (ls_app s).1 ∧ ∃ r, ls_task s = Over r
}.
(** The scheduler's and the engine's own tasks. *)
Lemma gates_local a t c (g : World) w :
  LocalScheduler.wd_accepting w = LocalScheduler.wd_accepting (gw_local g) →
  gates a t c g → gates a t c (g <| gw_local := w |>).
Proof. intros Hw (Ha & Ht & Hc). split_and!; [by rewrite <- Ha|done..]. Qed.
Lemma gates_engine a t c (g : World) e e' :
  gw_token_engine g = Some e → te_closed e' = te_closed e →
  gates a t c g → gates a t c (g <| gw_token_engine := Some e' |>).
Proof. intros He Hee (Ha & Ht & Hc). split_and!; [done..|]. intros ? [= <-]. rewrite Hee. by apply Hc. Qed.
(** A step of other tasks, in which the lifespan itself stays where it is. *)
Lemma site_ok_others m (s s' : Site S B) :
  site_ok m s → app_ok m (ls_app s') →
  ls_phase s' = ls_phase s → ls_streams_finished s' = ls_streams_finished s →
  (ls_task s' = ls_task s ∨ ∃ c, ls_task s = Running c) →
  (∀ a t c, gates a t c (ls_app s).1 → gates a t c (ls_app s').1) →
  ((∃ a c, gates a false c (ls_app s).1) → (∀ t, t ∈ (ls_app s).2 → stream_slots t = 0) →
   ∀ t, t ∈ (ls_app s').2 → stream_slots t = 0) →
  site_ok m s'.
Proof.
  intros [Ha Hy Hc Hs He] Ha' Hp Hf Ht Hg Hts. split; rewrite ?Hp, ?Hf; [done|done| | |].
  - intros H1. destruct (Hc H1) as [c Hc1]. exists c. by apply Hg.
  - intros H1. destruct (Hs H1) as [(a & c & Hs1) Hs2]. split; [exists a, c; by apply Hg|]. apply Hts; [by exists a, c|done].
  - intros H1. destruct (He H1) as (He1 & r & Hr). split.
    + assert (closing (ls_phase s) = true) as H2 by (destruct (ls_phase s); done). destruct (Hc H2) as (c & Ha1 & Ht1 & _).
      by destruct (Hg false false true) as (_ & _ & ?).
    + destruct Ht as [->|[c Ht]]; [by exists r|]. by rewrite Ht in Hr.
Qed.
Lemma shut_engine_ok m (s : Site S B) :
  site_ok m s → closing (ls_phase s) = true → (∃ r, ls_task s = Over r) → site_ok m (shut_engine otel s).
Proof.
  intros [Ha _ Hc Hs _] Hp Hr. destruct (Hc Hp) as (c & Hg). unfold shut_engine.
  pose proof (still_on_engine TokenEngine.shutdown_begin m _ _ _ Ha) as Hst.
  destruct (ls_app s) as [g ts] eqn:Eapp. cbn [fst snd] in *.
  assert (∃ r g', on_engine TokenEngine.shutdown_begin g = (inr r, g') ∧ gates false false true g')
    as (r & g' & E & Hg').
  { unfold on_engine. destruct Hg as (Hga & Hgt & Hgc). destruct (gw_token_engine g) as [e|] eqn:Ee.
    - pose proof (shutdown_begin_closes e I) as Hb. destruct (TokenEngine.shutdown_begin e) as [[x|x] e']; [done|].
      eexists _, _. split; [done|]. split_and!; [done..|by intros ? [= <-]].
    - eexists _, _. split; [done|]. split_and!; [done..|intros ? ?; congruence]. }
  rewrite E in *.
  assert (∀ s', ls_app s' = (g', ts) → ls_task s' = ls_task s → ls_streams_finished s' = ls_streams_finished s →
    early (ls_phase s') = false → site_ok m s') as Hdone.
  { intros s' E1 E2 E3 E4. split; rewrite ?E1, ?E2, ?E3, ?E4; [done|done|by exists true| |by split; [apply Hg'|]].
    intros Hf. split; [by exists false, true|by apply Hs]. }
  destruct r as [[x|[]]|]; apply Hdone; try done; unfold end_engine; by destruct otel.
Qed.
(** A step of the lifespan that leaves the gateway as it is. *)
Lemma site_ok_phase m (s : Site S B) p :
  site_ok m s → (closing p = true → closing (ls_phase s) = true) → (ending p = true → ending (ls_phase s) = true) →
  (early p = true → early (ls_phase s) = true) → site_ok m (s <| ls_phase := p |>).
Proof. intros [Ha Hy Hc Hs He] H1 H2 H3. split; cbn; auto. Qed.
Lemma shut_down_ok m (s : Site S B) : site_ok m s → early (ls_phase s) = true → site_ok m (shut_down clock s).
Proof.
  intros [Ha Hy Hc Hs He] Hp. specialize (Hy Hp). unfold shut_down.
  destruct (ls_app s) as [g ts] eqn:Eapp. cbn [fst snd] in *.
  pose proof (still_begin_shutdown clock m _ _ g Ha) as Hst. pose proof (begin_shutdown_closes g) as Hbc.
  destruct (begin_shutdown clock g) as [[x|[]] g'].
  - split; cbn; rewrite ?Hy; done.
  - destruct (Hbc true g' eq_refl eq_refl) as [c Hg]. split; cbn; rewrite ?Hy; [done|done|by exists c|done..].
  - split; cbn; rewrite ?Hy; done.
Qed.
Lemma scheduler_over_ok m r b (s : Site S B) :
  site_ok m s → closing (ls_phase s) = true → (∃ r, ls_task s = Over r) → site_ok m (scheduler_over otel r b s).
Proof.
  intros Hok Hp Hr. unfold scheduler_over. destruct r as [e|[]]; [|by apply shut_engine_ok].
  destruct e; try (by apply site_ok_phase). destruct b; [by apply shut_engine_ok|by apply site_ok_phase].
Qed.
Lemma lifespan_step_ok m (s s' : Site S B) :
  lifespan_step clock perf sha256 otel s s' → site_ok m s → site_ok m s'.
Proof.
  intros Hstep Hok. pose proof Hok as [Ha Hy Hc Hs He].
  destruct Hstep as [s Hp|s r Hp|s x Hp Hx|s w k Ht Hw|s w k r Ht Hw|s e e' Ee Hcl|s Hp|s b Hp Hb|s r Hp Ht|s Hp|s r Hp Ht
    |s e e' Hp Ee Hcl _|s e Hp|s raised Hp|s Hp].
  - assert (ls_streams_finished s = None) as Hn by (apply Hy; by rewrite Hp).
    unfold start_up. destruct (cf_model_warmup_on_start _); [by apply site_ok_phase; rewrite ?Hp|].
    split; cbn; rewrite ?Hn; done.
  - assert (ls_streams_finished s = None) as Hn by (apply Hy; by rewrite Hp).
    destruct r; [by apply site_ok_phase; rewrite ?Hp|]. split; cbn; rewrite ?Hn; done.
  - apply (site_ok_others m s); [done|by eapply handler_step_ok|done..|by left| |].
    + intros a t c. by apply (handler_step_gates a t c _ _ Hx).
    + intros (a & c & Hg). by eapply handler_step_streamless.
  - apply (site_ok_others m s); [done|exact Ha|done..|by left|intros a t c; by apply gates_local|done].
  - split; cbn; [exact Ha|exact Hy| | |].
    + intros Hp. destruct (Hc Hp) as [c Hg]. exists c. by apply gates_local.
    + intros Hf. destruct (Hs Hf) as [(a & c & Hg) Hts]. split; [exists a, c; by apply gates_local|done].
    + intros Hp. split; [by apply He|by exists r].
  - apply (site_ok_others m s); [done|exact Ha|done..|by left|intros a t c; by apply (gates_engine _ _ _ _ e)|done].
  - apply shut_down_ok; [done|by rewrite Hp].
  - assert (closing (ls_phase s) = true) as Hcl by by rewrite Hp. destruct (Hc Hcl) as [c Hg].
    split; cbn; [done|done|by exists c| |done]. intros [= ->]. split; [by exists false, c|].
    destruct (ls_app s) as [g ts]. by apply (no_open_stream m g ts Ha), Hb.
  - by apply scheduler_over_ok; rewrite ?Hp; [| |exists r].
  - assert (closing (ls_phase s) = true) as Hcl by by rewrite Hp. split; cbn; auto; done.
  - by apply scheduler_over_ok; rewrite ?Hp; [| |exists r].
  - assert (closing (ls_phase s) = true) as Hcl' by by rewrite Hp.
    assert (site_ok m (s <| ls_app ::= λ a, (a.1 <| gw_token_engine := Some e' |>, a.2) |>)) as Hok'.
    { apply (site_ok_others m s); [done|exact Ha|done..|by left|intros a t c; by apply (gates_engine _ _ _ _ e)|done]. }
    unfold end_engine. destruct otel; apply site_ok_phase; cbn; by rewrite ?Hp.
  - by apply site_ok_phase.
  - destruct raised; apply site_ok_phase; by rewrite ?Hp.
  - by apply site_ok_phase.
Qed.
End gates.

(** *** An orderly shutdown *)

(** C7: Whatever the handlers, the scheduler and the engine do meanwhile: from the moment the lifespan has
    closed the gateway, the queue and the tracker take nothing, every streaming request that arrives ends
    at once with an error and no waiting handler's request enters the queue any more; when the wait for the
    streams has succeeded, no handler ever holds a stream again; and the engine is shut down only once the
    scheduler's task is over, after which the engine takes no sequence. *)
Theorem shutdown_admits_nothing {S B} `{InferenceBackend S B} clock perf sha256 isdigit urlparse otel packages settings engine
    worker backend (g0 : Gateway S B) s :
  validate isdigit urlparse settings = Ok tt →
  create_app sha256 packages settings engine worker backend = Ok g0 →
  rtc (lifespan_step clock perf sha256 otel) (lifespan_start g0) s →
  (closing (ls_phase s) = true →
     LocalScheduler.wd_accepting (gw_local (ls_app s).1) = false ∧
     tk_accepting (gw_stream_tracker (ls_app s).1) = false ∧
     (∀ body header t g, start_stream perf sha256 body header (ls_app s).1 = (inr t, g) →
        ∃ e, t = TEnded (Some e) None) ∧
     ∀ body tenant id started tokens window, ∃ e g,
       generate_submit clock perf body tenant id started tokens window (ls_app s).1 = (inl e, g)) ∧
  (ls_streams_finished s = Some true → ∀ t, t ∈ (ls_app s).2 → stream_slots t = 0) ∧
  (ending (ls_phase s) = true →
     (∃ r, ls_task s = Over r) ∧ ∀ e, gw_token_engine (ls_app s).1 = Some e → te_closed e = true).
Proof.
  intros Hv Hcr Hr. pose proof (create_app_ok sha256 _ _ _ _ _ _ (validate_sound _ _ _ Hv) Hcr) as Ha.
  assert (site_ok (cf_max_concurrent_requests settings) s) as [_ _ Hc Hs He].
  { revert Hr. apply (rtc_ind_r (λ s, site_ok _ s)); [by split|]. intros s1 s2 _. by apply lifespan_step_ok. }
  split_and!.
  - intros Hp. destruct (Hc Hp) as [c Hg]. split_and!; [apply Hg..| |].
    + intros body header t g. by apply (start_stream_refused perf sha256 _ _ _ _ _ _ _ Hg).
    + intros body tenant id started tokens window. by apply (generate_submit_refused _ _ _ _ _ _ _ _ _ _ _ Hg).
  - intros Hf. by apply Hs.
  - intros Hp. destruct (He Hp) as [? ?]. by split.
Qed.

(** ** A sample run: a stream arrives after an orderly shutdown *)

#[local] Existing Instance gateway_backend.
Definition sample_site : Site Z (list Z) :=
  let s := shut_down sample_now (start_up (lifespan_start sample_gateway)) in
  let s := streams_closed true s in
  scheduler_over false (inr tt) false (s <| ls_task := Over (inr tt) |>).
Lemma sample_site_steps :
  rtc (lifespan_step sample_now sample_now id false) (lifespan_start sample_gateway) sample_site.
Proof.
  eapply rtc_l; [by apply lf_start|]. eapply rtc_l; [by apply lf_shut_down|].
  eapply rtc_l; [by apply (lf_streams _ _ _ _ _ true)|].
  eapply rtc_l; [by eapply (lf_scheduler_ends _ _ _ _ _ _ false (inr tt))|].
  eapply rtc_l; [by apply (lf_scheduler_waited _ _ _ _ _ (inr tt))|]. apply rtc_refl.
Qed.
Lemma shutdown_admits_nothing_witness :
  ls_phase sample_site = LfDone ∧
  (∀ t g, start_stream sample_now id hello None (ls_app sample_site).1 = (inr t, g) → ∃ e, t = TEnded (Some e) None) ∧
  task_of (start_stream sample_now id hello None (ls_app sample_site).1)
    = TEnded (Some (GApi (mkAPIError 503 "service_shutting_down" "server is shutting down" JNull))) None.
Proof.
  assert (create_app id false one_slot None true 0 = Ok sample_gateway) as Hc by (vm_compute; reflexivity).
  destruct (shutdown_admits_nothing sample_now sample_now id (λ _, false) (λ _, Ok ("", None)) false false one_slot None
    true 0 sample_gateway sample_site ltac:(vm_compute; reflexivity) Hc sample_site_steps) as (Hs & _ & _).
  split_and!; [vm_compute; reflexivity| |vm_compute; reflexivity].
  intros t g. destruct Hs as (_ & _ & Hs & _); [vm_compute; reflexivity|]. apply Hs.
Defined.
