(* ===== verification/SimulatedGpu.v ===== *)
(** [runtime/simulated_gpu/runtime.py]: the deterministic runtime of the local pipeline. Sleeping is recorded in
    the state. *)
From S2P Require Import Prelude PyContainers PyFloat Domain Effects Registry Worker.
From Stdlib Require String.
From stdpp Require Import pretty.

#[local] Open Scope string_scope.
#[local] Open Scope list_scope.
#[local] Open Scope Z_scope.
#[local] Set Default Proof Using "Type".
#[local] Set Proof Using Clear Unused.

(** ** [SimulatedGpuConfig] *)

Record SimulatedGpuConfig := mkSimConfig {
  sc_total_memory_bytes : Z;
  sc_tokens_per_second : float;
  sc_model_load_seconds : float;
  sc_batching_efficiency : float;
  sc_failure_every_n_calls : option Z;
  sc_seed : Z;
  sc_device_name : string
}.
Definition SimulatedGpuConfig_post_init (c : SimulatedGpuConfig) : res SimulatedGpuConfig :=
  _ ← raise_if ((sc_total_memory_bytes c <=? 0) || f_leb (sc_tokens_per_second c) f_zero)
    (ValueError "simulated GPU memory and throughput must be positive");
  _ ← raise_if (negb (f_leb f_zero (sc_batching_efficiency c) && f_leb (sc_batching_efficiency c) (f_of_Z 1)))
    (ValueError "batching efficiency must be between zero and one");
  _ ← raise_if (match sc_failure_every_n_calls c with Some n => n <=? 0 | None => false end)
    (ValueError "failure interval must be positive");
  Ok c.
Definition SimulatedGpuConfig_default : SimulatedGpuConfig :=
  mkSimConfig (16 * 1024 ^ 3) (f_of_Z 100) (f_of_Z 0) (f_ratio 3 4) None 0 "deterministic-simulated-gpu".

(** ** [SimulatedGpuRuntime] *)

(** [sg_slept]: the durations that the sleeper was called with. *)
Record SimulatedGpuRuntime := mkSim {
  sg_models : gmap string ModelDefinition;
  sg_config : SimulatedGpuConfig;
  sg_loaded : gset string;
  sg_calls : Z;
  sg_slept : list float
}.
#[export] Instance eta_SimulatedGpuRuntime : Eta SimulatedGpuRuntime := λ s,
  mkSim (sg_models s) (sg_config s) (sg_loaded s) (sg_calls s) (sg_slept s).
Record RuntimeStreamChunk := mkChunk { ch_text : string; ch_output_tokens : Z }.

(** [{model.model_id: model for model in definitions}]. *)
Definition models_by_id (definitions : list ModelDefinition) : gmap string ModelDefinition :=
  foldl (λ d m, <[m_model_id m := m]> d) ∅ definitions.
Definition SimulatedGpuRuntime_init (models : list ModelDefinition) (config : option SimulatedGpuConfig)
  : res SimulatedGpuRuntime :=
  _ ← raise_if (existsb (λ m, negb (bool_decide (m_runtime_type m = SIMULATED))) models)
    (ValueError "simulated runtime only accepts simulated model definitions");
  _ ← raise_if (negb (Nat.eqb (size (models_by_id models)) (length models)))
    (ValueError "simulated model identifiers must be unique");
  Ok (mkSim (models_by_id models) (default SimulatedGpuConfig_default config) ∅ 0 []).

Section runtime.
(** The number that [random.Random(sha256(material).digest()).randrange(1_000_000)] draws, and
    [str(temperature)]. *)
Variable draw : string → Z.
Variable show_float : float → string.
#[local] Abbreviation M := (Eff SimulatedGpuRuntime PyErr).

Definition sim_check (b : bool) (e : PyErr) : M unit := if b then raise e else mret tt.
Definition sim_lift {A} (r : res A) : M A := match r with Ok a => mret a | Err e => raise e end.
Definition definition_of (model_id : string) : M ModelDefinition :=
  s ← gets id;
  match sg_models s !! model_id with
  | Some m => mret m
  | None => raise (ValueError ("model is not registered: " +:+ model_id))
  end.
(** [time.sleep]. *)
Definition sleep (seconds : float) : M unit :=
  _ ← sim_check (f_is_nan seconds) (ValueError "Invalid value NaN (not a number)");
  _ ← sim_check (f_ltb seconds f_zero) (ValueError "sleep length must be non-negative");
  modify (λ s, s <| sg_slept ::= λ l, l ++ [seconds] |>).

(** [sum(... for model_id in self._loaded)]; a key that is missing raises. *)
Fixpoint sum_loaded (models : gmap string ModelDefinition) (loaded : list string) : res Z :=
  match loaded with
  | [] => Ok 0
  | model_id :: loaded =>
    match models !! model_id with
    | None => Err (KeyError model_id)
    | Some m => n ← sum_loaded models loaded; Ok (m_estimated_memory_bytes m + n)
    end
  end.
Definition sim_capacity : M RuntimeCapacity :=
  s ← gets id;
  used ← sim_lift (sum_loaded (sg_models s) (elements (sg_loaded s)));
  let total := sc_total_memory_bytes (sg_config s) in
  mret (mkCapacity SIMULATED_GPU (sc_device_name (sg_config s)) (Some total) (Some (total - used)) (Some used)
          (Some used) (Some 0) (Some "simulated") (Some "simulated") (Some "deterministic-v1") None None
          (Some "simulated-local-fabric")).

Definition sim_load_model (model : ModelDefinition) : M unit :=
  registered ← definition_of (m_model_id model);
  _ ← sim_check (negb (ModelDefinition_eqb registered model))
    (ValueError "model definition does not match the registered definition");
  s ← gets id;
  if bool_decide (m_model_id model ∈ sg_loaded s) then mret tt
  else
    c ← sim_capacity;
    match cp_available_memory_bytes c with
    | None => raise (RuntimeError "simulated GPU did not report memory capacity")
    | Some available_memory =>
      _ ← sim_check (available_memory <? m_estimated_memory_bytes model)
        (MemoryError ("insufficient simulated GPU memory for " +:+ m_model_id model));
      _ ← sleep (sc_model_load_seconds (sg_config s));
      modify (λ s, s <| sg_loaded ::= λ l, {[m_model_id model]} ∪ l |>)
    end.
Definition sim_unload_model (model_id : string) : M unit :=
  _ ← definition_of model_id; modify (λ s, s <| sg_loaded ::= λ l, l ∖ {[model_id]} |>).
Definition require_loaded (model_id : string) : M ModelDefinition :=
  model ← definition_of model_id;
  s ← gets id;
  _ ← sim_check (negb (bool_decide (model_id ∈ sg_loaded s)))
    (RuntimeError ("model is not loaded: " +:+ model_id));
  mret model.
Definition sim_warmup_model (model_id : string) : M unit := _ ← require_loaded model_id; mret tt.
Definition sim_is_model_loaded (model_id : string) : M bool :=
  _ ← definition_of model_id; gets (λ s, bool_decide (model_id ∈ sg_loaded s)).
Definition sim_count_prompt_tokens (model_id prompt : string) : M Z :=
  _ ← definition_of model_id; mret (py_word_count prompt).

Definition before_generation : M unit :=
  _ ← modify (λ s, s <| sg_calls ::= λ n, n + 1 |>);
  s ← gets id;
  match sc_failure_every_n_calls (sg_config s) with
  | Some interval =>
    sim_check (sg_calls s mod interval =? 0) (RuntimeError "controlled simulated GPU failure")
  | None => mret tt
  end.
Definition request_sizes (prompts : list string) (max_new_tokens : Z) : list Z :=
  (λ p, py_word_count p + max_new_tokens) <$> prompts.
Definition validate_generation (model_id : string) (prompts : list string) (max_new_tokens : Z)
  (temperature : float) : M ModelDefinition :=
  model ← require_loaded model_id;
  _ ← sim_check (bool_decide (prompts = []) || existsb py_blank prompts)
    (ValueError "at least one non-empty prompt is required");
  _ ← sim_check ((max_new_tokens <=? 0) || f_ltb temperature f_zero)
    (ValueError "generation limits are invalid");
  let sizes := request_sizes prompts max_new_tokens in
  _ ← sim_check (existsb (λ size, m_max_context_tokens model <? size) sizes)
    (ValueError "request exceeds the model context window");
  _ ← sim_check (m_max_batch_tokens model <? zsum id sizes)
    (ValueError "batch exceeds the model token budget");
  mret model.

Fixpoint str_repeat (s : string) (n : nat) : string :=
  match n with O => "" | S n => s +:+ str_repeat s n end.
(** The number [n] in at least six digits. *)
Definition pad6 (n : Z) : string :=
  let digits := pretty n in
  str_repeat "0" (6 - String.length digits) +:+ digits.
Definition sim_text (seed : Z) (model_id prompt : string) (output_tokens : Z) (temperature : float) : string :=
  let material := pretty seed +:+ "|" +:+ model_id +:+ "|" +:+ prompt +:+ "|" +:+ pretty output_tokens
                  +:+ "|" +:+ show_float temperature in
  "[simulated:" +:+ pad6 (draw material) +:+ "]".
Definition sim_result (seed : Z) (model_id prompt : string) (output_tokens : Z) (temperature generation_seconds : float)
  : RuntimeResult :=
  mkResult (sim_text seed model_id prompt output_tokens temperature) (py_word_count prompt) output_tokens
    (f_of_Z 0) (f_mul generation_seconds (f_of_Z 1000)) (f_of_Z 0).
(** [max_new_tokens * len(prompts) / (tokens_per_second * speedup)]. *)
Definition generation_seconds (c : SimulatedGpuConfig) (count max_new_tokens : Z) : res float :=
  let speedup := f_add (f_of_Z 1) (f_mul (f_of_Z (count - 1)) (sc_batching_efficiency c)) in
  f_truediv (f_of_Z (max_new_tokens * count)) (f_mul (sc_tokens_per_second c) speedup).
Definition sim_generate (model_id : string) (prompts : list string) (max_new_tokens : Z) (temperature : float)
  : M (list RuntimeResult) :=
  _ ← validate_generation model_id prompts max_new_tokens temperature;
  _ ← before_generation;
  s ← gets id;
  seconds ← sim_lift (generation_seconds (sg_config s) (Z.of_nat (length prompts)) max_new_tokens);
  _ ← sleep seconds;
  mret ((λ p, sim_result (sc_seed (sg_config s)) model_id p max_new_tokens temperature seconds) <$> prompts).
(** [stream], run to its end: the chunks it yields. *)
Fixpoint stream_chunks (seconds : float) (numbers : list Z) : M (list RuntimeStreamChunk) :=
  match numbers with
  | [] => mret []
  | token_number :: numbers =>
    _ ← sleep seconds;
    chunks ← stream_chunks seconds numbers;
    mret (mkChunk ("sim-" +:+ pretty token_number +:+ " ") token_number :: chunks)
  end.
Definition sim_stream (model_id prompt : string) (max_new_tokens : Z) (temperature : float)
  : M (list RuntimeStreamChunk) :=
  _ ← validate_generation model_id [prompt] max_new_tokens temperature;
  _ ← before_generation;
  s ← gets id;
  seconds ← sim_lift (f_truediv (f_of_Z 1) (sc_tokens_per_second (sg_config s)));
  stream_chunks seconds (seqZ 1 max_new_tokens).

(** The protocol that the managed worker uses; the worker asks only about models that it loaded, for
    which [is_model_loaded] does not raise. *)
Definition SimRuntime : ModelRuntime SimulatedGpuRuntime := {|
  rt_load_model := sim_load_model;
  rt_unload_model := sim_unload_model;
  rt_warmup_model := sim_warmup_model;
  rt_is_model_loaded model_id s := bool_decide (model_id ∈ sg_loaded s);
  rt_generate := sim_generate;
  rt_capacity := sim_capacity
|}.

(** ** Memory is never overcommitted *)

(** The calls of the protocol, the exceptions of which go to the caller. *)
Inductive SimCall :=
  | SimLoad (model : ModelDefinition) | SimUnload (model_id : string) | SimWarmup (model_id : string)
  | SimIsLoaded (model_id : string) | SimCount (model_id prompt : string) | SimCapacity
  | SimGenerate (model_id : string) (prompts : list string) (max_new_tokens : Z) (temperature : float)
  | SimStream (model_id prompt : string) (max_new_tokens : Z) (temperature : float).
Definition ignore {A} (c : M A) : M unit := _ ← c; mret tt.
Definition sim_call (c : SimCall) : M unit :=
  match c with
  | SimLoad m => sim_load_model m
  | SimUnload i => sim_unload_model i
  | SimWarmup i => sim_warmup_model i
  | SimIsLoaded i => ignore (sim_is_model_loaded i)
  | SimCount i p => ignore (sim_count_prompt_tokens i p)
  | SimCapacity => ignore sim_capacity
  | SimGenerate i ps n t => ignore (sim_generate i ps n t)
  | SimStream i p n t => ignore (sim_stream i p n t)
  end.
Definition sim_calls (cs : list SimCall) (s : SimulatedGpuRuntime) : SimulatedGpuRuntime :=
  foldl (λ s c, (sim_call c s).2) s cs.

(** The memory that the loaded models are estimated to take. *)
Definition memory_of (models : gmap string ModelDefinition) (model_id : string) : Z :=
  match models !! model_id with Some m => m_estimated_memory_bytes m | None => 0 end.
Definition used_memory (models : gmap string ModelDefinition) (loaded : gset string) : Z :=
  zsum (memory_of models) (elements loaded).
Record sim_inv (total : Z) (models : gmap string ModelDefinition) (s : SimulatedGpuRuntime) : Prop := {
  si_models : sg_models s = models;
  si_total : sc_total_memory_bytes (sg_config s) = total;
  si_known : ∀ i, i ∈ sg_loaded s → is_Some (models !! i);
  si_fits : used_memory models (sg_loaded s) <= total
}.
Lemma sum_loaded_ok models loaded :
  (∀ i, i ∈ loaded → is_Some (models !! i)) → sum_loaded models loaded = Ok (zsum (memory_of models) loaded).
Proof.
  induction loaded as [|i loaded IH]; intros Hk; [done|]. cbn [sum_loaded]. rewrite zsum_cons.
  destruct (Hk i) as [m Hm]; [by left|]. unfold memory_of at 1. rewrite Hm, IH; [done|].
  intros j Hj. apply Hk. by right.
Qed.
Lemma used_insert models loaded i :
  i ∉ loaded → used_memory models ({[i]} ∪ loaded) = memory_of models i + used_memory models loaded.
Proof.
  intros Hi. unfold used_memory. rewrite (zsum_perm _ _ (i :: elements loaded)); [by rewrite zsum_cons|].
  by apply elements_union_singleton.
Qed.
Lemma used_delete models loaded i :
  (∀ j, 0 <= memory_of models j) → used_memory models (loaded ∖ {[i]}) <= used_memory models loaded.
Proof.
  intros Hn. destruct (decide (i ∈ loaded)) as [Hi|Hi].
  - rewrite (union_difference_singleton_L i loaded Hi) at 2. rewrite used_insert by set_solver.
    specialize (Hn i). lia.
  - by rewrite (difference_disjoint_L loaded {[i]}) by set_solver.
Qed.
Lemma sim_capacity_eq total models s :
  sim_inv total models s → ∃ c, sim_capacity s = (inr c, s) ∧
    cp_total_memory_bytes c = Some total ∧
    cp_allocated_memory_bytes c = Some (used_memory models (sg_loaded s)) ∧
    cp_available_memory_bytes c = Some (total - used_memory models (sg_loaded s)).
Proof.
  intros [Hm Ht Hk _]. unfold sim_capacity. unfold mbind, M_bind, gets. cbn [id].
  rewrite sum_loaded_ok by (intros i Hi%elem_of_elements; rewrite Hm; by apply Hk).
  rewrite Hm, Ht. by eexists.
Qed.

(** *** Every call keeps the invariant *)

Section calls.
Context (total : Z) (models : gmap string ModelDefinition).
Hypothesis memory_nonneg : ∀ i, 0 <= memory_of models i.
#[local] Abbreviation ok c := (preserves (sim_inv total models) c).

Lemma ok_check b e : ok (sim_check b e).
Proof. unfold sim_check. destruct b; [apply preserves_raise|apply preserves_ret]. Qed.
Lemma ok_lift {A} (r : res A) : ok (sim_lift r).
Proof. unfold sim_lift. destruct r; [apply preserves_ret|apply preserves_raise]. Qed.
Lemma ok_definition i : ok (definition_of i).
Proof.
  apply preserves_bind; [apply preserves_gets|]. intros s.
  destruct (sg_models s !! i); [apply preserves_ret|apply preserves_raise].
Qed.
Lemma ok_sleep d : ok (sleep d).
Proof.
  do 2 (apply preserves_bind; [apply ok_check|intros _]). apply preserves_modify. by intros s [].
Qed.
Lemma ok_capacity : ok sim_capacity.
Proof.
  apply preserves_bind; [apply preserves_gets|]. intros s.
  apply preserves_bind; [apply ok_lift|]. intros used. apply preserves_ret.
Qed.
Lemma ok_require i : ok (require_loaded i).
Proof.
  apply preserves_bind; [apply ok_definition|]. intros m.
  apply preserves_bind; [apply preserves_gets|]. intros s.
  apply preserves_bind; [apply ok_check|]. intros _. apply preserves_ret.
Qed.
Lemma ok_before : ok before_generation.
Proof.
  apply preserves_bind; [apply preserves_modify; by intros s []|]. intros _.
  apply preserves_bind; [apply preserves_gets|]. intros s.
  destruct (sc_failure_every_n_calls _); [apply ok_check|apply preserves_ret].
Qed.
Lemma ok_validate i ps n t : ok (validate_generation i ps n t).
Proof.
  apply preserves_bind; [apply ok_require|]. intros m.
  do 4 (apply preserves_bind; [apply ok_check|intros _]). apply preserves_ret.
Qed.
Lemma ok_chunks d ns : ok (stream_chunks d ns).
Proof.
  induction ns as [|n ns IH]; [apply preserves_ret|]. cbn [stream_chunks].
  apply preserves_bind; [apply ok_sleep|]. intros _.
  apply preserves_bind; [exact IH|]. intros cs. apply preserves_ret.
Qed.
Lemma ok_unload i : ok (sim_unload_model i).
Proof using memory_nonneg.
  apply preserves_bind; [apply ok_definition|]. intros _. apply preserves_modify.
  intros s [Hm Ht Hk Hf]. split; cbn; [done|done|set_solver|].
  pose proof (used_delete models (sg_loaded s) i memory_nonneg). lia.
Qed.
(** The part of [load_model] that changes the state. *)
Lemma ok_load_absent m reg s0 :
  models !! m_model_id m = Some reg → m_estimated_memory_bytes reg = m_estimated_memory_bytes m →
  m_model_id m ∉ sg_loaded s0 →
  hoare (λ s, s = s0 ∧ sim_inv total models s)
    (c ← sim_capacity;
     match cp_available_memory_bytes c with
     | None => raise (RuntimeError "simulated GPU did not report memory capacity")
     | Some available_memory =>
       _ ← sim_check (available_memory <? m_estimated_memory_bytes m)
         (MemoryError ("insufficient simulated GPU memory for " +:+ m_model_id m));
       _ ← sleep (sc_model_load_seconds (sg_config s0));
       modify (λ s, s <| sg_loaded ::= λ l, {[m_model_id m]} ∪ l |>)
     end) (λ _, sim_inv total models) (λ _, sim_inv total models).
Proof.
  intros Hreg Hmem Hin s [-> Hs].
  destruct (sim_capacity_eq total models s0 Hs) as (c & Hc & _ & _ & Ha).
  rewrite (bind_eq _ _ _ _ _ Hc), Ha. clear Hc Ha c. unfold sim_check.
  destruct (Z.ltb_spec (total - used_memory models (sg_loaded s0)) (m_estimated_memory_bytes m)) as [|Hle];
    [exact Hs|].
  assert (hoare (λ s, sg_loaded s = sg_loaded s0 ∧ sim_inv total models s) (sleep (sc_model_load_seconds (sg_config s0)))
    (λ _ s, sg_loaded s = sg_loaded s0 ∧ sim_inv total models s) (λ _, sim_inv total models)) as Hsl.
  { intros s [Hl Hi]. pose proof (ok_sleep (sc_model_load_seconds (sg_config s0)) s Hi) as Hok.
    revert Hok. unfold sleep, sim_check, mbind, M_bind. destruct (f_is_nan _); [done|]. cbn.
    destruct (f_ltb _ _); [done|]. cbn. by split. }
  specialize (Hsl s0 (conj eq_refl Hs)). unfold mbind, M_bind. cbn [mret M_ret].
  destruct (sleep _ s0) as [[e|[]] s1]; [done|]. destruct Hsl as [Hl [Hm Ht Hk Hf]]. cbn. split; cbn; [done|done| |].
  - rewrite Hl. intros i Hi. apply elem_of_union in Hi as [->%elem_of_singleton|Hi]; [by exists reg|].
    apply Hk. by rewrite Hl.
  - rewrite Hl in *. rewrite used_insert by done. unfold memory_of. rewrite Hreg. lia.
Qed.
Lemma ok_load m : ok (sim_load_model m).
Proof.
  unfold sim_load_model.
  eapply (hoare_bind _ _ _ (λ reg s, models !! m_model_id m = Some reg ∧ sim_inv total models s)).
  { intros s Hs. unfold definition_of, mbind, M_bind, gets. cbn [id]. rewrite (si_models _ _ _ Hs).
    by destruct (models !! m_model_id m). }
  intros reg. apply hoare_pre. intros Hreg. unfold sim_check at 1.
  destruct (negb (ModelDefinition_eqb reg m)) eqn:Heq; [by intros s Hs|].
  apply negb_false_iff in Heq. assert (m_estimated_memory_bytes reg = m_estimated_memory_bytes m) as Hmem.
  { unfold ModelDefinition_eqb in Heq. by bool_hyps. }
  eapply (hoare_bind _ _ _ (λ _, sim_inv total models)); [by apply hoare_ret|]. intros _.
  eapply (hoare_bind _ _ _ (λ s0 s, s = s0 ∧ sim_inv total models s)); [by intros s Hs|]. intros s0.
  destruct (bool_decide_reflect (m_model_id m ∈ sg_loaded s0)) as [Hin|Hin].
  - apply hoare_ret. by intros s [_ Hs].
  - by apply (ok_load_absent m reg s0).
Qed.
Lemma ok_call c : ok (sim_call c).
Proof using memory_nonneg.
  destruct c; cbn [sim_call]; unfold ignore; try (apply preserves_bind; [|intros ?; apply preserves_ret]).
  - apply ok_load.
  - apply ok_unload.
  - apply ok_require.
  - apply preserves_bind; [apply ok_definition|]. intros _. apply preserves_gets.
  - apply preserves_bind; [apply ok_definition|]. intros _. apply preserves_ret.
  - apply ok_capacity.
  - do 2 (apply preserves_bind; [apply ok_validate || apply ok_before|intros ?]).
    apply preserves_bind; [apply preserves_gets|]. intros s.
    apply preserves_bind; [apply ok_lift|]. intros d.
    apply preserves_bind; [apply ok_sleep|]. intros _. apply preserves_ret.
  - do 2 (apply preserves_bind; [apply ok_validate || apply ok_before|intros ?]).
    apply preserves_bind; [apply preserves_gets|]. intros s.
    apply preserves_bind; [apply ok_lift|]. intros d. apply ok_chunks.
Qed.
Lemma sim_calls_ok cs s : sim_inv total models s → sim_inv total models (sim_calls cs s).
Proof using memory_nonneg.
  revert s. induction cs as [|c cs IH]; intros s Hs; [exact Hs|]. cbn [sim_calls foldl]. apply IH.
  pose proof (ok_call c s Hs) as Hc. by destruct (sim_call c s) as [[]].
Qed.
End calls.
End runtime.

Lemma models_by_id_lookup ms i m :
  models_by_id ms !! i = Some m → m ∈ ms ∧ m_model_id m = i.
Proof.
  unfold models_by_id.
  assert (∀ d : gmap string ModelDefinition, foldl (λ d m, <[m_model_id m := m]> d) d ms !! i = Some m →
    d !! i = Some m ∨ m ∈ ms ∧ m_model_id m = i) as Hg.
  { induction ms as [|x ms IH]; intros d; cbn [foldl]; [by left|]. intros H.
    apply IH in H as [H|[H1 H2]]; [|right; split; [by right|done]].
    rewrite lookup_insert in H. destruct (decide (m_model_id x = i)) as [E|E]; [|by left].
    injection H as ->. right. by split; [left|]. }
  intros H. apply Hg in H as [H|H]; [by rewrite lookup_empty in H|done].
Qed.
Lemma simulated_init_inv models config s :
  Forall (λ m, ModelDefinition_post_init m = Ok m) models → SimulatedGpuConfig_post_init config = Ok config →
  SimulatedGpuRuntime_init models (Some config) = Ok s →
  (∀ i, 0 <= memory_of (models_by_id models) i) ∧
  sim_inv (sc_total_memory_bytes config) (models_by_id models) s.
Proof.
  intros Hm Hc H. apply bind_Ok_inv in H as ([] & _ & H). apply bind_Ok_inv in H as ([] & _ & [= <-]). split.
  - intros i. unfold memory_of. destruct (models_by_id models !! i) as [m|] eqn:E; [|done].
    apply models_by_id_lookup in E as [Hin _]. rewrite Forall_forall in Hm. specialize (Hm m Hin).
    unfold ModelDefinition_post_init in Hm. apply bind_Ok_inv in Hm as ([] & _ & Hm).
    apply bind_Ok_inv in Hm as ([] & _ & Hm). apply bind_Ok_inv in Hm as ([] & Hr%raise_if_Ok & _). lia.
  - split; cbn; [done|done|set_solver|]. unfold used_memory. rewrite elements_empty. cbn.
    unfold SimulatedGpuConfig_post_init in Hc. apply bind_Ok_inv in Hc as ([] & Hr%raise_if_Ok & _). bool_hyps. lia.
Qed.

(** After any sequence of calls on the simulated GPU, failing ones included, its capacity report
    succeeds: the allocated memory is exactly the sum of the estimates of the loaded models, all of
    them registered, and the available memory is the rest of the total and never negative. *)
Theorem simulated_memory_never_overcommitted draw show_float models config s0 calls :
  Forall (λ m, ModelDefinition_post_init m = Ok m) models → SimulatedGpuConfig_post_init config = Ok config →
  SimulatedGpuRuntime_init models (Some config) = Ok s0 →
  let s := sim_calls draw show_float calls s0 in
  let used := used_memory (models_by_id models) (sg_loaded s) in
  ∃ c, sim_capacity s = (inr c, s) ∧ cp_allocated_memory_bytes c = Some used ∧
    cp_available_memory_bytes c = Some (sc_total_memory_bytes config - used) ∧
    0 <= used <= sc_total_memory_bytes config ∧
    ∀ i, i ∈ sg_loaded s → ∃ m, m ∈ models ∧ m_model_id m = i.
Proof.
  intros Hm Hc H s used. destruct (simulated_init_inv _ _ _ Hm Hc H) as [Hn Hi].
  apply (sim_calls_ok draw show_float _ _ Hn calls) in Hi. fold s in Hi.
  destruct (sim_capacity_eq _ _ s Hi) as (c & E & _ & Ha & Hv). exists c. split_and!; try done.
  - apply zsum_nonneg. intros i _. apply Hn.
  - apply (si_fits _ _ _ Hi).
  - intros i Hl. destruct (si_known _ _ _ Hi i Hl) as [m E']. exists m. by apply models_by_id_lookup in E'.
Qed.

Definition sample_sim_model (i : string) (memory : Z) : ModelDefinition :=
  mkModel i "r1" SIMULATED memory ["float16"] "float16" 64 64 false true (f_of_Z 5) (f_of_Z 300).
Definition sample_sim_config : SimulatedGpuConfig :=
  mkSimConfig 100 (f_of_Z 10) f_zero f_zero (Some 2) 7 "gpu".
(** The second model does not fit beside the first, and the second generation fails. *)
Definition sample_sim_calls : list SimCall :=
  [SimLoad (sample_sim_model "a" 60); SimLoad (sample_sim_model "b" 50);
   SimGenerate "a" ["hello"] 3 f_zero; SimGenerate "a" ["hello"; "you"] 3 f_zero;
   SimUnload "a"; SimLoad (sample_sim_model "b" 50)].
Lemma simulated_memory_never_overcommitted_witness :
  match SimulatedGpuRuntime_init [sample_sim_model "a" 60; sample_sim_model "b" 50] (Some sample_sim_config) with
  | Ok s0 =>
    let s := sim_calls (λ _, 5) (λ _, "0.0") sample_sim_calls s0 in
    sg_loaded s = {["b"]} ∧ sg_calls s = 2 ∧ ∃ c, sim_capacity s = (inr c, s)
  | Err _ => False
  end.
Proof.
  destruct (SimulatedGpuRuntime_init _ _) as [s0|] eqn:E; [|vm_compute in E; discriminate E].
  split; [vm_compute in E; injection E as <-; vm_compute; reflexivity|].
  split; [vm_compute in E; injection E as <-; vm_compute; reflexivity|].
  destruct (simulated_memory_never_overcommitted (λ _, 5) (λ _, "0.0")
    [sample_sim_model "a" 60; sample_sim_model "b" 50] sample_sim_config s0 sample_sim_calls) as (c & Hc & _).
  - repeat constructor.
  - vm_compute. reflexivity.
  - exact E.
  - exists c. exact Hc.
Defined.
