(* ===== verification/FaultInjection.v ===== *)
(** [runtime/fault_injection.py]: the decorator that delays and fails chosen calls of a runtime. *)
From S2P Require Import Prelude PyContainers PyFloat Domain Effects Worker.
From Stdlib Require String.
From stdpp Require Import pretty.

#[local] Open Scope string_scope.
#[local] Open Scope list_scope.
#[local] Open Scope Z_scope.
#[local] Set Default Proof Using "Type".
#[local] Set Proof Using Clear Unused.

Record FaultRule := mkRule {
  fr_operation : string;
  fr_fail_on_calls : list Z;
  fr_delay_seconds : float;
  fr_code : string
}.
Definition FaultRule_post_init (r : FaultRule) : res FaultRule :=
  _ ← raise_if (str_empty (fr_operation r) || str_empty (fr_code r))
    (ValueError "fault operation and code are required");
  _ ← raise_if (f_ltb (fr_delay_seconds r) f_zero || existsb (λ call, call <=? 0) (fr_fail_on_calls r))
    (ValueError "fault calls must be positive and delay must be non-negative");
  _ ← raise_if (negb (Nat.eqb (length (fr_fail_on_calls r))
                        (size (list_to_set (fr_fail_on_calls r) : gset Z))))
    (ValueError "fault call numbers must be unique");
  Ok r.
(** [InjectedRuntimeFault], by its message. *)
Definition injected_fault (operation : string) (call_number : Z) (code : string) : PyErr :=
  RuntimeError ("injected " +:+ operation +:+ " fault on call " +:+ pretty call_number +:+ ": " +:+ code).

Section runtime.
Context {S : Type} `{ModelRuntime S}.

(** [fi_slept]: the durations that the sleeper was called with. *)
Record FaultInjectingRuntime := mkFaulty {
  fi_runtime : S;
  fi_rules : gmap string FaultRule;
  fi_calls : gmap string Z;
  fi_slept : list float
}.
#[export] Instance eta_FaultInjectingRuntime : Eta FaultInjectingRuntime := λ r,
  mkFaulty (fi_runtime r) (fi_rules r) (fi_calls r) (fi_slept r).
#[local] Abbreviation M := (Eff FaultInjectingRuntime PyErr).

Definition rules_by_operation (rules : list FaultRule) : gmap string FaultRule :=
  foldl (λ d r, <[fr_operation r := r]> d) ∅ rules.
Definition FaultInjectingRuntime_init (runtime : S) (rules : list FaultRule) : res FaultInjectingRuntime :=
  _ ← raise_if (negb (Nat.eqb (size (list_to_set (fr_operation <$> rules) : gset string)) (length rules)))
    (ValueError "only one fault rule is allowed per operation");
  Ok (mkFaulty runtime (rules_by_operation rules) ∅ []).

(** [calls(operation)]. *)
Definition calls (operation : string) (r : FaultInjectingRuntime) : Z := cget (fi_calls r) operation.
Definition before (operation : string) : M unit :=
  _ ← modify (λ r, r <| fi_calls ::= cadd operation 1 |>);
  r ← gets id;
  match fi_rules r !! operation with
  | None => mret tt
  | Some rule =>
    _ ← (if f_truthy (fr_delay_seconds rule)
         then modify (λ r, r <| fi_slept ::= λ l, l ++ [fr_delay_seconds rule] |>) else mret tt);
    if bool_decide (calls operation r ∈ fr_fail_on_calls rule)
    then raise (injected_fault operation (calls operation r) (fr_code rule)) else mret tt
  end.
(** A call of the decorated runtime. *)
Definition inner {A} (c : Eff S PyErr A) : M A := λ r,
  let '(x, s) := c (fi_runtime r) in (x, r <| fi_runtime := s |>).
Definition decorated {A} (operation : string) (c : Eff S PyErr A) : M A := _ ← before operation; inner c.

Definition faulty_load_model (model : ModelDefinition) : M unit := decorated "load_model" (rt_load_model model).
Definition faulty_unload_model (model_id : string) : M unit :=
  decorated "unload_model" (rt_unload_model model_id).
Definition faulty_warmup_model (model_id : string) : M unit :=
  decorated "warmup_model" (rt_warmup_model model_id).
Definition faulty_is_model_loaded (model_id : string) : M bool :=
  decorated "is_model_loaded" (gets (rt_is_model_loaded model_id)).
Definition faulty_generate (model_id : string) (prompts : list string) (max_new_tokens : Z) (temperature : float)
  : M (list RuntimeResult) := decorated "generate" (rt_generate model_id prompts max_new_tokens temperature).
Definition faulty_capacity : M RuntimeCapacity := decorated "capacity" rt_capacity.
(** The other two methods of the decorated runtime; the generator [stream] is run to its end, and calls
    [_before] when it starts. *)
Section others.
Context {Chunk : Type}.
Variable rt_count_prompt_tokens : string → string → Eff S PyErr Z.
Variable rt_stream : string → string → Z → float → Eff S PyErr (list Chunk).
Definition faulty_count_prompt_tokens (model_id prompt : string) : M Z :=
  decorated "count_prompt_tokens" (rt_count_prompt_tokens model_id prompt).
Definition faulty_stream (model_id prompt : string) (max_new_tokens : Z) (temperature : float) : M (list Chunk) :=
  decorated "stream" (rt_stream model_id prompt max_new_tokens temperature).
End others.

(** ** A fault exactly on the listed calls *)

(** The fault that the next call of the operation meets, if any. *)
Definition fault_of (operation : string) (r : FaultInjectingRuntime) : option PyErr :=
  match fi_rules r !! operation with
  | Some rule =>
    if bool_decide (calls operation r + 1 ∈ fr_fail_on_calls rule)
    then Some (injected_fault operation (calls operation r + 1) (fr_code rule)) else None
  | None => None
  end.
Lemma decorated_spec {A} operation (c : Eff S PyErr A) r :
  (∀ o, calls o (decorated operation c r).2 = calls o r + if bool_decide (o = operation) then 1 else 0) ∧
  fi_rules (decorated operation c r).2 = fi_rules r ∧
  match fault_of operation r with
  | Some e => (decorated operation c r).1 = inl e ∧ fi_runtime (decorated operation c r).2 = fi_runtime r
  | None => (decorated operation c r).1 = (c (fi_runtime r)).1 ∧
            fi_runtime (decorated operation c r).2 = (c (fi_runtime r)).2
  end.
Proof.
  assert (∀ o, cget (cadd operation 1 (fi_calls r)) o = calls o r + if bool_decide (o = operation) then 1 else 0) as Hc.
  { intros o. unfold calls. rewrite cget_cadd. case_decide as Hd; case_bool_decide; congruence || lia. }
  assert (cget (cadd operation 1 (fi_calls r)) operation = calls operation r + 1) as Ho
    by (rewrite Hc, bool_decide_eq_true_2 by done; lia).
  destruct r as [s rules counts slept]. unfold calls in *. cbn in Hc, Ho.
  unfold decorated, before, inner, mbind, M_bind, gets, modify, fault_of, calls. cbn.
  destruct (rules !! operation) as [rule|]; cbn.
  - rewrite <- Ho. destruct (f_truthy _); cbn; (destruct (bool_decide _); cbn; [done|]);
      destruct (c s) as [x s']; done.
  - by destruct (c s) as [x s'].
Qed.
End runtime.
