(* ===== verification/WorkerFactory.v ===== *)
(** [apps/worker/factory.py] and [apps/worker/main.py]: the worker process that serves the simulated runtime
    over HTTP, built from its environment variables. *)
From S2P Require Import Prelude PyContainers PyFloat Domain FairQueue Json Effects Registry Worker WorkerApi SimulatedGpu.
From Stdlib Require String.

#[local] Open Scope string_scope.
#[local] Open Scope list_scope.
#[local] Open Scope Z_scope.
#[local] Set Default Proof Using "Type".
#[local] Set Proof Using Clear Unused.

Definition local_simulated_model : res ModelDefinition :=
  ModelDefinition_post_init
    (mkModel "local-simulated-model" "deterministic-v1" SIMULATED (256 * 1024 ^ 2) ["float16"] "float16"
       1024 1024 false true (f_of_Z 5) (f_of_Z 300)).

(** The request objects of the process are none yet, and its clock was not read. *)
Definition create_local_simulated_worker (worker_id : string) (tokens_per_second : float)
  : res (Site SimulatedGpuRuntime * ModelDefinition) :=
  model ← local_simulated_model;
  registry ← InMemoryWorkerRegistry_init (f_of_Z 30) None;
  config ← SimulatedGpuConfig_post_init
    (mkSimConfig (4 * 1024 ^ 3) tokens_per_second (f_of_Z 0) (f_ratio 3 4) None 0 (worker_id +:+ "-simulated-gpu"));
  runtime ← SimulatedGpuRuntime_init [model] (Some config);
  worker ← ManagedWorker_init worker_id 128 1 8 1024 0;
  Ok (mkSite ∅ registry runtime worker 0, model).

Section main.
(** [float(text)]. *)
Variable float_of_str : string → res float.

Definition environment_value (environ : gmap string string) (name fallback : string) : string :=
  default fallback (environ !! name).
Definition create_app (environ : gmap string string) : res (Server SimulatedGpuRuntime) :=
  let worker_id := environment_value environ "WORKER_ID" "local-sim-worker" in
  let auth_token := environment_value environ "WORKER_AUTH_TOKEN" "" in
  _ ← raise_if (str_empty auth_token) (RuntimeError "WORKER_AUTH_TOKEN is required");
  tokens_per_second ←
    match float_of_str (environment_value environ "SIMULATED_TOKENS_PER_SECOND" "10000") with
    | Err (ValueError _) => Err (RuntimeError "SIMULATED_TOKENS_PER_SECOND must be numeric")
    | r => r
    end;
  '(worker, model) ← create_local_simulated_worker worker_id tokens_per_second;
  create_worker_http_app worker [model] auth_token.

(** With a worker identifier, a token and a numeric throughput that is positive the process starts: the worker
    is not registered yet, holds no request and no model, and every model of the catalogue is known to its
    runtime, fits its memory and its batch budget. *)
Lemma worker_process_builds environ tokens_per_second :
  environment_value environ "WORKER_AUTH_TOKEN" "" ≠ "" →
  environment_value environ "WORKER_ID" "local-sim-worker" ≠ "" →
  float_of_str (environment_value environ "SIMULATED_TOKENS_PER_SECOND" "10000") = Ok tokens_per_second →
  f_leb tokens_per_second f_zero = false →
  ∃ s, create_app environ = Ok s ∧ sv_auth_token s = environment_value environ "WORKER_AUTH_TOKEN" "" ∧
    let w := sv_worker s in
    mw_worker_id (si_worker w) = environment_value environ "WORKER_ID" "local-sim-worker" ∧
    mw_health (si_worker w) = REGISTERING ∧ mw_queue (si_worker w) = [] ∧ sg_loaded (si_runtime w) = ∅ ∧
    ∀ i m, sv_catalog s !! i = Some m →
      sg_models (si_runtime w) !! i = Some m ∧
      m_estimated_memory_bytes m <= sc_total_memory_bytes (sg_config (si_runtime w)) ∧
      m_max_batch_tokens m <= mw_max_batch_tokens (si_worker w).
Proof.
  intros Ht Hi Hf Hp. unfold create_app. rewrite Hf. apply (bool_decide_eq_false_2 _) in Ht, Hi.
  unfold str_empty. rewrite Ht. cbn [raise_if mbind res_bind].
  assert (∃ registry, InMemoryWorkerRegistry_init (f_of_Z 30) None = Ok registry) as [registry Er] by by eexists.
  unfold create_local_simulated_worker. rewrite Er. unfold SimulatedGpuConfig_post_init, ManagedWorker_init, str_empty.
  cbn [sc_tokens_per_second]. rewrite Hp, Hi. unfold create_worker_http_app, str_empty. rewrite Ht.
  eexists. split; [reflexivity|]. cbn -[f_of_Z f_ratio]. split_and!; try done.
  intros i m [<- <-]%lookup_singleton_Some. split_and!; [apply lookup_insert_eq|cbn; lia..].
Qed.
End main.
