(* ===== verification/Distributed.v ===== *)
(** [runtime/distributed/config.py] and [runtime/distributed/context.py]: how a tensor is divided among the
    processes of a group, and the wrapper that joins, uses and leaves a process group of
    [torch.distributed]. The group is a global of the process, which other code may have created. *)
From S2P Require Import Prelude PyFloat Effects.
From Stdlib Require String.

#[local] Open Scope string_scope.
#[local] Open Scope list_scope.
#[local] Open Scope Z_scope.

(** ** [config.py] *)

Inductive DistributedBackend := NCCL | GLOO.
#[export] Instance DistributedBackend_eq_dec : EqDecision DistributedBackend.
Proof. solve_decision. Defined.
Definition DistributedBackend_value (b : DistributedBackend) : string :=
  match b with NCCL => "nccl" | GLOO => "gloo" end.
Definition DistributedBackend_of (s : string) : res DistributedBackend :=
  if String.eqb s "nccl" then Ok NCCL
  else if String.eqb s "gloo" then Ok GLOO
  else Err (ValueError (s +:+ " is not a valid DistributedBackend")).

Record DistributedConfig := mkDistributed {
  di_world_size : Z;
  di_rank : Z;
  di_local_rank : Z;
  di_backend : DistributedBackend;
  di_init_method : string;
  di_timeout_seconds : float
}.
Definition DistributedConfig_post_init (c : DistributedConfig) : res DistributedConfig :=
  _ ← raise_if (di_world_size c <=? 0) (ValueError "distributed world size must be positive");
  _ ← raise_if (negb ((0 <=? di_rank c) && (di_rank c <? di_world_size c)))
        (ValueError "distributed rank must be within world size");
  _ ← raise_if (di_local_rank c <? 0) (ValueError "distributed local rank must be non-negative");
  _ ← raise_if (String.eqb (di_init_method c) "") (ValueError "distributed init method is required");
  _ ← raise_if (f_leb (di_timeout_seconds c) f_zero) (ValueError "distributed timeout must be positive");
  Ok c.
Definition di_enabled (c : DistributedConfig) : bool := 1 <? di_world_size c.

Section environment.
(** [int(text)] and [float(text)]. *)
Variable int_of_str : string → res Z.
Variable float_of_str : string → res float.
(** [os.getenv(name, fallback)]. *)
Definition getenv (environ : gmap string string) (name fallback : string) : string :=
  default fallback (environ !! name).
Definition from_environment (environ : gmap string string) : res DistributedConfig :=
  world_size ← int_of_str (getenv environ "WORLD_SIZE" "1");
  rank ← int_of_str (getenv environ "RANK" "0");
  local_rank ← int_of_str (getenv environ "LOCAL_RANK" "0");
  backend ← DistributedBackend_of (getenv environ "DISTRIBUTED_BACKEND" "nccl");
  let init_method := getenv environ "DISTRIBUTED_INIT_METHOD" "env://" in
  timeout_seconds ← float_of_str (getenv environ "DISTRIBUTED_TIMEOUT_SECONDS" "60");
  DistributedConfig_post_init (mkDistributed world_size rank local_rank backend init_method timeout_seconds).
End environment.

Record TensorShard := mkShard { sh_rank : Z; sh_world_size : Z; sh_start : Z; sh_end : Z }.
Definition sh_size (s : TensorShard) : Z := sh_end s - sh_start s.
Definition balanced_shard (total_size rank world_size : Z) : res TensorShard :=
  _ ← raise_if ((total_size <=? 0) || (world_size <=? 0) || negb ((0 <=? rank) && (rank <? world_size)))
        (ValueError "tensor shard dimensions are invalid");
  let base := total_size / world_size in
  let remainder := total_size mod world_size in
  let start := rank * base + Z.min rank remainder in
  let size := base + (if rank <? remainder then 1 else 0) in
  Ok (mkShard rank world_size start (start + size)).

(** ** [context.py] *)

Record DistributedStatus := mkStatus {
  st_enabled : bool;
  st_initialized : bool;
  st_owns_process_group : bool;
  st_backend : string;
  st_world_size : Z;
  st_rank : Z;
  st_local_rank : Z
}.
(** The process group of this process. *)
Record ProcessGroup := mkGroup { pg_world_size : Z; pg_rank : Z; pg_backend : string }.
(** What [torch] offers here. *)
Record TorchBuild := mkBuild {
  tb_distributed_available : bool;
  tb_cuda_available : bool;
  tb_nccl_available : bool;
  tb_device_count : Z
}.
(** A collective operation that all processes of the group take part in. *)
Inductive Collective := AllReduceSum | Broadcast (src : Z) | Barrier | AllGather.

(** [dc_group] and [dc_device] are globals of the process; [dc_attempts] numbers the calls of the library
    that may fail. [_torch] and [_distributed] are modules or [None], together. *)
Record DistributedContext := mkContext {
  dc_config : DistributedConfig;
  dc_loaded : bool;
  dc_initialized : bool;
  dc_owns_process_group : bool;
  dc_group : option ProcessGroup;
  dc_device : option Z;
  dc_attempts : nat
}.
#[export] Instance eta_DistributedContext : Eta DistributedContext := λ c,
  mkContext (dc_config c) (dc_loaded c) (dc_initialized c) (dc_owns_process_group c) (dc_group c) (dc_device c)
    (dc_attempts c).
Definition DistributedContext_init (config : DistributedConfig) (group : option ProcessGroup) : DistributedContext :=
  mkContext config false false false group None 0.

Section context.
Variable build : TorchBuild.
(** The failure, if any, of the [n]-th call that talks to the other processes. *)
Variable network : nat → option PyErr.
(** What a collective makes of a value at the [n]-th call. *)
Context {A : Type} (reduced : nat → Collective → A → A) (gathered : nat → A → list A).
#[local] Abbreviation M := (Eff DistributedContext PyErr).

Definition check (b : bool) (message : string) : M unit := if b then raise (RuntimeError message) else mret tt.
Definition status (c : DistributedContext) : DistributedStatus :=
  mkStatus (di_enabled (dc_config c)) (dc_initialized c) (dc_owns_process_group c)
    (DistributedBackend_value (di_backend (dc_config c))) (di_world_size (dc_config c)) (di_rank (dc_config c))
    (di_local_rank (dc_config c)).
(** A call of the library; the number it has. *)
Definition attempt_call : M nat :=
  n ← gets dc_attempts;
  _ ← modify (λ c, c <| dc_attempts ::= Datatypes.S |>);
  match network n with Some e => raise e | None => mret n end.

(** The device of this process, for the NCCL backend. *)
Definition use_device (config : DistributedConfig) : M unit :=
  match di_backend config with
  | NCCL =>
    _ ← check (negb (tb_cuda_available build)) "NCCL requires CUDA; CPU fallback is forbidden";
    _ ← check (negb (tb_nccl_available build)) "this PyTorch build does not provide NCCL";
    _ ← check (tb_device_count build <=? di_local_rank config) "LOCAL_RANK does not identify an available CUDA device";
    modify (λ c, c <| dc_device := Some (di_local_rank config) |>)
  | GLOO => mret tt
  end.
Definition group_of (config : DistributedConfig) : ProcessGroup :=
  mkGroup (di_world_size config) (di_rank config) (DistributedBackend_value (di_backend config)).
Definition group_matches (config : DistributedConfig) (g : ProcessGroup) : bool :=
  (pg_world_size g =? di_world_size config) && (pg_rank g =? di_rank config)
  && String.eqb (pg_backend g) (DistributedBackend_value (di_backend config)).
Definition join_group (config : DistributedConfig) : M unit :=
  group ← gets dc_group;
  match group with
  | Some g => check (negb (group_matches config g)) "existing process group does not match configuration"
  | None =>
    _ ← attempt_call;
    modify (λ c, c <| dc_group := Some (group_of config) |> <| dc_owns_process_group := true |>)
  end.
Definition initialize : M DistributedStatus :=
  c ← gets id;
  if dc_initialized c then mret (status c)
  else if negb (di_enabled (dc_config c)) then
    _ ← modify (λ c, c <| dc_initialized := true |>); gets status
  else
    _ ← check (negb (tb_distributed_available build)) "torch.distributed is unavailable";
    _ ← use_device (dc_config c);
    _ ← join_group (dc_config c);
    _ ← modify (λ c, c <| dc_loaded := true |> <| dc_initialized := true |>);
    gets status.

Definition require_initialized : M unit :=
  c ← gets id; check (negb (dc_initialized c)) "distributed context is not initialized".
(** [assert distributed is not None]. *)
Definition require_module : M unit :=
  c ← gets id; if dc_loaded c then mret tt else raise (AssertionError "").
Definition all_reduce_sum (tensor : A) : M A :=
  _ ← require_initialized;
  c ← gets id;
  if negb (di_enabled (dc_config c)) then mret tensor
  else _ ← require_module; n ← attempt_call; mret (reduced n AllReduceSum tensor).
Definition broadcast (tensor : A) (source_rank : Z) : M A :=
  _ ← require_initialized;
  c ← gets id;
  if negb ((0 <=? source_rank) && (source_rank <? di_world_size (dc_config c)))
  then raise (ValueError "broadcast source rank is outside the process group")
  else if di_enabled (dc_config c)
  then _ ← require_module; n ← attempt_call; mret (reduced n (Broadcast source_rank) tensor)
  else mret tensor.
Definition barrier : M unit :=
  _ ← require_initialized;
  c ← gets id;
  if di_enabled (dc_config c) then _ ← require_module; _ ← attempt_call; mret tt else mret tt.
Definition all_gather_objects (value : A) : M (list A) :=
  _ ← require_initialized;
  c ← gets id;
  if negb (di_enabled (dc_config c)) then mret [value]
  else _ ← require_module; n ← attempt_call; mret (gathered n value).
Definition shutdown : M unit :=
  c ← gets id;
  _ ← (if dc_owns_process_group c && dc_loaded c
       then _ ← attempt_call; modify (λ c, c <| dc_group := None |>) else mret tt);
  modify (λ c, c <| dc_initialized := false |> <| dc_owns_process_group := false |> <| dc_loaded := false |>).
End context.

(** ** The shards of a tensor *)

Section shards.
Variables total_size world_size : Z.
Hypothesis Htotal : 0 < total_size.
Hypothesis Hworld : 0 < world_size.

(** Where the shard of a rank starts; the shard of rank [world_size] would start at the end. *)
Definition shard_start (rank : Z) : Z :=
  rank * (total_size / world_size) + Z.min rank (total_size mod world_size).

Lemma shard_start_first : shard_start 0 = 0.
Proof using Hworld. unfold shard_start. pose proof (Z.mod_pos_bound total_size world_size Hworld). lia. Qed.
Lemma shard_start_last : shard_start world_size = total_size.
Proof using Hworld.
  unfold shard_start. pose proof (Z.mod_pos_bound total_size world_size Hworld).
  pose proof (Z.div_mod total_size world_size). lia.
Qed.
Lemma shard_step rank :
  shard_start (rank + 1) - shard_start rank
  = total_size / world_size + (if rank <? total_size mod world_size then 1 else 0).
Proof using. unfold shard_start. destruct (Z.ltb_spec rank (total_size mod world_size)); lia. Qed.
Lemma base_nonneg : 0 <= total_size / world_size.
Proof using Htotal Hworld. apply Z.div_pos; lia. Qed.
Lemma shard_start_mono r r' : r <= r' → shard_start r <= shard_start r'.
Proof using Htotal Hworld. intros Hr. unfold shard_start. pose proof base_nonneg. nia. Qed.
Lemma balanced_shard_eq rank :
  0 <= rank < world_size →
  balanced_shard total_size rank world_size
  = Ok (mkShard rank world_size (shard_start rank) (shard_start (rank + 1))).
Proof using Htotal Hworld.
  intros Hr. unfold balanced_shard.
  replace ((total_size <=? 0) || (world_size <=? 0) || negb ((0 <=? rank) && (rank <? world_size))) with false by lia.
  cbn. pose proof (shard_step rank) as Hs. unfold shard_start in *. do 2 f_equal. lia.
Qed.
(** Some rank's shard holds the index. *)
Lemma shard_found (n : nat) i :
  0 <= i < shard_start (Z.of_nat n) →
  ∃ rank, 0 <= rank < Z.of_nat n ∧ shard_start rank <= i < shard_start (rank + 1).
Proof using Hworld.
  induction n as [|n IH]; intros Hi; [change (Z.of_nat 0) with 0 in Hi; rewrite shard_start_first in Hi; lia|].
  replace (Z.of_nat (S n)) with (Z.of_nat n + 1) in Hi by lia.
  destruct (Z.lt_ge_cases i (shard_start (Z.of_nat n))) as [Hlt|Hge].
  - destruct IH as (r & ? & ?); [lia|]. exists r. lia.
  - exists (Z.of_nat n). lia.
Qed.
End shards.

(** The shards of the ranks divide a tensor: each index below [total_size] lies in the shard of exactly one
    rank, the shards follow each other from 0 to [total_size], and the sizes of two of them differ by at
    most one, the larger ones first. *)
Lemma balanced_shards_partition total_size world_size :
  0 < total_size → 0 < world_size →
  ∃ shard : Z → TensorShard,
    (∀ rank, 0 <= rank < world_size → balanced_shard total_size rank world_size = Ok (shard rank)) ∧
    (∀ i, 0 <= i < total_size → exists ! rank,
       0 <= rank < world_size ∧ sh_start (shard rank) <= i < sh_end (shard rank)) ∧
    sh_start (shard 0) = 0 ∧ sh_end (shard (world_size - 1)) = total_size ∧
    (∀ rank, sh_start (shard (rank + 1)) = sh_end (shard rank)) ∧
    (∀ r r', r <= r' → sh_size (shard r') <= sh_size (shard r) <= sh_size (shard r') + 1).
Proof.
  intros Ht Hw.
  exists (λ rank, mkShard rank world_size (shard_start total_size world_size rank)
                    (shard_start total_size world_size (rank + 1))).
  split_and!; cbn.
  - intros. by apply balanced_shard_eq.
  - intros i Hi. destruct (shard_found total_size world_size Hw (Z.to_nat world_size) i) as (r & Hr & Hin).
    { rewrite Z2Nat.id, shard_start_last by lia. lia. }
    exists r. split; [lia|]. intros r' [Hr' Hin'].
    destruct (Z.lt_trichotomy r r') as [Hlt|[->|Hlt]]; [|done|].
    + pose proof (shard_start_mono total_size world_size Ht Hw (r + 1) r'). lia.
    + pose proof (shard_start_mono total_size world_size Ht Hw (r' + 1) r). lia.
  - by apply shard_start_first.
  - rewrite Z.sub_add. by apply shard_start_last.
  - done.
  - intros r r' Hr. unfold sh_size. cbn. rewrite !shard_step.
    destruct (Z.ltb_spec r (total_size mod world_size)), (Z.ltb_spec r' (total_size mod world_size)); lia.
Qed.
Lemma balanced_shards_partition_witness :
  0 < 10 ∧ (sh_size <$> (match balanced_shard 10 1 4 with Ok s => Some s | Err _ => None end)) = Some 3 ∧
  ∃ shard : Z → TensorShard,
    (∀ rank, 0 <= rank < 4 → balanced_shard 10 rank 4 = Ok (shard rank)) ∧
    (∀ i, 0 <= i < 10 → exists ! rank, 0 <= rank < 4 ∧ sh_start (shard rank) <= i < sh_end (shard rank)) ∧
    sh_start (shard 0) = 0 ∧ sh_end (shard (4 - 1)) = 10 ∧
    (∀ rank, sh_start (shard (rank + 1)) = sh_end (shard rank)) ∧
    (∀ r r', r <= r' → sh_size (shard r') <= sh_size (shard r) <= sh_size (shard r') + 1).
Proof. split; [lia|]. split; [reflexivity|]. apply (balanced_shards_partition 10 4); lia. Defined.

(** ** The life of a context *)

Section lifecycle.
Variable build : TorchBuild.
Variable network : nat → option PyErr.
Context {A : Type} (reduced : nat → Collective → A → A) (gathered : nat → A → list A).

Inductive ContextCall :=
| CallInitialize
| CallAllReduce (tensor : A)
| CallBroadcast (tensor : A) (source_rank : Z)
| CallBarrier
| CallAllGather (value : A)
| CallShutdown.
(** The exception a call ends with, if any, and the context after it. *)
Definition outcome {B} (r : (PyErr + B) * DistributedContext) : option PyErr * DistributedContext :=
  (match r.1 with inl e => Some e | inr _ => None end, r.2).
Definition run_context_call (call : ContextCall) (c : DistributedContext) : option PyErr * DistributedContext :=
  match call with
  | CallInitialize => outcome (initialize build network c)
  | CallAllReduce x => outcome (all_reduce_sum network reduced x c)
  | CallBroadcast x r => outcome (broadcast network reduced x r c)
  | CallBarrier => outcome (barrier network c)
  | CallAllGather x => outcome (all_gather_objects network gathered x c)
  | CallShutdown => outcome (shutdown network c)
  end.
(** The outcomes of a sequence of calls, in order, and the context after them. *)
Fixpoint run_context (calls : list ContextCall) (c : DistributedContext) : list (option PyErr) * DistributedContext :=
  match calls with
  | [] => ([], c)
  | call :: calls =>
    let '(o, c) := run_context_call call c in
    let '(os, c) := run_context calls c in (o :: os, c)
  end.

(** [before] is the process group that other code created before the context was. *)
Record context_ok (config : DistributedConfig) (before : option ProcessGroup) (c : DistributedContext) : Prop := {
  co_config : dc_config c = config;
  co_loaded : dc_loaded c = dc_initialized c && di_enabled config;
  co_joined : dc_loaded c = true → ∃ g, dc_group c = Some g ∧ group_matches config g = true;
  co_owned : dc_owns_process_group c = true →
    before = None ∧ dc_group c = Some (group_of config) ∧ dc_loaded c = true;
  co_foreign : dc_owns_process_group c = false → dc_group c = before
}.
Definition context_idle (config : DistributedConfig) (before : option ProcessGroup) (c : DistributedContext) : Prop :=
  context_ok config before c ∧ dc_initialized c = false.

Lemma group_of_matches config : group_matches config (group_of config) = true.
Proof using. unfold group_matches, group_of. cbn. by rewrite !Z.eqb_refl, String.eqb_refl. Qed.
Lemma context_init_ok config before : context_ok config before (DistributedContext_init config before).
Proof using. by split. Qed.
Lemma idle_fields config before c :
  context_idle config before c →
  dc_config c = config ∧ dc_loaded c = false ∧ dc_owns_process_group c = false ∧ dc_group c = before.
Proof using.
  intros [[Hc Hl _ Ho Hf] Hi]. rewrite Hi in Hl. cbn in Hl.
  destruct (dc_owns_process_group c); [|by auto]. destruct (Ho eq_refl) as (_ & _ & ?). congruence.
Qed.

(** What does not look at the device or at the number of calls survives every call of the library. *)
Section blind.
Variable I : DistributedContext → Prop.
Hypothesis blind : ∀ c device attempts, I c → I (c <| dc_device := device |> <| dc_attempts := attempts |>).
#[local] Abbreviation keeps c := (preserves (X := PyErr) I c).

Lemma keeps_check b m : keeps (check b m).
Proof using. destruct b; [apply preserves_raise|apply preserves_ret]. Qed.
Lemma keeps_attempt_call : keeps (attempt_call network).
Proof using blind.
  apply preserves_bind; [apply preserves_gets|]. intros n.
  apply preserves_bind; [apply preserves_modify; intros c; by apply (blind c (dc_device c))|]. intros _.
  destruct (network n); [apply preserves_raise|apply preserves_ret].
Qed.
Lemma keeps_require : keeps require_initialized.
Proof using. apply preserves_bind; [apply preserves_gets|]. intros c. apply keeps_check. Qed.
Lemma keeps_module : keeps require_module.
Proof using.
  apply preserves_bind; [apply preserves_gets|]. intros c.
  destruct (dc_loaded c); [apply preserves_ret|apply preserves_raise].
Qed.
Lemma keeps_device cfg : keeps (use_device build cfg).
Proof using blind.
  unfold use_device. destruct (di_backend cfg); [|apply preserves_ret].
  repeat (apply preserves_bind; [apply keeps_check|intros _]).
  apply preserves_modify. intros c. by apply (blind c _ (dc_attempts c)).
Qed.
Lemma keeps_collective {B} (alone : A → B) (together : nat → A → B) x :
  keeps (c ← gets id; if negb (di_enabled (dc_config c)) then mret (alone x)
         else _ ← require_module; n ← attempt_call network; mret (together n x)).
Proof using blind.
  apply preserves_bind; [apply preserves_gets|]. intros c. case_match; [apply preserves_ret|].
  apply preserves_bind; [apply keeps_module|]. intros _.
  apply preserves_bind; [apply keeps_attempt_call|]. intros n. apply preserves_ret.
Qed.
End blind.

Section invariant.
Variables (config : DistributedConfig) (before : option ProcessGroup).
#[local] Abbreviation good := (context_ok config before).
Lemma ok_blind c device attempts : good c → good (c <| dc_device := device |> <| dc_attempts := attempts |>).
Proof using. by intros [H1 H2 H3 H4 H5]; split. Qed.
Lemma idle_blind c device attempts :
  context_idle config before c →
  context_idle config before (c <| dc_device := device |> <| dc_attempts := attempts |>).
Proof using. intros [H1 H2]. split; [by apply ok_blind|done]. Qed.

Lemma join_group_ok :
  di_enabled config = true →
  hoare (X := PyErr) (context_idle config before) (join_group network config)
    (λ _ c, good (c <| dc_loaded := true |> <| dc_initialized := true |>)) (λ _, good).
Proof using.
  intros Hen c Hidle. pose proof Hidle as (Hc & Hl & Ho & Hg)%idle_fields.
  unfold join_group, mbind, M_bind, gets. destruct (dc_group c) as [g|] eqn:Eg.
  - unfold check. destruct (group_matches config g) eqn:Em; cbn; [|apply Hidle].
    split; cbn; [done|by rewrite Hen|eauto|by rewrite Ho|by rewrite Eg].
  - unfold attempt_call, modify, gets, mbind, M_bind, raise. cbn.
    destruct (network (dc_attempts c)) eqn:En; cbn.
    + by apply (ok_blind c (dc_device c)), Hidle.
    + split; cbn; [done|by rewrite Hen| |by rewrite <- Hg|done]. intros _. eexists. split; [done|]. apply group_of_matches.
Qed.
Lemma idle_step {B} (m : Eff DistributedContext PyErr B) :
  preserves (context_idle config before) m →
  hoare (context_idle config before) m (λ _, context_idle config before) (λ _, good).
Proof using. intros Hm. eapply hoare_conseq; [exact Hm|done|done|by intros _ w []]. Qed.
Lemma initialize_ok : preserves (X := PyErr) good (initialize build network).
Proof using.
  intros c Hok. unfold initialize, mbind, M_bind, gets, id. cbn [fst snd].
  destruct (dc_initialized c) eqn:Ei; [done|].
  pose proof (conj Hok Ei : context_idle config before c) as Hidle.
  pose proof Hidle as (Hc & Hl & Ho & Hg)%idle_fields. rewrite Hc.
  destruct (di_enabled config) eqn:Hen; cbn [negb].
  - clear Hok Ei Hl Ho Hg Hc. revert c Hidle.
    cut (hoare (X := PyErr) (context_idle config before)
      (_ ← check (negb (tb_distributed_available build)) "torch.distributed is unavailable";
       _ ← use_device build config; _ ← join_group network config;
       _ ← modify (λ c, c <| dc_loaded := true |> <| dc_initialized := true |>); gets status) (λ _, good) (λ _, good)).
    { intros H c Hidle. exact (H c Hidle). }
    eapply hoare_bind; [apply idle_step, keeps_check|intros ?].
    eapply hoare_bind; [apply idle_step, (keeps_device _ idle_blind)|intros ?].
    eapply hoare_bind; [by apply join_group_ok|]. intros [].
    apply (hoare_bind _ _ _ (λ _, good)); [by apply hoare_modify|]. intros ? w Hw. exact Hw.
  - cbn. split; cbn; rewrite ?Hl, ?Ho, ?Hc, ?Hen; done.
Qed.
Lemma shutdown_ok : preserves (X := PyErr) good (shutdown network).
Proof using.
  intros c Hok. pose proof Hok as [Hc Hl Hj Ho Hf].
  unfold shutdown, mbind, M_bind, gets, id. cbn [fst snd].
  destruct (dc_owns_process_group c) eqn:Eo; cbn.
  - destruct (Ho eq_refl) as (Hb & Eg & El). rewrite El.
    unfold attempt_call, modify, gets, mbind, M_bind, raise. cbn.
    destruct (network (dc_attempts c)) eqn:En; cbn; [by apply (ok_blind c (dc_device c))|by split].
  - specialize (Hf eq_refl). by split.
Qed.
Lemma run_context_call_ok call c : good c → good (run_context_call call c).2.
Proof using.
  pose proof ok_blind as Hb.
  assert (∀ B (m : Eff DistributedContext PyErr B), preserves good m → good c → good (m c).2) as Hend.
  { intros B m Hm Hw. specialize (Hm c Hw). by destruct (m c) as [[|] ]. }
  destruct call; cbn -[initialize shutdown all_reduce_sum broadcast barrier all_gather_objects]; apply Hend.
  - apply initialize_ok.
  - apply preserves_bind; [apply keeps_require|]. intros _. exact (keeps_collective _ Hb (λ y, y) (λ n, reduced n AllReduceSum) tensor).
  - apply preserves_bind; [apply keeps_require|]. intros _. apply preserves_bind; [apply preserves_gets|]. intros c'.
    case_match; [apply preserves_raise|]. case_match; [|apply preserves_ret].
    apply preserves_bind; [apply keeps_module|]. intros _.
    apply preserves_bind; [by apply keeps_attempt_call|]. intros n. apply preserves_ret.
  - apply preserves_bind; [apply keeps_require|]. intros _. apply preserves_bind; [apply preserves_gets|]. intros c'.
    case_match; [|apply preserves_ret].
    apply preserves_bind; [apply keeps_module|]. intros _.
    apply preserves_bind; [by apply keeps_attempt_call|]. intros n. apply preserves_ret.
  - apply preserves_bind; [apply keeps_require|]. intros _. exact (keeps_collective _ Hb (λ y, [y]) gathered value).
  - apply shutdown_ok.
Qed.

(** A collective runs only on a context that joined a group: its [assert] does not fail. *)
Definition asserts {B} (r : (PyErr + B) * DistributedContext) : Prop :=
  ∀ m, r.1 ≠ inl (AssertionError m).
Lemma asserts_bind {B C} (m : Eff DistributedContext PyErr B) (k : B → Eff DistributedContext PyErr C) c :
  asserts (m c) → (∀ a c, asserts (k a c)) → asserts ((m ≫= k) c).
Proof using.
  unfold asserts, mbind, M_bind. intros Hm Hk. destruct (m c) as [[e|a] c']; [|apply Hk].
  intros s [= ->]. by eapply Hm.
Qed.
Lemma asserts_ret {B} (a : B) c : asserts (mret (M := Eff DistributedContext PyErr) a c).
Proof using. done. Qed.
Lemma asserts_get {B} (k : DistributedContext → Eff DistributedContext PyErr B) c :
  asserts (k c c) → asserts ((gets id ≫= k) c).
Proof using. done. Qed.
Lemma asserts_outcome {B} (r : (PyErr + B) * DistributedContext) m :
  asserts r → (outcome r).1 ≠ Some (AssertionError m).
Proof using. destruct r as [[e|a] c']; [|done]. intros Hr [= ->]. by eapply Hr. Qed.
Lemma asserts_check b m c : asserts (check b m c).
Proof using. by destruct b. Qed.
Section calls.
Hypothesis Hnetwork : ∀ n m, network n ≠ Some (AssertionError m).
Lemma asserts_attempt c : asserts (attempt_call network c).
Proof using Hnetwork.
  unfold attempt_call, mbind, M_bind, gets, modify. destruct (network (dc_attempts c)) eqn:E; [|done].
  intros m [= ->]. by eapply Hnetwork.
Qed.
Lemma asserts_device cfg c : asserts (use_device build cfg c).
Proof using. unfold use_device. destruct (di_backend cfg); [|done]. by do 3 (apply asserts_bind; [apply asserts_check|intros _ ?]). Qed.
Lemma asserts_initialize c : asserts (initialize build network c).
Proof using Hnetwork.
  unfold initialize. apply asserts_bind; [done|]. intros c1 c2. destruct (dc_initialized c1); [done|].
  destruct (negb _); [done|]. apply asserts_bind; [apply asserts_check|]. intros _ ?.
  apply asserts_bind; [apply asserts_device|]. intros _ ?. apply asserts_bind; [|done].
  apply asserts_bind; [done|]. intros [g|] ?; [apply asserts_check|]. apply asserts_bind; [apply asserts_attempt|done].
Qed.
Lemma asserts_shutdown c : asserts (shutdown network c).
Proof using Hnetwork.
  apply asserts_bind; [done|]. intros c1 c2. apply asserts_bind; [|done].
  destruct (_ && _); [|done]. apply asserts_bind; [apply asserts_attempt|done].
Qed.
(** What follows [_require_initialized] starts from a good context that is initialised. *)
Lemma asserts_require {B} (k : unit → Eff DistributedContext PyErr B) c :
  good c → (dc_initialized c = true → asserts (k tt c)) → asserts ((require_initialized ≫= k) c).
Proof using.
  intros Hok Hk. unfold require_initialized, check, mbind, M_bind, gets, id.
  destruct (dc_initialized c); [by apply Hk|done].
Qed.
Lemma asserts_together {B} (k : nat → Eff DistributedContext PyErr B) c :
  good c → dc_initialized c = true → di_enabled (dc_config c) = true → (∀ n c, asserts (k n c)) →
  asserts ((_ ← require_module; n ← attempt_call network; k n) c).
Proof using Hnetwork.
  intros [Hc Hl _ _ _] Hi He Hk.
  assert (require_module c = (inr tt, c)) as E.
  { unfold require_module, mbind, M_bind, gets, id. by rewrite Hl, Hi, <- Hc, He. }
  run_step E. apply asserts_bind; [apply asserts_attempt|done].
Qed.
Lemma run_context_call_assert call c m : good c → (run_context_call call c).1 ≠ Some (AssertionError m).
Proof using Hnetwork.
  intros Hok. destruct call; cbn [run_context_call]; apply asserts_outcome;
    [apply asserts_initialize| | | | |apply asserts_shutdown]; (apply asserts_require; [done|]); intros Hi;
    apply asserts_get; [| |destruct (di_enabled (dc_config c)) eqn:He; [by apply asserts_together|apply asserts_ret]|].
  - destruct (di_enabled (dc_config c)) eqn:He; [by apply asserts_together|apply asserts_ret].
  - destruct (negb _); [done|]. destruct (di_enabled (dc_config c)) eqn:He; [by apply asserts_together|apply asserts_ret].
  - destruct (di_enabled (dc_config c)) eqn:He; [by apply asserts_together|apply asserts_ret].
Qed.
End calls.
Lemma run_context_ok calls c : good c → good (run_context calls c).2.
Proof using.
  revert c. induction calls as [|call calls IH]; intros c Hok; [done|]. cbn.
  pose proof (run_context_call_ok call c Hok) as H1. destruct (run_context_call call c) as [o c1]. cbn in H1.
  specialize (IH c1 H1). by destruct (run_context calls c1).
Qed.
Lemma run_context_assert calls c m :
  (∀ n m, network n ≠ Some (AssertionError m)) → good c → Some (AssertionError m) ∉ (run_context calls c).1.
Proof using.
  intros Hn. revert c. induction calls as [|call calls IH]; intros c Hok; [apply not_elem_of_nil|]. cbn.
  pose proof (run_context_call_ok call c Hok) as H1. pose proof (run_context_call_assert Hn call c m Hok) as Ha.
  destruct (run_context_call call c) as [o c1]. specialize (IH c1 H1).
  destruct (run_context calls c1). cbn in *. apply not_elem_of_cons. by split.
Qed.
End invariant.

(** C27: Whatever the calls on a context and their failures: a process group that other code created is never
    destroyed or taken over; a context that reports itself initialised belongs to a group that matches its
    configuration (or needs none, for a single process); one that is not holds no group of its own; and no
    collective finds its module missing. *)
Theorem context_lifecycle config before calls :
  (∀ n m, network n ≠ Some (AssertionError m)) →
  let '(os, c) := run_context calls (DistributedContext_init config before) in
  (∀ g, before = Some g → dc_group c = Some g ∧ dc_owns_process_group c = false) ∧
  (dc_initialized c = true → di_enabled config = true → ∃ g, dc_group c = Some g ∧ group_matches config g = true) ∧
  (dc_initialized c = false → dc_group c = before ∧ dc_owns_process_group c = false) ∧
  (∀ m, Some (AssertionError m) ∉ os).
Proof using.
  intros Hn. pose proof (context_init_ok config before) as H0.
  pose proof (run_context_ok config before calls _ H0) as Hok.
  pose proof (λ m, run_context_assert config before calls _ m Hn H0) as Ha.
  destruct (run_context calls _) as [os c]. cbn in Hok, Ha. split_and!; [| | |done].
  - intros g ->. destruct Hok as [_ _ _ Ho Hf]. destruct (dc_owns_process_group c); [|by auto].
    by destruct (Ho eq_refl).
  - intros Hi He. destruct Hok as [_ Hl Hj _ _]. apply Hj. by rewrite Hl, Hi, He.
  - intros Hi. destruct (idle_fields config before c) as (_ & _ & ? & ?); [by split|]. done.
Qed.
End lifecycle.

(** Two processes over gloo: the second broadcast fails, and the context leaves the group at the end. *)
Definition sample_build : TorchBuild := mkBuild true false false 0.
Definition sample_network (n : nat) : option PyErr :=
  if Nat.eqb n 2 then Some (RuntimeError "connection reset") else None.
Definition sample_config : DistributedConfig := mkDistributed 2 1 0 GLOO "env://" (f_of_Z 60).
Definition sample_calls : list (ContextCall (A := Z)) :=
  [CallBarrier; CallInitialize; CallBroadcast 5 0; CallBroadcast 6 0; CallShutdown].
Lemma context_lifecycle_witness :
  run_context sample_build sample_network (λ _ _ x, x) (λ _ x, [x]) sample_calls (DistributedContext_init sample_config None)
  = ([Some (RuntimeError "distributed context is not initialized"); None; None;
      Some (RuntimeError "connection reset"); None],
     mkContext sample_config false false false None None 4) ∧
  (let '(os, c) := run_context sample_build sample_network (λ _ _ x, x) (λ _ x, [x]) sample_calls
                     (DistributedContext_init sample_config None) in
   (∀ g, None = Some g → dc_group c = Some g ∧ dc_owns_process_group c = false) ∧
   (dc_initialized c = true → di_enabled sample_config = true →
    ∃ g, dc_group c = Some g ∧ group_matches sample_config g = true) ∧
   (dc_initialized c = false → dc_group c = None ∧ dc_owns_process_group c = false) ∧
   (∀ m, Some (AssertionError m) ∉ os)).
Proof.
  split; [reflexivity|]. apply (context_lifecycle sample_build sample_network).
  intros n m. unfold sample_network. by destruct (Nat.eqb n 2).
Defined.
