(* ===== verification/GatewayPlatform.v ===== *)
(** [platform_generate] of [apps/gateway/api.py], the platform pipeline that [apps/gateway/main.py]
    constructs over the simulated GPU runtime, and the theorem that says when validated settings can be
    built into a gateway. *)
From S2P Require Import Prelude PyContainers PyFloat PyText Json Effects Domain RequestStore Admission FairQueue Registry Routing Reservations KVCache PrefixCache TokenTypes TokenEngine TokenEngineSafe Worker ControlPlane SimulatedGpu GatewayEdge GatewayConfig Gateway GatewaySafe.
From Stdlib Require String.
From stdpp Require Import pretty.

#[local] Open Scope string_scope.
#[local] Open Scope list_scope.
#[local] Open Scope Z_scope.
#[local] Set Default Proof Using "Type".
#[local] Set Proof Using Clear Unused.

(** ** The pipeline over the simulated runtime *)

Section pipeline.
Variable draw : string → Z.
Variable show_float : float → string.
#[local] Instance sim_runtime : ModelRuntime SimulatedGpuRuntime := SimRuntime draw show_float.

(** [SimulatedGpuRuntime([model], SimulatedGpuConfig(...))]: its checks pass for one simulated model. *)
Definition local_runtime (model : ModelDefinition) (throughput : float) (index : Z) : SimulatedGpuRuntime :=
  mkSim {[m_model_id model := model]}
    (mkSimConfig (4 * 1024 ^ 3) throughput (f_of_Z 0) (f_ratio 3 4) None index
       ("local-simulated-gpu-" +:+ pretty index)) ∅ 0 [].
Lemma local_runtime_init a b throughput index :
  f_leb throughput f_zero = false →
  (config ← SimulatedGpuConfig_post_init (mkSimConfig (4 * 1024 ^ 3) throughput (f_of_Z 0) (f_ratio 3 4) None index
       ("local-simulated-gpu-" +:+ pretty index));
   SimulatedGpuRuntime_init [local_model a b] (Some config))
  = Ok (local_runtime (local_model a b) throughput index).
Proof. intros Ht. unfold SimulatedGpuConfig_post_init. cbn [sc_tokens_per_second]. by rewrite Ht. Qed.

Variable clock : nat → float.
Variable hostname : string.
Context {L : Type}.
#[local] Abbreviation Pipeline := (ModelDefinition * Plane SimulatedGpuRuntime DemandAwarePlacementPolicy L)%type.

(** [set(credentials.values()) or {"default"}]. *)
Definition pipeline_tenants (credentials : list (string * string)) : gset string :=
  match credentials with [] => {["default"]} | _ => list_to_set credentials.*2 end.
Definition create_pipeline (settings : Settings) (credentials : list (string * string))
  (requests : InMemoryRequestStateStore) : res Pipeline :=
  build_local_simulated_pipeline (L := L) clock hostname local_runtime requests (pipeline_tenants credentials)
    (cf_max_queue_size settings) (cf_max_concurrent_requests settings)
    (cf_max_prompt_tokens settings + cf_max_new_tokens settings) (cf_max_total_batch_tokens settings).

(** *** It can be built *)

Lemma local_capacity_eq model throughput index :
  ∃ c, sim_capacity (local_runtime model throughput index) = (inr c, local_runtime model throughput index) ∧
    cp_total_memory_bytes c = Some (4 * 1024 ^ 3) ∧ cp_available_memory_bytes c = Some (4 * 1024 ^ 3) ∧
    cp_allocated_memory_bytes c = Some 0 ∧ cp_reserved_memory_bytes c = Some 0 ∧ cp_device_index c = Some 0 ∧
    cp_numa_node c = None.
Proof. eexists. split; [reflexivity|]. by split_and!. Qed.
Lemma build_worker_ok a b q m name throughput index st :
  0 < q → 0 < m → 0 < b → name ≠ "" →
  ∃ st', build_worker clock hostname local_runtime (local_model a b) q m b name throughput index st = Ok st'.
Proof.
  intros Hq Hm Hb Hn. destruct st as [[registry directory] n]. unfold build_worker, ManagedWorker_init.
  assert (str_empty name = false) as Hs by by apply bool_decide_eq_false.
  rewrite Hs. replace (Z.min (Z.min q m) (Z.min 8 b) <=? 0) with false by lia. cbn [orb Z.ltb raise_if].
  set (x := mkManaged name _ _ _ _ _ _ _ _ _ _ _ _ _ _ _ _ _ _ _ _ _ _ _ _ _ _).
  destruct (local_capacity_eq (local_model a b) throughput index) as (c & Hc & H1 & H2 & H3 & H4 & H5 & H6).
  assert (∃ s w, register clock hostname
    (mkSite ∅ registry (local_runtime (local_model a b) throughput index) x n) = (inr s, w)) as (s & w & E).
  { unfold register, snapshot, get_worker, update, runtime_call, monotonic, lift_res.
    unfold mbind, M_bind, gets, modify. cbn -[sim_capacity local_runtime local_model].
    rewrite (bool_decide_eq_false_2 (REGISTERING = STOPPED)) by done. cbn -[sim_capacity local_runtime local_model].
    rewrite Hc. cbn -[local_runtime local_model]. unfold WorkerState_post_init. cbn -[local_runtime local_model].
    rewrite Hs, H1, H2, H3, H4, H5, H6. cbn.
    replace (m <=? 0) with false by lia. cbn. by eexists _, _. }
  cbn -[register local_runtime local_model]. fold x. rewrite E. by eexists.
Qed.

Lemma tenant_limits_ok a b c ids :
  0 < a → 0 < b → 0 < c → Forall (λ i, i ≠ "") ids →
  ∃ tenants, mapM (tenant_limits a b c) ids = Ok tenants ∧ t_tenant_id <$> tenants = ids.
Proof.
  intros Ha Hb Hc. induction 1 as [|i ids Hi _ (tenants & E & Hids)]; [by exists []|].
  assert (str_empty i = false) as Hs by by apply bool_decide_eq_false.
  exists (mkTenant i b a (c * a) 1 :: tenants). split; [|by rewrite fmap_cons, Hids].
  assert (tenant_limits a b c i = Ok (mkTenant i b a (c * a) 1)) as Et.
  { unfold tenant_limits, TenantLimits_post_init. cbn -[str_empty Z.min Z.mul Z.leb]. rewrite Hs.
    by replace (Z.min (Z.min b a) (Z.min (c * a) 1) <=? 0) with false by nia. }
  cbn [mapM]. rewrite Et. cbn. by rewrite E.
Qed.
Lemma tenants_by_id_size (tenants : list TenantLimits) (m : gmap string TenantLimits) :
  NoDup (t_tenant_id <$> tenants) → (∀ t, t ∈ tenants → m !! t_tenant_id t = None) →
  size (foldl (λ m t, <[t_tenant_id t := t]> m) m tenants) = (size m + length tenants)%nat ∧
  (∀ i, is_Some (m !! i) ∨ i ∈ t_tenant_id <$> tenants →
     is_Some (foldl (λ m t, <[t_tenant_id t := t]> m) m tenants !! i)).
Proof.
  revert m. induction tenants as [|t tenants IH]; intros m Hnd Hm.
  - split; [simpl; lia|]. intros i [Hi|Hi]; [done|]. by apply elem_of_nil in Hi.
  - rewrite fmap_cons in Hnd. apply NoDup_cons in Hnd as [Hn Hnd]. cbn [foldl].
    destruct (IH (<[t_tenant_id t := t]> m) Hnd) as [Hs Hl].
    { intros u Hu. rewrite lookup_insert_ne; [by apply Hm; right|].
      intros E. apply Hn. rewrite E. by apply list_elem_of_fmap_2. }
    split.
    + rewrite Hs, map_size_insert_None by by (apply Hm; left). simpl. lia.
    + intros i Hi. apply Hl. rewrite fmap_cons, elem_of_cons in Hi. rewrite lookup_insert.
      destruct (decide (t_tenant_id t = i)); [by left; eexists|]. destruct Hi as [Hi|[Hi|Hi]]; [by left|congruence|by right].
Qed.
Lemma create_pipeline_ok settings credentials requests :
  settings_ok settings → Forall (λ p, p.1 ≠ "" ∧ p.2 ≠ "") credentials →
  ∃ model w, create_pipeline settings credentials requests = Ok (model, w) ∧
    ∀ t, t ∈ pipeline_tenants credentials → is_Some (ac_tenants (pl_admission w) !! t).
Proof.
  intros Hs Hc. pose proof (so_positive _ Hs) as Hp. unfold positive_fields in Hp. rewrite !Forall_cons in Hp.
  cbn in Hp. unfold create_pipeline, build_local_simulated_pipeline.
  set (context := cf_max_prompt_tokens settings + cf_max_new_tokens settings).
  set (batch := cf_max_total_batch_tokens settings). set (queue := cf_max_queue_size settings).
  set (concurrent := cf_max_concurrent_requests settings).
  assert (0 < context ∧ 0 < batch ∧ 0 < queue ∧ 0 < concurrent) as (Hcx & Hb & Hq & Hcc) by lia. clear Hp.
  assert (ModelDefinition_post_init (local_model (Z.min context batch) batch)
    = Ok (local_model (Z.min context batch) batch)) as ->.
  { unfold ModelDefinition_post_init. cbn [m_estimated_memory_bytes m_max_context_tokens m_max_batch_tokens local_model].
    replace (Z.min _ _ <=? 0) with false by lia. reflexivity. }
  cbn [mbind res_bind].
  destruct (build_worker_ok (Z.min context batch) batch queue concurrent "local-sim-worker-1" (f_of_Z 10000) 1
    (mkWorkerRegistry (f_of_Z 30) (f_div (f_of_Z 30) (f_of_Z 2)) ∅, ∅, 0%nat) Hq Hcc Hb ltac:(done)) as [st1 E1].
  destruct (build_worker_ok (Z.min context batch) batch queue concurrent "local-sim-worker-2" (f_of_Z 8000) 2
    st1 Hq Hcc Hb ltac:(done)) as [[[registry directory] n] E2].
  destruct (tenant_limits_ok queue concurrent (Z.min context batch) (sorted_by str_leb (elements (pipeline_tenants credentials))))
    as (tenants & Et & Hids); [lia..| |].
  { apply Forall_forall. intros i Hi. rewrite sorted_by_perm, elem_of_elements in Hi. unfold pipeline_tenants in Hi.
    destruct credentials as [|p ps]; [by apply elem_of_singleton in Hi as ->|].
    rewrite elem_of_list_to_set, list_elem_of_fmap in Hi. destruct Hi as (p' & -> & Hp').
    rewrite Forall_forall in Hc. by apply Hc in Hp' as [_ ?]. }
  assert (NoDup (t_tenant_id <$> tenants)) as Hnd by (rewrite Hids, sorted_by_perm; apply NoDup_elements).
  destruct (tenants_by_id_size tenants ∅ Hnd) as [Hsize Hknown]; [intros; apply lookup_empty|].
  fold (tenants_by_id tenants) in Hsize, Hknown.
  assert (TenantAdmissionController_init tenants queue
    = Ok (mkAdmission (tenants_by_id tenants) queue ∅ ∅ ∅ ∅)) as Ea.
  { unfold TenantAdmissionController_init. replace (queue <=? 0) with false by lia. cbn [raise_if mbind res_bind].
    rewrite Hsize, map_size_empty, Nat.eqb_refl. reflexivity. }
  eexists _, _. split.
  - set (model := local_model (Z.min context batch) batch) in *.
    assert (InMemoryModelRegistry_init [model] = Ok (<[m_model_id model := model]> ∅)) as -> by reflexivity.
    assert (InMemoryWorkerRegistry_init (f_of_Z 30) None
      = Ok (mkWorkerRegistry (f_of_Z 30) (f_div (f_of_Z 30) (f_of_Z 2)) ∅)) as -> by (vm_compute; reflexivity).
    cbn [mbind res_bind]. rewrite E1. cbn [mbind res_bind]. rewrite E2. cbn [mbind res_bind].
    rewrite Et. cbn [mbind res_bind]. rewrite Ea. reflexivity.
  - intros t Ht. cbn. apply Hknown. right. rewrite Hids, sorted_by_perm. by apply elem_of_elements.
Qed.

(** ** [POST /v1/platform/generate] *)

Section handler.
Context {S B : Type} `{CoordinationLease L}.
Variable perf : nat → float.
Variable policy_clock : nat → nat → float.
Variable queue_clock : nat → nat → nat → float.
Variable sha256 : string → string.

(** The gateway with its pipeline, if the platform API is enabled; the two share the request store. *)
Record Platform := mkPlatform { pf_gateway : Gateway S B; pf_pipeline : option Pipeline }.
#[local] Abbreviation M := (Eff Platform GwExc).
Definition on_gateway {A} (c : Eff (Gateway S B) GwExc A) : M A := λ p,
  let '(r, g) := c (pf_gateway p) in (r, mkPlatform g (pf_pipeline p)).
(** A computation on the pipeline, over the store of the gateway. *)
Definition on_pipeline {A} (model : ModelDefinition) (w : Plane SimulatedGpuRuntime DemandAwarePlacementPolicy L)
  (c : Eff (Plane SimulatedGpuRuntime DemandAwarePlacementPolicy L) PlaneExc A) : M (PlaneExc + A) := λ p,
  let '(r, w) := c (w <| pl_requests := Some (gw_platform_requests (pf_gateway p)) |>) in
  (inr r, mkPlatform (pf_gateway p <| gw_platform_requests ::= λ m, default m (pl_requests w) |>)
            (Some (model, w))).
Definition count_prompt_tokens (prompt : string) : Z := py_word_count prompt.

(** The time at which the record entered the state. *)
Definition entered_at (s : RequestState) (r : RequestRecord) : res float :=
  match r_transition_timestamps r !! s with
  | Some t => Ok t
  | None => Err (KeyError (RequestState_value s))
  end.
(** [s.upper()] on ASCII letters. *)
Fixpoint py_upper (s : string) : string :=
  match s with
  | String.EmptyString => ""
  | String.String c s =>
    let n := Ascii.N_of_ascii c in
    String.String (if ((97 <=? n) && (n <=? 122))%N then Ascii.ascii_of_N (n - 32) else c) (py_upper s)
  end.
Definition platform_response (record : RequestRecord) (execution : ControlPlane.PlatformGenerationResult)
  : res GenerateResponse :=
  queued_at ← entered_at QUEUED record;
  started_at ← entered_at RUNNING record;
  completed_at ← entered_at COMPLETED record;
  let result := pg_result execution in
  Ok (mkGenerateResponse (r_request_id record) (rr_text result) (rr_input_tokens result)
        (rr_output_tokens result) (f_mul (f_sub completed_at (r_created_at record)) (f_of_Z 1000))
        (f_mul (f_sub started_at queued_at) (f_of_Z 1000)) (pg_scheduler_policy execution)
        (pg_batch_size execution) (py_upper (RequestState_value (r_status record)))).
(** The two [except] clauses; a blocked call would never return. *)
Definition platform_refusal {A} (e : PlaneExc) : M A :=
  match e with
  | PErr (PlatformAdmissionError code reason) =>
    api_error (if bool_decide (code ∈ ["global_queue_full"; "no_healthy_capacity"]) then 503 else 429)
      code reason JNull
  | PErr (PlatformExecutionError message) => api_error 503 "platform_execution_failed" message JNull
  | PErr e => py_raise e
  | PBlocked => py_raise (TimeoutError "")
  end.
(** [fuel] bounds the rounds of the fair queue; [request_id] is drawn by [uuid4]. *)
Definition platform_generate (fuel : nat) (request_id : string) (body : GenerateRequest)
  (authorization : option string) : M GenerateResponse :=
  pipeline ← gets pf_pipeline;
  match pipeline with
  | None => api_error 404 "platform_api_disabled" "the control-plane API is disabled" JNull
  | Some (model, w) =>
    authenticator ← gets (λ p, gw_authenticator (pf_gateway p));
    tenant_id ← authenticate sha256 authorization authenticator;
    _ ← when (py_blank (gb_prompt body)) (api_error 400 "empty_prompt" "prompt must not be empty" JNull);
    settings ← gets (λ p, gw_settings (pf_gateway p));
    _ ← when (cf_max_prompt_characters settings <? py_len (gb_prompt body))
      (api_error 413 "prompt_size_exceeded" "prompt exceeds the configured character limit"
         (JObj [("max_prompt_characters", JInt (cf_max_prompt_characters settings))]));
    let prompt_tokens := count_prompt_tokens (gb_prompt body) in
    _ ← validate_request (gb_prompt body) (gb_max_new_tokens body) prompt_tokens (m_max_context_tokens model)
          (the_limits settings);
    let deadline_seconds := match gb_deadline_seconds body with
                            | Some s => if f_truthy s then s else cf_request_timeout_seconds settings
                            | None => cf_request_timeout_seconds settings
                            end in
    r ← on_pipeline model w (submit clock perf policy_clock queue_clock hostname fuel model request_id tenant_id
          (gb_prompt body) prompt_tokens (gb_max_new_tokens body) (gb_temperature body) (gb_priority body)
          deadline_seconds);
    match r with
    | inl e => platform_refusal e
    | inr execution =>
      record ← gets (λ p, match pf_pipeline p with
                          | Some (_, w) => pl_heap w !!! pg_request execution
                          | None => pl_heap w !!! pg_request execution
                          end);
      lift_py (platform_response record execution)
    end
  end.
End handler.
End pipeline.

(** ** Validated settings can be built *)

Lemma build_engine_ok {S B} `{InferenceBackend S B} settings (backend : S) :
  settings_ok settings →
  ∃ e : TokenGenerationEngine S B, build_engine settings backend = Ok e ∧
    TokenEngineSafe.inv (cf_token_max_batch_size settings) e ∧
    te_max_active_sequences e = cf_max_active_sequences settings.
Proof.
  intros Hs. pose proof (so_positive _ Hs) as Hp. unfold positive_fields in Hp. rewrite !Forall_cons in Hp.
  cbn in Hp. destruct (so_prefix _ Hs) as (Hpe & Hpt & Hpz). pose proof (so_chunk _ Hs) as Hch.
  pose proof (so_policy _ Hs) as Hpol. pose proof (so_watermarks _ Hs) as Hw.
  assert (∃ kv, KVBlockAllocator_init (cf_kv_cache_total_blocks settings) (cf_kv_cache_block_size_tokens settings)
    (cf_kv_cache_bytes_per_block settings) (cf_kv_cache_high_watermark settings)
    (cf_kv_cache_low_watermark settings) = Ok kv ∧ kv_owners kv = ∅) as (kv & Ekv & Hkv).
  { unfold KVBlockAllocator_init. replace (Z.min _ _ <=? 0) with false by lia. rewrite Hw. by eexists. }
  assert (∃ c : PrefixCache (B := B), PrefixCache_init (cf_prefix_cache_max_entries settings)
    (cf_prefix_cache_max_tokens settings) = Ok c) as (cache & Ec).
  { unfold PrefixCache_init. replace (_ || _) with false by lia. cbn [raise_if mbind res_bind].
    destruct (Z.eqb_spec (cf_prefix_cache_max_entries settings) 0), (Z.eqb_spec (cf_prefix_cache_max_tokens settings) 0);
      cbn; try (by eexists); exfalso; lia. }
  assert (∃ e, TokenGenerationEngine_init backend (cf_max_active_sequences settings)
    (Some (cf_token_max_batch_size settings)) (cf_token_scheduling_policy settings) (Some kv)
    (cf_prefill_chunk_size_tokens settings) (Some cache) = Ok e) as [e Ee].
  { unfold TokenGenerationEngine_init.
    replace (cf_max_active_sequences settings <=? 0) with false by lia.
    replace (cf_token_max_batch_size settings <=? 0) with false by lia.
    replace (cf_prefill_chunk_size_tokens settings <? 0) with false by lia. cbn [raise_if mbind res_bind].
    rewrite !elem_of_cons, elem_of_nil in Hpol. unfold PrefillDecodePolicy_init.
    destruct Hpol as [-> |[-> |[-> |[]]]]; cbn; by eexists. }
  exists e. split; [unfold build_engine; by rewrite Ekv; cbn; rewrite Ec|].
  destruct (engine_init_Inv _ _ _ _ _ _ _ _ Ee) as ((Hi & _) & Ha & Hb).
  - intros a [= <-]. split; [|done]. by eapply kv_inv_init.
  - intros c [= <-]. by eapply init_inv.
  - split; [|done]. by rewrite Hb in Hi.
Qed.
(** C30: For settings that pass validate, create_app fails in two cases only, with the very error: a telemetry
    endpoint is set and the optional OpenTelemetry packages are absent (RuntimeError), or API_KEYS, which
    validate does not look at, does not parse (the error of parse_api_keys). Otherwise it succeeds: with the
    token loop the gateway has a token engine in a consistent state and with the configured limits; it has a
    telemetry runtime exactly when an endpoint is set; and the platform pipeline over the simulated GPUs can be
    built, with every configured tenant (or the tenant default, when there are no keys) known to its
    admission control. *)
Theorem validated_settings_build {S B} `{InferenceBackend S B} sha256 isdigit urlparse draw show_float clock hostname
    {L : Type} packages settings (backend : S) worker requests :
  validate isdigit urlparse settings = Ok tt →
  let endpoint := cf_otel_exporter_otlp_endpoint settings in
  let app : res (Gateway S B) := create_app sha256 packages settings None worker backend in
  if bool_decide (endpoint ≠ "") && negb packages
  then app = Err (RuntimeError "OTLP export requires requirements-observability.txt")
  else match parse_api_keys (cf_api_keys settings) with
  | Err e => app = Err e
  | Ok credentials =>
    ∃ (g : Gateway S B) model (w : Plane SimulatedGpuRuntime DemandAwarePlacementPolicy L),
    app = Ok g ∧ gw_otel g = bool_decide (endpoint ≠ "") ∧
    (cf_inference_backend settings = "token_loop" → worker = true → gw_token_engine g ≠ None) ∧
    (∀ e, gw_token_engine g = Some e → TokenEngineSafe.inv (cf_token_max_batch_size settings) e ∧
       te_max_active_sequences e = cf_max_active_sequences settings) ∧
    create_pipeline draw show_float clock hostname settings credentials requests = Ok (model, w) ∧
    ∀ t, t ∈ pipeline_tenants credentials → is_Some (ac_tenants (pl_admission w) !! t)
  end.
Proof.
  intros Hv endpoint app. apply validate_sound in Hv as Hs.
  destruct (build_engine_ok settings backend Hs) as (e & Ee & He).
  assert (configure_opentelemetry packages endpoint =
    if bool_decide (endpoint ≠ "") && negb packages
    then Err (RuntimeError "OTLP export requires requirements-observability.txt")
    else Ok (bool_decide (endpoint ≠ ""))) as Ho.
  { unfold configure_opentelemetry, str_empty. destruct (decide (endpoint = "")) as [->|He0]; [done|].
    rewrite (bool_decide_eq_false_2 _ He0), (bool_decide_eq_true_2 _ He0). by destruct packages. }
  unfold app, create_app. fold endpoint. rewrite Ho. destruct (_ && negb packages); [done|]. cbn [mbind res_bind].
  rewrite Ee.
  assert (∃ eng : option (TokenGenerationEngine S B),
    (if bool_decide (cf_inference_backend settings = "token_loop") && worker
     then e ← Ok e; Ok (Some e) else Ok None) = Ok eng ∧
    (cf_inference_backend settings = "token_loop" → worker = true → eng ≠ None) ∧
    (∀ e, eng = Some e → TokenEngineSafe.inv (cf_token_max_batch_size settings) e ∧
       te_max_active_sequences e = cf_max_active_sequences settings)) as (eng & Eeng & Hsome & Heng).
  { destruct (bool_decide_reflect (cf_inference_backend settings = "token_loop")) as [Hb|Hb], worker;
      cbn; eexists; (split; [reflexivity|]); split; try done. by intros ? [= <-]. }
  rewrite Eeng. cbn [mbind res_bind].
  destruct (parse_api_keys (cf_api_keys settings)) as [credentials|x] eqn:Hc; [|done]. cbn [mbind res_bind].
  destruct (parse_api_keys_spec _ _ Hc) as (_ & Hne & _ & _).
  destruct (create_pipeline_ok draw show_float clock hostname (L := L) settings credentials requests Hs Hne)
    as (model & w & Ew & Hw).
  assert (∃ a, ApiKeyAuthenticator_init sha256 credentials = Ok a) as [a Ea].
  { unfold ApiKeyAuthenticator_init. replace (existsb _ credentials) with false; [by eexists|].
    symmetry. apply not_true_iff_false. intros (p & Hin & Hp)%existsb_exists. rewrite Forall_forall in Hne.
    destruct (Hne p) as [H1 H2]; [by apply list_elem_of_In|]. unfold str_empty in Hp.
    rewrite !bool_decide_eq_false_2 in Hp by done. discriminate Hp. }
  rewrite Ea. cbn [mbind res_bind]. eexists _, model, w. split; [reflexivity|]. by split_and!.
Qed.
(** API_KEYS is checked by [create_app] only: settings with the value x pass [validate]. *)
Lemma validate_misses_api_keys {S B} `{InferenceBackend S B} (backend : S) :
  let settings := Settings_default <| cf_api_keys := "x" |> in
  validate (λ _, false) (λ _, Ok ("", None)) settings = Ok tt ∧
  (create_app id true settings None false backend : res (Gateway S B)) =
    Err (ValueError "API_KEYS entries must use tenant:key").
Proof. split; vm_compute; reflexivity. Qed.
Lemma validated_settings_build_witness :
  validate (λ _, false) (λ _, Ok ("", None)) (Settings_default <| cf_api_keys := "team-a:k1, team-b:k2" |>) = Ok tt ∧
  ∃ (g : Gateway Z (list Z)) model (w : Plane SimulatedGpuRuntime DemandAwarePlacementPolicy unit),
    create_app id false (Settings_default <| cf_api_keys := "team-a:k1, team-b:k2" |>) None true 0 = Ok g ∧
    create_pipeline (λ _, 7) (λ _, "0.0") (λ n, f_of_Z (Z.of_nat n)) "host"
      (Settings_default <| cf_api_keys := "team-a:k1, team-b:k2" |>) [("k1", "team-a"); ("k2", "team-b")] ∅
    = Ok (model, w) ∧ is_Some (ac_tenants (pl_admission w) !! "team-b").
Proof.
  split; [vm_compute; reflexivity|].
  destruct (validated_settings_build (H := sample_backend false) id (λ _, false) (λ _, Ok ("", None)) (λ _, 7)
    (λ _, "0.0") (λ n, f_of_Z (Z.of_nat n)) "host" (L := unit)
    false (Settings_default <| cf_api_keys := "team-a:k1, team-b:k2" |>) 0 true ∅)
    as (g & model & w & Hg & _ & _ & _ & Hw & Ht).
  - vm_compute. reflexivity.
  - exists g, model, w. split; [exact Hg|]. split; [exact Hw|]. apply Ht.
    apply (bool_decide_unpack _). vm_compute. exact I.
Defined.
