(* ===== verification/GatewayMetrics.v ===== *)
(** [apps/gateway/metrics.py]: the snapshot that [GET /metrics] serves, derived from the counters and
    the sample windows of [LocalRequest]. *)
From S2P Require Import Prelude PyContainers PyFloat FloatInt LocalRequest.
From Stdlib Require String.
From stdpp Require Import pretty sorting.

#[local] Open Scope string_scope.
#[local] Open Scope list_scope.
#[local] Open Scope Z_scope.
#[local] Set Default Proof Using "Type".
#[local] Set Proof Using Clear Unused.

(** Python's [max(a, b)] and [min(a, b)]. *)
Definition f_max (a b : float) : float := if f_ltb a b then b else a.
Definition f_min (a b : float) : float := if f_ltb b a then b else a.

Definition percentile (values : list float) (p : float) : float :=
  match sorted_by f_leb values with
  | [] => f_of_Z 0
  | [x] => x
  | ordered =>
    let last := Z.of_nat (length ordered) - 1 in
    let position := f_mul (f_of_Z last) p in
    let low := f_trunc position in
    let high := Z.min (f_trunc position + 1) last in
    let fraction := f_sub position (f_of_Z low) in
    let at_ i := nth (Z.to_nat i) ordered f_zero in
    f_add (at_ low) (f_mul (f_sub (at_ high) (at_ low)) fraction)
  end.
Definition avg (values : list float) : float :=
  match values with [] => f_of_Z 0 | _ => f_div (py_sum values) (f_of_Z (Z.of_nat (length values))) end.
(** The average of [int]s: an exact sum and one rounding. *)
Definition avg_int (values : list Z) : float :=
  match values with [] => f_of_Z 0 | _ => f_ratio (zsum id values) (Z.of_nat (length values)) end.
(** [Counter(self.batch_sizes)], as sorted items. *)
Definition batch_histogram (sizes : list Z) : list (string * Z) :=
  let counts := foldl (λ c size, cadd size 1 c) (∅ : gmap Z Z) sizes in
  (λ p : Z * Z, (pretty p.1, p.2)) <$> sorted_by (λ a b, a.1 <=? b.1) (map_to_list counts).
(** The loop over the left end of the deque. *)
Fixpoint drop_before (cutoff : float) (recent : list (float * Z * float)) : list (float * Z * float) :=
  match recent with
  | c :: rest => if f_ltb c.1.1 cutoff then drop_before cutoff rest else c :: rest
  | [] => []
  end.

Record MetricsSnapshot := mkSnapshot {
  ms_total_requests : Z;
  ms_completed_requests : Z;
  ms_failed_requests : Z;
  ms_rejected_requests : Z;
  ms_timeout_requests : Z;
  ms_cancelled_requests : Z;
  ms_queue_full_rejections : Z;
  ms_rejections_by_reason : list (string * Z);
  ms_active_requests : Z;
  ms_active_model_executions : Z;
  ms_peak_model_executions : Z;
  ms_queued_requests : Z;
  ms_max_queue_depth : Z;
  ms_p50_latency_ms : float;
  ms_p95_latency_ms : float;
  ms_p50_queue_wait_ms : float;
  ms_p95_queue_wait_ms : float;
  ms_p50_ttft_ms : float;
  ms_p95_ttft_ms : float;
  ms_avg_queue_wait_ms : float;
  ms_avg_batch_size : float;
  ms_batch_size_histogram : list (string * Z);
  ms_model_invocations : Z;
  ms_batches : Z;
  ms_avg_validation_tokenization_ms : float;
  ms_avg_worker_tokenization_ms : float;
  ms_avg_generation_ms : float;
  ms_avg_decoding_ms : float;
  ms_avg_batch_collection_ms : float;
  ms_requests_per_second : float;
  ms_tokens_per_second : float;
  ms_recent_window_seconds : float;
  ms_recent_requests_per_second : float;
  ms_recent_tokens_per_second : float;
  ms_recent_p50_latency_ms : float;
  ms_recent_p95_latency_ms : float;
  ms_metrics_sample_limit : Z
}.
(** [started_at] is the reading of the constructor, [now] that of the call. *)
Definition metrics_snapshot (started_at now : float) (queued active max_queue_depth : Z) (m : Metrics)
  : MetricsSnapshot * Metrics :=
  let elapsed := f_max (f_sub now started_at) (f_ratio 1 1000000000) in
  let recent_window_seconds := f_min elapsed (f_of_Z 60) in
  let recent := drop_before (f_sub now (f_of_Z 60)) (mt_recent_completions m) in
  let recent_latencies := (λ c, c.2) <$> recent in
  let half := f_ratio 50 100 in
  let most := f_ratio 95 100 in
  (mkSnapshot (mt_total_requests m) (mt_completed_requests m) (mt_failed_requests m)
     (mt_rejected_requests m) (mt_timeout_requests m) (mt_cancelled_requests m)
     (mt_queue_full_rejections m)
     (sorted_by (λ a b, str_leb a.1 b.1) (map_to_list (mt_rejections_by_reason m)))
     active (mt_active_model_executions m) (mt_peak_model_executions m) queued max_queue_depth
     (percentile (mt_latencies m) half) (percentile (mt_latencies m) most)
     (percentile (mt_queue_waits m) half) (percentile (mt_queue_waits m) most)
     (percentile (mt_ttfts m) half) (percentile (mt_ttfts m) most)
     (avg (mt_queue_waits m)) (avg_int (mt_batch_sizes m)) (batch_histogram (mt_batch_sizes m))
     (mt_model_invocations m) (mt_batches m)
     (avg (mt_validation_tokenization_times m)) (avg (mt_worker_tokenization_times m))
     (avg (mt_generation_times m)) (avg (mt_decoding_times m)) (avg (mt_batch_collection_times m))
     (f_div (f_of_Z (mt_completed_requests m)) elapsed) (f_div (f_of_Z (mt_output_tokens m)) elapsed)
     recent_window_seconds
     (f_div (f_of_Z (Z.of_nat (length recent))) recent_window_seconds)
     (f_div (f_of_Z (zsum (λ c, c.1.2) recent)) recent_window_seconds)
     (percentile recent_latencies half) (percentile recent_latencies most)
     (Z.of_nat (mt_sample_limit m)),
   m <| mt_recent_completions := recent |>).

Example percentile_ex : percentile (f_of_Z <$> [40; 10; 30; 20]) (f_ratio 50 100) = f_of_Z 25.
Proof. vm_compute. reflexivity. Qed.
Example histogram_ex : batch_histogram [2; 8; 2] = [("2", 2); ("8", 1)].
Proof. vm_compute. reflexivity. Qed.

(** ** The histogram counts the samples *)

Lemma counts_spec sizes (c : gmap Z Z) size :
  cget (foldl (λ c size, cadd size 1 c) c sizes) size
  = cget c size + Z.of_nat (length (filter (λ s, s = size) sizes)).
Proof.
  revert c. induction sizes as [|x sizes IH]; intros c; [cbn; lia|]. cbn [foldl].
  rewrite IH, cget_cadd, filter_cons. destruct (decide (x = size)); simpl; lia.
Qed.
(** Only completions older than the cutoff are dropped, and when the completions are in clock order,
    all of them are. *)
Lemma drop_before_spec cutoff recent :
  (∃ old, recent = old ++ drop_before cutoff recent ∧ Forall (λ c, f_ltb c.1.1 cutoff = true) old) ∧
  match drop_before cutoff recent with c :: _ => f_ltb c.1.1 cutoff = false | [] => True end.
Proof.
  induction recent as [|c recent [(old & E & Ho) Hh]]; [by split; [exists []|]|]. cbn [drop_before].
  destruct (f_ltb c.1.1 cutoff) eqn:Ec.
  - split; [|exact Hh]. exists (c :: old). split; [by rewrite E at 1|by constructor].
  - split; [|exact Ec]. by exists [].
Qed.
