(* ===== verification/Observability.v ===== *)
(** [apps/gateway/observability.py]: the trace identifiers of a request, its response headers, and the metrics
    snapshot as Prometheus text. Header values and keys are ASCII, and so is what is compared with them. *)
From S2P Require Import Prelude PyContainers PyFloat PyText Json.
From Stdlib Require String.
From Stdlib Require Import Ascii.

#[local] Open Scope string_scope.
#[local] Open Scope list_scope.
#[local] Open Scope Z_scope.

(** ** The trace context *)

Definition hex_digit (c : ascii) : bool :=
  let n := N_of_ascii c in (((48 <=? n) && (n <=? 57)) || ((97 <=? n) && (n <=? 102)))%N.
(** [[0-9a-f]{n}] at the start of the text, and what follows it. *)
Fixpoint take_hex (n : nat) (s : string) : option (string * string) :=
  match n, s with
  | O, s => Some ("", s)
  | S n, String.String c s => if hex_digit c then '(h, rest) ← take_hex n s; Some (String.String c h, rest) else None
  | S _, String.EmptyString => None
  end.
(** [TRACEPARENT.fullmatch]: the groups [trace_id], [span_id] and [flags]. *)
Definition traceparent_fullmatch (s : string) : option (string * string * string) :=
  s ← str_remove_prefix "00-" s;
  '(trace_id, s) ← take_hex 32 s;
  s ← str_remove_prefix "-" s;
  '(span_id, s) ← take_hex 16 s;
  s ← str_remove_prefix "-" s;
  '(flags, s) ← take_hex 2 s;
  if str_empty s then Some (trace_id, span_id, flags) else None.

Section context.
(** [secrets.token_hex(16)] and [secrets.token_hex(8)] of the request. *)
Variables token_hex_16 token_hex_8 : string.

Definition trace_context (value : option string) : string * string :=
  (match traceparent_fullmatch (py_lower (default "" value)) with
   | Some (trace_id, _, _) => trace_id
   | None => token_hex_16
   end, token_hex_8).

(** [f"{n:0{width}x}"] of a number below [16 ** width]. *)
Definition hex_char (d : Z) : ascii := ascii_of_N (Z.to_N (if d <? 10 then 48 + d else 87 + d)).
Fixpoint hex_padded (width : nat) (n : Z) : string :=
  match width with
  | O => ""
  | S w => String.String (hex_char (n / 16 ^ Z.of_nat w mod 16)) (hex_padded w n)
  end.

(** The headers of a response that [observe_request] reads or sets, beside the rest of the response. *)
Record Response (A : Type) := mkResponse { rs_headers : list (string * string); rs_rest : A }.
Arguments mkResponse {A}. Arguments rs_headers {A}. Arguments rs_rest {A}.

(** [span]: the identifiers of the span that the tracer opens, when there is one. [call_next] gets the trace
    identifier, which the handlers read from the state of the request; [duration] is [duration_ms:.3f]. What is
    logged is not part of the response. *)
Definition observe_request {A} (traceparent : option string) (span : option (Z * Z))
  (call_next : string → res (Response A)) (duration : string) : res (Response A) :=
  let '(trace_id, span_id) :=
    match span with
    | Some (trace, span) => (hex_padded 32 trace, hex_padded 16 span)
    | None => trace_context traceparent
    end in
  response ← call_next trace_id;
  let headers := od_set "x-request-id" trace_id (rs_headers response) in
  let headers := od_set "traceparent" ("00-" +:+ trace_id +:+ "-" +:+ span_id +:+ "-01") headers in
  let headers := od_set "server-timing" ("app;dur=" +:+ duration) headers in
  Ok (mkResponse headers (rs_rest response)).
End context.
Arguments mkResponse {A}. Arguments rs_headers {A}. Arguments rs_rest {A}.

(** The record that [structured_http_log] writes once the response is known; [round_3] is [round(x, 3)]. *)
Definition structured_http_log (round_3 : float → float) (method path : string) (status_code : Z) (trace_id : string)
  (duration_ms : float) : json :=
  JObj (sorted_by (λ a b, str_leb (fst a) (fst b))
    [("event", JStr "http_response_started"); ("method", JStr method); ("path", JStr path);
     ("status_code", JInt status_code); ("duration_ms", JFloat (round_3 duration_ms)); ("trace_id", JStr trace_id)]).

(** ** The Prometheus text *)

Definition name_char (c : ascii) : bool :=
  let n := N_of_ascii c in
  (((48 <=? n) && (n <=? 57)) || ((65 <=? n) && (n <=? 90)) || ((97 <=? n) && (n <=? 122)) || (n =? 95))%N.
(** [re.sub(r"[^a-zA-Z0-9_]", "_", part)]. *)
Fixpoint clean_chars (s : string) : string :=
  match s with
  | String.EmptyString => ""
  | String.String c s => String.String (if name_char c then c else "_"%char) (clean_chars s)
  end.
(** [s.strip("_")]. *)
Fixpoint drop_underscores (l : list ascii) : list ascii :=
  match l with c :: l' => if bool_decide (c = "_"%char) then drop_underscores l' else l | [] => [] end.
Definition strip_underscores (s : string) : string :=
  String.string_of_list_ascii
    (rev (drop_underscores (rev (drop_underscores (String.list_ascii_of_string s))))).
Definition metric_name (parts : list string) : string :=
  let cleaned := map (λ part, strip_underscores (clean_chars part)) parts in
  "llm_scheduler_" +:+ str_join "_"%char (map py_lower (filter (λ part, part ≠ "") cleaned)).

(** The numbers of a snapshot with their paths, a dictionary in the order of its keys; the values are what the
    snapshot holds: [bool], [int] and [float] are numbers, other values are left out. *)
Fixpoint visit (value : json) (path : list string) : list (string * float) :=
  match value with
  | JObj fields =>
    concat (snd <$> sorted_by (λ a b, str_leb (fst a) (fst b))
      (map (λ p, (fst p, visit (snd p) (path ++ [fst p]))) fields))
  | JBool b => [(metric_name path, if b then f_of_Z 1 else f_zero)]
  | JInt n => [(metric_name path, f_of_Z n)]
  | JFloat x => [(metric_name path, x)]
  | _ => []
  end.
Definition prometheus_lines (show_g : float → string) (snapshot : json) : list string :=
  "# Dependency-free Prometheus exposition for the local inference gateway." ::
  concat (map (λ p, ["# TYPE " +:+ fst p +:+ " gauge"; fst p +:+ " " +:+ show_g (snd p)]) (visit snapshot [])).
Definition newline : ascii := ascii_of_N 10.
Definition prometheus_text (show_g : float → string) (snapshot : json) : string :=
  str_join newline (prometheus_lines show_g snapshot) +:+ String.String newline "".

(** ** Lemmas *)

(** [n] hexadecimal digits, in lower case. *)
Definition is_hex (n : nat) (s : string) : bool :=
  Nat.eqb (String.length s) n && forallb hex_digit (String.list_ascii_of_string s).
Lemma is_hex_cons n c s : is_hex (S n) (String.String c s) = hex_digit c && is_hex n s.
Proof. unfold is_hex. cbn. destruct (hex_digit c); [done|]. by rewrite andb_false_r. Qed.
Lemma take_hex_spec n s h rest : take_hex n s = Some (h, rest) → is_hex n h = true.
Proof.
  revert s h rest. induction n as [|n IH]; intros s h rest; [by intros [= <- <-]|]. destruct s as [|c s]; [done|].
  cbn [take_hex]. destruct (hex_digit c) eqn:E; [|done]. intros ([h' rest'] & H & [= <- <-])%bind_Some.
  rewrite is_hex_cons, E. by eapply IH.
Qed.
Lemma take_hex_app n h rest : is_hex n h = true → take_hex n (h +:+ rest) = Some (h, rest).
Proof.
  revert h. induction n as [|n IH]; intros h Hh; [by destruct h|]. destruct h as [|c h]; [done|].
  rewrite is_hex_cons in Hh. apply andb_true_iff in Hh as [Hc Hh].
  change (String.String c h +:+ rest) with (String.String c (h +:+ rest)). cbn [take_hex]. by rewrite Hc, (IH _ Hh).
Qed.
Lemma fullmatch_groups s trace_id span_id flags :
  traceparent_fullmatch s = Some (trace_id, span_id, flags) → is_hex 32 trace_id = true ∧ is_hex 16 span_id = true.
Proof.
  unfold traceparent_fullmatch. intros (s1 & _ & H)%bind_Some. apply bind_Some in H as ([t s2] & Ht%take_hex_spec & H).
  apply bind_Some in H as (s3 & _ & H). apply bind_Some in H as ([p s4] & Hp%take_hex_spec & H).
  apply bind_Some in H as (s5 & _ & H). apply bind_Some in H as ([f s6] & _ & H). by case_match; simplify_eq.
Qed.
Lemma remove_prefix_app p s : str_remove_prefix p (p +:+ s) = Some s.
Proof.
  induction p as [|c p IH]; [done|]. change (String.String c p +:+ s) with (String.String c (p +:+ s)).
  cbn. by rewrite bool_decide_eq_true_2.
Qed.
Lemma py_lower_app a b : py_lower (a +:+ b) = py_lower a +:+ py_lower b.
Proof. induction a as [|c a IH]; [done|]. change (String.String (ascii_lower c) (py_lower (a +:+ b)) = String.String (ascii_lower c) (py_lower a +:+ py_lower b)). by rewrite IH. Qed.
Lemma hex_digit_lower c : hex_digit c = true → ascii_lower c = c.
Proof. unfold hex_digit, ascii_lower. cbv zeta. intros Hc.
  by destruct (N.leb_spec 48 (N_of_ascii c)), (N.leb_spec (N_of_ascii c) 57), (N.leb_spec 97 (N_of_ascii c)),
    (N.leb_spec (N_of_ascii c) 102), (N.leb_spec 65 (N_of_ascii c)), (N.leb_spec (N_of_ascii c) 90); try done; lia. Qed.
Lemma py_lower_hex n s : is_hex n s = true → py_lower s = s.
Proof.
  unfold is_hex. intros [_ H]%andb_true_iff. revert H. induction s as [|c s IH]; [done|].
  cbn. intros [Hc Hs]%andb_true_iff. rewrite (hex_digit_lower c Hc). f_equal. auto.
Qed.
Lemma hex_char_digit d : 0 <= d < 16 → hex_digit (hex_char d) = true.
Proof.
  intros Hd. unfold hex_digit, hex_char. cbv zeta. destruct (Z.ltb_spec d 10); rewrite N_ascii_embedding by lia.
  - by rewrite (proj2 (N.leb_le 48 _)), (proj2 (N.leb_le _ 57)) by lia.
  - rewrite (proj2 (N.leb_le 97 _)), (proj2 (N.leb_le _ 102)) by lia. by rewrite orb_true_r.
Qed.
Lemma hex_padded_hex width n : is_hex width (hex_padded width n) = true.
Proof.
  induction width as [|w IH]; [done|]. cbn [hex_padded]. rewrite is_hex_cons, hex_char_digit, IH; [done|].
  apply Z.mod_pos_bound. lia.
Qed.
(** The header that a response carries names the trace to the next gateway. *)
Lemma trace_context_header t16 t8 trace_id span_id :
  is_hex 32 trace_id = true → is_hex 16 span_id = true →
  trace_context t16 t8 (Some ("00-" +:+ trace_id +:+ "-" +:+ span_id +:+ "-01")) = (trace_id, t8).
Proof.
  intros Ht Hs. unfold trace_context. cbn [default from_option id].
  rewrite !py_lower_app, (py_lower_hex _ _ Ht), (py_lower_hex _ _ Hs).
  unfold traceparent_fullmatch. change (py_lower "00-") with "00-". change (py_lower "-") with "-".
  rewrite remove_prefix_app. cbn [mbind option_bind]. rewrite (take_hex_app _ _ _ Ht). cbn [mbind option_bind].
  rewrite remove_prefix_app. cbn [mbind option_bind]. by rewrite (take_hex_app _ _ _ Hs).
Qed.

(** C28: The trace of a request: the handlers and the caller see the same identifier; it is the one of the request's
    own header when that is well formed and no tracer runs; and the header of the response hands it on, since a
    gateway that receives it continues the same trace. *)
Theorem trace_is_propagated {A} t16 t8 traceparent span (call_next : string → res (Response A)) duration response :
  is_hex 32 t16 = true → is_hex 16 t8 = true →
  observe_request t16 t8 traceparent span call_next duration = Ok response →
  ∃ trace_id span_id inner,
    call_next trace_id = Ok inner ∧ rs_rest response = rs_rest inner ∧
    od_get "x-request-id" (rs_headers response) = Some trace_id ∧
    od_get "traceparent" (rs_headers response) = Some ("00-" +:+ trace_id +:+ "-" +:+ span_id +:+ "-01") ∧
    (span = None → ∀ header incoming parent flags, traceparent = Some header →
       traceparent_fullmatch (py_lower header) = Some (incoming, parent, flags) → trace_id = incoming) ∧
    ∀ t16' t8', trace_context t16' t8' (od_get "traceparent" (rs_headers response)) = (trace_id, t8').
Proof.
  intros H16 H8. unfold observe_request. set (ids := match span with Some (trace, span) => (hex_padded 32 trace, hex_padded 16 span) | None => trace_context t16 t8 traceparent end).
  assert (is_hex 32 ids.1 = true ∧ is_hex 16 ids.2 = true) as [Ht Hs].
  { subst ids. destruct span as [[a b]|]; [by split; apply hex_padded_hex|]. unfold trace_context. cbn [fst snd].
    destruct (traceparent_fullmatch (py_lower (default "" traceparent))) as [[[t p] f]|] eqn:E; [|done]. by apply fullmatch_groups in E as [? _]. }
  assert (span = None → ids = trace_context t16 t8 traceparent) as Hn by by intros ->.
  clearbody ids. destruct ids as [trace_id span_id]. cbn in Ht, Hs. intros (inner & Hc & [= <-])%bind_Ok_inv.
  exists trace_id, span_id, inner. cbn [rs_headers rs_rest].
  rewrite (od_get_set_ne _ "server-timing" "traceparent"), od_get_set_eq by done. split_and!; try done.
  - do 2 (rewrite od_get_set_ne by done). apply od_get_set_eq.
  - intros E. specialize (Hn E). intros header incoming parent flags -> E2. unfold trace_context in Hn.
    cbn [default from_option id] in Hn. rewrite E2 in Hn. congruence.
  - intros. by apply trace_context_header.
Qed.
Lemma trace_is_propagated_witness :
  let incoming := "00-0123456789ABCDEF0123456789abcdef-0123456789abcdef-01" in
  let t16 := "00000000000000000000000000000001" in let t8 := "00000000000000aa" in
  let call_next (_ : string) := Ok (mkResponse [("x-request-id", "old")] 200) in
  ∃ response, observe_request t16 t8 (Some incoming) None call_next "1.250" = Ok response ∧
  rs_headers response =
    [("x-request-id", "0123456789abcdef0123456789abcdef");
     ("traceparent", "00-0123456789abcdef0123456789abcdef-00000000000000aa-01"); ("server-timing", "app;dur=1.250")] ∧
  ∃ trace_id span_id inner,
    call_next trace_id = Ok inner ∧ rs_rest response = rs_rest inner ∧
    od_get "x-request-id" (rs_headers response) = Some trace_id ∧
    od_get "traceparent" (rs_headers response) = Some ("00-" +:+ trace_id +:+ "-" +:+ span_id +:+ "-01") ∧
    ((None : option (Z * Z)) = None → ∀ header incoming' parent flags, Some incoming = Some header →
       traceparent_fullmatch (py_lower header) = Some (incoming', parent, flags) → trace_id = incoming') ∧
    ∀ t16' t8', trace_context t16' t8' (od_get "traceparent" (rs_headers response)) = (trace_id, t8').
Proof.
  intros incoming t16 t8 call_next. eexists. split; [reflexivity|]. split; [reflexivity|].
  apply (trace_is_propagated t16 t8 (Some incoming) None call_next "1.250"); reflexivity.
Defined.

(** A metric name is the prefix and then lower-case letters, digits and underscores, whatever the keys are. *)
Definition metric_char (c : ascii) : bool :=
  let n := N_of_ascii c in (((48 <=? n) && (n <=? 57)) || ((97 <=? n) && (n <=? 122)) || (n =? 95))%N.
Definition every (p : ascii → bool) (s : string) : Prop := Forall (λ c, p c = true) (String.list_ascii_of_string s).
Lemma every_app p a b : every p (a +:+ b) ↔ every p a ∧ every p b.
Proof.
  unfold every. rewrite <- Forall_app. replace (String.list_ascii_of_string (a +:+ b))
    with (String.list_ascii_of_string a ++ String.list_ascii_of_string b); [done|].
  induction a as [|c a IH]; [done|]. cbn. by rewrite IH.
Qed.
Lemma every_cons p c s : every p (String.String c s) ↔ p c = true ∧ every p s.
Proof. unfold every. cbn. by rewrite Forall_cons. Qed.
Lemma every_join p sep parts : p sep = true → Forall (every p) parts → every p (str_join sep parts).
Proof.
  intros Hsep. induction 1 as [|s ss Hs _ IH]; [by constructor|]. destruct ss as [|s' ss]; [done|].
  change (every p (s +:+ String.String sep (str_join sep (s' :: ss)))). rewrite every_app, every_cons. auto.
Qed.
Lemma clean_chars_every s : every name_char (clean_chars s).
Proof.
  induction s as [|c s IH]; [by constructor|]. cbn [clean_chars]. rewrite every_cons. split; [|done].
  by destruct (name_char c) eqn:E.
Qed.
Lemma drop_underscores_incl l : drop_underscores l ⊆ l.
Proof. induction l as [|c l IH]; [done|]. cbn. case_bool_decide; set_solver. Qed.
Lemma strip_underscores_every p s : every p s → every p (strip_underscores s).
Proof.
  unfold every, strip_underscores. rewrite String.list_ascii_of_string_of_list_ascii, !Forall_forall.
  assert (∀ (c : ascii) l, c ∈ rev l → c ∈ l) as Hr by by intros c l; rewrite !list_elem_of_In, <- in_rev.
  intros H c Hc%Hr%drop_underscores_incl%Hr%drop_underscores_incl. by apply H.
Qed.
Lemma name_char_lower c : name_char c = true → metric_char (ascii_lower c) = true.
Proof.
  unfold name_char, metric_char, ascii_lower. cbv zeta. intros Hc.
  destruct ((65 <=? N_of_ascii c)%N && (N_of_ascii c <=? 90)%N) eqn:E.
  - apply andb_true_iff in E as [E1%N.leb_le E2%N.leb_le]. rewrite N_ascii_embedding by lia.
    by rewrite (proj2 (N.leb_le 97 _)), (proj2 (N.leb_le _ 122)), orb_true_r by lia.
  - by rewrite orb_false_r in Hc.
Qed.
Lemma py_lower_every s : every name_char s → every metric_char (py_lower s).
Proof.
  induction s as [|c s IH]; [by constructor|]. rewrite every_cons. intros [Hc Hs]. cbn [py_lower].
  rewrite every_cons. split; [by apply name_char_lower|auto].
Qed.
Lemma metric_name_every parts : every metric_char (metric_name parts).
Proof.
  unfold metric_name. cbv zeta. rewrite every_app. split; [by repeat constructor|].
  apply every_join; [done|]. rewrite Forall_forall. intros s (q & <- & Hq)%list_elem_of_In%in_map_iff.
  apply list_elem_of_In, list_elem_of_filter in Hq as [_ (r & <- & _)%list_elem_of_In%in_map_iff].
  apply py_lower_every, strip_underscores_every, clean_chars_every.
Qed.
(** Every sample of the text has such a name. *)
Lemma visit_names value path p : p ∈ visit value path → every metric_char p.1 ∧ ∃ parts, p.1 = metric_name parts.
Proof.
  cut (p ∈ visit value path → ∃ parts, p.1 = metric_name parts).
  { intros H Hp. destruct (H Hp) as [parts E]. split; [|by exists parts]. rewrite E. apply metric_name_every. }
  revert value path. fix IH 1. intros value path.
  destruct value as [|b|n|x|s|l|fields]; cbn [visit]; intros Hp;
    try (clear IH; by apply not_elem_of_nil in Hp).
  1-3: clear IH; apply list_elem_of_singleton in Hp as ->; by exists path.
  assert (∀ q, q ∈ map (λ p, (fst p, visit (snd p) (path ++ [fst p]))) fields → p ∈ q.2 → ∃ parts, p.1 = metric_name parts) as Hf.
  { clear Hp. induction fields as [|[k v] fields IHf]; intros q; cbn [map fst snd]; [by intros ?%not_elem_of_nil|].
    intros [->|Hq]%elem_of_cons; [apply IH|by apply IHf]. }
  apply list_elem_of_In, in_concat in Hp as (l & (q & -> & Hq)%list_elem_of_In%list_elem_of_fmap & Hp%list_elem_of_In).
  apply elem_of_sorted_by in Hq. by apply (Hf q).
Qed.
Lemma prometheus_text_ex :
  prometheus_text (λ x, if f_eqb x f_zero then "0" else "3")
    (JObj [("kv cache", JObj [("pressure", JBool false)]); ("Completed", JInt 3); ("model", JStr "m")])
  = str_join newline
      ["# Dependency-free Prometheus exposition for the local inference gateway.";
       "# TYPE llm_scheduler_completed gauge"; "llm_scheduler_completed 3";
       "# TYPE llm_scheduler_kv_cache_pressure gauge"; "llm_scheduler_kv_cache_pressure 0"; ""].
Proof. vm_compute. reflexivity. Qed.
