(* ===== verification/GatewayPages.v ===== *)
(** The other responses of [apps/gateway/api.py] and [apps/gateway/main.py]: health, readiness and metrics, the
    rendering of errors, and the configured origins. *)
From S2P Require Import Prelude PyContainers PyFloat PyText Json Effects Domain RequestStore LocalRequest KVCache PrefixCache TokenTypes Transformers InferenceWorker TokenEngine Registry Routing Reservations Worker ControlPlane SimulatedGpu GatewayEdge GatewayConfig Gateway GatewayPlatform GatewayMetrics Observability.
From S2P Require LocalScheduler.
From Stdlib Require String.
From Stdlib Require Import Ascii.

#[local] Open Scope string_scope.
#[local] Open Scope list_scope.
#[local] Open Scope Z_scope.
#[local] Set Default Proof Using "Type".
#[local] Set Proof Using Clear Unused.

(** ** Health and readiness *)

Definition health : json := JObj [("status", JStr "ok")].

Record ReadinessResponse := mkReadiness {
  rd_status : string;
  rd_model_name : string;
  rd_model_loaded : bool;
  rd_context_window_tokens : option Z
}.
Section readiness.
Context `{Transformers}.
(** The worker's exceptions pass through the handler. *)
Definition on_worker {A} (c : Eff (InferenceWorker _) PyErr A) : Eff (InferenceWorker _) GwExc A := λ w,
  let '(r, w) := c w in (match r with inr a => inr a | inl e => inl (GPy e) end, w).
Definition ready : Eff (InferenceWorker _) GwExc ReadinessResponse :=
  worker ← gets id;
  if negb (is_ready worker) then
    api_error 503 "model_not_ready" "model has not loaded successfully"
      (JObj [("model_name", JStr (iw_model_name worker)); ("load_error", jof_opt JStr (iw_load_error worker))])
  else
    window ← on_worker context_window_tokens;
    mret (mkReadiness "ready" (iw_model_name worker) true (Some window)).

(** Asking never loads the model, and the answer is positive only when it is loaded. *)
Lemma ready_loads_nothing w : (ready w).2 = w.
Proof.
  unfold ready, on_worker, context_window_tokens, ensure_loaded, is_ready, the_model, no_attribute, mbind, M_bind, gets, id.
  destruct (iw_model w) as [m|] eqn:Em; cbn -[usable_windows]; [|done]. rewrite Em. cbn -[usable_windows].
  rewrite Em. cbn -[usable_windows].
  match goal with |- context [usable_windows ?l] => by destruct (usable_windows l) end.
Qed.
Lemma ready_loaded w r : (ready w).1 = inr r → is_ready w = true ∧ rd_model_name r = iw_model_name w.
Proof.
  unfold ready, mbind, M_bind, gets, id. destruct (is_ready w) eqn:Er; cbn; [|done].
  destruct (on_worker context_window_tokens w) as [[e|n] w']; cbn; by intros [= <-].
Qed.
End readiness.

(** ** Errors *)

(** [JSONResponse]; the headers are those of the exception. *)
Record ErrorResponse := mkError { er_status_code : Z; er_content : json; er_headers : list (string * string) }.
Definition error_content (error : json) : json := JObj [("error", error)].
(** [errors]: [exc.errors()] of the failed validation. *)
Definition validation_error (errors : json) : ErrorResponse :=
  mkError 400 (error_content (JObj [("code", JStr "request_validation_error");
                                    ("message", JStr "request body validation failed");
                                    ("details", errors)])) [].
(** [py_str]: [str] of a detail that is neither a dictionary nor a string. *)
Definition http_error (py_str : json → string) (status_code : Z) (detail : json) (headers : list (string * string))
  : ErrorResponse :=
  let plain message := JObj [("code", JStr "http_error"); ("message", JStr message); ("details", JNull)] in
  let error :=
    match detail with
    | JObj fields => if od_has "code" fields && od_has "message" fields then detail else plain (py_str detail)
    | JStr message => plain message
    | _ => plain (py_str detail)
    end in
  mkError status_code (error_content error) headers.
(** [APIError.__init__] and its rendering. *)
Definition api_detail (e : APIError) : json :=
  JObj [("code", JStr (ae_code e)); ("message", JStr (ae_message e)); ("details", ae_details e)].
(** A client sees the code and the message of every [APIError]. *)
Lemma api_error_rendered py_str e :
  http_error py_str (ae_status_code e) (api_detail e) [] = mkError (ae_status_code e) (error_content (api_detail e)) [].
Proof. done. Qed.

(** [cors_allowed_origins]. *)
Definition cors_origins (s : Settings) : list string :=
  filter (λ origin, origin ≠ "") (map py_strip (str_split ","%char (cf_cors_allowed_origins s))).

(** ** Metrics *)

Definition int_field (key : string) (n : Z) : string * json := (key, JInt n).
Definition float_field (key : string) (x : float) : string * json := (key, JFloat x).
Definition counts_field (key : string) (counts : list (string * Z)) : string * json :=
  (key, JObj (map (λ p, (p.1, JInt p.2)) counts)).
(** The dictionary that [Metrics.snapshot] returns. *)
Definition snapshot_fields (m : MetricsSnapshot) : list (string * json) :=
  [int_field "total_requests" (ms_total_requests m);
   int_field "completed_requests" (ms_completed_requests m);
   int_field "failed_requests" (ms_failed_requests m);
   int_field "rejected_requests" (ms_rejected_requests m);
   int_field "timeout_requests" (ms_timeout_requests m);
   int_field "cancelled_requests" (ms_cancelled_requests m);
   int_field "queue_full_rejections" (ms_queue_full_rejections m);
   counts_field "rejections_by_reason" (ms_rejections_by_reason m);
   int_field "active_requests" (ms_active_requests m);
   int_field "active_model_executions" (ms_active_model_executions m);
   int_field "peak_model_executions" (ms_peak_model_executions m);
   int_field "queued_requests" (ms_queued_requests m);
   int_field "max_queue_depth" (ms_max_queue_depth m);
   float_field "p50_latency_ms" (ms_p50_latency_ms m);
   float_field "p95_latency_ms" (ms_p95_latency_ms m);
   float_field "p50_queue_wait_ms" (ms_p50_queue_wait_ms m);
   float_field "p95_queue_wait_ms" (ms_p95_queue_wait_ms m);
   float_field "p50_ttft_ms" (ms_p50_ttft_ms m);
   float_field "p95_ttft_ms" (ms_p95_ttft_ms m);
   float_field "avg_queue_wait_ms" (ms_avg_queue_wait_ms m);
   float_field "avg_batch_size" (ms_avg_batch_size m);
   counts_field "batch_size_histogram" (ms_batch_size_histogram m);
   int_field "model_invocations" (ms_model_invocations m);
   int_field "batches" (ms_batches m);
   float_field "avg_validation_tokenization_ms" (ms_avg_validation_tokenization_ms m);
   float_field "avg_worker_tokenization_ms" (ms_avg_worker_tokenization_ms m);
   float_field "avg_generation_ms" (ms_avg_generation_ms m);
   float_field "avg_decoding_ms" (ms_avg_decoding_ms m);
   float_field "avg_batch_collection_ms" (ms_avg_batch_collection_ms m);
   float_field "requests_per_second" (ms_requests_per_second m);
   float_field "tokens_per_second" (ms_tokens_per_second m);
   float_field "recent_window_seconds" (ms_recent_window_seconds m);
   float_field "recent_requests_per_second" (ms_recent_requests_per_second m);
   float_field "recent_tokens_per_second" (ms_recent_tokens_per_second m);
   float_field "recent_p50_latency_ms" (ms_recent_p50_latency_ms m);
   float_field "recent_p95_latency_ms" (ms_recent_p95_latency_ms m);
   int_field "metrics_sample_limit" (ms_metrics_sample_limit m)].
Definition settings_fields (s : Settings) : list (string * json) :=
  [("model_name", JStr (cf_model_name s));
   ("model_revision", JStr (cf_model_revision s));
   ("scheduler_policy", JStr (cf_scheduler_policy s));
   int_field "max_batch_size" (cf_max_batch_size s);
   int_field "max_wait_ms" (cf_max_wait_ms s);
   int_field "max_total_batch_tokens" (cf_max_total_batch_tokens s)].
(** What an engine adds, and what a book of reservations adds. *)
Definition engine_fields (n : TokenSchedulerSnapshot) : list (string * json) :=
  let kv := sn_kv_cache n in
  let prefix := sn_prefix_cache n in
  [("token_scheduler", JObj
     [int_field "waiting_sequences" (sn_waiting_sequences n);
      int_field "running_sequences" (sn_running_sequences n);
      int_field "iterations" (sn_scheduler_iterations n);
      int_field "prefill_batches" (sn_prefill_batches n);
      int_field "decode_batches" (sn_decode_batches n);
      int_field "max_observed_batch_size" (sn_max_observed_batch_size n);
      ("policy", JStr (sn_policy n))]);
   ("kv_cache", JObj
     [int_field "kv_blocks_total" (ks_total_blocks kv);
      int_field "kv_blocks_used" (ks_used_blocks kv);
      int_field "kv_blocks_free" (ks_free_blocks kv);
      int_field "kv_cache_bytes_used" (ks_bytes_used kv);
      float_field "kv_cache_utilization" (ks_utilization kv);
      int_field "kv_allocation_failures" (ks_allocation_failures kv);
      ("kv_cache_pressure", JBool (ks_pressure kv))]);
   ("prefix_cache", JObj
     [int_field "entries" (ps_entries prefix);
      int_field "cached_tokens" (ps_cached_tokens prefix);
      int_field "max_entries" (ps_max_entries prefix);
      int_field "max_tokens" (ps_max_tokens prefix);
      int_field "hits" (ps_hits prefix);
      int_field "misses" (ps_misses prefix);
      float_field "hit_rate" (hit_rate prefix);
      int_field "insertions" (ps_insertions prefix);
      int_field "evictions" (ps_evictions prefix);
      int_field "bypasses" (ps_bypasses prefix);
      int_field "exact_hits" (ps_exact_hits prefix);
      int_field "partial_hits" (ps_partial_hits prefix);
      int_field "matched_tokens" (ps_matched_tokens prefix)])].
Definition reservation_fields (r : PlacementReservationSnapshot) : list (string * json) :=
  [("placement_reservations", JObj
     [int_field "active" (ps_active_reservations r);
      int_field "reserved_memory_bytes" (ps_reserved_memory_bytes r);
      counts_field "demand_by_model" (ps_demand_by_model r)])].
(** [dict.update]. *)
Definition od_update {A} (new old : list (string * A)) : list (string * A) :=
  foldl (λ d p, od_set p.1 p.2 d) old new.
(** [sub in s]. *)
Definition py_in (sub s : string) : bool := match String.index 0 sub s with Some _ => true | None => false end.

Inductive MetricsPage := PageText (body : string) | PageJson (snapshot : json).

Section metrics.
Context {S B : Type} `{InferenceBackend S B} {L : Type}.
(** [Metrics.started_at], [time.monotonic] and [format] with [g]. *)
Variable started_at : float.
Variable clock : nat → float.
Variable show_g : float → string.

Definition metrics_fields (snapshot : MetricsSnapshot) (g : Gateway S B)
  (pipeline : option (ModelDefinition * Plane SimulatedGpuRuntime DemandAwarePlacementPolicy L)) : list (string * json) :=
  let fields := od_update (settings_fields (gw_settings g)) (snapshot_fields snapshot) in
  let fields := match gw_token_engine g with
                | Some engine => od_update (engine_fields (scheduler_snapshot engine)) fields
                | None => fields
                end in
  match pipeline ≫= λ p, pl_reservations p.2 with
  | Some book => od_update (reservation_fields (reservations_snapshot book)) fields
  | None => fields
  end.
(** [accept]: the header of that name, or the empty text. *)
Definition metrics (accept : string) : Eff (Platform (S := S) (B := B) (L := L)) GwExc MetricsPage :=
  now ← on_gateway (monotonic clock);
  p ← gets id;
  let g := pf_gateway p in
  let w := gw_local g in
  let '(snapshot, window) := metrics_snapshot started_at now (LocalScheduler.qsize (LocalScheduler.wd_queue w))
    (cl_active (gw_limiter g)) (LocalScheduler.wd_max_observed_size w) (LocalScheduler.wd_metrics w) in
  _ ← on_gateway (update_metrics (λ _, window));
  let fields := metrics_fields snapshot g (pf_pipeline p) in
  mret (if py_in "text/plain" accept then PageText (prometheus_text show_g (JObj fields)) else PageJson (JObj fields)).
End metrics.

(** ** Lemmas *)

(** The parts have different keys, so no [update] replaces a value: the page holds all of them. *)
Lemma metrics_fields_eq {S B} `{InferenceBackend S B} {L} snapshot (g : Gateway S B)
    (pipeline : option (ModelDefinition * Plane SimulatedGpuRuntime DemandAwarePlacementPolicy L)) :
  metrics_fields snapshot g pipeline
  = snapshot_fields snapshot ++ settings_fields (gw_settings g)
    ++ match gw_token_engine g with Some e => engine_fields (scheduler_snapshot e) | None => [] end
    ++ match pipeline ≫= λ p, pl_reservations p.2 with
       | Some book => reservation_fields (reservations_snapshot book)
       | None => []
       end.
Proof.
  unfold metrics_fields. generalize (gw_settings g). intros settings.
  destruct (gw_token_engine g) as [e|]; [generalize (scheduler_snapshot e); intros n|];
    (destruct (pipeline ≫= _) as [book|]; [generalize (reservations_snapshot book); intros r|]); reflexivity.
Qed.
Example http_error_ex :
  http_error (λ _, "") 404 (JStr "Not Found") []
  = mkError 404 (JObj [("error", JObj [("code", JStr "http_error"); ("message", JStr "Not Found");
                                       ("details", JNull)])]) [].
Proof. reflexivity. Qed.
Example cors_origins_ex :
  cors_origins (Settings_default <| cf_cors_allowed_origins := "https://a.test, ,https://b.test" |>)
  = ["https://a.test"; "https://b.test"].
Proof. vm_compute. reflexivity. Qed.
